(* ===== verification/_CoqProject ===== *)
-Q . S2P
Prelude.v
Bits.v
Quota.v
Bitmap.v
BitAlloc.v
Cpuset.v
CoreAlloc.v
Queue.v
Rcu.v
Timeout.v
Sc.v
Sm.v
Avl.v
AvlRemove.v
Mdb.v
Space.v
Crd.v
Vregs.v
Sysargs.v
Utcb.v
Buddy.v
Pte.v
PteKinds.v
PteMap.v
PteSound.v
PteUpdate.v
PteClear.v
PteBuddy.v
Slab.v
SlabSound.v
SlabCache.v
SlabSpec.v
HptOps.v
SpacePio.v
SpaceObj.v
SpaceObjSound.v
SpaceObjDemo.v
Derivation.v
Pd.v
SpaceMem.v
SpaceMemSound.v
SpaceMemUpdate.v
SpaceMemSpec.v
HptSync.v
SpaceMemDemo.v
Delegate.v
Revoke.v
Ipc.v
IpcSound.v
IpcTrip.v
Acpi.v
Tip.v
Srat.v
Gsi.v
Madt.v
Kobject.v
Hypercall.v
HypercallSound.v
HypercallSpec.v
