(* ===== verification/Prelude.v ===== *)
(** * A verification library for the NOVA microhypervisor

    The repository is a microhypervisor for x86 (the 64-bit build is modelled):
    protection domains hold capabilities, memory and I/O ports in spaces that
    are delegated and revoked; execution contexts run on scheduling contexts
    and synchronise on semaphores; cells share the CPU cores.  This library
    models the data structures and algorithms the kernel is built from and
    proves what the kernel relies on.  Names follow the source; a file of the
    library corresponds to these files under [src/] ([include/] and [src/]):

    - [Prelude]: machine words, the error type and lemmas on lists that the
      components share.
    - [Bits] ([bits.hpp]), [Bitmap] ([atomic.hpp]): bit scans, alignment,
      atomic operations on words, arrays of words as bit sets.
    - [Quota] ([quota.hpp]): memory quotas of protection domains.
    - [BitAlloc] ([bit_alloc.hpp]): identifier allocation.
    - [Cpuset] ([cpuset.hpp]): CPU sets and their iterators.
    - [CoreAlloc] ([core_allocator], [resource], [cell], [cip], and the
      hypercalls [sys_alloc], [sys_release], [sys_cell_ctrl]): sharing of
      cores between cells.
    - [Queue] ([queue.hpp]): intrusive rings.
    - [Rcu] ([refptr.hpp], [rcu]): reference counters, deferred reclamation.
    - [Timeout] ([timeout], [timeout_budget]): the timeout queue.
    - [Sc] ([sc]): the scheduler.  [Sm] ([sm], [si]): semaphores and signals.
    - [Avl], [AvlRemove] ([avl]): balanced trees on pointers.
    - [Mdb] ([mdb]): the mapping database.  [Space] ([space.hpp]): the regions
      of a space.
    - [Crd] ([crd.hpp], [capability.hpp], [qpd.hpp]): capability descriptors.
    - [Vregs] ([regs.hpp], [regs.cpp]): the registers of a virtual CPU, its
      control structures under VMX and SVM, control-register virtualisation.
    - [Sysargs] ([syscall.hpp]): the arguments of hypercalls.
    - [Utcb] ([utcb], [mtd.hpp]): message transfer to and from the state of
      threads and virtual CPUs.
    - [Buddy] ([buddy]): the page allocator.
    - [Pte] ([pte], [hpt.hpp], [ept.hpp], [dpt.hpp], [ipt.hpp]): page tables,
      an interface for their four kinds and the operations over it.
      [PteKinds]: the kinds satisfy the laws of the interface.  [PteMap]: the
      tree of tables in memory and the contract of the page allocator.
      [PteSound], [PteUpdate], [PteClear]: walks, updates and removal as
      operations on a map of translations.  [PteBuddy]: the buddy allocator
      keeps the contract.
    - [Slab] ([slab]): caches of elements in pages of that allocator.
      [SlabSound]: the parts of a slab and the list of slabs.  [SlabCache]: a
      cache is a set of elements.  [SlabSpec]: for clients, and applied.
    - [HptOps] ([hpt]), [HptSync]: copies between the roots of page tables.
    - [SpaceMem] ([space_mem]): memory spaces.  [SpaceMemSound],
      [SpaceMemUpdate], [SpaceMemSpec]: what an update of a space does to each
      of its page tables.  [SpaceMemDemo]: the theorems applied.
    - [SpacePio] ([space_pio]): port spaces and their bitmaps.  [SpaceObj],
      [SpaceObjSound], [SpaceObjDemo] ([space_obj]): object spaces, as a map
      from selectors to capabilities.
    - [Derivation]: the system of all spaces and delegation trees, on [Space]
      and [Mdb].  [Pd] ([pd]): delegation, revocation, translation and devices
      of protection domains.  [Delegate], [Revoke]: what delegation and
      revocation promise.
    - [Ipc] ([ec.hpp], [ec.cpp], [pt.hpp], [oom.cpp], the message passing of
      [syscall.cpp]): execution contexts, their calls and replies, the ways to
      user mode.  [IpcSound]: the invariant of the contexts and the kernel as a
      transition system.  [IpcTrip]: a call with its reply, and examples.
    - [Acpi] ([acpi_table]): the tables of the firmware and their entries.
      [Tip] ([tip]), [Srat] ([acpi_srat], [Lapic::lookup]): the topology pages
      and the affinity table they are built from.  [Gsi] ([gsi], [ioapic.hpp],
      [sys_sm_ctrl] and [sys_assign_gsi] of [syscall.cpp]): routing and masking
      of interrupts.  [Madt] ([acpi_madt]): the interrupt table.
    - [Kobject] ([kobject.hpp], the constructors and destructors of [pd], [ec],
      [sc], [pt], [sm] and [si], message areas in [space_mem], [insert_root] in
      [space_obj]): kernel objects, their memory and references.  [Hypercall]
      ([sys_create_pd], [sys_create_ec], [sys_create_sc], [sys_create_pt],
      [sys_create_sm], [sys_pt_ctrl], [sys_pd_ctrl], [sys_sc_ctrl] of
      [syscall.cpp]): the hypercalls that create and control them.
      [HypercallSound]: the invariant of objects, capabilities and references.
      [HypercallSpec]: what the hypercalls promise, and where they fail.

    ** How the components interact

    The mapping database implements the interface [AvlNode] of the balanced
    tree; [Space] runs the tree on the nodes of the database.  The scheduler
    uses the rings of [Queue], the counters of [Rcu] and, through the interface
    [BudgetTimer], the timeout queue.  Semaphores use [Queue] and the counters;
    the core allocator reaches semaphores through [SemOps], walks [Cpuset]s
    with callbacks that change the set, and yields through the info page that
    user space reads.  Protection domains change spaces and the mapping
    database together; what happens to page tables, shootdowns and the IOMMU
    are for them the interface [PdEnv].  The buddy allocator links its free
    lists as [Queue] does and charges a [Quota].  Page tables take their pages
    from any allocator that keeps the contract [FramesOk], which [PteBuddy]
    proves of the buddy allocator, and so do slabs; their kinds are instances of [PteKind] with
    the laws [PteLaws]; [SpaceMem] runs four of them over one memory.  [Sysargs] and [Utcb] read and write the register
    file of [Vregs]; [Utcb] loads and stores guests through its control words.
    Execution contexts use all of these: a message is moved by [Utcb], its typed
    items by [Pd], and a handler ends in a context, the scheduler or user mode;
    capability lookup, semaphore counters and the FPU are the interface [IpcEnv].
    Kernel objects are nodes of the mapping database that enter the object space
    of their creator; tables of capabilities, page tables and slabs are for them
    the interface [ObjEnv] with the laws [ObjEnvOk], and what other components do
    next is a log of events.
    The parsers of [Srat] and [Madt] fold their handlers over the entries that
    [Acpi] finds in the bytes of a table, into the pages of [Tip] and the routing
    of [Gsi], whose interrupts reach the semaphores of [Sm].

    ** Conventions

    A w-bit integer is a [Z] in [[0, 2^w)], every operation that can leave the
    range wraps.  Objects are numbers, pointer fields are functions from
    objects, [None] is the null pointer.  A function that returns [option] is
    [None] when the code dereferences null, fails an assertion or runs out of
    fuel; theorems that promise a result prove that it is [Some].  Loops that
    are not structural take fuel; the theorems say which amount suffices
    ([tree_fuel] and [addreg_fuel] are 140: a balanced tree of fewer than
    [2^64] nodes is at most 129 high, a range is cut into at most 128 blocks).
    Critical sections are atomic steps.  Interleavings of CPUs are explicit
    sequences of steps in [Rcu], [CoreAlloc] and [IpcSound].  The number of
    partners that [activate] follows is bounded by the number of contexts.

    ** Conditions of the theorems

    Each theorem says in its comment what it assumes.  The conditions that
    matter most:

    - [CoreAlloc]: a hypercall runs to its end before the next one starts; the
      code takes no lock, and [CoreAlloc.overlap_loses_core] is a run in which
      two overlapping calls lose a core.  Workers join and leave cells, and user
      code writes what it can write, at any time.
    - [Rcu]: the functions are atomic; the compare-and-swap of [start_batch]
      succeeds at once.
    - [Buddy]: the constructor is modelled where the descriptors end below the
      list heads ([Buddy.storage_apart]; elsewhere it is [None]), which
      [Buddy.index_storage_fits] characterises.
    - [Delegate]: port descriptors are aligned and overlap ([ports_ok]), the
      two domains differ; [Delegate.del_crd_unaligned_ports] shows what happens
      without.  [Revoke]: [Pd.revoke] is sequential, neither preempted nor
      interleaved with other CPUs; [Revoke.revoke_withdraws] is about revocation
      with its children, [Revoke.keep_children_spec] about one node whose
      children stay.
    - [IpcSound]: contexts have no portal for memory exhaustion and do not call
      other CPUs; [ready] holds of the context that runs (its typed items can
      be moved, its processor state can be saved); the destruction of a
      semaphore does not release a virtual CPU ([frees_vcpu]).  Without the
      last one the theorems are false: [IpcTrip.semaphore_lets_guest_out].
    - [Vregs], [Utcb]: a reply is confined under the controls that the
      kernel forces, with those of shadow paging where nested paging is off.

    ** What the theorems show

    Invariants in every reachable state ([CoreAlloc], [Rcu]); refinement of
    lists and sets by pointer structures ([Queue], [Timeout], [Cpuset]);
    functional behaviour of every branch ([Sm], [BitAlloc], [Space]);
    balance and order of trees ([Avl], [AvlRemove]); liveness of allocation,
    yielding and timeouts; termination of [Rcu::update] and of the scheduler;
    bounds of quotas; exact allocation of pages ([Buddy]); round trips of
    messages and register packings and the confinement of what a reply can
    change ([Utcb], [Sysargs], [Vregs]); page tables as maps, their separation
    and the return of all their pages ([PteUpdate], [PteClear]); a node of the
    mapping database in all page tables of its domain ([SpaceMemSpec]), in its
    bitmaps ([SpacePio]) and in its array of capabilities ([SpaceObjSound]);
    elements of slabs that never overlap ([SlabSpec]); topology pages that say
    what the firmware reports ([Srat]), processors enumerated and interrupts
    routed to pins that exist ([Madt]), level-triggered interrupts masked until
    they are served ([Gsi]);
    confinement of delegation
    ([Delegate]) and reach of revocation ([Revoke]); the handlers of
    execution contexts never get stuck, keep callers, callees and references
    consistent and contexts of their kind ([IpcSound], under the conditions
    above); hypercalls that create objects make one
    object and one capability or nothing, and in any sequence of them
    capabilities name objects that exist ([HypercallSpec]), while semaphores are
    asked for with the own domain and no domain runs out of memory.  Some theorems state behaviour that the code
    hardly intends: the overflow in [Quota.transfer_to_overflow], the core lost in
    [CoreAlloc.overlap_loses_core], the parent
    pointers left behind in [Mdb.remove_inner_dangles], the missing check in
    [CoreAlloc.sys_release_return_unchecked], the signals stranded in
    [Sm.zero_down_strands_signal], the overlap of page descriptors with list
    heads in [Buddy.index_storage_fits], the ports given away in
    [Delegate.del_crd_unaligned_ports], the pages left behind in
    [Revoke.pre_free_leaves_high], the tables leaked by
    [PteUpdate.update_leaks], the index out of bounds in
    [Srat.srat_unknown_cpu], the wrong node in [Srat.lookup_by_number], the pin
    lost in [Gsi.ioapic_sleep], the capability for a deleted domain in
    [HypercallSpec.create_pd_dangles], the semaphore in a foreign cache in
    [HypercallSpec.create_sm_foreign], the delegated memory beyond revocation in
    [HypercallSpec.remove_utcb_strands], the killed handler that runs again in
    [IpcTrip.oom_call_revives_dead] and the guest that escapes in
    [IpcTrip.semaphore_lets_guest_out].

    ** Not modelled

    Instruction-level code (assembly entry paths, MSR, VMX, SVM and port
    accesses), device drivers and the other tables read at boot (local APICs,
    timers, IOMMU, PCI, power management, consoles), and the printing of trace messages: their behaviour is that of
    hardware.  Of execution contexts: their migration and destruction from
    callbacks of RCU, calls to other CPUs ([sys_xcpu_call], [oom_xcpu]) and lazy FPU switching.
    Where components create objects these are fresh; the memory they
    lie in is the matter of [Slab].  Semaphores that somebody waits for and
    contexts that ran are destroyed in [Sm] and [Ipc] as far as modelled:
    [Kobject] takes down objects that are new.  Shadow paging ([vtlb]) reads guest
    memory through accesses that fault, and the set-up of domains, contexts and
    CPUs runs once and consists of the instructions above.  The constants and
    addresses of the 64-bit build are used throughout. *)
From Stdlib Require Export ZArith Lia Bool.
From stdpp Require Export base list gmap functions numbers.

(** ** Machine words

    The model is the x86_64 build of the kernel: [mword], [Paddr] and
    [unsigned long] are 64-bit, [uint32] and [unsigned] 32-bit and
    [uint16] 16-bit unsigned integers.  A w-bit value is an integer in
    [[0, 2^w)]; every operation that can leave the range is followed by
    [wrap]. *)

Definition wrap (w z : Z) : Z := z mod 2 ^ w.

Definition word (w z : Z) : Prop := (0 ≤ z < 2 ^ w)%Z.

#[export] Instance word_dec w z : Decision (word w z).
Proof. unfold word. apply _. Defined.

Declare Scope word_scope.
Delimit Scope word_scope with W.

Definition wadd (x y : Z) : Z := wrap 64 (x + y).
Definition wsub (x y : Z) : Z := wrap 64 (x - y).
Definition wshl (x n : Z) : Z := wrap 64 (Z.shiftl x n).
Definition wnot (x : Z) : Z := 2 ^ 64 - 1 - x.

(** The operands of a word expression are word expressions. *)
Notation "x + y" := (wadd x%W y%W) : word_scope.
Notation "x - y" := (wsub x%W y%W) : word_scope.
Notation "x << y" := (wshl x%W y%W) (at level 54, left associativity) : word_scope.
Notation "x >> y" := (Z.shiftr x%W y%W) (at level 54, left associativity) : word_scope.
Notation "x .& y" := (Z.land x%W y%W) (at level 56, left associativity) : word_scope.
Notation "x .^ y" := (Z.lxor x%W y%W) (at level 57, left associativity) : word_scope.
Notation "x .| y" := (Z.lor x%W y%W) (at level 58, left associativity) : word_scope.

(** [~0UL]. *)
Definition ones64 : Z := 2 ^ 64 - 1.

(** [C++] contextual conversion of an integer to [bool]. *)
Definition truthy (z : Z) : bool := negb (z =? 0)%Z.

(** ** Automation *)

Create HintDb nova.
Create Rewrite HintDb bits.

Lemma wrap_small w z : word w z → wrap w z = z.
Proof. intros. apply Z.mod_small. done. Qed.

Lemma wrap_word w z : (0 ≤ w)%Z → word w (wrap w z).
Proof. intros. apply Z.mod_pos_bound. lia. Qed.

Lemma wrap_bits w z i :
  (0 ≤ w)%Z → Z.testbit (wrap w z) i = (i <? w)%Z && Z.testbit z i.
Proof.
  intros Hw. unfold wrap. destruct (Z.ltb_spec i w) as [Hi|Hi]; simpl.
  - destruct (Z.le_gt_cases 0 i); [by apply Z.mod_pow2_bits_low|].
    by rewrite !Z.testbit_neg_r by lia.
  - by rewrite Z.mod_pow2_bits_high by lia.
Qed.

Lemma word_bits w z i : word w z → (w ≤ i)%Z → Z.testbit z i = false.
Proof.
  intros [H0 H1] Hi. destruct (Z.le_gt_cases 0 w).
  - rewrite <-(Z.mod_small z (2 ^ w)) by lia. by rewrite Z.mod_pow2_bits_high by lia.
  - rewrite Z.pow_neg_r in H1 by lia. lia.
Qed.

Lemma bits_word w z :
  (0 ≤ w)%Z → (0 ≤ z)%Z → (∀ i, (w ≤ i)%Z → Z.testbit z i = false) → word w z.
Proof.
  intros Hw Hz Hb. split; [done|].
  destruct (Z.lt_ge_cases z (2 ^ w)) as [|Hge]; [done|exfalso].
  assert (0 < 2 ^ w)%Z by (apply Z.pow_pos_nonneg; lia).
  assert (w ≤ Z.log2 z)%Z as Hl.
  { apply Z.log2_le_pow2; lia. }
  specialize (Hb _ Hl). rewrite Z.bit_log2 in Hb by lia. done.
Qed.

Lemma wnot_lnot x : wnot x = wrap 64 (Z.lnot x) ∨ ¬ word 64 x.
Proof.
  destruct (decide (word 64 x)) as [[H0 H1]|]; [left|by right].
  unfold wnot, wrap, Z.lnot.
  replace (Z.pred (- x)) with ((2 ^ 64 - 1 - x) + (-1) * 2 ^ 64)%Z by lia.
  rewrite Z.mod_add by lia. symmetry. apply Z.mod_small. lia.
Qed.

Lemma wnot_bits x i :
  word 64 x → Z.testbit (wnot x) i = (0 <=? i)%Z && (i <? 64)%Z && negb (Z.testbit x i).
Proof.
  intros Hx. destruct (wnot_lnot x) as [->|]; [|done].
  rewrite wrap_bits by lia.
  destruct (Z.leb_spec 0 i); simpl.
  - by rewrite Z.lnot_spec by lia.
  - rewrite Z.testbit_neg_r by lia. by rewrite andb_false_r.
Qed.

Lemma wnot_word x : word 64 x → word 64 (wnot x).
Proof. unfold word, wnot. lia. Qed.

Lemma land_word_l w x y : (0 ≤ w)%Z → word w x → word w (Z.land x y).
Proof.
  intros Hw Hx. apply bits_word; [done|apply Z.land_nonneg; left; apply Hx|].
  intros i Hi. by rewrite Z.land_spec, (word_bits w x i).
Qed.

Lemma lor_word w x y : (0 ≤ w)%Z → word w x → word w y → word w (Z.lor x y).
Proof.
  intros Hw Hx Hy. apply bits_word; [done|apply Z.lor_nonneg; split; [apply Hx|apply Hy]|].
  intros i Hi. by rewrite Z.lor_spec, (word_bits w x i), (word_bits w y i).
Qed.

Lemma wshl_word x n : word 64 (wshl x n).
Proof. by apply wrap_word. Qed.

Lemma wadd_word x y : word 64 (wadd x y).
Proof. by apply wrap_word. Qed.

Lemma wsub_word x y : word 64 (wsub x y).
Proof. by apply wrap_word. Qed.

#[export] Hint Resolve wrap_word wnot_word land_word_l lor_word wshl_word
  wadd_word wsub_word : nova.

Lemma wadd_small x y : (0 ≤ x + y < 2 ^ 64)%Z → wadd x y = (x + y)%Z.
Proof. intros. by apply wrap_small. Qed.

Lemma wsub_small x y : (0 ≤ x - y < 2 ^ 64)%Z → wsub x y = (x - y)%Z.
Proof. intros. by apply wrap_small. Qed.

Lemma wshl_small x n :
  (0 ≤ n)%Z → (0 ≤ x * 2 ^ n < 2 ^ 64)%Z → wshl x n = (x * 2 ^ n)%Z.
Proof. intros. unfold wshl. rewrite Z.shiftl_mul_pow2 by lia. by apply wrap_small. Qed.

Lemma wshl_1 n : (0 ≤ n < 64)%Z → wshl 1 n = (2 ^ n)%Z.
Proof.
  intros. rewrite wshl_small; [lia|lia|].
  split; [lia|]. rewrite Z.mul_1_l. apply Z.pow_lt_mono_r; lia.
Qed.

Lemma wshl_bits x n i :
  (0 ≤ n)%Z → (0 ≤ i)%Z → Z.testbit (wshl x n) i = (i <? 64)%Z && Z.testbit x (i - n).
Proof. intros. unfold wshl. rewrite wrap_bits by lia. by rewrite Z.shiftl_spec by lia. Qed.

(** The test [(x ^ y) >> o == 0], by which the mapping database compares
    addresses, says that both lie in the same aligned block of [2^o]. *)
Lemma lxor_shiftr_eq0 x y o :
  (0 ≤ o)%Z → Z.shiftr (Z.lxor x y) o = 0%Z ↔ (x / 2 ^ o = y / 2 ^ o)%Z.
Proof.
  intros Ho. rewrite <-!Z.shiftr_div_pow2 by done. rewrite Z.shiftr_lxor.
  apply Z.lxor_eq_0_iff.
Qed.

Lemma div_eq_range x b o :
  (0 ≤ o)%Z → (b mod 2 ^ o = 0)%Z → (x / 2 ^ o = b / 2 ^ o)%Z ↔ (b ≤ x < b + 2 ^ o)%Z.
Proof.
  intros Ho Hb. assert (0 < 2 ^ o)%Z by (apply Z.pow_pos_nonneg; lia).
  pose proof (Z.div_mod b (2 ^ o)) as Db. pose proof (Z.div_mod x (2 ^ o)) as Dx.
  pose proof (Z.mod_pos_bound x (2 ^ o)). split; intros HH; [|].
  - rewrite HH in Dx. lia.
  - symmetry. apply (Z.div_unique x (2 ^ o) (b / 2 ^ o) (x - b)); lia.
Qed.

Lemma ones_pow2 o : (0 ≤ o)%Z → Z.ones o = (2 ^ o - 1)%Z.
Proof. intros. rewrite Z.ones_equiv. lia. Qed.

Lemma mod_pow2_bits0 b o :
  (0 ≤ o)%Z → (b mod 2 ^ o = 0)%Z ↔ (∀ i, (0 ≤ i < o)%Z → Z.testbit b i = false).
Proof.
  intros Ho. split.
  - intros Hb i Hi. rewrite <-(Z.mod_pow2_bits_low b o i) by lia. by rewrite Hb, Z.bits_0.
  - intros Hb. apply Z.bits_inj'. intros i Hi. rewrite Z.bits_0.
    destruct (Z.lt_ge_cases i o).
    + rewrite Z.mod_pow2_bits_low by lia. apply Hb. lia.
    + by apply Z.mod_pow2_bits_high; lia.
Qed.

(** [bitwise] reduces an equation between words to an equation between their
    bits and splits on the comparisons of bit positions. *)
#[export] Hint Rewrite Z.land_spec Z.lor_spec Z.lxor_spec Z.bits_0 : bits.

Ltac bit_step :=
  match goal with
  | |- context [Z.testbit (Z.shiftr _ _) _] => rewrite Z.shiftr_spec by lia
  | |- context [Z.testbit (Z.shiftl _ _) _] => rewrite Z.shiftl_spec by lia
  | |- context [Z.testbit (wshl _ _) _] => rewrite wshl_bits by lia
  | |- context [Z.testbit (wrap _ _) _] => rewrite wrap_bits by lia
  | |- context [Z.testbit (Z.ones _) _] => rewrite Z.testbit_ones_nonneg by lia
  | |- context [(?a <? ?b)%Z] => destruct (Z.ltb_spec a b)
  | |- context [(?a <=? ?b)%Z] => destruct (Z.leb_spec a b)
  end.

Ltac bitwise :=
  apply Z.bits_inj'; intros ?i ?Hi;
  repeat (first [progress autorewrite with bits | bit_step]);
  simpl; try lia.

(** Case analysis on the comparisons of a program condition. *)
Ltac zcase :=
  repeat match goal with
  | |- context [(?a =? ?b)%Z] => destruct (Z.eqb_spec a b)
  | |- context [(?a <? ?b)%Z] => destruct (Z.ltb_spec a b)
  | |- context [(?a <=? ?b)%Z] => destruct (Z.leb_spec a b)
  | H : context [(?a =? ?b)%Z] |- _ => destruct (Z.eqb_spec a b)
  | H : context [(?a <? ?b)%Z] |- _ => destruct (Z.ltb_spec a b)
  | H : context [(?a <=? ?b)%Z] |- _ => destruct (Z.leb_spec a b)
  end.

Lemma truthy_true z : truthy z = true ↔ z ≠ 0%Z.
Proof. unfold truthy. destruct (Z.eqb_spec z 0); simpl; naive_solver. Qed.

Lemma truthy_false z : truthy z = false ↔ z = 0%Z.
Proof. unfold truthy. destruct (Z.eqb_spec z 0); simpl; naive_solver. Qed.

(** ** Congruence modulo [2^w]

    Sums and differences of words are equal when the unwrapped sums are
    congruent; [wcong] drops the inner reductions by setoid rewriting. *)
#[export] Instance eqm_equiv N : Equivalence (eqm N) := eqm_setoid N.
#[export] Instance eqm_add N : Proper (eqm N ==> eqm N ==> eqm N) Z.add := Zplus_eqm N.
#[export] Instance eqm_sub N : Proper (eqm N ==> eqm N ==> eqm N) Z.sub := Zminus_eqm N.

#[export] Instance wrap_proper w : Proper (eqm (2 ^ w) ==> eqm (2 ^ w)) (wrap w).
Proof. intros x y Hxy. unfold wrap. by rewrite Hxy. Qed.

Lemma wrap_eqm w a : eqm (2 ^ w) (wrap w a) a.
Proof. apply Zmod_eqm. Qed.

Ltac wcong :=
  simpl in *; unfold wadd, wsub in *;
  match goal with |- wrap ?w ?a = wrap ?w ?b => change (eqm (2 ^ w) a b) end;
  repeat rewrite wrap_eqm;
  unfold eqm; f_equal; lia.

(** ** Blocks

    [in_block i o p]: [p] lies in the block of [2^o] numbers that starts at [i]. *)
Section blocks.
Local Open Scope Z_scope.

Definition in_block (i o p : Z) : Prop := i ≤ p < i + 2 ^ o.

Lemma pow2_pos o : 0 ≤ o → 0 < 2 ^ o.
Proof. intros. apply Z.pow_pos_nonneg; lia. Qed.

Lemma pow2_succ o : 0 ≤ o → 2 ^ (o + 1) = 2 * 2 ^ o.
Proof. intros. rewrite Z.pow_add_r by lia. lia. Qed.

(** Aligned blocks are nested or disjoint. *)
Lemma aligned_nested i o i' o' p :
  0 ≤ o ≤ o' → i mod 2 ^ o = 0 → i' mod 2 ^ o' = 0 →
  in_block i o p → in_block i' o' p → i' ≤ i ∧ i + 2 ^ o ≤ i' + 2 ^ o'.
Proof.
  unfold in_block. intros Ho Hi Hi' Hp Hp'.
  pose proof (pow2_pos o). pose proof (pow2_pos (o' - o)).
  assert (2 ^ o' = 2 ^ (o' - o) * 2 ^ o) as E by (rewrite <-Z.pow_add_r by lia; f_equal; lia).
  assert (∃ a, i = a * 2 ^ o) as [a ->] by (apply Z.mod_divide in Hi as [a ->]; eauto; lia).
  assert (∃ c, i' = c * 2 ^ o') as [c ->] by (apply Z.mod_divide in Hi' as [c ->]; eauto; lia).
  rewrite E in *. set (d := 2 ^ (o' - o)) in *. set (w := 2 ^ o) in *.
  assert (a < c * d + d) by (apply (Z.mul_lt_mono_pos_r w); lia).
  assert (c * d < a + 1) by (apply (Z.mul_lt_mono_pos_r w); lia).
  nia.
Qed.

Lemma in_block_self i o : 0 ≤ o → in_block i o i.
Proof. unfold in_block. pose proof (pow2_pos o). lia. Qed.
End blocks.

(** Sequencing in the option monad. *)
Lemma bind_some {A B} (x : A) (f : A → option B) : Some x ≫= f = f x.
Proof. done. Qed.

(** ** Lists *)

Lemma filter_none {A} (P : A → Prop) `{∀ x, Decision (P x)} (l : list A) :
  (∀ x, x ∈ l → ¬ P x) → filter P l = [].
Proof.
  induction l as [|x l IH]; intros Hl; [done|].
  rewrite filter_cons_False by (apply Hl; left). apply IH. intros y Hy. apply Hl. by right.
Qed.

Lemma filter_ext_in {A} (P Q : A → Prop)
    `{∀ x, Decision (P x)} `{∀ x, Decision (Q x)} (l : list A) :
  (∀ x, x ∈ l → P x ↔ Q x) → filter P l = filter Q l.
Proof.
  induction l as [|x l IH]; intros Hl; [done|].
  assert (filter P l = filter Q l) as Hrec by (apply IH; intros y Hy; apply Hl; by right).
  specialize (Hl x ltac:(left)). destruct (decide (P x)).
  - rewrite !filter_cons_True by tauto. by rewrite Hrec.
  - rewrite !filter_cons_False by tauto. by rewrite Hrec.
Qed.

Lemma filter_fmap {A B} (P : B → Prop) `{∀ x, Decision (P x)} (f : A → B) (l : list A) :
  filter P (f <$> l) = f <$> filter (λ x, P (f x)) l.
Proof.
  induction l as [|x l IH]; [done|]. rewrite fmap_cons.
  destruct (decide (P (f x))).
  - rewrite !filter_cons_True by done. by rewrite IH.
  - rewrite !filter_cons_False by done. done.
Qed.

Lemma seqZ_shift m d n : seqZ (m + d) n = (λ k, (k + d)%Z) <$> seqZ m n.
Proof.
  unfold seqZ. rewrite <-list_fmap_compose. apply list_fmap_ext.
  intros ? x ?. simpl. lia.
Qed.

Lemma filter_seqZ_head (P : Z → Prop) `{∀ x, Decision (P x)} m n c l x :
  filter P (seqZ m n) = c :: l → x ∈ filter P (seqZ m n) → (c ≤ x)%Z.
Proof.
  destruct (Z.le_gt_cases 0 n) as [Hn|Hn].
  2: { rewrite seqZ_nil by lia. done. }
  revert m. pattern n. apply natlike_ind; [done| |done].
  clear n Hn. intros n Hn IH m. rewrite seqZ_cons by lia. rewrite Z.pred_succ.
  destruct (decide (P m)).
  - rewrite filter_cons_True by done. intros [= <- _] [->|Hx]%elem_of_cons; [lia|].
    apply list_elem_of_filter in Hx as [_ Hx%elem_of_seqZ]. lia.
  - rewrite filter_cons_False by done. apply IH.
Qed.
