(* ===== verification/Bits.v ===== *)
(** Bit scanning, alignment and division helpers of [include/bits.hpp].

    [bsf] and [bsr] return the index of the least and most significant set
    bit; [max_order] is the block order by which [Space::addreg] and the CIP
    mapping loop cut a region into naturally aligned blocks. *)
From S2P Require Import Prelude.
Local Open Scope Z_scope.

(** Number of trailing zeros of a positive number: what [bsf] computes. *)
Fixpoint ctz (p : positive) : Z :=
  match p with
  | xO p' => Z.succ (ctz p')
  | _ => 0
  end.

(** [bit_scan_msb]: [8 * sizeof (v) - 1 - __builtin_clzl (v)]. *)
Definition bit_scan_msb (v : Z) : Z :=
  if v =? 0 then -1 else 64 - 1 - (63 - Z.log2 v).

Definition bit_scan_reverse (val : Z) : Z :=
  if val =? 0 then -1 else Z.log2 val.

Definition bit_scan_forward (val : Z) : Z :=
  match val with
  | Zpos p => ctz p
  | _ => -1
  end.

(** The result is an [unsigned long]: the order of an empty region is the
    conversion of -1. *)
Definition max_order (base size : Z) : Z :=
  let o := bit_scan_reverse size in
  let o := if truthy base then Z.min (bit_scan_forward base) o else o in
  wrap 64 o.

(** Quotient, and the remainder stored through [r]. *)
Definition div64 (n d : Z) : Z * Z := (n / d, wrap 32 (n mod d)).

Definition align_dn (val align : Z) : Z := Z.land val (wnot (align - 1)%W).

Definition align_up (val align : Z) : Z := align_dn (val + (align - 1))%W align.

Fixpoint pos_popcount (p : positive) : Z :=
  match p with
  | xH => 1
  | xO p' => pos_popcount p'
  | xI p' => 1 + pos_popcount p'
  end.

Definition popcount (bitset : Z) : Z :=
  match bitset with
  | Zpos p => pos_popcount p
  | _ => 0
  end.

(** ** Bit scans *)

Lemma ctz_spec p :
  0 ≤ ctz p ∧ Z.testbit (Zpos p) (ctz p) = true ∧
  (∀ i, 0 ≤ i < ctz p → Z.testbit (Zpos p) i = false).
Proof.
  induction p as [p IH|p IH|]; simpl.
  - split; [lia|]. split; [done|]. lia.
  - destruct IH as (H0 & H1 & H2). change (Zpos (xO p)) with (2 * Zpos p)%Z.
    split; [lia|]. split.
    + by rewrite Z.double_bits_succ.
    + intros i Hi. destruct (decide (i = 0)) as [->|]; [by rewrite Z.testbit_even_0|].
      replace i with (Z.succ (i - 1)) by lia. rewrite Z.double_bits_succ. apply H2. lia.
  - split; [lia|]. split; [done|]. lia.
Qed.

Lemma bit_scan_forward_spec v :
  0 < v →
  0 ≤ bit_scan_forward v ∧ Z.testbit v (bit_scan_forward v) = true ∧
  (∀ i, 0 ≤ i < bit_scan_forward v → Z.testbit v i = false).
Proof. destruct v as [|p|p]; [lia| |lia]. intros _. apply ctz_spec. Qed.

Lemma bit_scan_forward_none v : 0 ≤ v → bit_scan_forward v = -1 ↔ v = 0.
Proof.
  destruct v as [|p|p]; [done| |lia]. intros _.
  pose proof (proj1 (ctz_spec p)). simpl. split; lia.
Qed.

Lemma bit_scan_forward_lt w v : 0 ≤ w → 0 < v → word w v → bit_scan_forward v < w.
Proof.
  intros Hw Hv Hword. destruct (bit_scan_forward_spec v Hv) as (H0 & H1 & _).
  destruct (Z.lt_ge_cases (bit_scan_forward v) w) as [|Hge]; [done|].
  by rewrite (word_bits w v) in H1.
Qed.

(** [o] is at most the scanned bit exactly when [2^o] divides the value. *)
Lemma bit_scan_forward_divide v o :
  0 < v → 0 ≤ o → v mod 2 ^ o = 0 ↔ o ≤ bit_scan_forward v.
Proof.
  intros Hv Ho. destruct (bit_scan_forward_spec v Hv) as (H0 & H1 & H2).
  rewrite mod_pow2_bits0 by done. split.
  - intros Hb. destruct (Z.le_gt_cases o (bit_scan_forward v)); [done|].
    rewrite Hb in H1 by lia. done.
  - intros Hle i Hi. apply H2. lia.
Qed.

Lemma bit_scan_reverse_pow2 v o :
  0 < v → 0 ≤ o → 2 ^ o ≤ v ↔ o ≤ bit_scan_reverse v.
Proof.
  intros Hv Ho. unfold bit_scan_reverse. destruct (Z.eqb_spec v 0); [lia|].
  apply Z.log2_le_pow2. lia.
Qed.

Lemma bit_scan_reverse_bounds v : word 64 v → 0 < v → 0 ≤ bit_scan_reverse v < 64.
Proof.
  intros [_ Hv] Hp. unfold bit_scan_reverse. destruct (Z.eqb_spec v 0); [lia|].
  split; [apply Z.log2_nonneg|]. apply Z.log2_lt_pow2; lia.
Qed.

Lemma max_order_eq base size :
  word 64 base → word 64 size → 0 < size →
  max_order base size =
    (if base =? 0 then bit_scan_reverse size
     else Z.min (bit_scan_forward base) (bit_scan_reverse size)) ∧
  0 ≤ max_order base size < 64.
Proof.
  intros Hb Hs Hp. pose proof (bit_scan_reverse_bounds size Hs Hp).
  assert (∀ o, 0 ≤ o < 64 → wrap 64 o = o) as Hw by (intros; apply wrap_small; split; lia).
  unfold max_order, truthy. destruct (Z.eqb_spec base 0) as [->|Hne]; simpl.
  - rewrite Hw by lia. lia.
  - destruct (bit_scan_forward_spec base) as (H0 & _); [destruct Hb; lia|].
    rewrite Hw by lia. lia.
Qed.

(** [max_order] is the largest order of a naturally aligned block that starts
    at [base] and fits in [size]. *)
Lemma max_order_spec base size :
  word 64 base → word 64 size → 0 < size →
  let o := max_order base size in
  0 ≤ o < 64 ∧ base mod 2 ^ o = 0 ∧ 2 ^ o ≤ size ∧
  (∀ o', 0 ≤ o' → base mod 2 ^ o' = 0 → 2 ^ o' ≤ size → o' ≤ o).
Proof.
  intros Hb Hs Hp. destruct (max_order_eq base size Hb Hs Hp) as [-> Hr].
  simpl. split; [by destruct (max_order_eq base size Hb Hs Hp) as [<- ?]|].
  pose proof (bit_scan_reverse_bounds size Hs Hp).
  destruct (Z.eqb_spec base 0) as [->|Hne].
  - split; [apply Z.mod_0_l, Z.pow_nonzero; lia|]. split.
    + apply bit_scan_reverse_pow2; lia.
    + intros. apply bit_scan_reverse_pow2; lia.
  - assert (0 < base) as Hbp by (destruct Hb; lia).
    destruct (bit_scan_forward_spec base Hbp) as (H0 & _).
    split; [apply bit_scan_forward_divide; lia|]. split.
    + apply bit_scan_reverse_pow2; lia.
    + intros o' Ho' Hal Hle. apply bit_scan_forward_divide in Hal; [|lia..].
      apply bit_scan_reverse_pow2 in Hle; lia.
Qed.

(** ** Alignment *)

Lemma align_dn_eq val o :
  word 64 val → 0 ≤ o < 64 → align_dn val (2 ^ o) = val - val mod 2 ^ o.
Proof.
  intros Hv Ho. unfold align_dn.
  assert (0 < 2 ^ o) by (apply Z.pow_pos_nonneg; lia).
  assert (2 ^ o < 2 ^ 64) by (apply Z.pow_lt_mono_r; lia).
  rewrite wsub_small by lia.
  assert (Z.land val (wnot (2 ^ o - 1)) = Z.shiftl (Z.shiftr val o) o) as ->.
  { apply Z.bits_inj'. intros i Hi. rewrite Z.land_spec, wnot_bits by (split; lia).
    rewrite <-ones_pow2, Z.testbit_ones_nonneg by lia. rewrite Z.shiftl_spec by lia.
    destruct (Z.leb_spec 0 i); [|lia]. destruct (Z.ltb_spec i o); simpl.
    - rewrite !andb_false_r. by rewrite Z.testbit_neg_r by lia.
    - rewrite Z.shiftr_spec by lia. replace (i - o + o) with i by lia.
      destruct (Z.ltb_spec i 64); simpl; [by rewrite andb_true_r|].
      by rewrite (word_bits 64 val i). }
  rewrite Z.shiftl_mul_pow2, Z.shiftr_div_pow2 by lia.
  pose proof (Z.div_mod val (2 ^ o)). lia.
Qed.

Lemma align_dn_spec val o :
  word 64 val → 0 ≤ o < 64 →
  align_dn val (2 ^ o) mod 2 ^ o = 0 ∧ align_dn val (2 ^ o) ≤ val < align_dn val (2 ^ o) + 2 ^ o.
Proof.
  intros Hv Ho. rewrite align_dn_eq by done.
  assert (0 < 2 ^ o) by (apply Z.pow_pos_nonneg; lia).
  pose proof (Z.mod_pos_bound val (2 ^ o)). split; [|lia].
  rewrite Zminus_mod_idemp_r, Z.sub_diag. apply Z.mod_0_l. lia.
Qed.

(** When the sum does not overflow, [align_up] is the least multiple of the
    alignment that is not below the value. *)
Lemma align_up_spec val o :
  word 64 val → 0 ≤ o < 64 → val + 2 ^ o - 1 < 2 ^ 64 →
  align_up val (2 ^ o) mod 2 ^ o = 0 ∧ val ≤ align_up val (2 ^ o) < val + 2 ^ o.
Proof.
  intros [Hv0 Hv1] Ho Hov. unfold align_up.
  assert (0 < 2 ^ o) by (apply Z.pow_pos_nonneg; lia).
  assert (2 ^ o < 2 ^ 64) by (apply Z.pow_lt_mono_r; lia).
  rewrite (wsub_small (2 ^ o) 1) by lia. rewrite wadd_small by lia.
  destruct (align_dn_spec (val + (2 ^ o - 1)) o) as [? ?]; [split; lia|lia|]. lia.
Qed.

(** [div64] is Euclidean division, and the 32-bit remainder loses nothing. *)
Lemma div64_spec n d :
  0 < d < 2 ^ 32 → let '(q, r) := div64 n d in n = q * d + r ∧ 0 ≤ r < d.
Proof.
  intros Hd. unfold div64. pose proof (Z.mod_pos_bound n d).
  rewrite wrap_small by (split; lia). pose proof (Z.div_mod n d). lia.
Qed.
