(* ===== verification/Quota.v ===== *)
(** Kernel memory quotas: [Quota] and [Quota_guard] of [include/quota.hpp].

    A quota counts the pages a protection domain uses ([used]), the limit it
    was given ([upli]), the part of the limit that may not be handed on
    ([notr]) and an overrun ([over]): pages that were freed against this
    quota although they had been charged to another one.  Two quantities are
    meaningful across quotas: the net number of charged pages [net] and the
    net limit [cap].  The spinlocks make every operation atomic; an operation
    on two quotas is two critical sections, one per quota, modelled by one
    function each. *)
From S2P Require Import Prelude.
Local Open Scope Z_scope.

Record quota := Quota { used : Z; over : Z; upli : Z; notr : Z }.

#[export] Instance quota_eq_dec : EqDecision quota.
Proof. solve_decision. Defined.

Definition quota_new : quota := Quota 0 0 0 0.

Definition alloc (q : quota) (p : Z) : quota :=
  Quota (used q + p)%W (over q) (upli q) (notr q).

Definition free (q : quota) (p : Z) : quota :=
  if p <=? used q then Quota (used q - p)%W (over q) (upli q) (notr q)
  else Quota 0 (over q + (p - used q))%W (upli q + (p - used q))%W (notr q).

Definition usage (q : quota) : Z := used q.

Definition limit (q : quota) : Z := upli q.

(** [Quota::boot] sets the kernel's limit to what the kernel used so far and
    takes that amount from the root's limit. *)
Definition boot (kern root : quota) : quota * quota :=
  (Quota (used kern) (over kern) (used kern) (notr kern),
   Quota (used root) (over root) (upli root - used kern)%W (notr root)).

(** Second critical section of [free_up]: the receiver takes over the amounts
    and cancels overrun against usage. *)
Definition free_up_give (to : quota) (l u o : Z) : quota :=
  let to := Quota (used to + u)%W (over to + o)%W (upli to + l)%W (notr to) in
  if truthy (over to) && truthy (used to) then
    let s := Z.min (used to) (over to) in
    Quota (used to - s)%W (over to - s)%W (upli to - s)%W (notr to)
  else to.

Definition free_up (q to : quota) : quota * quota :=
  (Quota 0 0 0 (notr q), free_up_give to (upli q) (used q) (over q)).

Definition hit_limit (q : quota) (free_space : Z) : bool :=
  if upli q <? free_space then true
  else (upli q - free_space)%W <? usage q.

(** First critical section of [transfer_to]: the guards, then the amount and
    the part of the overrun that goes with it leave the quota. *)
Definition transfer_out (q : quota) (transfer : Z) (check_notr : bool) : option (quota * Z) :=
  if hit_limit q 0 then None
  else
    let not_for_transfer := if check_notr then notr q else 0 in
    if (upli q - not_for_transfer)%W <? (usage q + transfer)%W then None
    else
      let o := Z.min (over q) transfer in
      Some (Quota (used q) (over q - o)%W (upli q - transfer)%W (notr q), o).

(** Second critical section of [transfer_to], on the receiver. *)
Definition transfer_in (to : quota) (transfer o : Z) : quota :=
  let to := Quota (used to) (over to) (upli to + transfer)%W (notr to) in
  if truthy (used to) && truthy o then
    let u := Z.min (used to) o in
    Quota (used to - u)%W (over to + (o - u))%W (upli to - u)%W (notr to)
  else to.

Definition transfer_to (q to : quota) (transfer : Z) (check_notr : bool) : bool * quota * quota :=
  match transfer_out q transfer check_notr with
  | None => (false, q, to)
  | Some (q', o) => (true, q', transfer_in to transfer o)
  end.

(** [q.set_limit (l, h, from)]: returns the result, [q] and [from]. *)
Definition set_limit (q : quota) (l h : Z) (from : quota) : bool * quota * quota :=
  match transfer_to from q h true with
  | (false, from', q') => (false, q', from')
  | (true, from', q') => (true, Quota (used q') (over q') (upli q') l, from')
  end.

(** [Quota_guard::check]: the guard's own quota [q] is filled up from the
    guarded quota [r] until [req] pages fit. *)
Definition guard_check (q r : quota) (req : Z) : bool * quota * quota :=
  if negb (hit_limit q req) then (true, q, r)
  else
    let req :=
      if limit q <=? usage q then (req + (usage q - limit q))%W
      else (req - (limit q - usage q))%W in
    let '(ok, r', q') := transfer_to r q req false in
    (ok, q', r').

(** [~Quota_guard]: what is left goes back to the guarded quota. *)
Definition guard_destroy (q r : quota) : quota := (free_up q r).2.

(** ** Well-formed quotas and what is conserved *)

Definition quota_wf (q : quota) : Prop :=
  word 64 (used q) ∧ word 64 (over q) ∧ word 64 (upli q) ∧ word 64 (notr q).

#[export] Instance quota_wf_dec q : Decision (quota_wf q).
Proof. unfold quota_wf. apply _. Defined.

(** Charged pages and limit, each less the overrun. *)
Definition net (q : quota) : Z := (used q - over q)%W.
Definition cap (q : quota) : Z := (upli q - over q)%W.

Lemma alloc_net q p : net (alloc q p) = (net q + p)%W.
Proof. unfold net, cap. wcong. Qed.

Lemma free_net q p : net (free q p) = (net q - p)%W.
Proof. unfold free. unfold net, cap. zcase; wcong. Qed.

Lemma alloc_cap q p : cap (alloc q p) = cap q.
Proof. unfold net, cap. wcong. Qed.

Lemma free_cap q p : cap (free q p) = cap q.
Proof. unfold free. unfold net, cap. zcase; wcong. Qed.

Lemma transfer_in_net to transfer o :
  used to ≠ 0 ∨ o = 0 → net (transfer_in to transfer o) = (net to - o)%W.
Proof.
  intros Hor. unfold transfer_in, net, cap. simpl.
  destruct (truthy (used to)) eqn:Hu; destruct (truthy o) eqn:Ho; simpl;
    rewrite ?truthy_false, ?truthy_true in *;
    try (destruct Hor; [done|subst o]); try subst o; try done; wcong.
Qed.

Lemma transfer_in_cap to transfer o :
  used to ≠ 0 ∨ o = 0 → cap (transfer_in to transfer o) = (cap to + (transfer - o))%W.
Proof.
  intros Hor. unfold transfer_in, net, cap. simpl.
  destruct (truthy (used to)) eqn:Hu; destruct (truthy o) eqn:Ho; simpl;
    rewrite ?truthy_false, ?truthy_true in *;
    try (destruct Hor; [done|subst o]); try subst o; try done; wcong.
Qed.

Lemma hit_limit_false q f :
  quota_wf q → word 64 f →
  hit_limit q f = false ↔ used q + f ≤ upli q.
Proof.
  intros (Hu & _ & Hl & _) [Hf0 Hf1]. destruct Hu, Hl. unfold hit_limit, usage.
  destruct (Z.ltb_spec (upli q) f); [split; [done|lia]|].
  rewrite wsub_small by lia. zcase; split; (done || lia).
Qed.

Lemma transfer_out_eq q t cn q' o :
  transfer_out q t cn = Some (q', o) →
  o = Z.min (over q) t ∧ q' = Quota (used q) (over q - o)%W (upli q - t)%W (notr q).
Proof.
  unfold transfer_out. destruct (hit_limit q 0); [done|].
  destruct (_ <? _); [done|]. by intros [= <- <-].
Qed.

(** What a successful first phase guarantees when the requested amount does
    not overflow the addition of line 115. *)
Lemma transfer_out_spec q transfer cn q' o :
  quota_wf q → word 64 transfer → used q + transfer < 2 ^ 64 →
  (cn = true → notr q ≤ upli q) →
  transfer_out q transfer cn = Some (q', o) →
  o = Z.min (over q) transfer ∧
  q' = Quota (used q) (over q - o) (upli q - transfer) (notr q) ∧
  used q + transfer + (if cn then notr q else 0) ≤ upli q.
Proof.
  intros Hwf Ht Hov Hn. unfold transfer_out.
  destruct (hit_limit q 0) eqn:Hh; [done|].
  apply hit_limit_false in Hh; [|done|split; lia].
  destruct Hwf as (Hu & Ho & Hl & Hnw), Ht. destruct Hu, Ho, Hl, Hnw.
  assert (0 ≤ (if cn then notr q else 0) ≤ upli q) by (destruct cn; [specialize (Hn eq_refl)|]; lia).
  unfold usage. rewrite (wsub_small (upli q) (if cn then _ else _)) by lia.
  rewrite wadd_small by lia. zcase; [done|].
  rewrite !wsub_small by lia. intros [= <- <-]. auto with lia.
Qed.

(** ** Properties *)

(** What a successful [transfer_to] loses: the overrun that leaves the giver,
    when the receiver has no usage to cancel it against ([if (to.used && o)]
    has no else branch). *)
Definition lost_overrun (q to : quota) (t : Z) : Z :=
  if used to =? 0 then Z.min (over q) t else 0.

(** Handing quota from one domain to another: a refused call changes
    nothing; after an accepted one the limits have moved by the amount, and the
    sums of the net charges and of the net limits of the two quotas (modulo
    [2^64]) are unchanged except for the overrun that the code drops: when the
    receiver uses no page, both sums have grown by exactly the overrun that was
    to move. *)
Theorem transfer_to_conserves q to t cn b q' to' :
  transfer_to q to t cn = (b, q', to') →
  if b : bool then
    (net q' + net to')%W = (net q + net to + lost_overrun q to t)%W ∧
    (cap q' + cap to')%W = (cap q + cap to + lost_overrun q to t)%W ∧
    (used to = 0 → upli q' = (upli q - t)%W ∧ upli to' = (upli to + t)%W ∧ over to' = over to)
  else q' = q ∧ to' = to.
Proof.
  unfold transfer_to. destruct (transfer_out q t cn) as [[q1 o]|] eqn:Hout; [|by intros [= <- <- <-]].
  intros [= <- <- <-]. apply transfer_out_eq in Hout as [-> ->]. unfold lost_overrun.
  destruct (Z.eqb_spec (used to) 0) as [Hu|Hu].
  - unfold transfer_in. simpl. rewrite Hu. simpl. unfold net, cap. simpl. split_and!; [wcong..|done].
  - rewrite transfer_in_net, transfer_in_cap by tauto. unfold net, cap. split_and!; [wcong..|done].
Qed.

Lemma transfer_to_conserves_witness :
  (net (Quota 5 0 14 0) + net (Quota 1 0 12 0))%W = (net (Quota 5 2 20 0) + net (Quota 3 0 8 0) + 0)%W ∧
  (net (Quota 5 0 14 0) + net (Quota 0 0 14 0))%W = (net (Quota 5 2 20 0) + net (Quota 0 0 8 0) + 2)%W.
Proof.
  split.
  - exact (proj1 (transfer_to_conserves (Quota 5 2 20 0) (Quota 3 0 8 0) 6 true true _ _ eq_refl)).
  - exact (proj1 (transfer_to_conserves (Quota 5 2 20 0) (Quota 0 0 8 0) 6 true true _ _ eq_refl)).
Defined.

(** A quota that hands on [t] pages stays within its limit: when the call
    succeeds and the addition of the check does not overflow, the remaining
    limit still covers the usage and the part reserved by [notr]. *)
Theorem transfer_to_within_limit q to t q' to' :
  quota_wf q → word 64 t → used q + t < 2 ^ 64 → notr q ≤ upli q →
  transfer_to q to t true = (true, q', to') →
  used q' = used q ∧ upli q' = upli q - t ∧ used q' + notr q' ≤ upli q'.
Proof.
  intros Hwf Ht Hov Hn. unfold transfer_to.
  destruct (transfer_out q t true) as [[q1 o]|] eqn:Hout; [|done].
  intros [= <- <-]. apply transfer_out_spec in Hout; [|done..].
  destruct Hout as (_ & -> & Hle). simpl. lia.
Qed.

Lemma transfer_to_within_limit_witness :
  used (Quota 5 0 14 2) + notr (Quota 5 0 14 2) ≤ upli (Quota 5 0 14 2).
Proof.
  apply (transfer_to_within_limit (Quota 5 0 20 2) quota_new 6 (Quota 5 0 14 2) (Quota 0 0 6 0));
    [vm_compute; intuition discriminate..|vm_compute; reflexivity].
Defined.

(** The check of [transfer_to] overflows: a transfer of [2^64 - k] pages
    with [0 < k <= used] passes every guard and raises the sender's limit by
    [k].  [sys_pd_ctrl] passes the amount from a user register unchecked. *)
Theorem transfer_to_overflow q to k :
  quota_wf q → 0 < k ≤ used q → used q ≤ upli q → upli q + k < 2 ^ 64 → notr q = 0 →
  ∃ q' to', transfer_to q to (2 ^ 64 - k) true = (true, q', to') ∧ upli q' = upli q + k.
Proof.
  intros Hwf Hk Hul Hov Hn. unfold transfer_to, transfer_out.
  assert (hit_limit q 0 = false) as ->.
  { apply hit_limit_false; [done|split; lia|lia]. }
  destruct Hwf as (Hu & Ho & Hl & _). destruct Hu, Ho, Hl. rewrite Hn.
  unfold usage. rewrite (wsub_small (upli q) 0) by lia.
  assert (wadd (used q) (2 ^ 64 - k) = used q - k) as ->.
  { unfold wadd, wrap. replace (used q + (2 ^ 64 - k)) with (used q - k + 1 * 2 ^ 64) by lia.
    rewrite Z.mod_add by lia. apply Z.mod_small. lia. }
  destruct (Z.ltb_spec (upli q - 0) (used q - k)); [lia|].
  do 2 eexists. split; [reflexivity|]. simpl. unfold wsub, wrap.
  replace (upli q - (2 ^ 64 - k)) with (upli q + k + (-1) * 2 ^ 64) by lia.
  rewrite Z.mod_add by lia. apply Z.mod_small. lia.
Qed.

Lemma transfer_to_overflow_witness :
  ∃ q' to', transfer_to (Quota 7 0 9 0) (Quota 0 0 50 0) (2 ^ 64 - 3) true = (true, q', to')
            ∧ upli q' = 12.
Proof.
  apply (transfer_to_overflow (Quota 7 0 9 0) (Quota 0 0 50 0) 3);
    vm_compute; intuition discriminate.
Defined.

Lemma free_up_give_sums to l u o :
  net (free_up_give to l u o) = (net to + (u - o))%W ∧
  cap (free_up_give to l u o) = (cap to + (l - o))%W.
Proof.
  unfold free_up_give, net, cap. simpl.
  generalize (Z.min (used to + u)%W (over to + o)%W). intros s.
  destruct (_ && _); split; wcong.
Qed.

(** [free_up] moves everything: the receiver's net charge and net limit
    grow by exactly those of the emptied quota, and afterwards the receiver
    holds usage or overrun but never both. *)
Theorem free_up_conserves q to q' to' :
  free_up q to = (q', to') →
  net q' = 0 ∧ cap q' = 0 ∧
  net to' = (net to + net q)%W ∧ cap to' = (cap to + cap q)%W ∧
  (used to' = 0 ∨ over to' = 0).
Proof.
  unfold free_up. intros [= <- <-]. split; [done|]. split; [done|].
  destruct (free_up_give_sums to (upli q) (used q) (over q)) as [-> ->].
  split; [unfold net; wcong|]. split; [unfold cap; wcong|].
  unfold free_up_give. simpl.
  set (u := (used to + used q)%W). set (o := (over to + over q)%W).
  destruct (truthy o) eqn:Ho; [|right; by apply truthy_false in Ho].
  destruct (truthy u) eqn:Hu; [|left; by apply truthy_false in Hu].
  simpl. unfold wsub. destruct (Z.min_dec u o) as [->| ->]; rewrite Z.sub_diag; auto.
Qed.

Lemma free_up_conserves_witness :
  net (free_up (Quota 4 0 9 0) (Quota 0 3 5 0)).2 = 1.
Proof.
  destruct (free_up_conserves (Quota 4 0 9 0) (Quota 0 3 5 0) _ _ eq_refl) as (_ & _ & H & _).
  exact H.
Defined.

Lemma guard_request q req :
  quota_wf q → used q + req < 2 ^ 64 → word 64 req → hit_limit q req = true →
  (if limit q <=? usage q then (req + (usage q - limit q))%W
   else (req - (limit q - usage q))%W) = used q + req - upli q.
Proof.
  intros Hwf Hov Hr Hh. assert (¬ used q + req ≤ upli q) as Hn.
  { intros Hle. apply hit_limit_false in Hle; [|done..]. by rewrite Hle in Hh. }
  destruct Hwf as (Hu & _ & Hl & _). destruct Hu, Hl, Hr. unfold limit, usage.
  zcase.
  - rewrite (wsub_small (used q)) by lia. rewrite wadd_small by lia. lia.
  - rewrite (wsub_small (upli q)) by lia. rewrite wsub_small by lia. lia.
Qed.

Lemma transfer_in_room to t o :
  quota_wf to → word 64 o → upli to + t < 2 ^ 64 → 0 ≤ t → used to ≤ upli to + t →
  upli (transfer_in to t o) - used (transfer_in to t o) = upli to + t - used to ∧
  word 64 (upli (transfer_in to t o)) ∧ word 64 (used (transfer_in to t o)).
Proof.
  intros (Hu & _ & Hl & _) Ho Hov Ht Hle. destruct Hu, Hl, Ho. unfold transfer_in. simpl.
  rewrite (wadd_small (upli to) t) by lia.
  destruct (truthy (used to) && truthy o); simpl; [|unfold word; lia].
  rewrite (wsub_small (used to)), (wsub_small (upli to + t)) by lia. unfold word. lia.
Qed.

(** [Quota_guard::check] keeps its promise: when it returns true, the
    guard's quota has room for [req] further pages. *)
Theorem guard_check_sound q r req q' r' :
  quota_wf q → quota_wf r → word 64 req →
  used q + req < 2 ^ 64 → used r + (used q + req) < 2 ^ 64 →
  guard_check q r req = (true, q', r') →
  used q' + req ≤ upli q'.
Proof.
  intros Hq Hr Hreq Hov Hov2. unfold guard_check.
  destruct (hit_limit q req) eqn:Hh; simpl.
  - rewrite guard_request by done. set (t := used q + req - upli q).
    unfold transfer_to. destruct (transfer_out r t false) as [[r1 o]|] eqn:Hout; [|done].
    intros [= <- <-].
    assert (used q + req > upli q) as Hgt.
    { destruct (Z.le_gt_cases (used q + req) (upli q)) as [Hle|]; [|lia].
      apply hit_limit_false in Hle; [|done..]. congruence. }
    pose proof Hq as (Hu & _ & Hl & _). destruct Hu, Hl. destruct Hreq.
    apply transfer_out_spec in Hout; [|done|split; subst t; lia|subst t; lia|done].
    destruct Hout as (-> & _ & _). destruct Hr as (_ & Hro & _). destruct Hro.
    destruct (transfer_in_room q t (Z.min (over r) t)) as [Heq _];
      [done|unfold word; subst t; lia|subst t; lia..|]. subst t. lia.
  - intros [= <- <-]. apply hit_limit_false in Hh; done.
Qed.

Lemma guard_check_sound_witness :
  used (Quota 0 0 4 0) + 4 ≤ upli (Quota 0 0 4 0).
Proof.
  apply (guard_check_sound quota_new (Quota 10 0 30 0) 4 (Quota 0 0 4 0) (Quota 10 0 26 0));
    [vm_compute; intuition discriminate..|vm_compute; reflexivity].
Defined.

(** A quota guard that is filled and destroyed without any allocation in
    between is not neutral: it inflates the net charge of the guarded quota by
    the overrun that moved, because a receiver without usage (the fresh guard)
    drops it.  Without overrun the guard is neutral. *)
Theorem guard_drops_overrun r req :
  quota_wf r → 0 < req → used r + req ≤ upli r →
  let '(ok, q, r') := guard_check quota_new r req in
  ok = true ∧ net (guard_destroy q r') = (net r + Z.min (over r) req)%W.
Proof.
  intros Hr Hreq Hle. pose proof Hr as (Hu & Ho & Hl & _). destruct Hu, Ho, Hl.
  unfold guard_check.
  assert (hit_limit quota_new req = true) as ->.
  { unfold hit_limit. simpl. by destruct (Z.ltb_spec 0 req); [|lia]. }
  simpl. unfold limit, usage. simpl. rewrite !wsub_small by lia. rewrite wadd_small by lia.
  unfold transfer_to, transfer_out.
  assert (hit_limit r 0 = false) as ->.
  { apply hit_limit_false; [done|split; lia|lia]. }
  unfold usage. rewrite (wsub_small (upli r)) by lia. rewrite wadd_small by lia.
  destruct (Z.ltb_spec (upli r - 0) (used r + (req + (0 - 0)))); [lia|].
  split; [done|]. unfold guard_destroy, free_up. simpl.
  rewrite (proj1 (free_up_give_sums _ _ _ _)). unfold net. wcong.
Qed.

Lemma guard_drops_overrun_witness :
  net (guard_destroy (guard_check quota_new (Quota 10 6 30 0) 4).1.2
        (guard_check quota_new (Quota 10 6 30 0) 4).2) = 8.
Proof.
  pose proof (guard_drops_overrun (Quota 10 6 30 0) 4) as H.
  specialize (H ltac:(vm_compute; intuition discriminate) ltac:(lia) ltac:(simpl; lia)).
  destruct (guard_check quota_new (Quota 10 6 30 0) 4) as [[ok q] r'].
  exact (proj2 H).
Defined.
