(* ===== verification/Bitmap.v ===== *)
(** Arrays of 64-bit words as bit sets, and the atomic operations of
    [include/atomic.hpp] on one word.

    [Bit_alloc] and [Cpuset] keep their sets as [mword] arrays and address bit
    [n] as bit [n % 64] of word [n / 64]; [bit_at] is the abstraction, and the
    lemmas below say what each single-word update does to it. *)
From S2P Require Import Prelude Bits.
Local Open Scope Z_scope.

(** ** Atomic operations: the value found (or the result) and the new word *)

Definition cmp_swap {A} `{EqDecision A} (ptr o n : A) : bool * A :=
  if decide (ptr = o) then (true, n) else (false, ptr).

Definition set_mask (ptr v : Z) : Z := Z.lor ptr v.

Definition clr_mask (ptr v : Z) : Z := Z.land ptr (wnot v).

Definition test_set_bit (val bit : Z) : bool * Z :=
  (Z.testbit val bit, set_mask val (1 << bit)%W).

Definition test_clr_bit (val bit : Z) : bool * Z :=
  (Z.testbit val bit, clr_mask val (1 << bit)%W).

(** [Atomic::sub (ref, 1)] returns the new value. *)
Definition atomic_sub (w ptr v : Z) : Z := wrap w (ptr - v).

Definition atomic_add (w ptr v : Z) : Z := wrap w (ptr + v).

(** ** Single words *)

Lemma one_shl_bits b i :
  0 ≤ b < 64 → 0 ≤ i → Z.testbit (wshl 1 b) i = bool_decide (i = b).
Proof.
  intros Hb Hi. rewrite wshl_1 by done. destruct (decide (i = b)) as [->|Hne].
  - rewrite bool_decide_true by done. by apply Z.pow2_bits_true.
  - rewrite bool_decide_false by done. apply Z.pow2_bits_false. lia.
Qed.

Lemma set_bit_bits w b i :
  0 ≤ b < 64 → 0 ≤ i →
  Z.testbit (set_mask w (wshl 1 b)) i = Z.testbit w i || bool_decide (i = b).
Proof. intros. unfold set_mask. by rewrite Z.lor_spec, one_shl_bits. Qed.

Lemma clr_mask_bits w v i :
  word 64 w → word 64 v → 0 ≤ i →
  Z.testbit (clr_mask w v) i = Z.testbit w i && negb (Z.testbit v i).
Proof.
  intros Hw Hv Hi. unfold clr_mask. rewrite Z.land_spec, wnot_bits by done.
  destruct (Z.leb_spec 0 i); [|lia]. destruct (Z.ltb_spec i 64); simpl; [done|].
  by rewrite (word_bits 64 w i).
Qed.

Lemma clr_bit_bits w b i :
  word 64 w → 0 ≤ b < 64 → 0 ≤ i →
  Z.testbit (clr_mask w (wshl 1 b)) i = Z.testbit w i && negb (bool_decide (i = b)).
Proof. intros. rewrite clr_mask_bits by auto with nova. by rewrite one_shl_bits. Qed.

Lemma set_mask_word w v : word 64 w → word 64 v → word 64 (set_mask w v).
Proof. intros. by apply lor_word. Qed.

Lemma clr_mask_word w v : word 64 w → word 64 (clr_mask w v).
Proof. intros. by apply land_word_l. Qed.

#[export] Hint Resolve set_mask_word clr_mask_word : nova.

Lemma word_0 : word 64 0.
Proof. done. Qed.

Lemma word_ones64 : word 64 ones64.
Proof. done. Qed.

#[export] Hint Resolve word_0 word_ones64 : nova.

Lemma ones64_bits i : 0 ≤ i → Z.testbit ones64 i = (i <? 64).
Proof.
  intros. change ones64 with (Z.ones 64). rewrite Z.testbit_ones_nonneg by lia. done.
Qed.

(** A word other than [~0UL] has a clear bit, which [bsf] of the complement
    finds. *)
Lemma bsf_not_spec w :
  word 64 w → w ≠ ones64 →
  0 ≤ bit_scan_forward (wnot w) < 64 ∧ Z.testbit w (bit_scan_forward (wnot w)) = false.
Proof.
  intros Hw Hne.
  assert (0 < wnot w) as Hp by (unfold wnot, ones64, word in *; lia).
  destruct (bit_scan_forward_spec _ Hp) as (H0 & H1 & _).
  pose proof (bit_scan_forward_lt 64 _ ltac:(lia) Hp (wnot_word w Hw)).
  split; [lia|]. rewrite wnot_bits in H1 by done. rewrite !andb_true_iff in H1.
  destruct H1 as [_ H1]. by apply negb_true_iff in H1.
Qed.

(** ** Arrays of words *)

Definition words (l : list Z) : Prop := Forall (word 64) l.

Definition bit_at (l : list Z) (n : Z) : bool :=
  match l !! Z.to_nat (n / 64) with
  | Some w => Z.testbit w (n mod 64)
  | None => false
  end.

Lemma words_lookup l i w : words l → l !! i = Some w → word 64 w.
Proof. intros Hl Hi. by eapply Forall_lookup_1 in Hl. Qed.

Lemma words_insert l i w : words l → word 64 w → words (<[i:=w]> l).
Proof. intros. by apply Forall_insert. Qed.

Lemma words_replicate n w : word 64 w → words (replicate n w).
Proof. intros. by apply Forall_replicate. Qed.

#[export] Hint Resolve words_insert words_replicate : nova.

Lemma bit_pos_inj n m :
  0 ≤ n → 0 ≤ m → n / 64 = m / 64 → n mod 64 = m mod 64 → n = m.
Proof. intros. rewrite (Z.div_mod n 64), (Z.div_mod m 64) by lia. congruence. Qed.

Lemma bit_at_range l n : bit_at l n = true → 0 ≤ n → n < 64 * Z.of_nat (length l).
Proof.
  unfold bit_at. intros Hb Hn. destruct (l !! _) eqn:Hl; [|done].
  apply lookup_lt_Some in Hl. pose proof (Z.div_pos n 64).
  pose proof (Z.div_mod n 64). pose proof (Z.mod_pos_bound n 64). lia.
Qed.

(** Replacing word [n / 64] by one that differs from it only at bit [n % 64]. *)
Lemma bit_at_insert l n w w' v m :
  0 ≤ n → 0 ≤ m → l !! Z.to_nat (n / 64) = Some w →
  (∀ i, 0 ≤ i → Z.testbit w' i = if bool_decide (i = n mod 64) then v else Z.testbit w i) →
  bit_at (<[Z.to_nat (n / 64) := w']> l) m = if bool_decide (m = n) then v else bit_at l m.
Proof.
  intros Hn Hm Hl Hw. unfold bit_at. pose proof (lookup_lt_Some _ _ _ Hl).
  pose proof (Z.div_pos n 64). pose proof (Z.div_pos m 64). pose proof (Z.mod_pos_bound m 64).
  destruct (decide (n / 64 = m / 64)) as [Heq|Hne].
  - rewrite <-Heq, list_lookup_insert_eq, Hl by done. rewrite Hw by lia.
    destruct (decide (m = n)) as [->|Hmn]; [by rewrite !bool_decide_true|].
    rewrite !bool_decide_false; [done|done|]. intros ?. apply Hmn. by apply bit_pos_inj.
  - rewrite list_lookup_insert_ne by lia. rewrite bool_decide_false; [done|].
    intros ->. done.
Qed.
