(* ===== verification/BitAlloc.v ===== *)
(** The identifier allocator [Bit_alloc<C, INV>] of [include/bit_alloc.hpp],
    used for PCIDs, IOMMU domains and ASIDs.

    A bitmap of [C] bits holds the identifiers in use; [INV] is reserved by the
    constructor and returned when nothing is free.  The template parameters are
    the section's variables.  [alloc] is the loop of the source run without
    interference: its retry branch (another CPU won the race for the bit) is
    part of the loop, and the theorems show that it is not taken then. *)
From S2P Require Import Prelude Bits Bitmap.
Local Open Scope Z_scope.

Record bit_alloc := Bit_alloc { bits : list Z; last : Z }.

Section bit_alloc.
Context (C INV : Z).

(** [MAX]: number of words; [BITS_CNT] is 64. *)
Definition MAX : Z := C / 64.

Definition max : Z := C.

(** The objects are static, so the bitmap starts out as zero. *)
Definition bit_alloc_new : bit_alloc :=
  let bits := replicate (Z.to_nat MAX) 0 in
  Bit_alloc (<[Z.to_nat (INV / 64) := (test_set_bit 0 (INV mod 64)).2]> bits) 0.

(** One unfolding per iteration of the [for] loop; [None] is running out of
    fuel or reading outside the bitmap. *)
Fixpoint alloc_loop (fuel : nat) (s : bit_alloc) (i j : Z) : option (Z * bit_alloc) :=
  match fuel with
  | O => None
  | S fuel =>
    if j <? MAX then
      let i := i mod MAX in
      match bits s !! Z.to_nat i with
      | None => None
      | Some w =>
        if w =? ones64 then alloc_loop fuel s (i + 1)%W (j + 1)%W
        else
          let b := bit_scan_forward (wnot w) in
          let '(was_set, w') := test_set_bit w b in
          if (b <? 0) || (64 <=? b) || was_set then alloc_loop fuel s i j
          else
            let last' := if negb (w' =? ones64) && negb (last s =? i) then i else last s in
            Some ((i * 64 + b), Bit_alloc (<[Z.to_nat i := w']> (bits s)) last')
      end
    else Some (INV, s)
  end.

Definition alloc (s : bit_alloc) : option (Z * bit_alloc) :=
  alloc_loop (S (Z.to_nat MAX)) s (last s) 0.

(** The [while] loop of [release] clears the bit and stops. *)
Definition release (s : bit_alloc) (id : Z) : bit_alloc :=
  if (id =? INV) || (C <=? id) then s
  else
    let i := id / 64 in
    let b := id mod 64 in
    match bits s !! Z.to_nat i with
    | Some w =>
      if truthy (w .& (1 << b))%W
      then Bit_alloc (<[Z.to_nat i := (test_clr_bit w b).2]> (bits s)) (last s)
      else s
    | None => s
    end.

Fixpoint reserve_loop (fuel : nat) (bs : list Z) (i b cnt : Z) : option (list Z) :=
  match fuel with
  | O => None
  | S fuel =>
    if truthy cnt then
      let c := if 64 <? cnt then 64 else cnt in
      let bc := if (64 - b)%W <? c then (64 - b)%W else c in
      match bs !! Z.to_nat i with
      | None => None
      | Some w =>
        let w' :=
          if w =? ones64 then w
          else if 64 <=? bc then ones64
          else (w .| (((1 << bc) - 1) << b))%W in
        reserve_loop fuel (<[Z.to_nat i := w']> bs) (i + 1)%W 0 (cnt - bc)%W
      end
    else Some bs
  end.

(** [reserve]: [count] is clamped so that the region ends inside the bitmap;
    one word is handled per iteration, so [MAX + 1] iterations are enough. *)
Definition reserve (s : bit_alloc) (start count : Z) : option bit_alloc :=
  if C <=? start then Some s
  else
    let cnt := if C <? count then C else count in
    let cnt := if C <? (start + cnt)%W then (C - start)%W else cnt in
    bs ← reserve_loop (S (Z.to_nat MAX)) (bits s) (start / 64) (start mod 64) cnt;
    Some (Bit_alloc bs (last s)).

(** ** Invariant *)

(** The two static assertions of the constructor, and the size of an [mword]. *)
Definition params_ok : Prop := C = MAX * 64 ∧ 0 ≤ INV < C ∧ C < 2 ^ 32.

Record wf (s : bit_alloc) : Prop := {
  wf_words : words (bits s);
  wf_length : Z.of_nat (length (bits s)) = MAX;
  wf_inv : bit_at (bits s) INV = true;
  wf_last : 0 ≤ last s < MAX;
}.

(** Identifier [id] is in use. *)
Definition in_use (s : bit_alloc) (id : Z) : bool := bit_at (bits s) id.

Hypothesis Hparams : params_ok.

Lemma MAX_pos : 0 < MAX < 2 ^ 32.
Proof using Hparams. destruct Hparams as (? & ? & ?). lia. Qed.

Lemma lookup_word s i : wf s → 0 ≤ i < MAX → ∃ w, bits s !! Z.to_nat i = Some w ∧ word 64 w.
Proof using Hparams.
  intros Hs Hi. destruct (lookup_lt_is_Some_2 (bits s) (Z.to_nat i)) as [w Hw].
  - pose proof (wf_length _ Hs). lia.
  - exists w. split; [done|]. by eapply words_lookup; [apply Hs|].
Qed.

Lemma bit_alloc_new_wf : wf bit_alloc_new.
Proof using Hparams.
  pose proof MAX_pos. pose proof Hparams as (HC & HI & Hb).
  pose proof (Z.mod_pos_bound INV 64). pose proof (Z.div_pos INV 64).
  assert (INV / 64 < MAX) by (apply Z.div_lt_upper_bound; lia).
  split; simpl.
  - apply words_insert; [by apply words_replicate|]. auto with nova.
  - rewrite length_insert, length_replicate. lia.
  - rewrite (bit_at_insert _ _ 0 _ true); [by rewrite bool_decide_true|lia|lia| |].
    + rewrite lookup_replicate. split; [done|lia].
    + intros i Hi. rewrite set_bit_bits, Z.bits_0 by lia. by case_bool_decide.
  - lia.
Qed.

(** A step of the search that finds the free bit [b] of word [i]. *)
Lemma take_bit s i w :
  wf s → 0 ≤ i < MAX → bits s !! Z.to_nat i = Some w → w ≠ ones64 →
  let b := bit_scan_forward (wnot w) in
  let bs := <[Z.to_nat i := set_mask w (wshl 1 b)]> (bits s) in
  (0 ≤ b < 64) ∧ Z.testbit w b = false ∧ words bs ∧
  in_use s (i * 64 + b) = false ∧
  (∀ m, 0 ≤ m → bit_at bs m = bool_decide (m = i * 64 + b) || in_use s m).
Proof using Hparams.
  intros Hs Hi Hw Hne b bs. pose proof (words_lookup _ _ _ (wf_words _ Hs) Hw) as Hword.
  destruct (bsf_not_spec w Hword Hne) as [Hb Hfree]. fold b in Hb, Hfree.
  assert ((i * 64 + b) / 64 = i) as Hdiv by (rewrite Z.div_add_l, Z.div_small; lia).
  assert ((i * 64 + b) mod 64 = b) as Hmod
    by (rewrite Z.add_comm, Z.mod_add, Z.mod_small; lia).
  split; [done|]. split; [done|]. split; [|split].
  - apply words_insert; [apply Hs|]. auto with nova.
  - unfold in_use, bit_at. by rewrite Hdiv, Hmod, Hw.
  - intros m Hm. unfold bs. rewrite <-Hdiv at 1.
    rewrite (bit_at_insert _ _ w _ true); [|lia|done|by rewrite Hdiv|].
    + unfold in_use. by case_bool_decide.
    + intros k Hk. rewrite Hmod, set_bit_bits by done.
      case_bool_decide; [by rewrite orb_true_r|by rewrite orb_false_r].
Qed.

(** [n] words from [i] on (cyclically) have been found full. *)
Lemma alloc_loop_spec fuel s i j :
  wf s → 0 ≤ i ≤ MAX → 0 ≤ j ≤ MAX → (Z.to_nat (MAX - j) < fuel)%nat →
  (∀ k, 0 ≤ k < j → bits s !! Z.to_nat ((last s + k) mod MAX) = Some ones64) →
  i mod MAX = (last s + j) mod MAX →
  (∃ id s', alloc_loop fuel s i j = Some (id, s') ∧ wf s' ∧
     0 ≤ id < C ∧ in_use s id = false ∧
     (∀ m, 0 ≤ m → in_use s' m = bool_decide (m = id) || in_use s m)) ∨
  (alloc_loop fuel s i j = Some (INV, s) ∧ (∀ m, 0 ≤ m < C → in_use s m = true)).
Proof using Hparams.
  pose proof MAX_pos as HM. pose proof Hparams as (HC & HI & HCb).
  revert i j. induction fuel as [|fuel IH]; intros i j Hs Hi Hj Hf Hfull Hij; [lia|].
  simpl. destruct (Z.ltb_spec j MAX) as [Hlt|Hge].
  - pose proof (Z.mod_pos_bound i MAX) as Hbnd.
    destruct (lookup_word s (i mod MAX) Hs) as (w & Hw & Hword); [lia|]. rewrite Hw.
    destruct (Z.eqb_spec w ones64) as [->|Hne].
    + assert (wadd (i mod MAX) 1 = i mod MAX + 1) as -> by (apply wadd_small; lia).
      assert (wadd j 1 = j + 1) as -> by (apply wadd_small; lia).
      apply IH; [done|lia|lia|lia| |].
      * intros k Hk. destruct (decide (k = j)) as [->|]; [by rewrite <-Hij|apply Hfull; lia].
      * rewrite Hij, Zplus_mod_idemp_l. f_equal. lia.
    + left. destruct (take_bit s (i mod MAX) w Hs) as (Hb & Hfree & Hws & Huse & Hall);
        [lia|done|done|]. rewrite Hfree.
      destruct (Z.ltb_spec (bit_scan_forward (wnot w)) 0); [lia|].
      destruct (Z.leb_spec 64 (bit_scan_forward (wnot w))); [lia|]. simpl.
      do 2 eexists. split; [reflexivity|]. split_and!; try done; [|lia|].
      * split; simpl; [done| | |].
        -- rewrite length_insert. apply Hs.
        -- rewrite Hall by lia. unfold in_use. by rewrite (wf_inv _ Hs), orb_true_r.
        -- pose proof (wf_last _ Hs). destruct (_ && _); lia.
      * pose proof (Z.mul_lt_mono_pos_r 64 (i mod MAX) MAX). lia.
  - right. split; [done|]. intros m Hm. assert (j = MAX) by lia. subst j.
    pose proof (Z.mod_pos_bound (m / 64 - last s) MAX ltac:(lia)) as Hk.
    assert (m / 64 < MAX) by (apply Z.div_lt_upper_bound; lia).
    pose proof (Z.div_pos m 64).
    specialize (Hfull _ Hk). rewrite Zplus_mod_idemp_r in Hfull.
    replace (last s + (m / 64 - last s)) with (m / 64) in Hfull by lia.
    rewrite Z.mod_small in Hfull by lia.
    unfold in_use, bit_at. rewrite Hfull. pose proof (Z.mod_pos_bound m 64).
    rewrite ones64_bits by lia. by apply Z.ltb_lt; lia.
Qed.

(** [Bit_alloc::alloc] always returns, and either hands out an identifier
    below [C] that was not in use, marking exactly that one, or returns [INV]
    with an unchanged allocator, and then every identifier is in use. *)
Theorem alloc_spec s :
  wf s →
  (∃ id s', alloc s = Some (id, s') ∧ wf s' ∧ 0 ≤ id < C ∧ id ≠ INV ∧ in_use s id = false ∧
     (∀ m, 0 ≤ m → in_use s' m = bool_decide (m = id) || in_use s m)) ∨
  (alloc s = Some (INV, s) ∧ (∀ m, 0 ≤ m < C → in_use s m = true)).
Proof using Hparams.
  intros Hs. pose proof MAX_pos. pose proof (wf_last _ Hs).
  destruct (alloc_loop_spec (S (Z.to_nat MAX)) s (last s) 0) as [(id & s' & H1 & H2 & H3 & H4 & H5)|H1];
    [done|lia|lia|lia|lia|by rewrite Z.add_0_r| |by right].
  left. exists id, s'. split_and!; try done; try lia.
  intros ->. by rewrite (wf_inv _ Hs : in_use s INV = true) in H4.
Qed.

(** [Bit_alloc::release] returns exactly the given identifier to the pool;
    [INV] and identifiers outside the bitmap are ignored. *)
Theorem release_spec s id :
  wf s → 0 ≤ id →
  wf (release s id) ∧
  (∀ m, 0 ≤ m → in_use (release s id) m =
     in_use s m && negb (bool_decide (m = id ∧ id ≠ INV ∧ id < C))).
Proof using Hparams.
  intros Hs Hid. pose proof Hparams as (HC & HI & HCb). unfold release.
  destruct (Z.eqb_spec id INV) as [->|Hne]; simpl.
  { split; [done|]. intros m Hm. rewrite bool_decide_false by (intros (_ & ? & _); done). by rewrite andb_true_r. }
  destruct (Z.leb_spec C id); simpl.
  { split; [done|]. intros m Hm. rewrite bool_decide_false by lia. by rewrite andb_true_r. }
  pose proof (Z.div_pos id 64). pose proof (Z.mod_pos_bound id 64).
  assert (id / 64 < MAX) by (apply Z.div_lt_upper_bound; lia).
  destruct (lookup_word s (id / 64) Hs) as (w & Hw & Hword); [lia|]. rewrite Hw.
  assert (truthy (Z.land w (wshl 1 (id mod 64))) = Z.testbit w (id mod 64)) as ->.
  { destruct (Z.testbit w (id mod 64)) eqn:Hb.
    - apply truthy_true. intros Hz. apply (f_equal (fun z => Z.testbit z (id mod 64))) in Hz.
      rewrite Z.land_spec, one_shl_bits, Hb, bool_decide_true, Z.bits_0 in Hz by lia. done.
    - apply truthy_false. apply Z.bits_inj'. intros k Hk.
      rewrite Z.land_spec, one_shl_bits, Z.bits_0 by lia.
      case_bool_decide as Hc; [rewrite Hc, Hb; done|by rewrite andb_false_r]. }
  destruct (Z.testbit w (id mod 64)) eqn:Hb.
  - assert (∀ m, 0 ≤ m → bit_at (<[Z.to_nat (id / 64) := (test_clr_bit w (id mod 64)).2]> (bits s)) m
              = if bool_decide (m = id) then false else bit_at (bits s) m) as Hall.
    { intros m Hm. apply (bit_at_insert _ _ w); [lia|lia|done|].
      intros k Hk. simpl. rewrite clr_bit_bits by (done || lia).
      case_bool_decide; [by rewrite andb_false_r|by rewrite andb_true_r]. }
    split.
    + split; simpl.
      * apply words_insert; [apply Hs|]. auto with nova.
      * rewrite length_insert. apply Hs.
      * rewrite Hall by lia. rewrite bool_decide_false by congruence. apply Hs.
      * apply Hs.
    + intros m Hm. unfold in_use. simpl. rewrite Hall by done.
      destruct (decide (m = id)) as [->|].
      * rewrite !bool_decide_true by (done || lia). by rewrite andb_false_r.
      * rewrite !bool_decide_false by (done || intros [? _]; done). by rewrite andb_true_r.
  - split; [done|]. intros m Hm. case_bool_decide as Hc; [|by rewrite andb_true_r].
    destruct Hc as [-> _]. unfold in_use, bit_at. by rewrite Hw, Hb.
Qed.

(** One word of [reserve]: bits [[b, b + bc)] are added. *)
Lemma reserve_word w b bc k :
  word 64 w → 0 ≤ b < 64 → 0 < bc → b + bc ≤ 64 → 0 ≤ k < 64 →
  Z.testbit (if w =? ones64 then w else if 64 <=? bc then ones64
             else (w .| (((1 << bc) - 1) << b))%W) k
  = Z.testbit w k || bool_decide (b ≤ k < b + bc).
Proof.
  intros Hw Hb Hbc Hle Hk. destruct (Z.eqb_spec w ones64) as [->|].
  { rewrite ones64_bits by lia. destruct (Z.ltb_spec k 64); [done|lia]. }
  destruct (Z.leb_spec 64 bc).
  { rewrite ones64_bits by lia. rewrite bool_decide_true by lia.
    destruct (Z.ltb_spec k 64); [by rewrite orb_true_r|lia]. }
  rewrite Z.lor_spec, wshl_bits by lia. rewrite wshl_1 by lia.
  assert (0 < 2 ^ bc < 2 ^ 64) by (split; [apply Z.pow_pos_nonneg; lia|apply Z.pow_lt_mono_r; lia]).
  rewrite wsub_small by lia. destruct (Z.ltb_spec k 64); [|lia]. simpl. f_equal.
  rewrite <-ones_pow2 by lia. destruct (Z.lt_ge_cases k b).
  - rewrite Z.testbit_neg_r by lia. rewrite bool_decide_false; [done|lia].
  - rewrite Z.testbit_ones_nonneg by lia. destruct (Z.ltb_spec (k - b) bc); case_bool_decide; (done || lia).
Qed.

Lemma bit_at_insert_word l i w m :
  0 ≤ i < Z.of_nat (length l) → 0 ≤ m →
  bit_at (<[Z.to_nat i := w]> l) m =
    if bool_decide (m / 64 = i) then Z.testbit w (m mod 64) else bit_at l m.
Proof.
  intros Hi Hm. unfold bit_at. pose proof (Z.div_pos m 64). case_bool_decide as Hc.
  - rewrite Hc, list_lookup_insert_eq by lia. done.
  - rewrite list_lookup_insert_ne by lia. done.
Qed.

Lemma reserve_loop_spec fuel bs i b cnt :
  words bs → Z.of_nat (length bs) = MAX → 0 ≤ i → 0 ≤ b < 64 → 0 ≤ cnt →
  i * 64 + b + cnt ≤ C → cnt + b ≤ (Z.of_nat fuel - 1) * 64 → (0 < fuel)%nat →
  ∃ bs', reserve_loop fuel bs i b cnt = Some bs' ∧ words bs' ∧ length bs' = length bs ∧
    (∀ m, 0 ≤ m → bit_at bs' m =
       bit_at bs m || bool_decide (i * 64 + b ≤ m < i * 64 + b + cnt)).
Proof using Hparams.
  pose proof MAX_pos as HM. pose proof Hparams as (HC & HI & HCb).
  revert bs i b cnt. induction fuel as [|fuel IH]; intros bs i b cnt Hws Hlen Hi Hb Hc Hend Hfuel Hpos; [lia|].
  simpl. destruct (truthy cnt) eqn:Ht; [apply truthy_true in Ht|apply truthy_false in Ht as ->].
  - rewrite (wsub_small 64 b) by lia.
    set (c := if 64 <? cnt then 64 else cnt). set (bc := if 64 - b <? c then 64 - b else c).
    assert (0 < bc ∧ b + bc ≤ 64 ∧ bc ≤ cnt ∧ (bc = cnt ∨ b + bc = 64)) as (Hbc0 & Hbc1 & Hbc2 & Hbc3).
    { subst bc c. zcase; lia. }
    assert (i < MAX) by lia. clearbody bc. clear c. assert (0 < Z.of_nat fuel) by lia.
    destruct (lookup_lt_is_Some_2 bs (Z.to_nat i)) as [w Hw]; [lia|]. rewrite Hw.
    pose proof (words_lookup _ _ _ Hws Hw) as Hword.
    set (w' := if w =? ones64 then w else _).
    assert (word 64 w') as Hword'.
    { subst w'. destruct (w =? ones64); [done|]. destruct (64 <=? bc); auto with nova. }
    rewrite (wadd_small i 1), (wsub_small cnt bc) by lia.
    destruct (IH (<[Z.to_nat i := w']> bs) (i + 1) 0 (cnt - bc)) as (bs' & Hr & Hws' & Hlen' & Hall);
      [by apply words_insert|by rewrite length_insert|lia..|].
    exists bs'. split; [done|]. split; [done|]. rewrite length_insert in Hlen'. split; [done|].
    intros m Hm. rewrite Hall by done. rewrite bit_at_insert_word by lia.
    pose proof (Z.div_mod m 64). pose proof (Z.mod_pos_bound m 64).
    destruct (decide (m / 64 = i)) as [Heq|Hne].
    + rewrite (bool_decide_true (m / 64 = i)) by done. subst w'. rewrite reserve_word by (done || lia).
      assert (bit_at bs m = Z.testbit w (m mod 64)) as ->.
      { unfold bit_at. by rewrite Heq, Hw. }
      rewrite <-orb_assoc. f_equal. rewrite <-bool_decide_or. apply bool_decide_ext. lia.
    + rewrite (bool_decide_false (m / 64 = i)) by done. f_equal. apply bool_decide_ext. lia.
  - exists bs. split_and!; try done. intros m Hm. rewrite bool_decide_false by lia.
    by rewrite orb_false_r.
Qed.

(** [Bit_alloc::reserve] returns for every argument and marks exactly the
    identifiers of the region that lie below [C]. *)
Theorem reserve_spec s start count :
  wf s → 0 ≤ start → word 64 count →
  ∃ s', reserve s start count = Some s' ∧ wf s' ∧
    (∀ m, 0 ≤ m → in_use s' m =
       in_use s m || bool_decide (start ≤ m < Z.min C (start + count))).
Proof using Hparams.
  intros Hs Hst [Hc0 Hc1]. pose proof MAX_pos. pose proof Hparams as (HC & HI & HCb).
  unfold reserve. destruct (Z.leb_spec C start).
  { exists s. split_and!; [done..|]. intros m Hm. rewrite bool_decide_false by lia.
    by rewrite orb_false_r. }
  set (cnt := if C <? (start + _)%W then _ else _).
  assert (cnt = Z.min C (start + count) - start) as Hcnt.
  { subst cnt. rewrite (wadd_small start (if C <? count then C else count)) by (zcase; lia).
    rewrite (wsub_small C start) by lia. zcase; lia. }
  pose proof (Z.div_mod start 64). pose proof (Z.mod_pos_bound start 64).
  pose proof (Z.div_pos start 64).
  destruct (reserve_loop_spec (S (Z.to_nat MAX)) (bits s) (start / 64) (start mod 64) cnt)
    as (bs' & -> & Hws & Hlen & Hall); [apply Hs|apply Hs|lia..|].
  simpl. eexists. split; [done|].
  assert (∀ m, 0 ≤ m → bit_at bs' m = in_use s m ||
            bool_decide (start ≤ m < Z.min C (start + count))) as Hall'.
  { intros m Hm. rewrite Hall by done. unfold in_use. f_equal. apply bool_decide_ext. lia. }
  split; [|done]. split; simpl; [done|rewrite Hlen; apply Hs| |apply Hs].
  rewrite Hall' by lia. unfold in_use. by rewrite (wf_inv _ Hs).
Qed.
End bit_alloc.

Lemma params_ok_128 : params_ok 128 2.
Proof. vm_compute. intuition discriminate. Qed.

Lemma alloc_spec_witness : ∃ r, alloc 128 2 (bit_alloc_new 128 2) = Some r.
Proof.
  destruct (alloc_spec 128 2 params_ok_128 _ (bit_alloc_new_wf 128 2 params_ok_128))
    as [(id & s' & H & _)|[H _]]; eexists; exact H.
Defined.

Lemma release_spec_witness :
  in_use (release 128 2 (bit_alloc_new 128 2) 2) 2 = true.
Proof.
  destruct (release_spec 128 2 params_ok_128 _ 2 (bit_alloc_new_wf 128 2 params_ok_128) ltac:(lia))
    as [_ H].
  rewrite (H 2 ltac:(lia)). reflexivity.
Defined.

Lemma reserve_spec_witness :
  ∃ s', reserve 128 (bit_alloc_new 128 2) 60 100 = Some s' ∧ in_use s' 127 = true.
Proof.
  destruct (reserve_spec 128 2 params_ok_128 _ 60 100 (bit_alloc_new_wf 128 2 params_ok_128)
              ltac:(lia) ltac:(split; lia)) as (s' & Hr & _ & H).
  exists s'. split; [exact Hr|]. rewrite (H 127 ltac:(lia)). reflexivity.
Defined.
