(* ===== verification/Cpuset.v ===== *)
(** CPU sets: [Cpuset] of [include/cpuset.hpp], with [NUM_CPU] = 256 CPUs in
    four words.

    The iterators take the set by reference and re-read each word while the
    callback runs, and the core allocator passes a set that the callback
    changes.  They are therefore modelled over the caller's whole state: [get]
    reads the set from it and the callback maps states to states. *)
From S2P Require Import Prelude Bits Bitmap.
Local Open Scope Z_scope.

Definition NUM_CPU : Z := 256.

(** Number of elements of [raw], and [sizeof (raw)] in bytes. *)
Definition values : nat := Z.to_nat (1 + (NUM_CPU - 1) / 64).
Definition sizeof_raw : nat := (8 * values)%nat.

Abbreviation cpuset := (list Z).

Definition cpuset_new (v : Z) : cpuset := replicate values v.

(** [value(cpu)] and [bit_cpu(cpu)]. *)
Definition value (s : cpuset) (cpu : Z) : Z := default 0 (s !! Z.to_nat (cpu / 64)).
Definition bit_cpu (cpu : Z) : Z := cpu mod 64.

Definition set_value (s : cpuset) (cpu w : Z) : cpuset := <[Z.to_nat (cpu / 64) := w]> s.

Definition chk (s : cpuset) (cpu : Z) : bool := truthy (value s cpu .& (1 << bit_cpu cpu))%W.

(** Returns whether the CPU was not yet in the set. *)
Definition set (s : cpuset) (cpu : Z) : bool * cpuset :=
  let '(was, w) := test_set_bit (value s cpu) (bit_cpu cpu) in
  (negb was, set_value s cpu w).

Definition clr (s : cpuset) (cpu : Z) : cpuset :=
  set_value s cpu (clr_mask (value s cpu) (1 << bit_cpu cpu)%W).

Definition merge (s t : cpuset) : cpuset := zip_with set_mask s t.

Definition subtract (s t : cpuset) : cpuset := zip_with clr_mask s t.

Definition clear (s : cpuset) : cpuset := (λ _, 0) <$> s.

(** [count] adds up [raw[i]] for [i] up to [sizeof (raw)], the size in bytes;
    [None] is a read beyond the array. *)
Fixpoint count_loop (fuel i : nat) (s : cpuset) (acc : Z) : option Z :=
  match fuel with
  | O => Some acc
  | S fuel =>
    w ← s !! i; count_loop fuel (S i) s (wrap 32 (acc + popcount w))
  end.

Definition count (s : cpuset) : option Z := count_loop sizeof_raw 0 s 0.

(** The loop condition of [first_cpu] is [values()], which is always true: the
    search leaves the array when the set is empty.  The result is the bit
    number inside the word that was found. *)
Fixpoint first_cpu_loop (fuel i : nat) (s : cpuset) : option Z :=
  match fuel with
  | O => None
  | S fuel =>
    w ← s !! i;
    let cpu := bit_scan_forward w in
    if cpu =? -1 then first_cpu_loop fuel (S i) s else Some (wrap 32 cpu)
  end.

Definition first_cpu (s : cpuset) : option Z := first_cpu_loop (S values) 0 s.

Section iterate.
Context {S : Type} (get : S → cpuset) (fn : Z → S → S) (cond : S → bool).

(** The [while] loop over one word; 64 iterations empty it. *)
Fixpoint each_bit (fuel : nat) (i subset : Z) (st : S) : S :=
  match fuel with
  | O => st
  | Datatypes.S fuel =>
    let cpu := bit_scan_forward subset in
    if cpu =? -1 then st
    else each_bit fuel i (clr_mask subset (1 << bit_cpu cpu)%W) (fn (cpu + i * 64) st)
  end.

(** The [for] loop over the words, with the loop body as an argument. *)
Fixpoint each_word (body : nat → S → S) (n i : nat) (st : S) : S :=
  match n with
  | O => st
  | Datatypes.S n => each_word body n (Datatypes.S i) (body i st)
  end.

Definition for_each_body (i : nat) (st : S) : S :=
  each_bit 64 (Z.of_nat i) (default 0 (get st !! i)) st.

Definition for_each (st : S) : S := each_word for_each_body values 0 st.

Fixpoint each_bit_until (fuel : nat) (i subset : Z) (st : S) : S :=
  match fuel with
  | O => st
  | Datatypes.S fuel =>
    let cpu := bit_scan_forward subset in
    if negb (cpu =? -1) && negb (cond st)
    then each_bit_until fuel i (clr_mask subset (1 << bit_cpu cpu)%W) (fn (cpu + i * 64) st)
    else st
  end.

Fixpoint each_word_until (body : nat → S → S) (n i : nat) (st : S) : S :=
  match n with
  | O => st
  | Datatypes.S n =>
    if cond st then st else each_word_until body n (Datatypes.S i) (body i st)
  end.

Definition for_each_until_body (i : nat) (st : S) : S :=
  each_bit_until 64 (Z.of_nat i) (default 0 (get st !! i)) st.

Definition for_each_until (st : S) : S := each_word_until for_each_until_body values 0 st.

End iterate.

(** ** The set a [Cpuset] denotes *)

Definition cpuset_wf (s : cpuset) : Prop := words s ∧ length s = values.

(** The members in ascending order. *)
Definition members (s : cpuset) : list Z := filter (λ c, bit_at s c = true) (seqZ 0 NUM_CPU).

Definition cpus (s : cpuset) : gset Z := list_to_set (members s).

Lemma elem_of_members s c : c ∈ members s ↔ 0 ≤ c < NUM_CPU ∧ bit_at s c = true.
Proof. unfold members. rewrite list_elem_of_filter, elem_of_seqZ, Z.add_0_l. tauto. Qed.

Lemma elem_of_cpus s c : c ∈ cpus s ↔ 0 ≤ c < NUM_CPU ∧ bit_at s c = true.
Proof. unfold cpus. by rewrite elem_of_list_to_set, elem_of_members. Qed.

Lemma cpu_index c : 0 ≤ c < NUM_CPU → (Z.to_nat (c / 64) < values)%nat ∧ 0 ≤ c mod 64 < 64 ∧ 0 ≤ c / 64.
Proof.
  unfold NUM_CPU. intros Hc. pose proof (Z.mod_pos_bound c 64). pose proof (Z.div_pos c 64).
  assert (c / 64 < 4) by (apply Z.div_lt_upper_bound; lia).
  change values with 4%nat. lia.
Qed.

Lemma value_lookup s c :
  cpuset_wf s → 0 ≤ c < NUM_CPU → s !! Z.to_nat (c / 64) = Some (value s c) ∧ word 64 (value s c).
Proof.
  intros [Hw Hl] Hc. destruct (cpu_index c Hc) as (Hi & _).
  destruct (lookup_lt_is_Some_2 s (Z.to_nat (c / 64))) as [w Hlk]; [lia|].
  unfold value. rewrite Hlk. split; [done|]. by eapply words_lookup.
Qed.

Lemma test_bit_mask w b :
  0 ≤ b < 64 → truthy (Z.land w (wshl 1 b)) = Z.testbit w b.
Proof.
  intros Hb. destruct (Z.testbit w b) eqn:Ht.
  - apply truthy_true. intros Hz. apply (f_equal (fun z => Z.testbit z b)) in Hz.
    rewrite Z.land_spec, one_shl_bits, Ht, bool_decide_true, Z.bits_0 in Hz by lia. done.
  - apply truthy_false, Z.bits_inj'. intros k Hk.
    rewrite Z.land_spec, one_shl_bits, Z.bits_0 by lia.
    case_bool_decide as Hc; [by rewrite Hc, Ht|by rewrite andb_false_r].
Qed.

Lemma chk_bit_at s c : cpuset_wf s → 0 ≤ c < NUM_CPU → chk s c = bit_at s c.
Proof.
  intros Hs Hc. destruct (value_lookup s c Hs Hc) as [Hlk _].
  destruct (cpu_index c Hc) as (_ & Hb & _).
  unfold chk, bit_cpu. rewrite test_bit_mask by done. unfold bit_at. by rewrite Hlk.
Qed.

Lemma cpuset_new_wf v : word 64 v → cpuset_wf (cpuset_new v).
Proof. intros. split; [by apply words_replicate|apply length_replicate]. Qed.

Lemma set_value_wf s c w : cpuset_wf s → word 64 w → cpuset_wf (set_value s c w).
Proof. intros [Hw Hl] ?. split; [by apply words_insert|by rewrite <-Hl; apply length_insert]. Qed.

Lemma set_wf s c : cpuset_wf s → 0 ≤ c < NUM_CPU → cpuset_wf (set s c).2.
Proof.
  intros Hs Hc. apply set_value_wf; [done|]. destruct (value_lookup s c Hs Hc).
  auto with nova.
Qed.

Lemma clr_wf s c : cpuset_wf s → 0 ≤ c < NUM_CPU → cpuset_wf (clr s c).
Proof.
  intros Hs Hc. apply set_value_wf; [done|]. destruct (value_lookup s c Hs Hc).
  auto with nova.
Qed.

Lemma zip_words_wf f s t :
  (∀ x y, word 64 x → word 64 y → word 64 (f x y)) →
  cpuset_wf s → cpuset_wf t → cpuset_wf (zip_with f s t).
Proof.
  intros Hf [Hs Hls] [Ht Hlt]. split; [|rewrite length_zip_with; lia].
  apply Forall_lookup_2. intros i x (y & z & -> & Hy & Hz)%lookup_zip_with_Some.
  apply Hf; eauto using words_lookup.
Qed.

Lemma merge_wf s t : cpuset_wf s → cpuset_wf t → cpuset_wf (merge s t).
Proof. apply zip_words_wf. auto with nova. Qed.

Lemma subtract_wf s t : cpuset_wf s → cpuset_wf t → cpuset_wf (subtract s t).
Proof. apply zip_words_wf. auto with nova. Qed.

Lemma clear_wf s : cpuset_wf s → cpuset_wf (clear s).
Proof.
  intros [Hs Hl]. split; [|by unfold clear; rewrite length_fmap].
  unfold words, clear. rewrite Forall_fmap. apply Forall_true. intros. apply word_0.
Qed.

#[export] Hint Resolve cpuset_new_wf set_wf clr_wf merge_wf subtract_wf clear_wf : nova.

Lemma set_bit_at s c m :
  cpuset_wf s → 0 ≤ c < NUM_CPU → 0 ≤ m →
  bit_at (set s c).2 m = bool_decide (m = c) || bit_at s m.
Proof.
  intros Hs Hc Hm. destruct (value_lookup s c Hs Hc) as [Hlk Hw].
  destruct (cpu_index c Hc) as (_ & Hb & _). unfold set, set_value. simpl.
  rewrite (bit_at_insert _ _ (value s c) _ true); [by case_bool_decide|lia|done|done|].
  intros i Hi. unfold bit_cpu. rewrite set_bit_bits by done.
  case_bool_decide; [by rewrite orb_true_r|by rewrite orb_false_r].
Qed.

Lemma clr_bit_at s c m :
  cpuset_wf s → 0 ≤ c < NUM_CPU → 0 ≤ m →
  bit_at (clr s c) m = negb (bool_decide (m = c)) && bit_at s m.
Proof.
  intros Hs Hc Hm. destruct (value_lookup s c Hs Hc) as [Hlk Hw].
  destruct (cpu_index c Hc) as (_ & Hb & _). unfold clr, set_value.
  rewrite (bit_at_insert _ _ (value s c) _ false); [by case_bool_decide|lia|done|done|].
  intros i Hi. unfold bit_cpu. rewrite clr_bit_bits by done.
  case_bool_decide; [by rewrite andb_false_r|by rewrite andb_true_r].
Qed.

Lemma zip_bit_at f g s t c :
  (∀ x y b, word 64 x → word 64 y → 0 ≤ b < 64 →
     Z.testbit (f x y) b = g (Z.testbit x b) (Z.testbit y b)) →
  cpuset_wf s → cpuset_wf t → 0 ≤ c < NUM_CPU →
  bit_at (zip_with f s t) c = g (bit_at s c) (bit_at t c).
Proof.
  intros Hf Hs Ht Hc. destruct (value_lookup s c Hs Hc) as [Hls Hws].
  destruct (value_lookup t c Ht Hc) as [Hlt Hwt].
  destruct (cpu_index c Hc) as (_ & Hb & _).
  unfold bit_at. rewrite lookup_zip_with, Hls, Hlt. simpl. by apply Hf.
Qed.

Lemma merge_bit_at s t c :
  cpuset_wf s → cpuset_wf t → 0 ≤ c < NUM_CPU → bit_at (merge s t) c = bit_at s c || bit_at t c.
Proof. apply (zip_bit_at set_mask). intros. apply Z.lor_spec. Qed.

Lemma subtract_bit_at s t c :
  cpuset_wf s → cpuset_wf t → 0 ≤ c < NUM_CPU →
  bit_at (subtract s t) c = bit_at s c && negb (bit_at t c).
Proof.
  apply (zip_bit_at clr_mask (λ x y, x && negb y)). intros. apply clr_mask_bits; (done || lia).
Qed.

Lemma clear_bit_at s c : bit_at (clear s) c = false.
Proof. unfold bit_at, clear. rewrite list_lookup_fmap. destruct (s !! _); simpl; [apply Z.bits_0|done]. Qed.

(** C30: [Cpuset] implements finite sets of CPU numbers: membership test,
    insertion (with the returned flag), removal, union, difference and
    clearing are those of the denoted set. *)
Theorem cpuset_refines_set s t c :
  cpuset_wf s → cpuset_wf t → 0 ≤ c < NUM_CPU →
  chk s c = bool_decide (c ∈ cpus s) ∧
  (set s c).1 = bool_decide (c ∉ cpus s) ∧
  cpus (set s c).2 = {[c]} ∪ cpus s ∧
  cpus (clr s c) = cpus s ∖ {[c]} ∧
  cpus (merge s t) = cpus s ∪ cpus t ∧
  cpus (subtract s t) = cpus s ∖ cpus t ∧
  cpus (clear s) = ∅.
Proof.
  intros Hs Ht Hc. assert (∀ u m, m ∈ cpus u ↔ 0 ≤ m < NUM_CPU ∧ bit_at u m = true) as He
    by apply elem_of_cpus.
  assert (bool_decide (c ∈ cpus s) = bit_at s c) as Hin.
  { destruct (bit_at s c) eqn:Hb; [apply bool_decide_true|apply bool_decide_false];
      rewrite He, Hb; intuition discriminate. }
  split_and!.
  - by rewrite Hin, chk_bit_at.
  - rewrite bool_decide_not, Hin. unfold set, bit_at. simpl.
    by destruct (value_lookup s c Hs Hc) as [-> _].
  - apply set_eq. intros m. rewrite elem_of_union, elem_of_singleton, !He.
    destruct (decide (0 ≤ m < NUM_CPU)); [|intuition (subst; tauto)].
    rewrite set_bit_at by (done || lia). rewrite orb_true_iff, bool_decide_eq_true. intuition.
  - apply set_eq. intros m. rewrite elem_of_difference, elem_of_singleton, !He.
    destruct (decide (0 ≤ m < NUM_CPU)); [|intuition (subst; tauto)].
    rewrite clr_bit_at by (done || lia).
    rewrite andb_true_iff, negb_true_iff, bool_decide_eq_false. intuition.
  - apply set_eq. intros m. rewrite elem_of_union, !He.
    destruct (decide (0 ≤ m < NUM_CPU)); [|intuition].
    rewrite merge_bit_at, orb_true_iff by done. intuition.
  - apply set_eq. intros m. rewrite elem_of_difference, !He.
    destruct (decide (0 ≤ m < NUM_CPU)); [|intuition].
    rewrite subtract_bit_at, andb_true_iff, negb_true_iff by done.
    destruct (bit_at t m); intuition discriminate.
  - apply set_eq. intros m. rewrite !He, clear_bit_at, elem_of_empty. intuition discriminate.
Qed.

Lemma cpuset_refines_set_witness :
  chk (set (cpuset_new 0) 70).2 70 = bool_decide (70 ∈ cpus (set (cpuset_new 0) 70).2).
Proof.
  apply (cpuset_refines_set (set (cpuset_new 0) 70).2 (cpuset_new 0) 70); auto with nova.
  - apply set_wf; [by apply cpuset_new_wf|done].
  - done.
Defined.

(** ** Iteration *)

Section iterate_facts.
Context {S : Type} (get : S → cpuset) (fn : Z → S → S) (cond : S → bool).

(** Sequential composition of the callback over a list of CPUs, with and
    without an early exit. *)
Fixpoint run (l : list Z) (st : S) : S :=
  match l with [] => st | c :: l => run l (fn c st) end.

Fixpoint run_until (l : list Z) (st : S) : S :=
  match l with
  | [] => st
  | c :: l => if cond st then st else run_until l (fn c st)
  end.

Definition word_members (i w : Z) (lo : Z) : list Z :=
  (λ k, k + i * 64) <$> filter (λ k, Z.testbit w k = true) (seqZ lo (64 - lo)).

Lemma word_members_step i w lo :
  word 64 w → 0 ≤ lo → (∀ k, 0 ≤ k < lo → Z.testbit w k = false) →
  let b := bit_scan_forward w in
  if b =? -1 then word_members i w lo = []
  else lo ≤ b < 64 ∧
       word_members i w lo = (b + i * 64) :: word_members i (clr_mask w (wshl 1 b)) (b + 1) ∧
       word 64 (clr_mask w (wshl 1 b)) ∧
       (∀ k, 0 ≤ k < b + 1 → Z.testbit (clr_mask w (wshl 1 b)) k = false).
Proof.
  intros Hw Hlo Hclr b. destruct (Z.eqb_spec b (-1)) as [Hb|Hb].
  - apply bit_scan_forward_none in Hb as ->; [|apply Hw]. unfold word_members.
    rewrite filter_none; [done|]. intros k _. by rewrite Z.bits_0.
  - assert (0 < w) as Hp.
    { destruct Hw as [Hw0 _]. destruct (decide (w = 0)) as [Hz|]; [|lia].
      exfalso. apply Hb. by apply bit_scan_forward_none. }
    destruct (bit_scan_forward_spec w Hp) as (H0 & H1 & H2). fold b in H0, H1, H2.
    pose proof (bit_scan_forward_lt 64 w ltac:(lia) Hp Hw) as H3. fold b in H3.
    assert (lo ≤ b) as Hle.
    { destruct (Z.le_gt_cases lo b); [done|]. rewrite Hclr in H1 by lia. done. }
    split; [lia|]. split; [|split; [auto with nova|]].
    + unfold word_members.
      replace (64 - lo) with ((b - lo) + (1 + (64 - (b + 1)))) by lia.
      rewrite seqZ_app by lia. rewrite list.filter_app, filter_none.
      2: { intros k Hk%elem_of_seqZ. rewrite H2 by lia. done. }
      replace (lo + (b - lo)) with b by lia. rewrite seqZ_cons by lia.
      replace (Z.pred (1 + (64 - (b + 1)))) with (64 - (b + 1)) by lia.
      rewrite <-Z.add_1_r. simpl.
      rewrite filter_cons_True by done. simpl. f_equal. f_equal.
      apply filter_ext_in. intros k Hk%elem_of_seqZ.
      rewrite clr_bit_bits by (done || lia). rewrite bool_decide_false by lia.
      by rewrite andb_true_r.
    + intros k Hk. rewrite clr_bit_bits by (done || lia). case_bool_decide as Hkb.
      * by rewrite andb_false_r.
      * rewrite H2 by lia. done.
Qed.

Lemma each_bit_run fuel i w lo st :
  word 64 w → 0 ≤ lo → 64 - lo ≤ Z.of_nat fuel →
  (∀ k, 0 ≤ k < lo → Z.testbit w k = false) →
  each_bit fn fuel i w st = run (word_members i w lo) st.
Proof.
  revert w lo st. induction fuel as [|fuel IH]; intros w lo st Hw Hlo Hf Hclr;
    pose proof (word_members_step i w lo Hw Hlo Hclr) as Hstep; simpl in *.
  - destruct (_ =? -1); [by rewrite Hstep|lia].
  - destruct (_ =? -1); [by rewrite Hstep|].
    destruct Hstep as (Hb & -> & Hw' & Hclr'). simpl. unfold bit_cpu.
    rewrite (Z.mod_small (bit_scan_forward w)) by lia. apply IH; (done || lia).
Qed.

Lemma each_bit_until_run fuel i w lo st :
  word 64 w → 0 ≤ lo → 64 - lo ≤ Z.of_nat fuel →
  (∀ k, 0 ≤ k < lo → Z.testbit w k = false) →
  each_bit_until fn cond fuel i w st = run_until (word_members i w lo) st.
Proof.
  revert w lo st. induction fuel as [|fuel IH]; intros w lo st Hw Hlo Hf Hclr;
    pose proof (word_members_step i w lo Hw Hlo Hclr) as Hstep; simpl in *.
  - destruct (_ =? -1); [by rewrite Hstep|lia].
  - destruct (_ =? -1); [by rewrite Hstep|].
    destruct Hstep as (Hb & -> & Hw' & Hclr'). simpl.
    destruct (cond st); simpl; [done|]. unfold bit_cpu.
    rewrite (Z.mod_small (bit_scan_forward w)) by lia. apply IH; (done || lia).
Qed.

Lemma each_bit_64 i w st :
  word 64 w → each_bit fn 64 i w st = run (word_members i w 0) st.
Proof. intros Hw. apply each_bit_run; [done|done|done|]. intros k Hk. lia. Qed.

Lemma each_bit_until_64 i w st :
  word 64 w → each_bit_until fn cond 64 i w st = run_until (word_members i w 0) st.
Proof. intros Hw. apply each_bit_until_run; [done|done|done|]. intros k Hk. lia. Qed.

Lemma run_app l1 l2 st : run (l1 ++ l2) st = run l2 (run l1 st).
Proof. revert st. induction l1; intros st; simpl; auto. Qed.

Lemma run_until_stop l st : cond st = true → run_until l st = st.
Proof. destruct l; simpl; [done|]. by intros ->. Qed.

Lemma run_until_app l1 l2 st : run_until (l1 ++ l2) st = run_until l2 (run_until l1 st).
Proof.
  revert st. induction l1 as [|c l1 IH]; intros st; simpl; [done|].
  destruct (cond st) eqn:Hc; [by rewrite run_until_stop|]. apply IH.
Qed.

Lemma run_inv (P : S → Prop) l st :
  P st → (∀ c st, c ∈ l → P st → P (fn c st)) → P (run l st).
Proof.
  revert st. induction l as [|c l IH]; intros st Hst Hstep; [done|]. simpl.
  apply IH; [apply Hstep; [left|done]|]. intros. apply Hstep; [by right|done].
Qed.

Lemma run_until_inv (P : S → Prop) l st :
  P st → (∀ c st, c ∈ l → cond st = false → P st → P (fn c st)) → P (run_until l st).
Proof.
  revert st. induction l as [|c l IH]; intros st Hst Hstep; [done|]. simpl.
  destruct (cond st) eqn:Hc; [done|].
  apply IH; [apply Hstep; [left|done|done]|]. intros. apply Hstep; [by right|done|done].
Qed.

Lemma elem_of_word_members i w lo c :
  c ∈ word_members i w lo ↔ lo ≤ c - i * 64 < 64 ∧ Z.testbit w (c - i * 64) = true.
Proof.
  unfold word_members. rewrite list_elem_of_fmap. split.
  - intros (k & -> & Hk). apply list_elem_of_filter in Hk as [Ht Hk].
    apply elem_of_seqZ in Hk. replace (k + i * 64 - i * 64) with k by lia. split; [lia|done].
  - intros [Hr Ht]. exists (c - i * 64). split; [lia|].
    apply list_elem_of_filter. split; [done|]. apply elem_of_seqZ. lia.
Qed.

(** The members of [n] words from word [i] on. *)
Definition words_members (s : cpuset) (i n : nat) : list Z :=
  mjoin ((λ i, word_members (Z.of_nat i) (default 0 (s !! i)) 0) <$> seq i n).

Lemma words_members_S s i n :
  words_members s i (Datatypes.S n) =
    word_members (Z.of_nat i) (default 0 (s !! i)) 0 ++ words_members s (Datatypes.S i) n.
Proof. reflexivity. Qed.

(** The members of a set, word by word. *)
Lemma members_words s :
  cpuset_wf s →
  members s = words_members s 0 values.
Proof.
  intros [Hw Hl]. unfold members, words_members, word_members. change values with 4%nat in *.
  assert (∀ i, (i < 4)%nat →
    (λ k, k + Z.of_nat i * 64) <$> filter (λ k, Z.testbit (default 0 (s !! i)) k = true) (seqZ 0 (64 - 0))
    = filter (λ c, bit_at s c = true) (seqZ (Z.of_nat i * 64) 64)) as Hi.
  { intros i Hi. change (64 - 0) with 64.
    change (seqZ (Z.of_nat i * 64) 64) with (seqZ (0 + Z.of_nat i * 64) 64).
    rewrite seqZ_shift, filter_fmap.
    f_equal. apply filter_ext_in. intros k Hk%elem_of_seqZ. unfold bit_at.
    rewrite Z.div_add, (Z.div_small k), Z.add_0_l, Nat2Z.id by lia.
    rewrite Z.mod_add, Z.mod_small by lia.
    destruct (lookup_lt_is_Some_2 s i) as [w Hlk]; [lia|]. by rewrite Hlk. }
  cbn [seq fmap list_fmap mjoin list_join].
  rewrite !Hi by lia. rewrite app_nil_r.
  rewrite <-!list.filter_app. f_equal.
Qed.

Lemma default_word s i : cpuset_wf s → word 64 (default 0 (s !! i)).
Proof. intros [Hw _]. destruct (s !! i) eqn:Hl; simpl; [by eapply words_lookup|apply word_0]. Qed.

Lemma word_members_range i w c :
  (i < values)%nat → c ∈ word_members (Z.of_nat i) w 0 → 0 ≤ c < NUM_CPU.
Proof.
  change values with 4%nat. unfold NUM_CPU. rewrite elem_of_word_members. lia.
Qed.

Lemma each_word_run body n i st :
  (∀ c st, get (fn c st) = get st) → cpuset_wf (get st) →
  (∀ i st, cpuset_wf (get st) →
     body i st = run (word_members (Z.of_nat i) (default 0 (get st !! i)) 0) st) →
  each_word body n i st = run (words_members (get st) i n) st.
Proof.
  intros Hget Hwf Hbody. revert i st Hwf.
  assert (∀ l st, get (run l st) = get st) as Hrun.
  { clear -Hget. induction l as [|c l IHl]; intros st; simpl; [done|]. by rewrite IHl, Hget. }
  induction n as [|n IH]; intros i st Hwf; [done|].
  rewrite words_members_S, run_app. simpl. rewrite Hbody by done.
  rewrite IH by (by rewrite Hrun). by rewrite Hrun.
Qed.

Lemma each_word_until_run body n i st :
  (∀ c st, get (fn c st) = get st) → cpuset_wf (get st) →
  (∀ i st, cpuset_wf (get st) →
     body i st = run_until (word_members (Z.of_nat i) (default 0 (get st !! i)) 0) st) →
  each_word_until cond body n i st = run_until (words_members (get st) i n) st.
Proof.
  intros Hget Hwf Hbody. revert i st Hwf.
  assert (∀ l st, get (run_until l st) = get st) as Hrun.
  { clear -Hget. induction l as [|c l IHl]; intros st; simpl; [done|].
    destruct (cond st); [done|]. by rewrite IHl, Hget. }
  induction n as [|n IH]; intros i st Hwf; [done|].
  rewrite words_members_S, run_until_app. simpl.
  destruct (cond st) eqn:Hc; [by rewrite (run_until_stop _ st Hc), run_until_stop|]. rewrite Hbody by done.
  rewrite IH by (by rewrite Hrun). by rewrite Hrun.
Qed.

Lemma for_each_body_run i st :
  cpuset_wf (get st) →
  for_each_body get fn i st = run (word_members (Z.of_nat i) (default 0 (get st !! i)) 0) st.
Proof. intros. unfold for_each_body. apply each_bit_64. by apply default_word. Qed.

Lemma for_each_until_body_run i st :
  cpuset_wf (get st) →
  for_each_until_body get fn cond i st =
    run_until (word_members (Z.of_nat i) (default 0 (get st !! i)) 0) st.
Proof. intros. unfold for_each_until_body. apply each_bit_until_64. by apply default_word. Qed.

(** A callback that leaves the set alone is called once for every member, in
    ascending order. *)
Lemma for_each_run st :
  (∀ c st, get (fn c st) = get st) → cpuset_wf (get st) →
  for_each get fn st = run (members (get st)) st.
Proof.
  intros. unfold for_each. rewrite members_words by done.
  apply each_word_run; auto using for_each_body_run.
Qed.

Lemma for_each_until_run st :
  (∀ c st, get (fn c st) = get st) → cpuset_wf (get st) →
  for_each_until get fn cond st = run_until (members (get st)) st.
Proof.
  intros. unfold for_each_until. rewrite members_words by done.
  apply each_word_until_run; auto using for_each_until_body_run.
Qed.

Lemma each_word_inv (P : S → Prop) body n i st :
  P st → (∀ j st, (i ≤ j < i + n)%nat → P st → P (body j st)) → P (each_word body n i st).
Proof.
  revert i st. induction n as [|n IH]; intros i st Hst Hstep; [done|]. simpl.
  apply IH; [apply Hstep; [lia|done]|]. intros j st' Hj. apply Hstep. lia.
Qed.

Lemma each_word_until_inv (P : S → Prop) body n i st :
  P st → (∀ j st, (i ≤ j < i + n)%nat → P st → P (body j st)) →
  P (each_word_until cond body n i st).
Proof.
  revert i st. induction n as [|n IH]; intros i st Hst Hstep; [done|]. simpl.
  destruct (cond st); [done|].
  apply IH; [apply Hstep; [lia|done]|]. intros j st' Hj. apply Hstep. lia.
Qed.

(** A callback that changes the set sees, for each word, the members that word
    had when its turn came; an invariant of the callback holds at the end. *)
Lemma for_each_until_inv (P : S → Prop) st :
  P st → (∀ st, P st → cpuset_wf (get st)) →
  (∀ c st, 0 ≤ c < NUM_CPU → cond st = false → P st → P (fn c st)) →
  P (for_each_until get fn cond st).
Proof.
  intros Hst Hwf Hstep. unfold for_each_until. apply (each_word_until_inv P); [done|]. intros j st' Hj Hst'.
  rewrite for_each_until_body_run by auto. apply run_until_inv; [done|].
  intros c st'' Hc. apply Hstep. eapply word_members_range; [|done]. lia.
Qed.

Lemma for_each_inv (P : S → Prop) st :
  P st → (∀ st, P st → cpuset_wf (get st)) →
  (∀ c st, 0 ≤ c < NUM_CPU → P st → P (fn c st)) →
  P (for_each get fn st).
Proof.
  intros Hst Hwf Hstep. unfold for_each. apply (each_word_inv P); [done|]. intros j st' Hj Hst'.
  rewrite for_each_body_run by auto. apply run_inv; [done|].
  intros c st'' Hc. apply Hstep. eapply word_members_range; [|done]. lia.
Qed.

(** A loop that stops early or uses up its list. *)
Lemma run_until_exhaust (Q : list Z → S → Prop) l st :
  Q l st → (∀ c l st, cond st = false → Q (c :: l) st → Q l (fn c st)) →
  ∃ l', Q l' (run_until l st) ∧ (cond (run_until l st) = true ∨ l' = []).
Proof.
  intros Hst Hstep. revert st Hst. induction l as [|c l IH]; intros st Hst; simpl; [eauto|].
  destruct (cond st) eqn:Hc; [by eauto|]. apply IH. by apply Hstep.
Qed.

Section removing.
Context (I : S → Prop).
Hypothesis I_wf : ∀ st, I st → cpuset_wf (get st).
Hypothesis I_step : ∀ c st, 0 ≤ c < NUM_CPU → cond st = false → I st → bit_at (get st) c = true →
  I (fn c st) ∧
  (∀ m, 0 ≤ m < NUM_CPU → bit_at (get (fn c st)) m = bit_at (get st) m && negb (bool_decide (m = c))).

Lemma removing_word j st :
  (j < values)%nat → I st → (∀ m, 0 ≤ m < Z.of_nat j * 64 → bit_at (get st) m = false) →
  let st' := for_each_until_body get fn cond j st in
  I st' ∧ (cond st' = true ∨ ∀ m, 0 ≤ m < Z.of_nat (Datatypes.S j) * 64 → bit_at (get st') m = false).
Proof using I_wf I_step.
  intros Hj Hst Hlow st'. unfold st'. rewrite for_each_until_body_run by auto.
  set (w := default 0 (get st !! j)).
  set (Q := λ l st, I st ∧ NoDup l ∧ (∀ c, c ∈ l → 0 ≤ c < NUM_CPU ∧ bit_at (get st) c = true) ∧
    (∀ m, 0 ≤ m < Z.of_nat (Datatypes.S j) * 64 → bit_at (get st) m = true → m ∈ l)).
  assert (0 ≤ Z.of_nat j < 4) as Hj4 by (change values with 4%nat in Hj; lia).
  assert (∀ m, Z.of_nat j * 64 ≤ m < Z.of_nat j * 64 + 64 →
            bit_at (get st) m = Z.testbit w (m - Z.of_nat j * 64)) as Hw.
  { intros m Hm. unfold bit_at.
    assert (m / 64 = Z.of_nat j) as Hd by (symmetry; apply (Z.div_unique m 64 _ (m - Z.of_nat j * 64)); lia).
    assert (m mod 64 = m - Z.of_nat j * 64) as Hmod by (rewrite Z.mod_eq, Hd; lia).
    rewrite Hd, Hmod, Nat2Z.id. unfold w.
    destruct (lookup_lt_is_Some_2 (get st) j) as [x Hx]; [rewrite (proj2 (I_wf st Hst)); lia|].
    by rewrite Hx. }
  destruct (run_until_exhaust Q (word_members (Z.of_nat j) w 0) st) as (l & Hq & Hend).
  - split_and!; [done| | |].
    + apply NoDup_fmap_2; [intros ?? ?; lia|]. apply list.NoDup_filter, NoDup_seqZ.
    + intros c Hc. split; [by eapply word_members_range|].
      apply elem_of_word_members in Hc as [Hr Ht]. rewrite Hw by lia. done.
    + intros m Hm Hb. destruct (Z.lt_ge_cases m (Z.of_nat j * 64)); [by rewrite Hlow in Hb by lia|].
      apply elem_of_word_members. rewrite Hw in Hb by lia. split; [lia|done].
  - intros c l st1 Hc (HI & Hnd & Hin & Hall). apply list.NoDup_cons in Hnd as [Hc' Hnd].
    destruct (Hin c ltac:(left)) as [Hr Hb]. destruct (I_step c st1 Hr Hc HI Hb) as [HI' Heq].
    split_and!; [done|done| |].
    + intros c' Hc2. destruct (Hin c' ltac:(by right)) as [Hr2 Hb2]. split; [done|].
      rewrite Heq, Hb2 by done. rewrite bool_decide_false; [done|]. by intros ->.
    + intros m Hm. assert (0 ≤ m < NUM_CPU) by (unfold NUM_CPU; lia).
      rewrite Heq by done. intros [Hm1 Hm2]%andb_true_iff. apply Hall in Hm1; [|lia].
      apply elem_of_cons in Hm1 as [->|]; [by rewrite bool_decide_true in Hm2|done].
  - destruct Hq as (HI & _ & _ & Hall). split; [done|].
    destruct Hend as [| ->]; [by left|right]. intros m Hm.
    destruct (bit_at _ m) eqn:Hb; [|done]. exfalso. apply Hall in Hb; [|done]. by apply elem_of_nil in Hb.
Qed.

(** If the callback removes its argument from the set that is iterated over,
    the loop ends because of the condition or with an empty set. *)
Lemma for_each_until_removing st :
  I st →
  let st' := for_each_until get fn cond st in
  I st' ∧ (cond st' = true ∨ ∀ m, 0 ≤ m < NUM_CPU → bit_at (get st') m = false).
Proof using I_wf I_step.
  intros Hst. unfold for_each_until.
  assert (∀ n j st, (j + n = values)%nat → I st →
    (∀ m, 0 ≤ m < Z.of_nat j * 64 → bit_at (get st) m = false) →
    let st' := each_word_until cond (for_each_until_body get fn cond) n j st in
    I st' ∧ (cond st' = true ∨ ∀ m, 0 ≤ m < NUM_CPU → bit_at (get st') m = false)) as Hgen.
  { induction n as [|n IH]; intros j s Hj Hs Hlow; cbn [each_word_until].
    - split; [done|]. right. intros m Hm. apply Hlow. change values with 4%nat in Hj.
      unfold NUM_CPU in Hm. lia.
    - destruct (cond s) eqn:Hc; [by auto|].
      destruct (removing_word j s) as [HI Hor]; [lia|done|done|].
      set (s' := for_each_until_body get fn cond j s) in *. clearbody s'.
      destruct Hor as [Hstop|Hlow']; [|by apply IH; [lia|..]].
      destruct n; cbn [each_word_until]; [by auto|]. rewrite Hstop. by auto. }
  apply Hgen; [lia|done|]. intros m Hm. lia.
Qed.
End removing.

End iterate_facts.

(** Iterating over a set with a callback that records its argument yields
    every member exactly once, in ascending order. *)
Theorem for_each_visits s :
  cpuset_wf s →
  for_each (λ _, s) (λ c (trace : list Z), trace ++ [c]) [] = members s ∧
  NoDup (members s) ∧ list_to_set (members s) = cpus s.
Proof.
  intros Hs. split_and!; [|apply list.NoDup_filter, NoDup_seqZ|done].
  rewrite for_each_run; [|done|done].
  assert (∀ l acc, run (λ c (trace : list Z), trace ++ [c]) l acc = acc ++ l) as Hrun.
  { induction l as [|c l IH]; intros acc; simpl; [by rewrite app_nil_r|].
    rewrite IH. by rewrite <-app_assoc. }
  apply Hrun.
Qed.

Lemma for_each_visits_witness :
  for_each (λ _, merge (set (cpuset_new 0) 3).2 (set (cpuset_new 0) 200).2)
    (λ c (trace : list Z), trace ++ [c]) [] = [3; 200].
Proof.
  etransitivity; [apply (for_each_visits (merge (set (cpuset_new 0) 3).2 (set (cpuset_new 0) 200).2))|].
  - apply merge_wf; apply set_wf; (apply cpuset_new_wf || idtac); done.
  - vm_compute. reflexivity.
Defined.

(** [Cpuset::count] never yields a value: its loop runs over the size of
    the array in bytes and reads past the end of the array of four words. *)
Theorem count_out_of_bounds s : cpuset_wf s → count s = None.
Proof.
  intros [_ Hl]. unfold count.
  assert (∀ fuel i acc, (length s < i + fuel)%nat → (i ≤ length s)%nat →
            count_loop fuel i s acc = None) as Hgen.
  { induction fuel as [|fuel IH]; intros i acc Hf Hi; [lia|]. simpl.
    destruct (s !! i) eqn:Hlk; simpl; [|done]. apply IH; [lia|].
    apply lookup_lt_Some in Hlk. lia. }
  apply Hgen; [|lia]. rewrite Hl. vm_compute. lia.
Qed.

Lemma count_out_of_bounds_witness : count (cpuset_new 5) = None.
Proof. apply (count_out_of_bounds (cpuset_new 5)). by apply cpuset_new_wf. Defined.

Lemma first_cpu_loop_spec fuel i s :
  cpuset_wf s → (values < i + fuel)%nat → (i ≤ values)%nat →
  first_cpu_loop fuel i s =
    match words_members s i (values - i) with
    | [] => None
    | c :: _ => Some (c mod 64)
    end.
Proof.
  intros Hs. revert i. induction fuel as [|fuel IH]; intros i Hf Hi; [lia|]. simpl.
  destruct (decide (i = values)) as [->|Hne].
  { rewrite Nat.sub_diag. simpl. rewrite lookup_ge_None_2; [done|]. rewrite (proj2 Hs). done. }
  destruct (lookup_lt_is_Some_2 s i) as [w Hw]; [rewrite (proj2 Hs); lia|]. rewrite Hw. simpl.
  replace (values - i)%nat with (S (values - S i)) by lia. rewrite words_members_S, Hw. simpl. pose proof (words_lookup _ _ _ (proj1 Hs) Hw) as Hword.
  pose proof (word_members_step (Z.of_nat i) w 0 Hword ltac:(lia) ltac:(lia)) as Hstep.
  simpl in Hstep. destruct (_ =? -1).
  - rewrite Hstep. simpl. apply IH; lia.
  - destruct Hstep as (Hb & -> & _). simpl. f_equal.
    rewrite Z.mod_add, Z.mod_small by lia. apply wrap_small. split; lia.
Qed.

Lemma first_cpu_members s :
  cpuset_wf s →
  first_cpu s = match members s with [] => None | c :: _ => Some (c mod 64) end.
Proof.
  intros Hs. unfold first_cpu. rewrite first_cpu_loop_spec by (done || lia).
  rewrite Nat.sub_0_r, members_words by done. done.
Qed.

(** [Cpuset::first_cpu] returns the least member only modulo 64: it is a
    member when the least member is below 64, for a set whose members are all 64
    or above it names a CPU outside the set, and for the empty set it searches
    beyond the array. *)
Theorem first_cpu_spec s :
  cpuset_wf s →
  (members s = [] → first_cpu s = None) ∧
  ∀ c l, members s = c :: l →
    first_cpu s = Some (c mod 64) ∧ (c mod 64 ∈ members s ↔ c < 64).
Proof.
  intros Hs. rewrite first_cpu_members by done. split; [by intros ->|].
  intros c l Hm. split; [by rewrite Hm|].
  assert (c ∈ members s) as Hc by (rewrite Hm; left).
  apply elem_of_members in Hc as [Hc _].
  pose proof (Z.mod_pos_bound c 64). split.
  - intros Hin. apply (filter_seqZ_head _ _ _ _ _ _ Hm) in Hin. lia.
  - intros. rewrite Z.mod_small by lia. rewrite Hm. left.
Qed.

Lemma first_cpu_spec_witness : first_cpu (set (cpuset_new 0) 70).2 = Some 6.
Proof.
  apply (proj2 (first_cpu_spec (set (cpuset_new 0) 70).2
    (set_wf _ 70 (cpuset_new_wf 0 ltac:(done)) ltac:(done))) 70 []).
  vm_compute. reflexivity.
Defined.
