(* ===== verification/CoreAlloc.v ===== *)
(** The core allocator: [Resource], [Cpu_resource], [Core_allocator], [Cell] and
    the cell info page [Cip], with the hypercalls [sys_alloc], [sys_release] and
    the [UPDATE_CORES] operation of [sys_cell_ctrl].

    A CPU core has an owner (the cell it is reserved for) and a current holder.
    A cell allocates cores from its reservation and from the idle set, and files
    a yield request (the [yield_flag] of the holder's info page) for reserved
    cores that are lent out.  The cells, their info pages and worker queues, the
    array of resources and the idle set are one state; the functions are the
    methods of the source in the order of its calls.  [None] is a null-pointer
    dereference or a failed assertion.

    Waking and blocking a worker are semaphore operations.  The allocator uses
    them through the interface [SemOps]; they act on a part of the state that
    the allocator never reads, except that a blocking [dn] leaves the kernel
    path, which ends the loop over the workers. *)
From S2P Require Import Prelude Bits Bitmap Cpuset.
Local Open Scope Z_scope.

Definition HZD_YIELD : Z := 0x80.
Definition HZD_RECLAIM : Z := 0x100.

Abbreviation cell_id := nat.
Abbreviation sm_id := nat.
Abbreviation ec_id := nat.

(** What the allocator needs of a worker's semaphore: [up], and [dn] with the
    [zero] flag on behalf of the worker's EC; the flag returned by [dn] says
    that the caller blocked and the kernel path ended there. *)
Class SemOps (M : Type) := {
  sm_up : sm_id → M → M;
  sm_dn_zero : sm_id → ec_id → M → M * bool;
}.

Record worker := Worker { w_sm : sm_id; w_ec : ec_id }.

Record cip := Cip {
  yield_flag : Z → Z;
  cores_current : cpuset;
  cores_reserved : cpuset;
  cores_new : cpuset;
  cores_reclaimed : cpuset;
  ch_remainder : Z;
  ch_limit : Z;
  ch_count : Z;
}.

Record cell := Cell {
  c_cip : cip;
  workers : Z → list worker;
  prefered_cores : cpuset;
  to_be_destroyed : bool;
  initialized : bool;
}.

Record cpu_resource := Cpu_resource {
  hazards : Z;
  owner : option cell_id;
  current : option cell_id;
}.

Record state (M : Type) := State {
  resources : Z → cpu_resource;
  cpu_count : Z;
  idle_cpus : cpuset;
  cells : cell_id → cell;
  pd_cell : option cell_id;   (** the cell of [Pd::current] *)
  sems : M;
}.
Arguments State {M}.
Arguments resources {M}.
Arguments cpu_count {M}.
Arguments idle_cpus {M}.
Arguments cells {M}.
Arguments pd_cell {M}.
Arguments sems {M}.

(** ** Field updates *)

Definition upd_yield (f : (Z → Z) → (Z → Z)) (p : cip) : cip :=
  Cip (f (yield_flag p)) (cores_current p) (cores_reserved p) (cores_new p)
      (cores_reclaimed p) (ch_remainder p) (ch_limit p) (ch_count p).
Definition upd_current (f : cpuset → cpuset) (p : cip) : cip :=
  Cip (yield_flag p) (f (cores_current p)) (cores_reserved p) (cores_new p)
      (cores_reclaimed p) (ch_remainder p) (ch_limit p) (ch_count p).
Definition upd_new (f : cpuset → cpuset) (p : cip) : cip :=
  Cip (yield_flag p) (cores_current p) (cores_reserved p) (f (cores_new p))
      (cores_reclaimed p) (ch_remainder p) (ch_limit p) (ch_count p).
Definition upd_reclaimed (f : cpuset → cpuset) (p : cip) : cip :=
  Cip (yield_flag p) (cores_current p) (cores_reserved p) (cores_new p)
      (f (cores_reclaimed p)) (ch_remainder p) (ch_limit p) (ch_count p).

Section core_alloc.
Context {M : Type} `{!SemOps M}.

(** What other CPUs do while [handle_hazard] pauses for a core to be released. *)
Context (pause : Z → state M → state M).

Implicit Types (st : state M) (cl : cell_id) (c cpu : Z).

Definition upd_cip cl (f : cip → cip) st : state M :=
  let x := cells st cl in
  State (resources st) (cpu_count st) (idle_cpus st)
    (<[cl := Cell (f (c_cip x)) (workers x) (prefered_cores x) (to_be_destroyed x) (initialized x)]>
       (cells st)) (pd_cell st) (sems st).

Definition upd_res c (f : cpu_resource → cpu_resource) st : state M :=
  State (<[c := f (resources st c)]> (resources st)) (cpu_count st) (idle_cpus st)
    (cells st) (pd_cell st) (sems st).

Definition upd_idle (f : cpuset → cpuset) st : state M :=
  State (resources st) (cpu_count st) (f (idle_cpus st)) (cells st) (pd_cell st) (sems st).

Definition upd_sems (m : M) st : state M :=
  State (resources st) (cpu_count st) (idle_cpus st) (cells st) (pd_cell st) m.

Definition set_current (x : option cell_id) (r : cpu_resource) : cpu_resource :=
  Cpu_resource (hazards r) (owner r) x.
Definition set_owner (x : option cell_id) (r : cpu_resource) : cpu_resource :=
  Cpu_resource (hazards r) x (current r).
Definition set_hazards (h : Z) (r : cpu_resource) : cpu_resource :=
  Cpu_resource h (owner r) (current r).

(** ** Resource *)

(** [Resource::occupy]: compare-and-exchange of the holder from null. *)
Definition resource_occupy c (pd : option cell_id) st : bool * state M :=
  match current (resources st c) with
  | None => (true, upd_res c (set_current pd) st)
  | Some _ => (false, st)
  end.

Definition resource_release c st : state M := upd_res c (set_current None) st.

Definition resource_confer c cl st : state M := upd_res c (set_owner (Some cl)) st.

Definition borrowed (r : cpu_resource) : bool :=
  negb (bool_decide (owner r = current r)) && negb (bool_decide (current r = None)).

(** ** Cell: waking and blocking workers *)

Fixpoint wake_workers (l : list worker) cl core st : state M :=
  match l with
  | [] => st
  | w :: l =>
    let st := upd_cip cl (upd_current (λ s, (set s core).2)) st in
    wake_workers l cl core (upd_sems (sm_up (w_sm w) (sems st)) st)
  end.

Definition wake_core cl core st : state M :=
  wake_workers (workers (cells st cl) core) cl core st.

Definition add_cores cl (get : state M → cpuset) st : state M :=
  for_each get (λ c, wake_core cl c) st.

Definition wake_cores cl st : state M :=
  add_cores cl (λ st, cores_new (c_cip (cells st cl))) st.

Definition yield_core cl core (clear_flag : bool) st : state M :=
  let st := upd_cip cl (upd_current (λ s, clr s core)) st in
  if clear_flag then upd_cip cl (upd_yield <[core := 0]>) st else st.

Fixpoint block_workers (l : list worker) st : state M :=
  match l with
  | [] => st
  | w :: l =>
    let '(m, gone) := sm_dn_zero (w_sm w) (w_ec w) (sems st) in
    let st := upd_sems m st in
    if gone then st else block_workers l st
  end.

Definition block_workers_on cl core st : state M :=
  if to_be_destroyed (cells st cl) then st
  else
    let st := upd_cip cl (upd_current (λ s, clr s core)) st in
    block_workers (workers (cells st cl) core) st.

(** [Cell::update]: merge a set of preferred cores. *)
Definition cell_update cl (alloc : cpuset) st : state M :=
  let x := cells st cl in
  State (resources st) (cpu_count st) (idle_cpus st)
    (<[cl := Cell (c_cip x) (workers x) (merge (prefered_cores x) alloc)
               (to_be_destroyed x) (initialized x)]> (cells st)) (pd_cell st) (sems st).

Definition update_channel_params cl (cores : Z) st : state M :=
  let p := c_cip (cells st cl) in
  if (cores =? 0) || (ch_count p =? 0) then st
  else upd_cip cl (λ p, Cip (yield_flag p) (cores_current p) (cores_reserved p) (cores_new p)
         (cores_reclaimed p) (wrap 16 (ch_count p mod cores)) (wrap 16 (ch_count p / cores))
         (ch_count p)) st.

(** ** Cpu_resource *)

Definition occupy c (pd : option cell_id) st : option (bool * state M) :=
  let '(rc, st) := resource_occupy c pd st in
  if rc then
    let st := upd_idle (λ s, clr s c) st in
    cl ← pd;
    Some (true, upd_cip cl (upd_new (λ s, (set s c).2)) st)
  else Some (false, st).

(** [Cpu_resource::return_core]. *)
Definition res_return_core c st : option (state M) :=
  borrower ← current (resources st c);
  let st := upd_cip borrower (upd_yield <[c := 0]>) st in
  own ← owner (resources st c);
  let st := upd_res c (set_current (Some own)) st in
  let st := wake_core own c st in
  if bool_decide (pd_cell st = Some borrower)
  then Some (block_workers_on borrower c st) else Some st.

(** [Cpu_resource::release]. *)
Definition res_release c st : option (state M) :=
  curr ← current (resources st c);
  if yield_flag (c_cip (cells st curr)) c =? 1 then res_return_core c st
  else
    let st := upd_cip curr (upd_yield <[c := 0]>) st in
    let st := upd_idle (λ s, (set s c).2) st in
    let st := resource_release c st in
    if bool_decide (pd_cell st = Some curr)
    then Some (block_workers_on curr c st) else Some st.

(** [Core_allocator::set_hazard] and [Core_allocator::handle_hazard]. *)
Definition set_hazard c (h : Z) st : state M :=
  upd_res c (λ r, set_hazards (Z.lor (hazards r) h) r) st.

Definition handle_hazard c st : option (bool * state M) :=
  let h := hazards (resources st c) in
  if h =? HZD_YIELD then
    let st := upd_res c (λ r, set_hazards (clr_mask (hazards r) HZD_YIELD) r) st in
    let borrower := current (resources st c) in
    let st := match borrower with Some _ => pause c st | None => st end in
    let own := owner (resources st c) in
    '(rc, st) ← occupy c own st;
    if rc : bool then
      match borrower with
      | Some b => Some (true, upd_cip b (upd_current (λ s, clr s c)) st)
      | None => Some (true, st)
      end
    else
      o ← own;
      Some (false, upd_cip o (upd_reclaimed (λ s, clr s c)) st)
  else if h =? HZD_RECLAIM then
    let st := upd_res c (λ r, set_hazards (clr_mask (hazards r) HZD_RECLAIM) r) st in
    st ← res_return_core c st;
    Some (true, st)
  else Some (false, st).

(** [Cell::return_core]: file a yield request with the borrower [cl]. *)
Definition cell_return_core cl c st : option (bool * state M) :=
  match workers (cells st cl) c with
  | _ :: _ =>
    let flag := yield_flag (c_cip (cells st cl)) c in
    let '(ok, flag') := cmp_swap flag 0 1 in
    let st := upd_cip cl (upd_yield <[c := flag']>) st in
    if negb ok then handle_hazard c (set_hazard c HZD_YIELD st)
    else Some (true, st)
  | [] => st ← res_return_core c st; Some (true, st)
  end.

(** [Cpu_resource::reclaim]. *)
Definition reclaim c st : option (bool * state M) :=
  own ← owner (resources st c);
  let st := upd_cip own (upd_reclaimed (λ s, (set s c).2)) st in
  '(rc, st) ← occupy c (Some own) st;
  if rc : bool then
    cur ← current (resources st c);
    Some (true, wake_core cur c st)
  else
    match current (resources st c) with
    | Some b =>
      if bool_decide (b = own)
      then Some (false, upd_cip own (upd_reclaimed (λ s, clr s c)) st)
      else cell_return_core b c st
    | None => Some (false, upd_cip own (upd_reclaimed (λ s, clr s c)) st)
    end.

(** ** Core_allocator *)

(** The state of the loops of [alloc]: the local set [reserved], the counter
    and the allocator; [None] once a null pointer was dereferenced. *)
Definition loop_state : Type := option (Z * state M).

Definition alloc_cond (quantity : Z) (ls : loop_state) : bool :=
  match ls with Some (n, _) => quantity <=? n | None => true end.

Definition alloc_occupy cl c (ls : loop_state) : loop_state :=
  '(n, st) ← ls;
  '(rc, st) ← occupy c (Some cl) st;
  Some (if rc : bool then n + 1 else n, st).

Definition alloc_reclaim c (ls : loop_state) : loop_state :=
  '(n, st) ← ls;
  if borrowed (resources st c) then
    '(rc, st) ← reclaim c st;
    Some (if rc : bool then n + 1 else n, st)
  else Some (n, st).

Definition idle_of (ls : loop_state) : cpuset :=
  match ls with Some (_, st) => idle_cpus st | None => cpuset_new 0 end.

Definition alloc (quantity : Z) cl st : loop_state :=
  let st := upd_cip cl (upd_new clear) st in
  let reserved := subtract (cores_reserved (c_cip (cells st cl)))
                           (cores_current (c_cip (cells st cl))) in
  let ls := for_each_until (λ _, reserved) (alloc_occupy cl) (alloc_cond quantity) (Some (0, st)) in
  '(n, st) ← ls;
  if n =? quantity then Some (n, st)
  else
    let ls := for_each_until idle_of (alloc_occupy cl) (alloc_cond quantity) (Some (n, st)) in
    '(n, st) ← ls;
    if n =? quantity then Some (n, st)
    else for_each_until (λ _, reserved) alloc_reclaim (alloc_cond quantity) (Some (n, st)).

Definition release (x : option cell_id) c st : option (state M) :=
  match x with
  | Some cl =>
    if bool_decide (current (resources st c) = Some cl) then res_release c st
    else
      let st := upd_cip cl (upd_yield <[c := 0]>) st in
      Some (block_workers_on cl c st)
  | None => res_release c st
  end.

Definition return_core c st : option (state M) := res_return_core c st.

Definition add_cpu cpu st : state M :=
  State (<[cpu := Cpu_resource 0 None None]> (resources st)) (wrap 32 (cpu_count st + 1))
    (set (idle_cpus st) cpu).2 (cells st) (pd_cell st) (sems st).

Definition confer cl st : state M :=
  for_each (λ st, cores_reserved (c_cip (cells st cl))) (λ c, resource_confer c cl) st.

Definition transfer cl cpu st : option (state M) :=
  if negb (chk (idle_cpus st) cpu) then Some st
  else
    let finish st :=
      Some (upd_cip cl (upd_current (λ s, (set s cpu).2))
             (upd_cip cl (upd_new (λ s, clr s cpu)) st)) in
    if borrowed (resources st cpu) then
      '(_, st) ← reclaim cpu st; finish st
    else
      '(rc, st) ← occupy cpu (Some cl) st;
      if (rc : bool) then finish st
      else if negb (borrowed (resources st cpu)) then Some st
      else finish st.

(** [Cell::~Cell]: every core the cell still uses is returned or released. *)
Definition destroy_core cl c (ost : option (state M)) : option (state M) :=
  st ← ost;
  if yield_flag (c_cip (cells st cl)) c =? 1 then return_core c st
  else release (Some cl) c st.

Definition cell_destroy cl st : option (state M) :=
  let x := cells st cl in
  let st := State (resources st) (cpu_count st) (idle_cpus st)
    (<[cl := Cell (c_cip x) (workers x) (prefered_cores x) true (initialized x)]> (cells st))
    (pd_cell st) (sems st) in
  for_each (λ ost, match ost with
                   | Some st => cores_current (c_cip (cells st cl))
                   | None => cpuset_new 0 end)
    (destroy_core cl) (Some st).

(** ** Hypercalls *)

Inductive status := SUCCESS | BAD_HYP | BAD_CPU | BAD_PAR | BAD_CAP | QUO_OOM.

(** [Resource::CPU] is the only resource type. *)
Definition RES_CPU : Z := 0.

Definition sys_alloc (type quantity : Z) st : option (status * state M) :=
  match pd_cell st with
  | None => Some (BAD_HYP, st)
  | Some cl =>
    if type =? RES_CPU then
      if quantity <=? 0 then Some (BAD_PAR, st)
      else
        '(cores, st) ← alloc quantity cl st;
        if cores =? 0 then Some (QUO_OOM, st)
        else
          let st := update_channel_params cl cores st in
          Some (SUCCESS, wake_cores cl st)
    else Some (BAD_PAR, st)
  end.

Inductive release_op := RELEASE | RETURN | OTHER_OP.

(** [cpu] is [Cpu::id]. *)
Definition sys_release (op : release_op) (type cpu : Z) st : option (status * state M) :=
  match pd_cell st with
  | None => Some (BAD_CPU, st)
  | Some cl =>
    match op with
    | RELEASE =>
      if type =? RES_CPU then st ← release (Some cl) cpu st; Some (SUCCESS, st)
      else Some (SUCCESS, st)
    | RETURN =>
      if type =? RES_CPU then st ← return_core cpu st; Some (SUCCESS, st)
      else Some (SUCCESS, st)
    | OTHER_OP => Some (BAD_PAR, st)
    end
  end.

(** [UPDATE_CORES] of [sys_cell_ctrl] for the cell [cl] of the PD named by the
    capability. *)
Definition cell_init cl st : option (state M) :=
  if initialized (cells st cl) then Some st
  else
    cpu ← first_cpu (cores_reserved (c_cip (cells st cl)));
    st ← transfer cl cpu st;
    let x := cells st cl in
    Some (State (resources st) (cpu_count st) (idle_cpus st)
      (<[cl := Cell (c_cip x) (workers x) (prefered_cores x) (to_be_destroyed x) true]> (cells st))
      (pd_cell st) (sems st)).

Definition update_cores cl st : option (status * state M) :=
  st ← cell_init cl (confer cl st); Some (SUCCESS, st).

#[local] Opaque Cpuset.set Cpuset.clr.

(** ** Invariant

    [A] is the set of CPUs that were added to the allocator.  The idle set never
    names a held core, and it names every added core that nobody holds.  It may
    name a core that was not added: user code writes the reservation in its info
    page, and a core reserved there can be taken and released. *)

Record cip_wf (p : cip) : Prop := {
  wf_current : cpuset_wf (cores_current p);
  wf_reserved : cpuset_wf (cores_reserved p);
  wf_new : cpuset_wf (cores_new p);
  wf_reclaimed : cpuset_wf (cores_reclaimed p);
}.

Record core_inv (A : gset Z) st : Prop := {
  inv_idle_wf : cpuset_wf (idle_cpus st);
  inv_cips : ∀ cl, cip_wf (c_cip (cells st cl));
  inv_idle_free : ∀ c, 0 ≤ c < NUM_CPU →
    bit_at (idle_cpus st) c = true → current (resources st c) = None;
  inv_free_idle : ∀ c, 0 ≤ c < NUM_CPU → c ∈ A →
    current (resources st c) = None → bit_at (idle_cpus st) c = true;
}.

(** Two states that agree on resources, idle set, reservations and the running
    cell, as after semaphore operations and changes to the other fields of an
    info page. *)
Record same_alloc st st' : Prop := {
  sa_res : resources st' = resources st;
  sa_idle : idle_cpus st' = idle_cpus st;
  sa_pd : pd_cell st' = pd_cell st;
  sa_cips : (∀ cl, cip_wf (c_cip (cells st cl))) → ∀ cl, cip_wf (c_cip (cells st' cl));
  sa_reserved : ∀ cl, cores_reserved (c_cip (cells st' cl)) = cores_reserved (c_cip (cells st cl));
  sa_workers : ∀ cl, workers (cells st' cl) = workers (cells st cl);
}.

#[local] Instance same_alloc_preorder : PreOrder same_alloc.
Proof.
  split.
  - intros st. by split.
  - intros x y z [] [].
    split; [congruence|congruence|congruence|auto|intros; etrans; eauto|intros; etrans; eauto].
Qed.

Lemma same_alloc_inv A st st' : same_alloc st st' → core_inv A st → core_inv A st'.
Proof.
  intros [Hr Hi _ Hc _ _] [H1 H2 H3 H4]. split.
  - by rewrite Hi.
  - auto.
  - rewrite Hi, Hr. done.
  - rewrite Hi, Hr. done.
Qed.

Lemma upd_cip_same cl f st :
  (∀ p, cip_wf p → cip_wf (f p)) → (∀ p, cores_reserved (f p) = cores_reserved p) →
  same_alloc st (upd_cip cl f st).
Proof.
  intros Hf Hr. split; try done; simpl.
  - intros Hc cl'. destruct (decide (cl = cl')) as [->|].
    + rewrite fn_lookup_insert. apply Hf, Hc.
    + by rewrite fn_lookup_insert_ne.
  - intros cl'. destruct (decide (cl = cl')) as [->|].
    + rewrite fn_lookup_insert. apply Hr.
    + by rewrite fn_lookup_insert_ne.
  - intros cl'. destruct (decide (cl = cl')) as [->|].
    + by rewrite fn_lookup_insert.
    + by rewrite fn_lookup_insert_ne.
Qed.

Lemma upd_cip_inv A cl f st :
  (∀ p, cip_wf p → cip_wf (f p)) → core_inv A st → core_inv A (upd_cip cl f st).
Proof.
  intros Hf [H1 H2 H3 H4]. split; [done| |done|done]. intros cl'. simpl.
  destruct (decide (cl = cl')) as [->|];
    [rewrite fn_lookup_insert; apply Hf, H2|by rewrite fn_lookup_insert_ne].
Qed.

Lemma upd_yield_wf f p : cip_wf p → cip_wf (upd_yield f p).
Proof. by intros []. Qed.
Lemma upd_current_wf f p : (∀ s, cpuset_wf s → cpuset_wf (f s)) → cip_wf p → cip_wf (upd_current f p).
Proof. intros Hf []. split; simpl; auto. Qed.
Lemma upd_new_wf f p : (∀ s, cpuset_wf s → cpuset_wf (f s)) → cip_wf p → cip_wf (upd_new f p).
Proof. intros Hf []. split; simpl; auto. Qed.
Lemma upd_reclaimed_wf f p : (∀ s, cpuset_wf s → cpuset_wf (f s)) → cip_wf p → cip_wf (upd_reclaimed f p).
Proof. intros Hf []. split; simpl; auto. Qed.

(** Closes the side condition of an update of one info page. *)
Ltac cip_same :=
  apply upd_cip_same;
  [intros ?p ?Hp; first [apply upd_yield_wf | apply upd_current_wf | apply upd_new_wf | apply upd_reclaimed_wf];
   try (intros ?s ?Hs; cbv beta); solve [auto with nova]|done].

Lemma upd_sems_same m st : same_alloc st (upd_sems m st).
Proof. by split. Qed.

Lemma wake_workers_same l cl core st :
  0 ≤ core < NUM_CPU → same_alloc st (wake_workers l cl core st).
Proof.
  intros Hc. revert st. induction l as [|w l IH]; intros st; [reflexivity|].
  cbn [wake_workers]. etransitivity; [|apply IH]. etransitivity; [|apply upd_sems_same]. cip_same.
Qed.

Lemma wake_core_same cl core st : 0 ≤ core < NUM_CPU → same_alloc st (wake_core cl core st).
Proof. apply wake_workers_same. Qed.

Lemma block_workers_same l st : same_alloc st (block_workers l st).
Proof.
  revert st. induction l as [|w l IH]; intros st; [reflexivity|]. simpl.
  destruct (sm_dn_zero _ _ _) as [m gone]. destruct gone; [apply upd_sems_same|].
  etransitivity; [apply upd_sems_same|apply IH].
Qed.

Lemma block_workers_on_same cl core st :
  0 ≤ core < NUM_CPU → same_alloc st (block_workers_on cl core st).
Proof.
  intros Hc. unfold block_workers_on. destruct (to_be_destroyed _); [reflexivity|].
  etransitivity; [|apply block_workers_same]. cip_same.
Qed.

(** ** How holders change

    [evolves R st st']: the invariant is kept, owners stay, and every core's
    holder changes as [R owner old new] allows. *)

Record evolves (R : option cell_id → option cell_id → option cell_id → Prop) st st' : Prop := {
  ev_inv : ∀ A, core_inv A st → core_inv A st';
  ev_owner : ∀ c, owner (resources st' c) = owner (resources st c);
  ev_hold : ∀ c, R (owner (resources st c)) (current (resources st c)) (current (resources st' c));
}.

(** The changes that an allocation by cell [cl] may cause: a free core goes to
    [cl], and any core may go to its owner. *)
Definition to_cell_or_owner cl (own old new : option cell_id) : Prop :=
  new = old ∨ (old = None ∧ new = Some cl) ∨ (own ≠ None ∧ new = own).

Lemma current_set_res st c x c' :
  current (resources (upd_res c (set_current x) st) c') =
    if decide (c = c') then x else current (resources st c').
Proof.
  simpl. case_decide as Hc; [subst; by rewrite fn_lookup_insert|by rewrite fn_lookup_insert_ne].
Qed.

Lemma owner_set_res st c x c' :
  owner (resources (upd_res c (set_current x) st) c') = owner (resources st c').
Proof.
  simpl. destruct (decide (c = c')) as [->|]; [by rewrite fn_lookup_insert|by rewrite fn_lookup_insert_ne].
Qed.

(** Setting the holder of core [c] together with the matching idle bit. *)
Lemma set_holder_inv A c x st :
  core_inv A st → 0 ≤ c < NUM_CPU →
  core_inv A (upd_res c (set_current x)
    (upd_idle (λ s, match x with Some _ => clr s c | None => (set s c).2 end) st)).
Proof.
  intros [H1 H2 H3 H4] Hc. split.
  - simpl. destruct x; auto with nova.
  - done.
  - intros c' Hc'. rewrite current_set_res. simpl.
    destruct x; rewrite ?set_bit_at, ?clr_bit_at by (done || lia); case_decide as Hcc; subst.
    + by rewrite bool_decide_true.
    + rewrite bool_decide_false by congruence. by apply H3.
    + done.
    + rewrite bool_decide_false by congruence. by apply H3.
  - intros c' Hc' HA. rewrite current_set_res. simpl.
    destruct x; rewrite ?set_bit_at, ?clr_bit_at by (done || lia); case_decide as Hcc; subst.
    + done.
    + rewrite bool_decide_false by congruence. by apply H4.
    + by rewrite bool_decide_true.
    + rewrite bool_decide_false by congruence. by apply H4.
Qed.

(** A core that changes from one holder to another is not idle before or after. *)
Lemma move_holder_inv A c x y st :
  core_inv A st → 0 ≤ c < NUM_CPU → current (resources st c) = Some x →
  core_inv A (upd_res c (set_current (Some y)) st).
Proof.
  intros [H1 H2 H3 H4] Hc Hcur. split; [done|done| |].
  - intros c' Hc'. rewrite current_set_res. simpl. case_decide as Hcc; [subst c'|by apply H3].
    intros Hb. apply H3 in Hb; [congruence|done].
  - intros c' Hc' HA. rewrite current_set_res. simpl. case_decide; [done|by apply H4].
Qed.

Section evolve.
Context (R : option cell_id → option cell_id → option cell_id → Prop).
Hypothesis R_refl : ∀ own x, R own x x.
Hypothesis R_trans : ∀ own x y z, R own x y → R own y z → R own x z.
Hypothesis R_owner : ∀ own x, own ≠ None → R own x own.
Hypothesis pause_evolves : ∀ c st, evolves R st (pause c st).

Lemma evolves_trans x y z : evolves R x y → evolves R y z → evolves R x z.
Proof using R_trans.
  intros [H1 H2 H3] [G1 G2 G3]. split; [auto|intros; by rewrite G2|].
  intros c. eapply R_trans; [apply H3|]. rewrite <-H2. apply G3.
Qed.

Lemma same_evolves st st' : same_alloc st st' → evolves R st st'.
Proof using R_refl.
  intros Hs. split; intros; [by eapply same_alloc_inv|by rewrite (sa_res _ _ Hs)|].
  rewrite (sa_res _ _ Hs). apply R_refl.
Qed.

Lemma hazards_evolves c h st : evolves R st (upd_res c (λ r, set_hazards (h r) r) st).
Proof using R_refl.
  assert (∀ c', current (resources (upd_res c (λ r, set_hazards (h r) r) st) c') = current (resources st c')
              ∧ owner (resources (upd_res c (λ r, set_hazards (h r) r) st) c') = owner (resources st c')) as Heq.
  { intros c'. simpl. destruct (decide (c = c')) as [->|];
      [by rewrite fn_lookup_insert|by rewrite fn_lookup_insert_ne]. }
  split.
  - intros A [H1 H2 H3 H4]. split; [done|done|..]; intros c'; rewrite (proj1 (Heq c')); auto.
  - apply Heq.
  - intros c'. rewrite (proj1 (Heq c')). apply R_refl.
Qed.

Lemma occupy_evolves c cl st rc st' :
  0 ≤ c < NUM_CPU → (∀ own, own = owner (resources st c) → R own None (Some cl)) →
  occupy c (Some cl) st = Some (rc, st') →
  evolves R st st' ∧
  (rc = true → current (resources st c) = None ∧
     resources st' = <[c := set_current (Some cl) (resources st c)]> (resources st) ∧
     idle_cpus st' = clr (idle_cpus st) c) ∧
  (rc = false → st' = st ∧ current (resources st c) ≠ None).
Proof using R_refl R_trans.
  intros Hc HR. unfold occupy, resource_occupy.
  destruct (current (resources st c)) as [d|] eqn:Hcur; [by intros [= <- <-]; split_and!; try done; apply same_evolves|].
  simpl. intros [= <- <-]. split_and!; [|done|done].
  eapply evolves_trans; [|apply same_evolves; cip_same].
  split.
  - intros A HA. by apply (set_holder_inv A c (Some cl)).
  - intros c'. apply (owner_set_res st).
  - intros c'. change (resources (upd_idle _ ?s)) with (resources s).
    rewrite (current_set_res st). case_decide as Hcc; [|apply R_refl].
    subst c'. rewrite Hcur. by apply HR.
Qed.

Lemma occupy_owner_evolves c st rc st' :
  0 ≤ c < NUM_CPU → occupy c (owner (resources st c)) st = Some (rc, st') → evolves R st st'.
Proof using R_refl R_trans R_owner.
  intros Hc. destruct (owner (resources st c)) as [o|] eqn:Ho.
  - intros Hocc. eapply occupy_evolves in Hocc as [? _]; [done|done|].
    intros own ->. rewrite Ho. by apply R_owner.
  - unfold occupy, resource_occupy. destruct (current _); [|done].
    intros [= <- <-]. apply same_evolves. reflexivity.
Qed.

(** [Cpu_resource::return_core] hands the core from its holder to its owner. *)
Lemma res_return_core_spec c st st' :
  0 ≤ c < NUM_CPU → res_return_core c st = Some st' →
  ∃ b o, current (resources st c) = Some b ∧ owner (resources st c) = Some o ∧
    resources st' = <[c := set_current (Some o) (resources st c)]> (resources st) ∧
    (∀ A, core_inv A st → core_inv A st') ∧
    (∀ cl, cores_reserved (c_cip (cells st' cl)) = cores_reserved (c_cip (cells st cl))) ∧
    idle_cpus st' = idle_cpus st ∧ pd_cell st' = pd_cell st.
Proof.
  intros Hc. unfold res_return_core. destruct (current (resources st c)) as [b|] eqn:Hb; [|done]. simpl.
  destruct (owner (resources st c)) as [o|] eqn:Ho; [|done]. simpl. intros Hst.
  set (st1 := upd_cip b (upd_yield <[c:=0]>) st) in *.
  assert (same_alloc st st1) as S1 by cip_same.
  set (st2 := upd_res c (set_current (Some o)) st1) in *.
  assert (same_alloc st2 st') as S2.
  { assert (same_alloc st2 (wake_core o c st2)) by by apply wake_core_same.
    case_bool_decide; simplify_eq; [|done]. etransitivity; [done|by apply block_workers_on_same]. }
  exists b, o. split_and!; try done.
  - rewrite (sa_res _ _ S2). simpl. done.
  - intros A HA. eapply same_alloc_inv; [exact S2|]. eapply move_holder_inv; [|done|].
    + by eapply same_alloc_inv.
    + done.
  - intros cl. rewrite (sa_reserved _ _ S2). apply (sa_reserved _ _ S1).
  - by rewrite (sa_idle _ _ S2).
  - by rewrite (sa_pd _ _ S2).
Qed.

Lemma res_return_core_evolves c st st' :
  0 ≤ c < NUM_CPU → res_return_core c st = Some st' → evolves R st st'.
Proof using R_refl R_owner.
  intros Hc Hr. apply res_return_core_spec in Hr as (b & o & Hb & Ho & Hres & Hinv & _); [|done].
  split; [done|..]; intros c'; rewrite Hres.
  - destruct (decide (c = c')) as [->|]; [by rewrite fn_lookup_insert|by rewrite fn_lookup_insert_ne].
  - destruct (decide (c = c')) as [->|].
    + rewrite fn_lookup_insert. simpl. rewrite <-Ho. apply R_owner. by rewrite Ho.
    + rewrite fn_lookup_insert_ne by done. apply R_refl.
Qed.

Lemma handle_hazard_evolves c st rc st' :
  0 ≤ c < NUM_CPU → handle_hazard c st = Some (rc, st') → evolves R st st'.
Proof using R_refl R_trans R_owner pause_evolves.
  intros Hc. unfold handle_hazard. destruct (_ =? HZD_YIELD).
  - set (st1 := upd_res c _ st).
    assert (evolves R st st1) as E1 by apply (hazards_evolves c (λ r, clr_mask (hazards r) HZD_YIELD)).
    set (st2 := match current (resources st1 c) with Some _ => pause c st1 | None => st1 end).
    assert (evolves R st1 st2) as E2.
    { unfold st2. destruct (current _); [apply pause_evolves|apply same_evolves; reflexivity]. }
    destruct (occupy c (owner (resources st2 c)) st2) as [[rc' st3]|] eqn:Hocc; [|done]. simpl.
    assert (evolves R st st3) as E3.
    { do 2 (eapply evolves_trans; [eassumption|]). by eapply occupy_owner_evolves. }
    destruct rc'.
    + case_match; intros [= <- <-]; [|done].
      eapply evolves_trans; [done|]. apply same_evolves. cip_same.
    + destruct (owner (resources st2 c)); simpl; [|done]. intros [= <- <-].
      eapply evolves_trans; [done|]. apply same_evolves. cip_same.
  - destruct (_ =? HZD_RECLAIM).
    + destruct (res_return_core _ _) as [st1|] eqn:Hr; [|done]. simpl. intros [= <- <-].
      eapply evolves_trans; [|by eapply res_return_core_evolves].
      apply (hazards_evolves c (λ r, clr_mask (hazards r) HZD_RECLAIM)).
    + intros [= <- <-]. apply same_evolves. reflexivity.
Qed.

Lemma cell_return_core_evolves cl c st rc st' :
  0 ≤ c < NUM_CPU → cell_return_core cl c st = Some (rc, st') → evolves R st st'.
Proof using R_refl R_trans R_owner pause_evolves.
  intros Hc. unfold cell_return_core. destruct (workers (cells st cl) c) as [|w l].
  - destruct (res_return_core c st) as [st1|] eqn:Hr; [|done]. simpl. intros [= <- <-].
    by eapply res_return_core_evolves.
  - destruct (cmp_swap _ 0 1) as [ok flag].
    set (st1 := upd_cip cl (upd_yield <[c:=flag]>) st).
    assert (evolves R st st1) as E1 by (apply same_evolves; cip_same).
    destruct ok; simpl.
    + by intros [= <- <-].
    + intros Hh. eapply evolves_trans; [exact E1|].
      eapply evolves_trans; [|by eapply handle_hazard_evolves].
      apply (hazards_evolves c (λ r, Z.lor (hazards r) HZD_YIELD)).
Qed.

Lemma reclaim_evolves c st rc st' :
  0 ≤ c < NUM_CPU → reclaim c st = Some (rc, st') → evolves R st st'.
Proof using R_refl R_trans R_owner pause_evolves.
  intros Hc. unfold reclaim. destruct (owner (resources st c)) as [o|] eqn:Ho; [|done]. simpl.
  set (st1 := upd_cip o (upd_reclaimed (λ s, (set s c).2)) st).
  assert (evolves R st st1) as E1 by (apply same_evolves; cip_same).
  destruct (occupy c (Some o) st1) as [[rc1 st2]|] eqn:Hocc; [|done]. simpl.
  assert (evolves R st1 st2) as E2.
  { eapply occupy_evolves in Hocc as [? _]; [done|done|].
    intros own ->. simpl. rewrite Ho. by apply R_owner. }
  assert (evolves R st (upd_cip o (upd_reclaimed (λ s, clr s c)) st2)) as E3.
  { eapply evolves_trans; [exact E1|]. eapply evolves_trans; [exact E2|]. apply same_evolves. cip_same. }
  destruct rc1.
  - destruct (current (resources st2 c)) as [cur|]; [|done]. simpl. intros [= <- <-].
    eapply evolves_trans; [exact E1|]. eapply evolves_trans; [exact E2|]. apply same_evolves. by apply wake_core_same.
  - destruct (current (resources st2 c)) as [b|]; [|by intros [= <- <-]].
    case_bool_decide; [by intros [= <- <-]|]. intros Hr.
    eapply evolves_trans; [exact E1|]. eapply evolves_trans; [exact E2|]. by eapply cell_return_core_evolves.
Qed.

(** Invariant of the three loops of [alloc]. *)
Definition loop_ok (quantity : Z) st (ls : loop_state) : Prop :=
  match ls with Some (n, st') => evolves R st st' ∧ 0 ≤ n ≤ quantity | None => True end.

Context (cl : cell_id).
Hypothesis R_take : ∀ own, R own None (Some cl).

Lemma alloc_occupy_ok q st c ls :
  0 ≤ c < NUM_CPU → alloc_cond q ls = false → loop_ok q st ls → loop_ok q st (alloc_occupy cl c ls).
Proof using R_refl R_trans R_take.
  intros Hc Hcond. unfold alloc_occupy. destruct ls as [[n st1]|]; [|done]. simpl.
  intros [He Hn]. simpl in Hcond. apply Z.leb_gt in Hcond.
  destruct (occupy c (Some cl) st1) as [[rc st2]|] eqn:Hocc; [|done]. simpl.
  eapply occupy_evolves in Hocc as [? _]; [|done|by intros; apply R_take].
  split; [by eapply evolves_trans|]. destruct rc; lia.
Qed.

Lemma alloc_reclaim_ok q st c ls :
  0 ≤ c < NUM_CPU → alloc_cond q ls = false → loop_ok q st ls → loop_ok q st (alloc_reclaim c ls).
Proof using R_refl R_trans R_owner pause_evolves.
  intros Hc Hcond. unfold alloc_reclaim. destruct ls as [[n st1]|]; [|done]. simpl.
  intros [He Hn]. simpl in Hcond. apply Z.leb_gt in Hcond.
  destruct (borrowed _); [|by simpl].
  destruct (reclaim c st1) as [[rc st2]|] eqn:Hr; [|done]. simpl.
  apply reclaim_evolves in Hr; [|done].
  split; [by eapply evolves_trans|]. destruct rc; lia.
Qed.

Lemma alloc_evolves q st n st' :
  0 ≤ q → (∃ A, core_inv A st) → alloc q cl st = Some (n, st') → evolves R st st' ∧ 0 ≤ n ≤ q.
Proof using R_refl R_trans R_owner R_take pause_evolves.
  intros Hq [A HA]. unfold alloc.
  set (st1 := upd_cip cl (upd_new clear) st). set (rsv := subtract _ _).
  assert (same_alloc st st1) as S1.
  { apply upd_cip_same; [|done]. intros p Hp. apply upd_new_wf; [apply clear_wf|done]. }
  assert (core_inv A st1) as HA1 by by eapply same_alloc_inv.
  assert (cpuset_wf rsv) as Hrsv.
  { pose proof (inv_cips _ _ HA1 cl) as []. by apply subtract_wf. }
  assert (loop_ok q st (Some (0, st1))) as L0 by (split; [by apply same_evolves|lia]).
  set (ls1 := for_each_until (λ _, rsv) (alloc_occupy cl) (alloc_cond q) (Some (0, st1))).
  assert (loop_ok q st ls1) as L1.
  { apply for_each_until_inv; [done|done|]. intros. by apply alloc_occupy_ok. }
  clearbody ls1. destruct ls1 as [[n1 st2]|]; [|done]. simpl. destruct (n1 =? q).
  { by intros [= <- <-]. }
  set (ls2 := for_each_until idle_of (alloc_occupy cl) (alloc_cond q) (Some (n1, st2))).
  assert (loop_ok q st ls2) as L2.
  { apply for_each_until_inv; [done| |].
    - intros [[n2 st3]|] Hls; [|by apply cpuset_new_wf].
      destruct Hls as [He _]. apply (inv_idle_wf A). by apply (ev_inv _ _ _ He).
    - intros. by apply alloc_occupy_ok. }
  clearbody ls2. destruct ls2 as [[n2 st3]|]; [|done]. simpl. destruct (n2 =? q).
  { by intros [= <- <-]. }
  intros Hend.
  assert (loop_ok q st (Some (n, st'))) as L3; [|done].
  rewrite <-Hend. apply for_each_until_inv; [done|done|]. intros. by apply alloc_reclaim_ok.
Qed.

Lemma transfer_evolves cpu st st' :
  0 ≤ cpu < NUM_CPU → transfer cl cpu st = Some st' → evolves R st st'.
Proof using R_refl R_trans R_owner R_take pause_evolves.
  intros Hc. unfold transfer. destruct (negb _).
  { intros [= <-]. apply same_evolves. reflexivity. }
  assert (∀ s, evolves R s (upd_cip cl (upd_current (λ s, (set s cpu).2))
                              (upd_cip cl (upd_new (λ s, clr s cpu)) s))) as Hfin.
  { intros s. apply same_evolves. etransitivity; [|cip_same]. cip_same. }
  destruct (borrowed _).
  - destruct (reclaim cpu st) as [[rc st1]|] eqn:Hr; [|done]. simpl. intros [= <-].
    eapply evolves_trans; [by eapply reclaim_evolves|apply Hfin].
  - destruct (occupy cpu (Some cl) st) as [[rc st1]|] eqn:Hocc; [|done]. simpl.
    eapply occupy_evolves in Hocc as [He _]; [|done|by intros; apply R_take].
    assert (evolves R st (upd_cip cl (upd_current (λ s, (set s cpu).2))
                           (upd_cip cl (upd_new (λ s, clr s cpu)) st1))) as Hf
      by (eapply evolves_trans; [done|apply Hfin]).
    destruct rc; [by intros [= <-]|]. destruct (negb _); by intros [= <-].
Qed.
End evolve.

(** [Cpu_resource::release]: a pending yield request sends the core to its
    owner, otherwise it becomes free and idle. *)
Lemma res_release_spec c st st' :
  0 ≤ c < NUM_CPU → res_release c st = Some st' →
  ∃ b, current (resources st c) = Some b ∧
    (∀ A, core_inv A st → core_inv A st') ∧
    (∀ c', c' ≠ c → resources st' c' = resources st c') ∧
    owner (resources st' c) = owner (resources st c) ∧
    current (resources st' c) =
      (if yield_flag (c_cip (cells st b)) c =? 1 then owner (resources st c) else None).
Proof.
  intros Hc. unfold res_release. destruct (current (resources st c)) as [b|] eqn:Hb; [|done]. simpl.
  destruct (_ =? 1) eqn:Hy; intros Hr; exists b; split; try done.
  - apply res_return_core_spec in Hr as (b' & o & _ & Ho & Hres & Hinv & _); [|done].
    split; [done|]. rewrite Hres. split_and!.
    + intros c' Hne. by rewrite fn_lookup_insert_ne.
    + by rewrite fn_lookup_insert.
    + rewrite fn_lookup_insert, Hy. by simpl.
  - set (st1 := upd_cip b (upd_yield <[c:=0]>) st) in *.
    set (st2 := resource_release c (upd_idle (λ s, (set s c).2) st1)) in *.
    assert (same_alloc st2 st') as S2.
    { case_bool_decide; simplify_eq; [by apply block_workers_on_same|reflexivity]. }
    rewrite (sa_res _ _ S2). split; [|split_and!].
    + intros A HA. eapply same_alloc_inv; [exact S2|].
      apply (set_holder_inv A c None); [|done]. eapply same_alloc_inv; [|done]. cip_same.
    + intros c' Hne. simpl. by rewrite fn_lookup_insert_ne.
    + simpl. by rewrite fn_lookup_insert.
    + simpl. by rewrite fn_lookup_insert, Hy.
Qed.

Lemma release_inv A x c st st' :
  0 ≤ c < NUM_CPU → core_inv A st → release x c st = Some st' → core_inv A st'.
Proof.
  intros Hc HA. unfold release.
  assert (∀ st', res_release c st = Some st' → core_inv A st') as Hr.
  { intros s' (b & _ & Hinv & _)%res_release_spec; auto. }
  destruct x as [cl|]; [|apply Hr]. case_bool_decide; [apply Hr|]. intros [= <-].
  eapply same_alloc_inv; [by apply block_workers_on_same|]. eapply same_alloc_inv; [|done]. cip_same.
Qed.

Lemma return_core_inv A c st st' :
  0 ≤ c < NUM_CPU → core_inv A st → return_core c st = Some st' → core_inv A st'.
Proof. intros Hc HA (b & o & _ & _ & _ & Hinv & _)%res_return_core_spec; auto. Qed.

Lemma confer_inv A cl st : core_inv A st → core_inv A (confer cl st).
Proof.
  intros HA. unfold confer. apply for_each_inv; [done| |].
  - intros s Hs. apply (wf_reserved _ (inv_cips _ _ Hs cl)).
  - intros c s Hc [H1 H2 H3 H4].
    assert (∀ c', current (resources (resource_confer c cl s) c') = current (resources s c')) as Heq.
    { intros c'. simpl. destruct (decide (c = c')) as [->|];
        [by rewrite fn_lookup_insert|by rewrite fn_lookup_insert_ne]. }
    split; [done|done|..]; intros c'; rewrite Heq; auto.
Qed.

Lemma add_cpu_inv A cpu st :
  0 ≤ cpu < NUM_CPU → core_inv A st → core_inv ({[cpu]} ∪ A) (add_cpu cpu st).
Proof.
  intros Hc [H1 H2 H3 H4]. unfold add_cpu.
  split; simpl; [auto with nova|done|..]; intros c' Hc'; rewrite set_bit_at by (done || lia);
    destruct (decide (cpu = c')) as [->|Hne].
  - by rewrite fn_lookup_insert.
  - rewrite fn_lookup_insert_ne, bool_decide_false by congruence. by apply H3.
  - by rewrite bool_decide_true.
  - rewrite fn_lookup_insert_ne, bool_decide_false by congruence. intros HA%elem_of_union. apply H4; [done|].
    destruct HA as [HA%elem_of_singleton|]; congruence.
Qed.

Lemma cell_destroy_inv A cl st st' :
  core_inv A st → cell_destroy cl st = Some st' → core_inv A st'.
Proof.
  intros HA. unfold cell_destroy. set (st1 := State _ _ _ _ _ _).
  assert (core_inv A st1) as HA1.
  { destruct HA as [H1 H2 H3 H4]. split; [done| |done|done]. intros cl'. simpl.
    destruct (decide (cl = cl')) as [->|]; [rewrite fn_lookup_insert; apply H2|by rewrite fn_lookup_insert_ne]. }
  clearbody st1. intros Hd.
  set (P := λ o : option (state M), match o with Some s => core_inv A s | None => True end).
  assert (P (Some st')) as Hres; [|exact Hres].
  rewrite <-Hd. apply (for_each_inv _ _ P); [done| |].
  - intros [s|] Hs; [apply (wf_current _ (inv_cips _ _ Hs cl))|by apply cpuset_new_wf].
  - intros c [s|] Hc Hs; [|done]. unfold destroy_core. cbn [mbind option_bind].
    destruct (_ =? 1).
    + destruct (return_core c s) eqn:Hr; [by eapply return_core_inv|done].
    + destruct (release (Some cl) c s) eqn:Hr; [by eapply release_inv|done].
Qed.

Lemma update_channel_same cl cores st : same_alloc st (update_channel_params cl cores st).
Proof.
  unfold update_channel_params. destruct (_ || _); [reflexivity|].
  apply upd_cip_same; [|done]. by intros p [].
Qed.

Lemma wake_cores_inv A cl st : core_inv A st → core_inv A (wake_cores cl st).
Proof.
  intros HA. unfold wake_cores, add_cores. apply for_each_inv; [done| |].
  - intros s Hs. apply (wf_new _ (inv_cips _ _ Hs cl)).
  - intros c s Hc Hs. eapply same_alloc_inv; [|done]. by apply wake_core_same.
Qed.

(** ** Workers come and go

    The end of [sys_create_ec] puts the worker of a new context behind the others
    of its core; the destructor of the context takes it out of the queue, and
    gives the core back when a request for it is pending or it was the last. *)
Definition set_workers cl core (l : list worker) st : state M :=
  let x := cells st cl in
  State (resources st) (cpu_count st) (idle_cpus st)
    (<[cl := Cell (c_cip x) (<[core := l]> (workers x)) (prefered_cores x) (to_be_destroyed x) (initialized x)]> (cells st))
    (pd_cell st) (sems st).

Definition worker_joins cl core (w : worker) st : state M :=
  set_workers cl core (workers (cells st cl) core ++ [w]) st.

#[export] Instance worker_eq : EqDecision worker.
Proof. solve_decision. Defined.

Definition worker_leaves cl core (w : worker) st : option (state M) :=
  let st := set_workers cl core (filter (λ x, x ≠ w) (workers (cells st cl) core)) st in
  if to_be_destroyed (cells st cl) then Some st
  else if yield_flag (c_cip (cells st cl)) core =? 1 then return_core core st
  else match workers (cells st cl) core with [] => release (Some cl) core st | _ => Some st end.

(** ** The system as a transition system

    One step is a hypercall of some cell, the start-up code adding a CPU, the
    destruction of a cell, a context with a worker that is created or destroyed,
    a change of the running domain, or user code writing an info page: the page
    is mapped writable into the cell, so any contents are possible.  A hypercall
    is one step: those of different CPUs do not overlap in time.  The code takes
    no lock; [overlap_loses_core] shows what overlapping hypercalls can do. *)

Inductive step : gset Z * state M → gset Z * state M → Prop :=
  | step_alloc A st type q s st' :
      0 ≤ q < 2 ^ 32 → sys_alloc type q st = Some (s, st') → step (A, st) (A, st')
  | step_release A st op type cpu s st' :
      0 ≤ cpu < NUM_CPU → sys_release op type cpu st = Some (s, st') → step (A, st) (A, st')
  | step_update A st cl s st' :
      update_cores cl st = Some (s, st') → step (A, st) (A, st')
  | step_destroy A st cl st' :
      cell_destroy cl st = Some st' → step (A, st) (A, st')
  | step_join A st cl core w :
      step (A, st) (A, worker_joins cl core w st)
  | step_leave A st cl core w st' :
      0 ≤ core < NUM_CPU → worker_leaves cl core w st = Some st' → step (A, st) (A, st')
  | step_add_cpu A st cpu :
      0 ≤ cpu < NUM_CPU → step (A, st) ({[cpu]} ∪ A, add_cpu cpu st)
  | step_switch A st x :
      step (A, st) (A, State (resources st) (cpu_count st) (idle_cpus st) (cells st) x (sems st))
  | step_user A st cl p :
      cip_wf p → step (A, st) (A, upd_cip cl (λ _, p) st).

(** [Core_allocator::init]: zero-filled resources, empty idle set. *)
Definition init_state (m : M) : state M :=
  let z := cpuset_new 0 in
  State (λ _, Cpu_resource 0 None None) 0 z
    (λ _, Cell (Cip (λ _, 0) z z z z 0 0 0) (λ _, []) z false false) None m.

Lemma init_inv m : core_inv ∅ (init_state m).
Proof.
  assert (cpuset_wf (cpuset_new 0)) by by apply cpuset_new_wf.
  by split.
Qed.

Lemma cell_init_inv A cl st st' :
  (∀ c s, evolves (λ _ _ _, True) s (pause c s)) →
  core_inv A st → cell_init cl st = Some st' → core_inv A st'.
Proof.
  intros Hpause HA. unfold cell_init.
  destruct (initialized _); [by intros [= <-]|].
  destruct (first_cpu _) as [cpu|] eqn:Hf; [|done].
  cbn [mbind option_bind]. destruct (transfer cl cpu st) as [st2|] eqn:Ht; [|done].
  cbn [mbind option_bind]. intros [= <-].
  assert (0 ≤ cpu < NUM_CPU) as Hcpu.
  { rewrite first_cpu_members in Hf by apply (wf_reserved _ (inv_cips _ _ HA cl)).
    destruct (members _) as [|c l]; [done|]. injection Hf as <-.
    pose proof (Z.mod_pos_bound c 64). unfold NUM_CPU. lia. }
  apply (transfer_evolves (λ _ _ _, True)) in Ht; [|done..].
  destruct (ev_inv _ _ _ Ht A HA) as [G1 G2 G3 G4]. split; [done| |done|done].
  intros cl'. simpl. destruct (decide (cl = cl')) as [->|];
    [rewrite fn_lookup_insert; apply G2|by rewrite fn_lookup_insert_ne].
Qed.

Lemma update_cores_inv A cl s st st' :
  (∀ c s, evolves (λ _ _ _, True) s (pause c s)) →
  core_inv A st → update_cores cl st = Some (s, st') → core_inv A st'.
Proof.
  intros Hpause HA. unfold update_cores.
  destruct (cell_init cl (confer cl st)) as [st1|] eqn:Hi; [|done]. intros [= <- <-].
  eapply cell_init_inv; [done| |exact Hi]. by apply confer_inv.
Qed.

Lemma sys_alloc_inv A type q s st st' :
  (∀ c s, evolves (λ _ _ _, True) s (pause c s)) → 0 ≤ q →
  core_inv A st → sys_alloc type q st = Some (s, st') → core_inv A st'.
Proof.
  intros Hpause Hq HA. unfold sys_alloc. destruct (pd_cell st) as [cl|]; [|by intros [= <- <-]].
  destruct (type =? RES_CPU); [|by intros [= <- <-]].
  destruct (q <=? 0); [by intros [= <- <-]|].
  destruct (alloc q cl st) as [[n st1]|] eqn:Ha; [|done]. simpl.
  apply (alloc_evolves (λ _ _ _, True)) in Ha as [He _]; [|by eauto..].
  pose proof (ev_inv _ _ _ He A HA) as H1.
  destruct (n =? 0); intros [= <- <-]; [done|].
  apply wake_cores_inv. eapply same_alloc_inv; [apply update_channel_same|done].
Qed.

Lemma sys_release_inv A op type cpu s st st' :
  0 ≤ cpu < NUM_CPU → core_inv A st → sys_release op type cpu st = Some (s, st') → core_inv A st'.
Proof.
  intros Hc HA. unfold sys_release. destruct (pd_cell st) as [cl|]; [|by intros [= <- <-]].
  destruct op, (type =? RES_CPU); try by intros [= <- <-].
  - destruct (release _ _ _) eqn:Hr; [|done]. intros [= <- <-]. by eapply release_inv.
  - destruct (return_core _ _) eqn:Hr; [|done]. intros [= <- <-]. by eapply return_core_inv.
Qed.

Lemma set_workers_inv A cl core l st : core_inv A st → core_inv A (set_workers cl core l st).
Proof.
  intros [H1 H2 H3 H4]. split; [done| |done|done]. intros cl'. simpl.
  destruct (decide (cl = cl')) as [->|]; [rewrite fn_lookup_insert; apply H2|by rewrite fn_lookup_insert_ne].
Qed.

Lemma worker_leaves_inv A cl core w st st' :
  0 ≤ core < NUM_CPU → core_inv A st → worker_leaves cl core w st = Some st' → core_inv A st'.
Proof.
  intros Hc HA. unfold worker_leaves. apply (set_workers_inv _ cl core (filter (λ x, x ≠ w) (workers (cells st cl) core))) in HA.
  set (st1 := set_workers _ _ _ _) in *. destruct (to_be_destroyed _); [by intros [= <-]|].
  destruct (_ =? 1); [by apply return_core_inv|].
  destruct (workers (cells st1 cl) core); [by apply release_inv|by intros [= <-]].
Qed.

(** C1: As long as hypercalls of different CPUs do not overlap in time, in every
    state the core allocator can reach -- by any sequence of hypercalls of any
    cells, cells destroyed, workers that come and go, and arbitrary writes of user
    code to the info pages -- no core in the idle set is held by a cell, and every
    core that was added and that no cell holds is in the idle set. *)
Theorem reachable_core_inv m A st :
  (∀ c s, evolves (λ _ _ _, True) s (pause c s)) →
  rtc step (∅, init_state m) (A, st) → core_inv A st.
Proof.
  intros Hpause Hr.
  assert (∀ x y, rtc step x y → core_inv x.1 x.2 → core_inv y.1 y.2) as Hgen.
  { clear -Hpause. induction 1 as [|x y z Hs _ IH]; [done|]. intros Hx. apply IH. clear IH.
    destruct Hs as [A st type q s st' Hq Hs|A st op type cpu s st' Hc Hs|A st cl s st' Hs
      |A st cl st' Hs|A st cl core w|A st cl core w st' Hc Hs|A st cpu Hc|A st x|A st cl p Hp]; simpl in *.
    - exact (sys_alloc_inv _ _ _ _ _ _ Hpause (proj1 Hq) Hx Hs).
    - by eapply sys_release_inv.
    - by eapply update_cores_inv.
    - by eapply cell_destroy_inv.
    - by apply set_workers_inv.
    - by eapply worker_leaves_inv.
    - by apply add_cpu_inv.
    - by destruct Hx as [H1 H2 H3 H4].
    - by apply upd_cip_inv. }
  apply (Hgen _ _ Hr). apply init_inv.
Qed.

(** ** What the loops over free cores take

    [taken cl st n st']: going from [st] to [st'], cell [cl] took exactly [n]
    free cores, they left the idle set, and no other core changed hands. *)
Definition taken cl st (n : Z) st' : Prop :=
  ∃ l : list Z, NoDup l ∧ Z.of_nat (length l) = n ∧
    (∀ c, c ∈ l → 0 ≤ c < NUM_CPU ∧ current (resources st c) = None) ∧
    (∀ c, current (resources st' c) = if decide (c ∈ l) then Some cl else current (resources st c)) ∧
    (∀ c, 0 ≤ c < NUM_CPU →
       bit_at (idle_cpus st') c = bit_at (idle_cpus st) c && negb (bool_decide (c ∈ l))).

Lemma taken_0 cl st st' : same_alloc st st' → taken cl st 0 st'.
Proof.
  intros Hs. exists []. split_and!; [constructor|done|by intros c ?%elem_of_nil| |].
  - intros c. rewrite decide_False by apply not_elem_of_nil. by rewrite (sa_res _ _ Hs).
  - intros c _. rewrite bool_decide_false by apply not_elem_of_nil.
    by rewrite (sa_idle _ _ Hs), andb_true_r.
Qed.

(** One iteration of the first two loops. *)
Lemma occupy_taken A cl c st0 n st :
  0 ≤ c < NUM_CPU → core_inv A st → taken cl st0 n st →
  ∃ rc st', occupy c (Some cl) st = Some (rc, st') ∧ core_inv A st' ∧
    taken cl st0 (if rc : bool then n + 1 else n) st' ∧
    (rc = true → ∀ m, 0 ≤ m < NUM_CPU →
       bit_at (idle_cpus st') m = bit_at (idle_cpus st) m && negb (bool_decide (m = c))) ∧
    (rc = false → current (resources st c) ≠ None).
Proof.
  intros Hc HA (l & Hnd & Hlen & Hin & Hcur & Hidle).
  destruct (occupy c (Some cl) st) as [[rc st']|] eqn:Hocc.
  2: { exfalso. revert Hocc. unfold occupy, resource_occupy. by destruct (current _). }
  exists rc, st'. split; [done|].
  eapply (occupy_evolves (λ _ _ _, True)) in Hocc as (He & Ht & Hf); [|done..].
  split; [by apply (ev_inv _ _ _ He)|].
  destruct rc.
  - destruct (Ht eq_refl) as (Hfree & Hnew & Hi). split_and!; [|intros _ m Hm|done].
    + assert (c ∉ l) as Hnl.
      { intros Hcl. rewrite Hcur, decide_True in Hfree by done. done. }
      exists (c :: l). split_and!; [by constructor|simpl; lia| | |].
      * intros c' [->|?]%elem_of_cons; [|by apply Hin]. split; [done|].
        by rewrite Hcur, decide_False in Hfree.
      * intros c'. destruct (decide (c' = c)) as [->|Hne].
        { rewrite decide_True by left. by rewrite Hnew, fn_lookup_insert. }
        rewrite Hnew, fn_lookup_insert_ne, Hcur by done.
        destruct (decide (c' ∈ l)); [rewrite decide_True by (by right)|rewrite decide_False]; [done..|].
        intros [?|?]%elem_of_cons; done.
      * intros c' Hc'. rewrite Hi, clr_bit_at, Hidle by (apply (inv_idle_wf _ _ HA) || done || lia).
        destruct (decide (c' = c)) as [->|Hne].
        { rewrite (bool_decide_true (c = c)), (bool_decide_true (c ∈ c :: l)) by (done || left).
          by rewrite andb_false_r. }
        rewrite (bool_decide_false (c' = c)) by done. simpl. f_equal. f_equal.
        apply bool_decide_ext. rewrite elem_of_cons. tauto.
    + rewrite Hi, clr_bit_at by (apply (inv_idle_wf _ _ HA) || done || lia). apply andb_comm.
  - destruct (Hf eq_refl) as [-> Hne]. split_and!; [|done|done]. by exists l.
Qed.

Lemma taken_idle_count cl st n st' :
  taken cl st n st' → (∀ m, 0 ≤ m < NUM_CPU → bit_at (idle_cpus st') m = false) →
  Z.of_nat (length (members (idle_cpus st))) ≤ n.
Proof.
  intros (l & Hnd & <- & _ & _ & Hidle) Hemp. apply inj_le.
  apply submseteq_length, NoDup_submseteq; [apply list.NoDup_filter, NoDup_seqZ|].
  intros c [Hc Hb]%elem_of_members. specialize (Hidle c Hc). rewrite Hemp, Hb in Hidle by done.
  destruct (decide (c ∈ l)) as [|Hn]; [done|]. by rewrite bool_decide_false in Hidle.
Qed.

(** Availability of cores: when at least [q] cores are idle, [alloc]
    returns [q], having taken exactly [q] free cores for the calling cell and
    no core from anybody else. *)
Theorem alloc_idle_enough A q cl st :
  core_inv A st → 0 < q ≤ Z.of_nat (length (members (idle_cpus st))) →
  ∃ st', alloc q cl st = Some (q, st') ∧ core_inv A st' ∧ taken cl st q st'.
Proof.
  intros HA Hq. unfold alloc. set (st1 := upd_cip cl (upd_new clear) st).
  assert (same_alloc st st1) as S1.
  { apply upd_cip_same; [|done]. intros p Hp. apply upd_new_wf; [apply clear_wf|done]. }
  assert (core_inv A st1) as HA1 by by eapply same_alloc_inv.
  set (rsv := subtract _ _). assert (cpuset_wf rsv) as Hrsv.
  { pose proof (inv_cips _ _ HA1 cl) as []. by apply subtract_wf. }
  set (I := λ ls : loop_state, ∃ n s, ls = Some (n, s) ∧ 0 ≤ n ≤ q ∧ core_inv A s ∧ taken cl st n s).
  assert (∀ c ls, 0 ≤ c < NUM_CPU → alloc_cond q ls = false → I ls → I (alloc_occupy cl c ls)) as Hstep.
  { intros c ls Hc Hcond (n & s & -> & Hn & Hs & Ht). simpl in Hcond. apply Z.leb_gt in Hcond.
    destruct (occupy_taken A cl c st n s Hc Hs Ht) as (rc & s' & Ho & Hs' & Ht' & _).
    unfold alloc_occupy. cbn [mbind option_bind]. rewrite Ho. cbn [mbind option_bind].
    exists (if rc then n + 1 else n), s'. split_and!; try done; destruct rc; lia. }
  assert (I (Some (0, st1))) as I0 by (exists 0, st1; split_and!; [done|lia|lia|done|by apply taken_0]).
  assert (I (for_each_until (λ _, rsv) (alloc_occupy cl) (alloc_cond q) (Some (0, st1)))) as I1
    by (apply for_each_until_inv; auto).
  destruct I1 as (n1 & st2 & -> & Hn1 & HA2 & Ht2). cbn [mbind option_bind].
  destruct (Z.eqb_spec n1 q) as [->|Hne]; [by exists st2|].
  destruct (for_each_until_removing idle_of (alloc_occupy cl) (alloc_cond q) I) with (st := Some (n1, st2))
    as [I2 Hend].
  - intros ls (n & s & -> & _ & Hs & _). apply (inv_idle_wf _ _ Hs).
  - intros c ls Hc Hcond HI Hb. split; [by apply Hstep|].
    destruct HI as (n & s & -> & Hn & Hs & Ht). intros m Hm.
    destruct (occupy_taken A cl c st n s Hc Hs Ht) as (rc & s' & Ho & _ & _ & Hrt & Hrf).
    unfold alloc_occupy. cbn [mbind option_bind]. rewrite Ho. cbn [mbind option_bind idle_of].
    destruct rc; [by apply Hrt|]. exfalso. apply (Hrf eq_refl). by apply (inv_idle_free _ _ Hs).
  - exists n1, st2. split_and!; (done || lia).
  - destruct I2 as (n2 & st3 & Heq & Hn2 & HA3 & Ht3). rewrite Heq in *. cbn [mbind option_bind].
    assert (n2 = q) as ->.
    { destruct Hend as [Hcond|Hemp]; [simpl in Hcond; apply Z.leb_le in Hcond; lia|].
      simpl in Hemp. apply (taken_idle_count _ _ _ _ Ht3) in Hemp. lia. }
    rewrite Z.eqb_refl. by exists st3.
Qed.

(** ** Who may lose and gain cores *)

Lemma to_cell_or_owner_closed cl :
  (∀ own x, to_cell_or_owner cl own x x) ∧
  (∀ own x y z, to_cell_or_owner cl own x y → to_cell_or_owner cl own y z → to_cell_or_owner cl own x z) ∧
  (∀ own x, own ≠ None → to_cell_or_owner cl own x own) ∧
  (∀ own, to_cell_or_owner cl own None (Some cl)).
Proof.
  unfold to_cell_or_owner. split_and!; [tauto| |tauto|tauto].
  intros own x y z [->|[[-> ->]|[? ->]]] [->|[[? ->]|[? ->]]]; intuition congruence.
Qed.

(** C19: Allocation respects the holders: a call of [alloc] for [q] cores
    counts at most [q] cores, and every core that changes hands either was
    free and goes to the caller, or goes to the cell it is reserved for. *)
Theorem alloc_respects_holders A q cl n st st' :
  (∀ c s, pause c s = s) → core_inv A st → 0 ≤ q → alloc q cl st = Some (n, st') →
  0 ≤ n ≤ q ∧ core_inv A st' ∧
  ∀ c, owner (resources st' c) = owner (resources st c) ∧
       to_cell_or_owner cl (owner (resources st c)) (current (resources st c)) (current (resources st' c)).
Proof.
  intros Hpause HA Hq Ha. destruct (to_cell_or_owner_closed cl) as (C1 & C2 & C3 & C4).
  eapply (alloc_evolves (to_cell_or_owner cl)) in Ha as [He Hn]; [|done|done|done| |done|done|by exists A].
  - split; [done|]. split; [by apply (ev_inv _ _ _ He)|].
    intros c. split; [apply (ev_owner _ _ _ He)|apply (ev_hold _ _ _ He)].
  - intros c s. rewrite Hpause. by apply same_evolves.
Qed.

(** C28: The yield protocol: when the owner reclaims a core from a borrower that
    has workers on it and no request is pending, the request is filed in the
    borrower's info page and counts as success while the borrower keeps the
    core; when the borrower then releases the core, it goes to the owner and
    does not become idle. *)
Theorem yield_request_honoured A c own b w l st :
  core_inv A st → 0 ≤ c < NUM_CPU →
  owner (resources st c) = Some own → current (resources st c) = Some b → own ≠ b →
  workers (cells st b) c = w :: l → yield_flag (c_cip (cells st b)) c = 0 →
  ∃ st1, reclaim c st = Some (true, st1) ∧ core_inv A st1 ∧ resources st1 = resources st ∧
    yield_flag (c_cip (cells st1 b)) c = 1 ∧
    ∃ st2, release (Some b) c st1 = Some st2 ∧ core_inv A st2 ∧
      current (resources st2 c) = Some own ∧ bit_at (idle_cpus st2) c = false.
Proof.
  intros HA Hc Ho Hb Hne Hw Hy. unfold reclaim. rewrite Ho. cbn [mbind option_bind].
  set (st0 := upd_cip own (upd_reclaimed (λ s, (set s c).2)) st).
  assert (same_alloc st st0) as S0 by cip_same.
  assert (cells st0 b = cells st b) as Hcb by (unfold st0; simpl; by rewrite fn_lookup_insert_ne).
  unfold occupy, resource_occupy. rewrite (sa_res _ _ S0), Hb. cbn [mbind option_bind].
  rewrite (sa_res _ _ S0), Hb, bool_decide_false by congruence.
  unfold cell_return_core. rewrite Hcb, Hw, Hy. cbn.
  set (st1 := upd_cip b (upd_yield <[c:=1]>) st0).
  assert (same_alloc st0 st1) as S1 by cip_same.
  assert (core_inv A st1) as HA1 by (do 2 (eapply same_alloc_inv; [eassumption|]); done).
  assert (resources st1 = resources st) as Hres1 by (by rewrite (sa_res _ _ S1), (sa_res _ _ S0)).
  assert (yield_flag (c_cip (cells st1 b)) c = 1) as Hy1.
  { unfold st1. simpl. by rewrite fn_lookup_insert; simpl; rewrite fn_lookup_insert. }
  exists st1. split_and!; try done.
  unfold release. rewrite Hres1, Hb, bool_decide_true by done.
  destruct (res_release c st1) as [st2|] eqn:Hrel.
  - exists st2. split; [done|].
    apply res_release_spec in Hrel as (b' & Hb' & Hinv & _ & _ & Hcur); [|done].
    rewrite Hres1, Hb in Hb'. injection Hb' as <-. rewrite Hy1, Hres1, Ho in Hcur.
    pose proof (Hinv _ HA1) as HA2. split_and!; [done|done|].
    apply not_true_is_false. intros Hbit. apply (inv_idle_free _ _ HA2) in Hbit; [|done].
    by rewrite Hcur in Hbit.
  - exfalso. revert Hrel. unfold res_release, res_return_core.
    rewrite Hres1, Hb. cbn [mbind option_bind]. rewrite Hy1. cbn [Z.eqb Pos.eqb].
    change (resources (upd_cip _ _ ?s)) with (resources s).
    rewrite Hres1, Ho. cbn [mbind option_bind]. by case_bool_decide.
Qed.

(** An allocation and a release of the same core that overlap lose the core.
    [occupy] takes the core in one atomic step and clears its bit in the idle set
    in another; when a worker of the cell releases the core between the two, the
    core ends held by nobody and is not in the idle set: no allocation that does
    not have it reserved finds it again. *)
Theorem overlap_loses_core A c cl st st1 :
  core_inv A st → 0 ≤ c < NUM_CPU → yield_flag (c_cip (cells st cl)) c ≠ 1 →
  resource_occupy c (Some cl) st = (true, st1) →
  ∃ st2, res_release c st1 = Some st2 ∧
    let st3 := upd_cip cl (upd_new (λ s, (set s c).2)) (upd_idle (λ s, clr s c) st2) in
    current (resources st3 c) = None ∧ bit_at (idle_cpus st3) c = false.
Proof.
  intros HA Hc Hy. unfold resource_occupy. destruct (current (resources st c)) as [x|] eqn:Hcur; [done|]. intros [= <-].
  unfold res_release. rewrite current_set_res, decide_True by done. cbn [mbind option_bind].
  change (cells (upd_res c (set_current (Some cl)) st)) with (cells st). rewrite (proj2 (Z.eqb_neq _ _) Hy).
  set (st' := resource_release c _). assert (cpuset_wf (idle_cpus st')) as Hwf.
  { unfold st'. simpl. apply set_wf; [apply (inv_idle_wf _ _ HA)|done]. }
  assert (current (resources st' c) = None) as Hnone by (unfold st', resource_release; by rewrite current_set_res, decide_True).
  case_bool_decide.
  - pose proof (block_workers_on_same cl c st' Hc) as Hs. eexists. split; [reflexivity|]. cbn [upd_cip upd_idle resources idle_cpus].
    rewrite (sa_res _ _ Hs), (sa_idle _ _ Hs), clr_bit_at by (done || lia). split; [done|]. by rewrite bool_decide_true.
  - eexists. split; [reflexivity|]. cbn [upd_cip upd_idle resources idle_cpus]. rewrite clr_bit_at by (done || lia).
    split; [done|]. by rewrite bool_decide_true.
Qed.

(** C39: [sys_release] with [RETURN] takes the current CPU from whichever cell
    holds it, the caller or not, and hands it to the owner: the hypercall does
    not check that the caller is the holder. *)
Theorem sys_release_return_unchecked cpu caller b own st :
  0 ≤ cpu < NUM_CPU → pd_cell st = Some caller →
  owner (resources st cpu) = Some own → current (resources st cpu) = Some b → caller ≠ b →
  ∃ st', sys_release RETURN RES_CPU cpu st = Some (SUCCESS, st') ∧
         current (resources st' cpu) = Some own.
Proof.
  intros Hc Hpd Ho Hb Hne. unfold sys_release, return_core. rewrite Hpd. cbn.
  destruct (res_return_core cpu st) as [st'|] eqn:Hr.
  - exists st'. split; [done|]. apply res_return_core_spec in Hr as (b' & o & _ & Ho' & -> & _); [|done].
    rewrite fn_lookup_insert. simpl. congruence.
  - exfalso. revert Hr. unfold res_return_core. rewrite Hb. cbn [mbind option_bind].
    change (resources (upd_cip _ _ ?s)) with (resources s). rewrite Ho. cbn [mbind option_bind].
    by case_bool_decide.
Qed.
End core_alloc.

(** ** Concrete instances

    Semaphores as counters: [up] adds one and [dn] with [zero] clears, never
    blocking. *)

#[local] Instance counter_sems : SemOps (nat → Z) := {
  sm_up s m := <[s := m s + 1]> m;
  sm_dn_zero s _ m := (<[s := 0]> m, false);
}.

Definition no_pause (c : Z) (st : state (nat → Z)) : state (nat → Z) := st.

(** Two CPUs, CPU 1 reserved for cell 0 and lent to cell 1, which has a worker
    on it; cell 0 runs. *)
Definition lent_state : state (nat → Z) :=
  let z := cpuset_new 0 in
  let c1 := (set z 1).2 in
  State (<[1 := Cpu_resource 0 (Some 0%nat) (Some 1%nat)]> (λ _, Cpu_resource 0 None None)) 2
    (set z 0).2
    (<[1%nat := Cell (Cip (λ _, 0) c1 z z z 0 0 0) (<[1 := [Worker 7 3]]> (λ _, [])) z false true]>
      (λ _, Cell (Cip (λ _, 0) z c1 z z 0 0 0) (λ _, []) z false true)) (Some 0%nat) (λ _, 0).

Lemma lent_state_inv : core_inv {[0; 1]} lent_state.
Proof.
  assert (cpuset_wf (cpuset_new 0)) by by apply cpuset_new_wf.
  assert (cpuset_wf (set (cpuset_new 0) 1).2) by by apply set_wf.
  assert (∀ c, 0 ≤ c < NUM_CPU → bit_at (idle_cpus lent_state) c = bool_decide (c = 0)) as Hb.
  { intros c Hc. change (idle_cpus lent_state) with ((set (cpuset_new 0) 0).2). rewrite set_bit_at by (done || lia).
    replace (bit_at (cpuset_new 0) c) with false; [by rewrite orb_false_r|].
    unfold bit_at, cpuset_new. destruct (_ !! _) eqn:E; [|done].
    apply lookup_replicate in E as [-> _]. by rewrite Z.bits_0. }
  split.
  - by apply set_wf.
  - intros cl. simpl. destruct (decide (cl = 1%nat)) as [->|];
      [rewrite fn_lookup_insert|rewrite fn_lookup_insert_ne by done]; by split.
  - intros c Hc. rewrite Hb by done. intros ->%bool_decide_eq_true. done.
  - intros c Hc HA. rewrite Hb by done. apply elem_of_union in HA as [HA|HA];
      apply elem_of_singleton in HA; subst c; done.
Qed.

Lemma reachable_core_inv_witness :
  core_inv {[3]} (add_cpu 3 (init_state (λ _ : nat, 0))).
Proof.
  apply (reachable_core_inv no_pause (λ _, 0)).
  - intros c s. by apply same_evolves.
  - apply rtc_once. replace {[3]} with ({[3]} ∪ ∅ : gset Z) by (apply union_empty_r_L).
    by apply step_add_cpu.
Defined.

Lemma overlap_loses_core_witness :
  bit_at (idle_cpus lent_state) 0 = true ∧
  ∃ st2, res_release 0 (resource_occupy 0 (Some 0%nat) lent_state).2 = Some st2 ∧
    bit_at (clr (idle_cpus st2) 0) 0 = false ∧ current (resources st2 0) = None.
Proof.
  split; [by vm_compute|].
  destruct (overlap_loses_core {[0; 1]} 0 0 lent_state (resource_occupy 0 (Some 0%nat) lent_state).2)
    as (st2 & Hrel & Hfree & Hidle); [apply lent_state_inv|done..|].
  exists st2. split; [exact Hrel|]. split; [exact Hidle|exact Hfree].
Defined.

Lemma alloc_idle_enough_witness :
  ∃ st', alloc no_pause 1 0 lent_state = Some (1, st') ∧ core_inv {[0; 1]} st' ∧ taken 0 lent_state 1 st'.
Proof. apply (alloc_idle_enough no_pause); [apply lent_state_inv|vm_compute; done]. Defined.

Lemma alloc_respects_holders_witness :
  match alloc no_pause 2 0 lent_state with
  | Some (n, st') => n = 2 ∧ core_inv {[0; 1]} st' ∧ current (resources st' 1) = Some 1%nat
  | None => False
  end.
Proof.
  destruct (alloc no_pause 2 0 lent_state) as [[n st']|] eqn:Ha; [|vm_compute in Ha; done].
  destruct (alloc_respects_holders no_pause {[0; 1]} 2 0 n lent_state st') as (_ & HA & _);
    [done|apply lent_state_inv|done|done|].
  split; [|split; [done|]]; vm_compute in Ha; by injection Ha as <- <-.
Defined.

Lemma yield_request_honoured_witness :
  ∃ st1, reclaim no_pause 1 lent_state = Some (true, st1) ∧
    ∃ st2, release (Some 1%nat) 1 st1 = Some st2 ∧ current (resources st2 1) = Some 0%nat.
Proof.
  destruct (yield_request_honoured no_pause {[0; 1]} 1 0 1 (Worker 7 3) [] lent_state)
    as (st1 & H1 & _ & _ & _ & st2 & H2 & _ & H3 & _); [apply lent_state_inv|done..|].
  exists st1. split; [done|]. by exists st2.
Defined.

Lemma sys_release_return_unchecked_witness :
  ∃ st', sys_release RETURN RES_CPU 1 lent_state = Some (SUCCESS, st') ∧
         current (resources st' 1) = Some 0%nat.
Proof. by apply (sys_release_return_unchecked 1 0 1). Defined.
