(* ===== verification/Queue.v ===== *)
(** Intrusive doubly linked rings and the class [Queue].

    A queued object carries its own [prev] and [next] pointers.  Objects are
    named by numbers and the two pointer fields of all objects are two
    functions; [None] is the null pointer.  A ring is described by the list of
    its members from the head on, and [Queue] is shown to implement lists.  The
    scheduler links its ready queues by the same assignments and uses the
    lemmas on rings, as semaphores use the theorems on queues. *)
From S2P Require Import Prelude.

Abbreviation obj := nat.

Record links := Links {
  next : obj → option obj;
  prev : obj → option obj;
}.

Definition set_next (t : obj) (x : option obj) (L : links) : links :=
  Links (<[t := x]> (next L)) (prev L).
Definition set_prev (t : obj) (x : option obj) (L : links) : links :=
  Links (next L) (<[t := x]> (prev L)).

(** [t->next = h; t->prev = h->prev; t->next->prev = t->prev->next = t]. *)
Definition link_before (t h : obj) (L : links) : option links :=
  let L := set_next t (Some h) L in
  let L := set_prev t (prev L h) L in
  p ← prev L t;
  let L := set_next p (Some t) L in
  n ← next L t;
  Some (set_prev n (Some t) L).

(** [t->next->prev = t->prev; t->prev->next = t->next]. *)
Definition unlink (t : obj) (L : links) : option links :=
  n ← next L t;
  let L := set_prev n (prev L t) L in
  p ← prev L t;
  Some (set_next p (next L t) L).

(** ** Queue *)

Record queue := Queue { headptr : option obj }.

Definition head (q : queue) : option obj := headptr q.

Definition enqueue (t : obj) (q : queue) (L : links) : option (queue * links) :=
  match headptr q with
  | None => Some (Queue (Some t), set_prev t (Some t) (set_next t (Some t) L))
  | Some h => L ← link_before t h L; Some (q, L)
  end.

Definition dequeue (ot : option obj) (q : queue) (L : links) : option (bool * queue * links) :=
  match ot with
  | None => Some (false, q, L)
  | Some t =>
    match next L t, prev L t with
    | Some n, Some _ =>
      '(q, L) ← (if bool_decide (t = n) then Some (Queue None, L)
                 else L' ← unlink t L;
                      Some (if bool_decide (Some t = headptr q) then Queue (next L' t) else q, L'));
      Some (true, q, set_next t None (set_prev t None L))
    | _, _ => Some (false, q, L)
    end
  end.

(** [Queue::for_each] over a state [A] that the callback changes; [links_of]
    and [queue_of] read the pointers and the queue in it.  [None] is an
    iteration that outlasts the fuel. *)
Section for_each.
Context {A : Type} (links_of : A → links) (queue_of : A → queue) (fn : obj → A → A).

Fixpoint for_each_loop (fuel : nat) (element : obj) (a : A) : option A :=
  match fuel with
  | O => None
  | S fuel =>
    let a := fn element a in
    match next (links_of a) element with
    | Some e => if bool_decide (Some e = headptr (queue_of a)) then Some a else for_each_loop fuel e a
    | None => Some a
    end
  end.

Definition for_each (fuel : nat) (a : A) : option A :=
  match headptr (queue_of a) with
  | None => Some a
  | Some e => for_each_loop fuel e a
  end.
End for_each.

(** ** Rings

    [seg L x l y]: following [next] from [x] visits [l] and arrives at [y], and
    [prev] leads back. *)

Fixpoint seg (L : links) (x : obj) (l : list obj) (y : obj) : Prop :=
  match l with
  | [] => next L x = Some y ∧ prev L y = Some x
  | z :: l => (next L x = Some z ∧ prev L z = Some x) ∧ seg L z l y
  end.

Definition ring (L : links) (l : list obj) : Prop :=
  match l with [] => True | x :: l => NoDup (x :: l) ∧ seg L x l x end.

Lemma seg_app L x l z l' y : seg L x (l ++ z :: l') y ↔ seg L x l z ∧ seg L z l' y.
Proof.
  revert x. induction l as [|a l IH]; intros x; simpl; [tauto|]. rewrite IH. tauto.
Qed.

Lemma seg_frame L L' x l y :
  (∀ a, a ∈ x :: l → next L' a = next L a) → (∀ a, a ∈ y :: l → prev L' a = prev L a) →
  seg L x l y → seg L' x l y.
Proof.
  revert x. induction l as [|z l IH]; intros x Hn Hp; simpl.
  - rewrite Hn, Hp by left. done.
  - intros [[H1 H2] H3]. split; [split|].
    + rewrite Hn by left. done.
    + rewrite Hp; [done|right; left].
    + apply IH; [intros a Ha; apply Hn; by right| |done].
      intros a [->|Ha]%elem_of_cons; apply Hp; [left|right; by right].
Qed.

Lemma ring_frame L L' l :
  (∀ a, a ∈ l → next L' a = next L a) → (∀ a, a ∈ l → prev L' a = prev L a) →
  ring L l → ring L' l.
Proof.
  destruct l as [|x l]; [done|]. intros Hn Hp [Hd Hs]. split; [done|].
  eapply seg_frame; [exact Hn| |exact Hs]. done.
Qed.

Lemma ring_rotate L l l' : ring L (l ++ l') → ring L (l' ++ l).
Proof.
  destruct l as [|x l], l' as [|y l']; rewrite ?app_nil_r; try done.
  intros [Hd Hs]. split.
  - change (NoDup ((y :: l') ++ x :: l)). by rewrite (Permutation_app_comm (y :: l') (x :: l)).
  - apply seg_app. apply seg_app in Hs. tauto.
Qed.

(** The last object of a segment, and directing it to another successor. *)
Lemma last_cons_default (x z : obj) l : List.last (z :: l) x = List.last l z.
Proof.
  destruct l as [|a l _] using rev_ind; [done|].
  by rewrite app_comm_cons, !List.last_last.
Qed.

Lemma seg_last L x l y : seg L x l y → prev L y = Some (List.last l x).
Proof.
  revert x. induction l as [|z l IH]; intros x; [simpl; tauto|].
  rewrite last_cons_default. intros [_ Hs]. by apply IH.
Qed.

Lemma last_in (x : obj) l : List.last l x ∈ x :: l.
Proof.
  destruct l as [|z l _] using rev_ind; [left|]. rewrite List.last_last. right. apply elem_of_app. right. left.
Qed.

Lemma seg_retarget L x l y y' :
  seg L x l y → NoDup (x :: l) → y' ∉ l →
  seg (set_prev y' (Some (List.last l x)) (set_next (List.last l x) (Some y') L)) x l y'.
Proof.
  destruct l as [|z l _] using rev_ind; intros Hs Hd Hy'.
  - simpl. by rewrite !fn_lookup_insert.
  - rewrite List.last_last. apply seg_app in Hs as [H1 H2]. apply seg_app. split.
    + eapply seg_frame; [| |exact H1]; intros a Ha; simpl; rewrite fn_lookup_insert_ne; try done.
      * intros <-. change (x :: l ++ [z]) with ((x :: l) ++ [z]) in Hd.
        apply list.NoDup_app in Hd as (_ & Hd & _). apply (Hd z Ha). left.
      * intros <-. apply Hy', elem_of_app. apply elem_of_cons in Ha as [->|]; [right; left|by left].
    + simpl. by rewrite !fn_lookup_insert.
Qed.

(** ** Linking and unlinking on rings *)

Lemma link_before_spec L t h l :
  ring L (h :: l) → t ∉ h :: l →
  ∃ L', link_before t h L = Some L' ∧ ring L' (h :: l ++ [t]) ∧
    (∀ a, a ∉ t :: h :: l → next L' a = next L a ∧ prev L' a = prev L a).
Proof.
  intros [Hd Hs] Ht. pose proof (seg_last _ _ _ _ Hs) as Hlast. pose proof (last_in h l) as Hin.
  set (z := List.last l h) in *.
  assert (t ≠ h) by (intros ->; apply Ht; left). assert (t ≠ z) by (intros ->; by apply Ht).
  unfold link_before. simpl. rewrite Hlast, fn_lookup_insert. simpl.
  rewrite fn_lookup_insert_ne, fn_lookup_insert by congruence. simpl.
  set (L1 := set_prev t (prev L h) (set_next t (Some h) L)). rewrite <-Hlast.
  eexists. split; [reflexivity|]. split; [split|].
  - change (NoDup ((h :: l) ++ [t])). apply list.NoDup_app. split_and!; [done| |apply NoDup_singleton].
    intros a Ha ->%list_elem_of_singleton. done.
  - apply seg_app. split; [|].
    + assert (seg (set_prev t (Some z) (set_next z (Some t) L)) h l t) as Hr.
      { apply (seg_retarget _ _ _ h); [done..|]. intros ?. apply Ht. by right. }
      rewrite Hlast. apply list.NoDup_cons in Hd as [Hd _].
      eapply seg_frame; [| |exact Hr]; intros a Ha; simpl.
      * destruct (decide (a = z)) as [->|]; [by rewrite !fn_lookup_insert|].
        rewrite !fn_lookup_insert_ne by (try done; intros <-; done). done.
      * rewrite fn_lookup_insert_ne; [done|]. intros <-. apply elem_of_cons in Ha as [->|]; done.
    + simpl. rewrite fn_lookup_insert, fn_lookup_insert_ne, fn_lookup_insert by done. done.
  - intros a Ha. rewrite !not_elem_of_cons in Ha. simpl.
    assert (a ≠ z) by (intros ->; apply elem_of_cons in Hin; tauto).
    rewrite !fn_lookup_insert_ne by (intros <-; tauto). done.
Qed.

Lemma unlink_spec L t l1 l2 :
  ring L (l1 ++ t :: l2) → l1 ++ l2 ≠ [] →
  ∃ L', unlink t L = Some L' ∧ ring L' (l1 ++ l2) ∧ next L' t = next L t ∧ prev L' t = prev L t ∧
    next L t = Some (List.hd t (l2 ++ l1)) ∧
    (∀ a, a ∉ l1 ++ l2 → next L' a = next L a ∧ prev L' a = prev L a).
Proof.
  intros Hr Hne. apply ring_rotate in Hr. simpl in Hr.
  assert (∃ y m, l2 ++ l1 = y :: m) as (y & m & Hm).
  { destruct (l2 ++ l1) as [|y m] eqn:E; [|eauto]. apply app_eq_nil in E as [-> ->]. done. }
  rewrite Hm in *. destruct Hr as [Hd [[H1 H2] Hs]]. apply list.NoDup_cons in Hd as [Ht Hd].
  pose proof (seg_last _ _ _ _ Hs) as Hlast. pose proof (last_in y m) as Hin.
  assert (t ≠ y) by (intros ->; apply Ht; left).
  set (z := List.last m y) in *. assert (t ≠ z) by (intros ->; by apply Ht).
  unfold unlink. rewrite H1. cbn [mbind option_bind]. simpl.
  rewrite fn_lookup_insert_ne, Hlast by done. cbn [mbind option_bind].
  eexists. split; [reflexivity|].
  assert (∀ a, a ∉ l1 ++ l2 → a ≠ y ∧ a ≠ z) as Hout.
  { intros a Ha. assert (a ∉ y :: m) as Ha' by (rewrite <-Hm, elem_of_app in *; tauto).
    split; intros ->; apply Ha'; [left|done]. }
  split_and!.
  - apply (ring_rotate _ l2 l1). rewrite Hm. split; [done|].
    assert (seg (set_prev y (Some z) (set_next z (Some y) L)) y m y) as Hr.
    { apply (seg_retarget _ _ _ t); [done..|]. by apply list.NoDup_cons in Hd as [? _]. }
    rewrite H1. exact Hr.
  - simpl. by rewrite fn_lookup_insert_ne by done.
  - simpl. by rewrite fn_lookup_insert_ne by done.
  - done.
  - intros a [? ?]%Hout. simpl. by rewrite !fn_lookup_insert_ne by done.
Qed.

(** ** Queues implement lists *)

Definition queue_rep (L : links) (q : queue) (l : list obj) : Prop :=
  headptr q = List.hd_error l ∧ ring L l.

Definition unlinked (L : links) (t : obj) : Prop := next L t = None ∧ prev L t = None.

(** All pointers of the objects that satisfy [P] are the same in both states. *)
Definition same_links (P : obj → Prop) (L L' : links) : Prop :=
  ∀ a, P a → next L' a = next L a ∧ prev L' a = prev L a.

Lemma queue_rep_frame L L' q l :
  same_links (λ a, a ∈ l) L L' → queue_rep L q l → queue_rep L' q l.
Proof.
  intros Hf [Hh Hr]. split; [done|]. eapply ring_frame; [| |exact Hr]; intros a Ha; by apply Hf.
Qed.

Lemma queue_nil L : queue_rep L (Queue None) [].
Proof. done. Qed.

Lemma ring_linked L l t : ring L l → t ∈ l → ∃ n p, next L t = Some n ∧ prev L t = Some p.
Proof.
  intros Hr (l1 & l2 & ->)%list_elem_of_split. apply ring_rotate in Hr as [_ Hs]. simpl in Hs.
  pose proof (seg_last _ _ _ _ Hs) as Hp. destruct (l2 ++ l1); simpl in Hs; eauto. destruct Hs as [[] _]. eauto.
Qed.

Lemma enqueue_spec L q l t :
  queue_rep L q l → t ∉ l →
  ∃ q' L', enqueue t q L = Some (q', L') ∧ queue_rep L' q' (l ++ [t]) ∧
           same_links (λ a, a ∉ t :: l) L L'.
Proof.
  intros [Hh Hr] Ht. unfold enqueue. rewrite Hh. destruct l as [|h l]; simpl.
  - eexists _, _. split; [done|]. split; [split; [done|]|].
    + simpl. split; [apply NoDup_singleton|]. by rewrite !fn_lookup_insert.
    + intros a Ha%not_elem_of_cons. simpl. by rewrite !fn_lookup_insert_ne by (intros <-; tauto).
  - destruct (link_before_spec L t h l Hr Ht) as (L' & -> & Hr' & Hf). simpl.
    exists q, L'. by split_and!.
Qed.

Lemma dequeue_spec L q l1 t l2 :
  queue_rep L q (l1 ++ t :: l2) →
  ∃ q' L', dequeue (Some t) q L = Some (true, q', L') ∧ queue_rep L' q' (l1 ++ l2) ∧
           unlinked L' t ∧ same_links (λ a, a ∉ l1 ++ t :: l2) L L'.
Proof.
  intros [Hh Hr]. destruct (ring_linked L _ t Hr) as (n & p & Hn & Hp).
  { apply elem_of_app. right. left. }
  unfold dequeue. rewrite Hn, Hp. destruct (decide (l1 ++ l2 = [])) as [He|Hne].
  - apply app_eq_nil in He as [-> ->]. destruct Hr as [_ [Hn' _]]. simplify_eq.
    rewrite bool_decide_true by done. cbn [mbind option_bind].
    eexists _, _. split; [reflexivity|]. split; [done|]. split.
    + split; simpl; by rewrite fn_lookup_insert.
    + intros a Ha%not_elem_of_cons. simpl. by rewrite !fn_lookup_insert_ne by (intros <-; tauto).
  - destruct (unlink_spec L t l1 l2 Hr Hne) as (L' & HL & Hr' & Hn' & Hp' & Hhd & Hf).
    assert (t ∉ l1 ++ l2) as Hnt.
    { apply ring_rotate in Hr. destruct Hr as [[Hd _]%list.NoDup_cons _]. rewrite elem_of_app in *. tauto. }
    assert (t ≠ n) as Htn.
    { intros <-. rewrite Hn in Hhd. injection Hhd as Hhd. apply Hnt.
      destruct (l2 ++ l1) as [|y m] eqn:E; [by apply app_eq_nil in E as [-> ->]|].
      simpl in Hhd. subst y. assert (t ∈ l2 ++ l1) as Hin by (rewrite E; left).
      rewrite elem_of_app in *. tauto. }
    rewrite bool_decide_false by done. rewrite HL. cbn [mbind option_bind].
    eexists _, _. split; [reflexivity|]. split; [|split].
    + split.
      * destruct l1 as [|h l1]; simpl in Hh.
        { rewrite bool_decide_true by congruence. simpl. rewrite Hn', Hhd, app_nil_r.
          by destruct l2. }
        rewrite bool_decide_false; [done|]. rewrite Hh. intros [= <-]. apply Hnt. left.
      * eapply ring_frame; [| |exact Hr']; intros a Ha; simpl;
          rewrite fn_lookup_insert_ne; try done; by intros <-.
    + split; simpl; by rewrite fn_lookup_insert.
    + intros a Ha. assert (a ≠ t ∧ a ∉ l1 ++ l2) as [Hat Ha'].
      { rewrite !elem_of_app, elem_of_cons in *. tauto. }
      simpl. rewrite !fn_lookup_insert_ne by congruence. by apply Hf.
Qed.

Lemma dequeue_unlinked L q t : unlinked L t → dequeue (Some t) q L = Some (false, q, L).
Proof. intros [Hn _]. simpl. by rewrite Hn. Qed.

(** [Queue] implements lists: [head] is the first element, [enqueue]
    appends an object that is not queued, [dequeue] removes the given object
    wherever it is, keeps the order of the others and clears its pointers,
    and [dequeue] of null or of an object in no queue reports failure and
    changes nothing.  Objects of other queues keep their links. *)
Theorem queue_refines_list L q l :
  queue_rep L q l →
  head q = List.hd_error l ∧
  (∀ t, t ∉ l → ∃ q' L', enqueue t q L = Some (q', L') ∧ queue_rep L' q' (l ++ [t]) ∧
     same_links (λ a, a ∉ t :: l) L L') ∧
  (∀ l1 t l2, l = l1 ++ t :: l2 →
     ∃ q' L', dequeue (Some t) q L = Some (true, q', L') ∧ queue_rep L' q' (l1 ++ l2) ∧
       unlinked L' t ∧ same_links (λ a, a ∉ l) L L') ∧
  dequeue None q L = Some (false, q, L) ∧
  (∀ t, unlinked L t → dequeue (Some t) q L = Some (false, q, L)).
Proof.
  intros HQ. split_and!; [apply HQ| | |done|].
  - intros t Ht. by apply enqueue_spec.
  - intros l1 t l2 ->. by apply dequeue_spec.
  - intros t Ht. by apply dequeue_unlinked.
Qed.

(** ** Iteration *)
Section for_each_spec.
Context {A : Type} (links_of : A → links) (queue_of : A → queue) (fn : obj → A → A).

(** The callback keeps the queue [l]. *)
Context (l : list obj) (I : A → Prop).
Hypothesis I_rep : ∀ a, I a → queue_rep (links_of a) (queue_of a) l.
Hypothesis I_step : ∀ e a, e ∈ l → I a → I (fn e a).

Lemma for_each_loop_spec fuel l1 e l2 a :
  l = l1 ++ e :: l2 → I a → (length l2 < fuel)%nat →
  for_each_loop links_of queue_of fn fuel e a = Some (foldl (λ a e, fn e a) a (e :: l2)) ∧
  I (foldl (λ a e, fn e a) a (e :: l2)).
Proof.
  revert l1 e l2 a. induction fuel as [|fuel IH]; intros l1 e l2 a Hl Ha Hf; [lia|]. simpl.
  assert (I (fn e a)) as Ha' by (apply I_step; [rewrite Hl; apply elem_of_app; right; left|done]).
  destruct (I_rep _ Ha') as [Hh Hr]. rewrite Hl in Hh, Hr.
  apply ring_rotate in Hr as [Hd Hs]. simpl in Hs.
  destruct l2 as [|e2 l2].
  - assert (next (links_of (fn e a)) e = Some (List.hd e l1)) as ->.
    { destruct l1; simpl in *; tauto. }
    rewrite Hh, bool_decide_true by (by destruct l1). done.
  - simpl in Hs. destruct Hs as [[-> _] _]. rewrite bool_decide_false.
    + apply (IH (l1 ++ [e]) e2 l2); [by rewrite <-app_assoc|done|simpl in Hf; lia].
    + rewrite Hh. simpl in Hd. intros Heq.
      apply list.NoDup_cons in Hd as [Hd1 Hd2]. apply list.NoDup_cons in Hd2 as [Hd2 _].
      destruct l1 as [|h l1]; simpl in *; simplify_eq; [apply Hd1; left|].
      apply Hd2, elem_of_app. right. left.
Qed.
End for_each_spec.

(** [Queue::for_each] terminates and calls the function once for every
    member in queue order, for every function that leaves the queue as it is
    and whatever else it changes. *)
Theorem for_each_fold {A} (links_of : A → links) (queue_of : A → queue) (fn : obj → A → A) l (I : A → Prop) a fuel :
  (∀ a, I a → queue_rep (links_of a) (queue_of a) l) →
  (∀ e a, e ∈ l → I a → I (fn e a)) → I a → (length l ≤ fuel)%nat →
  for_each links_of queue_of fn fuel a = Some (foldl (λ a e, fn e a) a l).
Proof.
  intros Hrep Hstep Ha Hf. unfold for_each. destruct (Hrep _ Ha) as [Hh _]. rewrite Hh.
  destruct l as [|e l]; [done|]. simpl.
  by apply (for_each_loop_spec links_of queue_of fn (e :: l) I Hrep Hstep fuel [] e l).
Qed.

(** ** Examples *)

Definition no_links : links := Links (λ _, None) (λ _, None).

(** The queue of the objects 4, 2 and 9. *)
Definition q3 : option (queue * links) :=
  '(q, L) ← enqueue 4 (Queue None) no_links;
  '(q, L) ← enqueue 2 q L;
  enqueue 9 q L.

Lemma q3_rep : ∃ q L, q3 = Some (q, L) ∧ queue_rep L q [4; 2; 9]%nat.
Proof.
  destruct (enqueue_spec no_links (Queue None) [] 4) as (q1 & L1 & E1 & R1 & _); [done|apply not_elem_of_nil|].
  destruct (enqueue_spec L1 q1 [4%nat] 2) as (q2 & L2 & E2 & R2 & _); [done|by rewrite list_elem_of_singleton|].
  destruct (enqueue_spec L2 q2 [4; 2]%nat 9) as (q & L & E3 & R3 & _);
    [done|by rewrite elem_of_cons, list_elem_of_singleton; intros []|].
  exists q, L. split; [|done]. unfold q3. by rewrite E1; simpl; rewrite E2; simpl.
Qed.

Lemma queue_refines_list_witness :
  ∃ q L q' L', q3 = Some (q, L) ∧ dequeue (Some 2%nat) q L = Some (true, q', L') ∧
    queue_rep L' q' [4; 9]%nat.
Proof.
  destruct q3_rep as (q & L & Hq & HR).
  destruct (queue_refines_list L q _ HR) as (_ & _ & Hdeq & _).
  destruct (Hdeq [4%nat] 2%nat [9%nat] eq_refl) as (q' & L' & Hd & HR' & _).
  by exists q, L, q', L'.
Defined.

Lemma for_each_fold_witness :
  ∃ q L, q3 = Some (q, L) ∧ for_each (λ _, L) (λ _, q) (λ e s, s ++ [e]) 3 [] = Some [4; 2; 9]%nat.
Proof.
  destruct q3_rep as (q & L & Hq & HR). exists q, L. split; [done|].
  apply (for_each_fold (λ _, L) (λ _, q) (λ e s, s ++ [e]) [4; 2; 9]%nat (λ _, True)); done.
Defined.
