(* ===== verification/Rcu.v ===== *)
(** Reference counters and read-copy-update: [Refcount], [Rcu_list] and [Rcu].

    Objects that other CPUs may still use are handed to [Rcu::call] and freed
    after a grace period.  Every CPU keeps three lists of elements ([next],
    [curr], [done]) linked through the elements, and the CPUs agree on batches
    through the shared words [state] and [count].  The model keeps the lists as
    the source links them, tail pointers included, and a trace of the calls,
    quiescent states and invocations; each function of [Rcu] is one step of an
    interleaving of CPUs. *)
From S2P Require Import Prelude Bitmap.
Local Open Scope Z_scope.

(** ** Reference counters *)

Abbreviation refcount := Z.

Definition refcount_new : refcount := 1.

Definition add_ref (r : refcount) : bool * refcount :=
  if r =? 0 then (false, r) else cmp_swap r r (wrap 32 (r + 1)).

Definition del_ref (r : refcount) : bool * refcount :=
  let r := wrap 32 (r - 1) in (r =? 0, r).

Definition last_ref (r : refcount) : bool := r =? 1.

Definition del_rcu (r : refcount) : bool * refcount :=
  if last_ref r then (true, r)
  else let '(z, r) := del_ref r in if z then (true, 1) else (false, r).

(** ** Elements and lists *)

Abbreviation elem := nat.
Abbreviation cpu_id := nat.

Inductive ptr := Null | In_use | Ptr (e : elem).

#[export] Instance ptr_eq_dec : EqDecision ptr.
Proof. solve_decision. Defined.

Inductive which := LNext | LCurr | LDone.

#[export] Instance which_eq_dec : EqDecision which.
Proof. solve_decision. Defined.

(** What a tail pointer points to: the head of a list or the [next] field of
    an element. *)
Inductive slot := Head (c : cpu_id) (w : which) | NextOf (e : elem).

#[export] Instance slot_eq_dec : EqDecision slot.
Proof. solve_decision. Defined.

Record rcu_list := Rcu_list { rl_head : ptr; rl_tail : slot; rl_count : Z }.

Record percpu := Percpu {
  l_batch : Z;
  c_batch : Z;
  lists : which → rcu_list;
  hazard : Z;
}.

Inductive event := Called (e : elem) | Quiet (c : cpu_id) | Invoked (e : elem) | Ipi (c : cpu_id).

Record rcu := RcuState {
  gstate : Z;
  gcount : Z;
  cpus : cpu_id → percpu;
  enext : elem → ptr;
  trace : list event;
}.

Definition HZD_RCU : Z := 0x10.
Definition RCU_CMP : Z := 1.
Definition RCU_PND : Z := 2.

Section rcu.

(** The number of CPUs online, and the elements that the destruction of an
    element hands to [Rcu::call] in turn. *)
Context (online : nat) (spawn : elem → list elem).

Implicit Types (st : rcu) (c : cpu_id) (w : which) (e : elem).

Definition upd_cpu c (f : percpu → percpu) st : rcu :=
  RcuState (gstate st) (gcount st) (<[c := f (cpus st c)]> (cpus st)) (enext st) (trace st).
Definition upd_list c w (f : rcu_list → rcu_list) st : rcu :=
  upd_cpu c (λ p, Percpu (l_batch p) (c_batch p) (<[w := f (lists p w)]> (lists p)) (hazard p)) st.
Definition upd_hazard c (f : Z → Z) st : rcu :=
  upd_cpu c (λ p, Percpu (l_batch p) (c_batch p) (lists p) (f (hazard p))) st.
Definition upd_enext e (x : ptr) st : rcu :=
  RcuState (gstate st) (gcount st) (cpus st) (<[e := x]> (enext st)) (trace st).
Definition set_gstate (v : Z) st : rcu := RcuState v (gcount st) (cpus st) (enext st) (trace st).
Definition set_gcount (v : Z) st : rcu := RcuState (gstate st) v (cpus st) (enext st) (trace st).
Definition log (x : event) st : rcu :=
  RcuState (gstate st) (gcount st) (cpus st) (enext st) (x :: trace st).

Definition get_list st c w : rcu_list := lists (cpus st c) w.

(** [*tail] and [*tail = x]. *)
Definition load (s : slot) st : ptr :=
  match s with Head c w => rl_head (get_list st c w) | NextOf e => enext st e end.
Definition store (s : slot) (x : ptr) st : rcu :=
  match s with
  | Head c w => upd_list c w (λ l, Rcu_list x (rl_tail l) (rl_count l)) st
  | NextOf e => upd_enext e x st
  end.

(** ** Rcu_list *)

Definition list_clear c w st : rcu := upd_list c w (λ _, Rcu_list Null (Head c w) 0) st.

Definition list_empty st c w : bool :=
  bool_decide (Head c w = rl_tail (get_list st c w)) || bool_decide (rl_head (get_list st c w) = Null).

(** [append] of list [w'] to list [w]. *)
Definition list_append c w w' st : rcu :=
  let st := store (rl_tail (get_list st c w)) (rl_head (get_list st c w')) st in
  let st := upd_list c w (λ l, Rcu_list (rl_head l) (rl_tail (get_list st c w')) (rl_count l)) st in
  let st := store (rl_tail (get_list st c w)) (rl_head (get_list st c w)) st in
  let st := upd_list c w (λ l, Rcu_list (rl_head l) (rl_tail l)
              (wadd (rl_count l) (rl_count (get_list st c w')))) st in
  list_clear c w' st.

Definition list_enqueue c w e st : bool * rcu :=
  match enext st e with
  | Ptr _ => (false, st)
  | x =>
    if bool_decide (x = In_use) && negb (bool_decide (rl_tail (get_list st c w) = NextOf e)) then (false, st)
    else
      let st := if bool_decide (x = Null) then upd_enext e In_use st else st in
      let st := store (rl_tail (get_list st c w)) (Ptr e) st in
      (true, upd_list c w (λ l, Rcu_list (rl_head l) (NextOf e) (wadd (rl_count l) 1)) st)
  end.

(** ** Rcu *)

Definition batch st : Z := Z.shiftr (gstate st) 2.

(** The comparison of the unsigned difference as a signed number. *)
Definition signed64 (z : Z) : Z := if z <? 2 ^ 63 then z else z - 2 ^ 64.

Definition complete (b : Z) st : bool :=
  0 <? signed64 (wsub (Z.land (gstate st) (wnot RCU_PND)) (wshl b 2)).

Definition call c e st : bool * rcu :=
  let '(ok, st) := list_enqueue c LNext e st in
  (ok, if ok then log (Called e) st else st).

Definition call_all c (l : list elem) st : rcu := foldl (λ st e, (call c e st).2) st l.

Fixpoint invoke_loop (fuel : nat) c (x : ptr) st : option rcu :=
  match fuel with
  | O => None
  | S fuel =>
    match x with
    | Ptr e =>
      let n := enext st e in
      let st := upd_enext e Null st in
      let st := call_all c (spawn e) (log (Invoked e) st) in
      if bool_decide (n = rl_head (get_list st c LDone)) then Some st else invoke_loop fuel c n st
    | _ => None
    end
  end.

Definition invoke_batch (fuel : nat) c st : option rcu :=
  if bool_decide (rl_head (get_list st c LDone) = Null) then Some (list_clear c LDone st)
  else st ← invoke_loop fuel c (rl_head (get_list st c LDone)) st; Some (list_clear c LDone st).

Definition start_batch c (s : Z) st : rcu :=
  let m := Z.lor RCU_CMP RCU_PND in
  let v := gstate st in
  if negb (Z.shiftr v 2 =? l_batch (cpus st c)) then st
  else
    let st := if truthy (Z.land v s) then st else set_gstate (cmp_swap v v (Z.lor v s)).2 st in
    if truthy (Z.land (Z.lxor v (wnot s)) m) then st
    else
      let st := set_gcount (Z.of_nat online) st in
      set_gstate (wadd (gstate st) 1) st.

Definition quiet c st : rcu :=
  let st := upd_hazard c (λ h, clr_mask h HZD_RCU) st in
  let st := set_gcount (wsub (gcount st) 1) st in
  let st := log (Quiet c) st in
  if gcount st =? 0 then start_batch c RCU_CMP st else st.

(** The interprocessor interrupts that hurry the other CPUs. *)
Definition hurry c st : rcu :=
  foldl (λ st i, if bool_decide (i = c) then st else log (Ipi i) st) st (seq 0 online).

(** The parts of [update]: take note of a new batch; move the elements whose
    batch is complete to [done]; start to wait for the elements on [next]. *)
Definition note_batch c st : rcu :=
  if l_batch (cpus st c) =? batch st then st
  else upd_hazard c (λ h, set_mask h HZD_RCU)
         (upd_cpu c (λ p, Percpu (batch st) (c_batch p) (lists p) (hazard p)) st).

Definition retire_curr c st : rcu :=
  if negb (list_empty st c LCurr) && complete (c_batch (cpus st c)) st
  then list_append c LDone LCurr st else st.

Definition take_next c st : rcu :=
  if list_empty st c LCurr && negb (list_empty st c LNext) then
    let st := list_append c LCurr LNext st in
    let st := upd_cpu c (λ p, Percpu (l_batch p) (wadd (l_batch p) 1) (lists p) (hazard p)) st in
    start_batch c RCU_PND st
  else st.

Definition hurry_if (check : bool) c st : rcu :=
  if check && negb (list_empty st c LCurr) && negb (list_empty st c LNext) &&
     ((2000 <? rl_count (get_list st c LNext)) || (2000 <? rl_count (get_list st c LCurr)))
  then hurry c st else st.

Definition update (check : bool) (fuel : nat) c st : option rcu :=
  let st := note_batch c st in
  let st := retire_curr c st in
  let st := take_next c st in
  let st := hurry_if check c st in
  if negb (list_empty st c LDone) then invoke_batch fuel c st else Some st.

(** ** The lists as sequences

    An open list ends in an element marked [In_use] (or linked to itself after
    it was queued twice in a row), a closed list is circular. *)

Fixpoint linked (f : elem → ptr) e (l : list elem) : Prop :=
  match l with [] => True | y :: l => f e = Ptr y ∧ linked f y l end.

Definition list_end w (h z : elem) (p : ptr) : Prop :=
  match w with LNext => p = In_use ∨ p = Ptr z | _ => p = Ptr h end.

Definition rep st (p : cpu_id * which) (l : list elem) : Prop :=
  let r := get_list st p.1 p.2 in
  match l with
  | [] => rl_head r = Null ∧ rl_tail r = Head p.1 p.2
  | x :: m =>
    rl_head r = Ptr x ∧ rl_tail r = NextOf (List.last m x) ∧
    linked (enext st) x m ∧ list_end p.2 x (List.last m x) (enext st (List.last m x))
  end.

(** The lists [ls] of all CPUs, those in [P] in good order, are disjoint; an
    element that is in none of them is unlinked, except the elements [X] of the
    batch under invocation, which are still linked to each other. *)
Record linv (P : cpu_id * which → Prop) (X : list elem) (ls : cpu_id * which → list elem) st : Prop := {
  li_nodup : ∀ p, NoDup (ls p);
  li_disj : ∀ p q e, e ∈ ls p → e ∈ ls q → p = q;
  li_rep : ∀ p, P p → rep st p (ls p);
  li_null : ∀ e, e ∉ X → (∀ p, e ∉ ls p) → enext st e = Null;
  li_out : ∀ e, e ∈ X → (∀ p, e ∉ ls p) ∧ ∃ y, enext st e = Ptr y;
}.

(** The fields outside the lists. *)
Definition same_sync st st' : Prop :=
  gstate st' = gstate st ∧ gcount st' = gcount st ∧
  ∀ c, l_batch (cpus st' c) = l_batch (cpus st c) ∧ c_batch (cpus st' c) = c_batch (cpus st c) ∧
       hazard (cpus st' c) = hazard (cpus st c).

#[local] Instance same_sync_preorder : PreOrder same_sync.
Proof.
  split; [by intros st; split|]. intros x y z (H1 & H2 & H3) (G1 & G2 & G3).
  split_and!; [congruence|congruence|]. intros c. destruct (H3 c) as (? & ? & ?), (G3 c) as (? & ? & ?).
  split_and!; congruence.
Qed.

Lemma linked_frame f f' x l : (∀ e, e ∈ x :: l → f' e = f e) → linked f x l → linked f' x l.
Proof.
  revert x. induction l as [|y l IH]; intros x Hf; simpl; [done|].
  intros [H1 H2]. split; [rewrite Hf by left; done|]. apply IH; [|done]. intros e He. apply Hf. by right.
Qed.

Lemma last_elem (x : elem) l : List.last l x ∈ x :: l.
Proof.
  destruct l as [|z l _] using rev_ind; [left|]. rewrite List.last_last. right. apply elem_of_app. right. left.
Qed.

Lemma rep_frame st st' p l :
  get_list st' p.1 p.2 = get_list st p.1 p.2 → (∀ e, e ∈ l → enext st' e = enext st e) →
  rep st p l → rep st' p l.
Proof.
  intros Hl Hf. unfold rep. rewrite Hl. destruct l as [|x m]; [done|].
  intros (H1 & H2 & H3 & H4). rewrite Hf by apply last_elem. split_and!; try done.
  by eapply linked_frame.
Qed.

Lemma linked_app f x l y m :
  linked f x (l ++ y :: m) ↔ linked f x l ∧ f (List.last l x) = Ptr y ∧ linked f y m.
Proof.
  revert x. induction l as [|z l IH]; intros x; [simpl; tauto|].
  change (List.last (z :: l) x) with (match l with [] => z | _ => List.last l x end).
  simpl. rewrite IH. replace (match l with [] => z | _ :: _ => List.last l x end) with (List.last l z); [tauto|].
  destruct l as [|a l _] using rev_ind; [done|]. rewrite !List.last_last. by destruct l.
Qed.

Lemma last_app_cons (x y : elem) l m : List.last (l ++ y :: m) x = List.last m y.
Proof.
  destruct m as [|z m _] using rev_ind; [apply List.last_last|].
  by rewrite app_comm_cons, app_assoc, !List.last_last.
Qed.

Lemma get_upd_list st c w f p :
  get_list (upd_list c w f st) p.1 p.2 =
    if decide (p = (c, w)) then f (get_list st c w) else get_list st p.1 p.2.
Proof.
  unfold get_list. simpl. destruct p as [c' w']. simpl. case_decide as Hp; simplify_eq.
  - by rewrite fn_lookup_insert; simpl; rewrite fn_lookup_insert.
  - destruct (decide (c = c')) as [->|]; [|by rewrite fn_lookup_insert_ne].
    rewrite fn_lookup_insert. simpl. rewrite fn_lookup_insert_ne; [done|]. congruence.
Qed.

Lemma get_done_upd st c f : get_list (upd_list c LNext f st) c LDone = get_list st c LDone.
Proof. pose proof (get_upd_list st c LNext f (c, LDone)) as H. by rewrite decide_False in H. Qed.

Lemma upd_list_sync st c w f : same_sync st (upd_list c w f st).
Proof.
  split_and!; [done|done|]. intros c'. simpl. destruct (decide (c = c')) as [->|];
    [by rewrite fn_lookup_insert|by rewrite fn_lookup_insert_ne].
Qed.

Lemma store_sync s x st : same_sync st (store s x st).
Proof. destruct s; [apply upd_list_sync|by split]. Qed.

Lemma rep_tail st c w l :
  rep st (c, w) l →
  rl_tail (get_list st c w) = match l with [] => Head c w | x :: m => NextOf (List.last m x) end.
Proof. unfold rep. simpl. destruct l; tauto. Qed.

(** Writing through the tail of list [l] of [(c, w)] changes its head or the
    link of its last element and nothing else. *)
Lemma store_tail_frame st c w l x :
  rep st (c, w) l →
  (∀ p, p ≠ (c, w) → get_list (store (rl_tail (get_list st c w)) x st) p.1 p.2 = get_list st p.1 p.2) ∧
  (∀ a, a ∉ l → enext (store (rl_tail (get_list st c w)) x st) a = enext st a).
Proof.
  intros ->%rep_tail. destruct l as [|h m]; simpl; split; try done.
  - intros p Hp. rewrite get_upd_list, decide_False by done. done.
  - intros a Ha. rewrite fn_lookup_insert_ne; [done|]. intros <-. apply Ha, last_elem.
Qed.

(** Redirecting the last link keeps the links before it. *)
Lemma linked_redirect f x m p :
  NoDup (x :: m) → linked f x m → linked (<[List.last m x := p]> f) x m.
Proof.
  destruct m as [|y m _] using rev_ind; intros Hnd; [done|]. rewrite List.last_last.
  rewrite app_comm_cons in Hnd. apply list.NoDup_app in Hnd as (_ & Hnd & _).
  assert (∀ a, a ∈ x :: m → a ≠ y) as Hne by (intros a Ha ->; apply (Hnd y Ha); left).
  rewrite !linked_app. intros (G1 & G2 & _). split_and!; [| |done].
  - eapply linked_frame; [|exact G1]. intros a Ha. rewrite fn_lookup_insert_ne; [done|]. by apply not_eq_sym, Hne.
  - rewrite fn_lookup_insert_ne; [done|]. apply not_eq_sym, Hne, last_elem.
Qed.

Definition replace_lists (ls : cpu_id * which → list elem) p (l : list elem) :
  cpu_id * which → list elem := <[p := l]> ls.

Lemma elem_replace ls p l q e :
  e ∈ replace_lists ls p l q → (q = p ∧ e ∈ l) ∨ (q ≠ p ∧ e ∈ ls q).
Proof.
  unfold replace_lists. destruct (decide (p = q)) as [->|];
    [rewrite fn_lookup_insert|rewrite fn_lookup_insert_ne by done]; auto.
Qed.

(** Element [e] marked in use and written through the tail of a list. *)
Lemma snoc_rep st c e l :
  rep st (c, LNext) l → NoDup l → e ∉ l →
  let st1 := upd_enext e In_use st in
  rep (upd_list c LNext (λ r, Rcu_list (rl_head r) (NextOf e) (wadd (rl_count r) 1))
        (store (rl_tail (get_list st1 c LNext)) (Ptr e) st1)) (c, LNext) (l ++ [e]).
Proof.
  intros HR Hnd He st1. change (get_list st1) with (get_list st). rewrite (rep_tail _ _ _ _ HR).
  unfold rep in *. simpl in HR. rewrite get_upd_list, decide_True by done. simpl.
  destruct l as [|x m]; simpl.
  - rewrite (get_upd_list st1 c LNext _ (c, LNext)), decide_True by done. simpl.
    rewrite fn_lookup_insert. tauto.
  - destruct HR as (H1 & _ & H3 & _). rewrite List.last_last. split_and!; [done|done| |].
    + apply linked_app. rewrite fn_lookup_insert. split_and!; [|done|done].
      apply linked_redirect; [done|]. eapply linked_frame; [|exact H3].
      intros a Ha. rewrite fn_lookup_insert_ne; [done|]. by intros <-.
    + rewrite fn_lookup_insert_ne, fn_lookup_insert; [by left|]. intros Hz.
      apply He. rewrite <-Hz. apply last_elem.
Qed.

Lemma list_enqueue_new P X ls c e st :
  linv P X ls st → P (c, LNext) → e ∉ X → (∀ p, e ∉ ls p) →
  ∃ st', list_enqueue c LNext e st = (true, st') ∧
    linv P X (replace_lists ls (c, LNext) (ls (c, LNext) ++ [e])) st' ∧
    same_sync st st' ∧ trace st' = trace st ∧
    get_list st' c LDone = get_list st c LDone ∧ (∀ a, a ∈ X → enext st' a = enext st a).
Proof.
  intros [L1 L2 L3 L4 L5] HP HX He. unfold list_enqueue. rewrite L4 by done. simpl.
  pose proof (L3 _ HP) as HR. set (st1 := upd_enext e In_use st).
  assert (rep st1 (c, LNext) (ls (c, LNext))) as HR1.
  { apply (rep_frame st); [done| |exact HR]. intros a Ha. simpl. rewrite fn_lookup_insert_ne; [done|].
    intros <-. by apply (He (c, LNext)). }
  pose proof (snoc_rep _ _ _ _ HR (L1 _) (He _)) as HR3. simpl in HR3. fold st1 in HR3.
  destruct (store_tail_frame st1 _ _ _ (Ptr e) HR1) as [Hget Hnext].
  set (st2 := store _ _ st1) in *. set (st3 := upd_list _ _ _ st2) in *.
  assert (∀ p, p ≠ (c, LNext) → get_list st3 p.1 p.2 = get_list st p.1 p.2) as Hget3.
  { intros p Hp. unfold st3. rewrite get_upd_list, decide_False by done. by apply Hget. }
  assert (∀ a, a ≠ e → a ∉ ls (c, LNext) → enext st3 a = enext st a) as Hnext3.
  { intros a Ha Hl. change (enext st3) with (enext st2). rewrite Hnext by done. simpl.
    by rewrite fn_lookup_insert_ne. }
  assert (∀ a, a ∈ X → enext st3 a = enext st a) as HX3.
  { intros a Ha. apply Hnext3; [by intros ->|]. by apply (L5 a Ha). }
  exists st3. split; [done|]. split; [|split_and!].
  - split.
    + intros p. unfold replace_lists. destruct (decide (p = (c, LNext))) as [->|]; [|by rewrite fn_lookup_insert_ne].
      rewrite fn_lookup_insert. apply list.NoDup_app. split_and!; [done| |apply NoDup_singleton].
      intros a Ha ->%list_elem_of_singleton. by apply (He (c, LNext)).
    + intros p q a [[-> Hp]|[Hpn Hp]]%elem_replace [[-> Hq]|[Hqn Hq]]%elem_replace; [done| | |by eapply L2].
      * apply elem_of_app in Hp as [Hp| ->%list_elem_of_singleton]; [by eapply L2|by destruct (He q)].
      * apply elem_of_app in Hq as [Hq| ->%list_elem_of_singleton]; [by eapply L2|by destruct (He p)].
    + intros p Hp. unfold replace_lists. destruct (decide (p = (c, LNext))) as [->|Hne].
      { by rewrite fn_lookup_insert. }
      rewrite fn_lookup_insert_ne by done. apply (rep_frame st); [by apply Hget3| |by apply L3].
      intros a Ha. apply Hnext3; [by intros ->; apply (He p)|]. intros Ha'. apply Hne. by eapply L2.
    + intros a HaX Ha. assert (a ≠ e ∧ ∀ p, a ∉ ls p) as [Hae Hal].
      { unfold replace_lists in Ha. split.
        - intros ->. apply (Ha (c, LNext)). rewrite fn_lookup_insert. apply elem_of_app. right. left.
        - intros p Hin. apply (Ha p). destruct (decide (p = (c, LNext))) as [->|];
            [rewrite fn_lookup_insert; apply elem_of_app; by left|by rewrite fn_lookup_insert_ne]. }
      rewrite Hnext3 by done. by apply L4.
    + intros a Ha. destruct (L5 a Ha) as [Hal [y Hy]]. split; [|exists y; by rewrite HX3].
      intros p [[-> Hp]|[_ Hp]]%elem_replace; [|by apply (Hal p)].
      apply elem_of_app in Hp as [Hp|Hp%list_elem_of_singleton]; [by apply (Hal (c, LNext))|by subst].
  - etransitivity; [|apply upd_list_sync]. etransitivity; [|apply store_sync]. by split.
  - unfold st3, st2. by destruct (rl_tail _).
  - by apply (Hget3 (c, LDone)).
  - done.
Qed.

Lemma linked_next f x m a : linked f x m → a ∈ x :: m → a ≠ List.last m x → ∃ y, f a = Ptr y.
Proof.
  intros Hl (l1 & l2 & Heq)%list_elem_of_split Hne. destruct l1 as [|z l1]; simplify_eq/=.
  - destruct l2 as [|y l2]; [done|]. destruct Hl. eauto.
  - rewrite last_app_cons in Hne. apply linked_app in Hl as (_ & _ & Hl).
    destruct l2 as [|y l2]; [done|]. destruct Hl. eauto.
Qed.

(** An element of a list that is not marked [In_use] is linked; one that is so
    marked is the last of an open list. *)
Lemma rep_enext st p l a :
  rep st p l → a ∈ l →
  (∃ y, enext st a = Ptr y) ∨
  (enext st a = In_use ∧ p.2 = LNext ∧ rl_tail (get_list st p.1 p.2) = NextOf a).
Proof.
  unfold rep. destruct l as [|x m]; [by intros _ ?%elem_of_nil|].
  intros (_ & Ht & Hl & He) Ha. destruct (decide (a = List.last m x)) as [->|Hne].
  - destruct p as [c w]; simpl in *. destruct w; simpl in He; eauto. destruct He; eauto.
  - left. by eapply linked_next.
Qed.

(** Queueing the last element of an open list again. *)
Lemma list_enqueue_last P X ls c e st :
  linv P X ls st → P (c, LNext) → e ∈ ls (c, LNext) → rl_tail (get_list st c LNext) = NextOf e →
  linv P X ls (upd_list c LNext (λ r, Rcu_list (rl_head r) (NextOf e) (wadd (rl_count r) 1))
                (store (NextOf e) (Ptr e) st)).
Proof.
  intros [L1 L2 L3 L4 L5] HP He Ht. pose proof (L3 _ HP) as HR. split; [done|done| | |].
  - intros p Hp. destruct (decide (p = (c, LNext))) as [->|Hne].
    + unfold rep in *. simpl in HR. rewrite get_upd_list, decide_True by done. simpl.
      destruct (ls (c, LNext)) as [|x m] eqn:El; [by apply elem_of_nil in He|].
      destruct HR as (H1 & H2 & H3 & _). rewrite H2 in Ht. injection Ht as <-.
      split_and!; [done|done| |rewrite fn_lookup_insert; by right].
      apply linked_redirect; [|done]. rewrite <-El. apply L1.
    + apply (rep_frame st); [|intros a Ha|by apply L3].
      * by rewrite get_upd_list, decide_False.
      * simpl. rewrite fn_lookup_insert_ne; [done|]. intros <-. apply Hne. by eapply L2.
  - intros a HaX Ha. simpl. rewrite fn_lookup_insert_ne; [by apply L4|]. intros <-. by apply (Ha (c, LNext)).
  - intros a Ha. destruct (L5 a Ha) as [Hal [y Hy]]. split; [done|]. exists y. simpl.
    rewrite fn_lookup_insert_ne; [done|]. intros <-. by apply (Hal (c, LNext)).
Qed.

(** What [Rcu::call] may change: the caller's list [next]. *)
Record called P X (ls ls' : cpu_id * which → list elem) c st st' : Prop := {
  cd_inv : linv P X ls' st';
  cd_sync : same_sync st st';
  cd_lists : ∀ p, p ≠ (c, LNext) → ls' p = ls p;
  cd_done : get_list st' c LDone = get_list st c LDone;
  cd_enext : ∀ a, a ∈ X → enext st' a = enext st a;
  cd_trace : ∃ l, trace st' = (Called <$> l) ++ trace st ∧
    (∀ a, a ∈ l → (a ∉ X) ∧ (∀ p, p ≠ (c, LNext) → a ∉ ls p));
}.

Lemma called_refl P X ls c st : linv P X ls st → called P X ls ls c st st.
Proof.
  intros HL. split; try done. exists []. split; [done|]. by intros a ?%elem_of_nil.
Qed.

Lemma called_trans P X ls1 ls2 ls3 c st1 st2 st3 :
  called P X ls1 ls2 c st1 st2 → called P X ls2 ls3 c st2 st3 → called P X ls1 ls3 c st1 st3.
Proof.
  intros [A1 A2 A3 A4 A5 (l1 & A6 & A7)] [B1 B2 B3 B4 B5 (l2 & B6 & B7)]. split.
  - done.
  - by etransitivity.
  - intros p Hp. by rewrite B3, A3.
  - congruence.
  - intros a Ha. by rewrite B5, A5.
  - exists (l2 ++ l1). split; [by rewrite B6, A6, fmap_app, app_assoc|].
    intros a [Ha|Ha]%elem_of_app; [|by apply A7]. destruct (B7 a Ha) as [? Hb]. split; [done|].
    intros p Hp. rewrite <-(A3 p Hp). by apply Hb.
Qed.

Lemma call_spec P X ls c e st :
  linv P X ls st → P (c, LNext) → (∀ p, P p ∨ ls p = []) →
  ∃ ls', called P X ls ls' c st (call c e st).2.
Proof.
  intros HL HP Hout. unfold call.
  destruct (decide (e ∈ X)) as [HX|HX].
  { destruct (li_out _ _ _ _ HL e HX) as [_ [y Hy]]. unfold list_enqueue. rewrite Hy.
    exists ls. by apply called_refl. }
  destruct (decide (enext st e = Null)) as [Hnull|Hnn].
  - assert (∀ p, e ∉ ls p) as He.
    { intros p Hp. destruct (Hout p) as [HPp|Hn]; [|rewrite Hn in Hp; by apply elem_of_nil in Hp].
      destruct (rep_enext st p (ls p) e) as [[y Hy]|[Hy _]]; [by apply (li_rep _ _ _ _ HL)|done|congruence..]. }
    destruct (list_enqueue_new P X ls c e st HL HP HX He) as (st' & -> & HL' & HS & HT & HD & HE).
    eexists. split; simpl; [|exact HS| |exact HD|exact HE|].
    + destruct HL' as [G1 G2 G3 G4 G5]. by split.
    + intros p Hp. unfold replace_lists. by rewrite fn_lookup_insert_ne.
    + exists [e]. rewrite HT. split; [done|]. intros a ->%list_elem_of_singleton. auto.
  - exists ls. unfold list_enqueue.
    destruct (enext st e) as [| |y] eqn:Hy; [done| |by apply called_refl].
    rewrite bool_decide_true by done. simpl. case_bool_decide as Ht; simpl; [|by apply called_refl].
    assert (e ∈ ls (c, LNext)) as He.
    { pose proof (rep_tail _ _ _ _ (li_rep _ _ _ _ HL _ HP)) as Htl. rewrite Ht in Htl.
      destruct (ls (c, LNext)) as [|x m]; [done|]. injection Htl as ->. apply last_elem. }
    rewrite Ht. split; simpl.
    + destruct (list_enqueue_last P X ls c e st HL HP He Ht). by split.
    + etransitivity; [apply (store_sync (NextOf e) (Ptr e))|]. apply (upd_list_sync (store (NextOf e) (Ptr e) st)).
    + done.
    + change (get_list (log _ ?s)) with (get_list s). rewrite get_done_upd. done.
    + intros a Ha. rewrite fn_lookup_insert_ne; [done|]. by intros <-.
    + exists [e]. split; [done|]. intros a ->%list_elem_of_singleton. split; [done|].
      intros p Hp Hin. apply Hp. by eapply (li_disj _ _ _ _ HL).
Qed.

Lemma call_all_spec P X ls c l st :
  linv P X ls st → P (c, LNext) → (∀ p, P p ∨ ls p = []) →
  ∃ ls', called P X ls ls' c st (call_all c l st).
Proof.
  unfold call_all. revert ls st. induction l as [|e l IH]; intros ls st HL HP Hout; simpl.
  { exists ls. by apply called_refl. }
  destruct (call_spec P X ls c e st HL HP Hout) as [ls1 H1].
  destruct (IH ls1 (call c e st).2) as [ls2 H2]; [apply H1|done| |].
  - intros p. destruct (decide (p = (c, LNext))) as [->|Hp]; [by left|].
    rewrite (cd_lists _ _ _ _ _ _ _ H1) by done. apply Hout.
  - exists ls2. by eapply called_trans.
Qed.

(** ** Appending a list to a circular list *)

Lemma get_clear st c w p :
  get_list (list_clear c w st) p.1 p.2 = if decide (p = (c, w)) then Rcu_list Null (Head c w) 0
                                         else get_list st p.1 p.2.
Proof. apply get_upd_list. Qed.

Lemma append_rep st c w w' x m l :
  w ≠ LNext → w ≠ w' → rep st (c, w) l → rep st (c, w') (x :: m) →
  NoDup (l ++ x :: m) →
  rep (list_append c w w' st) (c, w) (l ++ x :: m) ∧ rep (list_append c w w' st) (c, w') [] ∧
  (∀ p, p ≠ (c, w) → p ≠ (c, w') → get_list (list_append c w w' st) p.1 p.2 = get_list st p.1 p.2) ∧
  (∀ a, a ∉ l ++ x :: m → enext (list_append c w w' st) a = enext st a).
Proof.
  intros Hw Hww HR HR' Hnd. pose proof (rep_tail _ _ _ _ HR) as Ht.
  unfold rep in HR'. simpl in HR'. destruct HR' as (A1 & A2 & A3 & A4).
  set (z' := List.last m x) in *.
  assert (get_list st c w' = get_list st (c, w').1 (c, w').2) as G0 by done.
  apply list.NoDup_app in Hnd as (Hl & Hdis & Hxm).
  unfold list_append. rewrite A1. set (st1 := store (rl_tail (get_list st c w)) (Ptr x) st).
  destruct (store_tail_frame st c w l (Ptr x) HR) as [Fg Fn]. fold st1 in Fg, Fn.
  assert (get_list st1 c w' = get_list st c w') as G1 by (apply (Fg (c, w')); congruence).
  rewrite G1, A2. set (st2 := upd_list c w _ st1).
  assert (rl_tail (get_list st2 c w) = NextOf z') as T2.
  { unfold st2. rewrite (get_upd_list st1 c w _ (c, w)), decide_True by done. done. }
  set (h := match l with [] => x | y :: _ => y end).
  assert (rl_head (get_list st2 c w) = Ptr h) as T3.
  { unfold st2. rewrite (get_upd_list st1 c w _ (c, w)), decide_True by done. simpl.
    unfold st1. rewrite Ht. destruct l as [|y l']; simpl.
    - rewrite (get_upd_list st c w _ (c, w)), decide_True by done. done.
    - unfold rep in HR. simpl in HR. apply HR. }
  rewrite T2, T3. set (st3 := store (NextOf z') (Ptr h) st2).
  set (st4 := upd_list c w _ st3).
  assert (enext (list_clear c w' st4) = <[z' := Ptr h]> (enext st1)) as E4 by done.
  assert (∀ p, p ≠ (c, w) → get_list st4 p.1 p.2 = get_list st p.1 p.2) as G4.
  { intros p Hp. unfold st4. rewrite get_upd_list, decide_False by done.
    change (get_list st3) with (get_list st2). unfold st2. rewrite get_upd_list, decide_False by done. by apply Fg. }
  assert (z' ∈ x :: m) as Hz' by apply last_elem.
  split_and!.
  - unfold rep. rewrite E4, get_clear, decide_False by congruence. unfold st4.
    rewrite (get_upd_list st3 c w _ (c, w)), decide_True by done.
    change (get_list st3) with (get_list st2). simpl. rewrite T2, T3.
    assert (linked (<[z':=Ptr h]> (enext st1)) x m) as Hxl.
    { apply linked_redirect; [done|]. eapply linked_frame; [|exact A3]. intros a Ha. apply Fn.
      intros Hal. by apply (Hdis a). }
    destruct l as [|y l']; simpl.
    + fold z'. split_and!; try done. rewrite fn_lookup_insert. by destruct w.
    + rewrite last_app_cons. fold z'. split_and!; [done|done| |rewrite fn_lookup_insert; by destruct w].
      apply linked_app. split_and!; [| |done].
      * eapply (linked_frame (enext st1)).
        { intros a Ha. rewrite fn_lookup_insert_ne; [done|]. intros <-. by apply (Hdis z'). }
        unfold st1. rewrite Ht. simpl. apply linked_redirect; [done|]. unfold rep in HR. simpl in HR. apply HR.
      * rewrite fn_lookup_insert_ne; [|intros Hz; apply (Hdis z'); [rewrite Hz; apply last_elem|done]].
        unfold st1. rewrite Ht. simpl. by rewrite fn_lookup_insert.
  - unfold rep. rewrite get_clear, decide_True by done. done.
  - intros p Hp Hp'. rewrite get_clear, decide_False by done. by apply G4.
  - intros a Ha. rewrite E4.
    rewrite elem_of_app in Ha. rewrite fn_lookup_insert_ne; [|intros <-; tauto]. apply Fn. tauto.
Qed.

Lemma append_sync st c w w' : same_sync st (list_append c w w' st).
Proof.
  unfold list_append, list_clear.
  repeat first [etransitivity; [|apply upd_list_sync] | etransitivity; [|apply store_sync]]. reflexivity.
Qed.

Lemma append_trace st c w w' : trace (list_append c w w' st) = trace st.
Proof. unfold list_append, list_clear. simpl. by repeat (destruct (rl_tail _); simpl). Qed.

Lemma append_linv ls st c w w' :
  linv (λ _, True) [] ls st → w ≠ LNext → w ≠ w' → ls (c, w') ≠ [] →
  linv (λ _, True) [] (replace_lists (replace_lists ls (c, w) (ls (c, w) ++ ls (c, w'))) (c, w') [])
    (list_append c w w' st).
Proof.
  intros [L1 L2 L3 L4 L5] Hw Hww Hne. destruct (ls (c, w')) as [|x m] eqn:El; [done|].
  assert (NoDup (ls (c, w) ++ x :: m)) as Hnd.
  { rewrite <-El. apply list.NoDup_app. split_and!; [done| |done]. intros a H1 H2.
    assert ((c, w) = (c, w')) by by eapply L2. congruence. }
  pose proof (L3 (c, w') I) as HR'. rewrite El in HR'.
  destruct (append_rep st c w w' x m (ls (c, w)) Hw Hww (L3 _ I) HR' Hnd) as (R1 & R2 & R3 & R4).
  assert (∀ p a, a ∈ replace_lists (replace_lists ls (c, w) (ls (c, w) ++ x :: m)) (c, w') [] p →
    ∃ q, a ∈ ls q ∧ (p = (c, w) ∧ q = (c, w') ∨ p = q ∧ q ≠ (c, w'))) as Hin.
  { intros p a [[-> Ha%elem_of_nil]|[Hp [[-> Ha]|[Hp' Ha]]%elem_replace]]%elem_replace; [done| |eauto].
    rewrite <-El in Ha. apply elem_of_app in Ha as [Ha|Ha]; [exists (c, w); split; [done|right; split; congruence]|eauto]. }
  split.
  - intros p. unfold replace_lists. destruct (decide (p = (c, w'))) as [->|];
      [rewrite fn_lookup_insert; constructor|rewrite fn_lookup_insert_ne by done].
    destruct (decide (p = (c, w))) as [->|]; [by rewrite fn_lookup_insert|by rewrite fn_lookup_insert_ne].
  - intros p q a (p' & Hp & Hpp)%Hin (q' & Hq & Hqq)%Hin.
    pose proof (L2 _ _ _ Hp Hq) as <-. destruct Hpp as [[-> ->]|[-> ?]], Hqq as [[-> ?]|[-> ?]]; congruence.
  - intros p _. unfold replace_lists. destruct (decide (p = (c, w'))) as [->|Hp'];
      [by rewrite fn_lookup_insert|rewrite fn_lookup_insert_ne by done].
    destruct (decide (p = (c, w))) as [->|Hp]; [by rewrite fn_lookup_insert|rewrite fn_lookup_insert_ne by done].
    apply (rep_frame st); [by apply R3| |by apply L3]. intros a Ha. apply R4.
    rewrite <-El. intros [Ha'|Ha']%elem_of_app; [apply Hp|apply Hp']; by eapply L2.
  - intros a HX Ha. rewrite R4; [apply L4; [done|]|].
    + intros p Hp. destruct (decide (p = (c, w'))) as [->|Hpw].
      * apply (Ha (c, w)). unfold replace_lists. rewrite fn_lookup_insert_ne, fn_lookup_insert by congruence.
        rewrite <-El. apply elem_of_app. by right.
      * apply (Ha p). unfold replace_lists. rewrite fn_lookup_insert_ne by done.
        destruct (decide (p = (c, w))) as [->|]; [|by rewrite fn_lookup_insert_ne].
        rewrite fn_lookup_insert. apply elem_of_app. by left.
    + intros Hap. apply (Ha (c, w)). unfold replace_lists. by rewrite fn_lookup_insert_ne, fn_lookup_insert by congruence.
  - by intros a ?%elem_of_nil.
Qed.

(** ** Invocation of a batch *)

(** CPU [j] passed a quiescent state since element [e] was last queued; the
    newest event comes first. *)
Fixpoint quiesced (j : cpu_id) e (tr : list event) : Prop :=
  match tr with
  | [] => False
  | Called e' :: tr => e' ≠ e ∧ quiesced j e tr
  | Quiet c :: tr => c = j ∨ quiesced j e tr
  | _ :: tr => quiesced j e tr
  end.

(** Every invocation was preceded by a quiescent state of every CPU since the
    element was queued. *)
Definition good_trace (tr : list event) : Prop :=
  ∀ tr1 e tr2, tr = tr1 ++ Invoked e :: tr2 → ∀ j, (j < online)%nat → quiesced j e tr2.

Lemma good_trace_cons x tr :
  good_trace tr → (∀ e, x = Invoked e → ∀ j, (j < online)%nat → quiesced j e tr) → good_trace (x :: tr).
Proof.
  intros Hg Hx [|y tr1] e tr2 Heq; simplify_eq/=; [by apply Hx|]. by eapply Hg.
Qed.

Lemma quiesced_called j e l tr : e ∉ l → quiesced j e ((Called <$> l) ++ tr) ↔ quiesced j e tr.
Proof.
  induction l as [|a l IH]; intros Hn; simpl; [done|]. rewrite not_elem_of_cons in Hn. rewrite IH by tauto.
  intuition congruence.
Qed.

Lemma good_trace_called l tr : good_trace tr → good_trace ((Called <$> l) ++ tr).
Proof. intros Hg. induction l; simpl; [done|]. by apply good_trace_cons. Qed.

Definition not_done c (p : cpu_id * which) : Prop := p ≠ (c, LDone).

(** The state after removing [x] from the batch. *)
Lemma invoke_step c x m ls st :
  linv (not_done c) (x :: m) ls st → NoDup (x :: m) →
  linv (not_done c) m ls (log (Invoked x) (upd_enext x Null st)).
Proof.
  intros [L1 L2 L3 L4 L5] [Hx Hnd]%list.NoDup_cons. split; [done|done| | |].
  - intros p Hp. apply (rep_frame st); [done| |by apply L3]. intros a Ha. simpl.
    rewrite fn_lookup_insert_ne; [done|]. intros <-. destruct (L5 x ltac:(left)) as [Hno _]. by apply (Hno p).
  - intros a Ha Hno. simpl. destruct (decide (a = x)) as [->|]; [by rewrite fn_lookup_insert|].
    rewrite fn_lookup_insert_ne by done. apply L4; [|done]. rewrite not_elem_of_cons. done.
  - intros a Ha. destruct (L5 a) as [Hno Hy]; [by right|]. split; [done|]. simpl.
    rewrite fn_lookup_insert_ne; [done|]. by intros <-.
Qed.

(** What a batch of invocations leaves: the lists but the caller's [next], the
    words of the protocol, and what is known of the elements still waiting. *)
Record invoked (ls ls' : cpu_id * which → list elem) c st st' : Prop := {
  iv_sync : same_sync st st';
  iv_lists : ∀ p, p ≠ (c, LNext) → ls' p = ls p;
  iv_quiesced : ∀ j e p, p.2 ≠ LNext → e ∈ ls p → quiesced j e (trace st) → quiesced j e (trace st');
}.

Lemma invoke_loop_spec c h x m ls st fuel :
  linv (not_done c) (x :: m) ls st → ls (c, LDone) = [] → NoDup (x :: m) → h ∉ m →
  linked (enext st) x m → enext st (List.last m x) = Ptr h →
  rl_head (get_list st c LDone) = Ptr h → (length m < fuel)%nat →
  good_trace (trace st) → (∀ e j, e ∈ x :: m → (j < online)%nat → quiesced j e (trace st)) →
  ∃ ls' st', invoke_loop fuel c (Ptr x) st = Some st' ∧ linv (not_done c) [] ls' st' ∧
    invoked ls ls' c st st' ∧ good_trace (trace st').
Proof.
  revert x m ls st. induction fuel as [|fuel IH]; intros x m ls st HL Hld Hnd Hh Hlk Hlast Hhead Hf Hg HQ; [lia|].
  cbn [invoke_loop]. pose proof (invoke_step _ _ _ _ _ HL Hnd) as HL1.
  set (st1 := log (Invoked x) (upd_enext x Null st)) in *.
  destruct (call_all_spec (not_done c) m ls c (spawn x) st1) as [ls2 HC]; [done|by unfold not_done| |].
  { intros p. destruct (decide (p = (c, LDone))) as [->|]; [by right|by left]. }
  set (st2 := call_all c (spawn x) st1) in *. destruct HC as [C1 C2 C3 C4 C5 (l & C6 & C7)].
  assert (good_trace (trace st2)) as Hg2.
  { rewrite C6. apply good_trace_called. apply good_trace_cons; [done|]. intros e [= <-] j Hj. apply HQ; [left|done]. }
  assert (∀ j e, e ∉ l → quiesced j e (trace st) → quiesced j e (trace st2)) as Hq2.
  { intros j e He Hq. rewrite C6, quiesced_called by done. done. }
  assert (invoked ls ls2 c st st2) as HI.
  { split; [etransitivity; [|exact C2]; by split|done|].
    intros j e p Hp He. apply Hq2. intros Hel. apply (C7 e Hel) in He; [done|].
    intros ->. by apply Hp. }
  assert (rl_head (get_list st2 c LDone) = Ptr h) as Hh2 by by rewrite C4.
  rewrite Hh2. destruct m as [|y m].
  - simpl in Hlast. rewrite Hlast, bool_decide_true by done. by exists ls2, st2.
  - destruct Hlk as [Hxy Hlk]. rewrite Hxy. rewrite not_elem_of_cons in Hh.
    rewrite bool_decide_false by (intros [= ->]; tauto).
    apply list.NoDup_cons in Hnd as [Hxm Hnd].
    assert (∀ a, a ∈ y :: m → enext st2 a = enext st a) as Hne.
    { intros a Ha. rewrite C5 by done. simpl. rewrite fn_lookup_insert_ne; [done|]. by intros <-. }
    destruct (IH y m ls2 st2) as (ls3 & st3 & HI3 & HL3 & [S1 S2 S3] & Hg3); try done.
    + by rewrite C3.
    + tauto.
    + by eapply linked_frame.
    + rewrite Hne by apply last_elem. rewrite <-Hlast. f_equal.
      symmetry. apply (last_app_cons x y []).
    + simpl in Hf. lia.
    + intros e j He Hj. apply Hq2; [|by apply HQ; [right|]]. intros Hel. by destruct (C7 e Hel).
    + exists ls3, st3. split; [done|]. split; [done|]. split; [|done]. destruct HI as [T1 T2 T3]. split.
      * by etransitivity.
      * intros p Hp. rewrite S2 by done. by apply T2.
      * intros j e p Hp He Hq. apply (S3 j e p); [done| |by eapply T3].
        rewrite C3; [done|]. intros ->. by apply Hp.
Qed.

Lemma invoke_batch_spec c ls st fuel :
  linv (λ _, True) [] ls st → (length (ls (c, LDone)) ≤ fuel)%nat → good_trace (trace st) →
  (∀ e j, e ∈ ls (c, LDone) → (j < online)%nat → quiesced j e (trace st)) →
  ∃ ls' st', invoke_batch fuel c st = Some st' ∧ linv (λ _, True) [] ls' st' ∧ ls' (c, LDone) = [] ∧
    same_sync st st' ∧ good_trace (trace st') ∧
    (∀ p, p ≠ (c, LNext) → p ≠ (c, LDone) → ls' p = ls p) ∧
    (∀ j e p, p.2 = LCurr → e ∈ ls p → quiesced j e (trace st) → quiesced j e (trace st')).
Proof.
  intros HL Hf Hg HQ. pose proof HL as [L1 L2 L3 L4 L5]. pose proof (L3 (c, LDone) I) as HR.
  unfold invoke_batch. unfold rep in HR. simpl in HR.
  assert (∀ ls' s, linv (not_done c) [] ls' s → ls' (c, LDone) = [] →
    linv (λ _, True) [] ls' (list_clear c LDone s)) as Hclear.
  { intros ls' s [G1 G2 G3 G4 G5] Hd. split; try done. intros p _. destruct (decide (p = (c, LDone))) as [->|Hp].
    - rewrite Hd. unfold rep. by rewrite get_clear, decide_True.
    - apply (rep_frame s); [by rewrite get_clear, decide_False|done|by apply G3]. }
  destruct (ls (c, LDone)) as [|x m] eqn:El.
  - destruct HR as [-> _]. rewrite bool_decide_true by done. eexists ls, _. split; [done|]. split_and!; try done.
    + apply Hclear; [|done]. split; try done. intros p _. by apply L3.
    + apply upd_list_sync.
  - destruct HR as (H1 & H2 & H3 & H4). rewrite H1, bool_decide_false by done.
    set (ls1 := replace_lists ls (c, LDone) []).
    assert (∀ p a, a ∈ ls1 p → a ∈ ls p ∧ p ≠ (c, LDone)) as Hls1.
    { intros p a [[_ ?%elem_of_nil]|[? ?]]%elem_replace; done. }
    assert (linv (not_done c) (x :: m) ls1 st) as HL1.
    { split.
      - intros p. unfold ls1, replace_lists. destruct (decide (p = (c, LDone))) as [->|];
          [rewrite fn_lookup_insert; constructor|by rewrite fn_lookup_insert_ne].
      - intros p q e [Hp _]%Hls1 [Hq _]%Hls1. by eapply L2.
      - intros p Hp. unfold ls1, replace_lists. rewrite fn_lookup_insert_ne by done. by apply L3.
      - intros e He Hno. apply L4; [apply not_elem_of_nil|]. intros p Hp. apply (Hno p).
        unfold ls1, replace_lists. rewrite fn_lookup_insert_ne; [done|]. intros <-. by rewrite El in Hp.
      - intros e He. split.
        + intros p [Hp Hpd]%Hls1. apply Hpd. eapply L2; [exact Hp|]. by rewrite El.
        + destruct (rep_enext st (c, LDone) (x :: m) e) as [?|(_ & ? & _)]; done. }
    assert (NoDup (x :: m)) as Hnd by (rewrite <-El; apply L1).
    destruct (invoke_loop_spec c x x m ls1 st fuel) as (ls2 & st2 & -> & HL2 & [S1 S2 S3] & Hg2); try done.
    + unfold ls1, replace_lists. by rewrite fn_lookup_insert.
    + by apply list.NoDup_cons in Hnd as [? _].
    + cbn [mbind option_bind]. eexists ls2, _. split; [done|].
      assert (ls2 (c, LDone) = []) as Hd2.
      { rewrite S2 by done. unfold ls1, replace_lists. by rewrite fn_lookup_insert. }
      split; [by apply Hclear|]. split_and!; try done.
      * etransitivity; [exact S1|]. apply upd_list_sync.
      * intros p Hp Hpd. rewrite S2 by done. unfold ls1, replace_lists. by rewrite fn_lookup_insert_ne.
      * intros j e p Hp He. apply (S3 j e p); [by rewrite Hp|].
        unfold ls1, replace_lists. rewrite fn_lookup_insert_ne; [done|]. by intros <-.
Qed.

(** ** The word [state]: batch number, pending and complete flag *)

Definition flags (b : Z) (p q : bool) : Z := 4 * b + 2 * Z.b2z p + Z.b2z q.

Lemma flags_bits b p q i :
  0 ≤ i → Z.testbit (flags b p q) i =
    if i =? 0 then q else if i =? 1 then p else Z.testbit b (i - 2).
Proof.
  intros Hi. unfold flags. replace (4 * b + 2 * Z.b2z p + Z.b2z q) with (2 * (2 * b + Z.b2z p) + Z.b2z q) by lia.
  destruct (Z.eqb_spec i 0) as [->|]; [apply Z.testbit_0_r|].
  replace i with (Z.succ (i - 1)) at 1 by lia. rewrite Z.testbit_succ_r by lia.
  destruct (Z.eqb_spec i 1) as [->|]; [apply Z.testbit_0_r|].
  replace (i - 1) with (Z.succ (i - 2)) by lia. by rewrite Z.testbit_succ_r by lia.
Qed.

Lemma flags_batch b p q : Z.shiftr (flags b p q) 2 = b.
Proof.
  apply Z.bits_inj'. intros i Hi. rewrite Z.shiftr_spec, flags_bits by lia.
  destruct (Z.eqb_spec (i + 2) 0); [lia|]. destruct (Z.eqb_spec (i + 2) 1); [lia|]. f_equal. lia.
Qed.

(** Case analysis on bit positions 0, 1 and above. *)
Ltac flag_bits :=
  apply Z.bits_inj'; intros ?i ?Hi;
  repeat first [rewrite Z.land_spec | rewrite Z.lor_spec | rewrite Z.lxor_spec | rewrite flags_bits by lia
               | rewrite wnot_bits by done];
  let j := fresh in
  match goal with i : Z |- _ =>
    destruct (Z.eqb_spec i 0) as [->|]; [|destruct (Z.eqb_spec i 1) as [->|]] end.

Lemma small_bits_0 k i : 0 ≤ k < 4 → 2 ≤ i → Z.testbit k i = false.
Proof.
  intros Hk Hi. apply (word_bits 2); [|lia]. unfold word. change (2 ^ 2) with 4. lia.
Qed.

Lemma flags_lor_cmp b p q : Z.lor (flags b p q) RCU_CMP = flags b p true.
Proof. flag_bits; [by destruct q|by destruct p|]. rewrite (small_bits_0 RCU_CMP) by (unfold RCU_CMP; lia). apply orb_false_r. Qed.

Lemma flags_lor_pnd b p q : Z.lor (flags b p q) RCU_PND = flags b true q.
Proof. flag_bits; [by destruct q|by destruct p|]. rewrite (small_bits_0 RCU_PND) by (unfold RCU_PND; lia). apply orb_false_r. Qed.

Lemma flags_land_small b p q k :
  0 ≤ k < 4 → Z.land (flags b p q) k = Z.land (flags 0 p q) k.
Proof. intros Hk. flag_bits; [done|done|]. by rewrite (small_bits_0 k), !andb_false_r by lia. Qed.

(** The test that decides whether a batch starts. *)
Lemma flags_test b p q s :
  s = RCU_CMP ∨ s = RCU_PND →
  Z.land (Z.lxor (flags b p q) (wnot s)) (Z.lor RCU_CMP RCU_PND) =
  Z.land (Z.lxor (flags 0 p q) (wnot s)) (Z.lor RCU_CMP RCU_PND).
Proof.
  intros Hs. change (Z.lor RCU_CMP RCU_PND) with 3.
  assert (word 64 s) by (destruct Hs as [-> | ->]; done).
  apply Z.bits_inj'. intros i Hi. rewrite !Z.land_spec, !Z.lxor_spec, !flags_bits by lia.
  destruct (Z.eqb_spec i 0) as [->|]; [done|]. destruct (Z.eqb_spec i 1) as [->|]; [done|].
  by rewrite (small_bits_0 3), !andb_false_r by lia.
Qed.

Lemma flags_no_pnd b p q :
  word 64 (flags b p q) → Z.land (flags b p q) (wnot RCU_PND) = flags b false q.
Proof.
  intros Hw. apply Z.bits_inj'. intros i Hi. rewrite Z.land_spec, wnot_bits by done.
  pose proof (word_bits 64 _ i Hw) as Hh. rewrite flags_bits in * by lia. rewrite flags_bits by lia.
  destruct (Z.eqb_spec i 0) as [->|]; [by destruct q|]. destruct (Z.eqb_spec i 1) as [->|]; [by destruct p|].
  rewrite (small_bits_0 RCU_PND) by (unfold RCU_PND; lia). destruct (Z.leb_spec 0 i); [|lia].
  destruct (Z.ltb_spec i 64); simpl; [by rewrite andb_true_r|]. rewrite Hh by lia. done.
Qed.

Lemma complete_spec b p q k st :
  gstate st = flags b p q → 0 ≤ b < 2 ^ 61 → 0 ≤ k < 2 ^ 61 →
  complete k st = true ↔ k < b ∨ (k = b ∧ q = true).
Proof.
  intros Hs Hb Hk. unfold complete. rewrite Hs.
  rewrite flags_no_pnd by (unfold flags, word; destruct p, q; simpl Z.b2z; lia).
  assert (wshl k 2 = 4 * k) as -> by (rewrite wshl_small; lia).
  assert (∃ y, Z.b2z q = y ∧ 0 ≤ y ≤ 1 ∧ (q = true ↔ y = 1)) as (y & Hy & Hy1 & ->).
  { exists (Z.b2z q). destruct q; simpl; repeat split; (lia || done). }
  unfold flags, signed64, wsub, wrap. rewrite Hy. simpl Z.b2z.
  destruct (Z.le_gt_cases (4 * k) (4 * b + 2 * 0 + y)).
  - rewrite Z.mod_small by lia.
    destruct (Z.ltb_spec (4 * b + 2 * 0 + y - 4 * k) (2 ^ 63)); [|lia]. rewrite Z.ltb_lt. lia.
  - rewrite <-(Z.mod_unique_pos _ _ (-1) (4 * b + 2 * 0 + y - 4 * k + 2 ^ 64)) by lia.
    destruct (Z.ltb_spec (4 * b + 2 * 0 + y - 4 * k + 2 ^ 64) (2 ^ 63)); [lia|]. rewrite Z.ltb_lt. lia.
Qed.

(** ** The agreement on batches *)

Definition hz st c : bool := Z.testbit (hazard (cpus st c)) 4.

(** CPU [c] has not yet passed a quiescent state in batch [b]. *)
Definition pending st (b : Z) c : bool := negb (l_batch (cpus st c) =? b) || hz st c.

Definition count_pending st (b : Z) : Z :=
  Z.of_nat (length (filter (λ c, pending st b c = true) (seq 0 online))).

Record sinv (b : Z) (p q : bool) st : Prop := {
  si_state : gstate st = flags b p q;
  si_range : 0 ≤ b < 2 ^ 61;
  si_word : ∀ c, word 64 (hazard (cpus st c));
  si_lbatch : ∀ c, (c < online)%nat → 0 ≤ l_batch (cpus st c) ≤ b;
  si_hz : ∀ c, (c < online)%nat → hz st c = true → l_batch (cpus st c) = b;
  si_count : gcount st = count_pending st b;
  si_cmp : q = true ↔ gcount st = 0;
}.

Lemma pending_ext st st' b c :
  l_batch (cpus st' c) = l_batch (cpus st c) → hazard (cpus st' c) = hazard (cpus st c) →
  pending st' b c = pending st b c.
Proof. unfold pending, hz. by intros -> ->. Qed.

Lemma count_pending_ext st st' b b' :
  (∀ c, (c < online)%nat → pending st' b' c = pending st b c) → count_pending st' b' = count_pending st b.
Proof.
  intros Hp. unfold count_pending. do 2 f_equal. apply filter_ext_in.
  intros c Hc%elem_of_seq. rewrite Hp by lia. done.
Qed.

Lemma sinv_sync b p q st st' : same_sync st st' → sinv b p q st → sinv b p q st'.
Proof.
  intros (H1 & H2 & H3) [I1 I2 I3 I4 I5 I6 I7].
  assert (∀ c, pending st' b c = pending st b c) as Hp by (intros c; apply pending_ext; apply H3).
  split; try congruence.
  - intros c. destruct (H3 c) as (_ & _ & ->). done.
  - intros c Hc. destruct (H3 c) as (-> & _). auto.
  - intros c Hc Hh. destruct (H3 c) as (-> & _ & E). apply I5; [done|]. unfold hz in *. by rewrite <-E.
  - rewrite H2, I6. symmetry. by apply count_pending_ext.
Qed.

Lemma none_pending st b c : count_pending st b = 0 → (c < online)%nat → pending st b c = false.
Proof.
  unfold count_pending. intros H0 Hc. apply not_true_is_false. intros Hp.
  assert (c ∈ filter (λ c, pending st b c = true) (seq 0 online)) as Hin.
  { apply list_elem_of_filter. split; [done|]. apply elem_of_seq. lia. }
  destruct (filter _ _); [by apply elem_of_nil in Hin|]. simpl in H0. lia.
Qed.

Lemma all_pending st b :
  (∀ c, (c < online)%nat → pending st b c = true) → count_pending st b = Z.of_nat online.
Proof.
  intros Hp. unfold count_pending. f_equal. rewrite <-(length_seq online 0) at 2. f_equal.
  assert (∀ l : list nat, (∀ c, c ∈ l → pending st b c = true) → filter (λ c, pending st b c = true) l = l) as Hf.
  { induction l as [|x l IH]; intros Hl; [done|]. rewrite filter_cons_True by (apply Hl; left).
    f_equal. apply IH. intros c Hc. apply Hl. by right. }
  apply Hf. intros c Hc%elem_of_seq. apply Hp. lia.
Qed.

(** Removing one pending CPU. *)
Lemma count_pending_remove st st' b c :
  (c < online)%nat → pending st b c = true → pending st' b c = false →
  (∀ i, i ≠ c → pending st' b i = pending st b i) → count_pending st' b = count_pending st b - 1.
Proof.
  intros Hc H1 H2 Hoth. unfold count_pending.
  assert (∀ l : list nat, NoDup l → c ∈ l →
    length (filter (λ c, pending st b c = true) l) = S (length (filter (λ c, pending st' b c = true) l))) as Hl.
  { induction l as [|x l IH]; [by intros _ ?%elem_of_nil|].
    intros [Hx Hnd]%list.NoDup_cons Hin. destruct (decide (x = c)) as [->|Hxc].
    - rewrite filter_cons_True, filter_cons_False by congruence. simpl. do 2 f_equal. apply filter_ext_in.
      intros i Hi. rewrite Hoth; [done|]. by intros ->.
    - apply elem_of_cons in Hin as [->|Hin]; [done|]. specialize (IH Hnd Hin).
      destruct (pending st b x) eqn:E.
      + rewrite !filter_cons_True by (rewrite ?Hoth; done). simpl. by rewrite IH.
      + rewrite !filter_cons_False by (rewrite ?Hoth by done; congruence). done. }
  rewrite Hl; [lia|apply NoDup_seq|apply elem_of_seq; lia].
Qed.

(** What [start_batch] does, by CPU [c] that has seen batch [b]; [p'] and [q']
    are the flags with the caller's flag raised. *)
Lemma start_batch_advance b st c s :
  0 ≤ b < 2 ^ 61 - 1 → (s = RCU_PND ∧ gstate st = flags b false true) ∨ (s = RCU_CMP ∧ gstate st = flags b true false) →
  l_batch (cpus st c) = b →
  start_batch c s st = set_gstate (flags (b + 1) false false) (set_gcount (Z.of_nat online) st).
Proof.
  intros Hb Hs Hl. unfold start_batch.
  destruct Hs as [[-> Hs]|[-> Hs]]; rewrite Hs, flags_batch, Hl, Z.eqb_refl.
  - rewrite flags_land_small, flags_test by (auto; unfold RCU_PND; lia). unfold cmp_swap.
    rewrite decide_True, flags_lor_pnd by done. simpl. rewrite wadd_small; unfold flags; simpl Z.b2z; [|lia].
    unfold set_gstate. simpl. f_equal. lia.
  - rewrite flags_land_small, flags_test by (auto; unfold RCU_CMP; lia). unfold cmp_swap.
    rewrite decide_True, flags_lor_cmp by done. simpl. rewrite wadd_small; unfold flags; simpl Z.b2z; [|lia].
    unfold set_gstate. simpl. f_equal. lia.
Qed.

Lemma start_pnd_stays b p q st c :
  gstate st = flags b p q → p = true ∨ q = false → l_batch (cpus st c) = b →
  start_batch c RCU_PND st = set_gstate (flags b true q) st.
Proof.
  intros Hs Hpq Hl. unfold start_batch. rewrite Hs, flags_batch, Hl, Z.eqb_refl.
  rewrite flags_land_small, flags_test by (auto; unfold RCU_PND; lia). unfold cmp_swap.
  rewrite decide_True, flags_lor_pnd by done. destruct st; unfold set_gstate; simpl in *; subst.
  by destruct p, q; simpl; destruct Hpq.
Qed.

Lemma start_cmp_stays b st c :
  gstate st = flags b false false → l_batch (cpus st c) = b →
  start_batch c RCU_CMP st = set_gstate (flags b false true) st.
Proof.
  intros Hs Hl. unfold start_batch. rewrite Hs, flags_batch, Hl, Z.eqb_refl.
  rewrite flags_land_small, flags_test by (auto; unfold RCU_CMP; lia). unfold cmp_swap.
  by rewrite decide_True, flags_lor_cmp by done.
Qed.

Hypothesis online_pos : (0 < online)%nat.
Hypothesis online_small : Z.of_nat online < 2 ^ 32.

(** The elements waiting in [curr] on CPU [c] wait for batch [c_batch]: every
    CPU that is through with that batch was quiescent since they were queued. *)
Definition cinv (b : Z) (ls : cpu_id * which → list elem) st : Prop :=
  ∀ c e, e ∈ ls (c, LCurr) →
    let k := c_batch (cpus st c) in
    0 ≤ k ≤ b + 1 ∧
    ∀ j, (j < online)%nat → k < b ∨ (k = b ∧ pending st b j = false) → quiesced j e (trace st).

(** A batch that no CPU is pending in can be followed by the next. *)
Lemma advance_inv b p q ls st :
  sinv b p q st → b + 1 < 2 ^ 61 → cinv b ls st → (∀ j, (j < online)%nat → pending st b j = false) →
  let st' := set_gstate (flags (b + 1) false false) (set_gcount (Z.of_nat online) st) in
  sinv (b + 1) false false st' ∧ cinv (b + 1) ls st'.
Proof.
  intros [I1 I2 I3 I4 I5 I6 I7] Hb HC Hnp st'.
  assert (∀ j, (j < online)%nat → l_batch (cpus st j) = b ∧ hz st j = false) as Hnp'.
  { intros j Hj. specialize (Hnp j Hj). unfold pending in Hnp. apply orb_false_iff in Hnp as [Hn1 Hn2].
    apply negb_false_iff, Z.eqb_eq in Hn1. done. }
  assert (∀ j, (j < online)%nat → pending st' (b + 1) j = true) as Hp.
  { intros j Hj. unfold pending. simpl. rewrite (proj1 (Hnp' j Hj)).
    apply orb_true_iff. left. apply negb_true_iff, Z.eqb_neq. lia. }
  split.
  - split; try done; simpl.
    + lia.
    + intros c Hc. specialize (I4 c Hc). lia.
    + intros c Hc Hh. change (hz st' c) with (hz st c) in Hh. destruct (Hnp' c Hc). congruence.
    + by rewrite all_pending.
    + split; [done|lia].
  - intros c e He. destruct (HC c e He) as [Hk HQ]. simpl. split; [lia|].
    intros j Hj [Hlt|[_ Hpj]]; [|by rewrite Hp in Hpj].
    apply HQ; [done|]. destruct (decide (c_batch (cpus st c) = b)); [right; auto|left; lia].
Qed.

Lemma start_pnd_inv b p q ls st c :
  sinv b p q st → b + 1 < 2 ^ 61 → cinv b ls st → l_batch (cpus st c) = b →
  ∃ b' p' q', sinv b' p' q' (start_batch c RCU_PND st) ∧ cinv b' ls (start_batch c RCU_PND st) ∧
    cpus (start_batch c RCU_PND st) = cpus st ∧ enext (start_batch c RCU_PND st) = enext st ∧
    trace (start_batch c RCU_PND st) = trace st.
Proof.
  intros HS Hb HC Hl. destruct (decide (p = false ∧ q = true)) as [[-> ->]|Hpq].
  - exists (b + 1), false, false.
    assert (∀ j, (j < online)%nat → pending st b j = false) as Hnp.
    { intros j Hj. apply none_pending; [|done]. rewrite <-(si_count _ _ _ _ HS). by apply (si_cmp _ _ _ _ HS). }
    pose proof (si_range _ _ _ _ HS).
    rewrite (start_batch_advance b); [|lia|left; split; [done|apply HS]|done].
    destruct (advance_inv b false true ls st) as [H1 H2]; auto.
  - exists b, true, q. rewrite (start_pnd_stays b p q); [|apply HS|destruct p, q; intuition congruence|done].
    split; [|split; [|done]].
    + destruct HS as [I1 I2 I3 I4 I5 I6 I7]. by split.
    + intros c' e He. by apply HC.
Qed.

Lemma hz_word h : word 64 h → word 64 (clr_mask h HZD_RCU) ∧ word 64 (set_mask h HZD_RCU) ∧
  Z.testbit (clr_mask h HZD_RCU) 4 = false ∧ Z.testbit (set_mask h HZD_RCU) 4 = true.
Proof.
  intros Hw. split_and!.
  - unfold clr_mask. by apply land_word_l.
  - by apply set_mask_word.
  - rewrite clr_mask_bits by (done || lia). by rewrite andb_false_r.
  - unfold set_mask. rewrite Z.lor_spec. by rewrite orb_true_r.
Qed.

Lemma upd_cpu_same st c f c' : c' ≠ c → cpus (upd_cpu c f st) c' = cpus st c'.
Proof. intros. simpl. by rewrite fn_lookup_insert_ne. Qed.

Lemma upd_cpu_at st c f : cpus (upd_cpu c f st) c = f (cpus st c).
Proof. simpl. by rewrite fn_lookup_insert. Qed.

(** [Rcu::quiet] on a CPU that owes a quiescent state. *)
Lemma quiet_inv b p q ls st c :
  sinv b p q st → b + 1 < 2 ^ 61 → cinv b ls st → (c < online)%nat → hz st c = true →
  ∃ b' p' q', sinv b' p' q' (quiet c st) ∧ cinv b' ls (quiet c st).
Proof.
  intros HS Hb HC Hc Hh. pose proof HS as [I1 I2 I3 I4 I5 I6 I7].
  destruct (hz_word _ (I3 c)) as (W1 & _ & W2 & _).
  unfold quiet. set (st1 := log (Quiet c) _).
  assert (l_batch (cpus st1 c) = b ∧ hazard (cpus st1 c) = clr_mask (hazard (cpus st c)) HZD_RCU) as [Hl1 Hh1].
  { unfold st1. simpl. rewrite fn_lookup_insert. simpl. auto. }
  assert (∀ i, i ≠ c → cpus st1 i = cpus st i) as Hoth.
  { intros i Hi. unfold st1. simpl. by rewrite fn_lookup_insert_ne. }
  assert (pending st b c = true) as Hpc by (unfold pending; rewrite Hh; apply orb_true_r).
  assert (pending st1 b c = false) as Hpc1.
  { unfold pending, hz. by rewrite Hl1, Hh1, W2, Z.eqb_refl. }
  assert (∀ i, i ≠ c → pending st1 b i = pending st b i) as Hpi.
  { intros i Hi. by apply pending_ext; rewrite Hoth. }
  assert (count_pending st1 b = count_pending st b - 1) as Hcnt by by apply (count_pending_remove st st1 b c).
  assert (0 ≤ count_pending st1 b ∧ count_pending st b ≤ Z.of_nat online) as [Hge Hle].
  { split; [unfold count_pending; lia|]. unfold count_pending. apply inj_le.
    etransitivity; [apply length_filter|]. by rewrite length_seq. }
  assert (gcount st1 = count_pending st1 b) as Hg1.
  { change (gcount st1) with (wsub (gcount st) 1). rewrite I6, wsub_small; lia. }
  assert (q = false) as -> by (apply not_true_is_false; intros ->; pose proof (proj1 I7 eq_refl); lia).
  assert (cinv b ls st1) as HC1.
  { intros c' e He. destruct (HC c' e He) as [Hk HQ].
    assert (c_batch (cpus st1 c') = c_batch (cpus st c')) as ->.
    { destruct (decide (c' = c)) as [->|]; [|by rewrite Hoth]. unfold st1. simpl. by rewrite fn_lookup_insert. }
    split; [done|]. intros j Hj Hcase. simpl. destruct (decide (c = j)) as [->|Hcj]; [by left|right].
    apply HQ; [done|]. rewrite Hpi in Hcase by congruence. done. }
  assert (∀ q', (q' = true ↔ gcount st1 = 0) → gstate st1 = flags b p q' ∨ q' = true →
    sinv b p q' (set_gstate (flags b p q') st1)) as HS1.
  { intros q' Hq' Hs1. split; try done.
    - intros i. simpl. destruct (decide (i = c)) as [->|]; [|rewrite fn_lookup_insert_ne by done; apply I3].
      rewrite fn_lookup_insert. done.
    - intros i Hi. change (cpus (set_gstate _ st1)) with (cpus st1).
      destruct (decide (i = c)) as [->|]; [rewrite Hl1; lia|rewrite Hoth by done; auto].
    - intros i Hi. change (hz (set_gstate _ st1)) with (hz st1). change (cpus (set_gstate _ st1)) with (cpus st1).
      destruct (decide (i = c)) as [->|]; [done|]. unfold hz. rewrite Hoth by done. by apply I5. }
  assert (gstate st1 = flags b p false) as Hs1 by done.
  destruct (Z.eqb_spec (gcount st1) 0) as [H0|H0].
  - assert (∀ j, (j < online)%nat → pending st1 b j = false) as Hnp
      by (intros j Hj; apply none_pending; [congruence|done]).
    destruct p.
    + rewrite (start_batch_advance b); [|lia|by right|done].
      exists (b + 1), false, false.
      apply (advance_inv b true true ls (set_gstate (flags b true true) st1)); [|done|done|done].
      apply (HS1 true); [done|by right].
    + rewrite (start_cmp_stays b) by done. exists b, false, true. split; [|done].
      apply (HS1 true); [done|by right].
  - exists b, p, false. split; [|done]. assert (st1 = set_gstate (flags b p false) st1) as ->.
    { rewrite <-Hs1. by destruct st1. }
    apply HS1; [split; [done|congruence]|by left].
Qed.

(** ** One step of a CPU keeps the invariant *)

Record ginv (ls : cpu_id * which → list elem) st : Prop := {
  gi_lists : linv (λ _, True) [] ls st;
  gi_done : ∀ c, ls (c, LDone) = [];
  gi_sync : ∃ b p q, sinv b p q st ∧ cinv b ls st;
  gi_good : good_trace (trace st);
}.

Lemma linv_ext P X ls st st' :
  (∀ c w, get_list st' c w = get_list st c w) → enext st' = enext st → linv P X ls st → linv P X ls st'.
Proof.
  intros Hg He [L1 L2 L3 L4 L5]. split; [done|done| | |].
  - intros p Hp. apply (rep_frame st); [apply Hg|by rewrite He|by apply L3].
  - rewrite He. done.
  - rewrite He. done.
Qed.

Lemma list_empty_spec ls st c w :
  linv (λ _, True) [] ls st → list_empty st c w = bool_decide (ls (c, w) = []).
Proof.
  intros HL. pose proof (li_rep _ _ _ _ HL (c, w) I) as HR. unfold list_empty, rep in *. simpl in HR.
  destruct (ls (c, w)) as [|x m].
  - destruct HR as [-> ->]. by rewrite !bool_decide_true.
  - destruct HR as (-> & -> & _). by rewrite !bool_decide_false.
Qed.

Lemma note_batch_lists c st c' w : get_list (note_batch c st) c' w = get_list st c' w.
Proof.
  unfold note_batch. destruct (_ =? _); [done|]. unfold get_list. simpl.
  destruct (decide (c = c')) as [->|]; [by rewrite fn_lookup_insert; simpl; rewrite fn_lookup_insert|].
  by rewrite !fn_lookup_insert_ne.
Qed.

Lemma note_batch_inv b p q ls c st :
  sinv b p q st → cinv b ls st → (c < online)%nat →
  sinv b p q (note_batch c st) ∧ cinv b ls (note_batch c st) ∧ l_batch (cpus (note_batch c st) c) = b ∧
  enext (note_batch c st) = enext st ∧ trace (note_batch c st) = trace st.
Proof.
  intros HS HC Hc. pose proof HS as [I1 I2 I3 I4 I5 I6 I7].
  unfold note_batch. unfold batch. rewrite I1, flags_batch. destruct (Z.eqb_spec (l_batch (cpus st c)) b) as [|Hne]; [done|].
  set (st1 := upd_hazard _ _ _).
  destruct (hz_word _ (I3 c)) as (_ & W1 & _ & W2).
  assert (cpus st1 c = Percpu b (c_batch (cpus st c)) (lists (cpus st c)) (set_mask (hazard (cpus st c)) HZD_RCU)) as Hat.
  { unfold st1. simpl. by rewrite !fn_lookup_insert. }
  assert (∀ i, i ≠ c → cpus st1 i = cpus st i) as Hoth.
  { intros i Hi. unfold st1. simpl. by rewrite !fn_lookup_insert_ne. }
  assert (∀ i, pending st1 b i = pending st b i) as Hp.
  { intros i. destruct (decide (i = c)) as [->|]; [|by apply pending_ext; rewrite Hoth].
    unfold pending, hz. rewrite Hat. cbn [l_batch hazard]. rewrite W2, orb_true_r.
    by destruct (Z.eqb_spec (l_batch (cpus st c)) b). }
  split_and!; [|intros c' e He|by rewrite Hat|done|done].
  - split; try done.
    + intros i. destruct (decide (i = c)) as [->|]; [by rewrite Hat|by rewrite Hoth].
    + intros i Hi. destruct (decide (i = c)) as [->|]; [rewrite Hat; simpl; lia|rewrite Hoth by done; auto].
    + intros i Hi. destruct (decide (i = c)) as [->|]; [by rewrite Hat|]. unfold hz. rewrite Hoth by done. by apply I5.
    + change (gcount st1) with (gcount st). rewrite I6. symmetry. by apply count_pending_ext.
  - assert (c_batch (cpus st1 c') = c_batch (cpus st c')) as ->.
    { destruct (decide (c' = c)) as [->|]; [by rewrite Hat|by rewrite Hoth]. }
    destruct (HC c' e He) as [Hk HQ]. split; [done|]. intros j Hj. rewrite Hp. by apply HQ.
Qed.

Lemma hurry_trace c st :
  same_sync st (hurry c st) ∧ (∀ c' w, get_list (hurry c st) c' w = get_list st c' w) ∧
  enext (hurry c st) = enext st ∧ (good_trace (trace st) → good_trace (trace (hurry c st))) ∧
  ∀ j e, quiesced j e (trace (hurry c st)) ↔ quiesced j e (trace st).
Proof.
  unfold hurry. generalize (seq 0 online). intros l. revert st.
  induction l as [|i l IH]; intros st; simpl; [by split_and!|].
  destruct (bool_decide (i = c)); [apply IH|].
  destruct (IH (log (Ipi i) st)) as (H1 & H2 & H3 & H4 & H5). split_and!; try done.
  intros Hg. apply H4. simpl. by apply good_trace_cons.
Qed.

(** What holds between the parts of [update] on CPU [c]: the elements on
    [done] have waited long enough. *)
Record mid (b : Z) (p q : bool) c (ls : cpu_id * which → list elem) st : Prop := {
  md_lists : linv (λ _, True) [] ls st;
  md_done : ∀ i, i ≠ c → ls (i, LDone) = [];
  md_sync : sinv b p q st;
  md_cinv : cinv b ls st;
  md_good : good_trace (trace st);
  md_ready : ∀ e j, e ∈ ls (c, LDone) → (j < online)%nat → quiesced j e (trace st);
}.

Lemma cinv_lists b ls ls' st st' :
  same_sync st st' → trace st' = trace st → (∀ c e, e ∈ ls' (c, LCurr) → e ∈ ls (c, LCurr)) →
  cinv b ls st → cinv b ls' st'.
Proof.
  intros (_ & _ & H3) Ht Hin HC c e He%Hin. destruct (HC c e He) as [Hk HQ].
  destruct (H3 c) as (_ & -> & _). split; [done|]. intros j Hj. rewrite Ht.
  rewrite (pending_ext st st') by apply H3. by apply HQ.
Qed.

Lemma update_done b p q c ls st :
  mid b p q c ls st → ls (c, LDone) = [] → (c < online)%nat →
  ∃ ls', mid b p q c ls' (retire_curr c st) ∧
    l_batch (cpus (retire_curr c st) c) = l_batch (cpus st c) ∧
    (length (ls' (c, LDone)) ≤ length (ls (c, LCurr)))%nat.
Proof.
  intros HM Hd Hc. pose proof HM as [M1 M2 M3 M4 M5 M6]. unfold retire_curr.
  rewrite (list_empty_spec ls) by done. case_bool_decide as He; simpl.
  { exists ls. rewrite Hd. split_and!; [done|done|simpl; lia]. }
  destruct (complete _ _) eqn:Hcomp; [|exists ls; rewrite Hd; split_and!; [done|done|simpl; lia]].
  pose proof (append_sync st c LDone LCurr) as HSy. pose proof (append_trace st c LDone LCurr) as HTr.
  exists (replace_lists (replace_lists ls (c, LDone) (ls (c, LDone) ++ ls (c, LCurr))) (c, LCurr) []).
  rewrite Hd. split_and!.
  - split.
    + pose proof (append_linv ls st c LDone LCurr M1 ltac:(done) ltac:(done) He) as Ha. by rewrite Hd in Ha.
    + intros i Hi. unfold replace_lists. rewrite !fn_lookup_insert_ne by congruence. by apply M2.
    + by eapply sinv_sync.
    + eapply cinv_lists; [done|done| |done].
      intros c' e [[_ ?%elem_of_nil]|[_ [[? _]|[_ ?]]%elem_replace]]%elem_replace; done.
    + by rewrite HTr.
    + intros e j. rewrite HTr. unfold replace_lists. rewrite fn_lookup_insert_ne, fn_lookup_insert by done.
      simpl. intros Hin Hj. destruct (M4 c e Hin) as [Hk HQ]. apply HQ; [done|].
      pose proof (si_range _ _ _ _ M3). apply (complete_spec b p q) in Hcomp; [|apply M3|done|].
      * destruct Hcomp as [|[Hkb ->]]; [by left|right]. split; [done|].
        apply none_pending; [|done]. rewrite <-(si_count _ _ _ _ M3). by apply (si_cmp _ _ _ _ M3).
      * destruct (decide (c_batch (cpus st c) < 2 ^ 61)); [lia|]. exfalso.
        assert (b = 2 ^ 61 - 1 ∧ c_batch (cpus st c) = 2 ^ 61) as [-> Hcb] by lia.
        revert Hcomp. unfold complete. rewrite Hcb, (si_state _ _ _ _ M3).
        clear. destruct p, q; vm_compute; done.
  - destruct HSy as (_ & _ & HSy). by destruct (HSy c) as (-> & _).
  - unfold replace_lists. rewrite fn_lookup_insert_ne, fn_lookup_insert by done. done.
Qed.

Lemma update_curr b p q c ls st :
  mid b p q c ls st → b + 1 < 2 ^ 61 → (c < online)%nat → l_batch (cpus st c) = b →
  ∃ b' p' q' ls', mid b' p' q' c ls' (take_next c st) ∧ ls' (c, LDone) = ls (c, LDone).
Proof.
  intros HM Hb Hc Hl. pose proof HM as [M1 M2 M3 M4 M5 M6]. unfold take_next.
  rewrite !(list_empty_spec ls) by done. case_bool_decide as He; simpl; [|by exists b, p, q, ls].
  case_bool_decide as Hn; simpl; [by exists b, p, q, ls|].
  pose proof (append_sync st c LCurr LNext) as HSy. pose proof (append_trace st c LCurr LNext) as HTr.
  pose proof (append_linv ls st c LCurr LNext M1 ltac:(done) ltac:(done) Hn) as HL1.
  set (ls1 := replace_lists (replace_lists ls (c, LCurr) (ls (c, LCurr) ++ ls (c, LNext))) (c, LNext) []) in *.
  set (st1 := list_append c LCurr LNext st) in *. set (st2 := upd_cpu c _ st1).
  assert (sinv b p q st1) as HS1 by by eapply sinv_sync.
  assert (l_batch (cpus st1 c) = b) as Hl1 by (destruct HSy as (_ & _ & HSy); by destruct (HSy c) as (-> & _)).
  assert (∀ i, l_batch (cpus st2 i) = l_batch (cpus st1 i) ∧ hazard (cpus st2 i) = hazard (cpus st1 i) ∧
               (i ≠ c → c_batch (cpus st2 i) = c_batch (cpus st1 i))) as H2.
  { intros i. unfold st2. simpl. destruct (decide (c = i)) as [->|]; [by rewrite fn_lookup_insert|by rewrite fn_lookup_insert_ne]. }
  assert (c_batch (cpus st2 c) = b + 1) as Hcb.
  { unfold st2. rewrite upd_cpu_at. cbn [c_batch]. rewrite Hl1.
    pose proof (si_range _ _ _ _ M3). rewrite wadd_small; lia. }
  assert (sinv b p q st2) as HS2.
  { destruct HS1 as [I1 I2 I3 I4 I5 I6 I7]. split; try done.
    - intros i. destruct (H2 i) as (_ & -> & _). done.
    - intros i Hi. destruct (H2 i) as (-> & _). auto.
    - intros i Hi. unfold hz. destruct (H2 i) as (-> & -> & _). by apply I5.
    - change (gcount st2) with (gcount st1). rewrite I6. apply count_pending_ext.
      intros i Hi. symmetry. apply pending_ext; apply H2. }
  assert (cinv b ls1 st2) as HC2.
  { pose proof (si_range _ _ _ _ M3). intros i e Hin. destruct (decide (i = c)) as [->|Hi].
    - rewrite Hcb. simpl. split; [lia|]. intros j Hj [?|[? _]]; lia.
    - assert (e ∈ ls (i, LCurr)) as Hin'.
      { apply elem_replace in Hin as [[_ ?%elem_of_nil]|[_ [[? _]|[_ ?]]%elem_replace]]; [done|congruence|done]. }
      destruct (M4 i e Hin') as [Hk HQ]. destruct HSy as (_ & _ & HSy).
      destruct (H2 i) as (_ & _ & Hcbi). rewrite (Hcbi Hi). destruct (HSy i) as (_ & -> & _). split; [done|].
      intros j Hj. change (trace st2) with (trace st1). rewrite HTr.
      rewrite (pending_ext st1 st2) by apply H2. rewrite (pending_ext st st1) by apply HSy. by apply HQ. }
  destruct (start_pnd_inv b p q ls1 st2 c HS2 Hb HC2) as (b' & p' & q' & S1 & S2 & S3 & S4 & S5).
  { by rewrite (proj1 (H2 c)). }
  exists b', p', q', ls1. split.
  - split; try done.
    + apply (linv_ext _ _ _ st1); [|by rewrite S4|done].
      intros i w. unfold get_list. rewrite S3. unfold st2. simpl.
      destruct (decide (c = i)) as [->|]; [by rewrite fn_lookup_insert|by rewrite fn_lookup_insert_ne].
    + intros i Hi. unfold ls1, replace_lists. rewrite !fn_lookup_insert_ne by congruence. by apply M2.
    + rewrite S5. change (trace st2) with (trace st1). by rewrite HTr.
    + intros e j. rewrite S5. change (trace st2) with (trace st1). rewrite HTr.
      unfold ls1, replace_lists. rewrite !fn_lookup_insert_ne by congruence. apply M6.
  - unfold ls1, replace_lists. by rewrite !fn_lookup_insert_ne by congruence.
Qed.

Lemma hurry_mid b p q check c ls st : mid b p q c ls st → mid b p q c ls (hurry_if check c st).
Proof.
  intros HM. unfold hurry_if. destruct (_ && _ && _ && _); [|done].
  destruct (hurry_trace c st) as (U1 & U2 & U3 & U4 & U5). destruct HM as [N1 N2 N3 N4 N5 N6]. split; auto.
  - by apply (linv_ext _ _ _ st).
  - by eapply sinv_sync.
  - intros i e Hin. destruct (N4 i e Hin) as [Hk HQ]. destruct U1 as (_ & _ & U1).
    destruct (U1 i) as (_ & -> & _). split; [done|]. intros j Hj. rewrite U5.
    rewrite (pending_ext st) by apply U1. by apply HQ.
  - intros e j. rewrite U5. apply N6.
Qed.

Lemma update_inv check fuel c ls st :
  ginv ls st → gstate st < 2 ^ 62 → (c < online)%nat → (length (ls (c, LCurr)) ≤ fuel)%nat →
  ∃ ls' st', update check fuel c st = Some st' ∧ ginv ls' st'.
Proof.
  intros [G1 G2 (b & p & q & HS & HC) G4] Hsm Hc Hf.
  assert (b + 1 < 2 ^ 61) as Hb.
  { rewrite (si_state _ _ _ _ HS) in Hsm. unfold flags in Hsm. destruct p, q; simpl Z.b2z in Hsm; lia. }
  unfold update.
  destruct (note_batch_inv b p q ls c st HS HC Hc) as (S1 & C1 & Hl & En & Tr).
  assert (mid b p q c ls (note_batch c st)) as M1.
  { split; try done.
    - apply (linv_ext _ _ _ st); [apply note_batch_lists|done|done].
    - by rewrite Tr.
    - intros e j. rewrite G2. by intros ?%elem_of_nil. }
  destruct (update_done b p q c ls _ M1 (G2 c) Hc) as (ls2 & M2 & Hl2 & Hlen). rewrite Hl in Hl2.
  destruct (update_curr b p q c ls2 _ M2 Hb Hc Hl2) as (b' & p' & q' & ls3 & M3 & Hd3).
  apply (hurry_mid _ _ _ check) in M3. set (st4 := hurry_if _ _ _) in *.
  clearbody st4. destruct M3 as [N1 N2 N3 N4 N5 N6].
  rewrite (list_empty_spec ls3) by done. case_bool_decide as Hde; simpl.
  { exists ls3, st4. split; [done|]. split; [done| |by exists b', p', q'|done].
    intros i. destruct (decide (i = c)) as [->|]; [done|by apply N2]. }
  destruct (invoke_batch_spec c ls3 st4 fuel) as (ls5 & st5 & -> & V1 & V2 & V3 & V4 & V5 & V6);
    [done|rewrite Hd3; lia|done|done|].
  exists ls5, st5. split; [done|]. split; [done| | |done].
  - intros i. destruct (decide (i = c)) as [->|]; [done|]. rewrite V5 by congruence. by apply N2.
  - exists b', p', q'. split; [by eapply sinv_sync|].
    intros i e Hin. rewrite V5 in Hin by congruence. destruct (N4 i e Hin) as [Hk HQ].
    destruct V3 as (_ & _ & V3). destruct (V3 i) as (_ & -> & _). split; [done|].
    intros j Hj. rewrite (pending_ext st4) by apply V3. intros Hcase. apply (V6 j e (i, LCurr)); [done|done|].
    by apply HQ.
Qed.

(** The CPUs interleave calls, quiescent states they owe, and updates.  The
    bound on [state] leaves 2^60 batches before the word could wrap. *)
Inductive rcu_step : rcu → rcu → Prop :=
  | step_call c e st : (c < online)%nat → gstate st < 2 ^ 62 → rcu_step st (call c e st).2
  | step_quiet c st : (c < online)%nat → gstate st < 2 ^ 62 → hz st c = true → rcu_step st (quiet c st)
  | step_update check fuel c st st' :
      (c < online)%nat → gstate st < 2 ^ 62 → update check fuel c st = Some st' → rcu_step st st'.

Definition rcu_init : rcu :=
  RcuState RCU_CMP 0 (λ c, Percpu 0 0 (λ w, Rcu_list Null (Head c w) 0) 0) (λ _, Null) [].

Lemma init_ginv : ginv (λ _, []) rcu_init.
Proof.
  split; [|done| |].
  - split; try done; [intros; constructor|by intros p q e ?%elem_of_nil|by intros e ?%elem_of_nil].
  - exists 0, false, true. split; [|by intros c e ?%elem_of_nil].
    assert (count_pending rcu_init 0 = 0) as Hcp.
    { unfold count_pending. rewrite filter_none; [done|]. intros c _. done. }
    by split; try rewrite Hcp.
  - intros tr1 e tr2 Heq. by destruct tr1.
Qed.

Lemma invoke_loop_mono fuel fuel' c x st st' :
  (fuel ≤ fuel')%nat → invoke_loop fuel c x st = Some st' → invoke_loop fuel' c x st = Some st'.
Proof.
  revert fuel' x st. induction fuel as [|fuel IH]; intros fuel' x st Hf; [done|].
  destruct fuel' as [|fuel']; [lia|]. simpl. destruct x; try done.
  destruct (bool_decide _); [done|]. apply IH. lia.
Qed.

Lemma update_mono check fuel fuel' c st st' :
  (fuel ≤ fuel')%nat → update check fuel c st = Some st' → update check fuel' c st = Some st'.
Proof.
  intros Hf. unfold update, invoke_batch. destruct (negb (list_empty _ c LDone)); [|done].
  destruct (bool_decide _); [done|]. destruct (invoke_loop fuel _ _ _) eqn:E; [|done].
  by rewrite (invoke_loop_mono _ _ _ _ _ _ Hf E).
Qed.

Lemma step_ginv ls st st' : ginv ls st → rcu_step st st' → ∃ ls', ginv ls' st'.
Proof.
  intros HG Hs. destruct Hs as [c e st Hc Hb|c st Hc Hb Hh|check fuel c st st' Hc Hb Hu].
  - destruct HG as [G1 G2 (b & p & q & HS & HC) G4].
    destruct (call_spec (λ _, True) [] ls c e st) as [ls' [D1 D2 D3 D4 D5 (l & D6 & D7)]]; [done|done|by left|].
    exists ls'. split; [done| | |].
    + intros i. by rewrite D3.
    + exists b, p, q. split; [by eapply sinv_sync|].
      intros i a Ha. rewrite D3 in Ha by done. destruct (HC i a Ha) as [Hk HQ].
      pose proof D2 as (_ & _ & D2'). destruct (D2' i) as (_ & -> & _). split; [done|].
      intros j Hj. rewrite (pending_ext st) by apply D2'. rewrite D6.
      rewrite quiesced_called; [by apply HQ|]. intros Hal. destruct (D7 a Hal) as [_ Hno].
      by apply (Hno (i, LCurr)).
    + rewrite D6. by apply good_trace_called.
  - destruct HG as [G1 G2 (b & p & q & HS & HC) G4]. exists ls.
    assert (b + 1 < 2 ^ 61).
    { rewrite (si_state _ _ _ _ HS) in Hb. unfold flags in Hb. destruct p, q; simpl Z.b2z in Hb; lia. }
    destruct (quiet_inv b p q ls st c) as (b' & p' & q' & Q); try done.
    assert (trace (quiet c st) = Quiet c :: trace st ∧ enext (quiet c st) = enext st ∧
            ∀ i w, get_list (quiet c st) i w = get_list st i w) as (T1 & T2 & T3).
    { assert (∀ s, trace (start_batch c RCU_CMP s) = trace s ∧ enext (start_batch c RCU_CMP s) = enext s ∧
                   cpus (start_batch c RCU_CMP s) = cpus s) as Hst.
      { intros s. unfold start_batch. by repeat case_match. }
      unfold quiet. set (s := log (Quiet c) _).
      assert (∀ i w, get_list s i w = get_list st i w) as Hs.
      { intros i w. unfold s, get_list. simpl. destruct (decide (c = i)) as [->|];
          [by rewrite fn_lookup_insert|by rewrite fn_lookup_insert_ne]. }
      destruct (gcount s =? 0); [|done]. destruct (Hst s) as (-> & -> & E). split_and!; [done|done|].
      intros i w. unfold get_list. rewrite E. apply Hs. }
    split; [|done|by exists b', p', q'|].
    + by apply (linv_ext _ _ _ st).
    + rewrite T1. by apply good_trace_cons.
  - destruct (update_inv check (fuel + length (ls (c, LCurr))) c ls st) as (ls' & st2 & Hu2 & HG2); [done|done|done|lia|].
    exists ls'. rewrite (update_mono check fuel (fuel + length (ls (c, LCurr))) c st st' ltac:(lia) Hu) in Hu2. by simplify_eq.
Qed.

Lemma reachable_ginv st : rtc rcu_step rcu_init st → ∃ ls, ginv ls st.
Proof.
  intros Hr. remember rcu_init as s0 eqn:E. assert (∃ ls, ginv ls s0) as H0 by (subst; eexists; apply init_ginv).
  clear E. induction Hr as [|x y z Hs _ IH]; [done|]. apply IH. destruct H0 as [ls HG]. by eapply step_ginv.
Qed.
End rcu.

(** C10: The RCU grace period: in every interleaving of calls, quiescent states
    and updates of the CPUs, whenever a callback is invoked, every CPU online
    passed a quiescent state after the element was last handed to
    [Rcu::call]. *)
Theorem rcu_grace_period online spawn st tr1 e tr2 j :
  (0 < online)%nat → Z.of_nat online < 2 ^ 32 →
  rtc (rcu_step online spawn) rcu_init st →
  trace st = tr1 ++ Invoked e :: tr2 → (j < online)%nat → quiesced j e tr2.
Proof.
  intros Hpos Hsm Hr Htr Hj. destruct (reachable_ginv online spawn Hpos Hsm st Hr) as [ls HG].
  by apply (gi_good _ _ _ HG tr1 e tr2 Htr j).
Qed.

(** C29: [Rcu::update] terminates in every reachable state and never follows a
    null pointer: with enough fuel it returns. *)
Theorem rcu_update_total online spawn check c st :
  (0 < online)%nat → Z.of_nat online < 2 ^ 32 →
  rtc (rcu_step online spawn) rcu_init st → gstate st < 2 ^ 62 → (c < online)%nat →
  ∃ n, ∀ fuel, (n ≤ fuel)%nat → is_Some (update online spawn check fuel c st).
Proof.
  intros Hpos Hsm Hr Hb Hc. destruct (reachable_ginv online spawn Hpos Hsm st Hr) as [ls HG].
  exists (length (ls (c, LCurr))). intros fuel Hf.
  destruct (update_inv online spawn Hpos check fuel c ls st HG Hb Hc Hf) as (ls' & st' & -> & _). by exists st'.
Qed.

(** Reference counters: [add_ref] succeeds exactly on live objects,
    [del_ref] reports the last reference, and [del_rcu] never takes the counter
    of a live object to zero: whoever drops the last reference keeps it for the
    deferred destruction. *)
Theorem refcount_spec r :
  0 ≤ r < 2 ^ 32 - 1 →
  add_ref r = (if decide (r = 0) then (false, 0) else (true, r + 1)) ∧
  (0 < r → del_ref r = (bool_decide (r = 1), r - 1)) ∧
  (0 < r → del_rcu r = (if decide (r = 1) then (true, 1) else (false, r - 1))).
Proof.
  intros Hr. assert (wrap 32 (r + 1) = r + 1) as Hw by (apply wrap_small; unfold word; lia).
  assert (0 < r → wrap 32 (r - 1) = r - 1) as Hw1 by (intros; apply wrap_small; unfold word; lia).
  split_and!.
  - unfold add_ref, cmp_swap. rewrite Hw, decide_True by done.
    by destruct (Z.eqb_spec r 0) as [->|]; case_decide.
  - intros Hp. unfold del_ref. rewrite Hw1 by done. f_equal.
    destruct (Z.eqb_spec (r - 1) 0); [by rewrite bool_decide_true by lia|by rewrite bool_decide_false by lia].
  - intros Hp. unfold del_rcu, last_ref, del_ref. rewrite Hw1 by done.
    destruct (Z.eqb_spec r 1) as [->|]; [done|]. rewrite decide_False by done.
    destruct (Z.eqb_spec (r - 1) 0); [lia|done].
Qed.

Lemma refcount_spec_witness : add_ref 1 = (true, 2) ∧ del_rcu 2 = (false, 1) ∧ del_rcu 1 = (true, 1).
Proof.
  split; [apply (refcount_spec 1); lia|].
  split; [apply (refcount_spec 2); lia|apply (refcount_spec 1); lia].
Defined.

(** Two CPUs: CPU 0 queues element 5 (whose destruction queues 6), starts a
    batch, both CPUs take note and pass a quiescent state, and CPU 0 invokes. *)
Definition demo_spawn (e : elem) : list elem := if decide (e = 5%nat) then [6%nat] else [].

Definition demo1 : rcu := (call 0 5 rcu_init).2.
Definition demo2 : rcu := default rcu_init (update 2 demo_spawn true 3 0 demo1).
Definition demo3 : rcu := default rcu_init (update 2 demo_spawn true 3 1 demo2).
Definition demo4 : rcu := default rcu_init (update 2 demo_spawn true 3 0 demo3).
Definition demo5 : rcu := quiet 2 1 (quiet 2 0 demo4).
Definition demo6 : rcu := default rcu_init (update 2 demo_spawn true 3 0 demo5).

Lemma demo_run : rtc (rcu_step 2 demo_spawn) rcu_init demo6.
Proof.
  eapply rtc_l; [apply (step_call 2 demo_spawn 0 5); [lia|done]|].
  eapply rtc_l; [apply (step_update 2 demo_spawn true 3 0 _ demo2); [lia|done|vm_compute; reflexivity]|].
  eapply rtc_l; [apply (step_update 2 demo_spawn true 3 1 _ demo3); [lia|done|vm_compute; reflexivity]|].
  eapply rtc_l; [apply (step_update 2 demo_spawn true 3 0 _ demo4); [lia|done|vm_compute; reflexivity]|].
  eapply rtc_l; [apply (step_quiet 2 demo_spawn 0); [lia|done|done]|].
  eapply rtc_l; [apply (step_quiet 2 demo_spawn 1); [lia|done|done]|].
  eapply rtc_l; [apply (step_update 2 demo_spawn true 3 0 _ demo6); [lia|done|vm_compute; reflexivity]|].
  apply rtc_refl.
Qed.

Lemma rcu_grace_period_witness :
  trace demo6 = [Called 6] ++ Invoked 5 :: [Quiet 1; Quiet 0; Called 5]%nat ∧
  quiesced 1 5 [Quiet 1; Quiet 0; Called 5]%nat.
Proof.
  assert (trace demo6 = [Called 6] ++ Invoked 5 :: [Quiet 1; Quiet 0; Called 5]%nat) as Ht by (vm_compute; reflexivity).
  split; [done|]. apply (rcu_grace_period 2 demo_spawn demo6 [Called 6%nat] 5 _ 1); [lia|done|apply demo_run|done|lia].
Defined.

Lemma rcu_update_total_witness :
  ∃ n, ∀ fuel, (n ≤ fuel)%nat → is_Some (update 2 demo_spawn true fuel 0 demo6).
Proof. apply (rcu_update_total 2 demo_spawn true 0 demo6); [lia|done|apply demo_run|vm_compute; done|lia]. Defined.
