(* ===== verification/Timeout.v ===== *)
(** The timeout queue of a CPU: [Timeout::enqueue], [dequeue], [check], [sync].

    Active timeouts form a doubly linked list sorted by deadline, linked through
    the objects, and the local APIC timer is programmed for the earliest one.
    The timer is the value last passed to [Lapic::set_timer]; the clock is a
    sequence of readings of [Lapic::time].  A triggered timeout is logged:
    [Timeout_budget::trigger] raises a hazard and [Timeout_hypercall::trigger]
    wakes an EC, neither touches the queue. *)
From S2P Require Import Prelude Queue.
Local Open Scope Z_scope.

Record timeouts := Timeouts {
  tl : links;
  ttime : obj → Z;
  tlist : option obj;
  timer : Z;
  triggered : list obj;
  reads : nat;
}.

Implicit Types (T : timeouts) (t : obj).

Definition set_links (L : links) T : timeouts :=
  Timeouts L (ttime T) (tlist T) (timer T) (triggered T) (reads T).
Definition set_list (x : option obj) T : timeouts :=
  Timeouts (tl T) (ttime T) x (timer T) (triggered T) (reads T).
Definition set_time t (x : Z) T : timeouts :=
  Timeouts (tl T) (<[t := x]> (ttime T)) (tlist T) (timer T) (triggered T) (reads T).
Definition set_timer (x : Z) T : timeouts :=
  Timeouts (tl T) (ttime T) (tlist T) x (triggered T) (reads T).

Definition active t T : bool :=
  negb (bool_decide (prev (tl T) t = None)) || bool_decide (tlist T = Some t).

(** The search loop of [enqueue]; the fuel bounds the length of the list. *)
Fixpoint find_pos (fuel : nat) (time : Z) (p n : option obj) T : option (option obj) :=
  match fuel with
  | O => None
  | S fuel =>
    match n with
    | None => Some p
    | Some x => if time <=? ttime T x then Some p else find_pos fuel time n (next (tl T) x) T
    end
  end.

(** The end of [enqueue]: link [t] behind [p], or to the front, and to the
    successor. *)
Definition link_after (p : option obj) t T : timeouts :=
  let T := set_links (set_prev t p (tl T)) T in
  match p with
  | None => set_timer (ttime T t) (set_list (Some t) (set_links (set_next t (tlist T) (tl T)) T))
  | Some x =>
    let T := set_links (set_next t (next (tl T) x) (tl T)) T in
    set_links (set_next x (Some t) (tl T)) T
  end.

Definition link_succ t T : timeouts :=
  match next (tl T) t with
  | Some n => set_links (set_prev n (Some t) (tl T)) T
  | None => T
  end.

Definition enqueue (fuel : nat) t (time : Z) T : option timeouts :=
  if bool_decide (prev (tl T) t = None) && bool_decide (next (tl T) t = None) then
    let T := set_time t time T in
    p ← find_pos fuel time None (tlist T) T;
    Some (link_succ t (link_after p t T))
  else None.

(** The parts of [dequeue]: link the neighbours of [t] to each other. *)
Definition unlink_succ t T : timeouts :=
  match next (tl T) t with
  | Some n => set_links (set_prev n (prev (tl T) t) (tl T)) T
  | None => T
  end.

Definition unlink_pred t T : timeouts :=
  match prev (tl T) t with
  | Some p => set_links (set_next p (next (tl T) t) (tl T)) T
  | None =>
    let T := set_list (next (tl T) t) T in
    match tlist T with Some h => set_timer (ttime T h) T | None => T end
  end.

Definition dequeue t T : Z * timeouts :=
  let T := if active t T then unlink_pred t (unlink_succ t T) else T in
  let T := set_links (set_prev t None (set_next t None (tl T))) T in
  (ttime T t, T).

Definition timeout_destroy t T : timeouts := if active t T then (dequeue t T).2 else T.

Section clock.
Context (clock : nat → Z).

Definition lapic_time T : Z * timeouts :=
  (clock (reads T), Timeouts (tl T) (ttime T) (tlist T) (timer T) (triggered T) (S (reads T))).

Definition trigger t T : timeouts :=
  Timeouts (tl T) (ttime T) (tlist T) (timer T) (triggered T ++ [t]) (reads T).

Fixpoint check_loop (fuel : nat) T : option timeouts :=
  match fuel with
  | O => None
  | S fuel =>
    match tlist T with
    | None => Some T
    | Some t =>
      let '(now, T) := lapic_time T in
      if ttime T t <=? now then check_loop fuel (trigger t (dequeue t T).2) else Some T
    end
  end.

Definition check (fuel : nat) T : option timeouts :=
  let prev_list := tlist T in
  T ← check_loop fuel T;
  match tlist T with
  | Some h => Some (if bool_decide (Some h = prev_list) then set_timer (ttime T h) T else T)
  | None => Some T
  end.
End clock.

Definition sync T : timeouts :=
  match tlist T with Some h => set_timer (ttime T h) T | None => T end.

(** ** The queue as a sorted list *)

Definition first (l : list obj) (n : option obj) : option obj :=
  match l with [] => n | x :: _ => Some x end.
Fixpoint final (p : option obj) (l : list obj) : option obj :=
  match l with [] => p | x :: l => final (Some x) l end.

(** The members of [l] are linked in order, between [p] and [n]. *)
Fixpoint dchain (L : links) (p : option obj) (l : list obj) (n : option obj) : Prop :=
  match l with
  | [] => True
  | x :: l => prev L x = p ∧ next L x = first l n ∧ dchain L (Some x) l n
  end.

Fixpoint sorted (f : obj → Z) (l : list obj) : Prop :=
  match l with
  | [] => True
  | x :: l => (∀ y, y ∈ l → f x ≤ f y) ∧ sorted f l
  end.

(** The invariant: list [l] in order of deadlines, everything else unlinked, and
    the timer programmed for the head. *)
Record tinv (l : list obj) T : Prop := {
  ti_nodup : NoDup l;
  ti_head : tlist T = first l None;
  ti_chain : dchain (tl T) None l None;
  ti_sorted : sorted (ttime T) l;
  ti_out : ∀ t, t ∉ l → next (tl T) t = None ∧ prev (tl T) t = None;
  ti_timer : ∀ h l', l = h :: l' → timer T = ttime T h;
}.

(** Insertion before the first member with the same or a later deadline. *)
Fixpoint insert_before (f : obj → Z) t (time : Z) (l : list obj) : list obj :=
  match l with
  | [] => [t]
  | x :: l => if time <=? f x then t :: x :: l else x :: insert_before f t time l
  end.

Lemma dchain_frame L L' p l n :
  (∀ a, a ∈ l → prev L' a = prev L a ∧ next L' a = next L a) → dchain L p l n → dchain L' p l n.
Proof.
  revert p. induction l as [|x l IH]; intros p Hf; simpl; [done|].
  intros (H1 & H2 & H3). destruct (Hf x ltac:(left)) as [-> ->]. split_and!; [done|done|].
  apply IH; [|done]. intros a Ha. apply Hf. by right.
Qed.

Lemma dchain_app L p l1 l2 n :
  dchain L p (l1 ++ l2) n ↔ dchain L p l1 (first l2 n) ∧ dchain L (final p l1) l2 n.
Proof.
  revert p. induction l1 as [|y l1 IH]; intros p; simpl; [tauto|].
  rewrite IH. destruct l1; simpl; tauto.
Qed.

Lemma final_snoc p l x : final p (l ++ [x]) = Some x.
Proof. revert p. by induction l; simpl. Qed.

Lemma first_app l l' n : first (l ++ l') n = first l (first l' n).
Proof. by destruct l. Qed.

(** Changing the neighbour at either end. *)
Lemma dchain_end L L' p l n n' :
  NoDup l → (∀ a, a ∈ l → prev L' a = prev L a) →
  (∀ a, a ∈ l → Some a ≠ final p l → next L' a = next L a) →
  (∀ z, z ∈ l → final p l = Some z → next L' z = n') → dchain L p l n → dchain L' p l n'.
Proof.
  destruct l as [|z l _] using rev_ind; [done|]. rewrite final_snoc. intros (_ & Hd & _)%list.NoDup_app Hp Hn Hz.
  rewrite !dchain_app. simpl. intros [H1 (H2 & H3 & _)].
  assert (∀ a, a ∈ l → a ≠ z) as Hne by (intros a Ha ->; apply (Hd z Ha); left).
  split.
  - eapply dchain_frame; [|exact H1]. intros a Ha.
    rewrite Hp, Hn by (try (apply elem_of_app; by left); intros [=]; by apply (Hne a)). done.
  - split_and!; [rewrite Hp by (apply elem_of_app; right; left); done| |done].
    apply Hz; [apply elem_of_app; right; left|done].
Qed.

Lemma dchain_start L L' p p' l n :
  NoDup l → (∀ a, a ∈ l → next L' a = next L a) →
  (∀ a, a ∈ l → Some a ≠ first l None → prev L' a = prev L a) →
  (∀ z, first l None = Some z → prev L' z = p') → dchain L p l n → dchain L' p' l n.
Proof.
  destruct l as [|z l]; [done|]. intros [Hz _]%list.NoDup_cons Hn Hp Hf (H1 & H2 & H3). simpl.
  split_and!; [by apply Hf|rewrite Hn by left; done|].
  eapply dchain_frame; [|exact H3]. intros a Ha.
  rewrite Hp, Hn by (try (by right); simpl; intros [=]; by subst). done.
Qed.

Lemma find_pos_spec f fuel time p n T l :
  (length l < fuel)%nat → n = first l None → dchain (tl T) p l None → (∀ a, a ∈ l → ttime T a = f a) →
  ∃ l1 l2, l = l1 ++ l2 ∧ find_pos fuel time p n T = Some (final p l1) ∧
    (∀ a, a ∈ l1 → f a < time) ∧ (∀ a l', l2 = a :: l' → time ≤ f a) ∧
    ∀ t, insert_before f t time l = l1 ++ t :: l2.
Proof.
  revert fuel p n. induction l as [|x l IH]; intros fuel p n Hf -> Hc Ht;
    (destruct fuel as [|fuel]; [simpl in Hf; lia|]); simpl.
  { exists [], []. split_and!; try done. by intros a ?%elem_of_nil. }
  rewrite (Ht x) by left. destruct (Z.leb_spec time (f x)).
  - exists [], (x :: l). split_and!; try done; [by intros a ?%elem_of_nil|]. by intros a l' [= <- _].
  - destruct Hc as (H1 & H2 & H3).
    destruct (IH fuel (Some x) (next (tl T) x)) as (l1 & l2 & -> & Hfp & Hlt & Hge & Hins); try done.
    + simpl in Hf. lia.
    + intros a Ha. apply Ht. by right.
    + exists (x :: l1), l2. split_and!; try done.
      * intros a [->|Ha]%elem_of_cons; auto.
      * intros t. simpl. by rewrite Hins.
Qed.

Lemma sorted_app f l1 l2 :
  sorted f (l1 ++ l2) ↔ sorted f l1 ∧ sorted f l2 ∧ ∀ a b, a ∈ l1 → b ∈ l2 → f a ≤ f b.
Proof.
  induction l1 as [|x l1 IH]; simpl.
  { split; [|tauto]. intros. split_and!; [done|done|]. by intros a b ?%elem_of_nil. }
  rewrite IH. split.
  - intros (H1 & H2 & H3 & H4). split_and!; try done.
    + intros y Hy. apply H1, elem_of_app. by left.
    + intros a b [->|Ha]%elem_of_cons Hb; [apply H1, elem_of_app; by right|auto].
  - intros ((H1 & H2) & H3 & H4). split_and!; try done.
    + intros y [Hy|Hy]%elem_of_app; [auto|apply H4; [left|done]].
    + intros a b Ha. apply H4. by right.
Qed.

Lemma sorted_ext f g l : (∀ a, a ∈ l → g a = f a) → sorted f l → sorted g l.
Proof.
  induction l as [|x l IH]; intros Hfg; simpl; [done|]. intros [H1 H2]. split.
  - intros y Hy. rewrite !Hfg by (left || by right). auto.
  - apply IH; [|done]. intros a Ha. apply Hfg. by right.
Qed.

(** Linking [t] between [l1] and [l2]. *)
Lemma dchain_insert L L' t l1 l2 :
  NoDup (l1 ++ l2) → t ∉ l1 ++ l2 → dchain L None (l1 ++ l2) None →
  prev L' t = final None l1 → next L' t = first l2 None →
  (∀ a, a ≠ t → prev L' a = if decide (Some a = first l2 None) then Some t else prev L a) →
  (∀ a, a ≠ t → next L' a = if decide (Some a = final None l1) then Some t else next L a) →
  dchain L' None (l1 ++ t :: l2) None.
Proof.
  intros Hnd Ht Hc Hpt Hnt Hp Hn. apply dchain_app in Hc as [C1 C2]. apply dchain_app. simpl.
  apply list.NoDup_app in Hnd as (N1 & N12 & N2). rewrite not_elem_of_app in Ht. destruct Ht as [T1 T2].
  assert (∀ a, a ∈ l1 → a ≠ t) as Hat1 by (intros a Ha ->; done).
  assert (∀ a, a ∈ l2 → a ≠ t) as Hat2 by (intros a Ha ->; done).
  assert (∀ a, Some a = first l2 None → a ∈ l2) as F2 by (destruct l2; [done|]; intros a [= ->]; left).
  assert (∀ a, Some a = final None l1 → a ∈ l1) as F1.
  { destruct l1 as [|z l1 _] using rev_ind; [done|]. rewrite final_snoc. intros a [= ->].
    apply elem_of_app. right. left. }
  split; [|split_and!; [done|done|]].
  - eapply dchain_end; [done| | |  |exact C1].
    + intros a Ha. rewrite Hp, decide_False; [done| |by apply Hat1]. intros Hf%F2. by apply (N12 a).
    + intros a Ha Hne. rewrite Hn, decide_False; [done|done|by apply Hat1].
    + intros z Hz Hf. rewrite Hn, decide_True by (try done; by apply Hat1). done.
  - eapply dchain_start; [done| | | |exact C2].
    + intros a Ha. rewrite Hn, decide_False; [done| |by apply Hat2]. intros Hf%F1. by apply (N12 a).
    + intros a Ha Hne. rewrite Hp, decide_False; [done|done|by apply Hat2].
    + intros z Hz. rewrite Hp, decide_True by (try done; apply Hat2, F2; done). done.
Qed.

Lemma final_in a l : Some a = final None l → a ∈ l.
Proof.
  destruct l as [|z l _] using rev_ind; [done|]. rewrite final_snoc. intros [= ->].
  apply elem_of_app. right. left.
Qed.

Lemma first_in a l : Some a = first l None → a ∈ l.
Proof. destruct l; [done|]. intros [= ->]. left. Qed.

Lemma link_after_spec t l1 l2 T :
  t ∉ l1 ++ l2 → dchain (tl T) None (l1 ++ l2) None → tlist T = first (l1 ++ l2) None →
  let T1 := link_after (final None l1) t T in
  next (tl T1) t = first l2 None ∧ prev (tl T1) t = final None l1 ∧
  (∀ a, a ≠ t → prev (tl T1) a = prev (tl T) a) ∧
  (∀ a, a ≠ t → next (tl T1) a = if decide (Some a = final None l1) then Some t else next (tl T) a) ∧
  ttime T1 = ttime T ∧ tlist T1 = first (l1 ++ [t]) None ∧
  timer T1 = (if decide (l1 = []) then ttime T t else timer T) ∧
  triggered T1 = triggered T ∧ reads T1 = reads T.
Proof.
  intros Ht Hc Hh T1. rewrite first_app in Hh. unfold T1, link_after.
  destruct l1 as [|z l1 _] using rev_ind; simpl.
  - rewrite !fn_lookup_insert, Hh. split_and!; try done; intros a Ha; by rewrite !fn_lookup_insert_ne.
  - rewrite final_snoc. simpl. apply dchain_app in Hc as [Hc _]. apply dchain_app in Hc as [_ (_ & Hz & _)].
    assert (z ≠ t) as Hzt by (intros ->; apply Ht, elem_of_app; left; apply elem_of_app; right; left).
    rewrite fn_lookup_insert_ne, !fn_lookup_insert, Hz by done. simpl in Hz.
    split_and!; try done.
    + intros a Ha. by rewrite !fn_lookup_insert_ne.
    + intros a Ha. destruct (decide (a = z)) as [->|]; [by rewrite fn_lookup_insert, decide_True|].
      rewrite !fn_lookup_insert_ne, decide_False by congruence. done.
    + rewrite Hh. by destruct l1.
    + rewrite decide_False; [done|]. by destruct l1.
Qed.

Lemma link_succ_spec t l2 T :
  t ∉ l2 → next (tl T) t = first l2 None →
  let T2 := link_succ t T in
  next (tl T2) = next (tl T) ∧ ttime T2 = ttime T ∧ tlist T2 = tlist T ∧ timer T2 = timer T ∧
  triggered T2 = triggered T ∧ reads T2 = reads T ∧ prev (tl T2) t = prev (tl T) t ∧
  (∀ a, a ≠ t → prev (tl T2) a = if decide (Some a = first l2 None) then Some t else prev (tl T) a).
Proof.
  intros Ht Hn T2. unfold T2, link_succ. rewrite Hn. destruct l2 as [|n l2]; simpl; split_and!; try done.
  - rewrite fn_lookup_insert_ne; [done|]. intros ->. apply Ht. left.
  - intros a Ha. destruct (decide (a = n)) as [->|]; [by rewrite fn_lookup_insert, decide_True|].
    by rewrite fn_lookup_insert_ne, decide_False by congruence.
Qed.

Lemma sorted_insert f t l1 l2 :
  sorted f (l1 ++ l2) → (∀ a, a ∈ l1 → f a < f t) → (∀ a l', l2 = a :: l' → f t ≤ f a) →
  sorted f (l1 ++ t :: l2).
Proof.
  rewrite !sorted_app. simpl. intros (S1 & S2 & S3) Hlt Hge. split_and!; try done.
  - intros y Hy. destruct l2 as [|a l2]; [by apply elem_of_nil in Hy|]. specialize (Hge a l2 eq_refl).
    apply elem_of_cons in Hy as [->|Hy]; [done|]. destruct S2 as [S2 _]. specialize (S2 y Hy). lia.
  - intros a b Ha [->|Hb]%elem_of_cons; [|by apply S3]. specialize (Hlt a Ha). lia.
Qed.

Lemma enqueue_tinv fuel l t time T :
  tinv l T → t ∉ l → (length l < fuel)%nat →
  ∃ T', enqueue fuel t time T = Some T' ∧ tinv (insert_before (ttime T) t time l) T' ∧
        ttime T' = <[t := time]> (ttime T) ∧ triggered T' = triggered T ∧ reads T' = reads T.
Proof.
  intros [I1 I2 I3 I4 I5 I6] Ht Hf. destruct (I5 t Ht) as [Hnt Hpt].
  unfold enqueue. rewrite Hnt, Hpt, !bool_decide_true by done. cbn [andb].
  assert (∀ a, a ∈ l → <[t := time]> (ttime T) a = ttime T a) as Htt.
  { intros a Ha. rewrite fn_lookup_insert_ne; [done|]. by intros <-. }
  destruct (find_pos_spec (ttime T) fuel time None (tlist T) (set_time t time T) l)
    as (l1 & l2 & -> & Hfp & Hlt & Hge & Hins); try done.
  change (tlist (set_time t time T)) with (tlist T). rewrite Hfp. cbn [mbind option_bind]. rewrite Hins.
  destruct (link_after_spec t l1 l2 (set_time t time T) Ht I3 I2) as (A1 & A2 & A3 & A4 & A5 & A6 & A7 & A8 & A9).
  set (T1 := link_after _ _ _) in *. clearbody T1.
  assert ((t ∉ l1) ∧ (t ∉ l2)) as [Ht1 Ht2] by (by rewrite <-not_elem_of_app).
  destruct (link_succ_spec t l2 T1 Ht2 A1) as (B1 & B2 & B3 & B4 & B5 & B6 & B7 & B8).
  set (T2 := link_succ t T1) in *. clearbody T2. simpl in A3, A4, A5, A7, A8, A9.
  exists T2. split; [done|]. rewrite B2, B5, B6. split; [|done]. split.
  - apply list.NoDup_app in I1 as (N1 & N12 & N2). apply list.NoDup_app. split_and!; [done| |by constructor].
    intros a Ha [->|Ha']%elem_of_cons; [tauto|by apply (N12 a)].
  - rewrite B3, A6. by destruct l1.
  - apply (dchain_insert (tl T)); try done; rewrite ?B1, ?B7; try done.
    intros a Ha. rewrite B8, A3 by done. done.
  - rewrite B2, A5. apply sorted_insert; rewrite ?fn_lookup_insert.
    + by eapply sorted_ext.
    + intros a Ha. rewrite Htt by (apply elem_of_app; by left). auto.
    + intros a l' ->. rewrite Htt by (apply elem_of_app; right; left). eauto.
  - intros a Ha. rewrite B1. rewrite elem_of_app, elem_of_cons in Ha.
    rewrite A4, B8, A3, !decide_False by (try tauto; (intros ?%first_in || intros ?%final_in); tauto).
    apply I5. rewrite elem_of_app. tauto.
  - intros h l' Heq. rewrite B4, B2, A5, A7. destruct l1 as [|x l1]; simplify_eq/=.
    + by rewrite fn_lookup_insert.
    + rewrite Htt by left. by eapply I6.
Qed.

(** Unlinking a member. *)
Lemma unlink_succ_spec t l1 l2 T :
  t ∉ l2 → next (tl T) t = first l2 None → prev (tl T) t = final None l1 →
  let T1 := unlink_succ t T in
  next (tl T1) = next (tl T) ∧ prev (tl T1) t = final None l1 ∧
  (∀ a, prev (tl T1) a = if decide (Some a = first l2 None) then final None l1 else prev (tl T) a) ∧
  ttime T1 = ttime T ∧ tlist T1 = tlist T ∧ timer T1 = timer T ∧
  triggered T1 = triggered T ∧ reads T1 = reads T.
Proof.
  intros Nt Cn Cp T1. unfold T1, unlink_succ. rewrite Cn, Cp.
  destruct l2 as [|n l2]; simpl; split_and!; try done.
  - rewrite fn_lookup_insert_ne; [done|]. intros ->. apply Nt. left.
  - intros a. destruct (decide (a = n)) as [->|]; [by rewrite fn_lookup_insert, decide_True|].
    by rewrite fn_lookup_insert_ne, decide_False by congruence.
Qed.

Lemma unlink_pred_spec t l1 l2 T :
  next (tl T) t = first l2 None → prev (tl T) t = final None l1 → tlist T = first l1 (Some t) →
  (∀ h l', l1 = h :: l' → timer T = ttime T h) →
  let T2 := unlink_pred t T in
  prev (tl T2) = prev (tl T) ∧
  (∀ a, next (tl T2) a = if decide (Some a = final None l1) then first l2 None else next (tl T) a) ∧
  ttime T2 = ttime T ∧ tlist T2 = first (l1 ++ l2) None ∧
  (∀ h l', l1 ++ l2 = h :: l' → timer T2 = ttime T h) ∧
  triggered T2 = triggered T ∧ reads T2 = reads T.
Proof.
  intros Cn Cp Hh Htm T2. unfold T2, unlink_pred. rewrite Cn, Cp.
  destruct l1 as [|z l1 _] using rev_ind; simpl.
  - destruct l2 as [|h l2]; simpl; split_and!; try done. by intros ? ? [= <- _].
  - rewrite final_snoc, first_app. simpl. split_and!; try done.
    + intros a. destruct (decide (a = z)) as [->|]; [by rewrite fn_lookup_insert, decide_True|].
      by rewrite fn_lookup_insert_ne, decide_False by congruence.
    + rewrite Hh. by destruct l1.
    + intros h l' Heq. destruct l1 as [|y l1]; simplify_eq/=; by eapply Htm.
Qed.

(** Removing [t] from between [l1] and [l2]. *)
Lemma dchain_remove L L' t l1 l2 :
  NoDup (l1 ++ t :: l2) → dchain L None (l1 ++ t :: l2) None →
  (∀ a, a ≠ t → prev L' a = if decide (Some a = first l2 None) then final None l1 else prev L a) →
  (∀ a, a ≠ t → next L' a = if decide (Some a = final None l1) then first l2 None else next L a) →
  dchain L' None (l1 ++ l2) None.
Proof.
  intros (N1 & N12 & [Nt N2]%list.NoDup_cons)%list.NoDup_app [C1 (Cp & Cn & C2)]%dchain_app Hp Hn.
  assert (∀ a, a ∈ l1 → a ≠ t) as E1 by (intros a Ha ->; apply (N12 t Ha); left).
  assert (∀ a, a ∈ l2 → a ≠ t) as E2 by (by intros a Ha ->).
  assert (∀ a, a ∈ l1 → a ∉ l2) as N3 by (intros a Ha Ha2; apply (N12 a Ha); by right).
  apply dchain_app. split.
  - eapply dchain_end; [done| | | |exact C1].
    + intros a Ha. rewrite Hp, decide_False by (try (by apply E1); intros ?%first_in; by apply (N3 a)). done.
    + intros a Ha Hne. by rewrite Hn, decide_False by (done || by apply E1).
    + intros z Hz Hfz. by rewrite Hn, decide_True by (done || by apply E1).
  - eapply dchain_start; [done| | | |exact C2].
    + intros a Ha. rewrite Hn, decide_False by (try (by apply E2); intros ?%final_in; by apply (N3 a)). done.
    + intros a Ha Hne. by rewrite Hp, decide_False by (done || by apply E2).
    + intros z Hz. by rewrite Hp, decide_True by (done || by apply E2, first_in).
Qed.

Lemma dequeue_tinv l1 t l2 T :
  tinv (l1 ++ t :: l2) T →
  ∃ T', dequeue t T = (ttime T t, T') ∧ tinv (l1 ++ l2) T' ∧
        ttime T' = ttime T ∧ triggered T' = triggered T ∧ reads T' = reads T.
Proof.
  intros [I1 I2 I3 I4 I5 I6]. pose proof I3 as I3'. apply dchain_app in I3' as [C1 (Cp & Cn & C2)].
  pose proof I1 as I1'. apply list.NoDup_app in I1' as (N1 & N12 & [Nt N2]%list.NoDup_cons).
  rewrite first_app in I2. unfold dequeue.
  assert (active t T = true) as ->.
  { unfold active. rewrite Cp, I2. destruct l1 as [|z l1 _] using rev_ind; [simpl; by rewrite bool_decide_true|].
    by rewrite final_snoc, bool_decide_false. }
  destruct (unlink_succ_spec t l1 l2 T Nt Cn Cp) as (A1 & A2 & A3 & A4 & A5 & A6 & A7 & A8).
  set (T1 := unlink_succ t T) in *. clearbody T1.
  destruct (unlink_pred_spec t l1 l2 T1) as (B1 & B2 & B3 & B4 & B5 & B6 & B7);
    [by rewrite A1|done|by rewrite A5, I2| |].
  { intros h l' ->. rewrite A6, A4. by eapply I6. }
  set (T2 := unlink_pred t T1) in *. clearbody T2.
  eexists. split; [simpl; by rewrite B3, A4|]. simpl. split; [|by rewrite B3, B6, B7].
  split; simpl; rewrite ?B3, ?A4; try done.
  - apply list.NoDup_app. split_and!; try done. intros a Ha Ha2. apply (N12 a Ha). by right.
  - apply (dchain_remove (tl T) _ t); [done|done|..]; intros a Ha; simpl; rewrite fn_lookup_insert_ne by done.
    + by rewrite B1, A3.
    + by rewrite B2, A1.
  - apply sorted_app in I4 as (S1 & [_ S2] & S3). apply sorted_app. split_and!; try done.
    intros a b Ha Hb. apply S3; [done|by right].
  - intros a Ha. destruct (decide (a = t)) as [->|]; [by rewrite !fn_lookup_insert|].
    rewrite !fn_lookup_insert_ne by done. rewrite elem_of_app in Ha.
    rewrite B1, B2, A1, A3, !decide_False by ((intros ?%first_in || intros ?%final_in); tauto).
    apply I5. rewrite elem_of_app, elem_of_cons. tauto.
  - intros h l' Heq. rewrite <-A4. by eapply B5.
Qed.

Lemma dequeue_inactive l t T :
  tinv l T → t ∉ l → ∃ T', dequeue t T = (ttime T t, T') ∧ tinv l T' ∧ triggered T' = triggered T.
Proof.
  intros [I1 I2 I3 I4 I5 I6] Ht. destruct (I5 t Ht) as [Hn Hp]. unfold dequeue.
  assert (active t T = false) as ->.
  { unfold active. rewrite Hp, bool_decide_true, bool_decide_false; [done| |done].
    intros Hh. rewrite I2 in Hh. by apply Ht, first_in. }
  eexists. split; [done|]. split; [|done]. split; simpl; try done.
  - eapply dchain_frame; [|exact I3]. intros a Ha. simpl. rewrite !fn_lookup_insert_ne by (by intros <-). done.
  - intros a Ha. destruct (decide (a = t)) as [->|]; [by rewrite !fn_lookup_insert|].
    rewrite !fn_lookup_insert_ne by done. by apply I5.
Qed.

(** C31: The timeout queue implements a list sorted by deadline: [enqueue] of an
    inactive timeout places it before the first one that is not earlier,
    [dequeue] returns the deadline and removes the timeout wherever it is, on
    an inactive one it changes nothing, and the timer always stands at the
    earliest deadline. *)
Theorem timeouts_refine_sorted fuel l T :
  tinv l T → (length l < fuel)%nat →
  (∀ t time, t ∉ l → ∃ T', enqueue fuel t time T = Some T' ∧
     tinv (insert_before (ttime T) t time l) T' ∧ ttime T' = <[t := time]> (ttime T)) ∧
  (∀ l1 t l2, l = l1 ++ t :: l2 →
     ∃ T', dequeue t T = (ttime T t, T') ∧ tinv (l1 ++ l2) T' ∧ ttime T' = ttime T) ∧
  (∀ t, t ∉ l → ∃ T', dequeue t T = (ttime T t, T') ∧ tinv l T').
Proof.
  intros HT Hf. split_and!.
  - intros t time Ht. destruct (enqueue_tinv fuel l t time T HT Ht Hf) as (T' & ? & ? & ? & _). eauto.
  - intros l1 t l2 ->. destruct (dequeue_tinv _ _ _ _ HT) as (T' & ? & ? & ? & _). eauto.
  - intros t Ht. destruct (dequeue_inactive _ _ _ HT Ht) as (T' & ? & ? & _). eauto.
Qed.

(** ** Expiry *)

#[local] Opaque dequeue.

Lemma check_loop_spec clock fuel l T :
  tinv l T → (length l < fuel)%nat → (∀ i, clock i ≤ clock (S i)) →
  ∃ l1 l2 T', l = l1 ++ l2 ∧ check_loop clock fuel T = Some T' ∧ tinv l2 T' ∧ ttime T' = ttime T ∧
    triggered T' = triggered T ++ l1 ∧
    (∀ t, t ∈ l1 → ttime T t ≤ clock (pred (reads T'))) ∧
    (∀ t, t ∈ l2 → clock (reads T) < ttime T t ∧ clock (pred (reads T')) < ttime T t) ∧
    (reads T ≤ reads T')%nat ∧ (l ≠ [] → reads T < reads T')%nat.
Proof.
  intros HT Hf Hmono. revert l T HT Hf. induction fuel as [|fuel IH]; intros l T HT Hf; [lia|]. simpl.
  assert (∀ i j, (i ≤ j)%nat → clock i ≤ clock j) as Hmon.
  { intros i j Hij. induction Hij; [lia|]. etransitivity; [done|apply Hmono]. }
  rewrite (ti_head _ _ HT). destruct l as [|t l]; simpl.
  { exists [], [], T. split_and!; try done; try lia; try by rewrite app_nil_r. all: by intros t ?%elem_of_nil. }
  set (T0 := Timeouts _ _ _ _ _ _).
  assert (tinv (t :: l) T0) as HT0 by (destruct HT as [I1 I2 I3 I4 I5 I6]; by split).
  destruct (Z.leb_spec (ttime T t) (clock (reads T))) as [Hle|Hgt].
  - destruct (dequeue_tinv [] t l T0 HT0) as (T1 & Hd & HT1 & Htt & Htr & Hrd).
    fold T0. rewrite Hd. simpl. set (T2 := trigger t T1).
    assert (tinv l T2) as HT2 by (destruct HT1 as [I1 I2 I3 I4 I5 I6]; by split).
    destruct (IH l T2 HT2) as (l1 & l2 & T' & -> & Hc & HT' & Htt' & Htr' & Hl1 & Hl2 & Hrd' & Hne).
    { simpl in Hf. lia. }
    assert (ttime T2 = ttime T) as E1 by done. assert (reads T2 = S (reads T)) as E2 by done.
    rewrite E1 in Htt', Hl1, Hl2. rewrite E2 in Hrd', Hne, Hl2.
    exists (t :: l1), l2, T'. split_and!; try done.
    + rewrite Htr'. simpl. by rewrite Htr, <-app_assoc.
    + intros a [->|Ha]%elem_of_cons; [|by apply Hl1]. etransitivity; [done|]. apply Hmon. lia.
    + intros a Ha. destruct (Hl2 a Ha). split; [|done]. pose proof (Hmono (reads T)). lia.
    + lia.
  - exists [], (t :: l), T0. split_and!; try done; try (simpl; lia); [by rewrite app_nil_r|by intros a ?%elem_of_nil|].
    intros a Ha. simpl. assert (ttime T t ≤ ttime T a); [|lia].
    apply elem_of_cons in Ha as [->|Ha]; [lia|]. by apply (ti_sorted _ _ HT).
Qed.

(** [Timeout::check] terminates, triggers in order of deadline exactly a
    prefix of the queue, triggers every timeout that had expired when it
    began and none whose deadline lies beyond the last clock reading, and
    leaves the timer at the earliest remaining deadline. *)
Theorem check_triggers_expired clock fuel l T :
  tinv l T → (length l < fuel)%nat → (∀ i, clock i ≤ clock (S i)) →
  ∃ l1 l2 T', l = l1 ++ l2 ∧ check clock fuel T = Some T' ∧ tinv l2 T' ∧
    triggered T' = triggered T ++ l1 ∧
    (∀ t, t ∈ l → ttime T t ≤ clock (reads T) → t ∈ l1) ∧
    (∀ t, t ∈ l1 → ttime T t ≤ clock (pred (reads T'))).
Proof.
  intros HT Hf Hmono. unfold check.
  destruct (check_loop_spec clock fuel l T HT Hf Hmono)
    as (l1 & l2 & T' & -> & -> & HT' & Htt & Htr & Hl1 & Hl2 & _).
  cbn [mbind option_bind]. pose proof (ti_head _ _ HT') as Hh.
  exists l1, l2, (match tlist T' with
                  | Some h => if bool_decide (Some h = tlist T) then set_timer (ttime T' h) T' else T'
                  | None => T' end).
  assert (∀ t, t ∈ l1 ++ l2 → ttime T t ≤ clock (reads T) → t ∈ l1) as Hexp.
  { intros t [?|Ht]%elem_of_app Hle; [done|]. destruct (Hl2 t Ht). lia. }
  destruct (tlist T') as [h|] eqn:Et; [|by split_and!].
  destruct l2 as [|h' l2]; [done|]. injection Hh as ->.
  case_bool_decide; split_and!; try done.
  destruct HT' as [I1 I2 I3 I4 I5 I6]. split; try done. simpl. by intros ? ? [= <- _].
Qed.

(** ** Examples *)

Definition t0 : timeouts := Timeouts no_links (λ _, 0) None 0 [] 0.

Lemma t0_inv : tinv [] t0.
Proof. split; try done. constructor. Qed.

(** Timeouts 7, 3 and 5 due at 20, 10 and 20. *)
Definition t3 : option timeouts :=
  T ← enqueue 9 7 20 t0; T ← enqueue 9 3 10 T; enqueue 9 5 20 T.

Lemma t3_inv : ∃ T, t3 = Some T ∧ tinv [3; 5; 7]%nat T ∧
  ttime T 3 = 10 ∧ ttime T 5 = 20 ∧ ttime T 7 = 20 ∧ triggered T = [] ∧ reads T = 0%nat.
Proof.
  destruct (enqueue_tinv 9 [] 7 20 t0 t0_inv) as (T1 & E1 & I1 & H1 & R1 & N1); [apply not_elem_of_nil|simpl; lia|].
  destruct (enqueue_tinv 9 [7%nat] 3 10 T1 I1) as (T2 & E2 & I2 & H2 & R2 & N2);
    [by rewrite list_elem_of_singleton|simpl; lia|].
  rewrite H1 in I2. change (insert_before _ 3 10 [7%nat]) with [3; 7]%nat in I2.
  destruct (enqueue_tinv 9 [3; 7]%nat 5 20 T2 I2) as (T3 & E3 & I3 & H3 & R3 & N3);
    [by rewrite elem_of_cons, list_elem_of_singleton; intros []|simpl; lia|].
  rewrite H2, H1 in I3. change (insert_before _ 5 20 [3; 7]%nat) with [3; 5; 7]%nat in I3.
  exists T3. unfold t3. rewrite E1. simpl. rewrite E2. simpl. rewrite E3.
  rewrite H3, H2, H1. split_and!; try done; [by rewrite R3, R2, R1|by rewrite N3, N2, N1].
Qed.

Lemma timeouts_refine_sorted_witness :
  ∃ T T', t3 = Some T ∧ dequeue 5 T = (20, T') ∧ tinv [3; 7]%nat T'.
Proof.
  destruct t3_inv as (T & HT & HI & _ & H5 & _).
  destruct (timeouts_refine_sorted 9 [3; 5; 7]%nat T HI ltac:(simpl; lia)) as (_ & Hd & _).
  destruct (Hd [3%nat] 5%nat [7%nat] eq_refl) as (T' & Hd' & HI' & _).
  exists T, T'. rewrite H5 in Hd'. done.
Defined.

Lemma check_triggers_expired_witness :
  ∃ T T' l1, t3 = Some T ∧ check (λ _, 15) 9 T = Some T' ∧ triggered T' = l1 ∧ 3%nat ∈ l1.
Proof.
  destruct t3_inv as (T & HT & HI & H3 & _ & _ & Htr & _).
  destruct (check_triggers_expired (λ _, 15) 9 [3; 5; 7]%nat T HI ltac:(simpl; lia) ltac:(done))
    as (l1 & l2 & T' & _ & Hc & _ & Htr' & Hexp & _).
  exists T, T', l1. rewrite Htr in Htr'. split_and!; try done. apply Hexp; [left|]. rewrite H3. lia.
Defined.
