(* ===== verification/Sc.v ===== *)
(** The scheduler: [Sc::ready_enqueue], [ready_dequeue], [schedule_wo_activate],
    [remote_enqueue], [rrq_handler], [rke_handler] and the destruction of
    scheduling contexts.

    A CPU keeps one circular ready queue per priority, the highest priority in
    use ([prio_top]), the running scheduling context ([current]), which is in
    no queue, and a request queue that other CPUs append to.  The queues are the
    intrusive rings of [Queue.v], reference counters are those of [Rcu.v], and
    the budget of the running context is a timeout used through the interface
    [BudgetTimer].  [None] is a failed assertion or a null dereference. *)
From S2P Require Import Prelude Bitmap Queue Rcu Timeout.
Local Open Scope Z_scope.

Definition priorities : Z := 128.
Definition HZD_SCHED : Z := 1.

(** What the scheduler uses of the budget timeout: [dequeue] returns the
    deadline set last, [enqueue] sets one on an idle timeout. *)
Class BudgetTimer (T : Type) := {
  bt_ok : T → Prop;
  bt_idle : T → Prop;
  bt_deadline : T → Z;
  bt_dequeue : T → Z * T;
  bt_enqueue : Z → T → T;
  bt_dequeue_spec x : bt_ok x → (bt_dequeue x).1 = bt_deadline x ∧ bt_idle (bt_dequeue x).2;
  bt_enqueue_spec d x : bt_idle x → bt_ok (bt_enqueue d x) ∧ bt_deadline (bt_enqueue d x) = d;
}.

Record sc := Sc {
  sc_ec : nat;
  sc_cpu : Z;
  sc_prio : Z;
  disable : bool;
  budget : Z;
  time : Z;
  time_m : Z;
  left : Z;
  tsc : Z;
  ref : Z;
  ec_busy : bool;   (** the EC has a partner or a reply capability *)
}.

Record sched (T : Type) := Sched {
  slinks : links;
  slist : Z → option obj;
  prio_top : Z;
  current : obj;
  scs : obj → sc;
  rqs : Z → option obj;         (** the request queue of every CPU *)
  s_hazard : Z;
  timer_st : T;
  tsc_offset : nat → Z;         (** per EC *)
  killed_time : Z → Z;
  cross_time : Z → Z;
  rcu_calls : list obj;
  ipis : list Z;
  freed : list obj;
  clock_reads : nat;
}.
Arguments Sched {T}.
Arguments slinks {T}.
Arguments slist {T}.
Arguments prio_top {T}.
Arguments current {T}.
Arguments scs {T}.
Arguments rqs {T}.
Arguments s_hazard {T}.
Arguments timer_st {T}.
Arguments tsc_offset {T}.
Arguments killed_time {T}.
Arguments cross_time {T}.
Arguments rcu_calls {T}.
Arguments ipis {T}.
Arguments freed {T}.
Arguments clock_reads {T}.

(** ** Constructors *)

(** [Sc (own, e, c, x)]: the helper on another CPU gets the priority of its
    originator raised by 32, at most 127. *)
Definition xcpu_prio (p : Z) : Z := if 127 <? wrap 32 (p + 32) then 127 else wrap 16 (p + 32).

Definition sc_new (freq_tsc : Z) (ec : nat) (cpu prio quantum : Z) : sc :=
  Sc ec cpu (wrap 16 prio) false (wrap 64 (freq_tsc / 1000 * quantum)) 0 0 0 0 1 false.

(** The scheduling context of a CPU's idle EC, and the copy made when an EC
    moves to another CPU. *)
Definition sc_kern (freq_tsc : Z) (ec : nat) (sel : Z) : sc :=
  Sc ec (wrap 16 sel) 0 false (wrap 64 (freq_tsc * 1000)) 0 0 0 0 1 false.

Definition sc_copy (ec : nat) (cpu : Z) (x : sc) : sc :=
  Sc ec cpu (sc_prio x) (disable x) (budget x) (time x) (time_m x) (left x) 0 1 false.

Definition sc_xcpu (ec : nat) (cpu : Z) (x : sc) : sc :=
  Sc ec cpu (xcpu_prio (sc_prio x)) false (budget x) 0 0 (left x) 0 1 false.

Definition xcpu_clone (s x : sc) (tcpu : Z) : sc :=
  Sc (sc_ec s) tcpu (sc_prio x) false (budget x) 0 0 (left x) 0 (ref s) (ec_busy s).

Section sched.
Context {T : Type} `{!BudgetTimer T}.

(** The CPU, its running EC and the readings of its time stamp counter. *)
Context (cpu_id : Z) (ec_current : nat) (rdtsc : nat → Z).

Implicit Types (s : sched T) (x : obj).

Definition upd_links (L : links) s : sched T :=
  Sched L (slist s) (prio_top s) (current s) (scs s) (rqs s) (s_hazard s) (timer_st s) (tsc_offset s)
    (killed_time s) (cross_time s) (rcu_calls s) (ipis s) (freed s) (clock_reads s).
Definition upd_slist (f : (Z → option obj) → (Z → option obj)) s : sched T :=
  Sched (slinks s) (f (slist s)) (prio_top s) (current s) (scs s) (rqs s) (s_hazard s) (timer_st s) (tsc_offset s)
    (killed_time s) (cross_time s) (rcu_calls s) (ipis s) (freed s) (clock_reads s).
Definition upd_top (p : Z) s : sched T :=
  Sched (slinks s) (slist s) p (current s) (scs s) (rqs s) (s_hazard s) (timer_st s) (tsc_offset s)
    (killed_time s) (cross_time s) (rcu_calls s) (ipis s) (freed s) (clock_reads s).
Definition upd_current x s : sched T :=
  Sched (slinks s) (slist s) (prio_top s) x (scs s) (rqs s) (s_hazard s) (timer_st s) (tsc_offset s)
    (killed_time s) (cross_time s) (rcu_calls s) (ipis s) (freed s) (clock_reads s).
Definition upd_sc x (f : sc → sc) s : sched T :=
  Sched (slinks s) (slist s) (prio_top s) (current s) (<[x := f (scs s x)]> (scs s)) (rqs s) (s_hazard s)
    (timer_st s) (tsc_offset s) (killed_time s) (cross_time s) (rcu_calls s) (ipis s) (freed s) (clock_reads s).
Definition upd_rqs (f : (Z → option obj) → (Z → option obj)) s : sched T :=
  Sched (slinks s) (slist s) (prio_top s) (current s) (scs s) (f (rqs s)) (s_hazard s) (timer_st s) (tsc_offset s)
    (killed_time s) (cross_time s) (rcu_calls s) (ipis s) (freed s) (clock_reads s).
Definition upd_shazard (f : Z → Z) s : sched T :=
  Sched (slinks s) (slist s) (prio_top s) (current s) (scs s) (rqs s) (f (s_hazard s)) (timer_st s) (tsc_offset s)
    (killed_time s) (cross_time s) (rcu_calls s) (ipis s) (freed s) (clock_reads s).
Definition upd_timer (t : T) s : sched T :=
  Sched (slinks s) (slist s) (prio_top s) (current s) (scs s) (rqs s) (s_hazard s) t (tsc_offset s)
    (killed_time s) (cross_time s) (rcu_calls s) (ipis s) (freed s) (clock_reads s).
Definition add_tsc_offset (ec : nat) (d : Z) s : sched T :=
  Sched (slinks s) (slist s) (prio_top s) (current s) (scs s) (rqs s) (s_hazard s) (timer_st s)
    (<[ec := wadd (tsc_offset s ec) d]> (tsc_offset s))
    (killed_time s) (cross_time s) (rcu_calls s) (ipis s) (freed s) (clock_reads s).
Definition rcu_call x s : sched T :=
  Sched (slinks s) (slist s) (prio_top s) (current s) (scs s) (rqs s) (s_hazard s) (timer_st s) (tsc_offset s)
    (killed_time s) (cross_time s) (rcu_calls s ++ [x]) (ipis s) (freed s) (clock_reads s).
Definition send_ipi (c : Z) s : sched T :=
  Sched (slinks s) (slist s) (prio_top s) (current s) (scs s) (rqs s) (s_hazard s) (timer_st s) (tsc_offset s)
    (killed_time s) (cross_time s) (rcu_calls s) (ipis s ++ [c]) (freed s) (clock_reads s).
Definition upd_freed (f : (Z → Z) → (Z → Z)) (g : (Z → Z) → (Z → Z)) x s : sched T :=
  Sched (slinks s) (slist s) (prio_top s) (current s) (scs s) (rqs s) (s_hazard s) (timer_st s) (tsc_offset s)
    (f (killed_time s)) (g (cross_time s)) (rcu_calls s) (ipis s) (freed s ++ [x]) (clock_reads s).
Definition read_tsc s : Z * sched T :=
  (rdtsc (clock_reads s),
   Sched (slinks s) (slist s) (prio_top s) (current s) (scs s) (rqs s) (s_hazard s) (timer_st s) (tsc_offset s)
     (killed_time s) (cross_time s) (rcu_calls s) (ipis s) (freed s) (S (clock_reads s))).

Definition set_ref (r : Z) (c : sc) : sc :=
  Sc (sc_ec c) (sc_cpu c) (sc_prio c) (disable c) (budget c) (time c) (time_m c) (left c) (tsc c) r (ec_busy c).
Definition set_disable (c : sc) : sc :=
  Sc (sc_ec c) (sc_cpu c) (sc_prio c) true (budget c) (time c) (time_m c) (left c) (tsc c) (ref c) (ec_busy c).
Definition set_left (l : Z) (c : sc) : sc :=
  Sc (sc_ec c) (sc_cpu c) (sc_prio c) (disable c) (budget c) (time c) (time_m c) l (tsc c) (ref c) (ec_busy c).
Definition sc_set_tsc (t : Z) (c : sc) : sc :=
  Sc (sc_ec c) (sc_cpu c) (sc_prio c) (disable c) (budget c) (time c) (time_m c) (left c) t (ref c) (ec_busy c).
Definition set_sctime (t : Z) (c : sc) : sc :=
  Sc (sc_ec c) (sc_cpu c) (sc_prio c) (disable c) (budget c) t (time_m c) (left c) (tsc c) (ref c) (ec_busy c).
Definition measured (c : sc) : sc :=
  Sc (sc_ec c) (sc_cpu c) (sc_prio c) (disable c) (budget c) (time c) (time c) (left c) (tsc c) (ref c) (ec_busy c).

(** [add_ref] and [del_rcu] on a scheduling context. *)
Definition sc_add_ref x s : bool * sched T :=
  let '(ok, r) := add_ref (ref (scs s x)) in (ok, upd_sc x (set_ref r) s).
Definition sc_del_rcu x s : bool * sched T :=
  let '(ok, r) := del_rcu (ref (scs s x)) in (ok, upd_sc x (set_ref r) s).
Definition sc_del_ref x s : bool * sched T :=
  let '(ok, r) := del_ref (ref (scs s x)) in (ok, upd_sc x (set_ref r) s).

(** ** The ready queues *)

Definition link_ready x (use_left : bool) s : option (sched T) :=
  let prio := sc_prio (scs s x) in
  match slist s prio with
  | None =>
    Some (upd_slist <[prio := Some x]>
           (upd_links (set_prev x (Some x) (set_next x (Some x) (slinks s))) s))
  | Some h =>
    L ← link_before x h (slinks s);
    let s := upd_links L s in
    Some (if use_left && truthy (left (scs s x)) then upd_slist <[prio := Some x]> s else s)
  end.

Definition ready_enqueue x (t : Z) (inc_ref use_left : bool) s : option (sched T) :=
  let prio := sc_prio (scs s x) in
  if (prio <? priorities) && (sc_cpu (scs s x) =? cpu_id) then
    '(ok, s) ← (if inc_ref then let '(ok, s) := sc_add_ref x s in if ok then Some (true, s) else None
                else Some (true, s) : option (bool * sched T));
    let s := if prio_top s <? prio then upd_top prio s else s in
    s ← link_ready x use_left s;
    let c := scs s (current s) in
    let s := if (sc_prio c <? prio) ||
                (negb (bool_decide (x = current s)) && (prio =? sc_prio c) && (use_left && truthy (left (scs s x))))
             then upd_shazard (λ h, set_mask h HZD_SCHED) s else s in
    let s := if truthy (left (scs s x)) then s else upd_sc x (λ c, set_left (budget c) c) s in
    Some (upd_sc x (sc_set_tsc t) s)
  else None.

(** [while (!list[prio_top] && prio_top) prio_top--]. *)
Fixpoint lower_top (fuel : nat) s : sched T :=
  match fuel with
  | O => s
  | S fuel =>
    if bool_decide (slist s (prio_top s) = None) && truthy (prio_top s)
    then lower_top fuel (upd_top (wrap 32 (prio_top s - 1)) s) else s
  end.

Definition ready_dequeue x (t : Z) s : option (sched T) :=
  let prio := sc_prio (scs s x) in
  if (prio <? priorities) && (sc_cpu (scs s x) =? cpu_id) then
    n ← next (slinks s) x;
    _ ← prev (slinks s) x;
    let s := if bool_decide (slist s prio = Some x)
             then upd_slist <[prio := if bool_decide (n = x) then None else Some n]> s else s in
    L ← unlink x (slinks s);
    let s := upd_links (set_prev x None (set_next x None L)) s in
    let s := lower_top (Z.to_nat (prio_top s)) s in
    let s := add_tsc_offset (sc_ec (scs s x)) (wsub (tsc (scs s x)) t) s in
    Some (upd_sc x (sc_set_tsc t) s)
  else None.

(** ** Choosing the next scheduling context *)

(** One round: account the time of the running context, queue or release it,
    and take the head of the highest ready queue. *)
Definition account s : Z * sched T :=
  let cur := current s in
  let '(t, s) := read_tsc s in
  let '(d, tm) := bt_dequeue (timer_st s) in
  let s := upd_timer tm s in
  let s := upd_sc cur (λ c, set_sctime (wadd (time c) (wsub t (tsc c))) c) s in
  let s := upd_sc cur (set_left (if t <? d then wsub d t else 0)) s in
  (t, upd_shazard (λ h, clr_mask h HZD_SCHED) s).

Definition put_back (suspend use_left : bool) (t : Z) s : option (sched T) :=
  let cur := current s in
  if negb suspend then ready_enqueue cur t false use_left s
  else let '(last, s) := sc_del_rcu cur s in Some (if last then rcu_call cur s else s).

Definition take_top (t : Z) s : option (sched T) :=
  x ← slist s (prio_top s);
  let s := upd_timer (bt_enqueue (wadd t (left (scs s x))) (timer_st s)) s in
  ready_dequeue x t (upd_current x s).

Definition schedule_round (suspend use_left : bool) s : option (bool * sched T) :=
  let cur := current s in
  if suspend || bool_decide (prev (slinks s) cur = None) then
    let '(t, s) := account s in
    let suspend := suspend || (disable (scs s cur) && bool_decide (sc_ec (scs s cur) = ec_current)) in
    s ← put_back suspend use_left t s;
    s ← take_top t s;
    Some (suspend, s)
  else None.

Fixpoint schedule_wo_activate (fuel : nat) (suspend use_left : bool) s : option (sched T) :=
  match fuel with
  | O => None
  | S fuel =>
    '(suspend, s) ← schedule_round suspend use_left s;
    let c := scs s (current s) in
    if disable c && bool_decide (sc_ec c = ec_current) then schedule_wo_activate fuel suspend use_left s
    else Some s
  end.

(** ** Requests from other CPUs *)

Definition remote_enqueue x (inc_ref : bool) s : option (sched T) :=
  let cpu := sc_cpu (scs s x) in
  if cpu_id =? cpu then
    let '(t, s) := read_tsc s in ready_enqueue x t inc_ref true s
  else
    '(ok, s) ← (if inc_ref then let '(ok, s) := sc_add_ref x s in if ok then Some (true, s) else None
                else Some (true, s) : option (bool * sched T));
    match rqs s cpu with
    | Some h => L ← link_before x h (slinks s); Some (upd_links L s)
    | None =>
      let s := upd_links (set_prev x (Some x) (set_next x (Some x) (slinks s))) s in
      Some (send_ipi cpu (upd_rqs <[cpu := Some x]> s))
    end.

Fixpoint rrq_loop (fuel : nat) (t : Z) (ptr : option obj) s : option (sched T) :=
  match fuel with
  | O => None
  | S fuel =>
    match ptr with
    | None => Some s
    | Some x =>
      L ← unlink x (slinks s);
      let s := upd_links L s in
      let ptr := if bool_decide (next (slinks s) x = Some x) then None else next (slinks s) x in
      if disable (scs s x) && negb (ec_busy (scs s x)) then
        let '(last, s) := sc_del_rcu x s in
        rrq_loop fuel t ptr (if last then rcu_call x s else s)
      else
        s ← ready_enqueue x t false true s;
        rrq_loop fuel t ptr s
    end
  end.

Definition rrq_handler (fuel : nat) s : option (sched T) :=
  let '(t, s) := read_tsc s in
  s ← rrq_loop fuel t (rqs s cpu_id) s;
  Some (upd_rqs <[cpu_id := None]> s).

(** [htlb] says that the running domain's host TLB is stale on this CPU. *)
Definition rke_handler (htlb : bool) s : sched T :=
  let s := if disable (scs s (current s)) then upd_shazard (λ h, set_mask h HZD_SCHED) s else s in
  if htlb then upd_shazard (λ h, set_mask h HZD_SCHED) s else s.

(** ** Destruction *)

(** [flush] stands for [Ec::flush_from_cpu]. *)
Definition pre_free (flush : nat → sched T → sched T) x s : sched T :=
  let s := upd_sc x set_disable s in
  let s := if bool_decide (current s = x) then upd_shazard (λ h, set_mask h HZD_SCHED) s else s in
  if sc_cpu (scs s x) =? sc_cpu (scs s (current s)) then flush (sc_ec (scs s x)) s
  else send_ipi (sc_cpu (scs s x)) s.

Definition remove x s : option (bool * sched T) :=
  if negb (sc_cpu (scs s x) =? cpu_id) then
    let '(last, s) := sc_del_rcu x s in
    if negb last then Some (false, s)
    else s ← remote_enqueue x false (upd_sc x set_disable s); Some (false, s)
  else Some (sc_del_ref x s).

Definition sc_free x s : option (sched T) :=
  '(gone, s) ← remove x s;
  if gone : bool then
    if bool_decide (current s = x) then None
    else
      let c := scs s x in
      Some (upd_freed (λ k, if time_m c <? time c
              then <[sc_cpu c := wadd (k (sc_cpu c)) (wsub (time c) (time_m c))]> k else k) (λ k, k) x s)
  else Some s.

Definition free_xcpu x s : option (sched T) :=
  '(gone, s) ← remove x s;
  if gone : bool then
    if bool_decide (current s = x) then None
    else
      let c := scs s x in
      Some (upd_freed (λ k, k) (λ k, <[sc_cpu c := wadd (k (sc_cpu c)) (time c)]> k) x s)
  else Some s.

(** ** Invariant

    [ready p] is the ready queue of priority [p], from its head. *)

Record sinv (ready : Z → list obj) s : Prop := {
  si_prio : ∀ x p, x ∈ ready p → sc_prio (scs s x) = p ∧ 0 ≤ p < priorities;
  si_cpu : ∀ x p, x ∈ ready p → sc_cpu (scs s x) = cpu_id;
  si_head : ∀ p, slist s p = List.hd_error (ready p);
  si_ring : ∀ p, ring (slinks s) (ready p);
  si_range : 0 ≤ prio_top s < priorities;
  si_above : ∀ p, prio_top s < p → ready p = [];
  si_top : prio_top s ≠ 0 → ready (prio_top s) ≠ [];
}.

(** What no operation on the queues changes of a scheduling context. *)
Definition same_static s s' : Prop :=
  ∀ x, sc_prio (scs s' x) = sc_prio (scs s x) ∧ sc_cpu (scs s' x) = sc_cpu (scs s x) ∧
       sc_ec (scs s' x) = sc_ec (scs s x) ∧ disable (scs s' x) = disable (scs s x) ∧
       budget (scs s' x) = budget (scs s x).

#[local] Instance same_static_preorder : PreOrder same_static.
Proof.
  split; [by intros s x|]. intros a b c H1 H2 x. destruct (H1 x) as (? & ? & ? & ? & ?), (H2 x) as (? & ? & ? & ? & ?).
  split_and!; congruence.
Qed.

(** An update of one context that leaves the static fields. *)
Lemma upd_sc_static x f s :
  (∀ c, sc_prio (f c) = sc_prio c ∧ sc_cpu (f c) = sc_cpu c ∧ sc_ec (f c) = sc_ec c ∧
        disable (f c) = disable c ∧ budget (f c) = budget c) → same_static s (upd_sc x f s).
Proof.
  intros Hf y. simpl. destruct (decide (x = y)) as [->|]; [rewrite fn_lookup_insert; apply Hf|by rewrite fn_lookup_insert_ne].
Qed.

Lemma sinv_ext ready s s' :
  same_static s s' → slinks s' = slinks s → slist s' = slist s → prio_top s' = prio_top s →
  sinv ready s → sinv ready s'.
Proof.
  intros Hst Hl Hs Ht [I1 I2 I3 I4 I5 I6 I7]. split.
  - intros x p Hx. destruct (Hst x) as (-> & _). auto.
  - intros x p Hx. destruct (Hst x) as (_ & -> & _). eauto.
  - intros p. by rewrite Hs.
  - intros p. by rewrite Hl.
  - by rewrite Ht.
  - intros p. rewrite Ht. auto.
  - rewrite Ht. auto.
Qed.

Lemma ready_disjoint ready s x p q : sinv ready s → x ∈ ready p → x ∈ ready q → p = q.
Proof.
  intros HI Hp Hq. destruct (si_prio _ _ HI x p Hp) as [<- _]. by destruct (si_prio _ _ HI x q Hq) as [-> _].
Qed.

(** Replacing one ready queue, given that the others keep their links. *)
Lemma sinv_replace ready s s' p l :
  sinv ready s → same_static s s' → 0 ≤ p < priorities → ring (slinks s') l →
  (∀ q, slist s' q = if decide (q = p) then List.hd_error l else slist s q) →
  (∀ x, x ∈ l → sc_prio (scs s x) = p ∧ sc_cpu (scs s x) = cpu_id) →
  (∀ q x, q ≠ p → x ∈ ready q → next (slinks s') x = next (slinks s) x ∧ prev (slinks s') x = prev (slinks s) x) →
  0 ≤ prio_top s' < priorities → (∀ q, prio_top s' < q → <[p := l]> ready q = []) →
  (prio_top s' ≠ 0 → <[p := l]> ready (prio_top s') ≠ []) →
  sinv (<[p := l]> ready) s'.
Proof.
  intros [I1 I2 I3 I4 I5 I6 I7] Hst Hp Hr Hs Hl Hf Ht1 Ht2 Ht3.
  assert (∀ q x, x ∈ (<[p := l]> ready) q → (q = p ∧ x ∈ l) ∨ (q ≠ p ∧ x ∈ ready q)) as Hin.
  { intros q x. destruct (decide (p = q)) as [->|]; [rewrite fn_lookup_insert; by left|].
    rewrite fn_lookup_insert_ne by done. right. split; [congruence|done]. }
  split; try done.
  - intros x q Hx. destruct (Hst x) as (-> & _). destruct (Hin q x Hx) as [[-> Hx']|[_ Hx']]; [|auto].
    split; [|done]. by apply Hl.
  - intros x q Hx. destruct (Hst x) as (_ & -> & _). destruct (Hin q x Hx) as [[-> Hx']|[_ Hx']]; [|eauto]. by apply Hl.
  - intros q. rewrite Hs. case_decide as Hq; [subst; by rewrite fn_lookup_insert|].
    by rewrite fn_lookup_insert_ne.
  - intros q. destruct (decide (p = q)) as [->|]; [by rewrite fn_lookup_insert|].
    rewrite fn_lookup_insert_ne by done. eapply ring_frame; [| |apply I4]; intros a Ha; apply (Hf q a); congruence.
Qed.

Lemma link_ready_spec r s x use_left :
  let p := sc_prio (scs s x) in
  slist s p = List.hd_error r → ring (slinks s) r → x ∉ r →
  let l := if use_left && truthy (left (scs s x)) then x :: r else r ++ [x] in
  ∃ s', link_ready x use_left s = Some s' ∧ ring (slinks s') l ∧
    (∀ q, slist s' q = if decide (q = p) then List.hd_error l else slist s q) ∧
    (∀ a, a ∉ x :: r → next (slinks s') a = next (slinks s) a ∧ prev (slinks s') a = prev (slinks s) a) ∧
    scs s' = scs s ∧ prio_top s' = prio_top s ∧ current s' = current s ∧ timer_st s' = timer_st s.
Proof.
  intros p Hh Hr Hx l. unfold link_ready. fold p. rewrite Hh.
  destruct r as [|h r]; simpl.
  - eexists. split; [done|]. simpl. assert (l = [x]) as -> by (unfold l; by destruct (_ && _)).
    split; [split; [apply NoDup_singleton|]; simpl; by rewrite !fn_lookup_insert|].
    split_and!; try done.
    + intros q. simpl. destruct (decide (q = p)) as [->|]; [by rewrite fn_lookup_insert|by rewrite fn_lookup_insert_ne].
    + intros a Ha%not_elem_of_cons. simpl. by rewrite !fn_lookup_insert_ne by (intros <-; tauto).
  - destruct (link_before_spec (slinks s) x h r Hr Hx) as (L & -> & HR & Hf).
    cbn [mbind option_bind]. eexists. split; [done|]. simpl. unfold l.
    destruct (use_left && truthy (left (scs s x))); (split; [|split_and!; try done]).
    + apply (ring_rotate L (h :: r) [x]). done.
    + intros q. simpl. destruct (decide (q = p)) as [->|]; [by rewrite fn_lookup_insert|by rewrite fn_lookup_insert_ne].
    + exact HR.
    + intros q. simpl. destruct (decide (q = p)) as [->|]; [by rewrite Hh|done].
Qed.

(** Where a context is queued: in front while it has budget left, else last. *)
Definition queued x (use_left : bool) s (ready : Z → list obj) : Z → list obj :=
  let p := sc_prio (scs s x) in
  <[p := if use_left && truthy (left (scs s x)) then x :: ready p else ready p ++ [x]]> ready.

Lemma elem_queued x use_left s ready y p :
  y ∈ queued x use_left s ready p ↔ (y = x ∧ p = sc_prio (scs s x)) ∨ y ∈ ready p.
Proof.
  unfold queued. destruct (decide (sc_prio (scs s x) = p)) as [<-|Hp].
  - rewrite fn_lookup_insert. destruct (_ && _); rewrite ?elem_of_cons, ?elem_of_app, ?list_elem_of_singleton; tauto.
  - rewrite fn_lookup_insert_ne by done. split; [by right|]. intros [[_ ->]|]; done.
Qed.

Lemma ready_enqueue_spec ready s x t use_left :
  sinv ready s → (∀ p, x ∉ ready p) → 0 ≤ sc_prio (scs s x) < priorities → sc_cpu (scs s x) = cpu_id →
  ∃ s', ready_enqueue x t false use_left s = Some s' ∧ sinv (queued x use_left s ready) s' ∧
    same_static s s' ∧ current s' = current s ∧ timer_st s' = timer_st s ∧
    (∀ a, a ≠ x → (∀ p, a ∉ ready p) → next (slinks s') a = next (slinks s) a ∧ prev (slinks s') a = prev (slinks s) a) ∧
    left (scs s' x) = (if truthy (left (scs s x)) then left (scs s x) else budget (scs s x)) ∧
    (∀ a, a ≠ x → scs s' a = scs s a).
Proof.
  intros HI Hx Hp Hc. unfold ready_enqueue. rewrite Hc, Z.eqb_refl.
  set (p := sc_prio (scs s x)) in *.
  destruct (Z.ltb_spec p priorities); [|lia]. cbn [andb mbind option_bind].
  set (s1 := if prio_top s <? p then upd_top p s else s).
  assert (prio_top s1 = Z.max (prio_top s) p) as A6.
  { unfold s1. destruct (Z.ltb_spec (prio_top s) p); simpl; lia. }
  assert (scs s1 = scs s ∧ slinks s1 = slinks s ∧ slist s1 = slist s ∧ current s1 = current s ∧
          timer_st s1 = timer_st s) as (A1 & A2 & A3 & A4 & A5).
  { unfold s1. by destruct (prio_top s <? p). }
  clearbody s1.
  destruct (link_ready_spec (ready p) s1 x use_left) as (s2 & -> & B1 & B2 & B3 & B4 & B5 & B6 & B7);
    rewrite ?A1, ?A2, ?A3; [apply (si_head _ _ HI)|apply (si_ring _ _ HI)|done|].
  rewrite A1 in *. fold p in B2. cbn [mbind option_bind].
  set (l := if _ && _ then _ else _) in *.
  set (s3 := if (_ <? p) || _ then _ else s2).
  assert (scs s3 = scs s ∧ slinks s3 = slinks s2 ∧ slist s3 = slist s2 ∧ current s3 = current s ∧
          timer_st s3 = timer_st s ∧ prio_top s3 = prio_top s1) as (C1 & C2 & C3 & C4 & C5 & C6).
  { rewrite <-B4, <-A4, <-A5, <-B6, <-B7, <-B5. unfold s3. by destruct (_ || _). }
  clearbody s3. set (s4 := if truthy (left (scs s3 x)) then _ else _).
  assert (same_static s s4 ∧ left (scs s4 x) = (if truthy (left (scs s x)) then left (scs s x) else budget (scs s x)) ∧
    (∀ a, a ≠ x → scs s4 a = scs s a) ∧ slinks s4 = slinks s3 ∧ slist s4 = slist s3 ∧ current s4 = current s3 ∧
    timer_st s4 = timer_st s3 ∧ prio_top s4 = prio_top s3) as (D1 & D2 & D3 & D4 & D5 & D6 & D7 & D8).
  { unfold s4. rewrite C1. destruct (truthy (left (scs s x))).
    - split_and!; try done; rewrite ?C1; try done. intros y. by rewrite C1.
    - simpl. split_and!; try done.
      + etransitivity; [|apply upd_sc_static; done]. intros y. by rewrite C1.
      + rewrite fn_lookup_insert. by rewrite C1.
      + intros a Ha. rewrite fn_lookup_insert_ne by done. by rewrite C1. }
  clearbody s4. eexists. split; [done|]. simpl. rewrite fn_lookup_insert. simpl.
  assert (same_static s (upd_sc x (sc_set_tsc t) s4)) as HS by (etransitivity; [exact D1|by apply upd_sc_static]).
  split_and!; try congruence; try done.
  - unfold queued. fold p l. apply (sinv_replace ready s); try done; simpl.
    + by rewrite D4, C2.
    + intros q. by rewrite D5, C3, B2, A3.
    + intros y Hy. assert (y = x ∨ y ∈ ready p) as [->|Hy'].
      { unfold l in Hy. destruct (_ && _); rewrite ?elem_of_cons, ?elem_of_app, ?list_elem_of_singleton in Hy; tauto. }
      * done.
      * split; [by apply (si_prio _ _ HI)|by eapply (si_cpu _ _ HI)].
    + intros q y Hq Hy. rewrite D4, C2. rewrite <-A2. apply B3. intros [->|Hy']%elem_of_cons; [by apply (Hx q)|].
      apply Hq. by eapply ready_disjoint.
    + rewrite D8, C6, A6. pose proof (si_range _ _ HI). lia.
    + intros q. rewrite D8, C6, A6. intros Hq. rewrite fn_lookup_insert_ne by lia. apply (si_above _ _ HI). lia.
    + rewrite D8, C6, A6. destruct (Z.max_spec (prio_top s) p) as [[Hlt ->]|[Hge ->]].
      * intros _. rewrite fn_lookup_insert. unfold l. destruct (_ && _); [done|]. by destruct (ready p).
      * intros H0. destruct (decide (p = prio_top s)) as [<-|].
        { rewrite fn_lookup_insert. unfold l. destruct (_ && _); [done|]. by destruct (ready p). }
        rewrite fn_lookup_insert_ne by done. by apply (si_top _ _ HI).
  - intros a Ha Hno. rewrite D4, C2, <-A2. apply B3. by intros [?|?%Hno]%elem_of_cons.
  - intros a Ha. rewrite fn_lookup_insert_ne by done. by apply D3.
Qed.

Lemma lower_top_spec ready s fuel :
  (∀ p, slist s p = List.hd_error (ready p)) → 0 ≤ prio_top s ≤ Z.of_nat fuel → prio_top s < priorities →
  (∀ p, prio_top s < p → ready p = []) →
  ∃ t, lower_top fuel s = upd_top t s ∧ 0 ≤ t < priorities ∧ (∀ p, t < p → ready p = []) ∧
       (t ≠ 0 → ready t ≠ []).
Proof.
  revert s. induction fuel as [|fuel IH]; intros s Hl Hf Hp Habove; simpl.
  { exists (prio_top s). split; [by destruct s|]. split_and!; (done || lia). }
  rewrite Hl. case_bool_decide as He; simpl.
  - destruct (truthy (prio_top s)) eqn:Ht.
    + apply truthy_true in Ht. assert (wrap 32 (prio_top s - 1) = prio_top s - 1) as ->.
      { apply wrap_small. unfold word, priorities in *. lia. }
      destruct (IH (upd_top (prio_top s - 1) s)) as (t & Hlt & Ht1 & Ht2 & Ht3); simpl; [done|lia|lia| |].
      * intros p Hgt. destruct (decide (p = prio_top s)) as [->|]; [by destruct (ready (prio_top s))|apply Habove; lia].
      * exists t. by rewrite Hlt.
    + apply truthy_false in Ht. exists (prio_top s). split; [by destruct s|]. split_and!; (done || lia).
  - exists (prio_top s). split; [by destruct s|]. split_and!; try (done || lia). intros _ He'. by rewrite He' in He.
Qed.

(** Taking [x] out of a ring and clearing its pointers. *)
Lemma unlink_member L x l1 l2 n :
  ring L (l1 ++ x :: l2) → next L x = Some n →
  ∃ L', unlink x L = Some L' ∧ ring (set_prev x None (set_next x None L')) (l1 ++ l2) ∧
    (∀ a, a ∉ l1 ++ x :: l2 → next (set_prev x None (set_next x None L')) a = next L a ∧
                              prev (set_prev x None (set_next x None L')) a = prev L a) ∧
    (List.hd_error (l1 ++ x :: l2) = Some x →
     (if bool_decide (n = x) then None else Some n) = List.hd_error (l1 ++ l2)).
Proof.
  intros HR Hn. assert (x ∉ l1 ++ l2) as Hxn.
  { pose proof (ring_rotate _ _ _ HR) as [[Hd _]%list.NoDup_cons _]. rewrite elem_of_app in *. tauto. }
  destruct (decide (l1 ++ l2 = [])) as [He|Hne].
  - rewrite He. apply app_eq_nil in He as [-> ->]. destruct HR as [_ [Hn' Hp']]. rewrite Hn in Hn'. injection Hn' as ->.
    unfold unlink. rewrite Hn. cbn [mbind option_bind]. simpl. rewrite fn_lookup_insert, Hp'. cbn [mbind option_bind].
    eexists. split; [done|]. rewrite bool_decide_true by done. split_and!; try done.
    intros a Ha%not_elem_of_cons. simpl. by rewrite !fn_lookup_insert_ne by (intros <-; tauto).
  - destruct (unlink_spec L x l1 l2 HR Hne) as (L' & -> & HR' & _ & _ & Hhd & Hf).
    exists L'. split; [done|]. split_and!.
    + eapply ring_frame; [| |exact HR']; intros a Ha; simpl; rewrite fn_lookup_insert_ne; try done; by intros <-.
    + intros a Ha. rewrite elem_of_app, elem_of_cons in Ha. simpl.
      rewrite !fn_lookup_insert_ne by (intros <-; tauto). apply Hf. rewrite elem_of_app. tauto.
    + rewrite Hn in Hhd. injection Hhd as Hhd. destruct l1 as [|y l1]; simpl.
      * intros _. rewrite app_nil_r in Hhd. destruct l2 as [|z l2]; [done|]. simpl in Hhd. subst n.
        rewrite bool_decide_false; [done|]. intros ->. apply Hxn. left.
      * intros [= ->]. exfalso. apply Hxn. left.
Qed.

Lemma ready_dequeue_spec ready s x t l1 l2 :
  sinv ready s → ready (sc_prio (scs s x)) = l1 ++ x :: l2 →
  ∃ s', ready_dequeue x t s = Some s' ∧ sinv (<[sc_prio (scs s x) := l1 ++ l2]> ready) s' ∧
    unlinked (slinks s') x ∧ same_static s s' ∧ current s' = current s ∧ timer_st s' = timer_st s ∧
    (∀ a, a ≠ x → scs s' a = scs s a) ∧ left (scs s' x) = left (scs s x).
Proof.
  intros HI Hl. set (p := sc_prio (scs s x)) in *.
  assert (x ∈ ready p) as Hx by (rewrite Hl; apply elem_of_app; right; left).
  destruct (si_prio _ _ HI x p Hx) as [_ Hp].
  unfold ready_dequeue. fold p. rewrite (si_cpu _ _ HI x p Hx), Z.eqb_refl.
  destruct (Z.ltb_spec p priorities); [|lia]. cbn [andb].
  pose proof (si_ring _ _ HI p) as HR.
  destruct (ring_linked _ _ x HR Hx) as (n & q & Hn & Hq). rewrite Hn, Hq. cbn [mbind option_bind].
  set (s1 := if bool_decide _ then _ else s).
  pose proof HR as HR0. rewrite Hl in HR0. destruct (unlink_member _ x l1 l2 n HR0 Hn) as (L & HL & HR' & Hf & Hh).
  rewrite <-Hl, <-(si_head _ _ HI p) in Hh. rewrite <-Hl in Hf.
  assert (slinks s1 = slinks s ∧ scs s1 = scs s ∧ prio_top s1 = prio_top s ∧ current s1 = current s ∧
    timer_st s1 = timer_st s ∧ (∀ q, slist s1 q = if decide (q = p) then List.hd_error (l1 ++ l2) else slist s q))
    as (A1 & A2 & A3 & A4 & A5 & A6).
  { unfold s1. destruct (decide (slist s p = Some x)) as [Hb|Hb];
      [rewrite (bool_decide_true (slist s p = Some x)) by done|rewrite (bool_decide_false (slist s p = Some x)) by done];
      simpl; split_and!; try done; intros q'.
    - rewrite Hh by done. destruct (decide (q' = p)) as [->|]; [by rewrite fn_lookup_insert|by rewrite fn_lookup_insert_ne].
    - destruct (decide (q' = p)) as [->|]; [|done]. rewrite (si_head _ _ HI), Hl in *. by destruct l1. }
  clearbody s1. rewrite A1, HL. cbn [mbind option_bind]. simpl.
  set (s2 := upd_links _ s1). set (ready' := <[p := l1 ++ l2]> ready).
  destruct (lower_top_spec ready' s2 (Z.to_nat (prio_top s1))) as (tp & -> & T1 & T2 & T3);
    pose proof (si_range _ _ HI); simpl; rewrite ?A3; [|lia|lia| |].
  { intros q'. rewrite A6. unfold ready'. destruct (decide (q' = p)) as [->|]; [by rewrite fn_lookup_insert|].
    rewrite fn_lookup_insert_ne by done. apply (si_head _ _ HI). }
  { intros q' Hq'. unfold ready'. destruct (decide (p = q')) as [->|].
    - apply (si_above _ _ HI) in Hq'. rewrite Hl in Hq'. by destruct l1.
    - rewrite fn_lookup_insert_ne by done. by apply (si_above _ _ HI). }
  eexists. split; [done|]. set (s3 := upd_sc x _ _).
  assert (same_static s s3) as HS.
  { etransitivity; [|apply upd_sc_static; done]. intros y. simpl. by rewrite A2. }
  split; [|split_and!].
  - apply (sinv_replace ready s); try done.
    + intros y Hy. assert (y ∈ ready p) as Hy'.
      { rewrite Hl. rewrite elem_of_app in *. rewrite elem_of_cons. tauto. }
      split; [by apply (si_prio _ _ HI)|by eapply (si_cpu _ _ HI)].
    + intros q' y Hq' Hy. apply Hf. intros Hy'. apply Hq'. by eapply ready_disjoint.
  - split; simpl; by rewrite fn_lookup_insert.
  - done.
  - done.
  - done.
  - intros a Ha. simpl. rewrite fn_lookup_insert_ne by done. by rewrite A2.
  - simpl. rewrite fn_lookup_insert. simpl. by rewrite A2.
Qed.

(** ** One scheduling round *)

Lemma unlinked_not_ready ready s x : sinv ready s → unlinked (slinks s) x → ∀ p, x ∉ ready p.
Proof.
  intros HI [Hn _] p Hx. destruct (ring_linked _ _ x (si_ring _ _ HI p) Hx) as (n & q & Hn' & _). congruence.
Qed.

(** The running context's remaining budget at time [t] for deadline [d]. *)
Definition remaining (t d : Z) : Z := if t <? d then wsub d t else 0.

(** The round suspends the running context on request or when it is disabled. *)
Definition suspends (suspend : bool) s : bool :=
  suspend || (disable (scs s (current s)) && bool_decide (sc_ec (scs s (current s)) = ec_current)).

(** The ready queues when the next context is chosen. *)
Definition requeued (suspend use_left : bool) s (ready : Z → list obj) : Z → list obj :=
  if suspends suspend s then ready
  else
    let p := sc_prio (scs s (current s)) in
    let l := remaining (rdtsc (clock_reads s)) (bt_deadline (timer_st s)) in
    <[p := if use_left && truthy l then current s :: ready p else ready p ++ [current s]]> ready.

(** The running context is in no queue, belongs to this CPU and has a valid
    priority, and its budget is running. *)
Record running s : Prop := {
  ru_unlinked : unlinked (slinks s) (current s);
  ru_prio : 0 ≤ sc_prio (scs s (current s)) < priorities;
  ru_cpu : sc_cpu (scs s (current s)) = cpu_id;
  ru_timer : bt_ok (timer_st s);
}.

Lemma top_head ready s y p :
  sinv ready s → y ∈ ready p →
  ∃ x l, ready (prio_top s) = x :: l ∧ slist s (prio_top s) = Some x ∧ sc_prio (scs s x) = prio_top s ∧
         (∀ q z, z ∈ ready q → q ≤ prio_top s).
Proof.
  intros HI Hy. destruct (si_prio _ _ HI y p Hy) as [_ Hp].
  assert (∀ q z, z ∈ ready q → q ≤ prio_top s) as Hle.
  { intros q z Hz. destruct (Z.le_gt_cases q (prio_top s)) as [|Hgt]; [done|].
    rewrite (si_above _ _ HI q Hgt) in Hz. by apply elem_of_nil in Hz. }
  rewrite (si_head _ _ HI). destruct (ready (prio_top s)) as [|x l] eqn:E.
  - exfalso. destruct (decide (prio_top s = 0)) as [H0|H0]; [|by apply (si_top _ _ HI H0)].
    pose proof (Hle p y Hy). assert (p = prio_top s) as -> by lia. rewrite E in Hy. by apply elem_of_nil in Hy.
  - exists x, l. split_and!; try done. apply (si_prio _ _ HI x (prio_top s)). rewrite E. left.
Qed.

Lemma account_spec ready s :
  sinv ready s → bt_ok (timer_st s) →
  ∃ s1, account s = (rdtsc (clock_reads s), s1) ∧ sinv ready s1 ∧ same_static s s1 ∧
    left (scs s1 (current s)) = remaining (rdtsc (clock_reads s)) (bt_deadline (timer_st s)) ∧
    bt_idle (timer_st s1) ∧ current s1 = current s ∧ slinks s1 = slinks s ∧
    (∀ a, a ≠ current s → left (scs s1 a) = left (scs s a)).
Proof.
  intros HI Ht. destruct (bt_dequeue_spec _ Ht) as [Hd Hidle]. unfold account. simpl.
  destruct (bt_dequeue (timer_st s)) as [d tm]. simpl in Hd, Hidle. subst d.
  eexists. split; [done|]. set (s1 := upd_shazard _ _).
  assert (same_static s s1) as S1 by (do 2 (etransitivity; [|apply upd_sc_static; done]); done).
  split_and!; try done; [by eapply sinv_ext| |].
  - unfold s1. simpl. rewrite fn_lookup_insert. by destruct (scs s (current s)).
  - intros a Ha. unfold s1. simpl. by rewrite !fn_lookup_insert_ne.
Qed.

Lemma put_back_spec suspend use_left t ready s :
  sinv ready s → (∀ p, current s ∉ ready p) → 0 ≤ sc_prio (scs s (current s)) < priorities →
  sc_cpu (scs s (current s)) = cpu_id →
  ∃ s2, put_back suspend use_left t s = Some s2 ∧
    sinv (if suspend then ready else queued (current s) use_left s ready) s2 ∧
    same_static s s2 ∧ timer_st s2 = timer_st s ∧
    (∀ a, a ≠ current s → left (scs s2 a) = left (scs s a)) ∧
    (suspend = false → left (scs s2 (current s)) =
       if truthy (left (scs s (current s))) then left (scs s (current s)) else budget (scs s (current s))).
Proof.
  intros HI Hno Hp Hc. unfold put_back. destruct suspend; simpl.
  - unfold sc_del_rcu. destruct (del_rcu _) as [last r].
    assert (same_static s (upd_sc (current s) (set_ref r) s)) as S2 by by apply upd_sc_static.
    assert (sinv ready (upd_sc (current s) (set_ref r) s)) as HI2 by by eapply sinv_ext.
    assert (∀ a, a ≠ current s → left (scs (upd_sc (current s) (set_ref r) s) a) = left (scs s a)) as Hl.
    { intros a Ha. simpl. by rewrite fn_lookup_insert_ne. }
    eexists. split; [done|]. destruct last; split_and!; try done.
    by apply (sinv_ext ready (upd_sc (current s) (set_ref r) s)).
  - destruct (ready_enqueue_spec ready s (current s) t use_left) as (s2 & -> & HI2 & S2 & _ & T2 & _ & Hl & Ho); try done.
    exists s2. split_and!; try done. intros a Ha. by rewrite Ho.
Qed.

Lemma take_top_spec t ready s :
  sinv ready s → bt_idle (timer_st s) → (∃ y p, y ∈ ready p) →
  ∃ s' p x l, take_top t s = Some s' ∧ ready p = x :: l ∧ (∀ q z, z ∈ ready q → q ≤ p) ∧
    current s' = x ∧ sc_prio (scs s x) = p ∧ sinv (<[p := l]> ready) s' ∧ running s' ∧ same_static s s' ∧
    bt_deadline (timer_st s') = wadd t (left (scs s' x)) ∧ (∀ a, left (scs s' a) = left (scs s a)).
Proof.
  intros HI Hidle (y & py & Hy). unfold take_top.
  destruct (top_head _ _ _ _ HI Hy) as (x & l & Hl & -> & Hpx & Hle).
  cbn [mbind option_bind]. set (p := prio_top s) in *. set (s3 := upd_current x _).
  assert (sinv ready s3) as HI3 by by apply (sinv_ext ready s).
  destruct (ready_dequeue_spec _ s3 x t [] l HI3) as (s4 & -> & HI4 & U4 & S4 & C4 & T4 & Ho4 & Lf4).
  { simpl. by rewrite Hpx. }
  change (scs s3) with (scs s) in HI4. rewrite Hpx in HI4.
  assert (x ∈ ready p) as Hxin by (rewrite Hl; left).
  destruct (bt_enqueue_spec (wadd t (left (scs s x))) (timer_st s)) as [Hok Hdl]; [done|].
  exists s4, p, x, l. rewrite C4, T4. split_and!; try done.
  - destruct (S4 x) as (Hp4 & Hc4 & _). split; rewrite C4 || rewrite T4.
    + done.
    + simpl. rewrite Hp4. apply (si_prio _ _ HI x p) in Hxin as [Hxp ?]. change (scs s3) with (scs s). by rewrite Hxp.
    + simpl. rewrite Hc4. by apply (si_cpu _ _ HI x p).
    + done.
  - simpl. by rewrite Hdl, Lf4.
  - intros a. destruct (decide (a = x)) as [->|]; [done|by rewrite Ho4].
Qed.

Lemma schedule_round_spec suspend use_left ready s :
  sinv ready s → running s → (∃ y p, y ∈ requeued suspend use_left s ready p) →
  ∃ s' p x l, schedule_round suspend use_left s = Some (suspends suspend s, s') ∧
    requeued suspend use_left s ready p = x :: l ∧
    (∀ q z, z ∈ requeued suspend use_left s ready q → q ≤ p) ∧
    current s' = x ∧ sc_prio (scs s x) = p ∧
    sinv (<[p := l]> (requeued suspend use_left s ready)) s' ∧ running s' ∧ same_static s s' ∧
    bt_deadline (timer_st s') = wadd (rdtsc (clock_reads s)) (left (scs s' x)) ∧
    (∀ a, a ≠ current s → left (scs s' a) = left (scs s a)) ∧
    (suspends suspend s = false →
     let r := remaining (rdtsc (clock_reads s)) (bt_deadline (timer_st s)) in
     left (scs s' (current s)) = if truthy r then r else budget (scs s (current s))).
Proof.
  intros HI [Hu Hp Hc Ht] Hy. pose proof (unlinked_not_ready _ _ _ HI Hu) as Hno.
  unfold schedule_round. rewrite (proj2 Hu), bool_decide_true, orb_true_r by done.
  destruct (account_spec _ _ HI Ht) as (s1 & -> & HI1 & S1 & Hleft & Hidle & C1 & L1 & O1).
  destruct (S1 (current s)) as (Hpr & Hcp & Hec & Hdis & Hbud). rewrite Hec, Hdis. fold (suspends suspend s).
  destruct (put_back_spec (suspends suspend s) use_left (rdtsc (clock_reads s)) ready s1)
    as (s2 & -> & HI2 & S2 & T2 & O2 & B2); rewrite ?C1; [done|done|lia|congruence|].
  assert ((if suspends suspend s then ready else queued (current s1) use_left s1 ready) =
          requeued suspend use_left s ready) as Heq.
  { unfold requeued, queued. by rewrite C1, Hpr, Hleft. }
  rewrite Heq in HI2. cbn [mbind option_bind].
  destruct (take_top_spec (rdtsc (clock_reads s)) _ s2 HI2) as (s3 & p & x & l & -> & R1 & R2 & R3 & R4 & R5 & R6 & R7 & R8 & R9);
    [by rewrite T2|done|].
  assert (same_static s s2) as S12 by by etransitivity.
  exists s3, p, x, l. split_and!; try done.
  - by destruct (S12 x) as (<- & _).
  - by etransitivity.
  - intros a Ha. rewrite R9, O2, O1 by congruence. done.
  - intros Hs. simpl. rewrite R9. rewrite C1 in B2. rewrite (B2 Hs), Hleft, Hbud. done.
Qed.

(** ** The scheduling loop *)

Definition nready (ready : Z → list obj) : nat :=
  sum_list_with (λ p, length (ready p)) (seqZ 0 priorities).

Lemma nready_take ready p x l :
  0 ≤ p < priorities → ready p = x :: l → nready ready = S (nready (<[p := l]> ready)).
Proof.
  intros Hp Hl. unfold nready.
  assert (∀ ps : list Z, NoDup ps → p ∈ ps →
    sum_list_with (λ p, length (ready p)) ps = S (sum_list_with (λ q, length (<[p := l]> ready q)) ps)) as H.
  { induction ps as [|q ps IH]; [by intros _ ?%elem_of_nil|]. intros [Hq Hnd]%list.NoDup_cons Hin. simpl.
    destruct (decide (p = q)) as [->|Hne].
    - rewrite fn_lookup_insert, Hl. simpl. do 2 f_equal. clear IH Hnd Hin.
      induction ps as [|q' ps IH]; [done|]. simpl. rewrite not_elem_of_cons in Hq.
      rewrite IH by tauto. by rewrite fn_lookup_insert_ne by tauto.
    - rewrite fn_lookup_insert_ne by done. apply elem_of_cons in Hin as [?|Hin]; [done|].
      rewrite IH by done. lia. }
  apply H; [apply NoDup_seqZ|]. apply elem_of_seqZ. unfold priorities in *. lia.
Qed.

(** A context the loop may stop at. *)
Definition eligible s x : Prop := ¬ (disable (scs s x) = true ∧ sc_ec (scs s x) = ec_current).

(** What the loop establishes. *)
Record scheduled s s' (ready' : Z → list obj) : Prop := {
  sd_inv : sinv ready' s';
  sd_running : running s';
  sd_static : same_static s s';
  sd_eligible : eligible s (current s');
  sd_highest : ∀ q z, z ∈ ready' q → q ≤ sc_prio (scs s (current s'));
}.

Lemma eligible_static s s' x : same_static s s' → eligible s' x ↔ eligible s x.
Proof. intros Hs. unfold eligible. by destruct (Hs x) as (_ & _ & -> & -> & _). Qed.

(** From a round that suspends its context on, the ready queues shrink. *)
Lemma schedule_loop_suspending fuel suspend use_left ready s :
  sinv ready s → running s → suspends suspend s = true →
  (∃ y p, y ∈ ready p ∧ eligible s y) → (nready ready ≤ fuel)%nat →
  ∃ s' ready', schedule_wo_activate fuel suspend use_left s = Some s' ∧ scheduled s s' ready' ∧
    (∀ q z, z ∈ ready' q → z ∈ ready q) ∧ current s' ∈ ready (sc_prio (scs s (current s'))).
Proof.
  revert suspend ready s. induction fuel as [|fuel IH]; intros suspend ready s HI HR Hsus (y & py & Hy & Hel) Hf.
  { exfalso. destruct (si_prio _ _ HI y py Hy) as [_ Hp]. destruct (ready py) as [|z l] eqn:E; [by apply elem_of_nil in Hy|].
    rewrite (nready_take ready py z l) in Hf by done. lia. }
  assert (requeued suspend use_left s ready = ready) as Hreq by (unfold requeued; by rewrite Hsus).
  destruct (schedule_round_spec suspend use_left ready s HI HR) as (s1 & p & x & l & Hr & H1 & H2 & H3 & H4 & H5 & H6 & H7 & _ & _);
    rewrite Hreq in *; [eauto|].
  cbn [schedule_wo_activate]. rewrite Hr. cbn [mbind option_bind]. rewrite Hsus, H3.
  assert (x ∈ ready p) as Hxin by (rewrite H1; left). destruct (si_prio _ _ HI x p Hxin) as [_ Hp].
  assert (∀ q z, z ∈ <[p := l]> ready q → z ∈ ready q) as Hsub.
  { intros q z. destruct (decide (p = q)) as [<-|]; [rewrite fn_lookup_insert, H1; by right|by rewrite fn_lookup_insert_ne]. }
  destruct (H7 x) as (_ & _ & Hec & Hdis & _). rewrite Hec, Hdis.
  destruct (disable (scs s x) && bool_decide (sc_ec (scs s x) = ec_current)) eqn:Hd.
  - apply andb_true_iff in Hd as [Hd1 Hd2%bool_decide_eq_true].
    destruct (IH true (<[p := l]> ready) s1) as (s2 & ready2 & -> & [D1 D2 D3 D4 D5] & D6 & D7); try done.
    + exists y, py. split; [|by apply (eligible_static s)].
      destruct (decide (p = py)) as [<-|]; [|by rewrite fn_lookup_insert_ne].
      rewrite fn_lookup_insert. rewrite H1 in Hy. apply elem_of_cons in Hy as [->|]; [|done]. by destruct Hel.
    + rewrite (nready_take ready p x l) in Hf by done. lia.
    + exists s2, ready2. split; [done|]. destruct (H7 (current s2)) as (Hpc & _). rewrite Hpc in *. split_and!; auto.
      split; try done; [by etransitivity|by apply (eligible_static s s1)].
  - exists s1, (<[p := l]> ready). split; [done|]. rewrite H3, H4. split_and!; try done. split; try done.
    + rewrite H3. intros [Hd1 Hd2]. by rewrite Hd1, bool_decide_true in Hd.
    + rewrite H3, H4. intros q z Hz. by eapply H2, Hsub.
Qed.

Lemma eligible_dec s x :
  disable (scs s x) && bool_decide (sc_ec (scs s x) = ec_current) = false → eligible s x.
Proof. intros Hd [Hd1 Hd2]. by rewrite Hd1, bool_decide_true in Hd. Qed.

Lemma schedule_spec fuel suspend use_left ready s :
  sinv ready s → running s →
  (∃ y p, y ∈ requeued suspend use_left s ready p ∧ eligible s y) → (S (nready ready) < fuel)%nat →
  ∃ s' ready', schedule_wo_activate fuel suspend use_left s = Some s' ∧ scheduled s s' ready' ∧
    (∀ q z, z ∈ ready' q → z ∈ requeued suspend use_left s ready q) ∧
    current s' ∈ requeued suspend use_left s ready (sc_prio (scs s (current s'))).
Proof.
  intros HI HR (y & py & Hy & Hel) Hf. destruct fuel as [|fuel]; [lia|]. cbn [schedule_wo_activate].
  destruct (schedule_round_spec suspend use_left ready s HI HR) as (s1 & p & x & l & Hr & H1 & H2 & H3 & H4 & H5 & H6 & H7 & _ & _); [eauto|].
  set (rq := requeued suspend use_left s ready) in *. rewrite Hr. cbn [mbind option_bind]. rewrite H3.
  assert (0 ≤ p < priorities) as Hp.
  { assert (x ∈ rq p) as Hin by (rewrite H1; left). revert Hin. rewrite <-H4. unfold rq, requeued.
    destruct (suspends suspend s); [by apply (si_prio _ _ HI)|].
    change (<[_ := _]> ready) with (queued (current s) use_left s ready) at 1 || idtac.
    destruct (decide (sc_prio (scs s (current s)) = sc_prio (scs s x))) as [Heq|].
    - intros _. rewrite <-Heq. apply HR.
    - rewrite fn_lookup_insert_ne by done. by apply (si_prio _ _ HI). }
  assert (nready rq ≤ S (nready ready))%nat as Hn.
  { unfold rq, requeued. destruct (suspends suspend s); [lia|].
    set (pc := sc_prio (scs s (current s))). set (lc := if _ && _ then _ else _).
    assert (∀ ps : list Z, NoDup ps → (sum_list_with (λ q, length (<[pc := lc]> ready q)) ps ≤
       S (sum_list_with (λ q, length (ready q)) ps))%nat ∧ (pc ∉ ps →
       sum_list_with (λ q, length (<[pc := lc]> ready q)) ps = sum_list_with (λ q, length (ready q)) ps)) as Hps.
    { induction ps as [|q ps IH]; [simpl; auto|]. intros [Hq Hnd]%list.NoDup_cons. destruct (IH Hnd) as [IH1 IH2]. simpl.
      destruct (decide (pc = q)) as [<-|Hne].
      - split; [|rewrite not_elem_of_cons; tauto]. rewrite fn_lookup_insert, IH2 by done.
        assert (length lc = S (length (ready pc))) as ->; [|lia].
        unfold lc. destruct (_ && _); simpl; [done|]. rewrite length_app. simpl. lia.
      - rewrite fn_lookup_insert_ne by done. split; [lia|]. rewrite not_elem_of_cons. intros [_ ?]. by rewrite IH2. }
    apply Hps, NoDup_seqZ. }
  assert (∀ q z, z ∈ <[p := l]> rq q → z ∈ rq q) as Hsub.
  { intros q z. destruct (decide (p = q)) as [<-|]; [rewrite fn_lookup_insert, H1; by right|by rewrite fn_lookup_insert_ne]. }
  destruct (H7 x) as (_ & _ & Hec & Hdis & _). rewrite Hec, Hdis.
  destruct (disable (scs s x) && bool_decide (sc_ec (scs s x) = ec_current)) eqn:Hd.
  - assert (suspends (suspends suspend s) s1 = true) as Hsus.
    { unfold suspends at 1. rewrite H3, Hec, Hdis, Hd. apply orb_true_r. }
    destruct (schedule_loop_suspending fuel (suspends suspend s) use_left (<[p := l]> rq) s1)
      as (s2 & ready2 & -> & [D1 D2 D3 D4 D5] & D6 & D7); try done.
    + exists y, py. split; [|by apply (eligible_static s)].
      destruct (decide (p = py)) as [<-|]; [|by rewrite fn_lookup_insert_ne].
      rewrite fn_lookup_insert. rewrite H1 in Hy. apply elem_of_cons in Hy as [->|]; [|done].
      exfalso. apply Hel. apply andb_true_iff in Hd as [? ?%bool_decide_eq_true]. done.
    + rewrite (nready_take rq p x l) in Hn by done. lia.
    + exists s2, ready2. split; [done|]. destruct (H7 (current s2)) as (Hpc & _). rewrite Hpc in *. split_and!; auto.
      split; try done; [by etransitivity|by apply (eligible_static s s1)].
  - exists s1, (<[p := l]> rq). split; [done|]. rewrite H3, H4. split_and!; try done; [|rewrite H1; left].
    split; try done; rewrite ?H3, ?H4; [by apply eligible_dec|]. intros q z Hz. by eapply H2, Hsub.
Qed.

(** ** Requests of other CPUs *)

(** What [rrq_handler] drops instead of queueing. *)
Definition dropped s x : bool := disable (scs s x) && negb (ec_busy (scs s x)).

Lemma unlink_first L x l :
  ring L (x :: l) →
  ∃ L', unlink x L = Some L' ∧ ring L' l ∧
    (if bool_decide (next L' x = Some x) then None else next L' x) = List.hd_error l ∧
    (∀ a, a ∉ x :: l → next L' a = next L a ∧ prev L' a = prev L a).
Proof.
  intros HR. destruct l as [|y l].
  - destruct HR as [_ [Hn Hp]]. unfold unlink. rewrite Hn. cbn [mbind option_bind]. simpl.
    rewrite fn_lookup_insert, Hp. cbn [mbind option_bind]. eexists. split; [done|]. simpl.
    rewrite fn_lookup_insert, Hn, bool_decide_true by done. split_and!; try done.
    intros a Ha%not_elem_of_cons. by rewrite !fn_lookup_insert_ne by (intros <-; tauto).
  - destruct (unlink_spec L x [] (y :: l) HR) as (L' & -> & HR' & Hn & _ & Hhd & Hf); [done|].
    exists L'. split; [done|]. rewrite Hn, Hhd. simpl. destruct HR as [[Hd _]%list.NoDup_cons _].
    rewrite bool_decide_false by (intros [= ->]; apply Hd; left). split_and!; try done; apply HR' || (intros a Ha; apply Hf).
    rewrite not_elem_of_cons in Ha. tauto.
Qed.

Lemma sc_del_rcu_static x s :
  same_static s (sc_del_rcu x s).2 ∧ slinks (sc_del_rcu x s).2 = slinks s ∧ slist (sc_del_rcu x s).2 = slist s ∧
  prio_top (sc_del_rcu x s).2 = prio_top s ∧ ∀ y, dropped (sc_del_rcu x s).2 y = dropped s y.
Proof.
  unfold sc_del_rcu. destruct (del_rcu _) as [b r]. split_and!; try done; [by apply upd_sc_static|].
  intros y. unfold dropped. simpl. destruct (decide (x = y)) as [->|]; [by rewrite fn_lookup_insert|by rewrite fn_lookup_insert_ne].
Qed.

Lemma rrq_loop_spec fuel t rq ready s :
  sinv ready s → ring (slinks s) rq → (∀ x p, x ∈ rq → x ∉ ready p) →
  (∀ x, x ∈ rq → 0 ≤ sc_prio (scs s x) < priorities ∧ sc_cpu (scs s x) = cpu_id) →
  (length rq < fuel)%nat →
  ∃ s' ready', rrq_loop fuel t (List.hd_error rq) s = Some s' ∧ sinv ready' s' ∧
    ∀ y p, y ∈ ready' p ↔ y ∈ ready p ∨ (y ∈ rq ∧ dropped s y = false ∧ sc_prio (scs s y) = p).
Proof.
  revert rq ready s. induction fuel as [|fuel IH]; intros rq ready s HI HR Hdis Hok Hf; [lia|].
  destruct rq as [|x rq]; simpl.
  { exists s, ready. split_and!; try done. intros y p. split; [by left|]. intros [|[?%elem_of_nil _]]; done. }
  destruct (unlink_first _ _ _ HR) as (L & -> & HR1 & Hptr & Hf1). cbn [mbind option_bind]. rewrite Hptr.
  assert (NoDup (x :: rq)) as [Hx Hnd]%list.NoDup_cons by apply HR.
  set (s1 := upd_links L s).
  assert (sinv ready s1) as HI1.
  { destruct HI as [I1 I2 I3 I4 I5 I6 I7]. split; try done. intros p.
    eapply ring_frame; [| |apply I4]; intros a Ha; apply Hf1; intros Ha'; by apply (Hdis a p). }
  assert (∀ y, y ∈ rq → y ≠ x) as Hyx by (by intros y Hy ->).
  fold (dropped s x). destruct (dropped s x) eqn:Hd.
  - destruct (sc_del_rcu_static x s1) as (S2 & L2 & P2 & T2 & D2).
    destruct (sc_del_rcu x s1) as [last s2]. simpl in S2, L2, P2, T2, D2. cbv beta iota.
    set (s3 := if last then rcu_call x s2 else s2).
    assert (same_static s1 s3 ∧ slinks s3 = L ∧ slist s3 = slist s ∧ prio_top s3 = prio_top s ∧
            ∀ y, dropped s3 y = dropped s y) as (S3 & L3 & P3 & T3 & D3) by (unfold s3; by destruct last).
    clearbody s3. destruct (IH rq ready s3) as (s' & ready' & -> & HI' & Hin).
    + by apply (sinv_ext ready s1).
    + by rewrite L3.
    + intros y p Hy. apply Hdis. by right.
    + intros y Hy. destruct (S3 y) as (-> & -> & _). apply Hok. by right.
    + simpl in Hf. lia.
    + exists s', ready'. split_and!; try done. intros y p. rewrite Hin, D3. destruct (S3 y) as (-> & _).
      change (scs s1) with (scs s). rewrite elem_of_cons. split; [tauto|].
      intros [|[[->|] [Hdy ?]]]; [tauto|congruence|tauto].
  - destruct (ready_enqueue_spec ready s1 x t true) as (s2 & -> & HI2 & S2 & _ & _ & Hf2 & _ & Ho2).
    + done.
    + intros p. apply Hdis. left.
    + apply Hok. left.
    + apply Hok. left.
    + cbn [mbind option_bind].
      destruct (IH rq (queued x true s1 ready) s2) as (s' & ready' & -> & HI' & Hin).
      * done.
      * eapply ring_frame; [| |exact HR1]; intros a Ha; (apply Hf2; [by apply Hyx|intros p; apply Hdis; by right]).
      * intros y p Hy [[-> _]|Hr]%elem_queued; [by apply Hx|]. apply (Hdis y p); [by right|done].
      * intros y Hy. destruct (S2 y) as (-> & -> & _). apply Hok. by right.
      * simpl in Hf. lia.
      * exists s', ready'. split_and!; try done. intros y p. rewrite Hin, elem_queued, elem_of_cons.
        change (scs s1) with (scs s). destruct (S2 y) as (-> & _). change (scs s1) with (scs s).
        assert (y ∈ rq → dropped s2 y = dropped s y) as Hdy.
        { intros Hy. unfold dropped. rewrite Ho2 by by apply Hyx. done. }
        split.
        { intros [[[-> ->]|?]|(Hy & Hdr & ?)]; [auto|auto|]. rewrite Hdy in Hdr by done. tauto. }
        intros [?|([->|Hy] & Hdr & Hp)]; [tauto|left; left; split; congruence|]. right. rewrite Hdy by done. done.
Qed.
End sched.

(** ** Theorems *)

(** C18: Scheduling by priority: from every consistent state in which some
    schedulable context is available, the loop of [schedule_wo_activate]
    terminates within one round per ready context and yields a running context
    that is not disabled on the current EC, was ready (or just preempted), and
    has a priority at least that of every context left in the queues, which
    stay consistent. *)
Theorem schedule_highest {T} `{!BudgetTimer T} cpu_id ec_current rdtsc fuel suspend use_left ready (s : sched T) :
  sinv cpu_id ready s → running cpu_id s →
  (∃ y p, y ∈ requeued ec_current rdtsc suspend use_left s ready p ∧ eligible ec_current s y) →
  (S (nready ready) < fuel)%nat →
  ∃ s' ready', schedule_wo_activate cpu_id ec_current rdtsc fuel suspend use_left s = Some s' ∧
    sinv cpu_id ready' s' ∧ running cpu_id s' ∧ eligible ec_current s (current s') ∧
    current s' ∈ requeued ec_current rdtsc suspend use_left s ready (sc_prio (scs s (current s'))) ∧
    (∀ q z, z ∈ ready' q → z ∈ requeued ec_current rdtsc suspend use_left s ready q ∧
                           q ≤ sc_prio (scs s (current s'))).
Proof.
  intros HI HR He Hf.
  destruct (schedule_spec cpu_id ec_current rdtsc fuel suspend use_left ready s HI HR He Hf)
    as (s' & ready' & Hs & [D1 D2 D3 D4 D5] & D6 & D7).
  exists s', ready'. split_and!; try done. intros q z Hz. split; [by apply D6|by eapply D5].
Qed.

(** Round robin and budgets: when no context of higher priority is ready, a
    running context that gives up the CPU before its deadline is taken again
    and keeps that deadline; one whose deadline has passed moves behind the
    other contexts of its priority, the first of which runs next, and is
    refilled with its budget. *)
Theorem schedule_round_robin {T} `{!BudgetTimer T} cpu_id ec_current rdtsc ready (s : sched T) t d p y l :
  sinv cpu_id ready s → running cpu_id s → suspends ec_current false s = false →
  t = rdtsc (clock_reads s) → d = bt_deadline (timer_st s) → word 64 t → word 64 d →
  p = sc_prio (scs s (current s)) → (∀ q, p < q → ready q = []) → ready p = y :: l →
  ∃ s', schedule_round cpu_id ec_current rdtsc false true s = Some (false, s') ∧
    (t < d → current s' = current s ∧ bt_deadline (timer_st s') = d ∧
       ∃ ready', sinv cpu_id ready' s' ∧ ready' p = y :: l) ∧
    (d ≤ t → current s' = y ∧ left (scs s' (current s)) = budget (scs s (current s)) ∧
       ∃ ready', sinv cpu_id ready' s' ∧ ready' p = l ++ [current s]).
Proof.
  intros HI HR Hsus -> -> Ht Hd Hp Habove Hl.
  set (t := rdtsc _) in *. set (d := bt_deadline _) in *.
  pose proof (unlinked_not_ready _ _ _ _ HI (ru_unlinked _ _ HR)) as Hno.
  set (front := if true && truthy (remaining t d) then current s :: ready p else ready p ++ [current s]).
  assert (requeued ec_current rdtsc false true s ready = <[p := front]> ready) as Hrq.
  { unfold requeued. rewrite Hsus. rewrite <-Hp. done. }
  destruct (schedule_round_spec cpu_id ec_current rdtsc false true ready s HI HR)
    as (s' & q & x & l' & Hr & H1 & H2 & H3 & H4 & H5 & H6 & H7 & H8 & H9 & H10).
  { exists (current s), p. rewrite Hrq, fn_lookup_insert. unfold front. destruct (_ && _); [left|].
    apply elem_of_app. right. left. }
  rewrite Hrq in *. rewrite Hsus in Hr. specialize (H10 Hsus). simpl in H10. fold t d in H8, H10.
  assert (q = p) as ->.
  { assert (p ≤ q) as Hge.
    { apply (H2 p (current s)). rewrite fn_lookup_insert. unfold front. destruct (_ && _); [left|].
      apply elem_of_app. right. left. }
    destruct (decide (q = p)) as [|Hne]; [done|]. rewrite fn_lookup_insert_ne in H1 by done.
    rewrite Habove in H1 by lia. done. }
  rewrite fn_lookup_insert in H1. exists s'. split; [done|]. unfold word in *. split; intros Htd.
  - assert (remaining t d = d - t) as Hrem.
    { unfold remaining. destruct (Z.ltb_spec t d); [|lia]. apply wsub_small. lia. }
    assert (truthy (remaining t d) = true) as Htr by (rewrite truthy_true; lia).
    unfold front in H1. rewrite Htr in H1, H10. simpl in H1. injection H1 as <- <-.
    split_and!; [done| |].
    + rewrite H8, H10, Hrem. rewrite wadd_small; lia.
    + eexists. split; [done|]. by rewrite fn_lookup_insert.
  - assert (truthy (remaining t d) = false) as Htr.
    { rewrite truthy_false. unfold remaining. destruct (Z.ltb_spec t d); lia. }
    unfold front in H1. rewrite Htr in H1, H10. simpl in H1. rewrite Hl in H1. simpl in H1. injection H1 as <- <-.
    split_and!; [done|done|]. eexists. split; [done|]. by rewrite fn_lookup_insert.
Qed.

(** No wake-up is lost between CPUs: [rrq_handler] terminates and moves
    every context of the request queue to the ready queue of its priority,
    except those whose EC is being destroyed, keeps the contexts that were
    ready, and empties the request queue. *)
Theorem rrq_handler_moves_all {T} `{!BudgetTimer T} cpu_id rdtsc fuel rq ready (s : sched T) :
  sinv cpu_id ready s → ring (slinks s) rq → rqs s cpu_id = List.hd_error rq →
  (∀ x p, x ∈ rq → x ∉ ready p) →
  (∀ x, x ∈ rq → 0 ≤ sc_prio (scs s x) < priorities ∧ sc_cpu (scs s x) = cpu_id) →
  (length rq < fuel)%nat →
  ∃ s' ready', rrq_handler cpu_id rdtsc fuel s = Some s' ∧ sinv cpu_id ready' s' ∧ rqs s' cpu_id = None ∧
    ∀ y p, y ∈ ready' p ↔ y ∈ ready p ∨ (y ∈ rq ∧ dropped s y = false ∧ sc_prio (scs s y) = p).
Proof.
  intros HI HR Hq Hdis Hok Hf. unfold rrq_handler. simpl. set (s1 := Sched _ _ _ _ _ _ _ _ _ _ _ _ _ _ _).
  assert (sinv cpu_id ready s1) as HI1 by by apply (sinv_ext cpu_id ready s).
  destruct (rrq_loop_spec cpu_id 0 rdtsc fuel (rdtsc (clock_reads s)) rq ready s1) as (s2 & ready' & Hl & HI2 & Hin); try done.
  rewrite Hq, Hl. cbn [mbind option_bind]. exists (upd_rqs <[cpu_id := None]> s2), ready'. split_and!; try done.
  - by apply (sinv_ext cpu_id ready' s2).
  - simpl. by rewrite fn_lookup_insert.
Qed.

(** ** The budget timeout as a timer of the scheduler *)

Lemma insert_before_length f t time l : length (insert_before f t time l) = S (length l).
Proof. induction l as [|x l IH]; simpl; [done|]. destruct (_ <=? _); simpl; [done|]. by rewrite IH. Qed.

Lemma insert_before_in f t time l : t ∈ insert_before f t time l.
Proof. induction l as [|x l IH]; simpl; [left|]. destruct (_ <=? _); [left|by right]. Qed.

(** Timeout [b] of a queue of at most [n] other timeouts. *)
Definition timeout_budget (b : obj) (n : nat) : BudgetTimer timeouts.
Proof.
  refine {|
    bt_ok T := ∃ l, tinv l T ∧ (length l ≤ S n)%nat ∧ (b ∉ l → (length l ≤ n)%nat);
    bt_idle T := ∃ l, tinv l T ∧ (b ∉ l) ∧ (length l ≤ n)%nat;
    bt_deadline T := ttime T b;
    bt_dequeue T := Timeout.dequeue b T;
    bt_enqueue d T := default T (Timeout.enqueue (S n) b d T);
  |}.
  - intros T (l & HT & H1 & H2). cbv beta. destruct (decide (b ∈ l)) as [Hb|Hb].
    + apply list_elem_of_split in Hb as (l1 & l2 & ->).
      destruct (dequeue_tinv _ _ _ _ HT) as (T' & -> & HT' & _). split; [done|]. exists (l1 ++ l2).
      split; [done|]. rewrite length_app in *. simpl in H1. split; [|lia].
      pose proof (ti_nodup _ _ HT) as Hnd. rewrite (Permutation_app_comm l1) in Hnd.
      change (NoDup (b :: l2 ++ l1)) in Hnd. apply list.NoDup_cons in Hnd as [Hn _].
      rewrite elem_of_app in *. tauto.
    + destruct (dequeue_inactive _ _ _ HT Hb) as (T' & -> & HT' & _). split; [done|]. exists l. auto.
  - intros d T (l & HT & Hb & Hn).
    destruct (enqueue_tinv (S n) l b d T HT Hb ltac:(lia)) as (T' & -> & HT' & Htt & _). simpl. split.
    + exists (insert_before (ttime T) b d l). split; [done|]. rewrite insert_before_length. split; [lia|].
      intros Hno. destruct Hno. apply insert_before_in.
    + by rewrite Htt, fn_lookup_insert.
Defined.

(** ** Examples

    CPU 0 runs context 3; contexts other than 0 have priority 5. *)

Definition demo_sc (x : obj) : sc :=
  Sc x 0 (if decide (x = 0%nat) then 0 else 5) false 100 0 0 0 0 1 false.

Definition demo_idle : sched timeouts :=
  Sched no_links (λ _, None) 0 3 demo_sc (λ _, None) 0 t0 (λ _, 0) (λ _, 0) (λ _, 0) [] [] [] 0.

Lemma demo_idle_inv : sinv 0 (λ _, []) demo_idle.
Proof. split; try done; by intros ? ? ?%elem_of_nil. Qed.

#[local] Instance demo_timer : BudgetTimer timeouts := timeout_budget 9 2.

Definition demo_clock (i : nat) : Z := 7.

Definition demo_one : sched timeouts := default demo_idle (ready_enqueue 0 1 0 false true demo_idle).

Lemma demo_one_inv : sinv 0 (<[5 := [1%nat]]> (λ _, [])) demo_one.
Proof.
  destruct (ready_enqueue_spec 0 0 demo_clock (λ _, []) demo_idle 1 0 true demo_idle_inv) as (s & Hs & HI & _); try done.
  { intros p. apply not_elem_of_nil. }
  unfold demo_one. by rewrite Hs.
Qed.

Lemma demo_one_running : running 0 demo_one.
Proof.
  split; [vm_compute; done|vm_compute; done|vm_compute; done|].
  change (timer_st demo_one) with t0. exists []. split; [apply t0_inv|]. simpl. split; lia.
Qed.

Lemma schedule_highest_witness :
  ∃ s', schedule_wo_activate 0 4 demo_clock 3 false true demo_one = Some s' ∧ running 0 s' ∧ current s' = 1%nat.
Proof.
  destruct (schedule_highest 0 4 demo_clock 3 false true _ demo_one demo_one_inv demo_one_running)
    as (s' & ready' & Hs & _ & HR & _).
  - exists 1%nat, 5. split; [vm_compute; left|]. intros [Hd _]. vm_compute in Hd. done.
  - vm_compute. lia.
  - exists s'. split; [done|]. split; [done|]. vm_compute in Hs. by injection Hs as <-.
Defined.

Lemma schedule_round_robin_witness :
  ∃ s', schedule_round 0 4 demo_clock false true demo_one = Some (false, s') ∧
    current s' = 1%nat ∧ left (scs s' 3) = 100.
Proof.
  destruct (schedule_round_robin 0 4 demo_clock _ demo_one 7 0 5 1 [] demo_one_inv demo_one_running)
    as (s' & Hs & _ & Hr); try (vm_compute; done).
  - intros q Hq. by rewrite fn_lookup_insert_ne by lia.
  - exists s'. destruct (Hr ltac:(lia)) as (? & Hl & _). done.
Defined.

(** Context 1 waits in the request queue of CPU 0. *)
Definition demo_remote : sched timeouts :=
  upd_rqs (λ _, λ c, if decide (c = 0) then Some 1%nat else None)
    (upd_links (set_prev 1 (Some 1%nat) (set_next 1 (Some 1%nat) no_links)) demo_idle).

Lemma rrq_handler_moves_all_witness :
  ∃ s' ready', rrq_handler 0 demo_clock 2 demo_remote = Some s' ∧ sinv 0 ready' s' ∧ 1%nat ∈ ready' 5.
Proof.
  destruct (rrq_handler_moves_all 0 demo_clock 2 [1%nat] (λ _, []) demo_remote)
    as (s' & ready' & Hs & HI & _ & Hin).
  - split; try done; by intros ? ? ?%elem_of_nil.
  - split; [apply NoDup_singleton|]. by vm_compute.
  - done.
  - intros x p _. apply not_elem_of_nil.
  - intros x ->%list_elem_of_singleton. done.
  - simpl. lia.
  - exists s', ready'. split_and!; try done. apply Hin. right. split; [left|]. done.
Defined.
