(* ===== verification/Sm.v ===== *)
(** Semaphores and signals: [Sm::dn], [up], [timeout], [reset] and [Si::submit],
    [chain].

    A semaphore keeps a counter, a queue of blocked ECs and a queue of pending
    signals.  A signal is itself a semaphore, bound ([Si::sm]) to the semaphore
    that collects it, and its own counter counts the submissions not yet
    delivered.  Semaphores, ECs and signals are numbered; the links of the two
    kinds of queues are those of [Queue.v].  What happens to an EC is logged.
    The kernel path of a blocked EC does not return; operations report that by
    a flag.  [None] is a failed assertion or a null dereference. *)
From S2P Require Import Prelude Bitmap Queue Rcu.
Local Open Scope Z_scope.

Record sm := Sm {
  counter : Z;
  ec_queue : queue;
  si_queue : queue;
  si_sm : option obj;     (** the semaphore a signal is bound to *)
  value : Z;
  kern_space : bool;      (** created in the kernel's own object space *)
  sm_ref : Z;
}.

Inductive sm_event :=
  | Set_si_regs (ec : obj) (sig cnt : Z)
  | Released (ec : obj) (cont : option nat)
  | Set_timeout (ec : obj) (t : Z) (s : obj)
  | Scheduled (suspend : bool)
  | Blocked_sc (ec : obj)
  | Clr_timeout (ec : obj)
  | Ec_rcu (ec : obj)
  | Sm_rcu (s : obj).

Record world := World {
  sms : obj → sm;
  ec_links : links;
  si_links : links;
  ec_refs : obj → Z;
  sm_log : list sm_event;     (** newest first *)
}.

Implicit Types (W : world) (s e : obj).

Definition upd_sm s (f : sm → sm) W : world :=
  World (<[s := f (sms W s)]> (sms W)) (ec_links W) (si_links W) (ec_refs W) (sm_log W).
Definition upd_ec_ref e (r : Z) W : world :=
  World (sms W) (ec_links W) (si_links W) (<[e := r]> (ec_refs W)) (sm_log W).
Definition emit (x : sm_event) W : world :=
  World (sms W) (ec_links W) (si_links W) (ec_refs W) (x :: sm_log W).

Definition set_counter (c : Z) (x : sm) : sm :=
  Sm c (ec_queue x) (si_queue x) (si_sm x) (value x) (kern_space x) (sm_ref x).
Definition set_ec_queue (q : queue) (x : sm) : sm :=
  Sm (counter x) q (si_queue x) (si_sm x) (value x) (kern_space x) (sm_ref x).
Definition set_si_queue (q : queue) (x : sm) : sm :=
  Sm (counter x) (ec_queue x) q (si_sm x) (value x) (kern_space x) (sm_ref x).
Definition set_si_sm (t : option obj) (x : sm) : sm :=
  Sm (counter x) (ec_queue x) (si_queue x) t (value x) (kern_space x) (sm_ref x).
Definition set_sm_ref (r : Z) (x : sm) : sm :=
  Sm (counter x) (ec_queue x) (si_queue x) (si_sm x) (value x) (kern_space x) r.

(** ** Queue operations on the world *)

Definition enqueue_ec s e W : option world :=
  '(q, L) ← enqueue e (ec_queue (sms W s)) (ec_links W);
  let W := upd_sm s (set_ec_queue q) W in
  Some (World (sms W) L (si_links W) (ec_refs W) (sm_log W)).

Definition dequeue_ec s (oe : option obj) W : option (bool * world) :=
  '(ok, q, L) ← dequeue oe (ec_queue (sms W s)) (ec_links W);
  let W := upd_sm s (set_ec_queue q) W in
  Some (ok, World (sms W) L (si_links W) (ec_refs W) (sm_log W)).

Definition enqueue_si s i W : option world :=
  '(q, L) ← enqueue i (si_queue (sms W s)) (si_links W);
  let W := upd_sm s (set_si_queue q) W in
  Some (World (sms W) (ec_links W) L (ec_refs W) (sm_log W)).

Definition dequeue_si s (oi : option obj) W : option (bool * world) :=
  '(ok, q, L) ← dequeue oi (si_queue (sms W s)) (si_links W);
  let W := upd_sm s (set_si_queue q) W in
  Some (ok, World (sms W) (ec_links W) L (ec_refs W) (sm_log W)).

(** ** Sm *)

Definition reset s W : Z * world := (counter (sms W s), upd_sm s (set_counter 0) W).

Definition queued (i : obj) W : bool := negb (bool_decide (next (si_links W) i = None)).

(** [Ec::blocked] for an EC whose continuation is set, as every caller of [dn]
    sets it before. *)
Definition blocked e W : bool := negb (bool_decide (next (ec_links W) e = None)).

(** [others] is what other CPUs do between the release of the lock and
    [Ec::block_sc], which returns at once when the EC was woken there.  The flag
    says that the caller goes on. *)
Definition dn_with (others : world → world) s (zero : bool) (t : Z) e (block : bool) W : option (bool * world) :=
  if truthy (counter (sms W s)) then
    let W := upd_sm s (λ x, set_counter (if zero then 0 else wsub (counter x) 1) x) W in
    let si := head (si_queue (sms W s)) in
    '(ok, W) ← dequeue_si s si W;
    if ok : bool then
      i ← si;
      let '(c, W) := reset i W in
      Some (true, emit (Set_si_regs e (value (sms W i)) c) W)
    else Some (true, W)
  else
    let '(ok, r) := add_ref (ec_refs W e) in
    let W := upd_ec_ref e r W in
    if negb ok then Some (false, emit (Scheduled block) W)
    else
      W ← enqueue_ec s e W;
      if negb block then Some (false, emit (Scheduled false) W)
      else
        let W := others (emit (Set_timeout e t s) W) in
        if blocked e W then Some (false, emit (Scheduled true) (emit (Blocked_sc e) W))
        else Some (true, emit (Clr_timeout e) W).

(** No other CPU in between. *)
Definition dn : obj → bool → Z → obj → bool → world → option (bool * world) := dn_with (λ W, W).

(** The loop of [up]: [ec] is the EC woken in the round before. *)
Fixpoint up_loop (fuel : nat) s (c : option nat) (si : option obj) (ec : option obj) W : option world :=
  match fuel with
  | O => None
  | S fuel =>
    let W := match ec with Some e => emit (Ec_rcu e) W | None => W end in
    let ec := head (ec_queue (sms W s)) in
    '(ok, W) ← dequeue_ec s ec W;
    if negb ok then
      match si with
      | Some i =>
        if queued i W then Some W
        else W ← enqueue_si s i W; Some (upd_sm s (λ x, set_counter (wadd (counter x) 1) x) W)
      | None => Some (upd_sm s (λ x, set_counter (wadd (counter x) 1) x) W)
      end
    else
      e ← ec;
      let W := match si with
               | Some i => let '(n, W) := reset i W in emit (Set_si_regs e (value (sms W i)) n) W
               | None => W
               end in
      let W := emit (Released e c) W in
      let '(last, r) := del_rcu (ec_refs W e) in
      let W := upd_ec_ref e r W in
      if last : bool then up_loop fuel s c si (Some e) W else Some W
  end.

Definition up (fuel : nat) s (c : option nat) (si : option obj) W : option world :=
  up_loop fuel s c si None W.

(** [Sys_regs::COM_TIM], the continuation of an EC whose timeout expired. *)
Definition com_tim : nat := 1.

Definition timeout s e W : option world :=
  '(ok, W) ← dequeue_ec s (Some e) W;
  if ok : bool then Some (emit (Released e (Some com_tim)) W) else Some W.

Definition add_to_rcu (rcu_call : obj → world → bool * world) s W : world :=
  let '(ok, r) := add_ref (sm_ref (sms W s)) in
  let W := upd_sm s (set_sm_ref r) W in
  if negb ok then W
  else
    let '(queued, W) := rcu_call s W in
    if queued then W
    else
      let '(last, r) := del_rcu (sm_ref (sms W s)) in
      let W := upd_sm s (set_sm_ref r) W in
      if last then (rcu_call s W).2 else W.

(** The destructor's loop wakes the waiters until the counter is positive. *)
Definition bad_cap : nat := 2.

Fixpoint sm_destroy (n fuel : nat) s W : option world :=
  match n with
  | O => None
  | S n =>
    if truthy (counter (sms W s)) then Some W
    else W ← up fuel s (Some bad_cap) None W; sm_destroy n fuel s W
  end.

(** ** Si *)

Definition submit_user (fuel : nat) i W : option world :=
  W ← up fuel i None None W;
  match si_sm (sms W i) with
  | None => Some W
  | Some t => up fuel t None (Some i) W
  end.

(** [submit]: a kernel semaphore forwards to the one it is chained to. *)
Fixpoint submit (depth fuel : nat) i W : option world :=
  match depth with
  | O => None
  | S depth =>
    match (if kern_space (sms W i) then si_sm (sms W i) else None) with
    | Some si => submit depth fuel si W
    | None => submit_user fuel i W
    end
  end.

Fixpoint repeat_submit (n : nat) (depth fuel : nat) i W : option world :=
  match n with
  | O => Some W
  | S n => W ← submit depth fuel i W; repeat_submit n depth fuel i W
  end.

(** [chain]: bind the kernel semaphore [k] to [si] and pass on what it counted;
    the 32-bit loop counter never reaches a count of 2^32 or more. *)
Definition chain (depth fuel : nat) k (si : option obj) W : option world :=
  if negb (kern_space (sms W k)) then None
  else
    let W := match si_sm (sms W k) with
             | Some o =>
               let '(last, r) := del_rcu (sm_ref (sms W o)) in
               let W := upd_sm o (set_sm_ref r) W in
               if last : bool then emit (Sm_rcu o) W else W
             | None => W
             end in
    let W := upd_sm k (set_si_sm si) W in
    W ← match si with
        | Some n =>
          let '(ok, r) := add_ref (sm_ref (sms W n)) in
          if ok : bool then Some (upd_sm n (set_sm_ref r) W) else None
        | None => Some W
        end;
    let '(c, W) := reset k W in
    if c <? 2 ^ 32 then repeat_submit (Z.to_nat c) depth fuel k W else None.

(** [Si::~Si]. *)
Definition si_destroy i W : option (bool * world) :=
  match si_sm (sms W i) with
  | None => Some (false, W)
  | Some t =>
    W ← (if queued i W then '(ok, W) ← dequeue_si t (Some i) W; if ok : bool then Some W else None else Some W);
    let '(last, r) := del_ref (sm_ref (sms W t)) in
    Some (last, upd_sm t (set_sm_ref r) W)
  end.

(** ** Families of queues

    [ws s] lists the members of queue [s]; an object is in one queue at most,
    and unlinked when it is in none. *)

Record family (L : links) (qs : obj → queue) (ws : obj → list obj) : Prop := {
  fa_rep : ∀ s, queue_rep L (qs s) (ws s);
  fa_disj : ∀ s s' e, e ∈ ws s → e ∈ ws s' → s = s';
  fa_out : ∀ e, (∀ s, e ∉ ws s) → unlinked L e;
}.

Lemma family_ext L qs qs' ws : (∀ s, qs' s = qs s) → family L qs ws → family L qs' ws.
Proof. intros Hq [F1 F2 F3]. split; [|done|done]. intros s. by rewrite Hq. Qed.

(** Replacing the members of one queue by a subset or superset whose new
    members were free; [L'] differs only at old and new members. *)
Lemma family_update L L' qs qs' ws s l :
  family L qs ws → queue_rep L' (qs' s) l → (∀ r, r ≠ s → qs' r = qs r) →
  (∀ a, a ∈ l → a ∈ ws s ∨ ∀ r, a ∉ ws r) →
  (∀ a, (a ∉ l) → a ∈ ws s → unlinked L' a) →
  same_links (λ a, (a ∉ l) ∧ (a ∉ ws s)) L L' →
  family L' qs' (<[s := l]> ws).
Proof.
  intros [F1 F2 F3] Hl Hq Hnew Hold Hf.
  assert (∀ r a, a ∈ (<[s := l]> ws) r → (r = s ∧ a ∈ l) ∨ (r ≠ s ∧ a ∈ ws r)) as Hin.
  { intros r a. destruct (decide (s = r)) as [->|]; [rewrite fn_lookup_insert; auto|].
    rewrite fn_lookup_insert_ne by done. auto. }
  assert (∀ r a, r ≠ s → a ∈ ws r → (a ∉ l) ∧ (a ∉ ws s)) as Hsep.
  { intros r a Hr Ha. assert (a ∉ ws s) as Hs by (intros Hs; apply Hr; by eapply F2). split; [|done].
    intros Hal. destruct (Hnew a Hal) as [|Hn]; [done|by apply (Hn r)]. }
  split.
  - intros r. destruct (decide (s = r)) as [->|]; [by rewrite fn_lookup_insert|].
    rewrite fn_lookup_insert_ne, Hq by done. eapply queue_rep_frame; [|apply F1].
    intros a Ha. apply Hf. by apply (Hsep r).
  - intros r r' a [[-> Ha]|[Hr Ha]]%Hin [[-> Ha']|[Hr' Ha']]%Hin; [done| | |by eapply F2].
    + by destruct (Hsep r' a Hr' Ha').
    + by destruct (Hsep r a Hr Ha).
  - intros a Ha. assert (a ∉ l) as Hal by (specialize (Ha s); by rewrite fn_lookup_insert in Ha).
    destruct (decide (a ∈ ws s)) as [Hs|Hs]; [by apply Hold|].
    destruct (Hf a) as [H1 H2]; [done|]. unfold unlinked. rewrite H1, H2. apply F3.
    intros r Hr. destruct (decide (s = r)) as [->|]; [done|]. apply (Ha r). by rewrite fn_lookup_insert_ne.
Qed.

Lemma family_enqueue L qs ws s e :
  family L qs ws → (∀ r, e ∉ ws r) →
  ∃ q L', enqueue e (qs s) L = Some (q, L') ∧
    ∀ qs', qs' s = q → (∀ r, r ≠ s → qs' r = qs r) → family L' qs' (<[s := ws s ++ [e]]> ws).
Proof.
  intros HF He. destruct (enqueue_spec L (qs s) (ws s) e (fa_rep _ _ _ HF s) (He s)) as (q & L' & -> & HR & Hf).
  exists q, L'. split; [done|]. intros qs' Hs Ho. eapply family_update; [done|by rewrite Hs|done| | |].
  - intros a [?|Ha]%elem_of_app; [by left|]. apply list_elem_of_singleton in Ha as ->. by right.
  - intros a Hn Ha. destruct Hn. apply elem_of_app. by left.
  - intros a [Ha1 Ha2]. apply Hf. rewrite elem_of_app, list_elem_of_singleton in Ha1. rewrite elem_of_cons. tauto.
Qed.

Lemma family_dequeue L qs ws s l1 e l2 :
  family L qs ws → ws s = l1 ++ e :: l2 →
  ∃ q L', dequeue (Some e) (qs s) L = Some (true, q, L') ∧
    ∀ qs', qs' s = q → (∀ r, r ≠ s → qs' r = qs r) → family L' qs' (<[s := l1 ++ l2]> ws).
Proof.
  intros HF Hs. pose proof (fa_rep _ _ _ HF s) as HR. rewrite Hs in HR.
  destruct (dequeue_spec L (qs s) l1 e l2 HR) as (q & L' & -> & HR' & Hu & Hf).
  exists q, L'. split; [done|]. intros qs' Hq Ho. eapply family_update; [done|by rewrite Hq|done| | |].
  - intros a Ha. left. rewrite Hs, elem_of_app, elem_of_cons. rewrite elem_of_app in Ha. tauto.
  - intros a Hn. rewrite Hs, !elem_of_app, elem_of_cons in *. intros Ha.
    assert (a = e) as -> by tauto. done.
  - intros a [Ha1 Ha2]. apply Hf. by rewrite <-Hs.
Qed.

Lemma family_head L qs ws s : family L qs ws → head (qs s) = List.hd_error (ws s).
Proof. intros HF. apply (fa_rep _ _ _ HF). Qed.

(** ** Invariant of the world *)

Record winv (ws sg : obj → list obj) W : Prop := {
  wi_ec : family (ec_links W) (λ s, ec_queue (sms W s)) ws;
  wi_si : family (si_links W) (λ s, si_queue (sms W s)) sg;
  wi_range : ∀ s, word 64 (counter (sms W s));
  wi_wait : ∀ s, 0 < counter (sms W s) → ws s = [];
}.

(** Changes that keep the queues. *)
Lemma winv_ext ws sg W W' :
  ec_links W' = ec_links W → si_links W' = si_links W →
  (∀ s, ec_queue (sms W' s) = ec_queue (sms W s) ∧ si_queue (sms W' s) = si_queue (sms W s)) →
  (∀ s, word 64 (counter (sms W' s)) ∧ (0 < counter (sms W' s) → ws s = [])) →
  winv ws sg W → winv ws sg W'.
Proof.
  intros He Hs Hq Hc [W1 W2 W3 W4]. split.
  - rewrite He. eapply family_ext; [|exact W1]. intros s. apply Hq.
  - rewrite Hs. eapply family_ext; [|exact W2]. intros s. apply Hq.
  - intros s. apply Hc.
  - intros s. apply Hc.
Qed.

Lemma set_counter_winv ws sg s c W :
  winv ws sg W → word 64 c → (0 < c → ws s = []) → winv ws sg (upd_sm s (set_counter c) W).
Proof.
  intros HW Hc Hs. apply (winv_ext ws sg W); [done|done| | |done]; intros r; simpl;
    (destruct (decide (s = r)) as [->|]; [rewrite fn_lookup_insert; simpl|rewrite fn_lookup_insert_ne by done]).
  - done.
  - done.
  - done.
  - split; [apply HW|apply (wi_wait _ _ _ HW)].
Qed.

Lemma upd_sm_at s f W : sms (upd_sm s f W) s = f (sms W s).
Proof. simpl. by rewrite fn_lookup_insert. Qed.

Lemma upd_sm_ne s f W r : r ≠ s → sms (upd_sm s f W) r = sms W r.
Proof. intros. simpl. by rewrite fn_lookup_insert_ne. Qed.

(** Fields that queue operations leave alone. *)
Definition same_rest W W' : Prop :=
  ec_refs W' = ec_refs W ∧ sm_log W' = sm_log W ∧
  ∀ r, counter (sms W' r) = counter (sms W r) ∧ si_sm (sms W' r) = si_sm (sms W r) ∧
       value (sms W' r) = value (sms W r) ∧ kern_space (sms W' r) = kern_space (sms W r).

Ltac upd_sm_cases r s :=
  simpl; destruct (decide (s = r)) as [->|]; [rewrite !fn_lookup_insert|rewrite !fn_lookup_insert_ne by done].

Lemma enqueue_ec_winv ws sg s e W :
  winv ws sg W → (∀ r, e ∉ ws r) → counter (sms W s) = 0 →
  ∃ W', enqueue_ec s e W = Some W' ∧ winv (<[s := ws s ++ [e]]> ws) sg W' ∧ same_rest W W'.
Proof.
  intros [W1 W2 W3 W4] He Hc. unfold enqueue_ec.
  destruct (family_enqueue _ _ _ s e W1 He) as (q & L & -> & Hq). cbn [mbind option_bind].
  eexists. split; [done|]. split; [split|].
  - apply Hq; [simpl; by rewrite fn_lookup_insert|]. intros r Hr. simpl. by rewrite fn_lookup_insert_ne.
  - eapply family_ext; [|exact W2]. intros r. by upd_sm_cases r s.
  - intros r. upd_sm_cases r s; apply W3.
  - intros r. upd_sm_cases r s; [simpl; lia|]. apply W4.
  - split_and!; try done; intros r; upd_sm_cases r s; done.
Qed.

Lemma dequeue_ec_winv ws sg s l1 e l2 W :
  winv ws sg W → ws s = l1 ++ e :: l2 →
  ∃ W', dequeue_ec s (Some e) W = Some (true, W') ∧ winv (<[s := l1 ++ l2]> ws) sg W' ∧ same_rest W W'.
Proof.
  intros [W1 W2 W3 W4] Hs. unfold dequeue_ec.
  destruct (family_dequeue _ _ _ s l1 e l2 W1 Hs) as (q & L & -> & Hq). cbn [mbind option_bind].
  eexists. split; [done|]. split; [split|].
  - apply Hq; [simpl; by rewrite fn_lookup_insert|]. intros r Hr. simpl. by rewrite fn_lookup_insert_ne.
  - eapply family_ext; [|exact W2]. intros r. by upd_sm_cases r s.
  - intros r. upd_sm_cases r s; apply W3.
  - intros r. upd_sm_cases r s; simpl; [|apply W4]. intros Hc. apply W4 in Hc. rewrite Hs in Hc. by destruct l1.
  - split_and!; try done; intros r; upd_sm_cases r s; done.
Qed.

Lemma enqueue_si_winv ws sg s i W :
  winv ws sg W → (∀ r, i ∉ sg r) →
  ∃ W', enqueue_si s i W = Some W' ∧ winv ws (<[s := sg s ++ [i]]> sg) W' ∧ same_rest W W'.
Proof.
  intros [W1 W2 W3 W4] Hi. unfold enqueue_si.
  destruct (family_enqueue _ _ _ s i W2 Hi) as (q & L & -> & Hq). cbn [mbind option_bind].
  eexists. split; [done|]. split; [split|].
  - eapply family_ext; [|exact W1]. intros r. by upd_sm_cases r s.
  - apply Hq; [simpl; by rewrite fn_lookup_insert|]. intros r Hr. simpl. by rewrite fn_lookup_insert_ne.
  - intros r. upd_sm_cases r s; apply W3.
  - intros r. upd_sm_cases r s; apply W4.
  - split_and!; try done; intros r; upd_sm_cases r s; done.
Qed.

Lemma dequeue_si_winv ws sg s i l W :
  winv ws sg W → sg s = i :: l →
  ∃ W', dequeue_si s (Some i) W = Some (true, W') ∧ winv ws (<[s := l]> sg) W' ∧ same_rest W W'.
Proof.
  intros [W1 W2 W3 W4] Hs. unfold dequeue_si.
  destruct (family_dequeue _ _ _ s [] i l W2 Hs) as (q & L & -> & Hq). cbn [mbind option_bind].
  eexists. split; [done|]. split; [split|].
  - eapply family_ext; [|exact W1]. intros r. by upd_sm_cases r s.
  - apply Hq; [simpl; by rewrite fn_lookup_insert|]. intros r Hr. simpl. by rewrite fn_lookup_insert_ne.
  - intros r. upd_sm_cases r s; apply W3.
  - intros r. upd_sm_cases r s; apply W4.
  - split_and!; try done; intros r; upd_sm_cases r s; done.
Qed.

(** Dequeueing from an empty queue. *)
Lemma dequeue_none ws sg s W :
  winv ws sg W →
  (ws s = [] → ∃ W', dequeue_ec s (head (ec_queue (sms W s))) W = Some (false, W') ∧ winv ws sg W' ∧ same_rest W W' ∧
     si_links W' = si_links W) ∧
  (sg s = [] → ∃ W', dequeue_si s (head (si_queue (sms W s))) W = Some (false, W') ∧ winv ws sg W' ∧ same_rest W W').
Proof.
  intros HW. split; intros Hs.
  - unfold dequeue_ec. rewrite (family_head _ _ _ s (wi_ec _ _ _ HW)), Hs. cbn [List.hd_error dequeue mbind option_bind].
    eexists. split; [done|]. split; [|split; [split_and!; try done; intros r; upd_sm_cases r s; done|done]].
    apply (winv_ext ws sg W); try done; intros r; upd_sm_cases r s; try done; split; apply HW.
  - unfold dequeue_si. rewrite (family_head _ _ _ s (wi_si _ _ _ HW)), Hs. cbn [List.hd_error dequeue mbind option_bind].
    eexists. split; [done|]. split; [|split_and!; try done; intros r; upd_sm_cases r s; done].
    apply (winv_ext ws sg W); try done; intros r; upd_sm_cases r s; try done; split; apply HW.
Qed.

Lemma queued_in ws sg i r W : winv ws sg W → i ∈ sg r → queued i W = true.
Proof.
  intros HW Hr. unfold queued.
  destruct (ring_linked _ _ i (proj2 (fa_rep _ _ _ (wi_si _ _ _ HW) r)) Hr) as (n & p & -> & _).
  by rewrite bool_decide_false.
Qed.

Lemma queued_out ws sg i W : winv ws sg W → (∀ r, i ∉ sg r) → queued i W = false.
Proof.
  intros HW Hr. unfold queued. destruct (fa_out _ _ _ (wi_si _ _ _ HW) i Hr) as [-> _]. done.
Qed.

(** ** Down *)

Definition is_live e W : Prop := 0 < ec_refs W e < 2 ^ 32 - 1.

Lemma dn_take others ws sg s zero t e block W :
  winv ws sg W → 0 < counter (sms W s) → sg s = [] →
  ∃ W', dn_with others s zero t e block W = Some (true, W') ∧ winv ws sg W' ∧ sm_log W' = sm_log W ∧
    counter (sms W' s) = (if zero then 0 else counter (sms W s) - 1) ∧
    (∀ r, r ≠ s → counter (sms W' r) = counter (sms W r)).
Proof.
  intros HW Hc Hs. pose proof (wi_range _ _ _ HW s) as Hr. unfold word in Hr.
  unfold dn_with. rewrite (proj2 (truthy_true _)) by lia.
  assert ((if zero then 0 else wsub (counter (sms W s)) 1) = (if zero then 0 else counter (sms W s) - 1)) as Heq.
  { destruct zero; [done|]. apply wsub_small. lia. }
  set (W1 := upd_sm s _ W).
  assert (winv ws sg W1 ∧ counter (sms W1 s) = (if zero then 0 else counter (sms W s) - 1)) as [HW1 Hc1].
  { unfold W1. rewrite upd_sm_at. simpl. split; [|done].
    apply (winv_ext ws sg W); try done; intros r; upd_sm_cases r s; simpl; try done.
    - split; [|by rewrite (wi_wait _ _ _ HW) by done]. rewrite Heq. unfold word. destruct zero; lia.
    - split; apply HW. }
  destruct (proj2 (dequeue_none ws sg s W1 HW1) Hs) as (W2 & -> & HW2 & (R1 & R2 & R3)).
  cbn [mbind option_bind]. exists W2. split_and!; try done.
  - by destruct (R3 s) as (-> & _).
  - intros r Hr'. destruct (R3 r) as (-> & _). unfold W1. by rewrite upd_sm_ne.
Qed.

Definition taken (zero : bool) (c : Z) : Z := if zero then 0 else c - 1.

(** The signal is another semaphore or [s] itself. *)
Lemma dn_signal others ws sg s zero t e block i l W :
  winv ws sg W → 0 < counter (sms W s) → sg s = i :: l →
  ∃ W', dn_with others s zero t e block W = Some (true, W') ∧ winv ws (<[s := l]> sg) W' ∧
    sm_log W' = Set_si_regs e (value (sms W i))
      (if decide (i = s) then taken zero (counter (sms W s)) else counter (sms W i)) :: sm_log W ∧
    counter (sms W' s) = (if decide (i = s) then 0 else taken zero (counter (sms W s))) ∧ counter (sms W' i) = 0.
Proof.
  intros HW Hc Hs. pose proof (wi_range _ _ _ HW s) as Hr. unfold word in Hr.
  unfold dn_with. rewrite (proj2 (truthy_true _)) by lia.
  assert ((if zero then 0 else wsub (counter (sms W s)) 1) = taken zero (counter (sms W s))) as Heq.
  { unfold taken. destruct zero; [done|]. apply wsub_small. lia. }
  set (W1 := upd_sm s _ W).
  assert (winv ws sg W1) as HW1.
  { apply (winv_ext ws sg W); try done; intros r; unfold W1; upd_sm_cases r s; simpl; try done.
    - split; [|by rewrite (wi_wait _ _ _ HW) by done]. rewrite Heq. unfold word, taken. destruct zero; lia.
    - split; apply HW. }
  rewrite (family_head _ _ _ s (wi_si _ _ _ HW1)), Hs. cbn [List.hd_error].
  destruct (dequeue_si_winv ws sg s i l W1 HW1 Hs) as (W2 & -> & HW2 & (R1 & R2 & R3)).
  cbn [mbind option_bind reset]. eexists. split; [reflexivity|].
  destruct (R3 i) as (Hci & _ & Hvi & _). destruct (R3 s) as (Hcs & _).
  assert (value (sms W1 i) = value (sms W i) ∧ counter (sms W1 s) = taken zero (counter (sms W s)) ∧
    (i ≠ s → counter (sms W1 i) = counter (sms W i))) as (Ev & Es & Ei).
  { unfold W1. rewrite upd_sm_at. upd_sm_cases i s; split_and!; try done. }
  split_and!.
  - assert (winv ws (<[s:=l]> sg) (upd_sm i (set_counter 0) W2)) as HW3 by (apply set_counter_winv; [done|done|lia]).
    apply (winv_ext ws (<[s:=l]> sg) (upd_sm i (set_counter 0) W2)); try done; intros r; split; apply HW3.
  - simpl. rewrite fn_lookup_insert. simpl. rewrite Hci, Hvi, Ev, R2. do 2 f_equal.
    case_decide as Hi; [by rewrite Hi|by apply Ei].
  - simpl. case_decide as Hi; [rewrite Hi, fn_lookup_insert; done|].
    rewrite fn_lookup_insert_ne by done. by rewrite Hcs.
  - simpl. by rewrite fn_lookup_insert.
Qed.

Lemma blocked_waiting ws sg s e W : winv ws sg W → e ∈ ws s → blocked e W = true.
Proof.
  intros HW He. unfold blocked.
  destruct (ring_linked _ _ e (proj2 (fa_rep _ _ _ (wi_ec _ _ _ HW) s)) He) as (n & p & -> & _).
  by rewrite bool_decide_false.
Qed.

Lemma blocked_free ws sg e W : winv ws sg W → (∀ r, e ∉ ws r) → blocked e W = false.
Proof. intros HW He. unfold blocked. destruct (fa_out _ _ _ (wi_ec _ _ _ HW) e He) as [-> _]. done. Qed.

(** The world in which the lock is released with [e] queued at [s]. *)
Lemma dn_queues ws sg s e W :
  winv ws sg W → counter (sms W s) = 0 → (∀ r, e ∉ ws r) → is_live e W →
  ∃ Wq, winv (<[s := ws s ++ [e]]> ws) sg Wq ∧ sm_log Wq = sm_log W ∧
    (∀ r, counter (sms Wq r) = counter (sms W r)) ∧ ec_refs Wq = <[e := ec_refs W e + 1]> (ec_refs W) ∧
    ∀ others zero t block, dn_with others s zero t e block W =
      if negb block then Some (false, emit (Scheduled false) Wq)
      else let W1 := others (emit (Set_timeout e t s) Wq) in
           if blocked e W1 then Some (false, emit (Scheduled true) (emit (Blocked_sc e) W1))
           else Some (true, emit (Clr_timeout e) W1).
Proof.
  intros HW Hc He Hl. unfold is_live in Hl.
  assert (add_ref (ec_refs W e) = (true, ec_refs W e + 1)) as Ha.
  { unfold add_ref, cmp_swap. destruct (Z.eqb_spec (ec_refs W e) 0); [lia|]. rewrite decide_True by done.
    by rewrite wrap_small by (unfold word; lia). }
  set (W1 := upd_ec_ref e (ec_refs W e + 1) W).
  assert (winv ws sg W1) as HW1 by (apply (winv_ext ws sg W); try done; intros r; split; apply HW).
  destruct (enqueue_ec_winv ws sg s e W1 HW1 He Hc) as (W2 & Hq & HW2 & (R1 & R2 & R3)).
  exists W2. split_and!; try done.
  - intros r. by destruct (R3 r) as (-> & _).
  - intros others zero t block. unfold dn_with. rewrite Hc, Ha. cbn [truthy Z.eqb negb].
    fold W1. rewrite Hq. done.
Qed.

Lemma emit_winv ws sg x W : winv ws sg W → winv ws sg (emit x W).
Proof. intros HW. apply (winv_ext ws sg W); try done; intros r; split; apply HW. Qed.

Lemma dn_blocks ws sg s zero t e W :
  winv ws sg W → counter (sms W s) = 0 → (∀ r, e ∉ ws r) → is_live e W →
  ∃ W', dn s zero t e true W = Some (false, W') ∧ winv (<[s := ws s ++ [e]]> ws) sg W' ∧
    sm_log W' = Scheduled true :: Blocked_sc e :: Set_timeout e t s :: sm_log W ∧
    (∀ r, counter (sms W' r) = counter (sms W r)) ∧ ec_refs W' e = ec_refs W e + 1.
Proof.
  intros HW Hc He Hl. destruct (dn_queues ws sg s e W HW Hc He Hl) as (Wq & HWq & El & Ec & Er & Hdn).
  unfold dn. rewrite Hdn. cbn [negb]. cbv zeta.
  rewrite (blocked_waiting _ _ s e _ (emit_winv _ _ _ _ HWq)) by (rewrite fn_lookup_insert; set_solver).
  eexists. split; [reflexivity|]. split; [by repeat apply emit_winv|]. simpl. rewrite El, Er, fn_lookup_insert. done.
Qed.

(** ** Up *)

Lemma up_none fuel ws sg s c ec W :
  winv ws sg W → ws s = [] → counter (sms W s) + 1 < 2 ^ 64 →
  ∃ W', up_loop (S fuel) s c None ec W = Some W' ∧ winv ws sg W' ∧
    (∀ r, counter (sms W' r) = if decide (r = s) then counter (sms W s) + 1 else counter (sms W r)) ∧
    (∀ r, si_sm (sms W' r) = si_sm (sms W r) ∧ value (sms W' r) = value (sms W r) ∧ kern_space (sms W' r) = kern_space (sms W r)) ∧
    sm_log W' = (match ec with Some e => [Ec_rcu e] | None => [] end) ++ sm_log W ∧ ec_refs W' = ec_refs W.
Proof.
  intros HW Hs Hc. pose proof (wi_range _ _ _ HW s) as Hr. unfold word in Hr. cbn [up_loop].
  set (W0 := match ec with Some e => emit (Ec_rcu e) W | None => W end).
  assert (sms W0 = sms W) as Es by (unfold W0; by destruct ec).
  assert (winv ws sg W0) as HW0.
  { apply (winv_ext ws sg W); [by unfold W0; destruct ec..|by intros r; rewrite Es| |done].
    intros r. rewrite Es. split; apply HW. }
  destruct (proj1 (dequeue_none ws sg s W0 HW0) Hs) as (W1 & -> & HW1 & (R1 & R2 & R3) & _).
  cbn [mbind option_bind negb]. destruct (R3 s) as (Hcs & _).
  assert (wadd (counter (sms W1 s)) 1 = counter (sms W s) + 1) as Hadd.
  { rewrite Hcs, Es. apply wadd_small. lia. }
  eexists. split; [reflexivity|]. split_and!.
  - apply (winv_ext ws sg W1); try done; intros r; upd_sm_cases r s; simpl; try done.
    + rewrite Hadd. split; [unfold word; lia|done].
    + split; apply HW1.
  - intros r. destruct (R3 r) as (Hcr & _). rewrite Es in Hcr. case_decide as Hrs.
    + subst r. rewrite upd_sm_at. simpl. done.
    + by rewrite upd_sm_ne.
  - intros r. destruct (R3 r) as (_ & H1 & H2 & H3). rewrite Es in *. upd_sm_cases r s; done.
  - simpl. rewrite R2. unfold W0. by destruct ec.
  - simpl. rewrite R1. unfold W0. by destruct ec.
Qed.

Lemma up_signal fuel ws sg s c i ec W :
  winv ws sg W → ws s = [] → counter (sms W s) + 1 < 2 ^ 64 → (∀ r, i ∉ sg r) →
  ∃ W', up_loop (S fuel) s c (Some i) ec W = Some W' ∧ winv ws (<[s := sg s ++ [i]]> sg) W' ∧
    (∀ r, counter (sms W' r) = if decide (r = s) then counter (sms W s) + 1 else counter (sms W r)) ∧
    (∀ r, si_sm (sms W' r) = si_sm (sms W r) ∧ value (sms W' r) = value (sms W r) ∧ kern_space (sms W' r) = kern_space (sms W r)) ∧
    sm_log W' = (match ec with Some e => [Ec_rcu e] | None => [] end) ++ sm_log W.
Proof.
  intros HW Hs Hc Hi. pose proof (wi_range _ _ _ HW s) as Hr. unfold word in Hr. cbn [up_loop].
  set (W0 := match ec with Some e => emit (Ec_rcu e) W | None => W end).
  assert (sms W0 = sms W) as Es by (unfold W0; by destruct ec).
  assert (winv ws sg W0) as HW0.
  { apply (winv_ext ws sg W); [by unfold W0; destruct ec..|by intros r; rewrite Es| |done].
    intros r. rewrite Es. split; apply HW. }
  destruct (proj1 (dequeue_none ws sg s W0 HW0) Hs) as (W1 & -> & HW1 & (R1 & R2 & R3) & _).
  cbn [mbind option_bind negb]. rewrite (queued_out ws sg) by done.
  destruct (enqueue_si_winv ws sg s i W1 HW1 Hi) as (W2 & -> & HW2 & (Q1 & Q2 & Q3)).
  cbn [mbind option_bind]. destruct (R3 s) as (Hcs & _). destruct (Q3 s) as (Hcs' & _).
  assert (wadd (counter (sms W2 s)) 1 = counter (sms W s) + 1) as Hadd.
  { rewrite Hcs', Hcs, Es. apply wadd_small. lia. }
  eexists. split; [reflexivity|]. split_and!.
  - apply (winv_ext ws (<[s:=sg s ++ [i]]> sg) W2); try done; intros r; upd_sm_cases r s; simpl; try done.
    + rewrite Hadd. split; [unfold word; lia|done].
    + split; apply HW2.
  - intros r. destruct (R3 r) as (Hcr & _), (Q3 r) as (Hcr' & _). rewrite Es in Hcr. case_decide as Hrs.
    + subst r. rewrite upd_sm_at. simpl. done.
    + rewrite upd_sm_ne by done. congruence.
  - intros r. destruct (R3 r) as (_ & H1 & H2 & H3), (Q3 r) as (_ & G1 & G2 & G3). rewrite Es in *.
    upd_sm_cases r s; simpl; split_and!; congruence.
  - simpl. rewrite Q2, R2. unfold W0. by destruct ec.
Qed.

(** A signal that is still queued is not queued again, and nobody is told. *)
Lemma up_signal_queued fuel ws sg s c i q W :
  winv ws sg W → ws s = [] → i ∈ sg q →
  ∃ W', up (S fuel) s c (Some i) W = Some W' ∧ winv ws sg W' ∧ same_rest W W'.
Proof.
  intros HW Hs Hi. unfold up. cbn [up_loop].
  destruct (proj1 (dequeue_none ws sg s W HW) Hs) as (W1 & -> & HW1 & HR & _).
  cbn [mbind option_bind negb]. rewrite (queued_in ws sg i q) by done. by exists W1.
Qed.

(** One woken EC: it gets the signal, if any, and the reference of the queue is
    dropped. *)
Lemma up_wake_step fuel ws sg s c si ec e l W :
  winv ws sg W → ws s = e :: l → 0 < ec_refs W e < 2 ^ 32 →
  ∃ W', winv (<[s := l]> ws) sg W' ∧
    up_loop (S fuel) s c si ec W = (if decide (ec_refs W e = 1) then up_loop fuel s c si (Some e) W' else Some W') ∧
    counter (sms W' s) = (if decide (si = Some s) then 0 else counter (sms W s)) ∧
    (∀ x, x ≠ e → ec_refs W' x = ec_refs W x) ∧
    ec_refs W' e = (if decide (ec_refs W e = 1) then 1 else ec_refs W e - 1) ∧
    ∃ tr, sm_log W' = Released e c :: tr ++ sm_log W ∧
      match si with
      | Some i => List.hd_error tr = Some (Set_si_regs e (value (sms W i)) (counter (sms W i)))
      | None => tr = match ec with Some x => [Ec_rcu x] | None => [] end
      end.
Proof.
  intros HW Hs Hr. cbn [up_loop].
  set (W0 := match ec with Some e => emit (Ec_rcu e) W | None => W end).
  assert (sms W0 = sms W ∧ ec_refs W0 = ec_refs W ∧ sm_log W0 = match ec with Some x => [Ec_rcu x] | None => [] end ++ sm_log W) as (Es & Er & Et).
  { unfold W0. by destruct ec. }
  set (t0 := match ec with Some x => [Ec_rcu x] | None => [] end) in *.
  assert (winv ws sg W0) as HW0.
  { apply (winv_ext ws sg W); [by unfold W0; destruct ec..|by intros r; rewrite Es| |done].
    intros r. rewrite Es. split; apply HW. }
  clearbody W0 t0. rewrite (family_head _ _ _ s (wi_ec _ _ _ HW0)), Hs. cbn [List.hd_error].
  destruct (dequeue_ec_winv ws sg s [] e l W0 HW0 Hs) as (W1 & -> & HW1 & (R1 & R2 & R3)).
  cbn [mbind option_bind negb]. simpl app in HW1.
  set (W2 := match si with Some i => _ | None => W1 end).
  assert (winv (<[s := l]> ws) sg W2 ∧ ec_refs W2 = ec_refs W ∧
    counter (sms W2 s) = (if decide (si = Some s) then 0 else counter (sms W s)) ∧
    ∃ tr, sm_log W2 = tr ++ sm_log W ∧
      match si with
      | Some i => List.hd_error tr = Some (Set_si_regs e (value (sms W i)) (counter (sms W i)))
      | None => tr = t0 end) as (HW2 & Er2 & Hc2 & tr & Etr & Hhd).
  { destruct (R3 s) as (Hcs & _). rewrite Es in Hcs. unfold W2. destruct si as [i|].
    - destruct (R3 i) as (Hci & _ & Hvi & _). rewrite Es in Hci, Hvi. simpl. split_and!.
      + assert (winv (<[s:=l]> ws) sg (upd_sm i (set_counter 0) W1)) as H3 by (apply set_counter_winv; [done|done|lia]).
        apply (winv_ext _ sg (upd_sm i (set_counter 0) W1)); try done. intros r. split; apply H3.
      + by rewrite R1.
      + destruct (decide (i = s)) as [->|Hne].
        * rewrite fn_lookup_insert, decide_True by done. done.
        * rewrite fn_lookup_insert_ne, decide_False by congruence. done.
      + exists (Set_si_regs e (value (sms W i)) (counter (sms W i)) :: t0). simpl.
        rewrite fn_lookup_insert. simpl. rewrite R2, Et, Hci, Hvi. done.
    - split_and!; [done|by rewrite R1|done|]. exists t0. by rewrite R2, Et. }
  clearbody W2.
  assert (del_rcu (ec_refs (emit (Released e c) W2) e) =
    (if decide (ec_refs W e = 1) then (true, 1) else (false, ec_refs W e - 1))) as ->.
  { simpl. rewrite Er2. unfold del_rcu, last_ref, del_ref.
    destruct (Z.eqb_spec (ec_refs W e) 1); [rewrite decide_True by done; congruence|]. rewrite decide_False by done.
    rewrite wrap_small by (unfold word; lia). destruct (Z.eqb_spec (ec_refs W e - 1) 0); [lia|done]. }
  set (W3 := upd_ec_ref e (if decide (ec_refs W e = 1) then 1 else ec_refs W e - 1) (emit (Released e c) W2)).
  exists W3. split.
  { apply (winv_ext _ sg W2); try done. intros r. split; apply HW2. }
  split; [unfold W3; by destruct (decide (ec_refs W e = 1))|]. split; [done|].
  split; [intros x Hx; simpl; by rewrite fn_lookup_insert_ne, Er2|].
  split; [simpl; by rewrite fn_lookup_insert|]. exists tr. simpl. by rewrite Etr.
Qed.

(** Waiters that hold no other reference are dead and are skipped. *)
Lemma up_wakes fuel ws sg s c si ec dead e l W :
  winv ws sg W → ws s = dead ++ e :: l → NoDup (dead ++ [e]) → (∀ x, x ∈ dead → ec_refs W x = 1) →
  1 < ec_refs W e < 2 ^ 32 → si ≠ Some s → (length dead < fuel)%nat →
  ∃ W', up_loop fuel s c si ec W = Some W' ∧ winv (<[s := l]> ws) sg W' ∧
    counter (sms W' s) = counter (sms W s) ∧ ∃ tr, sm_log W' = Released e c :: tr ++ sm_log W.
Proof.
  revert fuel ws W ec. induction dead as [|x dead IH]; intros fuel ws W ec HW Hs Hnd Hdead He Hsi Hf;
    (destruct fuel as [|fuel]; [simpl in Hf; lia|]).
  - destruct (up_wake_step fuel ws sg s c si ec e l W HW Hs) as (W' & HW' & -> & Hc & _ & _ & tr & Htr & _); [lia|].
    rewrite decide_False by lia. rewrite decide_False in Hc by done. exists W'. split_and!; eauto.
  - destruct (up_wake_step fuel ws sg s c si ec x (dead ++ e :: l) W HW Hs)
      as (W1 & HW1 & -> & Hc & Ho & _ & tr & Htr & _); [rewrite (Hdead x) by left; lia|].
    rewrite decide_True by (apply Hdead; left). rewrite decide_False in Hc by done.
    simpl in Hnd. apply list.NoDup_cons in Hnd as [Hx Hnd]. rewrite elem_of_app, list_elem_of_singleton in Hx.
    destruct (IH fuel (<[s := dead ++ e :: l]> ws) W1 (Some x)) as (W' & -> & HW' & Hc' & tr' & Htr'); try done.
    + by rewrite fn_lookup_insert.
    + intros y Hy. rewrite Ho; [apply Hdead; by right|]. intros ->. tauto.
    + rewrite Ho; [done|]. intros ->. tauto.
    + simpl in Hf. lia.
    + exists W'. split; [done|]. split; [|split; [congruence|]].
      * destruct HW' as [G1 G2 G3 G4].
        assert (∀ r, (<[s := l]> (<[s := dead ++ e :: l]> ws)) r = (<[s := l]> ws) r) as Heq.
        { intros r. destruct (decide (s = r)) as [->|]; [by rewrite !fn_lookup_insert|by rewrite !fn_lookup_insert_ne]. }
        split; try done.
        -- destruct G1 as [F1 F2 F3]. split; intros r; [rewrite <-Heq; apply F1| |].
           ++ intros r' a. rewrite <-!Heq. apply F2.
           ++ intros Ha. apply F3. intros r'. rewrite Heq. apply Ha.
        -- intros r Hr. rewrite <-Heq. by apply G4.
      * exists (tr' ++ Released x c :: tr). rewrite Htr', Htr. by rewrite <-app_assoc.
Qed.

(** An [up] between the release of the lock and [block_sc]. *)
Lemma dn_woken fuel ws sg s c e t W Wq :
  winv ws sg W → (∀ r, e ∉ ws r) → is_live e W → ws s = [] → (0 < fuel)%nat →
  winv (<[s := ws s ++ [e]]> ws) sg Wq → sm_log Wq = sm_log W → counter (sms Wq s) = 0 →
  ec_refs Wq = <[e := ec_refs W e + 1]> (ec_refs W) →
  let W1 := default (emit (Set_timeout e t s) Wq) (up fuel s c None (emit (Set_timeout e t s) Wq)) in
  ∃ W', (if blocked e W1 then Some (false, emit (Scheduled true) (emit (Blocked_sc e) W1))
         else Some (true, emit (Clr_timeout e) W1)) = Some (true, W') ∧
    winv ws sg W' ∧ counter (sms W' s) = 0 ∧ sm_log W' = Clr_timeout e :: Released e c :: Set_timeout e t s :: sm_log W.
Proof.
  intros HW He Hl Hs Hf HWq El Ec Er. unfold is_live in Hl. destruct fuel as [|fuel]; [lia|].
  rewrite Hs in HWq. simpl app in HWq.
  destruct (up_wake_step fuel (<[s := [e]]> ws) sg s c None None e [] (emit (Set_timeout e t s) Wq))
    as (W2 & HW2 & Hu & Hc2 & _ & _ & tr & Htr & Htl).
  { by apply emit_winv. }
  { by rewrite fn_lookup_insert. }
  { simpl. rewrite Er, fn_lookup_insert. lia. }
  rewrite decide_False in Hu by (simpl; rewrite Er, fn_lookup_insert; lia). unfold up. rewrite Hu.
  change (default (emit (Set_timeout e t s) Wq) (Some W2)) with W2. cbv zeta.
  assert (winv ws sg W2) as HW2'.
  { destruct HW2 as [[F1 F2 F3] G2 G3 G4].
    assert (∀ r, (<[s := []]> (<[s := [e]]> ws)) r = ws r) as Heq.
    { intros r. destruct (decide (s = r)) as [<-|]; [by rewrite fn_lookup_insert|by rewrite !fn_lookup_insert_ne]. }
    split; [split| | |]; try done.
    - intros r. rewrite <-Heq. apply F1.
    - intros r r' a. rewrite <-!Heq. apply F2.
    - intros a Ha. apply F3. intros r. by rewrite Heq.
    - intros r Hr. rewrite <-Heq. by apply G4. }
  rewrite (blocked_free _ _ e _ HW2' He). eexists. split; [reflexivity|]. split; [by apply emit_winv|].
  simpl. rewrite Hc2, Htr, Htl. split; [done|]. simpl. by rewrite El.
Qed.

(** ** Theorems *)

(** C20: Semaphore down on every branch, whatever other CPUs do between the
    release of the lock and [block_sc].  With a positive counter the caller
    passes and the counter drops by one, or to zero on request; the first
    pending signal is delivered with its value and its count of submissions,
    also when a semaphore signals itself, and is removed.  With counter zero a
    dead EC is not queued; a live one is queued last; a caller that does not
    block is rescheduled; a caller that blocks sets its timeout and then, if it
    is still queued, waits, and otherwise clears the timeout and goes on.  So it
    waits when nobody intervened, and an [up] by another CPU is not lost. *)
Theorem sm_dn_spec ws sg s zero t e block others W :
  winv ws sg W →
  (0 < counter (sms W s) → sg s = [] →
     ∃ W', dn_with others s zero t e block W = Some (true, W') ∧ winv ws sg W' ∧ sm_log W' = sm_log W ∧
       counter (sms W' s) = taken zero (counter (sms W s))) ∧
  (∀ i l, 0 < counter (sms W s) → sg s = i :: l →
     ∃ W', dn_with others s zero t e block W = Some (true, W') ∧ winv ws (<[s := l]> sg) W' ∧
       sm_log W' = Set_si_regs e (value (sms W i))
         (if decide (i = s) then taken zero (counter (sms W s)) else counter (sms W i)) :: sm_log W ∧
       counter (sms W' s) = (if decide (i = s) then 0 else taken zero (counter (sms W s))) ∧
       counter (sms W' i) = 0) ∧
  (counter (sms W s) = 0 → ec_refs W e = 0 →
     ∃ W', dn_with others s zero t e block W = Some (false, W') ∧ winv ws sg W' ∧
       sm_log W' = Scheduled block :: sm_log W ∧ counter (sms W' s) = 0 ∧ ec_refs W' e = 0) ∧
  (counter (sms W s) = 0 → (∀ r, e ∉ ws r) → is_live e W →
     ∃ Wq, winv (<[s := ws s ++ [e]]> ws) sg Wq ∧ sm_log Wq = sm_log W ∧ counter (sms Wq s) = 0 ∧
       ec_refs Wq e = ec_refs W e + 1 ∧
       (let W1 := others (emit (Set_timeout e t s) Wq) in
        dn_with others s zero t e block W =
          if block then
            if blocked e W1 then Some (false, emit (Scheduled true) (emit (Blocked_sc e) W1))
            else Some (true, emit (Clr_timeout e) W1)
          else Some (false, emit (Scheduled false) Wq)) ∧
       dn s zero t e true W = Some (false, emit (Scheduled true) (emit (Blocked_sc e) (emit (Set_timeout e t s) Wq))) ∧
       ∀ fuel c, ws s = [] → (0 < fuel)%nat →
         ∃ W', dn_with (λ W, default W (up fuel s c None W)) s zero t e true W = Some (true, W') ∧
           winv ws sg W' ∧ counter (sms W' s) = 0 ∧
           sm_log W' = Clr_timeout e :: Released e c :: Set_timeout e t s :: sm_log W).
Proof.
  intros HW. split_and!.
  - intros Hc Hs. destruct (dn_take others ws sg s zero t e block W HW Hc Hs) as (W' & ? & ? & ? & ? & _). eauto.
  - intros i l Hc Hs. by apply dn_signal.
  - intros Hc Hr. unfold dn_with. rewrite Hc, Hr. cbn. eexists. split; [reflexivity|]. split_and!; try done.
    + apply (winv_ext ws sg W); try done; intros r; split; apply HW.
    + simpl. by rewrite fn_lookup_insert.
  - intros Hc He Hl. destruct (dn_queues ws sg s e W HW Hc He Hl) as (Wq & HWq & El & Ec & Er & Hdn).
    exists Wq. rewrite Ec, Er, fn_lookup_insert. split_and!; try done.
    + rewrite Hdn. by destruct block.
    + unfold dn. rewrite Hdn. cbn [negb]. cbv zeta.
      by rewrite (blocked_waiting _ _ s e _ (emit_winv _ _ _ _ HWq)) by (rewrite fn_lookup_insert; set_solver).
    + intros fuel c Hs Hf. rewrite Hdn. cbn [negb]. cbv zeta.
      apply (dn_woken fuel ws sg s c e t W Wq); try done. by rewrite Ec.
Qed.

(** C34: Semaphore up: with waiters, the first one that is still referenced is
    woken, in queue order, the dead ones before it are dropped, and the counter
    keeps its value; without waiters the counter grows by one. *)
Theorem sm_up_spec ws sg s c W :
  winv ws sg W →
  (∀ fuel dead e l, ws s = dead ++ e :: l → (∀ x, x ∈ dead → ec_refs W x = 1) →
     1 < ec_refs W e < 2 ^ 32 → (length dead < fuel)%nat →
     ∃ W' tr, up fuel s c None W = Some W' ∧ winv (<[s := l]> ws) sg W' ∧
       counter (sms W' s) = counter (sms W s) ∧ sm_log W' = Released e c :: tr ++ sm_log W) ∧
  (∀ fuel, ws s = [] → counter (sms W s) + 1 < 2 ^ 64 → (0 < fuel)%nat →
     ∃ W', up fuel s c None W = Some W' ∧ winv ws sg W' ∧
       counter (sms W' s) = counter (sms W s) + 1 ∧ sm_log W' = sm_log W).
Proof.
  intros HW. split.
  - intros fuel dead e l Hs Hd He Hf.
    assert (NoDup (dead ++ [e])) as Hnd.
    { assert (NoDup (ws s)) as Hall.
      { pose proof (proj2 (fa_rep _ _ _ (wi_ec _ _ _ HW) s)) as Hr. destruct (ws s); [constructor|apply Hr]. }
      rewrite Hs in Hall. replace (dead ++ e :: l) with ((dead ++ [e]) ++ l) in Hall by by rewrite <-app_assoc.
      by apply list.NoDup_app in Hall as (? & _). }
    destruct (up_wakes fuel ws sg s c None None dead e l W) as (W' & Hu & HW' & Hc & tr & Htr); try done.
    exists W', tr. done.
  - intros fuel Hs Hc Hf. destruct fuel as [|fuel]; [lia|].
    destruct (up_none fuel ws sg s c None W HW Hs Hc) as (W' & Hu & HW' & Hcr & _ & Htr & _).
    exists W'. rewrite Hcr, decide_True by done. done.
Qed.

(** An expired timeout takes its EC out of the semaphore's queue and lets
    it continue with a timeout status; when the EC was woken before, nothing
    happens.  The counter is untouched. *)
Theorem sm_timeout_spec ws sg s e W :
  winv ws sg W →
  (∀ l1 l2, ws s = l1 ++ e :: l2 →
     ∃ W', timeout s e W = Some W' ∧ winv (<[s := l1 ++ l2]> ws) sg W' ∧
       sm_log W' = Released e (Some com_tim) :: sm_log W ∧ counter (sms W' s) = counter (sms W s)) ∧
  ((∀ r, e ∉ ws r) →
     ∃ W', timeout s e W = Some W' ∧ sm_log W' = sm_log W ∧ counter (sms W' s) = counter (sms W s)).
Proof.
  intros HW. unfold timeout. split.
  - intros l1 l2 Hs. destruct (dequeue_ec_winv ws sg s l1 e l2 W HW Hs) as (W1 & -> & HW1 & (R1 & R2 & R3)).
    cbn [mbind option_bind]. eexists. split; [reflexivity|]. split_and!.
    + apply (winv_ext _ sg W1); try done. intros r. split; apply HW1.
    + simpl. by rewrite R2.
    + apply R3.
  - intros He. unfold dequeue_ec. rewrite dequeue_unlinked by (by apply (fa_out _ _ _ (wi_ec _ _ _ HW))).
    cbn [mbind option_bind]. eexists. split; [reflexivity|]. split; [done|]. simpl. by rewrite fn_lookup_insert.
Qed.

(** ** Signals *)

(** Submitting a signal [i] bound to [s] while nobody waits on either: the
    first submission queues it, the others are only counted. *)
Lemma submit_first depth fuel ws sg i s W :
  winv ws sg W → kern_space (sms W i) = false → si_sm (sms W i) = Some s → i ≠ s →
  ws i = [] → ws s = [] → (∀ r, i ∉ sg r) → counter (sms W i) + 1 < 2 ^ 64 → counter (sms W s) + 1 < 2 ^ 64 →
  ∃ W', submit (S depth) (S fuel) i W = Some W' ∧ winv ws (<[s := sg s ++ [i]]> sg) W' ∧
    counter (sms W' i) = counter (sms W i) + 1 ∧ counter (sms W' s) = counter (sms W s) + 1 ∧
    kern_space (sms W' i) = false ∧ si_sm (sms W' i) = Some s ∧ value (sms W' i) = value (sms W i) ∧
    sm_log W' = sm_log W.
Proof.
  intros HW Hk Hb Hne Hwi Hws Hi Hci Hcs. cbn [submit]. rewrite Hk. unfold submit_user.
  destruct (up_none fuel ws sg i None None W HW Hwi Hci) as (W1 & Hu & HW1 & Hc1 & Hr1 & Hl1 & He1).
  change (up (S fuel) i None None W = Some W1) in Hu. rewrite Hu. cbn [mbind option_bind]. destruct (Hr1 i) as (-> & Hv1 & Hk1). rewrite Hb.
  destruct (up_signal fuel ws sg s None i None W1 HW1 Hws) as (W2 & Hu2 & HW2 & Hc2 & Hr2 & Hl2);
    [rewrite Hc1, decide_False by congruence; lia|done|].
  change (up (S fuel) s None (Some i) W1 = Some W2) in Hu2. rewrite Hu2. exists W2. destruct (Hr2 i) as (Hb2 & Hv2 & Hk2). destruct (Hr1 i) as (Hb1 & _).
  rewrite !Hc2, !Hc1. rewrite (decide_True (P := s = s)), (decide_True (P := i = i)) by done.
  rewrite (decide_False (P := i = s)), (decide_False (P := s = i)) by congruence.
  split_and!; try done; try congruence. rewrite Hl2, Hl1. done.
Qed.

Lemma submit_again depth fuel ws sg i s q W :
  winv ws sg W → kern_space (sms W i) = false → si_sm (sms W i) = Some s → i ≠ s →
  ws i = [] → ws s = [] → i ∈ sg q → counter (sms W i) + 1 < 2 ^ 64 →
  ∃ W', submit (S depth) (S fuel) i W = Some W' ∧ winv ws sg W' ∧
    counter (sms W' i) = counter (sms W i) + 1 ∧ (∀ r, r ≠ i → counter (sms W' r) = counter (sms W r)) ∧
    kern_space (sms W' i) = false ∧ si_sm (sms W' i) = Some s ∧ value (sms W' i) = value (sms W i) ∧
    sm_log W' = sm_log W ∧ ec_refs W' = ec_refs W.
Proof.
  intros HW Hk Hb Hne Hwi Hws Hi Hci. cbn [submit]. rewrite Hk. unfold submit_user.
  destruct (up_none fuel ws sg i None None W HW Hwi Hci) as (W1 & Hu & HW1 & Hc1 & Hr1 & Hl1 & He1).
  change (up (S fuel) i None None W = Some W1) in Hu. rewrite Hu. cbn [mbind option_bind]. destruct (Hr1 i) as (-> & Hv1 & Hk1). rewrite Hb.
  destruct (up_signal_queued fuel ws sg s None i q W1 HW1 Hws Hi) as (W2 & -> & HW2 & (R1 & R2 & R3)).
  exists W2. destruct (R3 i) as (Hc2 & Hb2 & Hv2 & Hk2). destruct (Hr1 i) as (Hb1 & _).
  split_and!; try done; try congruence.
  - by rewrite Hc2, Hc1, decide_True.
  - intros r Hr. destruct (R3 r) as (-> & _). by rewrite Hc1, decide_False.
  - rewrite R2, Hl1. done.
Qed.

Lemma repeat_submit_again n depth fuel ws sg i s q W :
  winv ws sg W → kern_space (sms W i) = false → si_sm (sms W i) = Some s → i ≠ s →
  ws i = [] → ws s = [] → i ∈ sg q → counter (sms W i) + Z.of_nat n < 2 ^ 64 →
  ∃ W', repeat_submit n (S depth) (S fuel) i W = Some W' ∧ winv ws sg W' ∧
    counter (sms W' i) = counter (sms W i) + Z.of_nat n ∧ counter (sms W' s) = counter (sms W s) ∧
    value (sms W' i) = value (sms W i) ∧ sm_log W' = sm_log W.
Proof.
  revert W. induction n as [|n IH]; intros W HW Hk Hb Hne Hwi Hws Hi Hc.
  { exists W. split_and!; try done. lia. }
  cbn [repeat_submit].
  destruct (submit_again depth fuel ws sg i s q W) as (W1 & -> & HW1 & C1 & C2 & K1 & B1 & V1 & L1 & _); try done; [lia|].
  cbn [mbind option_bind]. destruct (IH W1) as (W2 & -> & HW2 & D1 & D2 & D3 & D4); try done; [lia|].
  exists W2. split_and!; try done; try congruence; [lia|]. rewrite D2. by apply C2.
Qed.

(** C35: Signal delivery: however often a signal is submitted while its receiver
    is busy, the semaphore it is bound to counts it once, and the next down
    delivers its value together with the exact number of submissions and makes
    it ready for the next one. *)
Theorem signals_coalesce n depth fuel ws sg i s t e W :
  winv ws sg W → kern_space (sms W i) = false → si_sm (sms W i) = Some s → i ≠ s →
  ws i = [] → ws s = [] → (∀ r, i ∉ sg r) → sg s = [] → counter (sms W i) = 0 → counter (sms W s) = 0 →
  Z.of_nat n + 1 < 2 ^ 64 →
  ∃ W1 W2, repeat_submit (S n) (S depth) (S fuel) i W = Some W1 ∧ counter (sms W1 s) = 1 ∧
    dn s false t e true W1 = Some (true, W2) ∧
    sm_log W2 = Set_si_regs e (value (sms W i)) (Z.of_nat (S n)) :: sm_log W ∧
    counter (sms W2 s) = 0 ∧ counter (sms W2 i) = 0 ∧ queued i W2 = false.
Proof.
  intros HW Hk Hb Hne Hwi Hws Hi Hs Hci Hcs Hn. cbn [repeat_submit].
  destruct (submit_first depth fuel ws sg i s W) as (W1 & -> & HW1 & C1 & C2 & K1 & B1 & V1 & L1); try done; [lia|lia|].
  cbn [mbind option_bind]. rewrite Hs in HW1. simpl in HW1. set (sg1 := <[s:=[i]]> sg) in *.
  assert (sg1 s = [i]) as Hs1 by (unfold sg1; by rewrite fn_lookup_insert).
  destruct (repeat_submit_again n depth fuel ws sg1 i s s W1) as (W2 & -> & HW2 & D1 & D2 & D3 & D4); try done.
  { rewrite Hs1. left. }
  { lia. }
  destruct (dn_signal (λ W, W) ws sg1 s false t e true i [] W2) as (W3 & Hd & HW3 & L3 & E1 & E2); try done; [lia|].
  rewrite decide_False in L3, E1 by done. unfold taken in E1.
  exists W2, W3. split_and!; try done.
  - lia.
  - rewrite L3, D4, D3, V1, D1, L1. do 2 f_equal. lia.
  - lia.
  - apply (queued_out _ _ _ _ HW3). intros r. destruct (decide (s = r)) as [->|].
    + rewrite fn_lookup_insert. apply not_elem_of_nil.
    + rewrite fn_lookup_insert_ne by done. unfold sg1. rewrite fn_lookup_insert_ne by done. apply Hi.
Qed.

(** C38: A down that takes the whole counter strands pending signals: with two
    signals pending it delivers the first and clears the counter while the
    second stays queued; further submissions of the second find it queued and
    raise nothing, so that the receiver then blocks although the second signal
    is pending. *)
Theorem zero_down_strands_signal depth fuel ws sg i1 i2 s t e W :
  winv ws sg W → sg s = [i1; i2] → i1 ≠ s → i2 ≠ s → i1 ≠ i2 → counter (sms W s) = 2 →
  kern_space (sms W i2) = false → si_sm (sms W i2) = Some s → ws i2 = [] → 0 < counter (sms W i2) →
  counter (sms W i2) + 1 < 2 ^ 64 → (∀ r, e ∉ ws r) → is_live e W →
  ∃ W1 W2 W3, dn s true t e true W = Some (true, W1) ∧ submit (S depth) (S fuel) i2 W1 = Some W2 ∧
    dn s true t e true W2 = Some (false, W3) ∧
    queued i2 W2 = true ∧ 0 < counter (sms W2 i2) ∧ counter (sms W2 s) = 0.
Proof.
  intros HW Hs H1 H2 H12 Hc Hk Hb Hwi Hp Hci He Hl.
  assert (ws s = []) as Hws by (apply (wi_wait _ _ _ HW); lia).
  pose proof HW as HW'. unfold dn at 1. unfold dn_with at 1. rewrite Hc. cbn [truthy Z.eqb negb].
  set (W0 := upd_sm s _ W).
  assert (winv ws sg W0) as HW0.
  { apply (winv_ext ws sg W); try done; intros r; unfold W0; upd_sm_cases r s; simpl; try done. split; apply HW. }
  rewrite (family_head _ _ _ s (wi_si _ _ _ HW0)), Hs. cbn [List.hd_error].
  destruct (dequeue_si_winv ws sg s i1 [i2] W0 HW0 Hs) as (W1 & -> & HW1 & (R1 & R2 & R3)).
  cbn [mbind option_bind reset]. set (W1' := emit _ _). set (sg1 := <[s:=[i2]]> sg) in *.
  assert (∀ r, r ≠ s → sms W0 r = sms W r) as E0 by (intros r Hr; unfold W0; by rewrite upd_sm_ne).
  assert (counter (sms W0 s) = 0) as Es by (unfold W0; by rewrite upd_sm_at).
  assert (winv ws sg1 W1') as HW1'.
  { assert (winv ws sg1 (upd_sm i1 (set_counter 0) W1)) as H3 by (apply set_counter_winv; [done|done|lia]).
    apply (winv_ext ws sg1 (upd_sm i1 (set_counter 0) W1)); try done. intros r. split; apply H3. }
  assert (sms W1' i2 = sms W1 i2 ∧ sms W1' s = sms W1 s) as [E1 E2].
  { unfold W1'. simpl. by rewrite !fn_lookup_insert_ne by congruence. }
  destruct (R3 i2) as (C2 & B2 & _ & K2), (R3 s) as (Cs & _). rewrite !E0 in C2, B2, K2 by done.
  assert (sg1 s = [i2]) as Hs1 by (unfold sg1; by rewrite fn_lookup_insert).
  destruct (submit_again depth fuel ws sg1 i2 s s W1') as (W2 & Hsub & HW2 & D1 & D2 & _ & _ & _ & _ & Er);
    rewrite ?E1; try done; try congruence.
  { rewrite Hs1. left. }
  assert (counter (sms W2 s) = 0) as Cs2 by (rewrite D2 by congruence; rewrite E2, Cs; done).
  assert (∃ W3, dn s true t e true W2 = Some (false, W3)) as [W3 H3].
  { destruct (dn_blocks ws sg1 s true t e W2) as (W3 & ? & _); try done; [|eauto].
    unfold is_live. assert (ec_refs W2 e = ec_refs W e) as ->; [|done]. rewrite Er. simpl. by rewrite R1. }
  exists W1', W2, W3. split_and!; try done.
  - apply (queued_in ws sg1 i2 s); [done|]. rewrite Hs1. left.
  - rewrite D1, E1, C2. lia.
Qed.

(** ** The semaphore as the core allocator uses it

    [Cell::wake_core] and [Cell::block_workers_on] call [up] and [dn] with the
    [zero] flag; a blocked caller leaves the kernel path. *)

Definition world_up (fuel : nat) s W : world := default W (up fuel s None None W).
Definition world_dn_zero s e W : world * bool :=
  match dn s true 0 e true W with Some (ok, W) => (W, negb ok) | None => (W, true) end.

(** ** Examples *)

Definition new_sm (c : Z) (bound : option obj) (v : Z) : sm := Sm c (Queue None) (Queue None) bound v false 1.

(** Semaphore 0, and the signals 1 and 2 bound to it. *)
Definition w0 : world :=
  World (λ s, if decide (s = 1%nat) then new_sm 0 (Some 0%nat) 11
              else if decide (s = 2%nat) then new_sm 0 (Some 0%nat) 22 else new_sm 0 None 0)
    no_links no_links (λ _, 1) [].

Lemma empty_family : family no_links (λ _, Queue None) (λ _, []).
Proof. split; try done. by intros ? ? ? ?%elem_of_nil. Qed.

Lemma w0_inv : winv (λ _, []) (λ _, []) w0.
Proof.
  assert (∀ s, ec_queue (sms w0 s) = Queue None ∧ si_queue (sms w0 s) = Queue None ∧ counter (sms w0 s) = 0) as Hq.
  { intros s. simpl. by repeat case_decide. }
  split.
  - eapply family_ext; [|apply empty_family]. intros s. apply Hq.
  - eapply family_ext; [|apply empty_family]. intros s. apply Hq.
  - intros s. destruct (Hq s) as (_ & _ & ->). done.
  - done.
Qed.

Lemma sm_dn_spec_witness :
  ∃ W, dn 0 false 5 7 true w0 = Some (false, W) ∧ sm_log W = [Scheduled true; Blocked_sc 7; Set_timeout 7 5 0] ∧
    ec_refs W 7 = 2.
Proof.
  destruct (sm_dn_spec _ _ 0 false 5 7 true (λ W, W) w0 w0_inv) as (_ & _ & _ & H).
  destruct H as (W & _ & El & _ & Er & _ & Hd & _); [done|intros r; apply not_elem_of_nil|vm_compute; done|].
  eexists. split; [exact Hd|]. simpl. rewrite El, Er. done.
Defined.

(** EC 7 waits at semaphore 0. *)
Definition w1 : world := default w0 (snd <$> dn 0 false 5 7 true w0).

Lemma w1_inv : winv (<[0%nat := [7%nat]]> (λ _, [])) (λ _, []) w1.
Proof.
  destruct (dn_blocks _ _ 0 false 5 7 w0 w0_inv) as (W & HW & Hinv & _);
    [done|intros r; apply not_elem_of_nil|vm_compute; done|].
  unfold w1. by rewrite HW.
Qed.

Lemma sm_up_spec_witness :
  ∃ W tr, up 1 0 (Some 3%nat) None w1 = Some W ∧ sm_log W = Released 7 (Some 3%nat) :: tr ++ sm_log w1 ∧
    counter (sms W 0) = 0.
Proof.
  destruct (sm_up_spec _ _ 0 (Some 3%nat) w1 w1_inv) as [H _].
  destruct (H 1%nat [] 7%nat []) as (W & tr & ? & _ & ? & ?).
  - done.
  - by intros x ?%elem_of_nil.
  - vm_compute. done.
  - simpl. lia.
  - by exists W, tr.
Defined.

Lemma sm_timeout_spec_witness :
  ∃ W, timeout 0 7 w1 = Some W ∧ sm_log W = Released 7 (Some com_tim) :: sm_log w1.
Proof.
  destruct (sm_timeout_spec _ _ 0 7 w1 w1_inv) as [H _].
  destruct (H [] [] eq_refl) as (W & ? & _ & ? & _). by exists W.
Defined.

Lemma signals_coalesce_witness :
  ∃ W1 W2, repeat_submit 3 1 1 1 w0 = Some W1 ∧ dn 0 false 0 7 true W1 = Some (true, W2) ∧
    sm_log W2 = [Set_si_regs 7 11 3].
Proof.
  destruct (signals_coalesce 2 0 0 _ _ 1 0 0 7 w0 w0_inv eq_refl eq_refl ltac:(lia) eq_refl eq_refl
    (λ r, not_elem_of_nil 1%nat) eq_refl eq_refl eq_refl ltac:(lia)) as (W1 & W2 & H1 & _ & H2 & H3 & _).
  exists W1, W2. split; [exact H1|]. split; [exact H2|exact H3].
Defined.

(** Both signals pending at semaphore 0. *)
Definition w2 : world :=
  default w0 (W ← submit 1 1 1 w0; submit 1 1 2 W).

Lemma w2_inv : winv (λ _, []) (<[0%nat := [1; 2]%nat]> (<[0%nat := [1%nat]]> (λ _, []))) w2.
Proof.
  destruct (submit_first 0 0 _ _ 1 0 w0 w0_inv eq_refl eq_refl ltac:(lia) eq_refl eq_refl
    (λ r, not_elem_of_nil 1%nat) eq_refl eq_refl) as (W1 & E1 & H1 & _).
  unfold w2. rewrite E1. cbn [mbind option_bind].
  assert (W1 = default w0 (submit 1 1 1 w0)) as -> by by rewrite E1.
  destruct (submit_first 0 0 _ _ 2 0 _ H1) as (W2 & E2 & H2 & _);
    [vm_compute; reflexivity|vm_compute; reflexivity|lia|reflexivity|reflexivity| |vm_compute; reflexivity|vm_compute; reflexivity|].
  - intros r. destruct (decide (0%nat = r)) as [<-|].
    + rewrite fn_lookup_insert. intros Hin. by apply list_elem_of_singleton in Hin.
    + rewrite fn_lookup_insert_ne by done. apply not_elem_of_nil.
  - rewrite E2. exact H2.
Qed.

Lemma zero_down_strands_signal_witness :
  ∃ W1 W2 W3, dn 0 true 0 7 true w2 = Some (true, W1) ∧ submit 1 1 2 W1 = Some W2 ∧
    dn 0 true 0 7 true W2 = Some (false, W3) ∧ counter (sms W2 2) = 2.
Proof.
  assert (counter (sms w2 0) = 2) as E1 by (vm_compute; reflexivity).
  assert (kern_space (sms w2 2) = false) as E2 by (vm_compute; reflexivity).
  assert (si_sm (sms w2 2) = Some 0%nat) as E3 by (vm_compute; reflexivity).
  assert (counter (sms w2 2) = 1) as E4 by (vm_compute; reflexivity).
  assert (is_live 7 w2) as E5 by (unfold is_live; vm_compute; done).
  destruct (zero_down_strands_signal 0 0 _ _ 1 2 0 0 7 w2 w2_inv eq_refl ltac:(lia) ltac:(lia) ltac:(lia)
    E1 E2 E3 eq_refl ltac:(lia) ltac:(lia) (λ r, not_elem_of_nil 7%nat) E5) as (W1 & W2 & W3 & H1 & H2 & H3 & _).
  exists W1, W2, W3. split_and!; try assumption.
  vm_compute in H1. injection H1 as <-. vm_compute in H2. injection H2 as <-. reflexivity.
Defined.
