(* ===== verification/Avl.v ===== *)
(** Balanced trees: [Avl].

    [Avl::insert] and [Avl::remove] work on nodes linked by pointers, in two
    passes from the root downwards and without a stack: the first pass finds
    the place and the last node at which rebalancing can stop, the second
    rotates and corrects balance factors below it.  The model keeps the
    pointers: a location is the root pointer of a tree or a child pointer of a
    node ([Avl **]), and the memory maps locations to pointers.  Both
    operations are shown to keep a tree that is a balanced search tree with
    correct balance factors and to change its sequence of nodes by exactly the
    node they are given.

    The comparison functions are those of the template parameter, an interface
    [AvlNode] that the mapping database implements. *)
From stdpp Require Import sorting.
From S2P Require Import Prelude Queue.

(** [larger] and [equal] of the template parameter [S], and what [Avl] needs
    of them: nodes are ordered by a rank, nodes of one rank are equal, and a node
    ranked between two equal nodes is equal to one of them. *)
Class AvlNode := {
  larger : obj → obj → bool;
  equal : obj → obj → bool;
  rank : obj → Z;
  larger_rank x y : larger x y = bool_decide (rank y < rank x)%Z;
  equal_rank x y : rank x = rank y → equal x y = true;
  equal_sym x y : equal x y = equal y x;
  equal_between x y z :
    (rank x ≤ rank y ≤ rank z)%Z → equal x z = true → equal x y = true ∨ equal y z = true;
}.

(** A variable of type [Avl *]: a root pointer or [n->lnk[d]]. *)
Inductive loc := Root (r : nat) | Lnk (n : obj) (d : bool).

#[export] Instance loc_eq_dec : EqDecision loc.
Proof. solve_decision. Defined.

Record astore := AStore {
  cell : loc → option obj;
  bal : obj → Z;
}.

Definition put (l : loc) (v : option obj) (s : astore) : astore :=
  AStore (<[l := v]> (cell s)) (bal s).
Definition set_bal (n : obj) (b : Z) (s : astore) : astore :=
  AStore (cell s) (<[n := b]> (bal s)).

Definition balanced (n : obj) (s : astore) : bool := (bal s n =? 2)%Z.

(** [Avl::rotate (Avl *&tree, bool d)]; [None] is a null dereference. *)
Definition rotate (tree : loc) (d : bool) (s : astore) : option (option obj * astore) :=
  node ← cell s tree;
  let s := put tree (cell s (Lnk node d)) s in
  t ← cell s tree;
  let s := put (Lnk node d) (cell s (Lnk t (negb d))) s in
  t ← cell s tree;
  let s := put (Lnk t (negb d)) (Some node) s in
  t ← cell s tree;
  let s := set_bal node 2 (set_bal t 2 s) in
  Some (cell s (Lnk t d), s).

(** [Avl::rotate (Avl *&tree, bool d, unsigned b)]. *)
Definition rotate2 (tree : loc) (d : bool) (b : Z) (s : astore) : option (option obj * astore) :=
  node0 ← cell s tree;
  node1 ← cell s (Lnk node0 d);
  let s := put tree (cell s (Lnk node1 (negb d))) s in
  t ← cell s tree;
  let s := put (Lnk node0 d) (cell s (Lnk t (negb d))) s in
  t ← cell s tree;
  let s := put (Lnk node1 (negb d)) (cell s (Lnk t d)) s in
  t ← cell s tree;
  let s := put (Lnk t d) (Some node1) s in
  t ← cell s tree;
  let s := put (Lnk t (negb d)) (Some node0) s in
  t ← cell s tree;
  let s := set_bal t 2 (set_bal node0 2 (set_bal node1 2 s)) in
  if (b =? 2)%Z then Some (None, s)
  else
    let not_b := negb (truthy b) in
    let s := set_bal (if negb (b =? Z.b2z d)%Z then node1 else node0) (Z.b2z not_b) s in
    Some (cell s (Lnk (if (b =? Z.b2z d)%Z then node1 else node0) not_b), s).

Section avl.
Context `{AvlNode}.

(** The search of [Avl::insert]: [Some None] when an equal node is met,
    otherwise the empty place and the location [p] of the last unbalanced
    node. *)
Fixpoint insert_search (fuel : nat) (node : obj) (tree p : loc) (s : astore) :
    option (option (loc * loc)) :=
  match fuel with
  | O => None
  | S fuel =>
    match cell s tree with
    | None => Some (Some (tree, p))
    | Some n =>
      if equal node n then Some None
      else insert_search fuel node (Lnk n (larger node n)) (if balanced n s then p else tree) s
    end
  end.

(** The last loop of [Avl::insert]. *)
Fixpoint insert_balance (fuel : nat) (node : obj) (n : option obj) (s : astore) : option astore :=
  match fuel with
  | O => None
  | S fuel =>
    match n with
    | None => Some s
    | Some n =>
      if equal node n then Some s
      else
        let d := larger node n in
        let s := set_bal n (Z.b2z d) s in
        insert_balance fuel node (cell s (Lnk n d)) s
    end
  end.

(** The rotation at [*p] when that node is unbalanced; the result is the node
    from which balance factors are to be corrected. *)
Definition insert_rotate (node : obj) (p : loc) (s : astore) : option (option obj * astore) :=
  n ← cell s p;
  if balanced n s then Some (Some n, s)
  else
    let d1 := larger node n in
    if negb (bal s n =? Z.b2z d1)%Z then
      let s := set_bal n 2 s in
      Some (cell s (Lnk n d1), s)
    else
      m ← cell s (Lnk n d1);
      let d2 := larger node m in
      if eqb d1 d2 then rotate p d1 s
      else
        c ← cell s (Lnk m d2);
        rotate2 p d1 (if equal node c then 2 else Z.b2z (larger node c)) s.

Definition insert (fuel : nat) (tree : loc) (node : obj) (s : astore) : option (bool * astore) :=
  found ← insert_search fuel node tree tree s;
  match found with
  | None => Some (false, s)
  | Some (tree, p) =>
    let s := put tree (Some node) s in
    '(n, s) ← insert_rotate node p s;
    s ← insert_balance fuel node n s;
    Some (true, s)
  end.

(** The first loop of [Avl::remove]: the location of the last node, the
    location [p] from which heights shrink, the location [item] of the node to
    remove and the last direction. *)
Fixpoint remove_search (fuel : nat) (node : obj) (tree p : loc) (item : option loc) (d : bool)
    (s : astore) : option (loc * loc * option loc * bool) :=
  match fuel with
  | O => None
  | S fuel =>
    match cell s tree with
    | None => Some (tree, p, item, d)
    | Some n =>
      let item := if equal node n then Some tree else item in
      let d := larger node n in
      match cell s (Lnk n d) with
      | None => Some (tree, p, item, d)
      | Some _ =>
        stop ← (if balanced n s then Some true
                else if (bal s n =? Z.b2z (negb d))%Z
                     then m ← cell s (Lnk n (negb d)); Some (balanced m s)
                     else Some false);
        remove_search fuel node (Lnk n d) (if stop : bool then tree else p) item d s
      end
    end
  end.

(** The second loop of [Avl::remove]. *)
Fixpoint remove_balance (fuel : nat) (node : obj) (p item : loc) (d : bool) (s : astore) :
    option (loc * bool * astore) :=
  match fuel with
  | O => None
  | S fuel =>
    match cell s p with
    | None => Some (item, d, s)
    | Some n =>
      let d := larger node n in
      match cell s (Lnk n d) with
      | None => Some (item, d, s)
      | Some _ =>
        if balanced n s then
          remove_balance fuel node (Lnk n d) item d (set_bal n (Z.b2z (negb d)) s)
        else if (bal s n =? Z.b2z d)%Z then
          remove_balance fuel node (Lnk n d) item d (set_bal n 2 s)
        else
          m ← cell s (Lnk n (negb d));
          let b := bal s m in
          s ← (if (b =? Z.b2z d)%Z then
                 c ← cell s (Lnk m d);
                 '(_, s) ← rotate2 p (negb d) (bal s c) s;
                 Some s
               else
                 '(_, s) ← rotate p (negb d) s;
                 if (b =? 2)%Z then
                   let s := set_bal n (Z.b2z (negb d)) s in
                   t ← cell s p;
                   Some (set_bal t (Z.b2z d) s)
                 else Some s);
          item ← (if bool_decide (n = node) then t ← cell s p; Some (Lnk t d) else Some item);
          remove_balance fuel node (Lnk n d) item d s
      end
    end
  end.

Definition remove (fuel : nat) (tree : loc) (node : obj) (s : astore) : option (bool * astore) :=
  '(tree, p, item, d) ← remove_search fuel node tree tree None false s;
  match item with
  | None => Some (false, s)
  | Some item =>
    '(item, d, s) ← remove_balance fuel node p item d s;
    n ← cell s tree;
    let s := put item (Some n) s in
    let s := put tree (cell s (Lnk n (negb d))) s in
    let s := put (Lnk n false) (cell s (Lnk node false)) s in
    let s := put (Lnk n true) (cell s (Lnk node true)) s in
    Some (true, set_bal n (bal s node) s)
  end.

End avl.

(** ** Trees

    [T l n b r] is node [n] with balance factor [b] and children [l], [r];
    [mk d n b u w] has [u] on side [d] and [w] on the other side. *)
Inductive tree := E | T (l : tree) (n : obj) (b : Z) (r : tree).

Definition mk (d : bool) (n : obj) (b : Z) (u w : tree) : tree :=
  if d then T w n b u else T u n b w.

Definition child (d : bool) (t : tree) : tree :=
  match t with E => E | T l _ _ r => if d then r else l end.

Definition rootptr (t : tree) : option obj :=
  match t with E => None | T _ n _ _ => Some n end.

Fixpoint inorder (t : tree) : list obj :=
  match t with E => [] | T l n _ r => inorder l ++ n :: inorder r end.

Fixpoint height (t : tree) : nat :=
  match t with E => O | T l _ _ r => S (max (height l) (height r)) end.

(** The factor [b] of a node whose child on side [d] has height [hu] and whose
    other child has height [hw]. *)
Definition factor (d : bool) (b : Z) (hu hw : nat) : Prop :=
  (b = 2%Z ∧ hu = hw) ∨ (b = Z.b2z d ∧ hu = S hw) ∨ (b = Z.b2z (negb d) ∧ hw = S hu).

Fixpoint avl (t : tree) : Prop :=
  match t with
  | E => True
  | T l _ b r => avl l ∧ avl r ∧ factor false b (height l) (height r)
  end.

Section trees.
Context `{AvlNode}.

(** Search trees: nodes are in the strict order of their ranks. *)
Fixpoint bst (t : tree) : Prop :=
  match t with
  | E => True
  | T l n _ r =>
    (∀ a, a ∈ inorder l → (rank a < rank n)%Z) ∧ (∀ a, a ∈ inorder r → (rank n < rank a)%Z)
    ∧ bst l ∧ bst r
  end.

End trees.

(** No node occurs twice. *)
Fixpoint wf (t : tree) : Prop :=
  match t with
  | E => True
  | T l n _ r =>
    (n ∉ inorder l) ∧ (n ∉ inorder r) ∧ (∀ a, a ∈ inorder l → a ∉ inorder r) ∧ wf l ∧ wf r
  end.

(** The memory holds tree [t] at location [q]. *)
Fixpoint rep (s : astore) (q : loc) (t : tree) : Prop :=
  match t with
  | E => cell s q = None
  | T l n b r =>
    cell s q = Some n ∧ bal s n = b ∧ rep s (Lnk n false) l ∧ rep s (Lnk n true) r
  end.

Definition within (q : loc) (t : tree) : Prop :=
  match q with Root _ => False | Lnk n _ => n ∈ inorder t end.

(** [s'] differs from [s] at most in the tree at [q], which is or becomes [t]. *)
Definition frame (q : loc) (t : tree) (s s' : astore) : Prop :=
  (∀ l, l ≠ q → ¬ within l t → cell s' l = cell s l) ∧
  (∀ a, a ∉ inorder t → bal s' a = bal s a).

Lemma mk_child d t n : rootptr t = Some n → ∃ b, t = mk d n b (child d t) (child (negb d) t).
Proof. destruct t as [|l m b r]; [done|]. intros [= ->]. exists b. by destruct d. Qed.

Lemma elem_mk d n b u w a : a ∈ inorder (mk d n b u w) ↔ a = n ∨ a ∈ inorder u ∨ a ∈ inorder w.
Proof. destruct d; simpl; rewrite elem_of_app, elem_of_cons; tauto. Qed.

Lemma height_mk d n b u w : height (mk d n b u w) = S (max (height u) (height w)).
Proof. destruct d; simpl; lia. Qed.

Lemma factor_flip d b hu hw : factor d b hu hw ↔ factor (negb d) b hw hu.
Proof. unfold factor. rewrite negb_involutive. intuition lia. Qed.

Lemma avl_mk d n b u w :
  avl (mk d n b u w) ↔ avl u ∧ avl w ∧ factor d b (height u) (height w).
Proof. destruct d; simpl; [|tauto]. rewrite (factor_flip true). simpl. tauto. Qed.

Lemma wf_mk d n b u w :
  wf (mk d n b u w) ↔
  (n ∉ inorder u) ∧ (n ∉ inorder w) ∧ (∀ a, a ∈ inorder u → a ∉ inorder w) ∧ wf u ∧ wf w.
Proof.
  destruct d; simpl; [|tauto].
  split; intros (?&?&Hd&?&?); (split; [done|split; [done|split; [|done]]]);
    intros a Ha Ha'; exact (Hd a Ha' Ha).
Qed.

Lemma rep_mk s q d n b u w :
  rep s q (mk d n b u w) ↔
  cell s q = Some n ∧ bal s n = b ∧ rep s (Lnk n d) u ∧ rep s (Lnk n (negb d)) w.
Proof. destruct d; simpl; tauto. Qed.

Lemma rep_root s q t : rep s q t → cell s q = rootptr t.
Proof. destruct t; simpl; [done|tauto]. Qed.

Lemma rep_moved s s' q q' t :
  rep s q t → cell s' q' = cell s q →
  (∀ a, a ∈ inorder t → (∀ d, cell s' (Lnk a d) = cell s (Lnk a d)) ∧ bal s' a = bal s a) →
  rep s' q' t.
Proof.
  revert q q'. induction t as [|l IHl n b r IHr]; intros q q' Ht Hq Hs; simpl in *; [congruence|].
  destruct Ht as (Hn&Hb&Hl&Hr).
  assert (n ∈ inorder l ++ n :: inorder r) as Hin by (apply elem_of_app; right; left).
  destruct (Hs n Hin) as [Hc Hbn].
  split; [congruence|split; [congruence|split]].
  - apply (IHl _ _ Hl); [apply Hc|]. intros a Ha. apply Hs. apply elem_of_app. by left.
  - apply (IHr _ _ Hr); [apply Hc|]. intros a Ha. apply Hs. apply elem_of_app. right. by right.
Qed.

Lemma frame_refl q t s : frame q t s s.
Proof. split; auto. Qed.

Lemma frame_trans q t s1 s2 s3 : frame q t s1 s2 → frame q t s2 s3 → frame q t s1 s3.
Proof.
  intros [H1 H2] [H3 H4]. split.
  - intros l Hl Hw. rewrite H3, H1; auto.
  - intros a Ha. rewrite H4, H2; auto.
Qed.

Lemma frame_weaken q q' t t' s s' :
  frame q t s s' → (q = q' ∨ within q t') → (∀ a, a ∈ inorder t → a ∈ inorder t') →
  frame q' t' s s'.
Proof.
  intros [Hc Hb] Hq Ht. split.
  - intros l Hl Hw. apply Hc.
    + intros ->. destruct Hq as [->|]; done.
    + destruct l; [done|]. simpl in *. auto.
  - intros a Ha. apply Hb. auto.
Qed.

(** Reading a memory after a few updates. *)
Lemma cell_put l v s l' : cell (put l v s) l' = if bool_decide (l = l') then v else cell s l'.
Proof.
  unfold put, cell. case_bool_decide as Hl; [subst; by rewrite fn_lookup_insert|].
  by rewrite fn_lookup_insert_ne.
Qed.

Lemma bal_set n b s a : bal (set_bal n b s) a = if bool_decide (n = a) then b else bal s a.
Proof.
  unfold set_bal, bal. case_bool_decide as Hl; [subst; by rewrite fn_lookup_insert|].
  by rewrite fn_lookup_insert_ne.
Qed.

Lemma cell_set_bal n b s l : cell (set_bal n b s) l = cell s l.
Proof. done. Qed.

Lemma bal_put l v s a : bal (put l v s) a = bal s a.
Proof. done. Qed.

#[local] Arguments put : simpl never.
#[local] Arguments set_bal : simpl never.
#[local] Arguments cell : simpl never.
#[local] Arguments bal : simpl never.

(** [look] evaluates reads of an updated memory, the locations being distinct
    by the inequalities at hand. *)
Ltac distinct := first [congruence | by intros [=]; subst; eauto].
Ltac look :=
  repeat (first
    [ rewrite cell_set_bal | rewrite bal_put
    | rewrite cell_put; first [ rewrite bool_decide_eq_true_2 by reflexivity
                              | rewrite bool_decide_eq_false_2 by distinct ]
    | rewrite bal_set; first [ rewrite bool_decide_eq_true_2 by reflexivity
                             | rewrite bool_decide_eq_false_2 by distinct ] ]).

(** Evaluation of a sequence of pointer accesses. *)
Ltac run :=
  repeat (progress (look; cbn [mbind option_bind negb eqb];
    repeat match goal with
    | H : cell ?s ?l = Some _ |- context [cell ?s ?l ≫= _] => rewrite H
    | H : cell ?s ?l = None |- context [cell ?s ?l ≫= _] => rewrite H
    end)).

Lemma frame_put q t s s' l v :
  frame q t s s' → l = q ∨ within l t → frame q t s (put l v s').
Proof.
  intros [Hc Hb] Hl. split; [|done]. intros l' Hq Hw. rewrite cell_put, bool_decide_eq_false_2; [by apply Hc|].
  intros ->. tauto.
Qed.

Lemma frame_set_bal q t s s' n b :
  frame q t s s' → n ∈ inorder t → frame q t s (set_bal n b s').
Proof.
  intros [Hc Hb] Hn. split; [done|]. intros a Ha. rewrite bal_set, bool_decide_eq_false_2; [by apply Hb|].
  by intros ->.
Qed.

Ltac framed :=
  repeat first [apply frame_refl | apply frame_put | apply frame_set_bal];
  cbn [within]; rewrite ?elem_mk; tauto.

(** A location outside a tree is no child pointer of its nodes. *)
Lemma outside_node q t n d : ¬ within q t → n ∈ inorder t → q ≠ Lnk n d.
Proof. by intros Hq Hn ->. Qed.

(** A subtree whose nodes are not written, [Hout] naming the location of the
    whole tree. *)
Ltac subtree Hout :=
  match goal with
  | Hr : rep ?s ?q ?u |- rep _ _ ?u =>
    apply (rep_moved s _ q _ u Hr); [look; first [done | congruence] |
      let a := fresh "a" in let Ha := fresh "Ha" in
      intros a Ha;
      pose proof (λ d', Hout a d' ltac:(tauto));
      repeat match goal with
      | n : obj |- _ =>
        lazymatch n with a => fail | _ => idtac end;
        lazymatch goal with _ : a ≠ n |- _ => fail | _ => idtac end;
        assert (a ≠ n) by (intros ->; tauto)
      end;
      split; [intros ?d'|]; look; done]
  end.

(** Two trees with the same nodes in the same order. *)
Ltac same_order :=
  repeat match goal with d : bool |- _ => destruct d end;
  simpl; rewrite <-?app_assoc; simpl; rewrite <-?app_assoc; reflexivity.

Lemma rotate_spec s q d n bn m bm y z w :
  let t := mk d n bn (mk d m bm y z) w in
  rep s q t → wf t → ¬ within q t →
  ∃ s', rotate q d s = Some (rootptr y, s') ∧
        rep s' q (mk d m 2 y (mk d n 2 z w)) ∧ frame q t s s'.
Proof.
  intros t Ht Hw Hq.
  assert (∀ a d', a ∈ inorder t → q ≠ Lnk a d') as Hqa by (intros; by eapply outside_node).
  unfold t in *. rewrite !rep_mk in Ht. destruct Ht as (Hn&Hbn&(Hm&Hbm&Hy&Hz)&Hww).
  rewrite !wf_mk in Hw. destruct Hw as (Hw1&Hw2&Hw3&(Hw4&Hw5&Hw6&Hw7&Hw8)&Hw9).
  setoid_rewrite elem_mk in Hw3. pose proof (Hw3 m ltac:(tauto)).
  rewrite !elem_mk in Hw1. assert (n ≠ m) as Hnm by (intros ->; tauto).
  setoid_rewrite elem_mk in Hqa. setoid_rewrite elem_mk in Hqa.
  pose proof (λ d', Hqa n d' ltac:(tauto)). pose proof (λ d', Hqa m d' ltac:(tauto)).
  pose proof (rep_root _ _ _ Hy) as Hry.
  unfold rotate. rewrite Hn. destruct d; run; cbn [negb] in *; (eexists; split; [by rewrite Hry|]);
    (split; [rewrite !rep_mk; split_and!; [by look..| |by look|by look| |]; subtree Hqa|framed]).
Qed.

Lemma rotate2_spec s q d b n bn m bm c bc x y z w :
  let t := mk d n bn (mk d m bm x (mk d c bc y z)) w in
  rep s q t → wf t → ¬ within q t → b = 2%Z ∨ b = Z.b2z d ∨ b = Z.b2z (negb d) →
  ∃ s', rotate2 q d b s =
          Some (if (b =? 2)%Z then None else if (b =? Z.b2z d)%Z then rootptr y else rootptr z, s') ∧
        rep s' q (mk d c 2 (mk d m (if (b =? Z.b2z (negb d))%Z then Z.b2z d else 2) x y)
                           (mk d n (if (b =? Z.b2z d)%Z then Z.b2z (negb d) else 2) z w)) ∧
        frame q t s s'.
Proof.
  intros t Ht Hw Hq Hb.
  assert (∀ a d', a ∈ inorder t → q ≠ Lnk a d') as Hqa by (intros; by eapply outside_node).
  unfold t in *. rewrite !rep_mk in Ht.
  destruct Ht as (Hn&Hbn&(Hm&Hbm&Hx&(Hc&Hbc&Hy&Hz))&Hww).
  rewrite !wf_mk in Hw.
  destruct Hw as (Hw1&Hw2&Hw3&(Hw4&Hw5&Hw6&Hw7&(Hw8&Hw9&Hw10&Hw11&Hw12))&Hw13).
  setoid_rewrite elem_mk in Hw3. setoid_rewrite elem_mk in Hw3.
  pose proof (Hw3 m ltac:(tauto)). pose proof (Hw3 c ltac:(tauto)).
  setoid_rewrite elem_mk in Hw6.
  rewrite !elem_mk in Hw1. rewrite !elem_mk in Hw5.
  assert (c ∉ inorder x) by (intros Hcx; apply (Hw6 c Hcx); tauto).
  assert (n ≠ m) as Hnm by (intros ->; tauto). assert (n ≠ c) as Hnc by (intros ->; tauto).
  assert (m ≠ c) as Hmc by (intros ->; tauto).
  do 3 setoid_rewrite elem_mk in Hqa.
  pose proof (λ d', Hqa n d' ltac:(tauto)). pose proof (λ d', Hqa m d' ltac:(tauto)).
  pose proof (λ d', Hqa c d' ltac:(tauto)).
  pose proof (rep_root _ _ _ Hy) as Hry. pose proof (rep_root _ _ _ Hz) as Hrz.
  unfold rotate2. rewrite Hn.
  destruct Hb as [->|[->| ->]]; destruct d; cbn [negb] in *; run; cbn [Z.eqb Pos.eqb truthy negb Z.b2z];
    run; cbn [Z.eqb Pos.eqb truthy negb Z.b2z] in *;
    (eexists; split; [by rewrite ?Hry, ?Hrz|]);
    (split; [rewrite !rep_mk; split_and!; try (by look); subtree Hqa|framed]).
Qed.

(** Replacing one child. *)
Lemma rep_child_update s s' q d n b u u' w :
  let t := mk d n b u w in
  wf t → ¬ within q t → rep s q t → frame (Lnk n d) u s s' → rep s' (Lnk n d) u' →
  rep s' q (mk d n b u' w) ∧ frame q t s s'.
Proof.
  intros t Hw Hq Ht Hf Hu'. pose proof (outside_node q t n) as Hqn.
  unfold t in *. clear t. rewrite rep_mk in Ht. destruct Ht as (Hn&Hb&Hu&Hww).
  rewrite wf_mk in Hw. destruct Hw as (Hnu&Hnw&Hd&_&_). split.
  - rewrite rep_mk. destruct Hf as [Hc Hbal].
    assert (∀ d', q ≠ Lnk n d') as Hqn' by (intros d'; apply Hqn; [done|]; rewrite elem_mk; tauto).
    split_and!; [| |done|].
    + rewrite Hc; [done|apply Hqn'|].
      destruct q; [done|]. intros Ha. apply Hq. simpl in *. rewrite elem_mk. tauto.
    + rewrite Hbal; done.
    + apply (rep_moved s s' _ _ w Hww).
      * apply Hc; [intros [=]; by destruct d|done].
      * intros a Ha. assert (a ∉ inorder u) as Hau by (intros Ha'; exact (Hd a Ha' Ha)).
        split; [|by apply Hbal]. intros d'. apply Hc; [|done]. by intros [= -> ->].
  - apply (frame_weaken _ _ _ _ _ _ Hf).
    + right. simpl. rewrite elem_mk. by left.
    + intros a Ha. rewrite elem_mk. tauto.
Qed.

(** ** Insertion *)

Section insertion.
Context `{AvlNode}.

Lemma bst_mk d n b u w :
  bst (mk d n b u w) ↔
  (∀ a, a ∈ inorder u → bool_decide (rank n < rank a)%Z = d ∧ rank a ≠ rank n) ∧
  (∀ a, a ∈ inorder w → bool_decide (rank n < rank a)%Z = negb d ∧ rank a ≠ rank n) ∧
  bst u ∧ bst w.
Proof.
  assert (∀ l, (∀ a, a ∈ inorder l → (rank a < rank n)%Z) ↔
               (∀ a, a ∈ inorder l → bool_decide (rank n < rank a)%Z = false ∧ rank a ≠ rank n)) as Hl.
  { intros l. split; intros Hl a Ha; specialize (Hl a Ha).
    - rewrite bool_decide_eq_false. lia.
    - rewrite bool_decide_eq_false in Hl. lia. }
  assert (∀ l, (∀ a, a ∈ inorder l → (rank n < rank a)%Z) ↔
               (∀ a, a ∈ inorder l → bool_decide (rank n < rank a)%Z = true ∧ rank a ≠ rank n)) as Hr.
  { intros l. split; intros Hr a Ha; specialize (Hr a Ha).
    - rewrite bool_decide_eq_true. lia.
    - rewrite bool_decide_eq_true in Hr. lia. }
  destruct d; simpl; rewrite Hl, Hr; tauto.
Qed.

Lemma bst_wf t : bst t → wf t.
Proof.
  induction t as [|l IHl n b r IHr]; [done|]. simpl. intros (Hl&Hr&?&?).
  repeat apply conj; [| | |tauto..].
  - intros Hn. specialize (Hl n Hn). lia.
  - intros Hn. specialize (Hr n Hn). lia.
  - intros a Ha Ha'. specialize (Hl a Ha). specialize (Hr a Ha'). lia.
Qed.


Fixpoint attach (x : obj) (t : tree) : tree :=
  match t with
  | E => T E x 2 E
  | T l n b r => if larger x n then T l n b (attach x r) else T (attach x l) n b r
  end.

Fixpoint grow (x : obj) (t : tree) : tree :=
  match t with
  | E => T E x 2 E
  | T l n b r => if larger x n then T l n 1 (grow x r) else T (grow x l) n 0 r
  end.

(** On the search path of [x]: some node is equal to [x]; all nodes are
    balanced; the empty place; the location of the last unbalanced node. *)
Fixpoint met (x : obj) (t : tree) : bool :=
  match t with
  | E => false
  | T l n _ r => equal x n || (if larger x n then met x r else met x l)
  end.

Fixpoint pathbal (x : obj) (t : tree) : bool :=
  match t with
  | E => true
  | T l n b r => (b =? 2)%Z && (if larger x n then pathbal x r else pathbal x l)
  end.

Fixpoint hole (x : obj) (t : tree) (q : loc) : loc :=
  match t with
  | E => q
  | T l n _ r => if larger x n then hole x r (Lnk n true) else hole x l (Lnk n false)
  end.

Fixpoint pivot (x : obj) (t : tree) (q p : loc) : loc :=
  match t with
  | E => p
  | T l n b r =>
    let p := if (b =? 2)%Z then p else q in
    if larger x n then pivot x r (Lnk n true) p else pivot x l (Lnk n false) p
  end.

(** Induction along the search path of [x]. *)
Lemma path_ind (x : obj) (P : tree → Prop) :
  P E → (∀ d n b u w, larger x n = d → P u → P (mk d n b u w)) → ∀ t, P t.
Proof.
  intros HE HT t. induction t as [|l IHl n b r IHr]; [done|].
  destruct (larger x n) eqn:Hd; [apply (HT true n b r l)|apply (HT false n b l r)]; done.
Qed.

Lemma attach_mk x d n b u w : larger x n = d → attach x (mk d n b u w) = mk d n b (attach x u) w.
Proof. intros <-. destruct (larger x n) eqn:Hd; simpl; by rewrite Hd. Qed.
Lemma grow_mk x d n b u w :
  larger x n = d → grow x (mk d n b u w) = mk d n (Z.b2z d) (grow x u) w.
Proof. intros <-. destruct (larger x n) eqn:Hd; simpl; by rewrite Hd. Qed.
Lemma met_mk x d n b u w : larger x n = d → met x (mk d n b u w) = equal x n || met x u.
Proof. intros <-. destruct (larger x n) eqn:Hd; simpl; by rewrite Hd. Qed.
Lemma pathbal_mk x d n b u w :
  larger x n = d → pathbal x (mk d n b u w) = (b =? 2)%Z && pathbal x u.
Proof. intros <-. destruct (larger x n) eqn:Hd; simpl; by rewrite Hd. Qed.
Lemma hole_mk x d n b u w q : larger x n = d → hole x (mk d n b u w) q = hole x u (Lnk n d).
Proof. intros <-. destruct (larger x n) eqn:Hd; simpl; by rewrite Hd. Qed.
Lemma pivot_mk x d n b u w q p :
  larger x n = d →
  pivot x (mk d n b u w) q p = pivot x u (Lnk n d) (if (b =? 2)%Z then p else q).
Proof. intros <-. destruct (larger x n) eqn:Hd; simpl; by rewrite Hd. Qed.

Lemma pivot_pathbal x t : pathbal x t = true → ∀ q p, pivot x t q p = p.
Proof.
  induction t as [|d n b u w Hd IH] using (path_ind x); [done|]. rewrite pathbal_mk by done.
  intros [Hb Hu]%andb_true_iff q p. rewrite pivot_mk, Hb by done. by apply IH.
Qed.

Lemma elem_attach x t a : a ∈ inorder (attach x t) ↔ a = x ∨ a ∈ inorder t.
Proof.
  induction t as [|d n b u w Hd IH] using (path_ind x).
  - simpl. rewrite list_elem_of_singleton, elem_of_nil. tauto.
  - rewrite attach_mk, !elem_mk, IH by done. tauto.
Qed.

Lemma wf_attach x t : wf t → x ∉ inorder t → wf (attach x t).
Proof.
  induction t as [|d n b u w Hd IH] using (path_ind x).
  - simpl. intros _ _. repeat split; intros; by apply not_elem_of_nil.
  - rewrite attach_mk, !wf_mk, elem_mk by done. setoid_rewrite elem_attach.
    intros (?&?&Hdis&?&?) Hx. split_and!; [|done| |apply IH; tauto|done].
    + intros [->|]; tauto.
    + intros a [->|Ha]; [tauto|]. by apply Hdis.
Qed.

Lemma inorder_grow x t : inorder (grow x t) = inorder (attach x t).
Proof.
  induction t as [|d n b u w Hd IH] using (path_ind x); [done|].
  rewrite grow_mk, attach_mk by done. destruct d; simpl; by rewrite IH.
Qed.

Lemma avl_grow x t :
  avl t → pathbal x t = true → avl (grow x t) ∧ height (grow x t) = S (height t).
Proof.
  induction t as [|d n b u w Hd IH] using (path_ind x).
  - intros _ _. simpl. unfold factor. auto 8.
  - rewrite grow_mk, pathbal_mk, !avl_mk, !height_mk by done.
    intros (Hu&Hw&Hf) [Hb Hp]%andb_true_iff. apply Z.eqb_eq in Hb. subst b.
    destruct (IH Hu Hp) as [Hg Hh]. rewrite Hh. unfold factor in *.
    destruct d; simpl in *; intuition lia.
Qed.

Lemma insert_search_spec x s t : ∀ fuel q p,
  rep s q t → height t < fuel →
  insert_search fuel x q p s = Some (if met x t then None else Some (hole x t q, pivot x t q p)).
Proof.
  induction t as [|d n b u w Hd IH] using (path_ind x); intros [|fuel] q p Ht Hf; try lia.
  - simpl in *. by rewrite Ht.
  - rewrite height_mk in Hf. rewrite rep_mk in Ht. destruct Ht as (Hn&Hb&Hu&_).
    rewrite met_mk, hole_mk, pivot_mk by done. simpl. rewrite Hn.
    destruct (equal x n); [done|]. simpl. rewrite Hd. unfold balanced. rewrite Hb.
    apply IH; [done|lia].
Qed.

Lemma attach_spec x s t : ∀ q,
  rep s q t → wf t → x ∉ inorder t → ¬ within q (attach x t) →
  (∀ d, cell s (Lnk x d) = None) → bal s x = 2%Z →
  let s' := put (hole x t q) (Some x) s in
  rep s' q (attach x t) ∧ frame q (attach x t) s s'.
Proof.
  induction t as [|d n b u w Hd IH] using (path_ind x); intros q Ht Hw Hx Hq Hnull Hbal.
  - simpl in *. assert (∀ d, q ≠ Lnk x d) as Hqx.
    { intros d ->. apply Hq. simpl. by apply list_elem_of_singleton. }
    pose proof (Hqx true). pose proof (Hqx false).
    split; [split_and!; look; auto|]. apply frame_put; [apply frame_refl|by left].
  - rewrite hole_mk, attach_mk in * by done. rewrite elem_mk in Hx.
    pose proof Hw as Hw'. rewrite wf_mk in Hw. pose proof Ht as Ht'. rewrite rep_mk in Ht.
    destruct (IH (Lnk n d)) as [Hr Hf]; [tauto|tauto|tauto| |done..|].
    { simpl. rewrite elem_attach. intros [->|]; tauto. }
    assert (¬ within q (mk d n b u w)) as Hqt.
    { destruct q; [done|]. simpl in *. rewrite elem_mk in *. rewrite elem_attach in Hq. tauto. }
    set (s' := put (hole x u (Lnk n d)) (Some x) s) in *.
    assert (wf (mk d n b (attach x u) w)) as Hwa.
    { rewrite <-attach_mk by done. apply wf_attach; [done|]. rewrite elem_mk. tauto. }
    assert (∀ d', q ≠ Lnk n d') as Hqn by (intros d' ->; apply Hqt; simpl; rewrite elem_mk; by left).
    destruct Hf as [Hc Hbl]. setoid_rewrite elem_attach in Hbl. split.
    + rewrite rep_mk. split_and!; [| |done|].
      * rewrite Hc; [tauto|apply Hqn|]. destruct q; [done|]. intros Ha. apply Hq. simpl in *.
        rewrite elem_mk. tauto.
      * rewrite Hbl; [tauto|]. intros [->|]; tauto.
      * apply (rep_moved s s' (Lnk n (negb d)) _ w); [tauto| |].
        -- apply Hc; [by destruct d|]. simpl. rewrite elem_attach. intros [->|]; tauto.
        -- intros a Ha. assert (a ∉ inorder (attach x u)) as Hau.
           { rewrite elem_attach. intros [->|Ha']; [tauto|].
             destruct Hw as (_&_&Hdis&_). exact (Hdis a Ha' Ha). }
           split; [|apply Hbl; by rewrite elem_attach in Hau].
           intros d'. apply Hc; [|done]. intros [= -> _]. tauto.
    + apply (frame_weaken (Lnk n d) q (attach x u)).
      * split; [done|]. intros a Ha. apply Hbl. by rewrite elem_attach in Ha.
      * right. simpl. rewrite elem_mk. by left.
      * intros a Ha. rewrite elem_mk. tauto.
Qed.

Lemma rep_set_bal s q d n b b' u w :
  rep s q (mk d n b u w) → wf (mk d n b u w) → rep (set_bal n b' s) q (mk d n b' u w).
Proof.
  rewrite wf_mk, !rep_mk. intros (Hn&Hb&Hu&Hww) Hw.
  assert (∀ v q', rep s q' v → n ∉ inorder v → rep (set_bal n b' s) q' v) as Hkeep.
  { intros v q' Hv Hnv. apply (rep_moved s _ q' q' v Hv); [done|]. intros a Ha.
    split; [done|]. assert (n ≠ a) by (intros ->; tauto). by look. }
  split_and!; [done|by look| |]; apply Hkeep; tauto.
Qed.

Lemma insert_balance_spec x t : ∀ fuel s q,
  rep s q (attach x t) → wf (attach x t) → ¬ within q (attach x t) → met x t = false →
  height t < fuel →
  ∃ s', insert_balance fuel x (rootptr (attach x t)) s = Some s' ∧
        rep s' q (grow x t) ∧ frame q (attach x t) s s'.
Proof.
  induction t as [|d n b u w Hd IH] using (path_ind x); intros [|fuel] s q Ht Hw Hq Hm Hf; try lia.
  - simpl in *. rewrite equal_rank by done. exists s. split; [done|]. split; [done|apply frame_refl].
  - rewrite attach_mk, grow_mk, met_mk, height_mk in * by done.
    apply orb_false_iff in Hm as [Hne Hm].
    assert (rootptr (mk d n b (attach x u) w) = Some n) as -> by (by destruct d).
    simpl. rewrite Hne, Hd.
    set (s1 := set_bal n (Z.b2z d) s).
    assert (rep s1 q (mk d n (Z.b2z d) (attach x u) w)) as H1.
    { by apply (rep_set_bal s q d n b). }
    assert (wf (mk d n (Z.b2z d) (attach x u) w)) as Hw1 by (by rewrite wf_mk in *).
    assert (¬ within q (mk d n (Z.b2z d) (attach x u) w)) as Hq1.
    { destruct q; [done|]. simpl in *. by rewrite elem_mk in *. }
    pose proof H1 as H1'. rewrite rep_mk in H1'. destruct H1' as (_&_&Hu1&_).
    pose proof Hw1 as Hw1'. rewrite wf_mk in Hw1'.
    rewrite (rep_root _ _ _ Hu1).
    destruct (IH fuel s1 (Lnk n d) Hu1) as (s'&Hrun&Hrep&Hfr); [tauto|simpl;tauto|done|lia|].
    destruct (rep_child_update s1 s' q d n (Z.b2z d) (attach x u) (grow x u) w) as [Hres Hfr']; try done.
    exists s'. split; [done|]. split; [done|].
    apply (frame_trans _ _ _ s1).
    + apply frame_set_bal; [apply frame_refl|]. rewrite elem_mk. by left.
    + apply (frame_weaken q q _ _ _ _ Hfr'); [by left|]. intros a. by rewrite !elem_mk.
Qed.

Lemma balance_child x fuel s q d n b u w :
  let t := mk d n b (attach x u) w in
  rep s q t → wf t → ¬ within q t → met x u = false → height u < fuel →
  ∃ s', insert_balance fuel x (rootptr (attach x u)) s = Some s' ∧
        rep s' q (mk d n b (grow x u) w) ∧ frame q t s s'.
Proof.
  intros t Ht Hw Hq Hm Hf.
  pose proof Ht as Hu. unfold t in Hu. rewrite rep_mk in Hu. destruct Hu as (_&_&Hu&_).
  pose proof Hw as Hwu. unfold t in Hwu. rewrite wf_mk in Hwu. destruct Hwu as (Hnu&_&_&Hwu&_).
  destruct (insert_balance_spec x u fuel s (Lnk n d) Hu Hwu) as (s'&Hrun&Hr&Hfr); [done|done|done|].
  exists s'. split; [done|]. by apply (rep_child_update s s' q d n b (attach x u)).
Qed.

Lemma balance_grandchild x fuel s q d n b d' m b' u y w :
  let t := mk d n b (mk d' m b' (attach x u) y) w in
  rep s q t → wf t → ¬ within q t → met x u = false → height u < fuel →
  ∃ s', insert_balance fuel x (rootptr (attach x u)) s = Some s' ∧
        rep s' q (mk d n b (mk d' m b' (grow x u) y) w) ∧ frame q t s s'.
Proof.
  intros t Ht Hw Hq Hm Hf.
  pose proof Ht as Hu. unfold t in Hu. rewrite rep_mk in Hu. destruct Hu as (_&_&Hu&_).
  pose proof Hw as Hwu. unfold t in Hwu. rewrite wf_mk in Hwu. destruct Hwu as (Hnu&_&_&Hwu&_).
  destruct (balance_child x fuel s (Lnk n d) d' m b' u y Hu Hwu) as (s'&Hrun&Hr&Hfr); [done..|].
  exists s'. split; [done|].
  by apply (rep_child_update s s' q d n b (mk d' m b' (attach x u) y)).
Qed.

(** The second half of [Avl::insert], from the node [*p] on. *)
Definition settle (fuel : nat) (x : obj) (p : loc) (s : astore) : option astore :=
  '(n, s) ← insert_rotate x p s; insert_balance fuel x n s.

(** What it establishes for the subtree [t] of [*p]. *)
Definition settled (x : obj) (q : loc) (s : astore) (t t' : tree) (h : nat) (s' : astore) : Prop :=
  rep s' q t' ∧ avl t' ∧ height t' = h ∧ inorder t' = inorder (attach x t) ∧
  frame q (attach x t) s s'.

(** The heavier child of an unbalanced node is a node. *)
Lemma heavy_child x u h :
  height u = S h → avl u → pathbal x u = true →
  ∃ d m g y, u = mk d m 2 g y ∧ larger x m = d ∧ pathbal x g = true ∧ avl g ∧ avl y ∧
             height g = h ∧ height y = h.
Proof.
  destruct u as [|d m b g y Hd _] using (path_ind x); [done|].
  rewrite height_mk, avl_mk, pathbal_mk by done. intros Hh (Hg&Hy&Hf) [Hb Hp]%andb_true_iff.
  apply Z.eqb_eq in Hb. subst b. exists d, m, g, y. unfold factor in Hf.
  destruct d; simpl in Hf; split_and!; try done; intuition lia.
Qed.

Lemma b2z_neq d b : (b = 2 ∨ b = Z.b2z d ∨ b = Z.b2z (negb d))%Z → (b ≠ 2)%Z →
  (b =? Z.b2z d)%Z = false → b = Z.b2z (negb d).
Proof. intros [->|[->| ->]] ? ?; [done| |done]. by rewrite Z.eqb_refl in *. Qed.

Lemma frame_same_elems q t t' s s' :
  frame q t s s' → (∀ a, a ∈ inorder t ↔ a ∈ inorder t') → frame q t' s s'.
Proof. intros Hf He. apply (frame_weaken q q t t' s s' Hf); [by left|]. intros a. apply He. Qed.

(** Rotations keep the order of nodes and so the absence of duplicates. *)
Lemma wf_NoDup t : wf t ↔ NoDup (inorder t).
Proof.
  induction t as [|l IHl n b r IHr]; simpl; [by split; [constructor|]|].
  rewrite list.NoDup_app, list.NoDup_cons, IHl, IHr. setoid_rewrite elem_of_cons.
  split.
  - intros (?&?&Hd&?&?). split_and!; try done. intros a Ha [->|Ha']; [done|]. exact (Hd a Ha Ha').
  - intros (?&Hd&?&?). split_and!; try done.
    + intros Hn. apply (Hd n Hn). by left.
    + intros a Ha Ha'. apply (Hd a Ha). by right.
Qed.

Lemma wf_inorder t t' : inorder t = inorder t' → wf t → wf t'.
Proof. rewrite !wf_NoDup. by intros ->. Qed.

Lemma within_inorder q t t' : inorder t = inorder t' → ¬ within q t → ¬ within q t'.
Proof. destruct q; [done|]. simpl. by intros ->. Qed.

Lemma mk_flip d n b u w : mk (negb d) n b u w = mk d n b w u.
Proof. by destruct d. Qed.

Lemma factor_heavy d hu hw : factor d (Z.b2z d) hu hw → hu = S hw.
Proof. unfold factor. destruct d; simpl; lia. Qed.

Lemma factor_light d b hu hw :
  factor d b hu hw → b ≠ 2%Z → (b =? Z.b2z d)%Z = false → hw = S hu ∧ b = Z.b2z (negb d).
Proof. rewrite Z.eqb_neq. unfold factor. intuition lia. Qed.

Lemma factor_even d h : factor d 2 h h.
Proof. by left. Qed.

(** A rotation followed by the correction of factors. *)
Lemma settled_after x q s s1 s' t t1 t' h :
  frame q (attach x t) s s1 → frame q t1 s1 s' → inorder t1 = inorder (attach x t) →
  inorder t' = inorder t1 → rep s' q t' → avl t' → height t' = h → settled x q s t t' h s'.
Proof.
  intros Hf Hf' Ht1 Ht' Hr Ha Hh. split_and!; try done; [congruence|].
  apply (frame_trans _ _ _ s1); [done|]. apply (frame_same_elems q t1); [done|].
  intros a. by rewrite Ht1.
Qed.

Lemma insert_rotate_single fuel s x q d n m g y w :
  let t := mk d n (Z.b2z d) (mk d m 2 g y) w in
  larger x n = d → larger x m = d → pathbal x g = true → met x g = false →
  avl g → avl y → avl w → height y = height g → height w = height g →
  rep s q (attach x t) → wf (attach x t) → ¬ within q (attach x t) → height g < fuel →
  ∃ s' t', ('(n, s) ← rotate q d s; insert_balance fuel x n s) = Some s' ∧
           settled x q s t t' (S (S (height g))) s'.
Proof.
  intros t Hd Hd2 Hp Hm Hag Hay Haw Hhy Hhw Ht Hw Hq Hfuel.
  assert (attach x t = mk d n (Z.b2z d) (mk d m 2 (attach x g) y) w) as Hat.
  { unfold t. by rewrite !attach_mk. }
  destruct (rotate_spec s q d n (Z.b2z d) m 2 (attach x g) y w) as (s1&Hrot&Hr1&Hf1);
    [congruence..|].
  set (t1 := mk d m 2 (attach x g) (mk d n 2 y w)) in *.
  assert (inorder t1 = inorder (attach x t)) as Ho1 by (rewrite Hat; unfold t1; same_order).
  destruct (balance_child x fuel s1 q d m 2 g (mk d n 2 y w)) as (s'&Hrun&Hr&Hf'); try done.
  - by apply (wf_inorder (attach x t)).
  - by apply (within_inorder _ (attach x t)).
  - rewrite Hrot. cbn [mbind option_bind]. exists s', (mk d m 2 (grow x g) (mk d n 2 y w)).
    split; [done|]. destruct (avl_grow x g Hag Hp) as [Hgr Hhgr].
    apply (settled_after x q s s1 s' t t1); try done.
    + by rewrite Hat.
    + unfold t1. clear. destruct d; simpl; by rewrite inorder_grow.
    + rewrite !avl_mk, !height_mk, Hhgr, Hhy, Hhw, Nat.max_id. auto using factor_even.
    + rewrite !height_mk, Hhgr, Hhy, Hhw. lia.
Qed.

Lemma insert_rotate_double fuel s x q d n m g y w :
  let t := mk d n (Z.b2z d) (mk (negb d) m 2 g y) w in
  larger x n = d → larger x m = negb d → pathbal x g = true → met x g = false →
  avl g → avl y → avl w → height y = height g → height w = height g →
  rep s q (attach x t) → wf (attach x t) → ¬ within q (attach x t) → height g < fuel →
  ∃ c s' t', rootptr (attach x g) = Some c ∧
    ('(n, s) ← rotate2 q d (if equal x c then 2 else Z.b2z (larger x c)) s;
     insert_balance fuel x n s) = Some s' ∧
    settled x q s t t' (S (S (height g))) s'.
Proof.
  intros t Hd Hd2 Hp Hm Hag Hay Haw Hhy Hhw Ht Hw Hq Hfuel.
  assert (attach x t = mk d n (Z.b2z d) (mk d m 2 y (attach x g)) w) as Hat.
  { unfold t. rewrite !attach_mk, mk_flip by done. done. }
  destruct g as [|d3 c bc u v Hd3 _] using (path_ind x).
  - (* the new node is the grandchild *)
    exists x. rewrite equal_rank by done. destruct y; [|done]. destruct w; [|done].
    destruct (rotate2_spec s q d 2 n (Z.b2z d) m 2 x 2 E E E E) as (s1&Hrot&Hr1&Hf1);
      [by destruct d; [rewrite Hat in *..]|by destruct d; [rewrite Hat in *..]
      |by destruct d; [rewrite Hat in *..]|by left|].
    exists s1, (mk d x 2 (mk d m 2 E E) (mk d n 2 E E)). split; [done|].
    destruct fuel; [lia|]. split; [by rewrite Hrot|].
    replace (2 =? Z.b2z (negb d))%Z with false in Hr1 by (by destruct d).
    replace (2 =? Z.b2z d)%Z with false in Hr1 by (by destruct d).
    assert (frame q (attach x t) s s1) as Hf1' by (rewrite Hat; clear -Hf1; by destruct d).
    apply (settled_after x q s s1 s1 t (mk d x 2 (mk d m 2 E E) (mk d n 2 E E)));
      [done|apply frame_refl| |reflexivity|exact Hr1|..].
    + rewrite Hat. clear. by destruct d.
    + rewrite !avl_mk, !height_mk. simpl. auto 10 using factor_even.
    + by rewrite !height_mk.
  - rewrite met_mk in Hm by done. apply orb_false_iff in Hm as [Hne Hm].
    rewrite pathbal_mk in Hp by done. apply andb_true_iff in Hp as [Hbc Hp].
    apply Z.eqb_eq in Hbc. subst bc.
    rewrite avl_mk in Hag. destruct Hag as (Hau&Hav&Hf).
    assert (height u = height v) as Huv by (unfold factor in Hf; clear -Hf; destruct d3; simpl in Hf; lia).
    rewrite height_mk, <-Huv, Nat.max_id in *.
    destruct (avl_grow x u Hau Hp) as [Hgr Hhgr].
    exists c. rewrite (attach_mk x d3 c 2 u v Hd3) in Hat |- *.
    assert (rootptr (mk d3 c 2 (attach x u) v) = Some c) as Hroot by (by destruct d3).
    rewrite Hne, Hd3.
    assert (d3 = d ∨ d3 = negb d) as [-> | ->] by (destruct d3, d; auto).
    + rewrite Hat in Ht, Hw, Hq.
      destruct (rotate2_spec s q d (Z.b2z d) n (Z.b2z d) m 2 c 2 y (attach x u) v w)
        as (s1&Hrot&Hr1&Hf1); [done..|auto|].
      replace (Z.b2z d =? 2)%Z with false in * by (by destruct d).
      replace (Z.b2z d =? Z.b2z (negb d))%Z with false in * by (by destruct d).
      rewrite Z.eqb_refl in *.
      set (B := mk d n (Z.b2z (negb d)) v w) in *.
      rewrite <-(mk_flip d m) in Hr1.
      set (t1 := mk d c 2 (mk (negb d) m 2 (attach x u) y) B) in *.
      assert (inorder t1 = inorder (attach x t)) as Ho1.
      { rewrite Hat. unfold t1, B. clear. same_order. }
      destruct (balance_grandchild x fuel s1 q d c 2 (negb d) m 2 u y B) as (s'&Hrun&Hr&Hf');
        [done|by apply (wf_inorder (attach x t)); [|rewrite Hat]
        |by apply (within_inorder _ (attach x t)); [|rewrite Hat]|done|lia|].
      rewrite Hrot. cbn [mbind option_bind]. exists s'. eexists. split; [done|]. split; [done|].
      apply (settled_after x q s s1 s' t t1 _ _); [by rewrite Hat|done|done| |exact Hr|..].
      * unfold t1. clear. destruct d; simpl; by rewrite inorder_grow.
      * unfold B. rewrite !avl_mk, !height_mk, Hhgr, Hhy, Hhw, Huv.
        unfold factor. clear -Hgr Hay Hav Haw. destruct d; simpl; intuition lia.
      * unfold B. rewrite !height_mk, Hhgr, Hhy, Hhw, Huv. lia.
    + rewrite mk_flip in Hat. rewrite Hat in Ht, Hw, Hq.
      destruct (rotate2_spec s q d (Z.b2z (negb d)) n (Z.b2z d) m 2 c 2 y v (attach x u) w)
        as (s1&Hrot&Hr1&Hf1); [done..|auto|].
      replace (Z.b2z (negb d) =? 2)%Z with false in * by (by destruct d).
      replace (Z.b2z (negb d) =? Z.b2z d)%Z with false in * by (by destruct d).
      rewrite Z.eqb_refl in *.
      set (B := mk d m (Z.b2z d) y v) in *.
      rewrite <-(mk_flip d c) in Hr1.
      set (t1 := mk (negb d) c 2 (mk d n 2 (attach x u) w) B) in *.
      assert (inorder t1 = inorder (attach x t)) as Ho1.
      { rewrite Hat. unfold t1, B. clear. same_order. }
      destruct (balance_grandchild x fuel s1 q (negb d) c 2 d n 2 u w B) as (s'&Hrun&Hr&Hf');
        [done|by apply (wf_inorder (attach x t)); [|rewrite Hat]
        |by apply (within_inorder _ (attach x t)); [|rewrite Hat]|done|lia|].
      rewrite Hrot. cbn [mbind option_bind]. exists s'. eexists. split; [done|]. split; [done|].
      apply (settled_after x q s s1 s' t t1 _ _); [by rewrite Hat|done|done| |exact Hr|..].
      * unfold t1. clear. destruct d; simpl; by rewrite inorder_grow.
      * unfold B. rewrite !avl_mk, !height_mk, Hhgr, Hhy, Hhw, Huv.
        unfold factor. clear -Hgr Hay Hav Haw. destruct d; simpl; intuition lia.
      * unfold B. rewrite !height_mk, Hhgr, Hhy, Hhw, Huv. lia.
Qed.

Lemma insert_at_pivot fuel s x q d n b u w :
  let t := mk d n b u w in
  larger x n = d → b ≠ 2%Z → pathbal x u = true → met x t = false → avl t →
  rep s q (attach x t) → wf (attach x t) → ¬ within q (attach x t) → height t < fuel →
  ∃ s' t', settle fuel x q s = Some s' ∧ settled x q s t t' (height t) s'.
Proof.
  intros t Hd Hb Hp Hm Ha Ht Hw Hq Hfuel. unfold settle, insert_rotate.
  pose proof (attach_mk x d n b u w Hd) as Hat. fold t in Hat.
  unfold t in Hm. rewrite met_mk in Hm by done. apply orb_false_iff in Hm as [Hne Hm].
  pose proof (height_mk d n b u w) as Hht. fold t in Hht.
  pose proof Ht as Ht'. rewrite Hat, rep_mk in Ht'. destruct Ht' as (Hn&Hbn&Hu&Hww).
  rewrite Hn. cbn [mbind option_bind]. unfold balanced. rewrite Hbn. clear Hbn.
  rewrite (proj2 (Z.eqb_neq b 2)) by done. rewrite Hd.
  unfold t in Ha. rewrite avl_mk in Ha. destruct Ha as (Hau&Haw&Hf).
  destruct (b =? Z.b2z d)%Z eqn:Hbd; cbn [negb].
  - (* rotation *)
    apply Z.eqb_eq in Hbd. subst b. apply factor_heavy in Hf.
    destruct (heavy_child x u (height w) Hf Hau Hp) as (d2&m&g&y&Hue&Hd2&Hpg&Hag&Hay&Hhg&Hhy).
    assert (height t = S (S (height g))) as -> by lia.
    subst u. rewrite met_mk in Hm by done. apply orb_false_iff in Hm as [Hnem Hmg].
    rewrite attach_mk in Hu by done. rewrite rep_mk in Hu. destruct Hu as (Hcm&_&Hg&_).
    rewrite Hcm. cbn [mbind option_bind]. rewrite Hd2.
    destruct (eqb d d2) eqn:Hdd.
    + apply eqb_prop in Hdd. assert (d2 = d) as -> by done.
      apply insert_rotate_single; try done; lia.
    + assert (d2 = negb d) as -> by (by destruct d, d2).
      destruct (insert_rotate_double fuel s x q d n m g y w)
        as (c&s'&t'&Hc&Hrun&Hs); try done; try lia.
      rewrite (rep_root _ _ _ Hg), Hc. cbn [mbind option_bind]. by exists s', t'.
  - (* the other side was higher *)
    destruct (factor_light d b (height u) (height w) Hf Hb Hbd) as [Hhw _].
    rewrite Hat in Hw, Hq, Ht. set (s1 := set_bal n 2 s).
    assert (wf (mk d n 2 (attach x u) w)) as Hw1 by (by rewrite wf_mk in *).
    assert (inorder (mk d n b (attach x u) w) = inorder (mk d n 2 (attach x u) w)) as Ho
      by (by destruct d).
    destruct (balance_child x fuel s1 q d n 2 u w) as (s'&Hrun&Hr&Hfr);
      [by apply (rep_set_bal s q d n b)|done|by apply (within_inorder _ _ _ Ho)|done|lia|].
    change (cell s1 (Lnk n d)) with (cell s (Lnk n d)).
    rewrite (rep_root _ _ _ Hu). cbn [mbind option_bind].
    exists s', (mk d n 2 (grow x u) w). split; [done|].
    destruct (avl_grow x u Hau Hp) as [Hgr Hhgr].
    apply (settled_after x q s s1 s' t (mk d n 2 (attach x u) w)); try done.
    + rewrite Hat. apply frame_set_bal; [apply frame_refl|]. rewrite elem_mk. by left.
    + by rewrite Hat.
    + clear. destruct d; simpl; by rewrite inorder_grow.
    + rewrite avl_mk, Hhgr, Hhw. auto using factor_even.
    + rewrite height_mk. lia.
Qed.

(** Below the root of [t] the pivot is found by the search. *)
Lemma insert_settles x t : ∀ fuel s q p,
  pathbal x t = false → met x t = false → avl t →
  rep s q (attach x t) → wf (attach x t) → ¬ within q (attach x t) → height t < fuel →
  ∃ s' t', settle fuel x (pivot x t q p) s = Some s' ∧ settled x q s t t' (height t) s'.
Proof.
  induction t as [|d n b u w Hd IH] using (path_ind x); intros fuel s q p Hp Hm Ha Ht Hw Hq Hfuel;
    [done|].
  rewrite pivot_mk by done. destruct (pathbal x u) eqn:Hpu.
  - rewrite pivot_pathbal by done. rewrite pathbal_mk, Hpu, andb_true_r in Hp by done.
    rewrite Hp. apply insert_at_pivot; try done. by apply Z.eqb_neq.
  - rewrite met_mk in Hm by done. apply orb_false_iff in Hm as [_ Hm].
    rewrite avl_mk in Ha. destruct Ha as (Hau&Haw&Hf). rewrite height_mk in *.
    rewrite attach_mk in Ht, Hw, Hq by done.
    pose proof Ht as Hu. rewrite rep_mk in Hu. destruct Hu as (_&_&Hu&_).
    pose proof Hw as Hwu. rewrite wf_mk in Hwu. destruct Hwu as (Hnu&_&_&Hwu&_).
    destruct (IH fuel s (Lnk n d) (if (b =? 2)%Z then p else q) eq_refl Hm Hau Hu Hwu Hnu)
      as (s'&u'&Hrun&Hr&Hau'&Hh&Ho&Hfr); [lia|].
    destruct (rep_child_update s s' q d n b (attach x u) u' w) as [Hres Hfr']; try done.
    exists s', (mk d n b u' w). split; [done|].
    rewrite <-attach_mk in Hfr' by done. split_and!; try done.
    + by rewrite avl_mk, Hh.
    + by rewrite height_mk, Hh.
    + rewrite attach_mk by done. destruct d; simpl; by rewrite Ho.
Qed.

(** ** The abstract tree: a sorted sequence of nodes *)

Definition below (x y : obj) : Prop := (rank x < rank y)%Z.

(** No two of the nodes are equal for the comparison. *)
Definition separated (l : list obj) : Prop :=
  ∀ a b, a ∈ l → b ∈ l → equal a b = true → a = b.

(** The memory holds at [q] a balanced search tree with the nodes [l]. *)
Definition holds (s : astore) (q : loc) (l : list obj) : Prop :=
  ∃ t, rep s q t ∧ bst t ∧ avl t ∧ inorder t = l ∧ ¬ within q t.

Lemma bst_inorder t : bst t ↔ StronglySorted below (inorder t).
Proof.
  induction t as [|l IHl n b r IHr]; simpl; [by split; [constructor|]|].
  rewrite IHl, IHr, StronglySorted_app, StronglySorted_cons, list.Forall_forall.
  setoid_rewrite elem_of_cons. unfold below. split.
  - intros (Hl&Hr&Hsl&Hsr). split_and!; [|done..].
    intros a c Ha [->|Hc]; [by apply Hl|]. specialize (Hl a Ha). specialize (Hr c Hc). lia.
  - intros (Hlr&Hsl&Hall&Hsr). split_and!; [|done..]. intros a Ha. apply Hlr; auto.
Qed.

(** An equal node of a separated tree is on the search path. *)
Lemma met_spec x t :
  bst t → separated (inorder t) → met x t = existsb (equal x) (inorder t).
Proof.
  induction t as [|d n b u w Hd IH] using (path_ind x); [done|]. intros Ht Hs.
  rewrite met_mk by done.
  assert (existsb (equal x) (inorder (mk d n b u w)) =
          equal x n || existsb (equal x) (inorder u) || existsb (equal x) (inorder w)) as ->.
  { destruct d; simpl; rewrite existsb_app; simpl;
      by destruct (existsb _ (inorder u)), (existsb _ (inorder w)), (equal x n). }
  rewrite bst_mk in Ht. destruct Ht as (Hu&Hw&Hbu&Hbw).
  rewrite IH; [|done|].
  2: { intros a c Ha Hc. apply Hs; rewrite elem_mk; auto. }
  destruct (equal x n) eqn:Hn; [done|]. simpl.
  destruct (existsb (equal x) (inorder u)); [done|]. simpl. symmetry.
  apply not_true_iff_false. intros (a&Ha&Hxa)%existsb_exists.
  apply list_elem_of_In in Ha. destruct (Hw a Ha) as [Hra Hne].
  rewrite larger_rank in Hd.
  assert (equal x n = true ∨ equal n a = true) as [|Hna]; [|congruence|].
  - destruct d; simpl in Hra; apply bool_decide_eq_true in Hd || apply bool_decide_eq_false in Hd;
      apply bool_decide_eq_true in Hra || apply bool_decide_eq_false in Hra.
    + rewrite (equal_sym x n), (equal_sym n a). apply or_comm, equal_between; [lia|].
      by rewrite equal_sym.
    + apply equal_between; [lia|done].
  - assert (n = a) as ->; [|done]. apply Hs; [rewrite elem_mk; auto..|done].
Qed.

(** Attaching inserts the node in the sequence. *)
Lemma attach_inorder x t :
  ∃ l1 l2, inorder t = l1 ++ l2 ∧ inorder (attach x t) = l1 ++ x :: l2.
Proof.
  induction t as [|d n b u w Hd IH] using (path_ind x).
  - by exists [], [].
  - destruct IH as (l1&l2&Hu&Ha). rewrite attach_mk by done. destruct d; simpl; rewrite Hu, Ha.
    + exists (inorder w ++ n :: l1), l2. by rewrite <-!app_assoc.
    + exists l1, (l2 ++ n :: inorder w). by rewrite <-!app_assoc.
Qed.

Lemma bst_attach x t : bst t → met x t = false → bst (attach x t).
Proof.
  induction t as [|d n b u w Hd IH] using (path_ind x).
  - intros _ _. simpl. split_and!; try done; intros a Ha; by apply not_elem_of_nil in Ha.
  - rewrite attach_mk, met_mk, !bst_mk by done.
    intros (Hu&Hw&Hbu&Hbw) [Hne Hm]%orb_false_iff. split_and!; [|done|by apply IH|done].
    intros a [->|Ha]%elem_attach; [|by apply Hu]. rewrite <-larger_rank. split; [done|].
    intros Hr. rewrite equal_rank in Hne; done.
Qed.

(** A balanced tree is low: the search passes end within twice the logarithm of
    the number of nodes. *)
Lemma avl_size t : avl t → 2 ^ height t ≤ (length (inorder t) + 1) * (length (inorder t) + 1).
Proof.
  induction t as [|l IHl n b r IHr]; [simpl; lia|]. simpl. intros (Hl&Hr&Hf).
  specialize (IHl Hl). specialize (IHr Hr). rewrite length_app. simpl.
  set (a := length (inorder l) + 1) in *. set (c := length (inorder r) + 1) in *.
  replace (length (inorder l) + S (length (inorder r)) + 1) with (a + c) by lia.
  assert (2 ^ max (height l) (height r) ≤ 2 * (2 ^ min (height l) (height r))) as Hmm.
  { rewrite <-Nat.pow_succ_r'. apply Nat.pow_le_mono_r; [lia|].
    unfold factor in Hf. simpl in Hf. lia. }
  assert (2 ^ max (height l) (height r) + 2 ^ min (height l) (height r) ≤ a * a + c * c) as Hsum.
  { destruct (Nat.max_spec (height l) (height r)) as [[? ->]|[? ->]];
      destruct (Nat.min_spec (height l) (height r)) as [[? ->]|[? ->]]; try lia;
      assert (height l = height r) as -> by lia; lia. }
  assert (2 ^ min (height l) (height r) ≤ 2 * a * c); [|lia].
  assert (2 ^ min (height l) (height r) ≤ a * a) by
    (etransitivity; [|exact IHl]; apply Nat.pow_le_mono_r; lia).
  assert (2 ^ min (height l) (height r) ≤ c * c) by
    (etransitivity; [|exact IHr]; apply Nat.pow_le_mono_r; lia).
  destruct (Nat.le_ge_cases a c); nia.
Qed.

Definition depth (n : nat) : nat := 2 * Nat.log2 (n + 1) + 1.

Lemma avl_depth t : avl t → height t ≤ depth (length (inorder t)).
Proof.
  intros Ha%avl_size. unfold depth. set (m := length (inorder t)) in *.
  apply Nat.log2_le_mono in Ha. rewrite Nat.log2_pow2 in Ha by lia.
  pose proof (Nat.log2_mul_above (m + 1) (m + 1) ltac:(lia) ltac:(lia)). lia.
Qed.

(** Pointers that belong neither to the tree nor to its root. *)
Definition elsewhere (q : loc) (l : list obj) (s s' : astore) : Prop :=
  (∀ p, p ≠ q → (∀ n d, n ∈ l → p ≠ Lnk n d) → cell s' p = cell s p) ∧
  (∀ a, a ∉ l → bal s' a = bal s a).

Lemma frame_elsewhere q t l s s' :
  frame q t s s' → (∀ a, a ∈ inorder t → a ∈ l) → elsewhere q l s s'.
Proof.
  intros [Hc Hb] Hl. split.
  - intros p Hp Hn. apply Hc; [done|]. destruct p as [|n d]; [by intros []|]. intros Hin.
    exact (Hn n d (Hl n Hin) eq_refl).
  - intros a Ha. apply Hb. auto.
Qed.

(** A node as the constructor leaves it: no children and balanced. *)
Definition fresh_node (s : astore) (x : obj) : Prop :=
  (∀ d, cell s (Lnk x d) = None) ∧ bal s x = 2%Z.

(** The code of [Avl::insert] behind the search. *)
Lemma insert_run fuel s q t x :
  met x t = false → avl t → rep s q t → wf t → x ∉ inorder t → ¬ within q (attach x t) →
  fresh_node s x → height t < fuel →
  ∃ s' t', insert fuel q x s = Some (true, s') ∧ rep s' q t' ∧ avl t' ∧
           inorder t' = inorder (attach x t) ∧ frame q (attach x t) s s'.
Proof.
  intros Hm Ha Ht Hw Hx Hq [Hnull Hbal] Hfuel.
  unfold insert. rewrite (insert_search_spec x s t fuel q q Ht Hfuel), Hm.
  cbn [mbind option_bind].
  destruct (attach_spec x s t q Ht Hw Hx Hq Hnull Hbal) as [Hr Hf].
  set (s1 := put (hole x t q) (Some x) s) in *.
  pose proof (wf_attach x t Hw Hx) as Hwa.
  assert (∃ s' t', settle fuel x (pivot x t q q) s1 = Some s' ∧
                   rep s' q t' ∧ avl t' ∧ inorder t' = inorder (attach x t) ∧
                   frame q (attach x t) s1 s') as (s'&t'&Hrun&Hr'&Ha'&Ho&Hf').
  { destruct (pathbal x t) eqn:Hp.
    - rewrite pivot_pathbal by done.
      destruct (insert_balance_spec x t fuel s1 q Hr Hwa Hq Hm Hfuel) as (s'&Hrun&Hr'&Hf').
      exists s', (grow x t). destruct (avl_grow x t Ha Hp) as [Hg _].
      split_and!; [|done|done|apply inorder_grow|done].
      unfold settle, insert_rotate. rewrite (rep_root _ _ _ Hr).
      assert (∃ n, rootptr (attach x t) = Some n ∧ bal s1 n = 2%Z) as (n&Hn&Hbn).
      { clear -Hr Hp. destruct t as [|d m b u w Hd _] using (path_ind x).
        - exists x. simpl in *. tauto.
        - rewrite attach_mk, rep_mk in Hr by done. rewrite pathbal_mk in Hp by done.
          apply andb_true_iff in Hp as [Hb%Z.eqb_eq _]. exists m. split; [|].
          + rewrite attach_mk by done. by destruct d.
          + destruct Hr as (_&Hbm&_). congruence. }
      rewrite Hn in *. cbn [mbind option_bind]. unfold balanced. rewrite Hbn. done.
    - destruct (insert_settles x t fuel s1 q q Hp Hm Ha Hr Hwa Hq Hfuel)
        as (s'&t'&Hrun&Hr'&Ha'&_&Ho&Hf').
      by exists s', t'. }
  exists s', t'. split_and!; try done.
  - unfold settle in Hrun. destruct (insert_rotate x (pivot x t q q) s1) as [[n s2]|]; [|done].
    cbn [mbind option_bind] in *. by rewrite Hrun.
  - by apply (frame_trans _ _ _ s1).
Qed.

Lemma insert_holds fuel s q l x :
  holds s q l → separated l → fresh_node s x → x ∉ l → (∀ d, q ≠ Lnk x d) →
  depth (length l) < fuel →
  if existsb (equal x) l then insert fuel q x s = Some (false, s)
  else ∃ s' l1 l2, insert fuel q x s = Some (true, s') ∧ l = l1 ++ l2 ∧
                   holds s' q (l1 ++ x :: l2) ∧ elsewhere q (x :: l) s s'.
Proof.
  intros (t&Hr&Hb&Ha&<-&Hq) Hs Hn Hx Hqx Hfuel. rewrite <-met_spec by done.
  assert (height t < fuel) as Hh by (pose proof (avl_depth t Ha); lia).
  destruct (met x t) eqn:Hm.
  - unfold insert. by rewrite (insert_search_spec x s t fuel q q Hr Hh), Hm.
  - assert (¬ within q (attach x t)) as Hqa.
    { destruct q as [|n d]; [done|]. simpl in *. rewrite elem_attach.
      intros [->|?]; [by apply (Hqx d)|done]. }
    destruct (insert_run fuel s q t x) as (s'&t'&Hrun&Hr'&Ha'&Ho&Hf); try done; [by apply bst_wf|].
    destruct (attach_inorder x t) as (l1&l2&Hl&Hl'). exists s', l1, l2. split_and!; try done.
    + exists t'. split_and!; try done; [|congruence|by apply (within_inorder _ (attach x t))].
      apply bst_inorder. rewrite Ho. apply bst_inorder. by apply bst_attach.
    + apply (frame_elsewhere q (attach x t)); [done|]. intros a Hin%elem_attach.
      by apply elem_of_cons.
Qed.
End insertion.

(** Only the ranks of the nodes matter. *)
Lemma holds_rank (I I' : AvlNode) s q l :
  (∀ a, a ∈ l → @rank I a = @rank I' a) → @holds I s q l → @holds I' s q l.
Proof.
  intros Hr (t&Ht&Hb&Ha&<-&Hq). exists t. split_and!; try done. clear Ht Ha Hq.
  induction t as [|l IHl n b r IHr]; [done|]. simpl in *. destruct Hb as (Hl&Hrr&Hbl&Hbr).
  setoid_rewrite elem_of_app in Hr. setoid_rewrite elem_of_cons in Hr.
  split_and!.
  - intros a Ha. rewrite <-!Hr by auto. auto.
  - intros a Ha. rewrite <-!Hr by auto. auto.
  - apply IHl; auto.
  - apply IHr; auto.
Qed.
