(* ===== verification/AvlRemove.v ===== *)
(** Removal from balanced trees.

    The second pass of [Avl::remove] rotates and corrects factors as if the
    last node of the search path were already gone; the node to remove is then
    overwritten by that last node.  A tree in the state between the two steps
    is described by [avlx]: balanced once its last node is cut out. *)
From stdpp Require Import sorting.
From S2P Require Import Prelude Queue Avl.

Section removal.
Context `{AvlNode}.

(** The last node of the search path of [x], its location, the direction taken
    there, and the location of [x]. *)
Fixpoint lastnode (x : obj) (t : tree) : obj :=
  match t with
  | E => x
  | T l n _ r =>
    if larger x n then match r with E => n | _ => lastnode x r end
    else match l with E => n | _ => lastnode x l end
  end.

Fixpoint lastloc (x : obj) (t : tree) (q : loc) : loc :=
  match t with
  | E => q
  | T l n _ r =>
    if larger x n then match r with E => q | _ => lastloc x r (Lnk n true) end
    else match l with E => q | _ => lastloc x l (Lnk n false) end
  end.

Fixpoint nodeloc (x : obj) (t : tree) (q : loc) : loc :=
  match t with
  | E => q
  | T l n _ r =>
    if bool_decide (n = x) then q
    else if larger x n then nodeloc x r (Lnk n true) else nodeloc x l (Lnk n false)
  end.

(** Heights below this node do not reach above it: the node is balanced, or it
    is heavier on the other side and the other child is balanced. *)
Definition stops (d : bool) (b : Z) (u w : tree) : bool :=
  match u with
  | E => false
  | _ => (b =? 2)%Z || ((b =? Z.b2z (negb d))%Z &&
           match w with E => false | T _ _ bw _ => (bw =? 2)%Z end)
  end.

Definition stops_here (x : obj) (t : tree) : bool :=
  match t with
  | E => false
  | T l n b r => if larger x n then stops true b r l else stops false b l r
  end.

Fixpoint nostop (x : obj) (t : tree) : bool :=
  match t with
  | E => true
  | T l n b r =>
    negb (stops_here x t) && (if larger x n then nostop x r else nostop x l)
  end.

(** What the first pass computes. *)
Fixpoint shrinkp (x : obj) (t : tree) (q p : loc) : loc :=
  match t with
  | E => p
  | T l n b r =>
    let p := if stops_here x t then q else p in
    if larger x n then shrinkp x r (Lnk n true) p else shrinkp x l (Lnk n false) p
  end.

Fixpoint itemp (x : obj) (t : tree) (q : loc) (item : option loc) : option loc :=
  match t with
  | E => item
  | T l n b r =>
    let item := if equal x n then Some q else item in
    if larger x n then itemp x r (Lnk n true) item else itemp x l (Lnk n false) item
  end.

(** The tree without the last node, and the height it has then. *)
Fixpoint cut (x : obj) (t : tree) : tree :=
  match t with
  | E => E
  | T l n b r =>
    if larger x n then match r with E => l | _ => T l n b (cut x r) end
    else match l with E => r | _ => T (cut x l) n b r end
  end.

Fixpoint avlx (x : obj) (t : tree) : Prop :=
  match t with
  | E => True
  | T l n b r =>
    if larger x n
    then match r with E => avl l
         | _ => avlx x r ∧ avl l ∧ factor true b (height (cut x r)) (height l) end
    else match l with E => avl r
         | _ => avlx x l ∧ avl r ∧ factor false b (height (cut x l)) (height r) end
  end.

Lemma lastnode_mk x d n b u w :
  larger x n = d → lastnode x (mk d n b u w) = match u with E => n | _ => lastnode x u end.
Proof. intros <-. destruct (larger x n) eqn:Hd; simpl; by rewrite Hd. Qed.
Lemma lastloc_mk x d n b u w q :
  larger x n = d →
  lastloc x (mk d n b u w) q = match u with E => q | _ => lastloc x u (Lnk n d) end.
Proof. intros <-. destruct (larger x n) eqn:Hd; simpl; by rewrite Hd. Qed.
Lemma nodeloc_mk x d n b u w q :
  larger x n = d →
  nodeloc x (mk d n b u w) q = if bool_decide (n = x) then q else nodeloc x u (Lnk n d).
Proof. intros <-. destruct (larger x n) eqn:Hd; simpl; by rewrite Hd. Qed.
Lemma stops_here_mk x d n b u w :
  larger x n = d → stops_here x (mk d n b u w) = stops d b u w.
Proof. intros <-. destruct (larger x n) eqn:Hd; simpl; by rewrite Hd. Qed.
Lemma nostop_mk x d n b u w :
  larger x n = d → nostop x (mk d n b u w) = negb (stops d b u w) && nostop x u.
Proof. intros <-. destruct (larger x n) eqn:Hd; simpl; by rewrite Hd. Qed.
Lemma shrinkp_mk x d n b u w q p :
  larger x n = d →
  shrinkp x (mk d n b u w) q p = shrinkp x u (Lnk n d) (if stops d b u w then q else p).
Proof. intros <-. destruct (larger x n) eqn:Hd; simpl; by rewrite Hd. Qed.
Lemma itemp_mk x d n b u w q item :
  larger x n = d →
  itemp x (mk d n b u w) q item = itemp x u (Lnk n d) (if equal x n then Some q else item).
Proof. intros <-. destruct (larger x n) eqn:Hd; simpl; by rewrite Hd. Qed.
Lemma cut_mk x d n b u w :
  larger x n = d →
  cut x (mk d n b u w) = match u with E => w | _ => mk d n b (cut x u) w end.
Proof. intros <-. destruct (larger x n) eqn:Hd; simpl; by rewrite Hd. Qed.
Lemma avlx_mk x d n b u w :
  larger x n = d →
  avlx x (mk d n b u w) ↔
  match u with E => avl w | _ => avlx x u ∧ avl w ∧ factor d b (height (cut x u)) (height w) end.
Proof. intros <-. destruct (larger x n) eqn:Hd; simpl; by rewrite Hd. Qed.

Lemma avl_cut x t : avlx x t → avl (cut x t).
Proof.
  induction t as [|d n b u w Hd IH] using (path_ind x); [done|].
  rewrite avlx_mk, cut_mk by done. destruct u; [done|]. intros (Hu&Hw&Hf).
  rewrite avl_mk. auto.
Qed.

Lemma remove_search_spec x s t : ∀ fuel q p item d0,
  rep s q t → avl t → height t < fuel →
  ∃ d', remove_search fuel x q p item d0 s =
          Some (lastloc x t q, shrinkp x t q p, itemp x t q item, d').
Proof.
  induction t as [|d n b u w Hd IH] using (path_ind x); intros [|fuel] q p item d0 Ht Ha Hf; try lia.
  - simpl in *. rewrite Ht. by exists d0.
  - rewrite height_mk in Hf. rewrite rep_mk in Ht. destruct Ht as (Hn&Hb&Hu&Hw).
    rewrite avl_mk in Ha. destruct Ha as (Hau&Haw&Hfac).
    rewrite lastloc_mk, shrinkp_mk, itemp_mk by done. simpl. rewrite Hn, Hd.
    rewrite (rep_root _ _ _ Hu). destruct u as [|ul un ub ur].
    { simpl. by exists d. }
    simpl rootptr. unfold balanced. rewrite Hb. unfold stops.
    destruct (b =? 2)%Z eqn:Hb2; [|destruct (b =? Z.b2z (negb d))%Z eqn:Hbd].
    + cbn [mbind option_bind orb]. apply IH; [done|done|lia].
    + apply Z.eqb_eq in Hbd. rewrite (rep_root _ _ _ Hw).
      destruct w as [|wl wn wb wr].
      { exfalso. clear -Hbd Hfac. subst b. apply factor_flip, factor_heavy in Hfac. simpl in Hfac. lia. }
      simpl rootptr. cbn [mbind option_bind orb andb]. destruct Hw as (_&->&_).
      apply IH; [done|done|lia].
    + cbn [mbind option_bind orb andb]. apply IH; [done|done|lia].
Qed.

(** ** The second pass *)

(** The tree [t] at [q] in [s] has become [t'], and the location of [x] is
    still known. *)
Definition shrunk (x : obj) (q : loc) (s : astore) (t : tree) (item item' : loc)
    (s' : astore) (t' : tree) : Prop :=
  rep s' q t' ∧ frame q t s s' ∧ inorder t' = inorder t ∧ avlx x t' ∧
  lastloc x t' q = lastloc x t q ∧ lastnode x t' = lastnode x t ∧
  (x ∈ inorder t → item' = nodeloc x t' q) ∧ (x ∉ inorder t → item' = item).

Lemma inorder_E t : inorder t = [] → t = E.
Proof. destruct t as [|l n b r]; [done|]. simpl. by destruct (inorder l). Qed.

Lemma nonempty_same t t' : inorder t' = inorder t → t ≠ E → t' ≠ E.
Proof. intros Ho Ht ->. apply Ht, inorder_E. by rewrite <-Ho. Qed.

Lemma match_tree {A} (t : tree) (a b : A) :
  t ≠ E → match t with E => a | T _ _ _ _ => b end = b.
Proof. by destruct t. Qed.

Lemma height_cut_mk x d n b u w :
  larger x n = d → u ≠ E →
  height (cut x (mk d n b u w)) = S (max (height (cut x u)) (height w)).
Proof. intros Hd Hu. rewrite cut_mk, match_tree, height_mk by done. done. Qed.

Lemma shrunk_node x q s d n b u u' w item item' s' :
  let t := mk d n b u w in
  shrunk x (Lnk n d) s u item item' s' u' →
  rep s q t → wf t → ¬ within q t → larger x n = d → u ≠ E → x ∉ inorder w →
  (n = x → item = q) → avl w → factor d b (height (cut x u')) (height w) →
  shrunk x q s t item item' s' (mk d n b u' w).
Proof.
  intros t (Hr&Hf&Ho&Ha&Hl&Hln&Hi&Hi') Ht Hw Hq Hd Hu Hxw Hnx Haw Hfac. unfold t in *.
  destruct (rep_child_update s s' q d n b u u' w) as [Hres Hfr]; try done.
  pose proof (nonempty_same _ _ Ho Hu) as Hu'.
  rewrite wf_mk in Hw. destruct Hw as (Hnu&_).
  unfold shrunk. rewrite !lastloc_mk, !lastnode_mk, avlx_mk, nodeloc_mk, elem_mk by done.
  rewrite !match_tree by done. split_and!; try done; [by destruct d; simpl; rewrite Ho| |].
  - case_bool_decide as Hn.
    + subst n. intros _. rewrite Hi' by done. auto.
    + intros [->|[Hx|Hx]]; [done|auto|done].
  - intros Hx. apply Hi'. tauto.
Qed.

(** A change of the node or a rotation before the descent. *)
Lemma shrunk_pre x q s t s1 t1 item item1 item' s' t' :
  shrunk x q s1 t1 item1 item' s' t' → frame q t s s1 → inorder t1 = inorder t →
  lastloc x t1 q = lastloc x t q → lastnode x t1 = lastnode x t → (x ∉ inorder t → item1 = item) →
  shrunk x q s t item item' s' t'.
Proof.
  intros (Hr&Hf&Ho&Ha&Hl&Hln&Hi&Hi') Hfr Ho1 Hl1 Hln1 Hit. unfold shrunk.
  rewrite <-Ho1 in Hit |- *. split_and!; try done; [|congruence..|].
  - apply (frame_trans _ _ _ s1); [done|]. apply (frame_same_elems q t1); [done|].
    intros a. by rewrite Ho1.
  - intros Hx. rewrite Hi' by done. auto.
Qed.

(** Nodes on the other side of [n] are on the same side of [x] as [n]. *)
Lemma larger_other x d n b u w a :
  bst (mk d n b u w) → larger x n = d → a ∈ inorder w → larger x a = d ∧ a ≠ x.
Proof.
  rewrite bst_mk, !larger_rank. intros (_&Hw&_) Hd Ha. destruct (Hw a Ha) as [Hra _].
  destruct d; simpl in Hra;
    rewrite ?bool_decide_eq_true, ?bool_decide_eq_false in *; (split; [lia|intros ->; lia]).
Qed.

Lemma not_other x d n b u w : bst (mk d n b u w) → larger x n = d → x ∉ inorder w.
Proof. intros Hb Hd Hx. by destruct (larger_other x d n b u w x Hb Hd Hx). Qed.

Lemma tree_mk d t : t ≠ E → ∃ n b u w, t = mk d n b u w.
Proof.
  destruct t as [|l n b r]; [done|]. intros _. exists n, b.
  destruct d; [exists r, l|exists l, r]; done.
Qed.

Definition nostop_below (x : obj) (t : tree) : bool :=
  match t with
  | E => true
  | T l n _ r => if larger x n then nostop x r else nostop x l
  end.

Lemma nostop_below_mk x d n b u w : larger x n = d → nostop_below x (mk d n b u w) = nostop x u.
Proof. intros <-. destruct (larger x n) eqn:Hd; simpl; by rewrite Hd. Qed.

Lemma nostop_here x t : nostop x t = true → nostop_below x t = true ∧ stops_here x t = false.
Proof.
  destruct t as [|d n b u w Hd _] using (path_ind x); [done|].
  rewrite nostop_mk, nostop_below_mk, stops_here_mk by done.
  by intros [Hs%negb_true_iff ?]%andb_true_iff.
Qed.

(** The induction hypothesis of the pass: what the loop does from a child. *)
Definition passes (x : obj) (fuel : nat) (u : tree) : Prop :=
  ∀ s q item d0, rep s q u → ¬ within q u → (x ∈ inorder u → item = nodeloc x u q) →
  ∃ item' s' u', remove_balance fuel x q item d0 s = Some (item', larger x (lastnode x u), s') ∧
    shrunk x q s u item item' s' u' ∧
    height (cut x u') + (if stops_here x u then 0 else 1) = height u.

Lemma pass_adjust x fuel s q item d n b b' u w :
  let t := mk d n b u w in
  passes x fuel u → nostop x u = true → larger x n = d → bst t → u ≠ E → rep s q t →
  ¬ within q t → avl w → (x ∈ inorder t → item = nodeloc x t q) →
  factor d b' (height u - 1) (height w) →
  ∃ item' s' t',
    remove_balance fuel x (Lnk n d) item d (set_bal n b' s)
      = Some (item', larger x (lastnode x t), s') ∧
    shrunk x q s t item item' s' t' ∧ height (cut x t') = S (max (height u - 1) (height w)).
Proof.
  intros t IH Hns Hd Hb Hu Ht Hq Haw Hi Hf. pose proof (bst_wf _ Hb) as Hw.
  set (s1 := set_bal n b' s). set (t1 := mk d n b' u w).
  assert (rep s1 q t1) as Hr1 by by apply (rep_set_bal s q d n b).
  assert (inorder t1 = inorder t) as Ho by (by destruct d).
  assert (wf t1) as Hw1 by by apply (wf_inorder t).
  assert (¬ within q t1) as Hq1 by by apply (within_inorder q t).
  pose proof Hr1 as Hru. unfold t1 in Hru. rewrite rep_mk in Hru. destruct Hru as (_&_&Hru&_).
  pose proof Hw1 as Hwu. unfold t1 in Hwu. rewrite wf_mk in Hwu. destruct Hwu as (Hnu&_&_&_&_).
  pose proof (not_other x d n b u w Hb Hd) as Hxw.
  unfold t in Hi. rewrite nodeloc_mk, elem_mk in Hi by done.
  destruct (IH s1 (Lnk n d) item d Hru Hnu) as (item'&s'&u'&Hrun&Hsh&Hh).
  { intros Hx. specialize (Hi (or_intror (or_introl Hx))).
    rewrite bool_decide_eq_false_2 in Hi; [done|]. by intros ->. }
  destruct (nostop_here x u Hns) as [_ Hst]. rewrite Hst in Hh.
  exists item', s', (mk d n b' u' w). split_and!.
  - rewrite Hrun. unfold t. by rewrite lastnode_mk, match_tree by done.
  - apply (shrunk_pre x q s t s1 t1 item item).
    + apply shrunk_node; try done.
      * intros ->. specialize (Hi (or_introl eq_refl)). by rewrite bool_decide_eq_true_2 in Hi.
      * by replace (height (cut x u')) with (height u - 1) by lia.
    + apply frame_set_bal; [apply frame_refl|]. unfold t. rewrite elem_mk. by left.
    + done.
    + unfold t1, t. by rewrite !lastloc_mk by done.
    + unfold t1, t. by rewrite !lastnode_mk by done.
    + done.
  - destruct Hsh as (_&_&Hou&_). rewrite height_cut_mk; [|done|by apply (nonempty_same u)].
    f_equal. lia.
Qed.

(** A rotation brings [n] below [m], [u] staying its child. *)
Lemma pass_rotated x fuel s q item item1 d n b u w s1 m bm bn y z :
  let t := mk d n b u w in
  let t1 := mk d m bm (mk d n bn u y) z in
  passes x fuel u → nostop x u = true → larger x n = d → bst t → u ≠ E →
  ¬ within q t → (x ∈ inorder t → item = nodeloc x t q) →
  item1 = (if bool_decide (n = x) then Lnk m d else item) →
  rep s1 q t1 → frame q t s s1 → inorder t1 = inorder t → m ∈ inorder w →
  (∀ a, a ∈ inorder y → a ∈ inorder w) → (∀ a, a ∈ inorder z → a ∈ inorder w) →
  avl y → avl z → factor d bn (height u - 1) (height y) →
  factor d bm (S (max (height u - 1) (height y))) (height z) →
  ∃ item' s' t',
    remove_balance fuel x (Lnk n d) item1 d s1 = Some (item', larger x (lastnode x t), s') ∧
    shrunk x q s t item item' s' t' ∧
    height (cut x t') = S (max (S (max (height u - 1) (height y))) (height z)).
Proof.
  intros t t1 IH Hns Hd Hb Hu Hq Hi Hi1 Hr1 Hf Ho Hm Hy Hz Hay Haz Hfn Hfm.
  pose proof (bst_wf _ Hb) as Hw.
  assert (wf t1) as Hw1 by by apply (wf_inorder t).
  assert (¬ within q t1) as Hq1 by by apply (within_inorder q t).
  destruct (larger_other x d n b u w m Hb Hd Hm) as [Hdm Hmx].
  pose proof (not_other x d n b u w Hb Hd) as Hxw.
  set (N := mk d n bn u y) in *.
  pose proof Hr1 as HrN. unfold t1 in HrN. rewrite rep_mk in HrN. destruct HrN as (_&_&HrN&_).
  pose proof Hw1 as HwN. unfold t1 in HwN. rewrite wf_mk in HwN. destruct HwN as (HmN&_&_&HwN&_).
  pose proof HrN as Hru. unfold N in Hru. rewrite rep_mk in Hru. destruct Hru as (_&_&Hru&_).
  pose proof HwN as Hwu. unfold N in Hwu. rewrite wf_mk in Hwu. destruct Hwu as (Hnu&_&_&_&_).
  unfold t in Hi. rewrite nodeloc_mk, elem_mk in Hi by done.
  destruct (IH s1 (Lnk n d) item1 d Hru Hnu) as (item'&s'&u'&Hrun&Hsh&Hh).
  { intros Hx. specialize (Hi (or_intror (or_introl Hx))). rewrite Hi1.
    assert (n ≠ x) by (by intros ->). rewrite !bool_decide_eq_false_2 in * by done. done. }
  destruct (nostop_here x u Hns) as [_ Hst]. rewrite Hst in Hh.
  assert (u' ≠ E) as Hu' by (destruct Hsh as (_&_&Hou&_); by apply (nonempty_same u)).
  assert (height (cut x u') = height u - 1) as Hhu by lia.
  assert (shrunk x (Lnk m d) s1 N item1 item' s' (mk d n bn u' y)) as HshN.
  { apply shrunk_node; try done; [auto| |by rewrite Hhu].
    intros ->. by rewrite Hi1, bool_decide_eq_true_2. }
  assert (mk d n bn u' y ≠ E) as HNE by by destruct d.
  assert (N ≠ E) as HNE0 by by destruct d.
  exists item', s', (mk d m bm (mk d n bn u' y) z). split_and!.
  - rewrite Hrun. unfold t. by rewrite lastnode_mk, match_tree by done.
  - apply (shrunk_pre x q s t s1 t1 item item1); try done.
    + apply shrunk_node; try done; [auto|]. by rewrite height_cut_mk, Hhu by done.
    + unfold t1, t, N. by rewrite !lastloc_mk, !match_tree by (done || by destruct d).
    + unfold t1, t, N. by rewrite !lastnode_mk, !match_tree by (done || by destruct d).
    + intros Hx. rewrite Hi1, bool_decide_eq_false_2; [done|]. intros ->.
      apply Hx. unfold t. rewrite elem_mk. by left.
  - by rewrite !height_cut_mk, Hhu by done.
Qed.

(** The rotations at a node [n] whose other child [w] is higher. *)
Lemma pass_single x fuel s q item d n u m bm y z :
  let w := mk d m bm y z in
  let t := mk d n (Z.b2z (negb d)) u w in
  passes x fuel u → nostop x u = true → larger x n = d → bst t → avl t → u ≠ E →
  rep s q t → ¬ within q t → (x ∈ inorder t → item = nodeloc x t q) →
  bm ≠ Z.b2z d →
  ∃ s0 s1 item1 item' s' t',
    rotate q (negb d) s = Some (rootptr z, s0) ∧
    (if (bm =? 2)%Z then
       let s := set_bal n (Z.b2z (negb d)) s0 in
       t0 ← cell s q;
       Some (set_bal t0 (Z.b2z d) s)
     else Some s0) = Some s1 ∧
    (if bool_decide (n = x) then t0 ← cell s1 q; Some (Lnk t0 d) else Some item) = Some item1 ∧
    remove_balance fuel x (Lnk n d) item1 d s1 = Some (item', larger x (lastnode x t), s') ∧
    shrunk x q s t item item' s' t' ∧
    height (cut x t') + (if (bm =? 2)%Z then 0 else 1) = height t.
Proof.
  intros w t IH Hns Hd Hb Ha Hu Ht Hq Hi Hbm. pose proof (bst_wf _ Hb) as Hw.
  unfold t in Ha. rewrite avl_mk in Ha. destruct Ha as (Hau&Haw&Hf).
  apply factor_flip, factor_heavy in Hf. unfold w in Haw, Hf. rewrite avl_mk in Haw.
  destruct Haw as (Hay&Haz&Hfw). rewrite height_mk in Hf.
  assert (0 < height u) as Hhu by (destruct u; [done|simpl; lia]).
  assert (t = mk (negb d) n (Z.b2z (negb d)) (mk (negb d) m bm z y) u) as Hte.
  { unfold t, w. by rewrite !mk_flip. }
  destruct (rotate_spec s q (negb d) n (Z.b2z (negb d)) m bm z y u) as (s0&Hrot&Hr0&Hf0);
    [rewrite <-Hte; assumption|rewrite <-Hte; assumption|rewrite <-Hte; assumption|].
  rewrite <-Hte in Hf0. rewrite !mk_flip in Hr0.
  set (bn' := if (bm =? 2)%Z then Z.b2z (negb d) else 2%Z).
  set (bm' := if (bm =? 2)%Z then Z.b2z d else 2%Z).
  set (t1 := mk d m bm' (mk d n bn' u y) z).
  assert (∃ s1, (if (bm =? 2)%Z then
       let s := set_bal n (Z.b2z (negb d)) s0 in
       t0 ← cell s q;
       Some (set_bal t0 (Z.b2z d) s)
     else Some s0) = Some s1 ∧ rep s1 q t1 ∧ frame q t s s1) as (s1&Hs1&Hr1&Hf1).
  { unfold t1, bn', bm'. destruct (bm =? 2)%Z eqn:Hb2; [|by exists s0].
    pose proof (rep_root _ _ _ Hr0) as Hq0.
    replace (rootptr (mk d m 2 (mk d n 2 u y) z)) with (Some m) in Hq0 by (by destruct d).
    cbn zeta. rewrite cell_set_bal, Hq0. cbn [mbind option_bind]. eexists. split; [done|].
    assert (wf (mk d m 2 (mk d n 2 u y) z)) as Hw0.
    { apply (wf_inorder t); [|done]. unfold t, w. clear. same_order. }
    split.
    - apply (rep_set_bal _ q d m 2); [|apply (wf_inorder (mk d m 2 (mk d n 2 u y) z)); [clear; same_order|done]].
      pose proof Hr0 as Hr0'. rewrite rep_mk in Hr0'. destruct Hr0' as (_&_&HN&_).
      assert (frame (Lnk m d) (mk d n 2 u y) s0 (set_bal n (Z.b2z (negb d)) s0)) as HfN.
      { apply frame_set_bal; [apply frame_refl|]. rewrite elem_mk. by left. }
      apply (rep_child_update s0 _ q d m 2 (mk d n 2 u y)); try done.
      + apply (within_inorder _ t); [|done]. unfold t, w. clear. same_order.
      + apply (rep_set_bal _ (Lnk m d) d n 2); [done|]. rewrite wf_mk in Hw0. tauto.
    - do 2 (apply frame_set_bal; [|unfold t, w; rewrite !elem_mk; tauto]). done. }
  pose proof (rep_root _ _ _ Hr1) as Hroot.
  assert (rootptr t1 = Some m) as Hrm by by destruct d.
  destruct (pass_rotated x fuel s q item (if bool_decide (n = x) then Lnk m d else item)
              d n (Z.b2z (negb d)) u w s1 m bm' bn' y z) as (item'&s'&t'&Hrun&Hsh&Hh); try done.
  - unfold t1, t, w. clear. same_order.
  - unfold w. rewrite elem_mk. auto.
  - unfold w. intros a. rewrite elem_mk. auto.
  - unfold w. intros a. rewrite elem_mk. auto.
  - unfold factor, bn' in *. destruct (Z.eqb_spec bm 2) as [He|He]; clear -Hfw Hf Hhu Hbm He; destruct d; simpl in *; lia.
  - unfold factor, bm' in *. destruct (Z.eqb_spec bm 2) as [He|He]; clear -Hfw Hf Hhu Hbm He; destruct d; simpl in *; lia.
  - exists s0, s1. do 4 eexists. split_and!; try done.
    + case_bool_decide; [|done]. rewrite Hroot, Hrm. done.
    + rewrite Hh. unfold t, w. rewrite !height_mk.
      unfold factor in *. destruct (Z.eqb_spec bm 2) as [He|He]; clear -Hfw Hf Hhu Hbm He; destruct d; simpl in *; lia.
Qed.

Lemma pass_double x fuel s q item d n u m c bc y1 y2 z :
  let w := mk d m (Z.b2z d) (mk d c bc y1 y2) z in
  let t := mk d n (Z.b2z (negb d)) u w in
  passes x fuel u → nostop x u = true → larger x n = d → bst t → avl t → u ≠ E →
  rep s q t → ¬ within q t → (x ∈ inorder t → item = nodeloc x t q) →
  ∃ r s1 item1 item' s' t',
    rotate2 q (negb d) bc s = Some (r, s1) ∧
    (if bool_decide (n = x) then t0 ← cell s1 q; Some (Lnk t0 d) else Some item) = Some item1 ∧
    remove_balance fuel x (Lnk n d) item1 d s1 = Some (item', larger x (lastnode x t), s') ∧
    shrunk x q s t item item' s' t' ∧ height (cut x t') + 1 = height t.
Proof.
  intros w t IH Hns Hd Hb Ha Hu Ht Hq Hi. pose proof (bst_wf _ Hb) as Hw.
  unfold t in Ha. rewrite avl_mk in Ha. destruct Ha as (Hau&Haw&Hf).
  apply factor_flip, factor_heavy in Hf. unfold w in Haw, Hf. rewrite !avl_mk in Haw.
  destruct Haw as ((Hay1&Hay2&Hfc)&Haz&Hfw). apply factor_heavy in Hfw.
  rewrite !height_mk in Hf, Hfw.
  assert (0 < height u) as Hhu by (destruct u; [done|simpl; lia]).
  assert (t = mk (negb d) n (Z.b2z (negb d))
                (mk (negb d) m (Z.b2z d) z (mk (negb d) c bc y2 y1)) u) as Hte.
  { unfold t, w. by rewrite !mk_flip. }
  destruct (rotate2_spec s q (negb d) bc n (Z.b2z (negb d)) m (Z.b2z d) c bc z y2 y1 u)
    as (s1&Hrot&Hr1&Hf1);
    [rewrite <-Hte; assumption|rewrite <-Hte; assumption|rewrite <-Hte; assumption| |].
  { rewrite negb_involutive. clear -Hfc. unfold factor in Hfc. intuition auto. }
  rewrite <-Hte in Hf1. rewrite !mk_flip in Hr1.
  set (bn' := if (bc =? Z.b2z (negb d))%Z then Z.b2z (negb (negb d)) else 2%Z) in *.
  set (bm' := if (bc =? Z.b2z (negb (negb d)))%Z then Z.b2z (negb d) else 2%Z) in *.
  pose proof (rep_root _ _ _ Hr1) as Hroot.
  replace (rootptr (mk d c 2 (mk d n bn' u y1) (mk d m bm' y2 z))) with (Some c) in Hroot
    by by destruct d.
  assert (factor d bn' (height u - 1) (height y1) ∧ factor d bm' (height y2) (height z) ∧
          max (height y1) (height y2) = height u - 1 ∧ height z = height u - 1) as (Hfn&Hfm&Hmx&Hhz).
  { unfold factor, bn', bm' in *.
    destruct (Z.eqb_spec bc (Z.b2z (negb d))) as [He|He];
      destruct (Z.eqb_spec bc (Z.b2z (negb (negb d)))) as [He'|He'];
      clear -Hfc Hf Hfw Hhu He He'; destruct d; simpl in *; lia. }
  destruct (pass_rotated x fuel s q item (if bool_decide (n = x) then Lnk c d else item)
              d n (Z.b2z (negb d)) u w s1 c 2 bn' y1 (mk d m bm' y2 z))
    as (item'&s'&t'&Hrun&Hsh&Hh); try done.
  - unfold t, w. clear. same_order.
  - unfold w. rewrite !elem_mk. auto.
  - unfold w. intros a. rewrite !elem_mk. auto.
  - unfold w. intros a. rewrite !elem_mk. tauto.
  - by rewrite avl_mk.
  - rewrite height_mk. left. split; [done|]. lia.
  - do 2 eexists. exists (if bool_decide (n = x) then Lnk c d else item).
    exists item', s', t'. split_and!; try done.
    + case_bool_decide; [|done]. by rewrite Hroot.
    + rewrite Hh. unfold t, w. rewrite !height_mk. lia.
Qed.

Lemma remove_balance_spec x t : ∀ fuel,
  t ≠ E → bst t → avl t → nostop_below x t = true → height t < fuel → passes x fuel t.
Proof.
  induction t as [|d n b u w Hd IH] using (path_ind x); intros [|fuel] HtE Hb Ha Hns Hfuel;
    try done; [lia|].
  intros s q item d0 Ht Hq Hi.
  rewrite nostop_below_mk in Hns by done. rewrite stops_here_mk by done.
  pose proof Ht as Ht'. rewrite rep_mk in Ht'. destruct Ht' as (Hn&Hbn&Hru&Hrw).
  pose proof Ha as Ha'. rewrite avl_mk in Ha'. destruct Ha' as (Hau&Haw&Hf).
  pose proof Hb as Hb'. rewrite bst_mk in Hb'. destruct Hb' as (_&_&Hbu&Hbw).
  simpl. rewrite Hn, Hd, (rep_root _ _ _ Hru).
  assert (u = E ∨ u ≠ E) as [->|HuE] by (destruct u; auto).
  { simpl rootptr. exists item, s, (mk d n b E w). rewrite lastnode_mk, Hd by done.
    split; [done|]. split; [|rewrite cut_mk, height_mk by done; simpl; lia].
    unfold shrunk. rewrite avlx_mk by done. split_and!; done || apply frame_refl. }
  assert (∃ k, rootptr u = Some k) as (k&->) by (destruct u; [done|eauto]).
  rewrite height_mk in Hfuel.
  assert (passes x fuel u) as IHu by (apply IH; try done; [apply (nostop_here x u Hns)|lia]).
  assert (0 < height u) as Hhu by (destruct u; [done|simpl; lia]).
  unfold balanced. rewrite Hbn. clear Hbn.
  destruct (b =? 2)%Z eqn:Hb2; [|destruct (b =? Z.b2z d)%Z eqn:Hbd].
  - apply Z.eqb_eq in Hb2.
    destruct (pass_adjust x fuel s q item d n b (Z.b2z (negb d)) u w) as (item'&s'&t'&Hrun&Hsh&Hh);
      try done.
    { clear -Hb2 Hf Hhu. unfold factor in *. destruct d; simpl in *; lia. }
    exists item', s', t'. split_and!; try done. rewrite Hh, height_mk. unfold stops.
    rewrite match_tree by done. rewrite Hb2. simpl.
    clear -Hb2 Hf Hhu. unfold factor in *. destruct d; simpl in *; lia.
  - apply Z.eqb_eq in Hbd.
    destruct (pass_adjust x fuel s q item d n b 2 u w) as (item'&s'&t'&Hrun&Hsh&Hh); try done.
    { clear -Hbd Hf Hhu. unfold factor in *. destruct d; simpl in *; lia. }
    exists item', s', t'. split_and!; try done. rewrite Hh, height_mk. unfold stops.
    rewrite match_tree by done. rewrite Hb2. subst b.
    replace (Z.b2z d =? Z.b2z (negb d))%Z with false by (by destruct d). simpl.
    clear -Hf Hhu. unfold factor in *. destruct d; simpl in *; lia.
  - apply Z.eqb_neq in Hb2.
    destruct (factor_light d b (height u) (height w) Hf Hb2 Hbd) as [Hhw Hbe]. subst b.
    destruct (tree_mk d w) as (m&bm&y&z&->); [intros ->; simpl in *; lia|].
    rewrite rep_mk in Hrw. destruct Hrw as (Hm&Hbm&Hry&Hrz). rewrite Hm.
    cbn [mbind option_bind]. rewrite Hbm.
    unfold stops. rewrite match_tree by done. rewrite Z.eqb_refl.
    rewrite (proj2 (Z.eqb_neq (Z.b2z (negb d)) 2)) by done. cbn [orb andb].
    replace (match mk d m bm y z with E => false | T _ _ bw _ => (bw =? 2)%Z end)
      with (bm =? 2)%Z by by destruct d.
    clear Hbm. destruct (bm =? Z.b2z d)%Z eqn:Hbmd.
    + apply Z.eqb_eq in Hbmd. subst bm.
      rewrite !avl_mk in Haw. destruct Haw as (_&_&Hfw). apply factor_heavy in Hfw.
      destruct (tree_mk d y) as (c&bc&y1&y2&->); [intros ->; simpl in *; lia|].
      rewrite rep_mk in Hry. destruct Hry as (Hc&Hbc&_&_). rewrite Hc. cbn [mbind option_bind].
      rewrite Hbc. clear Hbc.
      destruct (pass_double x fuel s q item d n u m c bc y1 y2 z)
        as (r&s1&item1&item'&s'&t'&Hrot&Hit&Hrun&Hsh&Hh); try done.
      rewrite Hrot. cbn [mbind option_bind]. rewrite Hit. cbn [mbind option_bind].
      exists item', s', t'. split_and!; try done.
      by replace (Z.b2z d =? 2)%Z with false by by destruct d.
    + apply Z.eqb_neq in Hbmd.
      destruct (pass_single x fuel s q item d n u m bm y z)
        as (s0&s1&item1&item'&s'&t'&Hrot&Hs1&Hit&Hrun&Hsh&Hh); try done.
      rewrite Hrot. cbn [mbind option_bind]. cbn zeta in Hs1.
      rewrite cell_set_bal in Hs1. rewrite Hs1.
      cbn [mbind option_bind]. rewrite Hit. cbn [mbind option_bind].
      by exists item', s', t'.
Qed.

(** Heights above the last stopping node do not change. *)
Lemma nostop_shrinkp x t : nostop x t = true → ∀ q p, shrinkp x t q p = p.
Proof.
  induction t as [|d n b u w Hd IH] using (path_ind x); [done|]. rewrite nostop_mk by done.
  intros [Hs%negb_true_iff Hu]%andb_true_iff q p. rewrite shrinkp_mk, Hs by done. by apply IH.
Qed.

Lemma remove_balance_stops x t : ∀ fuel s q p item d0,
  nostop x t = false → bst t → avl t → height t < fuel → rep s q t → ¬ within q t →
  (x ∈ inorder t → item = nodeloc x t q) →
  ∃ item' s' t', remove_balance fuel x (shrinkp x t q p) item d0 s
                   = Some (item', larger x (lastnode x t), s') ∧
    shrunk x q s t item item' s' t' ∧ height (cut x t') = height t.
Proof.
  induction t as [|d n b u w Hd IH] using (path_ind x); [done|].
  intros fuel s q p item d0 Hns Hb Ha Hfuel Ht Hq Hi. rewrite shrinkp_mk by done.
  rewrite nostop_mk in Hns by done. destruct (nostop x u) eqn:Hnu.
  - rewrite nostop_shrinkp by done. rewrite andb_true_r in Hns.
    apply negb_false_iff in Hns. rewrite Hns.
    destruct (remove_balance_spec x (mk d n b u w) fuel) with (s := s) (q := q) (item := item)
      (d0 := d0) as (item'&s'&t'&Hrun&Hsh&Hh); try done; [by destruct d|by rewrite nostop_below_mk|].
    rewrite stops_here_mk, Hns in Hh by done. exists item', s', t'. split_and!; try done. lia.
  - pose proof (bst_wf _ Hb) as Hw. pose proof (not_other x d n b u w Hb Hd) as Hxw.
    pose proof Ht as Hu. rewrite rep_mk in Hu. destruct Hu as (_&_&Hu&_).
    pose proof Hw as Hw'. rewrite wf_mk in Hw'. destruct Hw' as (Hnn&_).
    pose proof Hb as Hb'. rewrite bst_mk in Hb'. destruct Hb' as (_&_&Hbu&_).
    rewrite avl_mk in Ha. destruct Ha as (Hau&Haw&Hf). rewrite height_mk in Hfuel.
    rewrite nodeloc_mk, elem_mk in Hi by done.
    assert (u ≠ E) as HuE by by intros ->.
    destruct (IH fuel s (Lnk n d) (if stops d b u w then q else p) item d0)
      as (item'&s'&u'&Hrun&Hsh&Hh); try done; [lia| |].
    { intros Hx. assert (n ≠ x) by (by intros ->). rewrite bool_decide_eq_false_2 in Hi by done.
      auto. }
    exists item', s', (mk d n b u' w). split_and!.
    + rewrite Hrun. by rewrite lastnode_mk, match_tree by done.
    + apply shrunk_node; try done; [|by rewrite Hh]. intros ->.
      rewrite bool_decide_eq_true_2 in Hi by done. auto.
    + destruct Hsh as (_&_&Ho&_). rewrite height_cut_mk, Hh, height_mk; [done..|].
      by apply (nonempty_same u).
Qed.

(** ** Taking the last node out *)

Lemma lastnode_in x t : t ≠ E → lastnode x t ∈ inorder t.
Proof.
  induction t as [|d n b u w Hd IH] using (path_ind x); [done|]. intros _.
  rewrite lastnode_mk, elem_mk by done. destruct u; [by left|]. right; left. by apply IH.
Qed.

Lemma lastloc_in x t : ∀ q, lastloc x t q = q ∨ within (lastloc x t q) t.
Proof.
  induction t as [|d n b u w Hd IH] using (path_ind x); intros q; [by left|].
  rewrite lastloc_mk by done. destruct u as [|l m c r]; [by left|].
  destruct (IH (Lnk n d)) as [->|Hin].
  - right. simpl. rewrite elem_mk. by left.
  - right. destruct (lastloc _ _ _) as [|a d']; [done|]. unfold within in *. rewrite elem_mk. tauto.
Qed.

Lemma lastloc_root x s t : ∀ q, t ≠ E → rep s q t → cell s (lastloc x t q) = Some (lastnode x t).
Proof.
  induction t as [|d n b u w Hd IH] using (path_ind x); intros q HE; [done|].
  rewrite rep_mk, lastloc_mk, lastnode_mk by done. intros (Hn&_&Hu&_).
  destruct u; [done|]. by apply IH.
Qed.

Lemma cut_spec x t : ∀ q s s',
  t ≠ E → rep s q t → wf t → ¬ within q t →
  let L := lastnode x t in
  cell s' (lastloc x t q) = cell s (Lnk L (negb (larger x L))) →
  (∀ l, l ≠ lastloc x t q → (∀ d, l ≠ Lnk L d) → cell s' l = cell s l) →
  (∀ a, a ≠ L → bal s' a = bal s a) →
  rep s' q (cut x t).
Proof.
  induction t as [|d n b u w Hd IH] using (path_ind x); intros q s s' HE; [done|].
  rewrite rep_mk, wf_mk, lastloc_mk, lastnode_mk, cut_mk by done.
  intros (Hn&Hb&Hu&Hww) (Hnu&Hnw&Hdis&Hwu&Hwww) Hq.
  assert (∀ a d', a ∈ n :: inorder u ++ inorder w → q ≠ Lnk a d') as Hqa.
  { intros a d' Ha. apply (outside_node q (mk d n b u w)); [done|].
    rewrite elem_mk. by rewrite elem_of_cons, elem_of_app in Ha. }
  setoid_rewrite elem_of_cons in Hqa. setoid_rewrite elem_of_app in Hqa.
  assert (u = E ∨ u ≠ E) as [->|HuE] by (destruct u; auto).
  - cbn zeta. rewrite Hd. intros Hlast Hc Hbal. apply (rep_moved s s' (Lnk n (negb d)) q w Hww Hlast).
    intros a Ha. assert (a ≠ n) by (intros ->; tauto). split; [|by apply Hbal].
    intros d'. apply Hc; [|by intros d'' [=]]. intros He. apply (Hqa a d'); auto.
  - rewrite !match_tree by done. cbn zeta. intros Hlast Hc Hbal.
    set (L := lastnode x u) in *. assert (L ∈ inorder u) as HL by by apply lastnode_in.
    assert (∀ l, l ≠ Lnk n d → ¬ within l u → l ≠ lastloc x u (Lnk n d)) as Hne.
    { intros l Hl Hnin ->. by destruct (lastloc_in x u (Lnk n d)). }
    rewrite rep_mk. split_and!.
    + rewrite Hc; [done| |intros d'; apply Hqa; auto].
      apply Hne; [apply Hqa; auto|]. destruct q as [|a d']; [by intros []|].
      intros Hin. by apply (Hqa a d'); auto.
    + rewrite Hbal; [done|]. by intros ->.
    + by apply (IH (Lnk n d) s s').
    + assert (∀ a d', a ∉ inorder u → Lnk a d' ≠ Lnk n d → cell s' (Lnk a d') = cell s (Lnk a d'))
        as Hkeep.
      { intros a d' Ha Hneq. apply Hc; [by apply Hne|]. intros d'' [= -> _]. done. }
      apply (rep_moved s s' _ _ w Hww).
      * apply Hkeep; [done|]. intros [=]. by destruct d.
      * intros a Ha. assert (a ∉ inorder u) as Hau by (intros Ha'; exact (Hdis a Ha' Ha)).
        split; [|apply Hbal; by intros ->]. intros d'. apply Hkeep; [done|]. by intros [= -> _].
Qed.

Lemma cut_inorder x t :
  t ≠ E → ∃ l1 l2, inorder t = l1 ++ lastnode x t :: l2 ∧ inorder (cut x t) = l1 ++ l2.
Proof.
  induction t as [|d n b u w Hd IH] using (path_ind x); [done|]. intros _.
  rewrite lastnode_mk, cut_mk by done.
  assert (u = E ∨ u ≠ E) as [->|HuE] by (destruct u; auto).
  - destruct d; simpl.
    + exists (inorder w), []. by rewrite app_nil_r.
    + by exists [], (inorder w).
  - rewrite !match_tree by done. destruct (IH HuE) as (l1&l2&Hu&Hc). destruct d; simpl.
    + exists (inorder w ++ n :: l1), l2. rewrite Hu, Hc. by rewrite <-!app_assoc.
    + exists l1, (l2 ++ n :: inorder w). rewrite Hu, Hc. by rewrite <-!app_assoc.
Qed.

(** The last node of a tree that lies before [x] is its greatest node. *)
Lemma cut_max x t :
  t ≠ E → (∀ a, a ∈ inorder t → larger x a = true) →
  inorder t = inorder (cut x t) ++ [lastnode x t].
Proof.
  induction t as [|d n b u w Hd IH] using (path_ind x); [done|]. intros _ Hall.
  assert (d = true) as -> by (rewrite <-Hd; apply Hall; rewrite elem_mk; by left).
  rewrite lastnode_mk, cut_mk by done.
  assert (u = E ∨ u ≠ E) as [->|HuE] by (destruct u; auto); [done|].
  rewrite !match_tree by done. simpl. rewrite IH at 1; [|done|].
  - by rewrite <-app_assoc.
  - intros a Ha. apply Hall. rewrite elem_mk. auto.
Qed.

(** ** The last node takes the place of the removed one *)

(** The end of [Avl::remove]. *)
Definition take_place (s : astore) (tree item : loc) (d : bool) (n node : obj) : astore :=
  let s := put item (Some n) s in
  let s := put tree (cell s (Lnk n (negb d))) s in
  let s := put (Lnk n false) (cell s (Lnk node false)) s in
  let s := put (Lnk n true) (cell s (Lnk node true)) s in
  set_bal n (bal s node) s.

Definition replaced (x : obj) (q : loc) (s s' : astore) (t t' : tree) : Prop :=
  rep s' q t' ∧ frame q t s s' ∧ (avlx x t → avl t') ∧ height t' = height (cut x t) ∧
  ∃ l1 l2, inorder t = l1 ++ x :: l2 ∧ inorder t' = l1 ++ l2.

Lemma nodeloc_last x t : bst t → ∀ q, t ≠ E → lastnode x t = x → nodeloc x t q = lastloc x t q.
Proof.
  induction t as [|d n b u w Hd IH] using (path_ind x); intros Hb q HE; [done|].
  pose proof (bst_wf _ Hb) as Hw. rewrite wf_mk in Hw. rewrite bst_mk in Hb.
  rewrite lastnode_mk, nodeloc_mk, lastloc_mk by done.
  assert (u = E ∨ u ≠ E) as [->|HuE] by (destruct u; auto).
  - intros ->. by rewrite bool_decide_eq_true_2.
  - rewrite !match_tree by done. intros HL. pose proof (lastnode_in x u HuE) as Hin.
    rewrite HL in Hin. rewrite bool_decide_eq_false_2; [apply IH; tauto|]. intros ->. tauto.
Qed.

Lemma lastloc_not_last x t : ∀ q d', t ≠ E → wf t → ¬ within q t →
  lastloc x t q ≠ Lnk (lastnode x t) d'.
Proof.
  induction t as [|d n b u w Hd IH] using (path_ind x); intros q d' HE; [done|].
  rewrite wf_mk, lastloc_mk, lastnode_mk by done. intros Hw Hq.
  assert (u = E ∨ u ≠ E) as [->|HuE] by (destruct u; auto).
  - apply (outside_node _ _ _ _ Hq). rewrite elem_mk. by left.
  - rewrite !match_tree by done. by apply IH; [done|tauto|simpl; tauto].
Qed.

Lemma frame_take_place q t s tree item d n x :
  (tree = q ∨ within tree t) → (item = q ∨ within item t) → n ∈ inorder t →
  frame q t s (take_place s tree item d n x).
Proof.
  intros Ht Hi Hn. unfold take_place. apply frame_set_bal; [|done].
  do 2 (apply frame_put; [|by right]). apply frame_put; [|done]. apply frame_put; [|done].
  apply frame_refl.
Qed.

Lemma take_place_last x q s t :
  bst t → t ≠ E → rep s q t → ¬ within q t → lastnode x t = x →
  replaced x q s (take_place s (lastloc x t q) (nodeloc x t q) (larger x x) x x) t (cut x t).
Proof.
  intros Hb HE Ht Hq HL. pose proof (bst_wf _ Hb) as Hw.
  rewrite nodeloc_last by done. pose proof (lastloc_root x s t q HE Ht) as Hlr.
  pose proof (lastnode_in x t HE) as Hin. rewrite HL in Hlr, Hin.
  set (p := lastloc x t q) in *. unfold replaced.
  assert (∀ d, p ≠ Lnk x d) as Hpx.
  { intros d. pose proof (lastloc_not_last x t q d HE Hw Hq) as Hp. by rewrite HL in Hp. }
  pose proof (Hpx true) as H1. pose proof (Hpx false) as H2.
  split_and!.
  - apply (cut_spec x t q s); try done; rewrite HL; fold p; unfold take_place.
    + by destruct (larger x x); cbn [negb]; look.
    + intros l Hl Hlx. pose proof (Hlx true). pose proof (Hlx false). by look.
    + intros a Ha. by look.
  - apply frame_take_place; [apply lastloc_in|apply lastloc_in|done].
  - apply avl_cut.
  - done.
  - destruct (cut_inorder x t HE) as (l1&l2&Ho&Hc). rewrite HL in Ho. by exists l1, l2.
Qed.

Lemma within_sub p d n b u w : within p u → within p (mk d n b u w).
Proof. destruct p; [done|]. simpl. rewrite elem_mk. auto. Qed.

(** The node [x] has a left child, whose greatest node takes its place. *)
Lemma take_place_below x q s b v w :
  let t := mk false x b v w in
  let L := lastnode x v in
  bst t → v ≠ E → rep s q t → ¬ within q t →
  replaced x q s (take_place s (lastloc x v (Lnk x false)) q (larger x L) L x) t
           (mk false L b (cut x v) w).
Proof.
  intros t L Hb Hv Ht Hq. pose proof (bst_wf _ Hb) as Hw.
  assert (larger x x = false) as Hxx by (rewrite larger_rank; apply bool_decide_eq_false; lia).
  pose proof (lastnode_in x v Hv) as HL. fold L in HL.
  assert (∀ a d, a ∈ inorder t → q ≠ Lnk a d) as Hqa by (intros; by eapply outside_node).
  unfold t in *. rewrite rep_mk in Ht. destruct Ht as (Hn&Hbn&Hv'&Hww).
  rewrite wf_mk in Hw. destruct Hw as (Hxv&Hxw&Hdis&Hwv&_).
  assert (∀ a, a ∈ inorder v → larger x a = true) as Hmax.
  { intros a Ha. rewrite bst_mk in Hb. destruct Hb as (Hb&_). destruct (Hb a Ha) as [Hr Hne].
    rewrite larger_rank. apply bool_decide_eq_true. apply bool_decide_eq_false in Hr. lia. }
  rewrite (Hmax L HL).
  assert (x ≠ L) as HxL by (intros He; apply Hxv; by rewrite He).
  set (p := lastloc x v (Lnk x false)) in *.
  assert (p = Lnk x false ∨ within p v) as Hp by apply lastloc_in.
  assert (∀ d, p ≠ Lnk L d) as HpL by (intros d; by apply lastloc_not_last).
  setoid_rewrite elem_mk in Hqa.
  assert (∀ d, q ≠ Lnk L d) as HqL by (intros d; apply Hqa; auto).
  assert (∀ d, q ≠ Lnk x d) as Hqx by (intros d; apply Hqa; auto).
  assert (q ≠ p) as Hqp.
  { intros ->. destruct Hp as [Hp|Hp]; [by apply (Hqx false)|]. by apply Hq, within_sub. }
  assert (p ≠ Lnk x true) as Hpx.
  { destruct Hp as [->|Hp]; [done|]. intros ->. by apply Hxv. }
  (* the left subtree after the first two assignments *)
  set (s1 := put q (Some L) s). set (s2 := put p (cell s1 (Lnk L false)) s1).
  assert (rep s1 (Lnk x false) v) as Hv1.
  { apply (rep_moved s s1 _ _ v Hv'); unfold s1; [by look|]. intros a Ha.
    split; [|done]. intros d. pose proof (Hqa a d ltac:(auto)). by look. }
  assert (rep s2 (Lnk x false) (cut x v)) as Hcut.
  { apply (cut_spec x v (Lnk x false) s1); try done; fold L; fold p; unfold s2.
    - rewrite (Hmax L HL). cbn [negb]. by look.
    - intros l Hl HlL. by look. }
  assert (L ∉ inorder (cut x v)) as HLc.
  { pose proof (cut_max x v Hv Hmax) as Ho. fold L in Ho. rewrite wf_NoDup, Ho in Hwv.
    apply list.NoDup_app in Hwv as (_&Hd&_). intros Hin. apply (Hd L Hin). by left. }
  assert (∀ a, a ∈ inorder (cut x v) → a ∈ inorder v) as Hsub.
  { intros a Ha. rewrite (cut_max x v Hv Hmax). apply elem_of_app. by left. }
  unfold replaced, take_place. fold s1. fold s2. split_and!.
  - rewrite rep_mk. split_and!.
    + unfold s2, s1. by look.
    + unfold s2, s1. look. done.
    + apply (rep_moved s2 _ (Lnk x false) _ _ Hcut); [by look|]. intros a Ha.
      assert (a ≠ L) by (intros He; apply HLc; by rewrite <-He). split; [intros d|]; by look.
    + apply (rep_moved s _ (Lnk x true) _ _ Hww); cbn [negb].
      * unfold s2, s1. by look.
      * intros a Ha. assert (a ≠ L) by (intros He; apply (Hdis L HL); by rewrite <-He).
        assert (a ≠ x) by (by intros ->).
        assert (∀ d, p ≠ Lnk a d) as Hpa.
        { intros d ->. destruct Hp as [[=]|Hp]; [done|]. exact (Hdis a Hp Ha). }
        pose proof (λ d, Hqa a d ltac:(auto)).
        split; [intros d|]; unfold s2, s1; by look.
  - apply frame_take_place; [right|by left|rewrite elem_mk; auto].
    destruct Hp as [->|Hp]; [apply (elem_mk false); by left|].
    by apply within_sub.
  - rewrite avlx_mk, match_tree, avl_mk by done. intros (Hav&Haw&Hf).
    split_and!; [by apply avl_cut|done|done].
  - by rewrite height_cut_mk, height_mk.
  - exists (inorder v), (inorder w). split; [done|]. simpl. rewrite (cut_max x v Hv Hmax). fold L.
    by rewrite <-app_assoc.
Qed.

Lemma take_place_spec x t : ∀ q s,
  bst t → t ≠ E → rep s q t → ¬ within q t → x ∈ inorder t →
  let L := lastnode x t in
  ∃ t', replaced x q s (take_place s (lastloc x t q) (nodeloc x t q) (larger x L) L x) t t'.
Proof.
  induction t as [|d n b u w Hd IH] using (path_ind x); intros q s Hb HE Ht Hq Hin L; [done|].
  destruct (decide (L = x)) as [HLx|HLx].
  { exists (cut x (mk d n b u w)). rewrite HLx. by apply take_place_last. }
  pose proof (bst_wf _ Hb) as Hw. pose proof (not_other x d n b u w Hb Hd) as Hxw.
  unfold L in *. rewrite lastnode_mk in * by done. rewrite lastloc_mk, nodeloc_mk by done.
  rewrite elem_mk in Hin.
  assert (u = E ∨ u ≠ E) as [->|HuE] by (destruct u; auto).
  { exfalso. destruct Hin as [->|[[]%not_elem_of_nil|]]; done. }
  rewrite !match_tree in * by done.
  destruct (decide (n = x)) as [->|Hnx].
  - rewrite bool_decide_eq_true_2 by done.
    assert (d = false) as -> by (rewrite <-Hd, larger_rank; apply bool_decide_eq_false; lia).
    eexists. by apply take_place_below.
  - rewrite bool_decide_eq_false_2 by done.
    pose proof Ht as Hu. rewrite rep_mk in Hu. destruct Hu as (_&_&Hu&_).
    pose proof Hw as Hw'. rewrite wf_mk in Hw'. destruct Hw' as (Hnu&_).
    pose proof Hb as Hb'. rewrite bst_mk in Hb'. destruct Hb' as (_&_&Hbu&_).
    assert (x ∈ inorder u) as Hxu by (destruct Hin as [->|[|]]; done).
    destruct (IH (Lnk n d) s Hbu HuE Hu Hnu Hxu) as (u'&Hr&Hf&Ha&Hh&l1&l2&Ho&Ho').
    destruct (rep_child_update _ _ q d n b u u' w Hw Hq Ht Hf Hr) as [Hr' Hf'].
    exists (mk d n b u' w). split_and!; try done.
    + rewrite avlx_mk, match_tree, avl_mk by done. intros (Hau&Haw&Hfac).
      rewrite Hh. split_and!; auto.
    + by rewrite height_cut_mk, height_mk, Hh.
    + destruct d; simpl; rewrite Ho, Ho'.
      * exists (inorder w ++ n :: l1), l2. by rewrite <-!app_assoc.
      * exists l1, (l2 ++ n :: inorder w). by rewrite <-!app_assoc.
Qed.

(** ** Removal *)

Lemma itemp_none x t : met x t = false → ∀ q item, itemp x t q item = item.
Proof.
  induction t as [|d n b u w Hd IH] using (path_ind x); [done|]. rewrite met_mk by done.
  intros [Hn Hu]%orb_false_iff q item. rewrite itemp_mk, Hn by done. by apply IH.
Qed.

Lemma itemp_found x t :
  bst t → (∀ a, a ∈ inorder t → equal x a = true → x = a) → ∀ q item,
  (x ∈ inorder t → itemp x t q item = Some (nodeloc x t q)) ∧
  (x ∉ inorder t → itemp x t q item = item).
Proof.
  induction t as [|d n b u w Hd IH] using (path_ind x).
  { intros _ _ q item. split; [by intros ?%not_elem_of_nil|done]. }
  intros Hb Hs q item. pose proof (not_other x d n b u w Hb Hd) as Hxw.
  pose proof (bst_wf _ Hb) as Hw. rewrite wf_mk in Hw.
  rewrite bst_mk in Hb. setoid_rewrite elem_mk in Hs.
  rewrite itemp_mk, nodeloc_mk, elem_mk by done.
  destruct (IH ltac:(tauto) ltac:(auto) (Lnk n d) (if equal x n then Some q else item))
    as [Hin Hout].
  case_bool_decide as Hn.
  - subst n. rewrite equal_rank in * by done. rewrite Hout by tauto. split; [done|]. tauto.
  - assert (equal x n = false) as Hne.
    { apply not_true_iff_false. intros He. apply Hn. symmetry. auto. }
    rewrite Hne in *. split; [|tauto]. intros [->|[Hx|Hx]]; [done|auto|done].
Qed.

Lemma remove_run fuel s q t x :
  bst t → avl t → rep s q t → ¬ within q t → height t < fuel →
  (∀ a, a ∈ inorder t → equal x a = true → x = a) → x ∈ inorder t →
  ∃ s' t', remove fuel q x s = Some (true, s') ∧ rep s' q t' ∧ avl t' ∧ frame q t s s' ∧
           ∃ l1 l2, inorder t = l1 ++ x :: l2 ∧ inorder t' = l1 ++ l2.
Proof.
  intros Hb Ha Ht Hq Hfuel Hs Hx.
  assert (t ≠ E) as HE by (intros ->; by apply not_elem_of_nil in Hx).
  unfold remove.
  destruct (remove_search_spec x s t fuel q q None false Ht Ha Hfuel) as (d'&->).
  cbn [mbind option_bind].
  destruct (itemp_found x t Hb Hs q None) as [Hit _]. rewrite Hit by done.
  assert (∃ item' s1 t1, remove_balance fuel x (shrinkp x t q q) (nodeloc x t q) d' s
            = Some (item', larger x (lastnode x t), s1) ∧
          shrunk x q s t (nodeloc x t q) item' s1 t1)
    as (item'&s1&t1&Hrun&Hr1&Hf1&Ho1&Hax&Hll&Hln&Hi&_).
  { destruct (nostop x t) eqn:Hns.
    - rewrite nostop_shrinkp by done. destruct (nostop_here x t Hns) as [Hnb _].
      destruct (remove_balance_spec x t fuel HE Hb Ha Hnb Hfuel s q (nodeloc x t q) d')
        as (item'&s1&t1&Hrun&Hsh&_); try done. by exists item', s1, t1.
    - destruct (remove_balance_stops x t fuel s q q (nodeloc x t q) d')
        as (item'&s1&t1&Hrun&Hsh&_); try done. by exists item', s1, t1. }
  rewrite Hrun. cbn [mbind option_bind].
  assert (bst t1) as Hb1 by (rewrite bst_inorder, Ho1; by apply bst_inorder).
  pose proof (nonempty_same t t1 Ho1 HE) as HE1.
  assert (¬ within q t1) as Hq1 by by apply (within_inorder q t).
  rewrite <-Ho1 in Hx, Hi. rewrite <-Hll, (lastloc_root x s1 t1 q HE1 Hr1).
  cbn [mbind option_bind]. rewrite Hi by done. rewrite <-Hln.
  destruct (take_place_spec x t1 q s1 Hb1 HE1 Hr1 Hq1 Hx) as (t2&Hr2&Hf2&Ha2&_&l1&l2&Ho&Ho2).
  eexists. exists t2. split; [reflexivity|]. split; [exact Hr2|]. split; [by apply Ha2|].
  split; [|exists l1, l2; by rewrite <-Ho1].
  apply (frame_trans _ _ _ s1); [done|]. apply (frame_same_elems q t1); [done|].
  intros a. by rewrite Ho1.
Qed.

Lemma remove_missing fuel s q t x :
  avl t → rep s q t → height t < fuel → met x t = false → remove fuel q x s = Some (false, s).
Proof.
  intros Ha Ht Hfuel Hm. unfold remove.
  destruct (remove_search_spec x s t fuel q q None false Ht Ha Hfuel) as (d'&->).
  cbn [mbind option_bind]. by rewrite itemp_none.
Qed.

Lemma below_middle l1 x l2 :
  StronglySorted below (l1 ++ x :: l2) → StronglySorted below (l1 ++ l2).
Proof.
  rewrite !StronglySorted_app, StronglySorted_cons. intros (Hc&?&?&?).
  split_and!; try done. intros a b Hain Hb. apply Hc; [done|by right].
Qed.

Lemma remove_holds fuel s q l x :
  holds s q l → separated l → depth (length l) < fuel →
  (existsb (equal x) l = false → remove fuel q x s = Some (false, s)) ∧
  (x ∈ l → ∃ s' l1 l2, remove fuel q x s = Some (true, s') ∧ l = l1 ++ x :: l2 ∧
                       holds s' q (l1 ++ l2) ∧ elsewhere q l s s').
Proof.
  intros (t&Hr&Hb&Ha&<-&Hq) Hs Hfuel.
  assert (height t < fuel) as Hh by (pose proof (avl_depth t Ha); lia). split.
  - rewrite <-met_spec by done. by apply remove_missing.
  - intros Hx.
    destruct (remove_run fuel s q t x) as (s'&t'&Hrun&Hr'&Ha'&Hf&l1&l2&Ho&Ho'); try done.
    { intros a Hain. by apply Hs. }
    exists s', l1, l2. split_and!; [done|done| |by apply (frame_elsewhere q t)].
    exists t'. split_and!; try done.
    + rewrite bst_inorder, Ho'. apply (below_middle _ x). rewrite <-Ho. by apply bst_inorder.
    + destruct q as [|a d]; [by intros []|]. simpl in *. rewrite Ho'. intros Hin. apply Hq.
      rewrite Ho. rewrite elem_of_app, elem_of_cons in *. tauto.
Qed.

Lemma separated_insert l1 l2 x :
  separated (l1 ++ l2) → existsb (equal x) (l1 ++ l2) = false → separated (l1 ++ x :: l2).
Proof.
  intros Hs Hx a b. rewrite <-not_true_iff_false, existsb_exists in Hx.
  assert (∀ c, c ∈ l1 ++ l2 → equal x c = true → False) as Hno.
  { intros c Hc He. apply Hx. exists c. by rewrite <-list_elem_of_In. }
  assert (∀ c, c ∈ l1 ++ x :: l2 ↔ c = x ∨ c ∈ l1 ++ l2) as Hin.
  { intros c. rewrite !elem_of_app, elem_of_cons. tauto. }
  intros [->|Ha]%Hin [->|Hb]%Hin He; [done|by destruct (Hno b)| |by apply Hs].
  rewrite equal_sym in He. by destruct (Hno a).
Qed.

(** C2: In a balanced search tree of pairwise unequal nodes, inserting a fresh
    node that equals none of them succeeds within a number of steps
    logarithmic in the size of the tree; the tree is then again a balanced
    search tree, of the same nodes in the same order with the new one at its
    place.  Removing that node succeeds too and gives back a balanced search
    tree of the original sequence.  Nothing outside the tree and the node is
    written. *)
Theorem avl_insert_remove fuel s q l x :
  holds s q l → separated l → fresh_node s x → x ∉ l → (∀ d, q ≠ Lnk x d) →
  existsb (equal x) l = false → (depth (S (length l)) < fuel)%nat →
  ∃ s1 s2 l1 l2,
    insert fuel q x s = Some (true, s1) ∧ l = l1 ++ l2 ∧ holds s1 q (l1 ++ x :: l2) ∧
    elsewhere q (x :: l) s s1 ∧
    remove fuel q x s1 = Some (true, s2) ∧ holds s2 q l ∧ elsewhere q (x :: l) s s2.
Proof.
  intros Hh Hs Hf Hx Hqx He Hfuel.
  assert (depth (length l) ≤ depth (S (length l)))%nat as Hd.
  { unfold depth. pose proof (Nat.log2_le_mono (length l + 1) (S (length l) + 1) ltac:(lia)). lia. }
  pose proof (insert_holds fuel s q l x Hh Hs Hf Hx Hqx ltac:(lia)) as Hins. rewrite He in Hins.
  destruct Hins as (s1&l1&l2&Hrun&->&Hh1&Hel1).
  assert (x ∈ l1 ++ x :: l2) as Hin by (apply elem_of_app; right; left).
  assert (NoDup (l1 ++ x :: l2)) as Hnd.
  { destruct Hh1 as (t&_&Hb&_&<-&_). apply wf_NoDup. by apply bst_wf. }
  destruct (remove_holds fuel s1 q (l1 ++ x :: l2) x Hh1) as [_ Hrem].
  { by apply separated_insert. }
  { rewrite length_app in *. simpl. by rewrite Nat.add_succ_r. }
  destruct (Hrem Hin) as (s2&k1&k2&Hrun2&Heq&Hh2&Hel2).
  assert (l1 = k1 ∧ l2 = k2) as [<- <-].
  { apply list.NoDup_app in Hnd as (Hn1&Hd12&[Hx2 _]%list.NoDup_cons).
    clear -Heq Hx Hx2. revert k1 Heq. rewrite elem_of_app in Hx.
    induction l1 as [|a l1 IH]; intros [|b k1] Heq; simplify_eq/=; [done| | |].
    - exfalso. apply Hx2. apply elem_of_app. right. left.
    - exfalso. apply Hx. left. left.
    - destruct (IH ltac:(rewrite elem_of_cons in Hx; tauto) k1) as [-> ->]; done. }
  exists s1, s2, l1, l2. split_and!; try done.
  destruct Hel1 as [Hc1 Hb1], Hel2 as [Hc2 Hb2].
  assert (∀ a, a ∈ l1 ++ x :: l2 ↔ a ∈ x :: l1 ++ l2) as Hperm.
  { intros a. rewrite elem_of_cons, !elem_of_app, elem_of_cons. tauto. }
  split.
  - intros p Hp Hn. rewrite Hc2, Hc1; auto. intros n d Hin'. apply Hn. by apply Hperm.
  - intros a Ha. rewrite Hb2, Hb1; auto. by rewrite Hperm.
Qed.
End removal.
