(* ===== verification/Mdb.v ===== *)
(** The mapping database: [Mdb].

    A node describes a region of a space and where it was delegated from.  All
    nodes derived from one root form a ring through [next] and [prev], in the
    preorder of the delegation tree; [dpth] is the depth of a node, [prnt] its
    parent.  Memory is a function from node names to nodes.  The nodes of one
    space are also linked into a balanced tree, ordered by [larger] and
    [equal]. *)
From stdpp Require Import sorting.
From S2P Require Import Prelude Bits Queue Avl AvlRemove.
Local Open Scope Z_scope.

Record mdb := Mdb {
  dpth : Z;
  mdb_prev : obj;
  mdb_next : obj;
  prnt : option obj;
  space : option nat;
  node_phys : Z;
  node_base : Z;
  node_order : Z;
  node_attr : Z;
  node_type : Z;
  node_sub : Z;
}.

Definition memory : Type := obj → mdb.

Definition set_prev_of (v : obj) (n : mdb) : mdb :=
  Mdb (dpth n) v (mdb_next n) (prnt n) (space n) (node_phys n) (node_base n) (node_order n)
    (node_attr n) (node_type n) (node_sub n).
Definition set_next_of (v : obj) (n : mdb) : mdb :=
  Mdb (dpth n) (mdb_prev n) v (prnt n) (space n) (node_phys n) (node_base n) (node_order n)
    (node_attr n) (node_type n) (node_sub n).
Definition set_prnt (v : option obj) (n : mdb) : mdb :=
  Mdb (dpth n) (mdb_prev n) (mdb_next n) v (space n) (node_phys n) (node_base n) (node_order n)
    (node_attr n) (node_type n) (node_sub n).
Definition set_attr (v : Z) (n : mdb) : mdb :=
  Mdb (dpth n) (mdb_prev n) (mdb_next n) (prnt n) (space n) (node_phys n) (node_base n)
    (node_order n) v (node_type n) (node_sub n).

Definition upd (x : obj) (f : mdb → mdb) (m : memory) : memory := <[x := f (m x)]> m.

(** ** Constructors, comparison and lookup *)

(** [Mdb (Space *s, f, p, b, o, a, t, sub, depth)]: the node [this] is alone in
    its ring. *)
Definition mdb_new (this : obj) (s : option nat) (p b o a t sub depth : Z) : mdb :=
  Mdb depth this this None s p b o a t sub.

Definition mdb_larger (m : memory) (this x : obj) : bool := node_base (m x) <? node_base (m this).

Definition mdb_equal (m : memory) (this x : obj) : bool :=
  Z.shiftr (Z.lxor (node_base (m this)) (node_base (m x)))
    (Z.max (node_order (m this)) (node_order (m x))) =? 0.

Definition alive (m : memory) (this : obj) : bool :=
  bool_decide (mdb_next (m (mdb_prev (m this))) = this) &&
  bool_decide (mdb_prev (m (mdb_next (m this))) = this).

(** [Mdb::lookup (Avl *tree, mword base, bool next)] from the node [t]. *)
Fixpoint lookup_loop (fuel : nat) (m : memory) (s : astore) (t : option obj) (base : Z)
    (next : bool) (n : option obj) : option (option obj) :=
  match fuel with
  | O => None
  | S fuel =>
    match t with
    | None => Some n
    | Some t =>
      if Z.shiftr (Z.lxor (node_base (m t)) base) (node_order (m t)) =? 0 then Some (Some t)
      else
        let d := node_base (m t) <? base in
        lookup_loop fuel m s (cell s (Lnk t d)) base next (if negb d && next then Some t else n)
    end
  end.

Definition lookup (fuel : nat) (m : memory) (s : astore) (tree : loc) (base : Z) (next : bool) :
    option (option obj) :=
  lookup_loop fuel m s (cell s tree) base next None.

(** ** The delegation ring *)

Definition insert_node (this p : obj) (a : Z) (m : memory) : bool * memory :=
  let m := upd this (set_attr (Z.land (node_attr (m p)) a)) m in
  if node_attr (m this) =? 0 then (false, m)
  else
    let m := upd this (set_prnt (Some p)) m in
    let m := upd this (set_prev_of p) m in
    let m := upd this (set_next_of (mdb_next (m p))) m in
    let m := upd (mdb_next (m p)) (set_prev_of this) m in
    (true, upd p (set_next_of this) m).

Definition demote_node (this : obj) (a : Z) (m : memory) : memory :=
  upd this (set_attr (Z.land (node_attr (m this)) (wnot a))) m.

Definition remove_node (leaf : bool) (this : obj) (m : memory) : bool * memory :=
  if truthy (node_attr (m this)) then (false, m)
  else if negb (alive m this) then (false, m)
  else if leaf && (dpth (m this) <? dpth (m (mdb_next (m this)))) then (false, m)
  else
    let m := if leaf then m else upd (mdb_next (m this)) (set_prnt (prnt (m this))) m in
    let m := upd (mdb_next (m this)) (set_prev_of (mdb_prev (m this))) m in
    (true, upd (mdb_prev (m this)) (set_next_of (mdb_next (m this))) m).

(** ** Comparison

    [equal] compares the blocks of the larger order that contain the two bases.
    Two regions that are aligned to their size are equal exactly when they
    overlap. *)

Definition same_block (o a b : Z) : Prop := Z.shiftr (Z.lxor a b) o = 0.

Lemma same_block_eq o a b : same_block o a b ↔ Z.shiftr a o = Z.shiftr b o.
Proof. unfold same_block. rewrite Z.shiftr_lxor. apply Z.lxor_eq_0_iff. Qed.

Lemma same_block_between o a b c : a ≤ b ≤ c → same_block o a c → same_block o a b.
Proof.
  rewrite !same_block_eq. intros Hb Hac. destruct (Z.le_gt_cases 0 o) as [Ho|Ho].
  - rewrite !Z.shiftr_div_pow2 in * by done.
    assert (0 < 2 ^ o) by (apply Z.pow_pos_nonneg; lia).
    pose proof (Z.div_le_mono a b (2 ^ o)). pose proof (Z.div_le_mono b c (2 ^ o)). lia.
  - assert (a = c) as ->; [|f_equal; lia].
    rewrite <-(Z.opp_involutive o), !Z.shiftr_opp_r, !Z.shiftl_mul_pow2 in Hac by lia.
    assert (0 < 2 ^ (- o)) by (apply Z.pow_pos_nonneg; lia). nia.
Qed.

Lemma mdb_equal_block m x y :
  mdb_equal m x y = true ↔
  same_block (Z.max (node_order (m x)) (node_order (m y))) (node_base (m x)) (node_base (m y)).
Proof. apply Z.eqb_eq. Qed.

#[export] Program Instance mdb_avl (m : memory) : AvlNode := {|
  larger := mdb_larger m;
  equal := mdb_equal m;
  rank x := node_base (m x);
|}.
Next Obligation.
  intros m x y. simpl. unfold mdb_larger. destruct (Z.ltb_spec (node_base (m y)) (node_base (m x))).
  - by rewrite bool_decide_eq_true_2.
  - rewrite bool_decide_eq_false_2; [done|lia].
Qed.
Next Obligation.
  intros m x y Heq. simpl in *. apply mdb_equal_block, same_block_eq. by rewrite Heq.
Qed.
Next Obligation.
  intros m x y. simpl. unfold mdb_equal. by rewrite Z.lxor_comm, Z.max_comm.
Qed.
Next Obligation.
  intros m x y z Hr. simpl in *. rewrite !mdb_equal_block. intros Hxz.
  set (ox := node_order (m x)) in *. set (oy := node_order (m y)). set (oz := node_order (m z)) in *.
  assert (∀ o o' a b, o ≤ o' → same_block o a b → same_block o' a b) as Hmono.
  { intros o o' a b Ho. rewrite !same_block_eq. intros Hab.
    destruct (Z.le_gt_cases 0 o) as [H0|H0].
    - replace o' with (o + (o' - o)) by lia. rewrite <-!Z.shiftr_shiftr by lia. by rewrite Hab.
    - assert (a = b) as ->; [|done].
      rewrite <-(Z.opp_involutive o), !Z.shiftr_opp_r, !Z.shiftl_mul_pow2 in Hab by lia.
      assert (0 < 2 ^ (- o)) by (apply Z.pow_pos_nonneg; lia). nia. }
  destruct (Z.max_spec ox oz) as [[Ho He]|[Ho He]]; rewrite He in Hxz.
  - right. apply (Hmono oz); [lia|]. apply same_block_eq. symmetry.
    apply same_block_eq in Hxz. rewrite <-Hxz. apply same_block_eq.
    by apply (same_block_between _ _ _ (node_base (m z))); [|apply same_block_eq].
  - left. apply (Hmono ox); [lia|]. by apply (same_block_between _ _ _ (node_base (m z))).
Qed.

(** ** Regions *)

Definition region (m : memory) (x : obj) (p : Z) : Prop :=
  node_base (m x) ≤ p < node_base (m x) + 2 ^ node_order (m x).

(** Bases are aligned to the size of the region. *)
Definition region_wf (m : memory) (x : obj) : Prop :=
  0 ≤ node_order (m x) ∧ node_base (m x) mod 2 ^ node_order (m x) = 0.

Lemma region_block m x p :
  region_wf m x → region m x p ↔ same_block (node_order (m x)) p (node_base (m x)).
Proof.
  intros [Ho Hb]. unfold region, same_block. rewrite lxor_shiftr_eq0 by done.
  by rewrite div_eq_range.
Qed.

Lemma same_block_mono o o' a b : o ≤ o' → same_block o a b → same_block o' a b.
Proof.
  intros Ho. rewrite !same_block_eq. intros Hab.
  destruct (Z.le_gt_cases 0 o) as [H0|H0].
  - replace o' with (o + (o' - o)) by lia. rewrite <-!Z.shiftr_shiftr by lia. by rewrite Hab.
  - assert (a = b) as ->; [|done].
    rewrite <-(Z.opp_involutive o), !Z.shiftr_opp_r, !Z.shiftl_mul_pow2 in Hab by lia.
    assert (0 < 2 ^ (- o)) by (apply Z.pow_pos_nonneg; lia). nia.
Qed.

Lemma same_block_sym o a b : same_block o a b → same_block o b a.
Proof. rewrite !same_block_eq. congruence. Qed.

Lemma same_block_trans o a b c : same_block o a b → same_block o b c → same_block o a c.
Proof. rewrite !same_block_eq. congruence. Qed.

(** Aligned regions overlap exactly when [equal] says so. *)
Lemma mdb_equal_overlap m x y :
  region_wf m x → region_wf m y →
  mdb_equal m x y = true ↔ ∃ p, region m x p ∧ region m y p.
Proof.
  intros Hx Hy. rewrite mdb_equal_block. split.
  - intros Hb. assert (∀ z, region_wf m z → region m z (node_base (m z))) as Hself.
    { intros z [Ho _]. unfold region. assert (0 < 2 ^ node_order (m z)) by (apply Z.pow_pos_nonneg; lia).
      lia. }
    destruct (Z.max_spec (node_order (m x)) (node_order (m y))) as [[Ho He]|[Ho He]]; rewrite He in Hb.
    + exists (node_base (m x)). split; [by apply Hself|]. by apply region_block.
    + exists (node_base (m y)). split; [|by apply Hself]. apply region_block; [done|].
      by apply same_block_sym.
  - intros (p&Hpx&Hpy). rewrite region_block in Hpx, Hpy by done.
    apply (same_block_trans _ _ p); [apply same_block_sym|];
      (eapply same_block_mono; [|done]); lia.
Qed.

(** ** Pointer updates *)

Lemma upd_at x f m : upd x f m x = f (m x).
Proof. apply fn_lookup_insert. Qed.
Lemma upd_ne x f m y : x ≠ y → upd x f m y = m y.
Proof. apply fn_lookup_insert_ne. Qed.

Definition links_of (m : memory) : links :=
  Links (λ n, Some (mdb_next (m n))) (λ n, Some (mdb_prev (m n))).

(** The memory after a successful [insert_node], field by field. *)
Definition inserted (x p : obj) (a : Z) (m : memory) : memory := λ n,
  Mdb (dpth (m n))
    (if decide (n = x) then p else if decide (n = mdb_next (m p)) then x else mdb_prev (m n))
    (if decide (n = x) then mdb_next (m p) else if decide (n = p) then x else mdb_next (m n))
    (if decide (n = x) then Some p else prnt (m n))
    (space (m n)) (node_phys (m n)) (node_base (m n)) (node_order (m n))
    (if decide (n = x) then Z.land (node_attr (m p)) a else node_attr (m n))
    (node_type (m n)) (node_sub (m n)).

Lemma insert_node_fails x p a m :
  Z.land (node_attr (m p)) a = 0 →
  insert_node x p a m = (false, upd x (set_attr 0) m).
Proof. intros Ha. unfold insert_node. by rewrite upd_at, Ha. Qed.

Lemma insert_node_run x p a m :
  Z.land (node_attr (m p)) a ≠ 0 → x ≠ p → mdb_next (m p) ≠ x →
  ∃ m', insert_node x p a m = (true, m') ∧ ∀ n, m' n = inserted x p a m n.
Proof.
  intros Ha Hxp Hnx. unfold insert_node. rewrite upd_at. simpl.
  rewrite (proj2 (Z.eqb_neq _ _) Ha). cbn zeta.
  set (m1 := upd x (set_attr (Z.land (node_attr (m p)) a)) m).
  set (m2 := upd x (set_prev_of p) (upd x (set_prnt (Some p)) m1)).
  assert (∀ n, n ≠ x → m2 n = m n) as Hm2 by (intros n Hn; unfold m2, m1; by rewrite !upd_ne).
  rewrite (Hm2 p) by done.
  set (m3 := upd x (set_next_of (mdb_next (m p))) m2).
  assert (∀ n, n ≠ x → m3 n = m n) as Hm3 by (intros n Hn; unfold m3; rewrite upd_ne by done; auto).
  rewrite (Hm3 p) by done. eexists. split; [done|]. intros n. unfold inserted.
  destruct (decide (n = x)) as [->|Hx].
  - rewrite (upd_ne p), (upd_ne (mdb_next (m p))) by done. unfold m3, m2, m1. by rewrite !upd_at.
  - destruct (decide (n = p)) as [->|Hp].
    + rewrite upd_at. destruct (decide (p = mdb_next (m p))) as [He|He].
      * rewrite <-He, upd_at, Hm3 by done. by destruct (m p).
      * rewrite upd_ne, Hm3 by done. by destruct (m p).
    + rewrite (upd_ne p) by done. destruct (decide (n = mdb_next (m p))) as [->|He].
      * rewrite upd_at, Hm3 by done. by destruct (m (mdb_next (m p))).
      * rewrite upd_ne, Hm3 by done. by destruct (m n).
Qed.

Lemma ring_pointwise L L' l :
  (∀ a, next L' a = next L a) → (∀ a, prev L' a = prev L a) → ring L l → ring L' l.
Proof. intros Hn Hp. apply ring_frame; auto. Qed.

(** The new node follows its parent in the ring. *)
Lemma inserted_ring x p a m l1 l2 :
  ring (links_of m) (l1 ++ p :: l2) → x ∉ l1 ++ p :: l2 →
  ring (links_of (inserted x p a m)) (l1 ++ p :: x :: l2).
Proof.
  intros Hr Hx. apply (ring_rotate _ l1 (p :: l2)) in Hr. simpl in Hr.
  assert (x ∉ p :: l2 ++ l1) as Hx'.
  { rewrite elem_of_app, elem_of_cons in Hx. rewrite elem_of_cons, elem_of_app. tauto. }
  apply (ring_rotate _ (p :: x :: l2) l1).
  change (ring (links_of (inserted x p a m)) (p :: x :: l2 ++ l1)).
  assert (mdb_next (m p) = List.hd p (l2 ++ l1)) as Hnx.
  { destruct Hr as [_ Hs]. destruct (l2 ++ l1); simpl in *; [by destruct Hs as [[=] _]|].
    by destruct Hs as [[[=] _] _]. }
  set (l := l2 ++ l1) in *.
  (* the same pointers as linking before the successor of [p] *)
  assert (ring (links_of (inserted x p a m)) ((l ++ [p]) ++ [x])) as Hres.
  { assert (ring (links_of m) (l ++ [p])) as Hr' by by apply (ring_rotate _ [p] l).
    assert (∃ h k, l ++ [p] = h :: k ∧ mdb_next (m p) = h) as (h&k&Hl&Hh).
    { rewrite Hnx. destruct l as [|h k]; [by exists p, []|]. by exists h, (k ++ [p]). }
    rewrite Hl in *. assert (x ∉ h :: k) as Hxk.
    { rewrite <-Hl. by rewrite elem_of_app, list_elem_of_singleton, elem_of_cons in *; tauto. }
    destruct (link_before_spec (links_of m) x h k Hr' Hxk) as (L'&HL&Hring&_).
    apply (ring_pointwise L'); [| |done].
    all: assert (mdb_prev (m h) = p) as Hph.
    1, 3: destruct Hr as [_ Hs]; rewrite <-Hh, Hnx; destruct l; simpl in *;
          [by destruct Hs as [_ [=]]|by destruct Hs as [[_ [=]] _]].
    all: unfold link_before in HL; cbn in HL; rewrite fn_lookup_insert in HL;
      cbn in HL; rewrite Hph in HL; cbn in HL; intros n; unfold inserted; rewrite Hh; cbn.
    all: assert (p ≠ x) by (intros ->; apply Hx'; by left).
    all: assert (h ≠ x) by (intros ->; apply Hxk; by left).
    all: rewrite fn_lookup_insert_ne in HL by done; rewrite fn_lookup_insert in HL;
      injection HL as <-; cbn; repeat case_decide; try subst n; try done;
      repeat first [rewrite fn_lookup_insert; done|rewrite fn_lookup_insert_ne by done]; done. }
  apply (ring_rotate _ (l ++ [p]) [x]) in Hres.
  change (ring (links_of (inserted x p a m)) ([p] ++ (x :: l))).
  by apply (ring_rotate _ (x :: l) [p]).
Qed.

(** ** Delegation trees

    In the ring of a root the parent of a node is the nearest node before it
    that is less deep, and the node lies one level below it. *)
Definition derivation (m : memory) (l : list obj) : Prop :=
  ∀ l1 n l2, l = l1 ++ n :: l2 → l1 ≠ [] →
  ∃ p k1 k2, l1 = k1 ++ p :: k2 ∧ prnt (m n) = Some p ∧ dpth (m n) = dpth (m p) + 1 ∧
             ∀ a, a ∈ k2 → dpth (m p) < dpth (m a).

(** [x] has descendants in the preorder [x :: l2]. *)
Definition has_children (m : memory) (x : obj) (l2 : list obj) : bool :=
  match l2 with [] => false | y :: _ => dpth (m x) <? dpth (m y) end.

Lemma app_split {A} (l1 l2 k1 k2 : list A) (x y : A) :
  l1 ++ x :: l2 = k1 ++ y :: k2 →
  (∃ j, k1 = l1 ++ x :: j ∧ l2 = j ++ y :: k2) ∨ (l1 = k1 ∧ x = y ∧ l2 = k2) ∨
  (∃ j, l1 = k1 ++ y :: j ∧ k2 = j ++ x :: l2).
Proof.
  revert k1. induction l1 as [|a l1 IH]; intros [|b k1] He; simplify_eq/=.
  - right. left. done.
  - left. by exists k1.
  - right. right. by exists l1.
  - destruct (IH k1 ltac:(assumption)) as [(j&->&->)|[(->&->&->)|(j&->&->)]]; eauto 10.
Qed.

Lemma derivation_insert m m' x p l1 l2 :
  derivation m (l1 ++ p :: l2) → x ∉ l1 ++ p :: l2 →
  (∀ a, a ∈ l1 ++ p :: l2 → prnt (m' a) = prnt (m a) ∧ dpth (m' a) = dpth (m a)) →
  prnt (m' x) = Some p → dpth (m' x) = dpth (m p) + 1 →
  derivation m' (l1 ++ p :: x :: l2).
Proof.
  intros Hd Hx Hm Hpx Hdx k1 n k2 Heq Hk.
  assert (dpth (m' p) = dpth (m p)) as Hdp by (apply Hm, elem_of_app; right; left).
  assert (∀ j1 n j2, l1 ++ p :: l2 = j1 ++ n :: j2 → j1 ≠ [] →
    ∃ q i1 i2, j1 = i1 ++ q :: i2 ∧ prnt (m' n) = Some q ∧ dpth (m' n) = dpth (m' q) + 1 ∧
               ∀ a, a ∈ i2 → dpth (m' q) < dpth (m' a)) as Hold.
  { intros j1 n' j2 He Hj. destruct (Hd j1 n' j2 He Hj) as (q&i1&i2&->&Hq&Hdq&Hi).
    rewrite He in Hm. setoid_rewrite elem_of_app in Hm. setoid_rewrite elem_of_cons in Hm.
    setoid_rewrite elem_of_app in Hm. setoid_rewrite elem_of_cons in Hm.
    assert (∀ a, a = q ∨ a = n' ∨ a ∈ i2 → prnt (m' a) = prnt (m a) ∧ dpth (m' a) = dpth (m a)) as Hm'
      by (intros a Ha; apply Hm; tauto).
    exists q, i1, i2. destruct (Hm' q ltac:(auto)) as [_ ->]. destruct (Hm' n' ltac:(auto)) as [-> ->].
    split_and!; try done. intros a Ha. destruct (Hm' a ltac:(auto)) as [_ ->]. by apply Hi. }
  destruct (app_split l1 (x :: l2) k1 k2 p n Heq) as [(j&->&Hj)|[(<-&<-&_)|(j&->&->)]].
  - (* behind [p] *)
    destruct j as [|y j]; injection Hj as <- Hj.
    + exists p, l1, []. split_and!; try done; [lia|]. intros a Ha. by apply not_elem_of_nil in Ha.
    + destruct (Hold (l1 ++ p :: j) n k2) as (q&i1&i2&Hi&Hq&Hdq&Hi2).
      { by rewrite Hj, <-app_assoc. }
      { by destruct l1. }
      destruct (app_split l1 j i1 i2 p q Hi) as [(j'&->&->)|[(<-&<-&<-)|(j'&->&->)]].
      * exists q, (l1 ++ p :: x :: j'), i2. split_and!; try done. by rewrite <-app_assoc.
      * exists p, l1, (x :: j). split_and!; try done.
        intros a [->|Ha]%elem_of_cons; [lia|by apply Hi2].
      * exists q, i1, (j' ++ p :: x :: j). split_and!; try done; [by rewrite <-app_assoc|].
        assert (dpth (m' q) < dpth (m' p)) by (apply Hi2, elem_of_app; right; left).
        setoid_rewrite elem_of_app in Hi2. setoid_rewrite elem_of_cons in Hi2.
        intros a. rewrite elem_of_app, !elem_of_cons. intros [|[->|[->|]]]; auto. lia.
  - apply (Hold l1 p l2); done.
  - apply (Hold k1 n (j ++ p :: l2)); [by rewrite <-app_assoc|done].
Qed.

Lemma derivation_remove m m' x l1 l2 :
  derivation m (l1 ++ x :: l2) → has_children m x l2 = false → l1 ≠ [] →
  (∀ a, a ∈ l1 ++ l2 → prnt (m' a) = prnt (m a) ∧ dpth (m' a) = dpth (m a)) →
  derivation m' (l1 ++ l2).
Proof.
  intros Hd Hc Hl1 Hm k1 n k2 Heq Hk.
  assert (∀ j1 n j2, l1 ++ x :: l2 = j1 ++ n :: j2 → j1 ≠ [] → n ≠ x →
    ∃ q i1 i2, j1 = i1 ++ q :: i2 ∧ prnt (m n) = Some q ∧ dpth (m n) = dpth (m q) + 1 ∧
               (∀ a, a ∈ i2 → dpth (m q) < dpth (m a))) as Hold by eauto.
  assert (∃ q i1 i2, k1 = i1 ++ q :: i2 ∧ prnt (m n) = Some q ∧ dpth (m n) = dpth (m q) + 1 ∧
                     (∀ a, a ∈ i2 → dpth (m q) < dpth (m a))) as (q&i1&i2&->&Hq&Hdq&Hi).
  2: { rewrite Heq in Hm. setoid_rewrite elem_of_app in Hm. setoid_rewrite elem_of_cons in Hm.
       setoid_rewrite elem_of_app in Hm. setoid_rewrite elem_of_cons in Hm.
       assert (∀ a, a = q ∨ a = n ∨ a ∈ i2 → prnt (m' a) = prnt (m a) ∧ dpth (m' a) = dpth (m a))
         as Hm' by (intros a Ha; apply Hm; tauto).
       exists q, i1, i2. destruct (Hm' q ltac:(auto)) as [_ ->].
       destruct (Hm' n ltac:(auto)) as [-> ->].
       split_and!; try done. intros a Ha. destruct (Hm' a ltac:(auto)) as [_ ->]. by apply Hi. }
  destruct (decide (length k1 < length l1)%nat) as [Hlt|Hge].
  - (* [n] lies before [x] *)
    assert (∃ j, l1 = k1 ++ n :: j) as (j&->).
    { exists (drop (S (length k1)) l1).
      assert (l1 = take (length l1) (k1 ++ n :: k2)) as Hl by (by rewrite <-Heq, take_app_length).
      rewrite take_app in Hl. rewrite take_ge in Hl by lia.
      replace (length l1 - length k1)%nat with (S (length l1 - S (length k1))) in Hl by lia.
      simpl in Hl. rewrite Hl at 2. rewrite drop_app, drop_ge by lia.
      replace (S (length k1) - length k1)%nat with 1%nat by lia. simpl. by rewrite drop_0. }
    apply (Hd k1 n (j ++ x :: l2)); [by rewrite <-app_assoc|done].
  - (* behind [x] *)
    assert (∃ j, k1 = l1 ++ j ∧ l2 = j ++ n :: k2) as (j&->&->).
    { exists (drop (length l1) k1).
      assert (l1 = take (length l1) k1) as Hl.
      { rewrite <-(take_app_length l1 l2) at 1. rewrite Heq. rewrite take_app.
        replace (length l1 - length k1)%nat with 0%nat by lia. by rewrite take_0, app_nil_r. }
      split; [by rewrite Hl at 1; rewrite take_drop|].
      apply (f_equal (drop (length l1))) in Heq. rewrite drop_app_length in Heq. rewrite Heq.
      rewrite drop_app. replace (length l1 - length k1)%nat with 0%nat by lia. by rewrite drop_0. }
    destruct (Hd (l1 ++ x :: j) n k2) as (q&i1&i2&Hi&Hq&Hdq&Hi2); [by rewrite <-app_assoc|by destruct l1|].
    destruct (app_split l1 j i1 i2 x q Hi) as [(j'&->&->)|[(<-&<-&<-)|(j'&->&->)]].
    + exists q, (l1 ++ j'), i2. split_and!; try done. by rewrite <-app_assoc.
    + exfalso. destruct j as [|y j]; simpl in Hc; apply Z.ltb_ge in Hc; [lia|].
      assert (dpth (m x) < dpth (m y)) by (apply Hi2; left). lia.
    + exists q, i1, (j' ++ j). split_and!; try done; [by rewrite <-app_assoc|].
      setoid_rewrite elem_of_app in Hi2. setoid_rewrite elem_of_cons in Hi2.
      intros a. rewrite elem_of_app. intros []; auto.
Qed.

(** The root of a delegation tree is its least deep node. *)
Lemma root_least m r l : derivation m (r :: l) → ∀ a, a ∈ l → dpth (m r) < dpth (m a).
Proof.
  intros Hd a (j&k&Hl)%list_elem_of_split. remember (length j) as len eqn:Hlen.
  revert a j k Hl Hlen. induction len as [len IH] using lt_wf_ind. intros a j k -> ->.
  destruct (Hd (r :: j) a k) as (p&k1&k2&Hp&_&Hda&_); [done..|].
  destruct k1 as [|b k1]; injection Hp as <- Hj; [lia|]. subst j.
  assert (dpth (m r) < dpth (m p)); [|lia].
  apply (IH (length k1)) with (j := k1) (k := k2 ++ a :: k); [rewrite length_app; simpl; lia| |done].
  by rewrite <-app_assoc.
Qed.

(** The memory after a successful [remove_node]. *)
Definition removed (x : obj) (m : memory) : memory := λ n,
  Mdb (dpth (m n))
    (if decide (n = mdb_next (m x)) then mdb_prev (m x) else mdb_prev (m n))
    (if decide (n = mdb_prev (m x)) then mdb_next (m x) else mdb_next (m n))
    (prnt (m n)) (space (m n)) (node_phys (m n)) (node_base (m n)) (node_order (m n))
    (node_attr (m n)) (node_type (m n)) (node_sub (m n)).

Lemma seg_last_next L x l y : seg L x l y → next L (List.last l x) = Some y.
Proof.
  revert x. induction l as [|z l IH]; intros x; [simpl; tauto|].
  rewrite last_cons_default. intros [_ Hs]. by apply IH.
Qed.

Lemma ring_around m l1 x l2 :
  ring (links_of m) (l1 ++ x :: l2) → l1 ++ l2 ≠ [] →
  mdb_next (m x) = List.hd x (l2 ++ l1) ∧ mdb_prev (m x) = List.last (l2 ++ l1) x ∧
  mdb_next (m x) ≠ x ∧ mdb_prev (m x) ≠ x ∧
  mdb_prev (m (mdb_next (m x))) = x ∧ mdb_next (m (mdb_prev (m x))) = x.
Proof.
  intros Hr Hne. apply (ring_rotate _ l1 (x :: l2)) in Hr. simpl in Hr.
  assert (l2 ++ l1 ≠ []) as Hne'.
  { intros [-> ->]%app_eq_nil. done. }
  set (l := l2 ++ l1) in *. destruct Hr as [Hd Hs].
  pose proof (seg_last _ _ _ _ Hs) as Hlast.
  assert (mdb_prev (m x) = List.last l x) as Hp by (by injection Hlast).
  pose proof (seg_last_next _ _ _ _ Hs) as Hlast'.
  apply list.NoDup_cons in Hd as [Hx Hd].
  assert (List.last l x ∈ l) as Hin.
  { destruct l as [|y l']; [done|]. rewrite last_cons_default. apply last_in. }
  assert (mdb_next (m (List.last l x)) = x) as Hnl by (by injection Hlast').
  assert (mdb_next (m x) = List.hd x l ∧ mdb_prev (m (List.hd x l)) = x) as [Hn Hpn].
  { destruct l as [|y l']; [done|]. simpl in *. destruct Hs as [[[=] [=]] _]. done. }
  split_and!; [done|done| | |congruence|congruence].
  - rewrite Hn. destruct l as [|y l']; [done|]. simpl. intros ->. apply Hx. left.
  - rewrite Hp. intros He. by rewrite He in Hin.
Qed.

Lemma alive_ring m l x : ring (links_of m) l → x ∈ l → alive m x = true.
Proof.
  intros Hr (l1&l2&->)%list_elem_of_split. unfold alive.
  destruct (decide (l1 ++ l2 = [])) as [[-> ->]%app_eq_nil|Hne].
  - destruct Hr as [_ [Hn Hp]]. injection Hn as Hn. injection Hp as Hp.
    by rewrite Hp, Hn, Hp, !bool_decide_eq_true_2.
  - destruct (ring_around m l1 x l2 Hr Hne) as (_&_&_&_&H1&H2).
    by rewrite H1, H2, !bool_decide_eq_true_2.
Qed.

Lemma unlink_run m l1 x l2 :
  ring (links_of m) (l1 ++ x :: l2) → l1 ++ l2 ≠ [] →
  let m1 := upd (mdb_next (m x)) (set_prev_of (mdb_prev (m x))) m in
  ∀ n, upd (mdb_prev (m1 x)) (set_next_of (mdb_next (m1 x))) m1 n = removed x m n.
Proof.
  intros Hr Hne m1 n. destruct (ring_around m l1 x l2 Hr Hne) as (_&_&Hnx&Hpx&_&_).
  assert (m1 x = m x) as -> by (apply upd_ne; congruence). unfold removed.
  destruct (decide (n = mdb_prev (m x))) as [->|Hp].
  - rewrite upd_at. unfold m1. destruct (decide (mdb_prev (m x) = mdb_next (m x))) as [He|He].
    + rewrite He, upd_at. rewrite <-He. by destruct (m (mdb_prev (m x))).
    + rewrite upd_ne by congruence. by destruct (m (mdb_prev (m x))).
  - rewrite upd_ne by congruence. unfold m1.
    destruct (decide (n = mdb_next (m x))) as [->|Hn].
    + rewrite upd_at. by destruct (m (mdb_next (m x))).
    + rewrite upd_ne by congruence. by destruct (m n).
Qed.

Lemma removed_ring x m l1 l2 :
  ring (links_of m) (l1 ++ x :: l2) → l1 ++ l2 ≠ [] → ring (links_of (removed x m)) (l1 ++ l2).
Proof.
  intros Hr Hne. destruct (ring_around m l1 x l2 Hr Hne) as (_&_&Hnx&Hpx&Hpn&Hnp).
  destruct (unlink_spec (links_of m) x l1 l2 Hr Hne) as (L'&Hu&Hr'&_).
  apply (ring_pointwise L'); [| |done]; intros a; unfold unlink in Hu; simpl in Hu;
    rewrite fn_lookup_insert_ne in Hu by done; injection Hu as <-; simpl; case_decide; subst;
    by rewrite ?fn_lookup_insert, ?fn_lookup_insert_ne by congruence.
Qed.

Lemma remove_leaf_run m l1 x l2 :
  ring (links_of m) (l1 ++ x :: l2) → derivation m (l1 ++ x :: l2) → l1 ≠ [] →
  if truthy (node_attr (m x)) || has_children m x l2 then remove_node true x m = (false, m)
  else ∃ m', remove_node true x m = (true, m') ∧ ∀ n, m' n = removed x m n.
Proof.
  intros Hr Hd Hl1. assert (l1 ++ l2 ≠ []) as Hne by by destruct l1.
  unfold remove_node. destruct (truthy (node_attr (m x))); [done|]. simpl.
  rewrite (alive_ring m _ x Hr) by (apply elem_of_app; right; left). simpl.
  assert ((dpth (m x) <? dpth (m (mdb_next (m x)))) = has_children m x l2) as ->.
  { destruct (ring_around m l1 x l2 Hr Hne) as (Hn&_). rewrite Hn.
    destruct l2 as [|y l2]; [|done]. simpl. destruct l1 as [|r l1]; [done|]. simpl.
    apply Z.ltb_ge. apply Z.lt_le_incl, (root_least m r (l1 ++ [x]) Hd). apply elem_of_app.
    right. left. }
  destruct (has_children m x l2); [done|]. eexists. split; [done|].
  by apply (unlink_run m l1 x l2).
Qed.

(** ** Properties *)

(** C15: [insert_node] adds a node to the delegation tree exactly when the
    parent holds some of the requested rights: the node then has the rights
    that are both requested and held by the parent, no other node's rights
    change, and the ring is again a delegation tree in which the new node is
    the first child of its parent.  Otherwise the ring is unchanged. *)
Theorem insert_node_derives m x p a l1 l2 :
  ring (links_of m) (l1 ++ p :: l2) → derivation m (l1 ++ p :: l2) →
  x ∉ l1 ++ p :: l2 → dpth (m x) = dpth (m p) + 1 →
  let '(ok, m') := insert_node x p a m in
  let l' := if ok then l1 ++ p :: x :: l2 else l1 ++ p :: l2 in
  ok = negb (Z.land (node_attr (m p)) a =? 0) ∧
  node_attr (m' x) = Z.land (node_attr (m p)) a ∧
  (∀ n, n ≠ x → node_attr (m' n) = node_attr (m n)) ∧
  ring (links_of m') l' ∧ derivation m' l'.
Proof.
  intros Hr Hd Hx Hdx. assert (x ≠ p) as Hxp by (intros ->; apply Hx, elem_of_app; right; left).
  destruct (Z.eqb_spec (Z.land (node_attr (m p)) a) 0) as [Ha|Ha].
  - rewrite insert_node_fails by done. cbn [negb].
    assert (∀ n, upd x (set_attr 0) m n = if decide (n = x) then set_attr 0 (m x) else m n) as Hm.
    { intros n. destruct (decide (n = x)) as [->|]; [apply upd_at|by apply upd_ne]. }
    split_and!; [done|by rewrite Hm, decide_True| | |].
    + intros n Hn. by rewrite Hm, decide_False.
    + apply (ring_pointwise (links_of m)); [| |done]; intros n; simpl; rewrite Hm;
        destruct (decide (n = x)) as [->|]; done.
    + intros k1 n k2 He Hk. destruct (Hd k1 n k2 He Hk) as (q&i1&i2&->&Hq&Hdq&Hi).
      assert (∀ b, prnt (upd x (set_attr 0) m b) = prnt (m b) ∧
                   dpth (upd x (set_attr 0) m b) = dpth (m b)) as Hsame.
      { intros b. rewrite Hm. destruct (decide (b = x)) as [->|]; done. }
      exists q, i1, i2. destruct (Hsame n) as [-> ->]. destruct (Hsame q) as [_ ->].
      split_and!; try done. intros b Hb. destruct (Hsame b) as [_ ->]. by apply Hi.
  - assert (mdb_next (m p) ≠ x) as Hnx.
    { intros He. apply Hx. apply (ring_rotate _ l1 (p :: l2)) in Hr as [_ Hs].
      destruct (l2 ++ l1) as [|y l] eqn:Hl; simpl in Hs.
      - destruct Hs as [[=] _]. congruence.
      - destruct Hs as [[[=] _] _]. assert (x ∈ l2 ++ l1) as Hin by (rewrite Hl, <-He, H0; left).
        rewrite elem_of_app in Hin. rewrite elem_of_app, elem_of_cons. tauto. }
    destruct (insert_node_run x p a m Ha Hxp Hnx) as (m'&->&Hm'). cbn [negb].
    pose proof (inserted_ring x p a m l1 l2 Hr Hx) as Hring.
    split_and!; [done| | | |].
    + rewrite Hm'. simpl. by rewrite decide_True.
    + intros n Hn. rewrite Hm'. simpl. by rewrite decide_False.
    + apply (ring_pointwise (links_of (inserted x p a m))); [| |done]; intros n; simpl; by rewrite Hm'.
    + apply (derivation_insert m); try done.
      * intros b Hb. rewrite Hm'. simpl. rewrite decide_False; [done|]. by intros ->.
      * rewrite Hm'. simpl. by rewrite decide_True.
      * rewrite Hm'. simpl. done.
Qed.

(** [remove_node] of a node with a parent succeeds exactly when the node
    has no rights left and no descendants; it is then out of the ring, which is
    again a delegation tree of the other nodes, and its pointers show that it
    is not alive.  Otherwise nothing changes. *)
Theorem remove_node_leaf m x l1 l2 :
  ring (links_of m) (l1 ++ x :: l2) → derivation m (l1 ++ x :: l2) → l1 ≠ [] →
  let '(ok, m') := remove_node true x m in
  let l' := if ok then l1 ++ l2 else l1 ++ x :: l2 in
  ok = negb (truthy (node_attr (m x)) || has_children m x l2) ∧
  ring (links_of m') l' ∧ derivation m' l' ∧ alive m' x = negb ok ∧
  (∀ n, node_attr (m' n) = node_attr (m n)).
Proof.
  intros Hr Hd Hl1. pose proof (remove_leaf_run m l1 x l2 Hr Hd Hl1) as Hrun.
  destruct (truthy (node_attr (m x)) || has_children m x l2) eqn:Hc.
  - rewrite Hrun. split_and!; try done. apply (alive_ring m (l1 ++ x :: l2)); [done|].
    apply elem_of_app. right. left.
  - destruct Hrun as (m'&->&Hm'). assert (l1 ++ l2 ≠ []) as Hne by by destruct l1.
    apply orb_false_iff in Hc as [_ Hc].
    destruct (ring_around m l1 x l2 Hr Hne) as (_&_&Hnx&Hpx&Hpn&Hnp).
    split_and!; [done| | | |].
    + apply (ring_pointwise (links_of (removed x m))); [| |by apply removed_ring];
        intros n; simpl; by rewrite Hm'.
    + apply (derivation_remove m m' x); try done. intros b _. by rewrite Hm'.
    + apply andb_false_iff. left. apply bool_decide_eq_false. rewrite (Hm' x). simpl.
      rewrite (decide_False (P := x = mdb_next (m x))) by done. rewrite Hm'. simpl.
      rewrite decide_True by done. done.
    + intros n. by rewrite Hm'.
Qed.

(** C37: Removing an inner node, as the revocation that keeps intermediate
    nodes asks for, gives only the next node of the ring a new parent: every
    other child of the removed node stays in the ring with a parent pointer to
    the node that is about to be freed. *)
Theorem remove_inner_dangles m x l1 y l2 z :
  ring (links_of m) (l1 ++ x :: y :: l2) → l1 ≠ [] → node_attr (m x) = 0 →
  z ∈ l2 → prnt (m z) = Some x →
  let '(ok, m') := remove_node false x m in
  ok = true ∧ ring (links_of m') (l1 ++ y :: l2) ∧ prnt (m' y) = prnt (m x) ∧
  prnt (m' z) = Some x.
Proof.
  intros Hr Hl1 Ha Hz Hpz.
  assert (l1 ++ y :: l2 ≠ []) as Hne by by destruct l1.
  destruct (ring_around m l1 x (y :: l2) Hr Hne) as (Hn&_&Hnx&Hpx&_). simpl in Hn.
  assert (y ≠ z) as Hyz.
  { apply (ring_rotate _ l1 (x :: y :: l2)) in Hr as [Hnd _].
    apply list.NoDup_cons in Hnd as [_ Hnd%list.NoDup_cons]. intros ->. destruct Hnd as [Hnd _].
    apply Hnd, elem_of_app. by left. }
  unfold remove_node. rewrite Ha. simpl.
  rewrite (alive_ring m _ x Hr) by (apply elem_of_app; right; left). simpl.
  set (m1 := upd (mdb_next (m x)) (set_prnt (prnt (m x))) m).
  assert (∀ n, mdb_next (m1 n) = mdb_next (m n) ∧ mdb_prev (m1 n) = mdb_prev (m n)) as Hsame.
  { intros n. unfold m1. destruct (decide (mdb_next (m x) = n)) as [<-|]; [by rewrite upd_at|].
    by rewrite upd_ne. }
  assert (ring (links_of m1) (l1 ++ x :: y :: l2)) as Hr1.
  { apply (ring_pointwise (links_of m)); [| |done]; intros n; simpl; f_equal; apply Hsame. }
  pose proof (unlink_run m1 l1 x (y :: l2) Hr1 Hne) as Hrun. cbn zeta in Hrun.
  split_and!; [done| | |].
  - apply (ring_pointwise (links_of (removed x m1))); [| |by apply removed_ring];
      intros n; simpl; by rewrite Hrun.
  - rewrite Hrun. simpl. unfold m1. by rewrite Hn, upd_at.
  - rewrite Hrun. simpl. unfold m1. rewrite Hn, upd_ne by done. done.
Qed.

(** A root with one derived node, and one with two children below an inner node. *)
Definition root_mem : memory := λ n, mdb_new n None 0 0 4 7 0 0 (if decide (n = 0%nat) then 0 else 1).
Definition chain_mem : memory := (insert_node 1 0 3 root_mem).2.

Lemma root_ring : ring (links_of root_mem) [0%nat] ∧ derivation root_mem [0%nat].
Proof.
  split.
  - split; [apply NoDup_singleton|]. done.
  - intros [|a [|b l1]] n l2 [=]; done.
Qed.

Lemma insert_node_derives_witness :
  (insert_node 1 0 3 root_mem).1 = true ∧ ring (links_of chain_mem) [0; 1]%nat.
Proof.
  pose proof (insert_node_derives root_mem 1 0 3 [] [] (proj1 root_ring) (proj2 root_ring)
    ltac:(simpl; by rewrite list_elem_of_singleton) eq_refl) as Hi.
  destruct Hi as (?&_&_&Hr&_). split; [done|exact Hr].
Defined.

Definition idle_mem : memory := demote_node 1 7 chain_mem.

Lemma idle_ring : ring (links_of idle_mem) [0; 1]%nat ∧ derivation idle_mem [0; 1]%nat.
Proof.
  split.
  - split; [|done]. apply NoDup_cons_2; [by rewrite list_elem_of_singleton|apply NoDup_singleton].
  - intros [|a [|b [|c l1]]] n l2 [=]; subst; try done. exists 0%nat, [], [].
    split_and!; try done. intros a Ha. by apply not_elem_of_nil in Ha.
Qed.

Lemma remove_node_leaf_witness :
  (remove_node true 1 idle_mem).1 = true ∧ ring (links_of (remove_node true 1 idle_mem).2) [0%nat].
Proof.
  pose proof (remove_node_leaf idle_mem 1 [0%nat] [] (proj1 idle_ring) (proj2 idle_ring) ltac:(done))
    as Hi.
  destruct Hi as (?&Hr&_). split; [done|exact Hr].
Defined.

(** Nodes 2 and 3 are children of node 1, whose rights have been revoked. *)
Definition fork_mem : memory :=
  let deeper n d := upd n (λ k, mdb_new n None 0 0 4 0 0 0 d) in
  demote_node 1 7 (insert_node 3 1 1 (insert_node 2 1 1 (deeper 2%nat 2 (deeper 3%nat 2 chain_mem))).2).2.

Lemma remove_inner_dangles_witness :
  (remove_node false 1 fork_mem).1 = true ∧ prnt ((remove_node false 1 fork_mem).2 2%nat) = Some 1%nat.
Proof.
  assert (ring (links_of fork_mem) [0; 1; 3; 2]%nat) as Hr.
  { split; [|vm_compute; tauto]. apply (bool_decide_unpack _). vm_compute. done. }
  destruct (remove_inner_dangles fork_mem 1 [0%nat] 3%nat [2%nat] 2%nat) as (?&_&_&?);
    [exact Hr|done|reflexivity|by left|reflexivity|].
  done.
Defined.
