(* ===== verification/Space.v ===== *)
(** Spaces: [Space].

    A space owns a balanced tree of disjoint regions.  The state holds the
    memory of all nodes, the tree pointers of all spaces, and the first name
    that no node has had yet; [new] takes that name.  Spaces are numbered; the
    tree of space [sp] hangs at [Root sp]. *)
From stdpp Require Import sorting.
From S2P Require Import Prelude Bits Queue Avl AvlRemove Mdb.
Local Open Scope Z_scope.

Record spaces := Spaces {
  mem : memory;
  tree : astore;
  brk : obj;
}.

Definition set_mem (m : memory) (w : spaces) : spaces := Spaces m (tree w) (brk w).
Definition set_tree (t : astore) (w : spaces) : spaces := Spaces (mem w) t (brk w).

(** Passes over a tree of fewer than [2^64] nodes take at most 129 steps. *)
Definition tree_fuel : nat := 140.

Definition tree_lookup (sp : nat) (idx : Z) (next : bool) (w : spaces) : option (option obj) :=
  lookup tree_fuel (mem w) (tree w) (Root sp) idx next.

(** [Mdb::insert<Mdb> (&tree, node)] and [Mdb::remove<Mdb> (&tree, node)]. *)
Definition insert_at (sp : nat) (node : obj) (w : spaces) : option (bool * spaces) :=
  '(ok, t) ← @Avl.insert (mdb_avl (mem w)) tree_fuel (Root sp) node (tree w);
  Some (ok, set_tree t w).
Definition remove_at (sp : nat) (node : obj) (w : spaces) : option (bool * spaces) :=
  '(ok, t) ← @Avl.remove (mdb_avl (mem w)) tree_fuel (Root sp) node (tree w);
  Some (ok, set_tree t w).

(** The space is that of the node; [None] is a null space. *)
Definition tree_insert (node : obj) (w : spaces) : option (bool * spaces) :=
  sp ← space (mem w node); insert_at sp node w.
Definition tree_remove (node : obj) (w : spaces) : option (bool * spaces) :=
  sp ← space (mem w node); remove_at sp node w.

(** [new (quota, cache) Mdb (s, f, p, b, o, a, t, sub, depth)], with the
    constructor of [Avl]. *)
Definition new_mdb (s : option nat) (p b o a t sub depth : Z) (w : spaces) : obj * spaces :=
  let x := brk w in
  (x, Spaces (upd x (λ _, mdb_new x s p b o a t sub depth) (mem w))
        (set_bal x 2 (put (Lnk x true) None (put (Lnk x false) None (tree w)))) (S x)).

Fixpoint addreg_loop (fuel : nat) (sp : nat) (addr size attr type : Z) (w : spaces) : option spaces :=
  match fuel with
  | O => None
  | S fuel =>
    if size =? 0 then Some w
    else
      let o := max_order addr size in
      let '(x, w) := new_mdb None addr addr o attr type 0 0 w in
      '(_, w) ← insert_at sp x w;
      addreg_loop fuel sp (addr + (1 << o))%W (size - (1 << o))%W attr type w
  end.

(** Each block takes the largest power of two that fits; 129 blocks are enough. *)
Definition addreg_fuel : nat := 140.

Definition addreg (sp : nat) (addr size attr type : Z) (w : spaces) : option spaces :=
  addreg_loop addreg_fuel sp addr size attr type w.

Definition PAGE_BITS : Z := 12.

Definition delreg (sp : nat) (addr : Z) (w : spaces) : option spaces :=
  let addr := (addr >> PAGE_BITS)%W in
  node ← tree_lookup sp addr false w;
  match node with
  | None => Some w
  | Some node =>
    '(_, w) ← remove_at sp node w;
    let next := (addr + 1)%W in
    let base := node_base (mem w node) in
    let last := (base + (1 << node_order (mem w node)))%W in
    let attr := node_attr (mem w node) in
    let type := node_type (mem w node) in
    w ← addreg sp base (addr - base)%W attr type w;
    addreg sp next (last - next)%W attr type w
  end.

#[local] Arguments put : simpl never.
#[local] Arguments set_bal : simpl never.
#[local] Arguments cell : simpl never.
#[local] Arguments bal : simpl never.

(** ** What a space holds *)

Record space_inv (w : spaces) (sp : nat) (l : list obj) : Prop := {
  si_holds : @holds (mdb_avl (mem w)) (tree w) (Root sp) l;
  si_separated : @separated (mdb_avl (mem w)) l;
  si_wf x : x ∈ l → region_wf (mem w) x;
  si_brk x : x ∈ l → (x < brk w)%nat;
}.

(** The addresses that the regions of [l] cover. *)
Definition covered (m : memory) (l : list obj) (p : Z) : Prop := ∃ x, x ∈ l ∧ region m x p.

Definition few (l : list obj) : Prop := Z.of_nat (length l) < 2 ^ 64.

Lemma few_depth l : few l → (depth (length l) < tree_fuel)%nat.
Proof.
  unfold few, depth, tree_fuel. intros Hl.
  assert (Nat.log2 (length l + 1) < 65)%nat; [|lia].
  apply Nat.log2_lt_pow2; [lia|]. apply Nat2Z.inj_lt. rewrite Nat2Z.inj_pow.
  change (Z.of_nat 2 ^ Z.of_nat 65) with (2 ^ 65). lia.
Qed.

(** Two regions of a space that share an address are the same. *)
Lemma region_unique w sp l x y p :
  space_inv w sp l → x ∈ l → y ∈ l → region (mem w) x p → region (mem w) y p → x = y.
Proof.
  intros Hi Hx Hy Hpx Hpy. apply (si_separated _ _ _ Hi); [done..|]. simpl.
  apply mdb_equal_overlap; [by apply Hi..|]. by exists p.
Qed.

(** ** Lookup *)

Definition covers (m : memory) (base : Z) (x : obj) : bool :=
  Z.shiftr (Z.lxor (node_base (m x)) base) (node_order (m x)) =? 0.

Lemma covers_block m base x :
  covers m base x = true ↔ same_block (node_order (m x)) (node_base (m x)) base.
Proof. apply Z.eqb_eq. Qed.

Lemma covers_region m base x : region_wf m x → covers m base x = true ↔ region m x base.
Proof.
  intros Hx. rewrite covers_block, region_block by done.
  split; apply same_block_sym.
Qed.

Lemma find_app {A} (f : A → bool) l k :
  List.find f (l ++ k) = match List.find f l with Some x => Some x | None => List.find f k end.
Proof. induction l as [|a l IH]; [done|]. simpl. by destruct (f a). Qed.

Lemma find_none_in {A} (f : A → bool) l : (∀ a, a ∈ l → f a = false) → List.find f l = None.
Proof.
  induction l as [|a l IH]; intros Hf; [done|]. simpl. rewrite Hf by left.
  apply IH. intros b Hb. apply Hf. by right.
Qed.

(** Covering is convex: a covering region makes every node between it and the
    address equal to it. *)
Lemma covers_between m base a n :
  covers m base a = true →
  node_base (m a) ≤ node_base (m n) ≤ base ∨ base ≤ node_base (m n) ≤ node_base (m a) →
  mdb_equal m a n = true.
Proof.
  rewrite covers_block, mdb_equal_block. intros Hc Hb.
  apply (same_block_mono (node_order (m a))); [lia|].
  destruct Hb as [Hb|Hb].
  - by apply (same_block_between _ _ _ base).
  - apply same_block_sym in Hc. apply same_block_sym.
    assert (same_block (node_order (m a)) base (node_base (m n))) as Hbn
      by by apply (same_block_between _ _ _ (node_base (m a))).
    by apply (same_block_trans _ _ base); [apply same_block_sym|].
Qed.

Definition lookup_result (m : memory) (base : Z) (next : bool) (l : list obj) (n : option obj) :
    option obj :=
  match List.find (covers m base) l with
  | Some x => Some x
  | None =>
    if next then
      match List.find (λ x, base <=? node_base (m x)) l with Some y => Some y | None => n end
    else n
  end.

Lemma lookup_loop_spec m s base nx t : ∀ fuel n,
  @bst (mdb_avl m) t → @separated (mdb_avl m) (inorder t) → (∃ q, rep s q t) →
  (height t < fuel)%nat →
  lookup_loop fuel m s (rootptr t) base nx n = Some (lookup_result m base nx (inorder t) n).
Proof.
  induction t as [|l IHl x b r IHr]; intros [|fuel] n Hb Hs (q&Hrep) Hf; try (simpl in Hf; lia).
  { unfold lookup_result. by destruct nx. }
  simpl in Hb, Hs, Hrep, Hf. destruct Hb as (Hl&Hr&Hbl&Hbr). destruct Hrep as (_&_&Hrl&Hrr).
  unfold separated in Hs. simpl in Hs.
  setoid_rewrite elem_of_app in Hs. setoid_rewrite elem_of_cons in Hs.
  assert (@separated (mdb_avl m) (inorder l)) as Hsl by (intros a c Ha Hc; apply Hs; auto).
  assert (@separated (mdb_avl m) (inorder r)) as Hsr by (intros a c Ha Hc; apply Hs; auto).
  assert (∀ a, a ∈ inorder l → a ≠ x) as Hlx by (intros a Ha ->; specialize (Hl x Ha); simpl in Hl; lia).
  assert (∀ a, a ∈ inorder r → a ≠ x) as Hrx by (intros a Ha ->; specialize (Hr x Ha); simpl in Hr; lia).
  simpl lookup_loop. unfold lookup_result. simpl inorder. rewrite find_app. simpl List.find.
  change (Z.shiftr (Z.lxor (node_base (m x)) base) (node_order (m x)) =? 0) with (covers m base x).
  destruct (covers m base x) eqn:Hcx.
  - rewrite find_none_in; [done|]. intros a Ha. apply not_true_iff_false. intros Hca.
    apply (Hlx a Ha). apply Hs; [auto..|]. simpl. apply mdb_equal_block.
    apply covers_block in Hca, Hcx. apply (same_block_trans _ _ base).
    + eapply same_block_mono; [|exact Hca]. lia.
    + eapply same_block_mono; [|apply same_block_sym, Hcx]. lia.
  - simpl in Hl, Hr. destruct (Z.ltb_spec (node_base (m x)) base) as [Hd|Hd]; simpl.
    + assert (List.find (covers m base) (inorder l) = None) as ->.
      { apply find_none_in. intros a Ha. apply not_true_iff_false. intros Hca.
        apply (Hlx a Ha). apply Hs; [auto..|]. simpl. apply (covers_between m base); [done|].
        specialize (Hl a Ha). lia. }
      rewrite (rep_root _ _ _ Hrr), IHr by (done || eauto || lia). unfold lookup_result.
      destruct (List.find (covers m base) (inorder r)); [done|]. destruct nx; [|done].
      rewrite find_app, (find_none_in _ (inorder l)); simpl.
      * destruct (Z.leb_spec base (node_base (m x))); [lia|done].
      * intros a Ha. apply Z.leb_gt. specialize (Hl a Ha). lia.
    + assert (List.find (covers m base) (inorder r) = None) as ->.
      { apply find_none_in. intros a Ha. apply not_true_iff_false. intros Hca.
        apply (Hrx a Ha). apply Hs; [auto..|]. simpl. apply (covers_between m base); [done|].
        specialize (Hr a Ha). lia. }
      rewrite (rep_root _ _ _ Hrl), IHl by (done || eauto || lia). unfold lookup_result.
      destruct (List.find (covers m base) (inorder l)); [done|]. destruct nx; [|done].
      rewrite find_app. simpl. destruct (Z.leb_spec base (node_base (m x))); [|lia]. by destruct (List.find _ (inorder l)).
Qed.

Lemma tree_lookup_run w sp l idx nx :
  space_inv w sp l → few l →
  tree_lookup sp idx nx w = Some (lookup_result (mem w) idx nx l None).
Proof.
  intros Hi Hl. pose proof (si_separated _ _ _ Hi) as Hs.
  destruct (si_holds _ _ _ Hi) as (t&Hr&Hb&Ha&<-&Hq).
  unfold tree_lookup, lookup. rewrite (rep_root _ _ _ Hr). apply lookup_loop_spec; eauto.
  pose proof (few_depth _ Hl). pose proof (avl_depth t Ha). lia.
Qed.

(** ** Insertion and removal *)

Lemma holds_elsewhere (I : AvlNode) s s' r r0 l l0 :
  holds s (Root r) l → elsewhere (Root r0) l0 s s' → r ≠ r0 → (∀ a, a ∈ l → a ∉ l0) →
  holds s' (Root r) l.
Proof.
  intros (t&Hr&Hb&Ha&<-&Hq) [Hc Hbal] Hne Hdis. exists t. split_and!; try done.
  apply (rep_moved s s' (Root r) (Root r) t Hr).
  - apply Hc; congruence.
  - intros a Hin. split; [|by apply Hbal, Hdis]. intros d. apply Hc; [done|].
    intros n d' Hn [= <- _]. exact (Hdis a Hin Hn).
Qed.

(** Another space is not affected by a change to the tree of [sp]. *)
Lemma space_inv_elsewhere w t sp sp' l l0 :
  space_inv w sp' l → elsewhere (Root sp) l0 (tree w) t → sp' ≠ sp → (∀ a, a ∈ l → a ∉ l0) →
  space_inv (set_tree t w) sp' l.
Proof.
  intros Hi He Hne Hd. destruct Hi as [Hh Hs Hw Hb].
  split; try done. by apply (holds_elsewhere _ (tree w) _ _ sp _ l0).
Qed.

Definition disjoint_from (m : memory) (x : obj) (l : list obj) : Prop :=
  ∀ y p, y ∈ l → region m x p → ¬ region m y p.

Lemma existsb_overlap m x l :
  region_wf m x → (∀ y, y ∈ l → region_wf m y) →
  existsb (mdb_equal m x) l = false ↔ disjoint_from m x l.
Proof.
  intros Hx Hl. rewrite <-not_true_iff_false, existsb_exists. split.
  - intros Hno y p Hy Hpx Hpy. apply Hno. exists y. split; [by apply list_elem_of_In|].
    apply mdb_equal_overlap; auto. by exists p.
  - intros Hd (y&Hy&He). apply list_elem_of_In in Hy. apply mdb_equal_overlap in He; [|auto..].
    destruct He as (p&Hpx&Hpy). by apply (Hd y p).
Qed.

Lemma set_tree_same w : set_tree (tree w) w = w.
Proof. by destruct w. Qed.

Lemma insert_at_run w sp l x :
  space_inv w sp l → few l → region_wf (mem w) x → fresh_node (tree w) x → x ∉ l →
  (x < brk w)%nat →
  if existsb (mdb_equal (mem w) x) l then insert_at sp x w = Some (false, w)
  else ∃ t l1 l2, insert_at sp x w = Some (true, set_tree t w) ∧ l = l1 ++ l2 ∧
         space_inv (set_tree t w) sp (l1 ++ x :: l2) ∧ elsewhere (Root sp) (x :: l) (tree w) t.
Proof.
  intros Hi Hl Hwf Hf Hx Hb. unfold insert_at.
  pose proof (@insert_holds (mdb_avl (mem w)) tree_fuel (tree w) (Root sp) l x
    (si_holds _ _ _ Hi) (si_separated _ _ _ Hi) Hf Hx ltac:(done) (few_depth l Hl)) as Hins.
  change (@equal (mdb_avl (mem w))) with (mdb_equal (mem w)) in Hins.
  destruct (existsb (mdb_equal (mem w) x) l) eqn:He.
  - rewrite Hins. cbn. by rewrite set_tree_same.
  - destruct Hins as (t&l1&l2&->&Hl12&Hh&Hel). exists t, l1, l2. cbn. split_and!; try done.
    assert (∀ a, a ∈ l1 ++ x :: l2 ↔ a = x ∨ a ∈ l) as Hin.
    { intros a. rewrite Hl12, !elem_of_app, elem_of_cons. tauto. }
    split; [done| | |].
    + intros a c Ha Hc Heq. simpl in Heq. apply Hin in Ha, Hc.
      rewrite <-not_true_iff_false, existsb_exists in He.
      destruct Ha as [->|Ha], Hc as [->|Hc]; [done| | |by apply (si_separated _ _ _ Hi)].
      * destruct He. exists c. by rewrite <-list_elem_of_In.
      * destruct He. exists a. rewrite <-list_elem_of_In. split; [done|].
        pose proof (@equal_sym (mdb_avl (mem w)) x a) as Hsym. simpl in Hsym. by rewrite Hsym.
    + intros a [->|Ha]%Hin; [done|]. by apply (si_wf _ _ _ Hi).
    + intros a [->|Ha]%Hin; [done|]. by apply (si_brk _ _ _ Hi).
Qed.

Lemma remove_at_run w sp l x :
  space_inv w sp l → few l → x ∈ l →
  ∃ t l1 l2, remove_at sp x w = Some (true, set_tree t w) ∧ l = l1 ++ x :: l2 ∧
    space_inv (set_tree t w) sp (l1 ++ l2) ∧ elsewhere (Root sp) l (tree w) t.
Proof.
  intros Hi Hl Hx. unfold remove_at.
  destruct (@remove_holds (mdb_avl (mem w)) tree_fuel (tree w) (Root sp) l x
    (si_holds _ _ _ Hi) (si_separated _ _ _ Hi) (few_depth l Hl)) as [_ Hrem].
  destruct (Hrem Hx) as (t&l1&l2&->&Hl12&Hh&Hel). exists t, l1, l2. cbn. split_and!; try done.
  assert (∀ a, a ∈ l1 ++ l2 → a ∈ l) as Hin.
  { intros a. rewrite Hl12, !elem_of_app, elem_of_cons. tauto. }
  split; [done| | |].
  - intros a c Ha Hc. apply (si_separated _ _ _ Hi); auto.
  - intros a Ha. apply (si_wf _ _ _ Hi). auto.
  - intros a Ha. apply (si_brk _ _ _ Hi). auto.
Qed.

(** Only bases and orders of the nodes of a space matter to it. *)
Lemma space_inv_update w w' sp l :
  space_inv w sp l →
  (∀ a, a ∈ l → node_base (mem w' a) = node_base (mem w a) ∧
                node_order (mem w' a) = node_order (mem w a)) →
  cell (tree w') (Root sp) = cell (tree w) (Root sp) →
  (∀ a, a ∈ l → (∀ d, cell (tree w') (Lnk a d) = cell (tree w) (Lnk a d)) ∧
                bal (tree w') a = bal (tree w) a) →
  (brk w ≤ brk w')%nat → space_inv w' sp l.
Proof.
  intros [Hh Hs Hw Hb] Hm Hc Ht Hbrk. split.
  - apply (holds_rank (mdb_avl (mem w))).
    + intros a Ha. simpl. symmetry. by apply Hm.
    + destruct Hh as (t&Hr&Hb'&Ha&<-&Hq). exists t. split_and!; try done.
      by apply (rep_moved (tree w) _ (Root sp)).
  - intros a c Ha Hc' He. apply Hs; [done..|]. simpl in *. unfold mdb_equal in *.
    destruct (Hm a Ha) as [<- <-]. destruct (Hm c Hc') as [<- <-]. done.
  - intros a Ha. destruct (Hm a Ha) as [Hba Ho]. unfold region_wf. rewrite Hba, Ho. by apply Hw.
  - intros a Ha. specialize (Hb a Ha). lia.
Qed.

(** A new node is in no space and changes none. *)
Lemma new_mdb_spec s p b o a t sub depth w x w' :
  new_mdb s p b o a t sub depth w = (x, w') →
  x = brk w ∧ brk w' = S (brk w) ∧ mem w' x = mdb_new x s p b o a t sub depth ∧
  (∀ y, y ≠ x → mem w' y = mem w y) ∧ fresh_node (tree w') x ∧
  (∀ sp l, space_inv w sp l → space_inv w' sp l ∧ x ∉ l).
Proof.
  intros [= <- <-]. simpl. split_and!; [done|done|apply upd_at|intros y Hy; by apply upd_ne| |].
  - split; [intros []|]; by look.
  - intros sp l Hi.
    assert (∀ c, c ∈ l → c ≠ brk w) as Hne.
    { intros c Hc ->. pose proof (si_brk _ _ _ Hi _ Hc). lia. }
    split; [|intros Hin; by apply (Hne _ Hin)].
    apply (space_inv_update w); simpl; [done| |by look| |lia].
    + intros c Hc. rewrite upd_ne; [done|]. intros <-. by apply (Hne (brk w)).
    + intros c Hc. specialize (Hne c Hc). split; [intros []|]; by look.
Qed.

(** ** Partition into blocks *)

(** The blocks that [addreg] creates. *)
Fixpoint blocks (fuel : nat) (addr size : Z) : option (list (Z * Z)) :=
  match fuel with
  | O => None
  | S fuel =>
    if size =? 0 then Some []
    else
      let o := max_order addr size in
      bs ← blocks fuel (addr + (1 << o))%W (size - (1 << o))%W;
      Some ((addr, o) :: bs)
  end.

(** Consecutive aligned blocks that fill [[addr, addr + size)]. *)
Fixpoint tiling (addr size : Z) (bs : list (Z * Z)) : Prop :=
  match bs with
  | [] => size = 0
  | (b, o) :: bs =>
    b = addr ∧ 0 ≤ o < 64 ∧ addr mod 2 ^ o = 0 ∧ 2 ^ o ≤ size ∧
    tiling (addr + 2 ^ o) (size - 2 ^ o) bs
  end.

(** One round of the loop. *)
Lemma blocks_step fuel addr size :
  0 ≤ addr → 0 < size → addr + size < 2 ^ 64 →
  let o := max_order addr size in
  0 ≤ o < 64 ∧ addr mod 2 ^ o = 0 ∧ 0 < 2 ^ o ≤ size ∧
  (∀ o', 0 ≤ o' → addr mod 2 ^ o' = 0 → 2 ^ o' ≤ size → o' ≤ o) ∧
  blocks (S fuel) addr size =
    (bs ← blocks fuel (addr + 2 ^ o) (size - 2 ^ o); Some ((addr, o) :: bs)).
Proof.
  intros Ha Hs Hsum o. destruct (max_order_spec addr size) as (Ho&Hmod&Hle&Hmax);
    [unfold word; lia..|]. fold o in Ho, Hmod, Hle, Hmax.
  assert (0 < 2 ^ o) by (apply Z.pow_pos_nonneg; lia).
  split_and!; try done; try lia. simpl. rewrite (proj2 (Z.eqb_neq size 0)) by lia. fold o.
  rewrite wshl_1, wadd_small, wsub_small by lia. done.
Qed.

Lemma mod_pow2_le a o o' : 0 ≤ o' ≤ o → a mod 2 ^ o = 0 → a mod 2 ^ o' = 0.
Proof.
  intros Ho Ha. apply Z.mod_divide; [apply Z.pow_nonzero; lia|].
  apply Z.mod_divide in Ha; [|apply Z.pow_nonzero; lia].
  apply (Z.divide_trans _ (2 ^ o)); [|done]. exists (2 ^ (o - o')).
  rewrite <-Z.pow_add_r by lia. f_equal. lia.
Qed.

Lemma mod_pow2_add a o : 0 ≤ o → a mod 2 ^ o = 0 → (a + 2 ^ o) mod 2 ^ o = 0.
Proof.
  intros Ho Ha. assert (2 ^ o ≠ 0) by (apply Z.pow_nonzero; lia).
  replace (a + 2 ^ o) with (a + 1 * 2 ^ o) by lia. by rewrite Z.mod_add.
Qed.

(** An address aligned to [2^o] only: the next block starts at [2^(o+1)]. *)
Lemma mod_pow2_carry a o :
  0 ≤ o → a mod 2 ^ o = 0 → a mod 2 ^ (o + 1) ≠ 0 → (a + 2 ^ o) mod 2 ^ (o + 1) = 0.
Proof.
  intros Ho Ha Hne. assert (0 < 2 ^ o) by (apply Z.pow_pos_nonneg; lia).
  rewrite Z.pow_add_r, Z.pow_1_r in * by lia.
  apply Z.mod_divide in Ha; [|lia]. destruct Ha as [k ->].
  replace (k * 2 ^ o + 2 ^ o) with ((k + 1) * 2 ^ o) by lia.
  rewrite (Z.mul_comm k), Zmult_mod_distr_l in Hne. rewrite (Z.mul_comm (k + 1)), Zmult_mod_distr_l.
  assert (k mod 2 = 1) as Hk.
  { pose proof (Z.mod_pos_bound k 2 ltac:(lia)). destruct (Z.eq_dec (k mod 2) 0) as [He|]; [|lia].
    rewrite He in Hne. lia. }
  assert ((k + 1) mod 2 = 0) as -> by (rewrite Zplus_mod, Hk; done). lia.
Qed.

(** Once the size limits the blocks, their orders fall. *)
Lemma blocks_falling j : ∀ fuel addr size,
  0 ≤ addr → 0 ≤ size → addr + size < 2 ^ 64 →
  size < 2 ^ Z.of_nat (S j) → addr mod 2 ^ Z.of_nat j = 0 → (S (S j) ≤ fuel)%nat →
  ∃ bs, blocks fuel addr size = Some bs ∧ tiling addr size bs ∧ (length bs ≤ S j)%nat.
Proof.
  induction j as [|j IH]; intros fuel addr size Ha Hs Hsum Hlt Hmod Hf;
    (destruct (Z.eq_dec size 0) as [->|Hne];
      [destruct fuel; [lia|]; exists []; split_and!; [done..|simpl; lia]|]);
    (destruct fuel as [|fuel]; [lia|]).
  - assert (size = 1) as -> by (simpl in Hlt; lia).
    destruct (blocks_step fuel addr 1) as (Ho&Hm&Hle&_&->); [lia..|].
    set (o := max_order addr 1) in *. assert (2 ^ o = 1) as Ho1 by lia.
    rewrite Ho1. destruct fuel; [lia|]. exists [(addr, o)]. split_and!; [done| |simpl; lia].
    simpl. rewrite Ho1. split_and!; try done; lia.
  - destruct (Z.lt_ge_cases size (2 ^ Z.of_nat (S j))) as [Hsm|Hbig].
    + destruct (IH (S fuel) addr size) as (bs&Hb&Ht&Hl); try done; [|lia|].
      * apply (mod_pow2_le _ (Z.of_nat (S j))); [lia|done].
      * exists bs. split_and!; [done|done|lia].
    + destruct (blocks_step fuel addr size) as (Ho&Hm&Hle&Hmax&Hstep); [lia..|].
      rewrite Hstep. set (o := max_order addr size) in *.
      assert (o = Z.of_nat (S j)) as Hoj.
      { specialize (Hmax (Z.of_nat (S j)) ltac:(lia) Hmod Hbig).
        destruct (Z.le_gt_cases o (Z.of_nat (S j))); [lia|].
        assert (2 ^ Z.of_nat (S (S j)) ≤ 2 ^ o) by (apply Z.pow_le_mono_r; lia). lia. }
      assert (2 ^ Z.of_nat (S (S j)) = 2 * 2 ^ Z.of_nat (S j)) as Hpow
        by (rewrite <-Z.pow_succ_r by lia; f_equal; lia).
      destruct (IH fuel (addr + 2 ^ o) (size - 2 ^ o)) as (bs&Hb&Ht&Hl); [lia|lia|lia| | |lia|].
      { rewrite Hoj. lia. }
      { rewrite Hoj. apply (mod_pow2_le _ (Z.of_nat (S j))); [lia|]. apply mod_pow2_add; [lia|done]. }
      rewrite Hb. exists ((addr, o) :: bs). split_and!; [done| |simpl; lia].
      simpl. split_and!; try done; lia.
Qed.

(** Before that they rise with the alignment of the address. *)
Lemma blocks_rising k : ∀ fuel addr size,
  (k ≤ 64)%nat → 0 ≤ addr → 0 ≤ size → addr + size < 2 ^ 64 →
  addr mod 2 ^ Z.of_nat (64 - k) = 0 → (k + 66 ≤ fuel)%nat →
  ∃ bs, blocks fuel addr size = Some bs ∧ tiling addr size bs ∧ (length bs ≤ k + 65)%nat.
Proof.
  induction k as [|k IH]; intros fuel addr size Hk Ha Hs Hsum Hmod Hf;
    (destruct (Z.eq_dec size 0) as [->|Hne];
      [destruct fuel; [lia|]; exists []; split_and!; [done..|simpl; lia]|]);
    (destruct fuel as [|fuel]; [lia|]);
    destruct (blocks_step fuel addr size) as (Ho&Hm&Hle&Hmax&Hstep); try lia;
    set (o := max_order addr size) in *.
  - (* the address is 0 *)
    assert (addr = 0) as -> by (rewrite Z.mod_small in Hmod; simpl; lia).
    destruct (blocks_falling 63 (S fuel) 0 size) as (bs&Hb&Ht&Hl); try done; try lia.
    exists bs. split_and!; [done|done|lia].
  - destruct (Z.lt_ge_cases size (2 ^ (o + 1))) as [Hlim|Hbig].
    + destruct (blocks_falling (Z.to_nat o) (S fuel) addr size) as (bs&Hb&Ht&Hl); try lia.
      * rewrite Nat2Z.inj_succ, Z2Nat.id by lia. done.
      * by rewrite Z2Nat.id by lia.
      * exists bs. split_and!; [done|done|lia].
    + assert (addr mod 2 ^ (o + 1) ≠ 0) as Hna.
      { intros Hz. specialize (Hmax (o + 1) ltac:(lia) Hz Hbig). lia. }
      assert (Z.of_nat (64 - S k) ≤ o) as Hko.
      { apply Hmax; [lia|done|].
        destruct (Z.le_gt_cases (Z.of_nat (64 - S k)) (o + 1)).
        - etransitivity; [apply (Z.pow_le_mono_r 2 _ (o + 1)); lia|done].
        - exfalso. apply Hna. apply (mod_pow2_le _ (Z.of_nat (64 - S k))); [lia|done]. }
      rewrite Hstep.
      destruct (IH fuel (addr + 2 ^ o) (size - 2 ^ o)) as (bs&Hb&Ht&Hl); try lia.
      { apply (mod_pow2_le _ (o + 1)); [lia|]. apply mod_pow2_carry; [lia|done..]. }
      rewrite Hb. exists ((addr, o) :: bs). split_and!; [done| |simpl; lia].
      simpl. split_and!; try done; lia.
Qed.

Lemma blocks_spec addr size :
  0 ≤ addr → 0 ≤ size → addr + size < 2 ^ 64 →
  ∃ bs, blocks addreg_fuel addr size = Some bs ∧ tiling addr size bs ∧ (length bs ≤ 129)%nat.
Proof.
  intros Ha Hs Hsum. apply (blocks_rising 64); try done; [|unfold addreg_fuel; lia].
  by rewrite Z.mod_1_r.
Qed.

(** ** Adding and deleting regions *)

(** A node as [addreg] creates it. *)
Definition plain_region (m : memory) (attr type : Z) (x : obj) : Prop :=
  node_phys (m x) = node_base (m x) ∧ node_attr (m x) = attr ∧ node_type (m x) = type ∧
  node_sub (m x) = 0 ∧ dpth (m x) = 0 ∧ prnt (m x) = None.

(** From [w], where space [sp] holds [l], the nodes of [l'] were added. *)
Record grown (sp : nat) (attr type : Z) (w : spaces) (l : list obj) (w' : spaces) (l' : list obj) :
    Prop := {
  gr_inv : space_inv w' sp l';
  gr_keep x : x ∈ l → x ∈ l';
  gr_new x : x ∈ l' → x ∈ l ∨ ((brk w ≤ x)%nat ∧ plain_region (mem w') attr type x);
  gr_mem x : (x < brk w)%nat → mem w' x = mem w x;
  gr_brk : (brk w ≤ brk w')%nat;
  gr_others sp' l2 : sp' ≠ sp → (∀ a, a ∈ l2 → a ∉ l) → space_inv w sp' l2 → space_inv w' sp' l2;
}.

Lemma grown_refl sp attr type w l : space_inv w sp l → grown sp attr type w l w l.
Proof. intros Hi. split; auto. Qed.

Lemma grown_trans sp attr type w l w1 l1 w2 l2 :
  grown sp attr type w l w1 l1 → grown sp attr type w1 l1 w2 l2 → grown sp attr type w l w2 l2.
Proof.
  intros G1 G2. pose proof (gr_brk _ _ _ _ _ _ _ G1). pose proof (gr_brk _ _ _ _ _ _ _ G2).
  split.
  - apply G2.
  - intros x Hx. by apply G2, G1.
  - intros x Hx. destruct (gr_new _ _ _ _ _ _ _ G2 x Hx) as [Hx1|[Hb Hp]].
    + destruct (gr_new _ _ _ _ _ _ _ G1 x Hx1) as [|[Hb Hp]]; [by left|]. right.
      split; [done|]. unfold plain_region in *.
      rewrite (gr_mem _ _ _ _ _ _ _ G2); [done|]. by apply (gr_inv _ _ _ _ _ _ _ G1).
    + right. split; [lia|done].
  - intros x Hx. rewrite (gr_mem _ _ _ _ _ _ _ G2) by lia. by apply (gr_mem _ _ _ _ _ _ _ G1).
  - lia.
  - intros sp' k Hne Hd Hk. apply (gr_others _ _ _ _ _ _ _ G2); [done| |by apply G1].
    intros a Ha Ha1. destruct (gr_new _ _ _ _ _ _ _ G1 a Ha1) as [|[Hb _]]; [by apply (Hd a)|].
    pose proof (si_brk _ _ _ Hk a Ha). lia.
Qed.

Lemma covered_ext m m' l p :
  (∀ a, a ∈ l → m' a = m a) → covered m' l p ↔ covered m l p.
Proof.
  intros Hm. unfold covered, region.
  split; intros (x&Hx&Hp); exists x; (split; [done|]); by rewrite Hm in *.
Qed.

(** One block. *)
Lemma add_block sp addr o attr type w l x w1 :
  space_inv w sp l → few l → 0 ≤ o < 64 → addr mod 2 ^ o = 0 →
  (∀ p, addr ≤ p < addr + 2 ^ o → ¬ covered (mem w) l p) →
  new_mdb None addr addr o attr type 0 0 w = (x, w1) →
  ∃ w' l', insert_at sp x w1 = Some (true, w') ∧ grown sp attr type w l w' l' ∧
    length l' = S (length l) ∧
    ∀ p, covered (mem w') l' p ↔ covered (mem w) l p ∨ addr ≤ p < addr + 2 ^ o.
Proof.
  intros Hi Hl Ho Hmod Hfree Hnew.
  destruct (new_mdb_spec _ _ _ _ _ _ _ _ w x w1 Hnew) as (Hx&Hbrk&Hmx&Hmem&Hfresh&Hkeep).
  destruct (Hkeep sp l Hi) as [Hi1 Hxl].
  assert (region_wf (mem w1) x) as Hwf by (unfold region_wf; rewrite Hmx; split; [simpl; lia|done]).
  assert (∀ p, region (mem w1) x p ↔ addr ≤ p < addr + 2 ^ o) as Hreg by (unfold region; by rewrite Hmx).
  assert (∀ a, a ∈ l → mem w1 a = mem w a) as Hml by (intros a Ha; apply Hmem; by intros ->).
  pose proof (insert_at_run w1 sp l x Hi1 Hl Hwf Hfresh Hxl ltac:(lia)) as Hins.
  assert (existsb (mdb_equal (mem w1) x) l = false) as He.
  { apply existsb_overlap; [done|by apply Hi1|]. intros y p Hy Hpx Hpy. apply Hreg in Hpx.
    apply (Hfree p Hpx). apply (covered_ext _ (mem w1)); [done|]. by exists y. }
  rewrite He in Hins. destruct Hins as (t&l1&l2&Hins&Hll&Hi'&Hel).
  exists (set_tree t w1), (l1 ++ x :: l2).
  assert (∀ a, a ∈ l1 ++ x :: l2 ↔ a = x ∨ a ∈ l) as Hin.
  { intros a. rewrite Hll, !elem_of_app, elem_of_cons. tauto. }
  split; [done|]. split; [split|split].
  - done.
  - intros a Ha. apply Hin. by right.
  - intros a [->|Ha]%Hin; [right|by left]. split; [lia|]. unfold plain_region. simpl. by rewrite Hmx.
  - intros a Ha. apply Hmem. lia.
  - simpl. lia.
  - intros sp' k Hne Hd Hk. destruct (Hkeep sp' k Hk) as [Hk1 Hxk].
    apply (space_inv_elsewhere _ _ sp _ _ (x :: l)); try done.
    intros a Ha [->|Hal]%elem_of_cons; [done|]. by apply (Hd a).
  - rewrite Hll, !length_app. simpl. lia.
  - intros p. simpl. split.
    + intros (y&[->|Hy]%Hin&Hp); [right; by apply Hreg|left].
      apply (covered_ext _ (mem w1)); [done|]. by exists y.
    + intros [Hc|Hp].
      * apply (covered_ext _ (mem w1)) in Hc; [|done]. destruct Hc as (y&Hy&Hp). exists y.
        split; [apply Hin; by right|done].
      * exists x. split; [apply Hin; by left|by apply Hreg].
Qed.

Lemma addreg_loop_run sp attr type bs : ∀ fuel addr size w l,
  blocks fuel addr size = Some bs → tiling addr size bs → space_inv w sp l →
  Z.of_nat (length l + length bs) < 2 ^ 64 → 0 ≤ addr → 0 ≤ size → addr + size < 2 ^ 64 →
  (∀ p, addr ≤ p < addr + size → ¬ covered (mem w) l p) →
  ∃ w' l', addreg_loop fuel sp addr size attr type w = Some w' ∧ grown sp attr type w l w' l' ∧
    length l' = (length l + length bs)%nat ∧
    ∀ p, covered (mem w') l' p ↔ covered (mem w) l p ∨ addr ≤ p < addr + size.
Proof.
  induction bs as [|[b o] bs IH]; intros [|fuel] addr size w l Hb Ht Hi Hlen Ha Hs Hsum Hfree; try done.
  - simpl in Ht. subst size. exists w, l. split_and!; [done|by apply grown_refl|simpl; lia|].
    intros p. split; [by left|]. intros [|]; [done|lia].
  - destruct (Z.eq_dec size 0) as [->|Hne]; [simpl in Hb; by destruct fuel|].
    destruct (blocks_step fuel addr size) as (Ho&Hm&Hle&_&Hstep); [lia..|].
    rewrite Hstep in Hb. set (o' := max_order addr size) in *.
    destruct (blocks fuel (addr + 2 ^ o') (size - 2 ^ o')) as [bs'|] eqn:Hbs; [|done].
    injection Hb as <- <- <-. simpl in Ht. destruct Ht as (_&_&_&_&Ht).
    destruct (new_mdb None addr addr o' attr type 0 0 w) as [x w1] eqn:Hnew.
    destruct (add_block sp addr o' attr type w l x w1) as (w2&l2&Hins&Hg&Hl2&Hc); try done.
    { unfold few. lia. }
    { intros p Hp. apply Hfree. lia. }
    destruct (IH fuel (addr + 2 ^ o') (size - 2 ^ o') w2 l2) as (w'&l'&Hrun&Hg'&Hl'&Hc');
      try done; try lia.
    { apply Hg. }
    { rewrite Hl2. simpl in Hlen. lia. }
    { intros p Hp [Hcp|Hcp]%Hc; [|lia]. apply (Hfree p); [lia|done]. }
    exists w', l'. split_and!.
    + cbn [addreg_loop]. rewrite (proj2 (Z.eqb_neq size 0)) by done. fold o'. rewrite Hnew, Hins.
      cbn [mbind option_bind]. by rewrite wshl_1, wadd_small, wsub_small by lia.
    + by apply (grown_trans _ _ _ _ _ w2 l2).
    + rewrite Hl', Hl2. simpl. lia.
    + intros p. rewrite Hc', Hc. intuition lia.
Qed.

Lemma addreg_run sp addr size attr type w l :
  space_inv w sp l → Z.of_nat (length l) + 129 < 2 ^ 64 →
  0 ≤ addr → 0 ≤ size → addr + size < 2 ^ 64 →
  (∀ p, addr ≤ p < addr + size → ¬ covered (mem w) l p) →
  ∃ w' l', addreg sp addr size attr type w = Some w' ∧ grown sp attr type w l w' l' ∧
    (length l' ≤ length l + 129)%nat ∧
    ∀ p, covered (mem w') l' p ↔ covered (mem w) l p ∨ addr ≤ p < addr + size.
Proof.
  intros Hi Hlen Ha Hs Hsum Hfree. destruct (blocks_spec addr size Ha Hs Hsum) as (bs&Hb&Ht&Hl).
  destruct (addreg_loop_run sp attr type bs addreg_fuel addr size w l) as (w'&l'&Hrun&Hg&Hl'&Hc);
    try done; [lia|]. exists w', l'. split_and!; [done|done|lia|done].
Qed.

Lemma covered_removed m l1 x l2 p :
  covered m (l1 ++ x :: l2) p ↔ covered m (l1 ++ l2) p ∨ region m x p.
Proof.
  unfold covered. setoid_rewrite elem_of_app. setoid_rewrite elem_of_cons. split.
  - intros (y&[Hy|[->|Hy]]&Hp); [left; eauto|by right|left; eauto].
  - intros [(y&Hy&Hp)|Hp]; [exists y; tauto|exists x; tauto].
Qed.

Lemma removed_disjoint w sp l1 x l2 p :
  space_inv w sp (l1 ++ x :: l2) → NoDup (l1 ++ x :: l2) → region (mem w) x p →
  ¬ covered (mem w) (l1 ++ l2) p.
Proof.
  intros Hi Hnd Hp (y&Hy&Hpy). assert (y = x) as ->.
  { apply (region_unique w sp (l1 ++ x :: l2) y x p); try done;
      rewrite elem_of_app in *; rewrite elem_of_cons; tauto. }
  apply NoDup_Permutation_proper with (x := l1 ++ x :: l2) (y := x :: l1 ++ l2) in Hnd;
    [|by rewrite Permutation_middle].
  by apply list.NoDup_cons in Hnd as [Hnd _].
Qed.

Lemma space_NoDup w sp l : space_inv w sp l → NoDup l.
Proof. intros Hi. destruct (si_holds _ _ _ Hi) as (t&_&Hb&_&<-&_). apply wf_NoDup. by apply bst_wf in Hb. Qed.

Lemma find_first (f : obj → bool) (R : obj → obj → Prop) l x :
  StronglySorted R l → List.find f l = Some x → x ∈ l ∧ f x = true ∧ ∀ y, y ∈ l → f y = true → y = x ∨ R x y.
Proof.
  induction l as [|a l IH]; [done|]. rewrite StronglySorted_cons, list.Forall_forall.
  intros [Ha Hs]. simpl. destruct (f a) eqn:Hf.
  - intros [= <-]. split_and!; [left|done|]. intros y [->|Hy]%elem_of_cons _; auto.
  - intros Hfind. destruct (IH Hs Hfind) as (Hx&Hfx&Hall). split_and!; [by right|done|].
    intros y [->|Hy]%elem_of_cons Hfy; [congruence|auto].
Qed.

Lemma find_none_out (f : obj → bool) l y : List.find f l = None → y ∈ l → f y = false.
Proof. intros Hf Hy. apply (List.find_none _ _ Hf). by apply list_elem_of_In. Qed.

(** [Space::tree_lookup] finds the region that contains an address.  When
    no region does, the search for the next region gives the region with the
    lowest base above the address, and nothing if there is none; without
    [next] nothing is found. *)
Theorem tree_lookup_spec w sp l idx nx :
  space_inv w sp l → few l →
  ∃ r, tree_lookup sp idx nx w = Some r ∧
  match r with
  | Some x =>
    x ∈ l ∧ (region (mem w) x idx ∨
      nx = true ∧ ¬ covered (mem w) l idx ∧ idx < node_base (mem w x) ∧
      ∀ y, y ∈ l → idx ≤ node_base (mem w y) → node_base (mem w x) ≤ node_base (mem w y))
  | None =>
    ¬ covered (mem w) l idx ∧ (nx = true → ∀ y, y ∈ l → node_base (mem w y) < idx)
  end.
Proof.
  intros Hi Hl. eexists. split; [by eapply tree_lookup_run|]. unfold lookup_result.
  destruct (si_holds _ _ _ Hi) as (t&_&Hb&_&Ht&_). apply bst_inorder in Hb. rewrite Ht in Hb.
  assert (∀ y, y ∈ l → covers (mem w) idx y = true ↔ region (mem w) y idx) as Hcov.
  { intros y Hy. apply covers_region. by apply Hi. }
  destruct (List.find (covers (mem w) idx) l) as [x|] eqn:Hf.
  - destruct (find_first _ _ _ _ Hb Hf) as (Hx&Hcx&_). split; [done|]. left. by apply Hcov.
  - assert (¬ covered (mem w) l idx) as Hno.
    { intros (y&Hy&Hp). apply Hcov in Hp; [|done]. by rewrite (find_none_out _ _ y Hf) in Hp. }
    destruct nx; [|by split].
    destruct (List.find (λ x, idx <=? node_base (mem w x)) l) as [x|] eqn:Hg.
    + destruct (find_first _ _ _ _ Hb Hg) as (Hx&Hge%Z.leb_le&Hall). split; [done|]. right.
      split_and!; [done|done| |].
      * destruct (Z.eq_dec idx (node_base (mem w x))) as [He|]; [|lia]. exfalso. apply Hno.
        exists x. split; [done|]. unfold region. rewrite He.
        assert (0 < 2 ^ node_order (mem w x)) by (apply Z.pow_pos_nonneg; [lia|by apply Hi]). lia.
      * intros y Hy Hge'. destruct (Hall y Hy) as [->|Hlt]; [by apply Z.leb_le|lia|].
        unfold below in Hlt. simpl in Hlt. lia.
    + split; [done|]. intros _ y Hy. pose proof (find_none_out _ _ y Hg Hy) as Hge.
      by apply Z.leb_gt in Hge.
Qed.

(** C26: [Space::tree_insert] takes a node into its space exactly when its
    region overlaps none there.  The space then covers the region as well, and
    holds the new node and the old ones; a refused node changes nothing.  Other
    spaces are not affected. *)
Theorem tree_insert_spec w sp l x :
  space_inv w sp l → few l → space (mem w x) = Some sp → region_wf (mem w) x →
  fresh_node (tree w) x → x ∉ l → (x < brk w)%nat →
  (disjoint_from (mem w) x l →
   ∃ w' l', tree_insert x w = Some (true, w') ∧ space_inv w' sp l' ∧ l' ≡ₚ x :: l ∧ mem w' = mem w ∧
     ∀ sp' k, sp' ≠ sp → (∀ a, a ∈ k → a ∉ x :: l) → space_inv w sp' k → space_inv w' sp' k) ∧
  (¬ disjoint_from (mem w) x l → tree_insert x w = Some (false, w)).
Proof.
  intros Hi Hl Hsp Hwf Hf Hx Hb. unfold tree_insert. rewrite Hsp. cbn [mbind option_bind].
  pose proof (insert_at_run w sp l x Hi Hl Hwf Hf Hx Hb) as Hins.
  rewrite <-existsb_overlap by (done || apply Hi).
  destruct (existsb (mdb_equal (mem w) x) l); (split; [intros Hd; try done|intros Hd; try done]).
  destruct Hins as (t&l1&l2&->&->&Hi'&Hel). exists (set_tree t w), (l1 ++ x :: l2).
  split_and!; try done; [by rewrite Permutation_middle|].
  intros sp' k Hne Hk Hik. by apply (space_inv_elsewhere _ _ sp _ _ (x :: l1 ++ l2)).
Qed.

(** C27: [Space::tree_remove] takes a node out of its space; the others stay,
    and so do all other spaces. *)
Theorem tree_remove_spec w sp l x :
  space_inv w sp l → few l → space (mem w x) = Some sp → x ∈ l →
  ∃ w' l', tree_remove x w = Some (true, w') ∧ space_inv w' sp l' ∧ l ≡ₚ x :: l' ∧ mem w' = mem w ∧
    (∀ p, covered (mem w') l' p ↔ covered (mem w) l p ∧ ¬ region (mem w) x p) ∧
    ∀ sp' k, sp' ≠ sp → (∀ a, a ∈ k → a ∉ l) → space_inv w sp' k → space_inv w' sp' k.
Proof.
  intros Hi Hl Hsp Hx. unfold tree_remove. rewrite Hsp. cbn [mbind option_bind].
  destruct (remove_at_run w sp l x Hi Hl Hx) as (t&l1&l2&->&->&Hi'&Hel).
  exists (set_tree t w), (l1 ++ l2). split_and!; try done; [by rewrite Permutation_middle| |].
  - intros p. simpl. rewrite covered_removed. split; [|tauto]. intros Hc. split; [by left|].
    intros Hp. by apply (removed_disjoint w sp l1 x l2 p Hi (space_NoDup _ _ _ Hi) Hp).
  - intros sp' k Hne Hk Hik. by apply (space_inv_elsewhere _ _ sp _ _ (l1 ++ x :: l2)).
Qed.

(** C24: [Space::addreg] covers a free range exactly: after it the space covers
    what it covered before and every address of the range, by new regions that
    are aligned to their size, disjoint, mapped to themselves and of the given
    attributes and type.  At most 129 regions are created, nodes that existed
    are unchanged and so are other spaces. *)
Theorem addreg_covers sp addr size attr type w l :
  space_inv w sp l → Z.of_nat (length l) + 129 < 2 ^ 64 →
  0 ≤ addr → 0 ≤ size → addr + size < 2 ^ 64 →
  (∀ p, addr ≤ p < addr + size → ¬ covered (mem w) l p) →
  ∃ w' l', addreg sp addr size attr type w = Some w' ∧ grown sp attr type w l w' l' ∧
    (length l' ≤ length l + 129)%nat ∧
    ∀ p, covered (mem w') l' p ↔ covered (mem w) l p ∨ addr ≤ p < addr + size.
Proof.
  intros Hi Hlen Ha Hs Hsum Hfree. destruct (blocks_spec addr size Ha Hs Hsum) as (bs&Hb&Ht&Hl).
  destruct (addreg_loop_run sp attr type bs addreg_fuel addr size w l) as (w'&l'&Hrun&Hg&Hl'&Hc);
    try done; [lia|]. exists w', l'. split_and!; [done|done|lia|done].
Qed.

(** The two halves around page [a] of a region that was removed. *)
Lemma addreg_around sp a b o attr type w l :
  space_inv w sp l → Z.of_nat (length l) + 258 < 2 ^ 64 →
  0 ≤ b → 0 ≤ o < 64 → b + 2 ^ o < 2 ^ 64 → b ≤ a < b + 2 ^ o →
  (∀ p, b ≤ p < b + 2 ^ o → ¬ covered (mem w) l p) →
  ∃ w' l', (w ← addreg sp b (a - b)%W attr type w;
            addreg sp (a + 1)%W (b + (1 << o) - (a + 1))%W attr type w) = Some w' ∧
    grown sp attr type w l w' l' ∧
    ∀ p, covered (mem w') l' p ↔ covered (mem w) l p ∨ (b ≤ p < b + 2 ^ o ∧ p ≠ a).
Proof.
  intros Hi Hlen Hb Ho Hlast Ha Hfree.
  rewrite wshl_1, (wadd_small b), (wadd_small a 1), (wsub_small a b), wsub_small by lia.
  destruct (addreg_run sp b (a - b) attr type w l) as (w2&k2&->&Hg2&Hl2&Hc2); try done; try lia.
  { intros p Hp. apply Hfree. lia. }
  cbn [mbind option_bind].
  destruct (addreg_run sp (a + 1) (b + 2 ^ o - (a + 1)) attr type w2 k2) as (w3&k3&->&Hg3&_&Hc3);
    try lia; [apply Hg2| |].
  { intros p Hp [Hc|Hc]%Hc2; [|lia]. apply (Hfree p); [lia|done]. }
  exists w3, k3. split; [done|]. split; [by apply (grown_trans _ _ _ _ _ w2 k2)|].
  intros p. rewrite Hc3, Hc2. split.
  - intros [[Hc|Hc]|Hc]; [by left|right; lia..].
  - intros [Hc|[Hp Hne]]; [by left; left|].
    destruct (Z.lt_ge_cases p a); [left; right; lia|right; lia].
Qed.

Lemma delreg_found sp addr w l n :
  space_inv w sp l → Z.of_nat (length l) + 258 < 2 ^ 64 → n ∈ l →
  tree_lookup sp (addr >> PAGE_BITS)%W false w = Some (Some n) →
  region (mem w) n (addr >> PAGE_BITS)%W →
  0 ≤ node_base (mem w n) → node_base (mem w n) + 2 ^ node_order (mem w n) < 2 ^ 64 →
  node_order (mem w n) < 64 →
  ∃ w' l', delreg sp addr w = Some w' ∧ space_inv w' sp l' ∧
    (∀ p, covered (mem w') l' p ↔ covered (mem w) l p ∧ p ≠ (addr >> PAGE_BITS)%W) ∧
    (∀ x, x ∈ l' → x ∈ l ∧ mem w' x = mem w x ∨
                   plain_region (mem w') (node_attr (mem w n)) (node_type (mem w n)) x).
Proof.
  intros Hi Hlen Hn Hlook Hcov Hb0 Hlast Ho64. unfold delreg. rewrite Hlook, bind_some.
  cbv beta iota zeta. set (a := (addr >> PAGE_BITS)%W) in *.
  assert (few l) as Hfew by (unfold few; lia).
  destruct (remove_at_run w sp l n Hi Hfew Hn) as (t&l1&l2&->&->&Hi1&_).
  rewrite bind_some. cbv beta iota. destruct (si_wf _ _ _ Hi n Hn) as [Ho _].
  pose proof (removed_disjoint w sp l1 n l2) as Hdis.
  rewrite length_app in Hlen. cbn [length] in Hlen.
  destruct (addreg_around sp a (node_base (mem w n)) (node_order (mem w n)) (node_attr (mem w n))
    (node_type (mem w n)) (set_tree t w) (l1 ++ l2)) as (w'&l'&Hrun&Hg&Hc); try done.
  { rewrite length_app. lia. }
  { intros p Hp. by apply Hdis; [|by eapply space_NoDup|]. }
  change (mem (set_tree t w)) with (mem w). rewrite Hrun.
  exists w', l'. split; [reflexivity|]. split; [apply Hg|]. split.
  - intros p. rewrite Hc, covered_removed. change (mem (set_tree t w)) with (mem w). unfold region.
    split.
    + intros [Hcp|[Hp Hne]]; [|by auto]. split; [by left|]. intros ->.
      by apply (Hdis a Hi (space_NoDup _ _ _ Hi) Hcov).
    + intros [[Hcp|Hp] Hne]; auto.
  - intros x Hx. destruct (gr_new _ _ _ _ _ _ _ Hg x Hx) as [Hold|[_ Hp]]; [left|by right].
    rewrite (gr_mem _ _ _ _ _ _ _ Hg); [|by apply (si_brk _ _ _ Hi1)].
    rewrite elem_of_app in *. rewrite elem_of_cons. tauto.
Qed.

(** C25: [Space::delreg] takes exactly one page out of a space: every other
    address stays covered, by untouched regions or by new ones with the
    attributes and type of the region that was split.  A page that is not
    covered changes nothing. *)
Theorem delreg_punches sp addr w l :
  space_inv w sp l → Z.of_nat (length l) + 258 < 2 ^ 64 →
  (∀ x, x ∈ l → 0 ≤ node_base (mem w x) ∧
                node_base (mem w x) + 2 ^ node_order (mem w x) < 2 ^ 64 ∧ node_order (mem w x) < 64) →
  let page := (addr >> PAGE_BITS)%W in
  ∃ w' l', delreg sp addr w = Some w' ∧ space_inv w' sp l' ∧
    (∀ p, covered (mem w') l' p ↔ covered (mem w) l p ∧ p ≠ page) ∧
    (∀ x, x ∈ l' → x ∈ l ∧ mem w' x = mem w x ∨
       ∃ n, n ∈ l ∧ region (mem w) n page ∧
            plain_region (mem w') (node_attr (mem w n)) (node_type (mem w n)) x).
Proof.
  intros Hi Hlen Hrange page. assert (few l) as Hfew by (unfold few; lia).
  pose proof (tree_lookup_run w sp l page false Hi Hfew) as Hlook. unfold lookup_result in Hlook.
  destruct (List.find (covers (mem w) page) l) as [n|] eqn:Hf.
  - apply List.find_some in Hf as [Hn Hcov]. apply list_elem_of_In in Hn.
    apply covers_region in Hcov; [|by apply Hi]. destruct (Hrange n Hn) as (Hb0&Hlast&Ho64).
    destruct (delreg_found sp addr w l n) as (w'&l'&Hrun&Hi'&Hc&Hx); try done.
    exists w', l'. split_and!; try done. intros x [|Hp]%Hx; [by left|right]. by exists n.
  - exists w, l. split_and!; [unfold delreg; fold page; by rewrite Hlook|done| |auto].
    intros p. split; [|tauto]. intros Hc. split; [done|]. intros ->. destruct Hc as (y&Hy&Hp).
    apply covers_region in Hp; [|by apply Hi]. by rewrite (find_none_out _ _ y Hf) in Hp.
Qed.

(** ** A space with one region

    Node 0 covers the pages 16 to 19; node 1 has been created for the pages 32
    to 35 and is not in the space yet. *)
Definition demo_mem : memory := λ n,
  mdb_new n (Some 0%nat) 16 (if decide (n = 0%nat) then 16 else 32) 2 7 6 0 0.
Definition demo_tree : astore :=
  AStore (λ q, if decide (q = Root 0) then Some 0%nat else None) (λ _, 2).
Definition demo : spaces := Spaces demo_mem demo_tree 2.

Lemma demo_inv : space_inv demo 0 [0%nat].
Proof.
  split.
  - exists (T E 0%nat 2 E). split; [by repeat split|]. split; [|split; [|by split; [|intros []]]].
    + split_and!; try done; intros a Ha; by apply not_elem_of_nil in Ha.
    + split_and!; [done|done|by left].
  - intros a b Ha%list_elem_of_singleton Hb%list_elem_of_singleton _. congruence.
  - intros x ->%list_elem_of_singleton. by split.
  - intros x ->%list_elem_of_singleton. simpl. lia.
Qed.

Lemma tree_lookup_spec_witness :
  tree_lookup 0 17 false demo = Some (Some 0%nat) ∧ tree_lookup 0 3 true demo = Some (Some 0%nat) ∧
  tree_lookup 0 20 true demo = Some None.
Proof.
  destruct (tree_lookup_spec demo 0 [0%nat] 17 false demo_inv ltac:(done)) as (r&Hr&_).
  split; [|by vm_compute]. rewrite Hr. vm_compute in Hr. by rewrite <-Hr.
Defined.

Lemma tree_insert_spec_witness :
  ∃ w' l', tree_insert 1 demo = Some (true, w') ∧ space_inv w' 0 l' ∧ l' ≡ₚ [1; 0]%nat.
Proof.
  destruct (tree_insert_spec demo 0 [0%nat] 1 demo_inv ltac:(done) eq_refl) as [Hins _].
  - by split.
  - by split; [intros []|].
  - by rewrite list_elem_of_singleton.
  - simpl. lia.
  - destruct Hins as (w'&l'&Hrun&Hi&Hp&_); [|by exists w', l'].
    intros y p ->%list_elem_of_singleton. unfold region. simpl. lia.
Defined.

Lemma tree_remove_spec_witness :
  ∃ w', tree_remove 0 demo = Some (true, w') ∧ space_inv w' 0 [].
Proof.
  destruct (tree_remove_spec demo 0 [0%nat] 0 demo_inv ltac:(done) eq_refl) as (w'&l'&Hrun&Hi&Hp&_);
    [by left|].
  exists w'. split; [done|]. apply Permutation_length in Hp. by destruct l'.
Defined.

Lemma addreg_covers_witness :
  ∃ w' l', addreg 0 21 10 7 0 demo = Some w' ∧ (∀ p, 21 ≤ p < 31 → covered (mem w') l' p).
Proof.
  destruct (addreg_covers 0 21 10 7 0 demo [0%nat] demo_inv) as (w'&l'&Hrun&_&_&Hc); [done..| |].
  - intros p Hp (y&->%list_elem_of_singleton&Hy). unfold region in Hy. simpl in Hy. lia.
  - exists w', l'. split; [done|]. intros p Hp. apply Hc. by right.
Defined.

Lemma delreg_punches_witness :
  ∃ w' l', delreg 0 0x12345 demo = Some w' ∧ covered (mem w') l' 17 ∧ ¬ covered (mem w') l' 18.
Proof.
  destruct (delreg_punches 0 0x12345 demo [0%nat] demo_inv) as (w'&l'&Hrun&_&Hc&_); [done| |].
  - intros x ->%list_elem_of_singleton. simpl. lia.
  - exists w', l'. split; [done|]. rewrite !Hc. change (0x12345 >> PAGE_BITS)%W with 18.
    split; [|tauto]. split; [|done]. exists 0%nat. split; [by left|]. unfold region. simpl. lia.
Defined.

Lemma avl_insert_remove_witness :
  ∃ s1 s2, @Avl.insert (mdb_avl demo_mem) 10 (Root 0) 1 demo_tree = Some (true, s1) ∧
           @Avl.remove (mdb_avl demo_mem) 10 (Root 0) 1 s1 = Some (true, s2) ∧
           @holds (mdb_avl demo_mem) s2 (Root 0) [0%nat].
Proof.
  destruct (@avl_insert_remove (mdb_avl demo_mem) 10 demo_tree (Root 0) [0%nat] 1
    (si_holds _ _ _ demo_inv) (si_separated _ _ _ demo_inv)) as (s1&s2&_&_&Hi&_&_&_&Hr&Hh&_).
  - by split; [intros []|].
  - by rewrite list_elem_of_singleton.
  - done.
  - done.
  - vm_compute. lia.
  - by exists s1, s2.
Defined.
