(* ===== verification/Crd.v ===== *)
(** Capability range descriptors and capabilities: [Crd], [Xfer] of
    [include/crd.hpp], [Capability] of [include/capability.hpp] and [Qpd] of
    [include/qpd.hpp].

    Each is one word that packs several values. *)
From S2P Require Import Prelude.
Open Scope Z_scope.

Definition crd : Type := Z.

(** [Crd::Type]. *)
Inductive Type_ := MEM | PIO | OBJ.

Definition type_val (t : Type_) : Z := match t with MEM => 1 | PIO => 2 | OBJ => 3 end.

Definition crd_of (v : Z) : crd := v.
Definition crd_make (t b o a : Z) : crd := (b << 12 .| (o << 7) .| (a << 2) .| t)%W.

(** The arguments [Crd (t)] leaves out. *)
Definition crd_all (t : Z) : crd := crd_make t 0 0x1f 0x1f.

Definition type (c : crd) : Z := (c .& 0x3)%W.
Definition attr (c : crd) : Z := (c >> 2 .& 0x1f)%W.
Definition order (c : crd) : Z := (c >> 7 .& 0x1f)%W.
Definition base (c : crd) : Z := (c >> 12)%W.

Record xfer := Xfer { xcrd : crd; xval : Z }.

Definition flags (x : xfer) : Z := (xval x .& 0xfff)%W.
Definition hotspot (x : xfer) : Z := (xval x >> 12)%W.

(** A capability: the address of the object, which is aligned to 32 bytes, and
    five permission bits. *)
Definition perm : Z := 0x1f.
Definition cap_null : Z := 0.
Definition capability (o a : Z) : Z := if truthy a then (o .| (a .& perm))%W else 0.
Definition obj (c : Z) : Z := (c .& wnot perm)%W.
Definition prm (c : Z) : Z := (c .& perm)%W.

Definition quantum (q : Z) : Z := wrap 32 (q >> 12)%W.
Definition prio (q : Z) : Z := wrap 32 (q .& 0xff)%W.

(** ** Packed fields *)

(** A value [x] below a value [y] shifted by [n] bits. *)
Lemma field_split x y n :
  0 ≤ n → word n x → 0 ≤ y → Z.lor (Z.shiftl y n) x = y * 2 ^ n + x.
Proof.
  intros Hn Hx Hy. rewrite Z.shiftl_mul_pow2 by done.
  assert (Z.land (y * 2 ^ n) x = 0) as Hz.
  { apply Z.bits_inj'. intros i Hi. rewrite Z.land_spec, Z.bits_0.
    destruct (Z.lt_ge_cases i n).
    - by rewrite Z.mul_pow2_bits_low by done.
    - by rewrite (word_bits n x), andb_false_r by done. }
  by rewrite <-Z.lxor_lor, <-Z.add_nocarry_lxor by done.
Qed.

Lemma land_low x n : 0 ≤ n → Z.land x (2 ^ n - 1) = x mod 2 ^ n.
Proof. intros. rewrite <-ones_pow2 by done. by apply Z.land_ones. Qed.

Lemma crd_make_sum t b o a :
  word 2 t → word 52 b → word 5 o → word 5 a →
  crd_make t b o a = ((b * 2 ^ 5 + o) * 2 ^ 5 + a) * 2 ^ 2 + t.
Proof.
  intros Ht Hb Ho Ha. unfold word in *. unfold crd_make.
  rewrite !wshl_small by lia.
  rewrite <-!Z.lor_assoc.
  rewrite <-(Z.shiftl_mul_pow2 a 2), (field_split t a 2) by (unfold word in *; lia).
  rewrite <-(Z.shiftl_mul_pow2 o 7), (field_split _ o 7) by (unfold word in *; lia).
  rewrite <-(Z.shiftl_mul_pow2 b 12), (field_split _ b 12) by (unfold word in *; lia). lia.
Qed.

(** A descriptor packs type, base, order and rights without loss: reading
    the fields of a descriptor built from them gives them back, and every word
    is the descriptor built from its fields. *)
Theorem crd_roundtrip :
  (∀ t b o a, word 2 t → word 52 b → word 5 o → word 5 a →
    type (crd_make t b o a) = t ∧ base (crd_make t b o a) = b ∧
    order (crd_make t b o a) = o ∧ attr (crd_make t b o a) = a) ∧
  (∀ c, word 64 c → crd_make (type c) (base c) (order c) (attr c) = c).
Proof.
  split.
  - intros t b o a Ht Hb Ho Ha. unfold type, base, order, attr.
    rewrite crd_make_sum by done. unfold word in *.
    change 0x3 with (2 ^ 2 - 1). change 0x1f with (2 ^ 5 - 1).
    rewrite !land_low, !Z.shiftr_div_pow2 by lia. split_and!; Z.div_mod_to_equations; lia.
  - intros c Hc. unfold type, base, order, attr.
    change 0x3 with (2 ^ 2 - 1). change 0x1f with (2 ^ 5 - 1).
    rewrite !land_low, !Z.shiftr_div_pow2 by lia. unfold word in Hc.
    rewrite crd_make_sum; unfold word; Z.div_mod_to_equations; lia.
Qed.

Lemma crd_make_word t b o a : 0 ≤ t < 4 → word 64 (crd_make t b o a).
Proof.
  intros Ht. unfold crd_make. repeat apply lor_word; try lia; try apply wshl_word.
  unfold word. lia.
Qed.

(** A capability with rights keeps object and rights apart: for an object
    aligned to 32 bytes both read back; without rights the capability is null. *)
Theorem capability_roundtrip o a :
  word 64 o → o mod 32 = 0 → word 64 a →
  obj (capability o a) = (if truthy a then o else 0) ∧
  prm (capability o a) = (if truthy a then a mod 32 else 0).
Proof.
  intros Ho Hal Ha. unfold capability. destruct (truthy a); [|done].
  assert (Z.land o perm = 0) as Hz.
  { change perm with (2 ^ 5 - 1). rewrite land_low by lia. done. }
  unfold obj, prm. rewrite !Z.land_lor_distr_l, Hz.
  rewrite <-!Z.land_assoc. change (perm .& wnot perm)%W with 0. rewrite Z.land_diag, Z.land_0_r.
  split.
  - rewrite Z.lor_0_r. apply Z.bits_inj'. intros i Hi. rewrite Z.land_spec, wnot_bits by done.
    apply (f_equal (λ z, Z.testbit z i)) in Hz. rewrite Z.land_spec, Z.bits_0 in Hz.
    destruct (Z.leb_spec 0 i), (Z.ltb_spec i 64); try lia.
    + destruct (Z.testbit o i), (Z.testbit perm i); done.
    + by rewrite (word_bits 64 o) by (done || lia).
  - rewrite Z.lor_0_l. change perm with (2 ^ 5 - 1). by rewrite land_low by lia.
Qed.

Lemma crd_roundtrip_witness :
  type (crd_make 3 0x1000 4 0x1f) = 3 ∧ base (crd_make 3 0x1000 4 0x1f) = 0x1000 ∧
  order (crd_make 3 0x1000 4 0x1f) = 4 ∧ attr (crd_make 3 0x1000 4 0x1f) = 0x1f.
Proof. apply (proj1 crd_roundtrip); by vm_compute. Defined.

Lemma capability_roundtrip_witness :
  obj (capability 0xffff800000001000 7) = 0xffff800000001000 ∧
  prm (capability 0xffff800000001000 7) = 7.
Proof. apply (capability_roundtrip 0xffff800000001000 7); by vm_compute. Defined.
