(* ===== verification/Vregs.v ===== *)
(** Register state of execution contexts and virtual CPUs: [Sys_regs],
    [Exc_regs] and [Cpu_regs] of [include/regs.hpp] and [src/regs.cpp].

    The registers of a context are an array of words; the unions of the source
    are names for the same word.  A virtual CPU runs on Intel VT-x, with its
    state in a VMCS that is read and written by encoding, or on AMD-V, with its
    state in a VMCB in memory; the template parameter of the source is a value
    of type [vm].  The guest does not see the control registers the processor
    uses: bits that the hypervisor needs are forced, and reads are answered
    from shadows. *)
From S2P Require Import Prelude.
From stdpp Require Import list functions.
Open Scope Z_scope.

(** Memory as words: the index of a word to its contents. *)
Definition mem : Type := Z → Z.

Definition wr (k v : Z) (m : mem) : mem := λ k', if k' =? k then v else m k'.

Lemma wr_at k v m k' : wr k v m k' = if k' =? k then v else m k'.
Proof. done. Qed.

Inductive vm := Vmcb | Vmcs.

(** ** The register words of [Cpu_regs]

    [Sys_regs] is the array [gpr] of 16 words.  [Exc_regs] adds eleven words,
    a union: the names of the second group belong to the registers of an
    exception frame, those of the third to a virtual CPU, whose [nst_on] and
    [fpu_on] are bytes 0 and 1 of the word [modes].  [Cpu_regs] adds the last
    group; [gst_xsv] is two words. *)
Inductive reg :=
  | r15 | r14 | r13 | r12 | r11 | r10 | r9 | r8 | rdi | rsi | rbp | cr2 | rbx | rdx | rcx
  | rax
  | seg_gs | seg_fs | seg_es | seg_ds | err | vec | rip | seg_cs | rfl | rsp | seg_ss
  | cr0_shadow | cr3_shadow | cr4_shadow | dst_portal | nst_fault | nst_error | modes
  | hzd
  | vtlb | tsc_offset | tsc_aux | mtd | xsv_xcr | xsv_xss.

Definition word_of (r : reg) : Z :=
  match r with
  | r15 => 0 | r14 => 1 | r13 => 2 | r12 => 3 | r11 => 4 | r10 => 5 | r9 => 6 | r8 => 7
  | rdi => 8 | rsi => 9 | rbp => 10 | cr2 => 11 | rbx => 12 | rdx => 13 | rcx => 14
  | rax => 15 | seg_gs => 16 | seg_fs => 17 | seg_es => 18 | seg_ds => 19 | err => 20
  | vec => 21 | rip => 22 | seg_cs => 23 | rfl => 24 | rsp => 25 | seg_ss => 26
  | cr0_shadow => 18 | cr3_shadow => 19 | cr4_shadow => 20 | dst_portal => 21
  | nst_fault => 22 | nst_error => 23 | modes => 24 | hzd => 27 | vtlb => 29
  | tsc_offset => 30 | tsc_aux => 31 | mtd => 32 | xsv_xcr => 33 | xsv_xss => 34
  end.

Coercion word_of : reg >-> Z.

Definition gprs : Z := 16.

Definition get_nst_on (r : mem) : bool := truthy (r modes .& 0xff)%W.
Definition get_fpu_on (r : mem) : bool := truthy ((r modes >> 8) .& 0xff)%W.

Definition set_nst_on (b : bool) (r : mem) : mem :=
  wr modes (r modes .& wnot 0xff .| Z.b2z b)%W r.

Definition set_fpu_on (b : bool) (r : mem) : mem :=
  wr modes (r modes .& wnot 0xff00 .| (Z.b2z b << 8))%W r.

(** ** [Sys_regs] *)

Definition ARG_IP : reg := rcx.
Definition ARG_SP : reg := r11.
Definition ARG_1 : reg := rdi.
Definition ARG_2 : reg := rsi.
Definition ARG_3 : reg := rdx.
Definition ARG_4 : reg := rax.
Definition ARG_5 : reg := r8.

Definition flags (r : mem) : Z := (r ARG_1 >> 5 .& 0xf)%W.
Definition status (r : mem) : Z := wrap 8 (r ARG_1 .& 0xff)%W.

Definition set_status (s : Z) (c : bool) (r : mem) : mem :=
  if c then wr ARG_1 s r else wr ARG_1 (r ARG_1 .& wnot 0xff .| s)%W r.

Definition set_pt (pt : Z) (r : mem) : mem := wr ARG_1 pt r.
Definition set_pt3 (pt pt2 s : Z) (r : mem) : mem :=
  wr ARG_3 s (wr ARG_2 pt2 (wr ARG_1 pt r)).
Definition set_ip (ip : Z) (r : mem) : mem := wr ARG_IP ip r.
Definition set_sp (sp : Z) (r : mem) : mem := wr ARG_SP sp r.

Definition user (r : mem) : bool := truthy (r seg_cs .& 3)%W.

(** ** [Cpu_regs]: hazards and the offset of the time stamp counter *)

Definition HZD_TSC : Z := 0x20000000.

Definition hazard (r : mem) : Z := r hzd.
Definition set_hazard (h : Z) (r : mem) : mem := wr hzd (r hzd .| h)%W r.
Definition clr_hazard (h : Z) (r : mem) : mem := wr hzd (r hzd .& wnot h)%W r.

Definition add_tsc_offset (tsc : Z) (r : mem) : mem :=
  set_hazard HZD_TSC (wr tsc_offset (r tsc_offset + tsc)%W r).

(** ** Constants *)

Definition CR0_PE : Z := 2 ^ 0.
Definition CR0_TS : Z := 2 ^ 3.
Definition CR0_WP : Z := 2 ^ 16.
Definition CR0_PG : Z := 2 ^ 31.
Definition CR4_PSE : Z := 2 ^ 4.
Definition CR4_PAE : Z := 2 ^ 5.
Definition CR4_PGE : Z := 2 ^ 7.
Definition EFER_LME : Z := 2 ^ 8.
Definition EFER_LMA : Z := 2 ^ 10.
Definition EFL_VM : Z := 2 ^ 17.
Definition EXC_NM : Z := 7.
Definition EXC_PF : Z := 14.
Definition EXC_AC : Z := 17.

Definition CPU_INTR_WINDOW : Z := 2 ^ 2.
Definition CPU_INVLPG : Z := 2 ^ 9.
Definition CPU_CR3_LOAD : Z := 2 ^ 15.
Definition CPU_CR3_STORE : Z := 2 ^ 16.
Definition CPU_NMI_WINDOW : Z := 2 ^ 22.
Definition CPU_EPT : Z := 2 ^ 1.
Definition CPU_VPID : Z := 2 ^ 5.
Definition CPU_URG : Z := 2 ^ 7.
Definition ENT_GUEST_64 : Z := 2 ^ 9.

(** [Vmcb::Ctrl0], [Vmcb::Ctrl1] and the controls every guest runs with. *)
Definition SVM_VINTR : Z := 2 ^ 4.
Definition SVM_INVLPG : Z := 2 ^ 25.
Definition force_ctrl0 : Z :=
  2 ^ 0 + 2 ^ 1 + 2 ^ 3 + 2 ^ 22 + 2 ^ 24 + 2 ^ 27 + 2 ^ 28 + 2 ^ 31.
Definition force_ctrl1 : Z := 2 ^ 2 + 2 ^ 3 + 2 ^ 5 + 2 ^ 6.

(** The complement of a 32-bit value. *)
Definition not32 (x : Z) : Z := 2 ^ 32 - 1 - x.

(** ** The VMCS

    [Vmcs::Encoding], with the source's names and encodings. *)
Inductive Encoding :=
  | VPID | GUEST_SEL_ES | GUEST_SEL_CS | GUEST_SEL_SS | GUEST_SEL_DS | GUEST_SEL_FS
  | GUEST_SEL_GS | GUEST_SEL_LDTR | GUEST_SEL_TR | HOST_SEL_ES | HOST_SEL_CS | HOST_SEL_SS
  | HOST_SEL_DS | HOST_SEL_FS | HOST_SEL_GS | HOST_SEL_TR | IO_BITMAP_A | IO_BITMAP_B
  | MSR_BITMAP | EXI_MSR_ST_ADDR | EXI_MSR_LD_ADDR | ENT_MSR_LD_ADDR | VMCS_EXEC_PTR
  | TSC_OFFSET | TSC_OFFSET_HI | APIC_VIRT_ADDR | APIC_ACCS_ADDR | EPTP | EPTP_HI
  | INFO_PHYS_ADDR | VMCS_LINK_PTR | VMCS_LINK_PTR_HI | GUEST_DEBUGCTL | GUEST_DEBUGCTL_HI
  | GUEST_EFER | GUEST_PERF_GLOBAL_CTRL | GUEST_PDPTE0 | GUEST_PDPTE1 | GUEST_PDPTE2
  | GUEST_PDPTE3 | HOST_EFER | HOST_PERF_GLOBAL_CTRL | PIN_CONTROLS | CPU_EXEC_CTRL0
  | EXC_BITMAP | PF_ERROR_MASK | PF_ERROR_MATCH | CR3_TARGET_COUNT | EXI_CONTROLS
  | EXI_MSR_ST_CNT | EXI_MSR_LD_CNT | ENT_CONTROLS | ENT_MSR_LD_CNT | ENT_INTR_INFO
  | ENT_INTR_ERROR | ENT_INST_LEN | TPR_THRESHOLD | CPU_EXEC_CTRL1 | VMX_INST_ERROR
  | EXI_REASON | EXI_INTR_INFO | EXI_INTR_ERROR | IDT_VECT_INFO | IDT_VECT_ERROR
  | EXI_INST_LEN | EXI_INST_INFO | GUEST_LIMIT_ES | GUEST_LIMIT_CS | GUEST_LIMIT_SS
  | GUEST_LIMIT_DS | GUEST_LIMIT_FS | GUEST_LIMIT_GS | GUEST_LIMIT_LDTR | GUEST_LIMIT_TR
  | GUEST_LIMIT_GDTR | GUEST_LIMIT_IDTR | GUEST_AR_ES | GUEST_AR_CS | GUEST_AR_SS
  | GUEST_AR_DS | GUEST_AR_FS | GUEST_AR_GS | GUEST_AR_LDTR | GUEST_AR_TR
  | GUEST_INTR_STATE | GUEST_ACTV_STATE | GUEST_SMBASE | GUEST_SYSENTER_CS
  | HOST_SYSENTER_CS | CR0_MASK | CR4_MASK | CR0_READ_SHADOW | CR4_READ_SHADOW
  | CR3_TARGET_0 | CR3_TARGET_1 | CR3_TARGET_2 | CR3_TARGET_3 | EXI_QUALIFICATION | IO_RCX
  | IO_RSI | IO_RDI | IO_RIP | GUEST_LINEAR_ADDRESS | GUEST_CR0 | GUEST_CR3 | GUEST_CR4
  | GUEST_BASE_ES | GUEST_BASE_CS | GUEST_BASE_SS | GUEST_BASE_DS | GUEST_BASE_FS
  | GUEST_BASE_GS | GUEST_BASE_LDTR | GUEST_BASE_TR | GUEST_BASE_GDTR | GUEST_BASE_IDTR
  | GUEST_DR7 | GUEST_RSP | GUEST_RIP | GUEST_RFLAGS | GUEST_PENDING_DEBUG
  | GUEST_SYSENTER_ESP | GUEST_SYSENTER_EIP | HOST_CR0 | HOST_CR3 | HOST_CR4 | HOST_BASE_FS
  | HOST_BASE_GS | HOST_BASE_TR | HOST_BASE_GDTR | HOST_BASE_IDTR | HOST_SYSENTER_ESP
  | HOST_SYSENTER_EIP | HOST_RSP | HOST_RIP.

Definition enc (e : Encoding) : Z :=
  match e with
  | VPID => 0x0000 | GUEST_SEL_ES => 0x0800 | GUEST_SEL_CS => 0x0802
  | GUEST_SEL_SS => 0x0804 | GUEST_SEL_DS => 0x0806 | GUEST_SEL_FS => 0x0808
  | GUEST_SEL_GS => 0x080a | GUEST_SEL_LDTR => 0x080c | GUEST_SEL_TR => 0x080e
  | HOST_SEL_ES => 0x0c00 | HOST_SEL_CS => 0x0c02 | HOST_SEL_SS => 0x0c04
  | HOST_SEL_DS => 0x0c06 | HOST_SEL_FS => 0x0c08 | HOST_SEL_GS => 0x0c0a
  | HOST_SEL_TR => 0x0c0c | IO_BITMAP_A => 0x2000 | IO_BITMAP_B => 0x2002
  | MSR_BITMAP => 0x2004 | EXI_MSR_ST_ADDR => 0x2006 | EXI_MSR_LD_ADDR => 0x2008
  | ENT_MSR_LD_ADDR => 0x200a | VMCS_EXEC_PTR => 0x200c | TSC_OFFSET => 0x2010
  | TSC_OFFSET_HI => 0x2011 | APIC_VIRT_ADDR => 0x2012 | APIC_ACCS_ADDR => 0x2014
  | EPTP => 0x201a | EPTP_HI => 0x201b | INFO_PHYS_ADDR => 0x2400 | VMCS_LINK_PTR => 0x2800
  | VMCS_LINK_PTR_HI => 0x2801 | GUEST_DEBUGCTL => 0x2802 | GUEST_DEBUGCTL_HI => 0x2803
  | GUEST_EFER => 0x2806 | GUEST_PERF_GLOBAL_CTRL => 0x2808 | GUEST_PDPTE0 => 0x280a
  | GUEST_PDPTE1 => 0x280c | GUEST_PDPTE2 => 0x280e | GUEST_PDPTE3 => 0x2810
  | HOST_EFER => 0x2c02 | HOST_PERF_GLOBAL_CTRL => 0x2c04 | PIN_CONTROLS => 0x4000
  | CPU_EXEC_CTRL0 => 0x4002 | EXC_BITMAP => 0x4004 | PF_ERROR_MASK => 0x4006
  | PF_ERROR_MATCH => 0x4008 | CR3_TARGET_COUNT => 0x400a | EXI_CONTROLS => 0x400c
  | EXI_MSR_ST_CNT => 0x400e | EXI_MSR_LD_CNT => 0x4010 | ENT_CONTROLS => 0x4012
  | ENT_MSR_LD_CNT => 0x4014 | ENT_INTR_INFO => 0x4016 | ENT_INTR_ERROR => 0x4018
  | ENT_INST_LEN => 0x401a | TPR_THRESHOLD => 0x401c | CPU_EXEC_CTRL1 => 0x401e
  | VMX_INST_ERROR => 0x4400 | EXI_REASON => 0x4402 | EXI_INTR_INFO => 0x4404
  | EXI_INTR_ERROR => 0x4406 | IDT_VECT_INFO => 0x4408 | IDT_VECT_ERROR => 0x440a
  | EXI_INST_LEN => 0x440c | EXI_INST_INFO => 0x440e | GUEST_LIMIT_ES => 0x4800
  | GUEST_LIMIT_CS => 0x4802 | GUEST_LIMIT_SS => 0x4804 | GUEST_LIMIT_DS => 0x4806
  | GUEST_LIMIT_FS => 0x4808 | GUEST_LIMIT_GS => 0x480a | GUEST_LIMIT_LDTR => 0x480c
  | GUEST_LIMIT_TR => 0x480e | GUEST_LIMIT_GDTR => 0x4810 | GUEST_LIMIT_IDTR => 0x4812
  | GUEST_AR_ES => 0x4814 | GUEST_AR_CS => 0x4816 | GUEST_AR_SS => 0x4818
  | GUEST_AR_DS => 0x481a | GUEST_AR_FS => 0x481c | GUEST_AR_GS => 0x481e
  | GUEST_AR_LDTR => 0x4820 | GUEST_AR_TR => 0x4822 | GUEST_INTR_STATE => 0x4824
  | GUEST_ACTV_STATE => 0x4826 | GUEST_SMBASE => 0x4828 | GUEST_SYSENTER_CS => 0x482a
  | HOST_SYSENTER_CS => 0x4c00 | CR0_MASK => 0x6000 | CR4_MASK => 0x6002
  | CR0_READ_SHADOW => 0x6004 | CR4_READ_SHADOW => 0x6006 | CR3_TARGET_0 => 0x6008
  | CR3_TARGET_1 => 0x600a | CR3_TARGET_2 => 0x600c | CR3_TARGET_3 => 0x600e
  | EXI_QUALIFICATION => 0x6400 | IO_RCX => 0x6402 | IO_RSI => 0x6404 | IO_RDI => 0x6406
  | IO_RIP => 0x6408 | GUEST_LINEAR_ADDRESS => 0x640a | GUEST_CR0 => 0x6800
  | GUEST_CR3 => 0x6802 | GUEST_CR4 => 0x6804 | GUEST_BASE_ES => 0x6806
  | GUEST_BASE_CS => 0x6808 | GUEST_BASE_SS => 0x680a | GUEST_BASE_DS => 0x680c
  | GUEST_BASE_FS => 0x680e | GUEST_BASE_GS => 0x6810 | GUEST_BASE_LDTR => 0x6812
  | GUEST_BASE_TR => 0x6814 | GUEST_BASE_GDTR => 0x6816 | GUEST_BASE_IDTR => 0x6818
  | GUEST_DR7 => 0x681a | GUEST_RSP => 0x681c | GUEST_RIP => 0x681e
  | GUEST_RFLAGS => 0x6820 | GUEST_PENDING_DEBUG => 0x6822 | GUEST_SYSENTER_ESP => 0x6824
  | GUEST_SYSENTER_EIP => 0x6826 | HOST_CR0 => 0x6c00 | HOST_CR3 => 0x6c02
  | HOST_CR4 => 0x6c04 | HOST_BASE_FS => 0x6c06 | HOST_BASE_GS => 0x6c08
  | HOST_BASE_TR => 0x6c0a | HOST_BASE_GDTR => 0x6c0c | HOST_BASE_IDTR => 0x6c0e
  | HOST_SYSENTER_ESP => 0x6c10 | HOST_SYSENTER_EIP => 0x6c12 | HOST_RSP => 0x6c14
  | HOST_RIP => 0x6c16
  end.

Coercion enc : Encoding >-> Z.

(** The width of a field is part of its encoding; [vmwrite] truncates. *)
Definition field_width (e : Z) : Z :=
  match (e >> 13 .& 3)%W with 0 => 16 | 1 => 64 | 2 => 32 | _ => 64 end.

(** ** The VMCB

    The fields of [Vmcb] by byte offset.  A segment register takes two words,
    the first of which holds selector, attributes and limit.  A field that
    shares its name with a register word has the prefix [vmcb_]. *)
Inductive vmcb_field :=
  | intercept_cr | intercept_dr | intercept_exc | intercept_cpu0 | intercept_cpu1 | base_io
  | base_msr | vmcb_tsc_offset | asid | tlb_control | int_control | int_shadow | exitcode
  | exitinfo1 | exitinfo2 | exitintinfo | npt_control | inj_control | npt_cr3 | lbr
  | vmcb_es | vmcb_cs | vmcb_ss | vmcb_ds | vmcb_fs | vmcb_gs | vmcb_gdtr | vmcb_ldtr
  | vmcb_idtr | vmcb_tr | vmcb_efer | vmcb_cr4 | vmcb_cr3 | vmcb_cr0 | vmcb_dr7 | vmcb_dr6
  | vmcb_rflags | vmcb_rip | vmcb_rsp | vmcb_rax | vmcb_star | vmcb_lstar | vmcb_cstar
  | vmcb_sfmask | vmcb_kernel_gs_base | vmcb_sysenter_cs | vmcb_sysenter_esp
  | vmcb_sysenter_eip | vmcb_cr2 | vmcb_nrip | vmcb_g_pat.

Definition offset (f : vmcb_field) : Z :=
  match f with
  | intercept_cr => 0 | intercept_dr => 4 | intercept_exc => 8 | intercept_cpu0 => 0xc
  | intercept_cpu1 => 0x10 | base_io => 0x40 | base_msr => 0x48 | vmcb_tsc_offset => 0x50
  | asid => 0x58 | tlb_control => 0x5c | int_control => 0x60 | int_shadow => 0x68
  | exitcode => 0x70 | exitinfo1 => 0x78 | exitinfo2 => 0x80 | exitintinfo => 0x88
  | npt_control => 0x90 | inj_control => 0xa8 | npt_cr3 => 0xb0 | lbr => 0xb8
  | vmcb_es => 0x400 | vmcb_cs => 0x410 | vmcb_ss => 0x420 | vmcb_ds => 0x430
  | vmcb_fs => 0x440 | vmcb_gs => 0x450 | vmcb_gdtr => 0x460 | vmcb_ldtr => 0x470
  | vmcb_idtr => 0x480 | vmcb_tr => 0x490 | vmcb_efer => 0x4d0 | vmcb_cr4 => 0x548
  | vmcb_cr3 => 0x550 | vmcb_cr0 => 0x558 | vmcb_dr7 => 0x560 | vmcb_dr6 => 0x568
  | vmcb_rflags => 0x570 | vmcb_rip => 0x578 | vmcb_rsp => 0x5d8 | vmcb_rax => 0x5f8
  | vmcb_star => 0x600 | vmcb_lstar => 0x608 | vmcb_cstar => 0x610 | vmcb_sfmask => 0x618
  | vmcb_kernel_gs_base => 0x620 | vmcb_sysenter_cs => 0x628 | vmcb_sysenter_esp => 0x630
  | vmcb_sysenter_eip => 0x638 | vmcb_cr2 => 0x640 | vmcb_nrip => 0x648
  | vmcb_g_pat => 0x668
  end.

Coercion offset : vmcb_field >-> Z.

(** ** Processor and hypervisor state the operations read

    The permitted settings of the control fields (read from capability MSRs),
    the nested-paging features, the translation of pointers to physical
    addresses, the host's MSRs and XSAVE state: constants while a guest runs. *)
Record host := Host {
  vmx_cr0_set : Z; vmx_cr0_clr : Z; vmx_cr4_set : Z; vmx_cr4_clr : Z;
  ctrl0_set : Z; ctrl0_clr : Z; ctrl1_set : Z; ctrl1_clr : Z;
  svm_feature : Z;
  hip_vmx : bool; hip_svm : bool;
  ptr_to_phys : Z → Z;
  msr_read : Z → Z;
  hst_xcr : Z; hst_xss : Z
}.

(** What a flush of translations asks for: from the virtual TLB, all entries
    or those that are not global; from the processor by VPID. *)
Inductive flush :=
  | Vtlb_flush (full : bool)
  | Vpid_flush (global : bool) (vpid : Z).

(** One virtual CPU: register words, VMCS, VMCB, the MSR areas its VMCS names,
    the task priority of its virtual APIC page, and the flushes so far. *)
Record vcpu := Vcpu {
  regs : mem; vmcs : mem; vmcb : mem;
  guest_msrs : mem; host_msrs : mem; vtpr : Z;
  flushes : list flush
}.

Definition upd_regs (f : mem → mem) (s : vcpu) : vcpu :=
  Vcpu (f (regs s)) (vmcs s) (vmcb s) (guest_msrs s) (host_msrs s) (vtpr s) (flushes s).
Definition upd_vmcs (f : mem → mem) (s : vcpu) : vcpu :=
  Vcpu (regs s) (f (vmcs s)) (vmcb s) (guest_msrs s) (host_msrs s) (vtpr s) (flushes s).
Definition upd_vmcb (f : mem → mem) (s : vcpu) : vcpu :=
  Vcpu (regs s) (vmcs s) (f (vmcb s)) (guest_msrs s) (host_msrs s) (vtpr s) (flushes s).
Definition log_flush (x : flush) (s : vcpu) : vcpu :=
  Vcpu (regs s) (vmcs s) (vmcb s) (guest_msrs s) (host_msrs s) (vtpr s) (flushes s ++ [x]).

Definition vmread (e : Encoding) (s : vcpu) : Z := vmcs s e.
Definition vmwrite (e : Encoding) (v : Z) : vcpu → vcpu :=
  upd_vmcs (wr e (wrap (field_width e) v)).

(** Fields of the VMCB are 64 bits wide but for the intercepts. *)
Definition bwrite (f : vmcb_field) (v : Z) : vcpu → vcpu := upd_vmcb (wr f v).

Section cpu_regs.
Context (h : host).
Implicit Types (s : vcpu) (v val : Z).

(** ** Features and fixed bits *)

Definition fix_cr0_set (T : vm) : Z := match T with Vmcb => 0 | Vmcs => vmx_cr0_set h end.
Definition fix_cr0_clr (T : vm) : Z := match T with Vmcb => 0 | Vmcs => vmx_cr0_clr h end.
Definition fix_cr4_set (T : vm) : Z := match T with Vmcb => 0 | Vmcs => vmx_cr4_set h end.
Definition fix_cr4_clr (T : vm) : Z := match T with Vmcb => 0 | Vmcs => vmx_cr4_clr h end.

Definition has_npt : bool := truthy (svm_feature h .& 1)%W.
Definition has_ept : bool := truthy (ctrl1_clr h .& CPU_EPT)%W.
Definition has_vpid : bool := truthy (ctrl1_clr h .& CPU_VPID)%W.
Definition has_urg (T : vm) : bool :=
  match T with Vmcb => true | Vmcs => truthy (ctrl1_clr h .& CPU_URG)%W end.

Definition vpid s : Z := if has_vpid then vmread VPID s else 0.

(** ** The guest's registers as the processor holds them *)

Definition get_g_cs_dl (T : vm) s : Z :=
  match T with
  | Vmcb => (wrap 16 (vmcb s vmcb_cs >> 16) >> 9 .& 3)%W
  | Vmcs => (vmread GUEST_AR_CS s >> 13 .& 3)%W
  end.
Definition get_g_flags (T : vm) s : Z :=
  match T with Vmcb => vmcb s vmcb_rflags | Vmcs => vmread GUEST_RFLAGS s end.
Definition get_g_efer (T : vm) s : Z :=
  match T with Vmcb => vmcb s vmcb_efer | Vmcs => vmread GUEST_EFER s end.
Definition get_g_cr0 (T : vm) s : Z :=
  match T with Vmcb => vmcb s vmcb_cr0 | Vmcs => vmread GUEST_CR0 s end.
Definition get_g_cr2 (T : vm) s : Z :=
  match T with Vmcb => vmcb s vmcb_cr2 | Vmcs => regs s cr2 end.
Definition get_g_cr3 (T : vm) s : Z :=
  match T with Vmcb => vmcb s vmcb_cr3 | Vmcs => vmread GUEST_CR3 s end.
Definition get_g_cr4 (T : vm) s : Z :=
  match T with Vmcb => vmcb s vmcb_cr4 | Vmcs => vmread GUEST_CR4 s end.

Definition set_g_cr0 (T : vm) v : vcpu → vcpu :=
  match T with Vmcb => bwrite vmcb_cr0 v | Vmcs => vmwrite GUEST_CR0 v end.
Definition set_g_cr2 (T : vm) v : vcpu → vcpu :=
  match T with Vmcb => bwrite vmcb_cr2 v | Vmcs => upd_regs (wr cr2 v) end.
Definition set_g_cr3 (T : vm) v : vcpu → vcpu :=
  match T with Vmcb => bwrite vmcb_cr3 v | Vmcs => vmwrite GUEST_CR3 v end.
Definition set_g_cr4 (T : vm) v : vcpu → vcpu :=
  match T with Vmcb => bwrite vmcb_cr4 v | Vmcs => vmwrite GUEST_CR4 v end.

Definition set_e_bmp (T : vm) v : vcpu → vcpu :=
  match T with Vmcb => bwrite intercept_exc v | Vmcs => vmwrite EXC_BITMAP v end.
Definition set_s_cr0 (T : vm) v s : vcpu :=
  let s := upd_regs (wr cr0_shadow v) s in
  match T with Vmcb => s | Vmcs => vmwrite CR0_READ_SHADOW v s end.
Definition set_s_cr4 (T : vm) v s : vcpu :=
  let s := upd_regs (wr cr4_shadow v) s in
  match T with Vmcb => s | Vmcs => vmwrite CR4_READ_SHADOW v s end.

Definition tlb_flush (T : vm) (full : bool) s : vcpu :=
  let s := log_flush (Vtlb_flush full) s in
  match T with
  | Vmcb => if truthy (vmcb s asid) then bwrite tlb_control 1 s else s
  | Vmcs => if truthy (vpid s) then log_flush (Vpid_flush full (vpid s)) s else s
  end.

(** ** The control registers as the guest sees them *)

Definition cr0_set (T : vm) s : Z :=
  let set := 0 in
  let set := if get_nst_on (regs s) then set else (set .| CR0_PG .| CR0_WP .| CR0_PE)%W in
  let set := if get_fpu_on (regs s) then set else (set .| CR0_TS)%W in
  (fix_cr0_set T .| set)%W.

Definition cr0_msk (T : vm) s : Z := (fix_cr0_clr T .| cr0_set T s)%W.

Definition cr4_set (T : vm) s : Z :=
  let set := if get_nst_on (regs s) then 0 else (CR4_PSE .| CR4_PAE)%W in
  (fix_cr4_set T .| set)%W.

Definition cr4_msk (T : vm) s : Z :=
  let clr := if get_nst_on (regs s) then 0 else CR4_PGE in
  (fix_cr4_clr T .| clr .| cr4_set T s)%W.

Definition get_cr0 (T : vm) s : Z :=
  let msk := cr0_msk T s in
  (get_g_cr0 T s .& wnot msk .| (regs s cr0_shadow .& msk))%W.

Definition get_cr3 (T : vm) s : Z :=
  if get_nst_on (regs s) then get_g_cr3 T s else regs s cr3_shadow.

Definition get_cr4 (T : vm) s : Z :=
  let msk := cr4_msk T s in
  (get_g_cr4 T s .& wnot msk .| (regs s cr4_shadow .& msk))%W.

Definition set_cr0 (T : vm) v s : vcpu :=
  let g := ((v .& (wnot (cr0_msk T s) .| CR0_PE)) .| (cr0_set T s .& not32 CR0_PE))%W in
  set_s_cr0 T v (set_g_cr0 T g s).

Definition set_cr3 (T : vm) v s : vcpu :=
  if get_nst_on (regs s) then set_g_cr3 T v s else upd_regs (wr cr3_shadow v) s.

Definition set_cr4 (T : vm) v s : vcpu :=
  let g := ((v .& wnot (cr4_msk T s)) .| cr4_set T s)%W in
  set_s_cr4 T v (set_g_cr4 T g s).

Definition set_exc (T : vm) s : vcpu :=
  let msk := (1 << EXC_AC)%W in
  let msk := if get_nst_on (regs s) then msk else (msk .| (1 << EXC_PF))%W in
  let msk := if get_fpu_on (regs s) then msk else (msk .| (1 << EXC_NM))%W in
  set_e_bmp T msk s.

(** ** Execution controls *)

Definition svm_set_cpu_ctrl0 val s : vcpu :=
  let nst := get_nst_on (regs s) in
  let msk := (Z.b2z (truthy (cr0_msk Vmcb s)) .| (Z.b2z (negb nst) << 3)
              .| (Z.b2z (truthy (cr4_msk Vmcb s)) << 4))%W in
  let s := bwrite npt_control (Z.b2z nst) s in
  let s := bwrite intercept_cr (wrap 32 (msk << 16) .| msk)%W s in
  if nst
  then bwrite intercept_cpu0 (wrap 32 (val .& not32 SVM_INVLPG .| force_ctrl0)%W) s
  else bwrite intercept_cpu0 (wrap 32 (val .| SVM_INVLPG .| force_ctrl0)%W) s.

Definition svm_set_cpu_ctrl1 val s : vcpu :=
  bwrite intercept_cpu1 (wrap 32 (val .| force_ctrl1)%W) s.

Definition vmx_set_cpu_ctrl0 val s : vcpu :=
  let msk := (CPU_INVLPG .| CPU_CR3_LOAD .| CPU_CR3_STORE)%W in
  let val := if get_nst_on (regs s) then (val .& not32 msk)%W else (val .| msk)%W in
  let val := (val .| ctrl0_set h)%W in
  let val := (val .& ctrl0_clr h)%W in
  vmwrite CPU_EXEC_CTRL0 val s.

Definition vmx_set_cpu_ctrl1 val s : vcpu :=
  let msk := CPU_EPT in
  let val := if get_nst_on (regs s) then (val .| msk)%W else (val .& not32 msk)%W in
  let val := (val .| ctrl1_set h)%W in
  let val := (val .& ctrl1_clr h)%W in
  vmwrite CPU_EXEC_CTRL1 val s.

(** [nst_ctrl] switches nested paging; the guest's view of its control
    registers is carried over. *)
Definition nst_switch (T : vm) (on : bool) s : vcpu :=
  let c0 := get_cr0 T s in
  let c3 := get_cr3 T s in
  let c4 := get_cr4 T s in
  let s := upd_regs (set_nst_on on) s in
  set_cr4 T c4 (set_cr3 T c3 (set_cr0 T c0 s)).

Definition nst_controls (T : vm) s : vcpu :=
  match T with
  | Vmcb =>
    let s := svm_set_cpu_ctrl0 (vmcb s intercept_cpu0) s in
    let s := svm_set_cpu_ctrl1 (vmcb s intercept_cpu1) s in
    set_exc Vmcb s
  | Vmcs =>
    let s := vmx_set_cpu_ctrl0 (vmread CPU_EXEC_CTRL0 s) s in
    let s := vmx_set_cpu_ctrl1 (vmread CPU_EXEC_CTRL1 s) s in
    let s := set_exc Vmcs s in
    let s := vmwrite CR0_MASK (cr0_msk Vmcs s) s in
    vmwrite CR4_MASK (cr4_msk Vmcs s) s
  end.

Definition nst_ctrl (T : vm) (on : bool) s : vcpu :=
  let on := (match T with Vmcb => has_npt | Vmcs => has_ept end) && on in
  let s := nst_controls T (nst_switch T on s) in
  if get_nst_on (regs s) then s else set_g_cr3 T (ptr_to_phys h (regs s vtlb)) s.

Definition fpu_switch (T : vm) (on : bool) s : vcpu :=
  let c0 := get_cr0 T s in
  let s := upd_regs (set_fpu_on on) s in
  set_exc T (set_cr0 T c0 s).

Definition fpu_ctrl (on : bool) s : vcpu :=
  if hip_vmx h then
    let s := fpu_switch Vmcs on s in
    vmwrite CR0_MASK (cr0_msk Vmcs s) s
  else if hip_svm h then
    let s := fpu_switch Vmcb on s in
    svm_set_cpu_ctrl0 (vmcb s intercept_cpu0) s
  else s.

Definition svm_update_shadows s : vcpu :=
  let s := upd_regs (wr cr0_shadow (get_cr0 Vmcb s)) s in
  let s := upd_regs (wr cr3_shadow (get_cr3 Vmcb s)) s in
  upd_regs (wr cr4_shadow (get_cr4 Vmcb s)) s.

(** ** General-purpose registers by their number in an instruction

    The array [gpr] is indexed by an unsigned difference. *)
Definition svm_read_gpr (reg : Z) s : Z :=
  if reg =? 0 then vmcb s vmcb_rax
  else if reg =? 4 then vmcb s vmcb_rsp
  else regs s (gprs - 1 - reg).

Definition svm_write_gpr (reg val : Z) s : vcpu :=
  if reg =? 0 then bwrite vmcb_rax val s
  else if reg =? 4 then bwrite vmcb_rsp val s
  else upd_regs (wr (gprs - 1 - reg) val) s.

Definition vmx_read_gpr (reg : Z) s : Z :=
  if reg =? 4 then vmread GUEST_RSP s else regs s (gprs - 1 - reg).

Definition vmx_write_gpr (reg val : Z) s : vcpu :=
  if reg =? 4 then vmwrite GUEST_RSP val s else upd_regs (wr (gprs - 1 - reg) val) s.

(** ** Reading and writing control registers for the guest

    [None]: the register number is unreachable in the source. *)
Definition read_cr (T : vm) (cr : Z) s : option Z :=
  match cr with
  | 0 => Some (get_cr0 T s)
  | 2 => Some (get_g_cr2 T s)
  | 3 => Some (get_cr3 T s)
  | 4 => Some (get_cr4 T s)
  | _ => None
  end.

Definition write_efer (T : vm) val s : vcpu :=
  match T with
  | Vmcb => bwrite vmcb_efer val s
  | Vmcs =>
    let s := vmwrite GUEST_EFER val s in
    if truthy (val .& EFER_LMA)%W
    then vmwrite ENT_CONTROLS (vmread ENT_CONTROLS s .| ENT_GUEST_64)%W s
    else vmwrite ENT_CONTROLS (vmread ENT_CONTROLS s .& wnot ENT_GUEST_64)%W s
  end.

(** The part of a write to CR0 that follows a change of [CR0_PG]. *)
Definition toggle_paging (T : vm) val s : vcpu :=
  let s := if has_urg T then s else nst_ctrl T (truthy (val .& CR0_PG)%W) s in
  let efer := get_g_efer T s in
  if truthy (val .& CR0_PG)%W && truthy (efer .& EFER_LME)%W
  then write_efer T (efer .| EFER_LMA)%W s
  else write_efer T (efer .& wnot EFER_LMA)%W s.

Definition flush_unless_nested (T : vm) (toggled bits : Z) s : vcpu :=
  if negb (get_nst_on (regs s)) && truthy (toggled .& bits)%W then tlb_flush T true s else s.

Definition write_cr (T : vm) (cr val : Z) s : option vcpu :=
  match cr with
  | 2 => Some (set_g_cr2 T val s)
  | 3 =>
    let s := if get_nst_on (regs s) then s else tlb_flush T false s in
    Some (set_cr3 T val s)
  | 0 =>
    let toggled := (get_cr0 T s .^ val)%W in
    let s := flush_unless_nested T toggled (CR0_PG .| CR0_WP .| CR0_PE)%W s in
    let s := set_cr0 T val s in
    Some (if truthy (toggled .& CR0_PG)%W then toggle_paging T val s else s)
  | 4 =>
    let toggled := (get_cr4 T s .^ val)%W in
    let s := flush_unless_nested T toggled (CR4_PGE .| CR4_PAE .| CR4_PSE)%W s in
    Some (set_cr4 T val s)
  | _ => None
  end.

(** ** Addressing modes *)

Inductive Mode := MODE_REAL | MODE_VM86 | MODE_PROT_16 | MODE_PROT_32 | MODE_PROT_64.

Definition mode (T : vm) s : Mode :=
  if negb (truthy (get_cr0 T s .& CR0_PE)%W) then MODE_REAL
  else if truthy (get_g_flags T s .& EFL_VM)%W then MODE_VM86
  else
    let dl := get_g_cs_dl T s in
    if truthy (get_g_efer T s .& EFER_LMA)%W && truthy (dl .& 1)%W then MODE_PROT_64
    else if truthy (dl .& 2)%W then MODE_PROT_32 else MODE_PROT_16.

Definition linear_address (T : vm) val s : Z :=
  match mode T s with MODE_PROT_64 => val | _ => (val .& 0xffffffff)%W end.

(** ** What the guest sees *)

(** Registers and control fields hold words. *)
Definition words s : Prop :=
  ∀ k, word 64 (regs s k) ∧ word 64 (vmcs s k) ∧ word 64 (vmcb s k).

Definition host_ok : Prop :=
  word 64 (vmx_cr0_set h) ∧ word 64 (vmx_cr0_clr h) ∧
  word 64 (vmx_cr4_set h) ∧ word 64 (vmx_cr4_clr h).

(** The words that the guest's view of its control registers depends on. *)
Definition cr_state s : list Z :=
  [regs s cr2; regs s cr0_shadow; regs s cr3_shadow; regs s cr4_shadow; regs s modes;
   vmread GUEST_CR0 s; vmread GUEST_CR3 s; vmread GUEST_CR4 s;
   vmcb s vmcb_cr0; vmcb s vmcb_cr2; vmcb s vmcb_cr3; vmcb s vmcb_cr4].

Lemma same_view T cr s s' : cr_state s' = cr_state s → read_cr T cr s' = read_cr T cr s.
Proof.
  unfold cr_state, vmread. cbn [word_of enc offset]. intros He.
  injection He as E1 E2 E3 E4 E5 E6 E7 E8 E9 E10 E11 E12.
  unfold read_cr, get_cr0, get_cr3, get_cr4, cr0_msk, cr4_msk, cr0_set, cr4_set,
    get_nst_on, get_fpu_on, get_g_cr0, get_g_cr2, get_g_cr3, get_g_cr4, vmread.
  cbn [word_of enc offset].
  rewrite E1, E2, E3, E4, E5, E6, E7, E8, E9, E10, E11, E12. done.
Qed.

Lemma same_modes s s' :
  cr_state s' = cr_state s → get_nst_on (regs s') = get_nst_on (regs s).
Proof.
  unfold cr_state, get_nst_on. cbn [word_of]. intros He.
  injection He as _ _ _ _ E _. by rewrite E.
Qed.

Lemma land_word_r w x y : 0 ≤ w → word w y → word w (Z.land x y).
Proof. intros. rewrite Z.land_comm. by apply land_word_l. Qed.

Lemma set_word T s : host_ok → word 64 (cr0_set T s) ∧ word 64 (cr4_set T s).
Proof.
  intros (H1 & H2 & H3 & H4). unfold cr0_set, cr4_set.
  split; apply lor_word; [lia| | |lia| |]; destruct T; try done;
    repeat case_match; vm_compute; split; congruence.
Qed.

Lemma msk_word T s : host_ok → word 64 (cr0_msk T s) ∧ word 64 (cr4_msk T s).
Proof.
  intros Hh. pose proof (set_word T s Hh) as [? ?]. destruct Hh as (H1 & H2 & H3 & H4).
  unfold cr0_msk, cr4_msk. split; repeat (apply lor_word; [lia| |]); try done;
    destruct T; try done; repeat case_match; vm_compute; split; congruence.
Qed.

(** A word is its part outside a mask and its part inside. *)
Lemma mask_split v m : word 64 v → word 64 m → (v .& wnot m .| (v .& m))%W = v.
Proof.
  intros Hv Hm. apply Z.bits_inj'. intros i Hi.
  rewrite Z.lor_spec, !Z.land_spec, wnot_bits by done.
  destruct (Z.leb_spec 0 i), (Z.ltb_spec i 64); try lia.
  - destruct (Z.testbit v i), (Z.testbit m i); done.
  - rewrite (word_bits 64 v) by (done || lia). done.
Qed.

(** Bits forced inside the mask do not show outside. *)
Lemma mask_forced v c st p q :
  word 64 c → word 64 st →
  ((v .& (wnot (c .| st) .| p) .| (st .& q)) .& wnot (c .| st))%W = (v .& wnot (c .| st))%W.
Proof.
  intros Hc Hs. assert (word 64 (c .| st)%W) by auto with nova lia.
  apply Z.bits_inj'. intros i Hi.
  rewrite !Z.land_spec, !Z.lor_spec, !Z.land_spec, Z.lor_spec, wnot_bits by done.
  rewrite Z.lor_spec. destruct (0 <=? i), (i <? 64); simpl; try by rewrite !andb_false_r.
  destruct (Z.testbit v i), (Z.testbit c i), (Z.testbit st i), (Z.testbit p i), (Z.testbit q i);
    done.
Qed.

Lemma mask_forced_all v c st :
  word 64 c → word 64 st →
  ((v .& wnot (c .| st) .| st) .& wnot (c .| st))%W = (v .& wnot (c .| st))%W.
Proof.
  intros Hc Hs. assert (word 64 (c .| st)%W) by auto with nova lia.
  apply Z.bits_inj'. intros i Hi.
  rewrite !Z.land_spec, !Z.lor_spec, !Z.land_spec, wnot_bits by done.
  rewrite Z.lor_spec. destruct (0 <=? i), (i <? 64); simpl; try by rewrite !andb_false_r.
  destruct (Z.testbit v i), (Z.testbit c i), (Z.testbit st i); done.
Qed.

Lemma clr_word T s :
  host_ok → word 64 (fix_cr0_clr T) ∧
  word 64 (fix_cr4_clr T .| (if get_nst_on (regs s) then 0%Z else CR4_PGE))%W.
Proof.
  intros (H1 & H2 & H3 & H4). split; destruct T; try done.
  - case_match; by vm_compute.
  - apply lor_word; [lia|done|]. case_match; by vm_compute.
Qed.

Lemma get_g_set_cr0 T v s :
  word 64 v → get_g_cr0 T (set_s_cr0 T (regs s cr0_shadow) (set_g_cr0 T v s)) = v.
Proof. intros Hv. destruct T; [done|]. cbn. by apply (wrap_small 64). Qed.

Lemma get_set_cr0 T v s : host_ok → word 64 v → get_cr0 T (set_cr0 T v s) = v.
Proof.
  intros Hh Hv. pose proof (set_word T s Hh) as [Hs _].
  pose proof (clr_word T s Hh) as [Hc _]. pose proof (msk_word T s Hh) as [Hm _].
  unfold get_cr0. set (m := cr0_msk T s) in *.
  assert (cr0_msk T (set_cr0 T v s) = m) as -> by by destruct T.
  assert (regs (set_cr0 T v s) cr0_shadow = v) as -> by by destruct T.
  assert (get_g_cr0 T (set_cr0 T v s)
    = (v .& (wnot m .| CR0_PE) .| (cr0_set T s .& not32 CR0_PE))%W) as ->.
  { unfold set_cr0. fold m. destruct T; [done|]. cbn -[CR0_PE not32 cr0_set]. apply (wrap_small 64).
    apply lor_word; [lia|by apply land_word_l|by apply land_word_l]. }
  subst m. unfold cr0_msk. rewrite mask_forced by done. by apply mask_split.
Qed.

Lemma get_set_cr4 T v s : host_ok → word 64 v → get_cr4 T (set_cr4 T v s) = v.
Proof.
  intros Hh Hv. pose proof (set_word T s Hh) as [_ Hs].
  pose proof (clr_word T s Hh) as [_ Hc]. pose proof (msk_word T s Hh) as [_ Hm].
  unfold get_cr4. set (m := cr4_msk T s) in *.
  assert (cr4_msk T (set_cr4 T v s) = m) as -> by by destruct T.
  assert (regs (set_cr4 T v s) cr4_shadow = v) as -> by by destruct T.
  assert (get_g_cr4 T (set_cr4 T v s) = (v .& wnot m .| cr4_set T s)%W) as ->.
  { unfold set_cr4. fold m. destruct T; [done|]. cbn -[cr4_set]. apply (wrap_small 64).
    apply lor_word; [lia|by apply land_word_l|done]. }
  subst m. unfold cr4_msk. rewrite mask_forced_all by done. by apply mask_split.
Qed.

Lemma get_set_cr3 T v s : word 64 v → get_cr3 T (set_cr3 T v s) = v.
Proof.
  intros Hv. unfold get_cr3, set_cr3. destruct (get_nst_on (regs s)) eqn:En.
  - destruct T; cbn; rewrite En; [done|]. by apply (wrap_small 64).
  - cbn. replace (get_nst_on _) with false by done. done.
Qed.

Lemma get_cr_words T s :
  host_ok → words s → word 64 (get_cr0 T s) ∧ word 64 (get_cr3 T s) ∧ word 64 (get_cr4 T s).
Proof.
  intros Hh Hw. pose proof (msk_word T s Hh) as [H0 H4].
  unfold get_cr0, get_cr3, get_cr4. split_and!.
  - apply lor_word; [lia| |]; (apply land_word_r; [lia|]); [by apply wnot_word|done].
  - case_match; [destruct T|]; apply Hw.
  - apply lor_word; [lia| |]; (apply land_word_r; [lia|]); [by apply wnot_word|done].
Qed.

(** Writing one control register leaves the others. *)
Lemma set_cr0_others T v s :
  get_g_cr2 T (set_cr0 T v s) = get_g_cr2 T s ∧ get_cr3 T (set_cr0 T v s) = get_cr3 T s ∧
  get_cr4 T (set_cr0 T v s) = get_cr4 T s.
Proof. by destruct T. Qed.

Lemma set_cr4_others T v s :
  get_g_cr2 T (set_cr4 T v s) = get_g_cr2 T s ∧ get_cr3 T (set_cr4 T v s) = get_cr3 T s ∧
  get_cr0 T (set_cr4 T v s) = get_cr0 T s.
Proof. by destruct T. Qed.

Lemma set_cr3_others T v s :
  get_g_cr2 T (set_cr3 T v s) = get_g_cr2 T s ∧ get_cr0 T (set_cr3 T v s) = get_cr0 T s ∧
  get_cr4 T (set_cr3 T v s) = get_cr4 T s.
Proof. unfold set_cr3. by destruct (get_nst_on (regs s)), T. Qed.

(** Switching nested paging keeps the guest's view. *)
Definition view (T : vm) s : Z * Z * Z * Z :=
  (get_cr0 T s, get_g_cr2 T s, get_cr3 T s, get_cr4 T s).

Lemma view_read T cr s s' : view T s' = view T s → read_cr T cr s' = read_cr T cr s.
Proof. unfold view. intros [= E1 E2 E3 E4]. unfold read_cr. by rewrite E1, E2, E3, E4. Qed.

Lemma same_state_view T s s' : cr_state s' = cr_state s → view T s' = view T s.
Proof.
  intros He. unfold view.
  pose proof (same_view T 0 s s' He) as [= ->]. pose proof (same_view T 2 s s' He) as [= ->].
  pose proof (same_view T 3 s s' He) as [= ->]. by pose proof (same_view T 4 s s' He) as [= ->].
Qed.

Lemma nst_switch_view T on s :
  host_ok → words s → view T (nst_switch T on s) = view T s.
Proof.
  intros Hh Hw. pose proof (get_cr_words T s Hh Hw) as (W0 & W3 & W4).
  unfold view, nst_switch. set (s1 := upd_regs (set_nst_on on) s).
  set (s2 := set_cr0 T (get_cr0 T s) s1). set (s3 := set_cr3 T (get_cr3 T s) s2).
  destruct (set_cr4_others T (get_cr4 T s) s3) as (-> & -> & ->).
  rewrite get_set_cr4 by done.
  destruct (set_cr3_others T (get_cr3 T s) s2) as (E2 & E0 & _). fold s3 in E2, E0.
  rewrite E2, E0. unfold s3. rewrite get_set_cr3 by done.
  destruct (set_cr0_others T (get_cr0 T s) s1) as (E2' & _ & _). fold s2 in E2'.
  rewrite E2'. unfold s2. rewrite get_set_cr0 by done. by destruct T.
Qed.

Lemma nst_controls_state T s : cr_state (nst_controls T s) = cr_state s.
Proof.
  destruct T; [|done]. unfold nst_controls, svm_set_cpu_ctrl0.
  by destruct (get_nst_on (regs s)).
Qed.

Lemma write_efer_state T v s : cr_state (write_efer T v s) = cr_state s.
Proof. destruct T; [done|]. unfold write_efer. by case_match. Qed.

Lemma shadowed_cr3_view T v s :
  get_nst_on (regs s) = false → view T (set_g_cr3 T v s) = view T s.
Proof.
  intros Hn. unfold view, get_cr3.
  assert (get_nst_on (regs (set_g_cr3 T v s)) = false) as -> by by destruct T.
  rewrite Hn. by destruct T.
Qed.

Lemma nst_ctrl_view T on s : host_ok → words s → view T (nst_ctrl T on s) = view T s.
Proof.
  intros Hh Hw. unfold nst_ctrl. set (b := _ && on).
  assert (view T (nst_controls T (nst_switch T b s)) = view T s) as E.
  { rewrite (same_state_view T _ _ (nst_controls_state T _)). by apply nst_switch_view. }
  case_match eqn:Hn; [done|]. by rewrite shadowed_cr3_view.
Qed.

Lemma flush_state T t b s : cr_state (flush_unless_nested T t b s) = cr_state s.
Proof.
  unfold flush_unless_nested, tlb_flush. case_match; [|done].
  destruct T; simpl; case_match; done.
Qed.

Lemma tlb_flush_state T f s : cr_state (tlb_flush T f s) = cr_state s.
Proof. unfold tlb_flush. destruct T; simpl; case_match; done. Qed.

Lemma words_regs k v s : word 64 v → words s → words (upd_regs (wr k v) s).
Proof. intros Hv Hw k'. destruct (Hw k') as (? & ? & ?). simpl. unfold wr. by case_match. Qed.

Lemma field_width_range e : field_width e = 16 ∨ field_width e = 32 ∨ field_width e = 64.
Proof. unfold field_width. repeat case_match; auto. Qed.

Lemma words_vmwrite e v s : words s → words (vmwrite e v s).
Proof.
  intros Hw k. destruct (Hw k) as (? & ? & ?). simpl. unfold wr. case_match; [|done].
  split_and!; try done.
  destruct (field_width_range e) as [-> | [-> | ->]]; [| |by apply wrap_word].
  - destruct (wrap_word 16 v); [lia|]. split; lia.
  - destruct (wrap_word 32 v); [lia|]. split; lia.
Qed.

Lemma words_bwrite f v s : word 64 v → words s → words (bwrite f v s).
Proof. intros Hv Hw k. destruct (Hw k) as (? & ? & ?). simpl. unfold wr. by case_match. Qed.

Lemma words_flush x s : words s → words (log_flush x s).
Proof. done. Qed.

Lemma words_set_cr0 T v s : host_ok → word 64 v → words s → words (set_cr0 T v s).
Proof.
  intros Hh Hv Hw. pose proof (set_word T s Hh) as [Hs _]. unfold set_cr0, set_s_cr0, set_g_cr0.
  destruct T.
  - apply words_regs; [done|]. apply words_bwrite; [|done].
    apply lor_word; [lia|by apply land_word_l|by apply land_word_l].
  - apply words_vmwrite, words_regs; [done|]. by apply words_vmwrite.
Qed.

Lemma words_tlb_flush T f s : words s → words (tlb_flush T f s).
Proof.
  intros Hw. unfold tlb_flush. destruct T; case_match; try done. apply words_bwrite; [|done].
  by vm_compute.
Qed.

Lemma toggle_paging_view T v s : host_ok → words s → view T (toggle_paging T v s) = view T s.
Proof.
  intros Hh Hw. unfold toggle_paging. set (s1 := if has_urg T then s else _).
  assert (view T s1 = view T s) as <- by (subst s1; case_match; [done|by apply nst_ctrl_view]).
  case_match; by rewrite (same_state_view T _ _ (write_efer_state T _ _)).
Qed.

Lemma read_other T c cr s s' :
  cr ≠ c →
  (0 = c ∨ get_cr0 T s' = get_cr0 T s) → (2 = c ∨ get_g_cr2 T s' = get_g_cr2 T s) →
  (3 = c ∨ get_cr3 T s' = get_cr3 T s) → (4 = c ∨ get_cr4 T s' = get_cr4 T s) →
  read_cr T cr s' = read_cr T cr s.
Proof. intros Hne ????. unfold read_cr. repeat case_match; try done; f_equal; tauto. Qed.

(** Control registers read back as written: when a guest (or its monitor)
    writes CR0, CR2, CR3 or CR4, the write is defined, the register then reads
    as the value written and the other three read as before; whatever bits the
    hypervisor forces, and also when the write switches between nested and
    shadow paging. *)
Theorem write_read_cr T cr v s :
  host_ok → words s → word 64 v → cr ∈ [0; 2; 3; 4] →
  ∃ s', write_cr T cr v s = Some s' ∧ read_cr T cr s' = Some v ∧
    ∀ cr', cr' ≠ cr → read_cr T cr' s' = read_cr T cr' s.
Proof.
  intros Hh Hw Hv Hcr.
  rewrite !elem_of_cons, elem_of_nil in Hcr.
  destruct Hcr as [-> | [-> | [-> | [-> | []]]]]; eexists; (split; [reflexivity|]).
  - set (t := (get_cr0 T s .^ v)%W). set (b := (CR0_PG .| CR0_WP .| CR0_PE)%W).
    set (s1 := flush_unless_nested T t b s).
    assert (view T s1 = view T s) as E1 by apply same_state_view, flush_state.
    assert (words s1) as W1.
    { subst s1. unfold flush_unless_nested. case_match; [by apply words_tlb_flush|done]. }
    set (s2 := set_cr0 T v s1). set (s3 := if truthy _ then _ else s2).
    assert (view T s3 = view T s2) as E3.
    { subst s3. case_match; [|done]. apply toggle_paging_view; [done|].
      by apply words_set_cr0. }
    split.
    + rewrite (view_read T 0 _ _ E3). unfold read_cr, s2. by rewrite get_set_cr0.
    + intros cr' Hne. rewrite (view_read T cr' _ _ E3).
      destruct (set_cr0_others T v s1) as (? & ? & ?).
      rewrite (read_other T 0 cr' s1) by auto. by apply view_read.
  - split; [by destruct T|]. intros cr' Hne.
    apply (read_other T 2); auto; by right; destruct T.
  - set (s1 := if get_nst_on (regs s) then s else tlb_flush T false s). split.
    + unfold read_cr. by rewrite get_set_cr3.
    + intros cr' Hne. destruct (set_cr3_others T v s1) as (? & ? & ?).
      rewrite (read_other T 3 cr' s1) by auto. apply view_read. subst s1.
      case_match; [done|]. apply same_state_view, tlb_flush_state.
  - set (s1 := flush_unless_nested _ _ _ _). split.
    + unfold read_cr. by rewrite get_set_cr4.
    + intros cr' Hne. destruct (set_cr4_others T v s1) as (? & ? & ?).
      rewrite (read_other T 4 cr' s1) by auto.
      apply view_read, same_state_view, flush_state.
Qed.

(** ** Forced controls *)

Definition within_mask (x y : Z) : Prop := (x .& y)%W = x.

Lemma within_refl x : within_mask x x.
Proof. apply Z.land_diag. Qed.

Lemma within_forced x st cl : within_mask st cl → within_mask st ((x .| st) .& cl)%W.
Proof.
  unfold within_mask. intros H. rewrite (Z.land_comm (x .| st)%W), Z.land_assoc, H.
  rewrite Z.land_lor_distr_r, Z.land_diag. bitwise.
  by destruct (Z.testbit st i), (Z.testbit x i).
Qed.

Lemma within_clr x cl : within_mask (x .& cl)%W cl.
Proof. unfold within_mask. by rewrite <-Z.land_assoc, Z.land_diag. Qed.

Lemma wrap_within w x cl : 0 ≤ w → word w cl → wrap w (x .& cl)%W = (x .& cl)%W.
Proof. intros. apply wrap_small. by apply land_word_r. Qed.

Lemma within_lor x y z : within_mask x y → within_mask x (z .| y)%W.
Proof.
  unfold within_mask. intros H. rewrite Z.land_lor_distr_r, H. bitwise.
  by destruct (Z.testbit x i), (Z.testbit z i).
Qed.

Lemma within_wrap w x y : 0 ≤ w → word w x → within_mask x y → within_mask x (wrap w y).
Proof.
  intros Hw Hx H. unfold within_mask in *. apply Z.bits_inj'. intros i Hi.
  rewrite Z.land_spec, wrap_bits by done. destruct (Z.ltb_spec i w); simpl.
  - by rewrite <-Z.land_spec, H.
  - by rewrite (word_bits w x) by done.
Qed.

(** Documented properties of the capability MSRs: 32 bits each, and a control
    that must be set may be set. *)
Definition controls_ok : Prop :=
  word 32 (ctrl0_clr h) ∧ word 32 (ctrl1_clr h) ∧
  within_mask (ctrl0_set h) (ctrl0_clr h) ∧ within_mask (ctrl1_set h) (ctrl1_clr h).

(** Bits that are taken and bits that are left. *)
Lemma forced_bits x st cl m : ((x .| st) .& cl .& m)%W = (((x .& m) .| st) .& cl .& m)%W.
Proof. bitwise. by destruct (Z.testbit x i), (Z.testbit st i), (Z.testbit cl i), (Z.testbit m i). Qed.

Lemma set_bits x m : ((x .| m) .& m)%W = m.
Proof. bitwise. by destruct (Z.testbit x i), (Z.testbit m i). Qed.

Lemma clear_bits x n m : (n .& m)%W = 0 → ((x .& n) .& m)%W = 0.
Proof. intros Hz. by rewrite <-Z.land_assoc, Hz, Z.land_0_r. Qed.

Lemma wrap_bits_within x m : word 32 m → (wrap 32 x .& m)%W = (x .& m)%W.
Proof.
  intros Hm. apply Z.bits_inj'. intros i Hi. rewrite !Z.land_spec, wrap_bits by done.
  destruct (Z.ltb_spec i 32); [done|]. by rewrite (word_bits 32 m), !andb_false_r by done.
Qed.

(** The intercepts that shadow paging needs. *)
Definition shadow_msk : Z := Eval cbv in (CPU_INVLPG .| CPU_CR3_LOAD .| CPU_CR3_STORE)%W.

(** The controls are such that a guest cannot turn off what the processor or
    the hypervisor requires: controls that must be set are, others are only set
    if they may be; INVLPG and accesses to CR3 exit unless paging is nested (and
    with nested paging only if the processor insists), and the second-stage
    translation is on exactly if it is nested, as far as the processor lets it. *)
Definition vmx_ctrl0_ok s : Prop :=
  within_mask (ctrl0_set h) (vmread CPU_EXEC_CTRL0 s) ∧
  within_mask (vmread CPU_EXEC_CTRL0 s) (ctrl0_clr h) ∧
  (vmread CPU_EXEC_CTRL0 s .& shadow_msk)%W =
    (((if get_nst_on (regs s) then 0 else shadow_msk) .| ctrl0_set h) .& ctrl0_clr h .& shadow_msk)%W.

Definition vmx_ctrl1_ok s : Prop :=
  within_mask (ctrl1_set h) (vmread CPU_EXEC_CTRL1 s) ∧
  within_mask (vmread CPU_EXEC_CTRL1 s) (ctrl1_clr h) ∧
  (vmread CPU_EXEC_CTRL1 s .& CPU_EPT)%W =
    (((if get_nst_on (regs s) then CPU_EPT else 0) .| ctrl1_set h) .& ctrl1_clr h .& CPU_EPT)%W.

Definition vmx_confined s : Prop := vmx_ctrl0_ok s ∧ vmx_ctrl1_ok s.

(** On AMD-V reads and writes of CR3 are bits 3 and 19 of [intercept_cr]. *)
Definition svm_ctrl0_ok s : Prop :=
  let nst := get_nst_on (regs s) in
  within_mask force_ctrl0 (vmcb s intercept_cpu0) ∧
  (vmcb s intercept_cpu0 .& SVM_INVLPG)%W = (if nst then force_ctrl0 .& SVM_INVLPG else SVM_INVLPG)%W ∧
  (vmcb s intercept_cr .& 0x80008)%W = (if nst then 0 else 0x80008) ∧
  vmcb s npt_control = Z.b2z nst.

Definition svm_ctrl1_ok s : Prop := within_mask force_ctrl1 (vmcb s intercept_cpu1).

Definition svm_confined s : Prop := svm_ctrl0_ok s ∧ svm_ctrl1_ok s.

(** The writers of the controls leave them so, whatever value they are given. *)
Lemma vmx_ctrl0_sets v s : controls_ok → vmx_ctrl0_ok (vmx_set_cpu_ctrl0 v s).
Proof.
  intros (Hw0 & _ & H0 & _). unfold vmx_set_cpu_ctrl0, vmx_ctrl0_ok. cbn -[within_mask wrap shadow_msk get_nst_on].
  all: change (wrap _ ?x) with (wrap 32 x); rewrite wrap_within by done.
  split_and!; [by apply within_forced|apply within_clr|].
  change (CPU_INVLPG .| CPU_CR3_LOAD .| CPU_CR3_STORE)%W with shadow_msk.
  rewrite forced_bits. destruct (get_nst_on (regs s)); [rewrite (clear_bits v (not32 shadow_msk)) by (by vm_compute)|rewrite set_bits]; reflexivity.
Qed.

Lemma vmx_ctrl1_sets v s : controls_ok → vmx_ctrl1_ok (vmx_set_cpu_ctrl1 v s).
Proof.
  intros (_ & Hw1 & _ & H1). unfold vmx_set_cpu_ctrl1, vmx_ctrl1_ok. cbn -[within_mask wrap CPU_EPT get_nst_on].
  all: change (wrap _ ?x) with (wrap 32 x); rewrite wrap_within by done.
  split_and!; [by apply within_forced|apply within_clr|].
  rewrite forced_bits. destruct (get_nst_on (regs s)); [rewrite set_bits|rewrite (clear_bits v (not32 CPU_EPT)) by (by vm_compute)]; reflexivity.
Qed.

Lemma vmx_controls_confined v0 v1 s :
  controls_ok → vmx_confined (vmx_set_cpu_ctrl1 v1 (vmx_set_cpu_ctrl0 v0 s)).
Proof. intros Hc. split; [exact (vmx_ctrl0_sets v0 s Hc)|by apply vmx_ctrl1_sets]. Qed.

Lemma force_word : word 32 force_ctrl0 ∧ word 32 force_ctrl1.
Proof. by vm_compute. Qed.

Lemma svm_ctrl0_sets v s : svm_ctrl0_ok (svm_set_cpu_ctrl0 v s).
Proof.
  assert (word 32 SVM_INVLPG) as Hi by by vm_compute.
  unfold svm_set_cpu_ctrl0. set (r0 := truthy (cr0_msk Vmcb s)). set (r4 := truthy (cr4_msk Vmcb s)).
  clearbody r0 r4. unfold svm_ctrl0_ok.
  destruct (get_nst_on (regs s)) eqn:En; cbn [regs bwrite upd_vmcb]; rewrite En; cbn -[within_mask wrap force_ctrl0 SVM_INVLPG not32];
    (split_and!; [apply within_wrap; [lia|apply force_word|]; apply within_lor, within_refl| |by destruct r0, r4|done]);
    rewrite wrap_bits_within, Z.land_lor_distr_l by done.
  - by rewrite clear_bits by (by vm_compute).
  - rewrite set_bits. by vm_compute.
Qed.

Lemma svm_ctrl1_sets v s : svm_ctrl1_ok (svm_set_cpu_ctrl1 v s).
Proof. apply within_wrap; [lia|apply force_word|]. apply within_lor, within_refl. Qed.

(** What [confined] depends on. *)
Definition ctrl_state s : list Z :=
  [Z.b2z (get_nst_on (regs s)); vmread CPU_EXEC_CTRL0 s; vmread CPU_EXEC_CTRL1 s; vmcb s intercept_cpu0;
   vmcb s intercept_cpu1; vmcb s intercept_cr; vmcb s npt_control; regs s xsv_xcr; regs s xsv_xss].

Lemma set_cr0_ctrl T v s : ctrl_state (set_cr0 T v s) = ctrl_state s.
Proof. by destruct T. Qed.

Lemma set_cr3_ctrl T v s : ctrl_state (set_cr3 T v s) = ctrl_state s.
Proof. unfold set_cr3. by destruct T, (get_nst_on (regs s)). Qed.

Lemma set_cr4_ctrl T v s : ctrl_state (set_cr4 T v s) = ctrl_state s.
Proof. by destruct T. Qed.

Lemma set_exc_ctrl T s : ctrl_state (set_exc T s) = ctrl_state s.
Proof. by destruct T. Qed.

Lemma tlb_flush_ctrl T f s : ctrl_state (tlb_flush T f s) = ctrl_state s.
Proof. unfold tlb_flush. destruct T; simpl; case_match; done. Qed.

(** XSAVE state the guest may load. *)
Definition xsave_ok s : Prop :=
  within_mask (regs s xsv_xcr) (hst_xcr h) ∧ within_mask (regs s xsv_xss) (hst_xss h).

Definition confined (T : vm) s : Prop :=
  (match T with Vmcb => svm_confined s | Vmcs => vmx_confined s end) ∧ xsave_ok s.

Lemma same_ctrl T s s' : ctrl_state s' = ctrl_state s → confined T s → confined T s'.
Proof.
  intros He. assert (∀ i, nth i (ctrl_state s') 0 = nth i (ctrl_state s) 0) as Hi by by rewrite He.
  pose proof (Z.b2z_inj _ _ (Hi 0%nat)) as E1. pose proof (Hi 1%nat) as E2. pose proof (Hi 2%nat) as E3.
  pose proof (Hi 3%nat) as E4. pose proof (Hi 4%nat) as E5. pose proof (Hi 5%nat) as E6.
  pose proof (Hi 6%nat) as E7. pose proof (Hi 7%nat) as E8. pose proof (Hi 8%nat) as E9.
  cbn [ctrl_state nth] in *.
  unfold confined, svm_confined, svm_ctrl0_ok, svm_ctrl1_ok, vmx_confined, vmx_ctrl0_ok, vmx_ctrl1_ok, xsave_ok.
  by rewrite E1, E2, E3, E4, E5, E6, E7, E8, E9.
Qed.

Lemma nst_controls_xsave T s : xsave_ok (nst_controls T s) ↔ xsave_ok s.
Proof.
  destruct T; [|done]. unfold nst_controls, svm_set_cpu_ctrl0.
  by destruct (get_nst_on (regs s)).
Qed.

Lemma nst_switch_xsave T on s : xsave_ok (nst_switch T on s) ↔ xsave_ok s.
Proof. unfold nst_switch, set_cr3. destruct T; by destruct (get_nst_on (regs _)). Qed.

(** Whatever the controls were before. *)
Lemma nst_controls_confined T s : controls_ok → xsave_ok s → confined T (nst_controls T s).
Proof.
  intros Hc Hx. split; [|by apply nst_controls_xsave]. destruct T; unfold nst_controls.
  - split; [exact (svm_ctrl0_sets _ s)|]. set (s1 := svm_set_cpu_ctrl0 _ s). exact (svm_ctrl1_sets _ s1).
  - exact (vmx_controls_confined _ _ s Hc).
Qed.

Lemma nst_ctrl_confined T on s : controls_ok → confined T s → confined T (nst_ctrl T on s).
Proof.
  intros Hc [_ Hx]. unfold nst_ctrl. set (b := _ && on).
  assert (confined T (nst_controls T (nst_switch T b s))) as Hn
    by (apply nst_controls_confined; [done|by apply nst_switch_xsave]).
  case_match; [done|]. eapply (same_ctrl T); [|exact Hn]. generalize (nst_controls T (nst_switch T b s)).
  intros s1. by destruct T.
Qed.

Lemma toggle_paging_confined T v s :
  controls_ok → confined T s → confined T (toggle_paging T v s).
Proof.
  intros Hc Hs. unfold toggle_paging. set (s1 := if has_urg T then s else _).
  assert (confined T s1) by (subst s1; case_match; [done|by apply nst_ctrl_confined]).
  assert (∀ e, confined T (write_efer T e s1)).
  { intros e. apply (same_ctrl T s1); [|done]. destruct T; [done|]. unfold write_efer.
    by case_match. }
  case_match; auto.
Qed.

Lemma flush_ctrl T t b s : ctrl_state (flush_unless_nested T t b s) = ctrl_state s.
Proof.
  unfold flush_unless_nested. case_match; [apply tlb_flush_ctrl|done].
Qed.

(** No write to a control register loosens the controls. *)
Lemma write_cr_confined T cr v s s' :
  controls_ok → write_cr T cr v s = Some s' → confined T s → confined T s'.
Proof.
  intros Hc Hrun Hs. unfold write_cr in Hrun. repeat case_match; try done; injection Hrun as <-.
  - apply toggle_paging_confined; [done|].
    apply (same_ctrl T s); [by rewrite set_cr0_ctrl, flush_ctrl|done].
  - apply (same_ctrl T s); [by rewrite set_cr0_ctrl, flush_ctrl|done].
  - apply (same_ctrl T s); [by rewrite set_cr3_ctrl|done].
  - apply (same_ctrl T s); [by rewrite set_cr3_ctrl, tlb_flush_ctrl|done].
  - apply (same_ctrl T s); [by rewrite set_cr4_ctrl, flush_ctrl|done].
  - apply (same_ctrl T s); [by destruct T|done].
Qed.
End cpu_regs.

(** ** A concrete machine *)

Definition demo_host : host := {|
  vmx_cr0_set := 0x21; vmx_cr0_clr := 0; vmx_cr4_set := 0x2000; vmx_cr4_clr := 0;
  ctrl0_set := 0x401e172; ctrl0_clr := 0xfff9fffe; ctrl1_set := 0; ctrl1_clr := 0xa2;
  svm_feature := 1; hip_vmx := true; hip_svm := false;
  ptr_to_phys := λ p, p; msr_read := λ _, 0; hst_xcr := 7; hst_xss := 0 |}.

(** A guest in real mode with nested paging off. *)
Definition demo_vcpu : vcpu := {|
  regs := λ _, 0; vmcs := wr CPU_EXEC_CTRL0 0x401e372 (λ _, 0);
  vmcb := wr intercept_cpu0 (force_ctrl0 .| SVM_INVLPG)%W (wr intercept_cpu1 force_ctrl1
    (wr intercept_cr 0x80008 (λ _, 0)));
  guest_msrs := λ _, 0; host_msrs := λ _, 0; vtpr := 0; flushes := [] |}.

Lemma demo_words : words demo_vcpu.
Proof.
  intros k. cbn. unfold wr. repeat case_match; split_and!; by vm_compute.
Qed.

Lemma demo_host_ok : host_ok demo_host ∧ controls_ok demo_host.
Proof. by vm_compute. Qed.

(** The guest turns paging on. *)
Lemma write_read_cr_witness :
  ∃ s', write_cr demo_host Vmcs 0 (CR0_PG + CR0_PE) demo_vcpu = Some s' ∧
    read_cr demo_host Vmcs 0 s' = Some (CR0_PG + CR0_PE) ∧
    ∀ cr', cr' ≠ 0 → read_cr demo_host Vmcs cr' s' = read_cr demo_host Vmcs cr' demo_vcpu.
Proof.
  apply (write_read_cr demo_host Vmcs 0 (CR0_PG + CR0_PE) demo_vcpu).
  - apply demo_host_ok.
  - apply demo_words.
  - by vm_compute.
  - left.
Defined.
