(* ===== verification/Sysargs.v ===== *)
(** Hypercall arguments: the classes of [include/syscall.hpp].

    A hypercall passes its number, flags and a selector in the first argument
    register, further arguments in up to four more.  Each class of the source
    reads (and sometimes writes) the registers of one hypercall; its methods
    are the definitions here, prefixed by the name of the class. *)
From S2P Require Import Prelude Crd Vregs.

Open Scope Z_scope.

(** How a hypercall ends, [Sys_regs::Status]. *)
Inductive Status :=
  | SUCCESS | COM_TIM | COM_ABT | BAD_HYP | BAD_CAP | BAD_PAR | BAD_FTR | BAD_CPU | BAD_DEV | QUO_OOM.

Definition status_val (s : Status) : Z :=
  match s with
  | SUCCESS => 0 | COM_TIM => 1 | COM_ABT => 2 | BAD_HYP => 3 | BAD_CAP => 4 | BAD_PAR => 5
  | BAD_FTR => 6 | BAD_CPU => 7 | BAD_DEV => 8 | QUO_OOM => 9
  end.

(** Where a handler ends: with a status, in the wait of the caller, or in a call
    of its handler for lack of memory. *)
Inductive outcome := Finish (st : Status) | Blocked | Oom_call.

(** [Ec::check]: nothing if the quota of the domain has room. *)
Definition check (hit_limit pt_oom call : bool) : option outcome :=
  if hit_limit then Some (if pt_oom && call then Oom_call else Finish QUO_OOM) else None.

(** ** Accessors *)

(** *** [Sys_call] *)
Definition Sys_call_pt (r : mem) : Z := (r ARG_1 >> 9)%W.

(** *** [Sys_create_pd] *)
Definition Sys_create_pd_sel (r : mem) : Z := (r ARG_1 >> 9)%W.
Definition Sys_create_pd_pd (r : mem) : Z := r ARG_2.
Definition Sys_create_pd_crd (r : mem) : Z := crd_of (r ARG_3).
Definition Sys_create_pd_limit_lower (r : mem) : Z := (r ARG_4 .& (ones64 >> (8 * 4)))%W.
Definition Sys_create_pd_limit_upper (r : mem) : Z := (r ARG_4 >> (8 * 4))%W.

(** *** [Sys_create_ec] *)
Definition Sys_create_ec_sel (r : mem) : Z := (r ARG_1 >> 9)%W.
Definition Sys_create_ec_pd (r : mem) : Z := r ARG_2.
Definition Sys_create_ec_cpu (r : mem) : Z := wrap 32 (r ARG_3 .& 0xfff)%W.
Definition Sys_create_ec_utcb (r : mem) : Z := (r ARG_3 .& wnot 0xfff)%W.
Definition Sys_create_ec_esp (r : mem) : Z := r ARG_4.
Definition Sys_create_ec_evt (r : mem) : Z := wrap 32 (r ARG_5).

(** *** [Sys_create_sc] *)
Definition Sys_create_sc_sel (r : mem) : Z := (r ARG_1 >> 9)%W.
Definition Sys_create_sc_pd (r : mem) : Z := r ARG_2.
Definition Sys_create_sc_ec (r : mem) : Z := r ARG_3.
Definition Sys_create_sc_qpd (r : mem) : Z := r ARG_4.

(** *** [Sys_create_pt] *)
Definition Sys_create_pt_sel (r : mem) : Z := (r ARG_1 >> 9)%W.
Definition Sys_create_pt_pd (r : mem) : Z := r ARG_2.
Definition Sys_create_pt_ec (r : mem) : Z := r ARG_3.
Definition Sys_create_pt_mtd (r : mem) : Z := r ARG_4.
Definition Sys_create_pt_eip (r : mem) : Z := r ARG_5.

(** *** [Sys_create_sm] *)
Definition Sys_create_sm_sel (r : mem) : Z := (r ARG_1 >> 9)%W.
Definition Sys_create_sm_pd (r : mem) : Z := r ARG_2.
Definition Sys_create_sm_cnt (r : mem) : Z := r ARG_3.
Definition Sys_create_sm_sm (r : mem) : Z := r ARG_4.

(** *** [Sys_revoke] *)
Definition Sys_revoke_crd (r : mem) : Z := crd_of (r ARG_2).
Definition Sys_revoke_self (r : mem) : bool := truthy (flags r .& 0x1)%W.
Definition Sys_revoke_remote (r : mem) : bool := truthy (flags r .& 0x2)%W.
Definition Sys_revoke_keep (r : mem) : bool := truthy (flags r .& 0x4)%W.
Definition Sys_revoke_pd (r : mem) : Z := r ARG_3.
Definition Sys_revoke_sm (r : mem) : Z := (r ARG_1 >> 9)%W.
Definition Sys_revoke_rem (p : Z) (r : mem) : mem := wr ARG_3 p r.

(** *** [Sys_misc] *)
Definition Sys_misc_crd (r : mem) : Z := crd_of (r ARG_2).
Definition Sys_misc_pd_snd (r : mem) : Z := (r ARG_1 >> 9)%W.
Definition Sys_misc_pd_dst (r : mem) : Z := r ARG_3.
Definition Sys_misc_sleep_type_a (r : mem) : Z := r ARG_2.
Definition Sys_misc_sleep_type_b (r : mem) : Z := r ARG_3.

(** *** [Sys_reply] *)
Definition Sys_reply_sm (r : mem) : Z := (r ARG_1 >> 9)%W.
Definition Sys_reply_sm_kern (r : mem) : Z := r ARG_1.

(** *** [Sys_ec_ctrl] *)
Definition Sys_ec_ctrl_ec (r : mem) : Z := (r ARG_1 >> 9)%W.
Definition Sys_ec_ctrl_cnt (r : mem) : Z := r ARG_2.
Definition Sys_ec_ctrl_mtd_value (r : mem) : Z := r ARG_2.
Definition Sys_ec_ctrl_op (r : mem) : Z := (flags r .& 0xf)%W.
Definition Sys_ec_ctrl_state (r : mem) : bool := r ARG_2 =? 1.
Definition Sys_ec_ctrl_recall (r : mem) : bool := r ARG_2 =? 1.
Definition Sys_ec_ctrl_cpu (r : mem) : Z := wrap 32 (r ARG_2 .& 0xfff)%W.
Definition Sys_ec_ctrl_crd (r : mem) : Z := crd_of (r ARG_3).
Definition Sys_ec_ctrl_set_time (val : Z) (r : mem) : mem := wr ARG_3 val (wr ARG_2 (val >> 32)%W r).

(** *** [Sys_sc_ctrl] *)
Definition Sys_sc_ctrl_sc (r : mem) : Z := (r ARG_1 >> 9)%W.
Definition Sys_sc_ctrl_ec (r : mem) : Z := r ARG_2.
Definition Sys_sc_ctrl_op (r : mem) : Z := (flags r .& 0x3)%W.
Definition Sys_sc_ctrl_set_time (val : Z) (r : mem) : mem := wr ARG_3 val (wr ARG_2 (val >> 32)%W r).
Definition Sys_sc_ctrl_set_time2 (val val2 : Z) (r : mem) : mem :=
  wr ARG_5 val2 (wr ARG_4 (val2 >> 32)%W (wr ARG_3 val (wr ARG_2 (val >> 32)%W r))).

(** *** [Sys_pt_ctrl] *)
Definition Sys_pt_ctrl_pt (r : mem) : Z := (r ARG_1 >> 9)%W.
Definition Sys_pt_ctrl_id (r : mem) : Z := r ARG_2.

(** *** [Sys_sm_ctrl] *)
Definition Sys_sm_ctrl_sm (r : mem) : Z := (r ARG_1 >> 9)%W.
Definition Sys_sm_ctrl_op (r : mem) : Z := (flags r .& 0x1)%W.
Definition Sys_sm_ctrl_zc (r : mem) : Z := (flags r .& 0x2)%W.
Definition Sys_sm_ctrl_time (r : mem) : Z := (r ARG_2 << 32 .| r ARG_3)%W.

(** *** [Sys_pd_ctrl] *)
Definition Sys_pd_ctrl_src (r : mem) : Z := (r ARG_1 >> 9)%W.
Definition Sys_pd_ctrl_dbg (r : mem) : Z := (flags r .& 0x2)%W.
Definition Sys_pd_ctrl_del (r : mem) : Z := (flags r .& 0x4)%W.
Definition Sys_pd_ctrl_dst (r : mem) : Z := r ARG_2.
Definition Sys_pd_ctrl_tra (r : mem) : Z := r ARG_3.
Definition Sys_pd_ctrl_dump (l u : Z) (r : mem) : mem := wr ARG_3 u (wr ARG_2 l r).

(** *** [Sys_assign_pci] *)
Definition Sys_assign_pci_pd (r : mem) : Z := (r ARG_1 >> 9)%W.
Definition Sys_assign_pci_dev (r : mem) : Z := r ARG_2.
Definition Sys_assign_pci_hnt (r : mem) : Z := r ARG_3.

(** *** [Sys_assign_gsi] *)
Definition Sys_assign_gsi_sm (r : mem) : Z := (r ARG_1 >> 9)%W.
Definition Sys_assign_gsi_dev (r : mem) : Z := r ARG_2.
Definition Sys_assign_gsi_cpu (r : mem) : Z := wrap 32 (r ARG_3).
Definition Sys_assign_gsi_si (r : mem) : Z := r ARG_4.
Definition Sys_assign_gsi_cfg (r : mem) : bool := truthy (flags r .& 4)%W.
Definition Sys_assign_gsi_trg (r : mem) : bool := truthy (flags r .& 2)%W.
Definition Sys_assign_gsi_pol (r : mem) : bool := truthy (flags r .& 1)%W.
Definition Sys_assign_gsi_set_msi (val : Z) (r : mem) : mem := wr ARG_3 val (wr ARG_2 (val >> 32)%W r).

(** *** [Sys_create_cell] *)
Definition Sys_create_cell_pd (r : mem) : Z := (r ARG_1 >> 9)%W.
Definition Sys_create_cell_prio (r : mem) : Z := wrap 16 (flags r .& 0xff)%W.
Definition Sys_create_cell_dst (r : mem) : Z := r ARG_2.
Definition Sys_create_cell_cip (cip_pa : Z) (r : mem) : mem := wr ARG_3 cip_pa r.

(** *** [Sys_cell_ctrl] *)
Definition Sys_cell_ctrl_op (r : mem) : Z := (flags r .& 0xf)%W.
Definition Sys_cell_ctrl_sel (r : mem) : Z := (r ARG_1 >> 9)%W.
Definition Sys_cell_ctrl_use_shadow (r : mem) : bool := truthy (r ARG_2).

(** *** [Sys_alloc] *)
Definition Sys_alloc_quantity (r : mem) : Z := wrap 32 (r ARG_1 >> 9)%W.
Definition Sys_alloc_type (r : mem) : Z := (flags r .& 0xf)%W.

(** *** [Sys_release] *)
Definition Sys_release_op (r : mem) : Z := (flags r .& 0xf)%W.
Definition Sys_release_type (r : mem) : Z := (r ARG_1 >> 9)%W.

(** *** [Sys_map_tip] *)
Definition Sys_map_tip_sel (r : mem) : Z := (r ARG_1 >> 9)%W.

(** ** Requests

    What user space packs into the registers, as the entry path and the classes
    take it apart: number in bits 0 to 4 of the first argument (the entry path
    masks with 0x1f), flags in bits 5 to 8, selector above. *)

Definition hypercall_number (r : mem) : Z := (r ARG_1 .& 0x1f)%W.

Definition request_word (n fl sel : Z) : Z := (sel * 2 ^ 4 + fl) * 2 ^ 5 + n.

Inductive request :=
  | Call (fl pt : Z)
  | Create_pd (sel pd : Z) (c : crd) (lower upper : Z)
  | Create_ec (sel pd cpu utcb esp evt : Z)
  | Create_sc (sel pd ec prio quantum : Z)
  | Create_pt (sel pd ec m eip : Z)
  | Create_sm (sel pd cnt sm : Z)
  | Revoke (self remote keep : bool) (sm : Z) (c : crd) (pd : Z)
  | Ec_ctrl (op ec cnt : Z) (c : crd)
  | Sc_ctrl (op sc ec : Z)
  | Sm_ctrl (op zc : bool) (sm time : Z)
  | Pd_ctrl (dbg del : bool) (src dst tra : Z)
  | Assign_gsi (cfg trg pol : bool) (sm dev cpu si : Z)
  | Alloc (type quantity : Z)
  | Release (op type : Z).

Definition selector (s : Z) : Prop := word 55 s.

(** The ranges the registers have room for. *)
Definition request_ok (q : request) : Prop :=
  match q with
  | Call fl pt => word 4 fl ∧ selector pt
  | Create_pd sel pd c lower upper => selector sel ∧ word 32 lower ∧ word 32 upper
  | Create_ec sel pd cpu utcb esp evt =>
    selector sel ∧ word 12 cpu ∧ word 52 (utcb / 2 ^ 12) ∧ utcb mod 2 ^ 12 = 0 ∧ word 32 evt
  | Create_sc sel pd ec prio quantum => selector sel ∧ word 8 prio ∧ word 32 quantum
  | Create_pt sel _ _ _ _ | Create_sm sel _ _ _ => selector sel
  | Revoke _ _ _ sm _ _ => selector sm
  | Ec_ctrl op ec _ _ => word 4 op ∧ selector ec
  | Sc_ctrl op sc _ => word 2 op ∧ selector sc
  | Sm_ctrl _ _ sm time => selector sm ∧ word 64 time
  | Pd_ctrl _ _ src _ _ => selector src
  | Assign_gsi _ _ _ sm _ cpu _ => selector sm ∧ word 32 cpu
  | Alloc type quantity => word 4 type ∧ word 32 quantity
  | Release op type => word 4 op ∧ selector type
  end.

Definition bit (b : bool) (n : Z) : Z := Z.b2z b * 2 ^ n.

Definition args (n fl sel a2 a3 a4 a5 : Z) (r : mem) : mem :=
  wr ARG_5 a5 (wr ARG_4 a4 (wr ARG_3 a3 (wr ARG_2 a2 (wr ARG_1 (request_word n fl sel) r)))).

Definition pack (n : Z) (q : request) (r : mem) : mem :=
  match q with
  | Call fl pt => args n fl pt 0 0 0 0 r
  | Create_pd sel pd c lower upper => args n 0 sel pd c (upper * 2 ^ 32 + lower) 0 r
  | Create_ec sel pd cpu utcb esp evt => args n 0 sel pd (utcb + cpu) esp evt r
  | Create_sc sel pd ec prio quantum => args n 0 sel pd ec (quantum * 2 ^ 12 + prio) 0 r
  | Create_pt sel pd ec m eip => args n 0 sel pd ec m eip r
  | Create_sm sel pd cnt sm => args n 0 sel pd cnt sm 0 r
  | Revoke self remote keep sm c pd =>
    args n (bit self 0 + bit remote 1 + bit keep 2) sm c pd 0 0 r
  | Ec_ctrl op ec cnt c => args n op ec cnt c 0 0 r
  | Sc_ctrl op sc ec => args n op sc ec 0 0 0 r
  | Sm_ctrl op zc sm time => args n (bit op 0 + bit zc 1) sm (time / 2 ^ 32) (time mod 2 ^ 32) 0 0 r
  | Pd_ctrl dbg del src dst tra => args n (bit dbg 1 + bit del 2) src dst tra 0 0 r
  | Assign_gsi cfg trg pol sm dev cpu si =>
    args n (bit pol 0 + bit trg 1 + bit cfg 2) sm dev cpu si 0 r
  | Alloc type quantity => args n type quantity 0 0 0 0 r
  | Release op type => args n op type 0 0 0 0 r
  end.

(** The request as the accessors read it; [q] says which class. *)
Definition unpack (q : request) (r : mem) : request :=
  match q with
  | Call _ _ => Call (flags r) (Sys_call_pt r)
  | Create_pd _ _ _ _ _ =>
    Create_pd (Sys_create_pd_sel r) (Sys_create_pd_pd r) (Sys_create_pd_crd r)
      (Sys_create_pd_limit_lower r) (Sys_create_pd_limit_upper r)
  | Create_ec _ _ _ _ _ _ =>
    Create_ec (Sys_create_ec_sel r) (Sys_create_ec_pd r) (Sys_create_ec_cpu r)
      (Sys_create_ec_utcb r) (Sys_create_ec_esp r) (Sys_create_ec_evt r)
  | Create_sc _ _ _ _ _ =>
    Create_sc (Sys_create_sc_sel r) (Sys_create_sc_pd r) (Sys_create_sc_ec r)
      (prio (Sys_create_sc_qpd r)) (quantum (Sys_create_sc_qpd r))
  | Create_pt _ _ _ _ _ =>
    Create_pt (Sys_create_pt_sel r) (Sys_create_pt_pd r) (Sys_create_pt_ec r)
      (Sys_create_pt_mtd r) (Sys_create_pt_eip r)
  | Create_sm _ _ _ _ =>
    Create_sm (Sys_create_sm_sel r) (Sys_create_sm_pd r) (Sys_create_sm_cnt r)
      (Sys_create_sm_sm r)
  | Revoke _ _ _ _ _ _ =>
    Revoke (Sys_revoke_self r) (Sys_revoke_remote r) (Sys_revoke_keep r) (Sys_revoke_sm r)
      (Sys_revoke_crd r) (Sys_revoke_pd r)
  | Ec_ctrl _ _ _ _ =>
    Ec_ctrl (Sys_ec_ctrl_op r) (Sys_ec_ctrl_ec r) (Sys_ec_ctrl_cnt r) (Sys_ec_ctrl_crd r)
  | Sc_ctrl _ _ _ => Sc_ctrl (Sys_sc_ctrl_op r) (Sys_sc_ctrl_sc r) (Sys_sc_ctrl_ec r)
  | Sm_ctrl _ _ _ _ =>
    Sm_ctrl (truthy (Sys_sm_ctrl_op r)) (truthy (Sys_sm_ctrl_zc r)) (Sys_sm_ctrl_sm r)
      (Sys_sm_ctrl_time r)
  | Pd_ctrl _ _ _ _ _ =>
    Pd_ctrl (truthy (Sys_pd_ctrl_dbg r)) (truthy (Sys_pd_ctrl_del r)) (Sys_pd_ctrl_src r)
      (Sys_pd_ctrl_dst r) (Sys_pd_ctrl_tra r)
  | Assign_gsi _ _ _ _ _ _ _ =>
    Assign_gsi (Sys_assign_gsi_cfg r) (Sys_assign_gsi_trg r) (Sys_assign_gsi_pol r)
      (Sys_assign_gsi_sm r) (Sys_assign_gsi_dev r) (Sys_assign_gsi_cpu r) (Sys_assign_gsi_si r)
  | Alloc _ _ => Alloc (Sys_alloc_type r) (Sys_alloc_quantity r)
  | Release _ _ => Release (Sys_release_op r) (Sys_release_type r)
  end.

Lemma request_word_parts n fl sel (r : mem) :
  word 5 n → word 4 fl → selector sel → r ARG_1 = request_word n fl sel →
  hypercall_number r = n ∧ flags r = fl ∧ (r ARG_1 >> 9)%W = sel.
Proof.
  intros Hn Hf Hs Hr. unfold hypercall_number, flags. rewrite Hr. unfold request_word, selector, word in *.
  change 0x1f with (2 ^ 5 - 1). change 0xf with (2 ^ 4 - 1).
  rewrite !land_low, !Z.shiftr_div_pow2 by lia. split_and!; Z.div_mod_to_equations; lia.
Qed.

Lemma flag_bits a b c :
  let x := bit a 0 + bit b 1 + bit c 2 in
  truthy (Z.land x 0x1) = a ∧ truthy (Z.land x 0x2) = b ∧ truthy (Z.land x 0x4) = c ∧ word 4 x.
Proof. by destruct a, b, c. Qed.

Lemma args_at n fl sel a2 a3 a4 a5 r :
  let r' := args n fl sel a2 a3 a4 a5 r in
  r' ARG_1 = request_word n fl sel ∧ r' ARG_2 = a2 ∧ r' ARG_3 = a3 ∧ r' ARG_4 = a4 ∧
  r' ARG_5 = a5.
Proof. done. Qed.

Lemma page_split p l : word 52 (p / 2 ^ 12) → p mod 2 ^ 12 = 0 → word 12 l →
  wrap 32 (Z.land (p + l) 0xfff) = l ∧ Z.land (p + l) (wnot 0xfff) = p.
Proof.
  unfold word. intros Hp Hz Hl. assert (Z.land (p + l) 0xfff = l) as Hlow.
  { change 0xfff with (2 ^ 12 - 1). rewrite land_low by lia. Z.div_mod_to_equations. lia. }
  split; [rewrite Hlow; apply wrap_small; unfold word; lia|].
  assert (p = Z.shiftl (p / 2 ^ 12) 12) as Ep
    by (rewrite Z.shiftl_mul_pow2 by lia; Z.div_mod_to_equations; lia).
  assert (p + l = Z.lor (Z.shiftl (p / 2 ^ 12) 12) l) as ->.
  { rewrite field_split by (unfold word; lia). Z.div_mod_to_equations. lia. }
  rewrite Ep at 2. apply Z.bits_inj'. intros i Hi.
  rewrite Z.land_spec, Z.lor_spec, wnot_bits by by vm_compute.
  rewrite Z.shiftl_spec by done. change 0xfff with (2 ^ 12 - 1).
  rewrite <-ones_pow2, Z.testbit_ones_nonneg by lia.
  destruct (Z.leb_spec 0 i), (Z.ltb_spec i 64), (Z.ltb_spec i 12); simpl; try lia.
  - by rewrite Z.testbit_neg_r, andb_false_r by lia.
  - rewrite (word_bits 12 l) by (unfold word; lia). by rewrite orb_false_r, andb_true_r.
  - rewrite (word_bits 52 (p / 2 ^ 12)) by (unfold word; lia). by rewrite andb_false_r.
Qed.

Lemma pair_split hi lo :
  word 32 hi → word 32 lo →
  Z.land (hi * 2 ^ 32 + lo) (ones64 >> (8 * 4))%W = lo ∧ ((hi * 2 ^ 32 + lo)%Z >> (8 * 4)%Z)%W = hi.
Proof.
  unfold word. intros Hh Hl. change (ones64 >> (8 * 4))%W with (2 ^ 32 - 1).
  change (8 * 4) with 32. rewrite land_low, Z.shiftr_div_pow2 by lia.
  split; Z.div_mod_to_equations; lia.
Qed.

Lemma time_join t :
  word 64 t → (t / 2 ^ 32 << 32 .| t mod 2 ^ 32)%W = t.
Proof.
  intros Ht. unfold word in *. unfold wshl. rewrite wrap_small.
  - rewrite field_split; unfold word; Z.div_mod_to_equations; lia.
  - rewrite Z.shiftl_mul_pow2 by lia. unfold word. Z.div_mod_to_equations. lia.
Qed.

Lemma qpd_parts p q :
  word 8 p → word 32 q → prio (q * 2 ^ 12 + p) = p ∧ quantum (q * 2 ^ 12 + p) = q.
Proof.
  unfold word, prio, quantum. intros Hp Hq. change 0xff with (2 ^ 8 - 1).
  rewrite land_low, Z.shiftr_div_pow2 by lia.
  split; rewrite wrap_small; unfold word; Z.div_mod_to_equations; lia.
Qed.

Lemma land_word_id w x : 0 ≤ w → word w x → Z.land x (2 ^ w - 1) = x.
Proof. intros Hw Hx. rewrite land_low by done. by apply Z.mod_small. Qed.

Ltac accessors :=
  unfold
    Sys_call_pt, Sys_create_pd_sel, Sys_create_pd_pd, Sys_create_pd_crd,
    Sys_create_pd_limit_lower, Sys_create_pd_limit_upper, Sys_create_ec_sel, Sys_create_ec_pd,
    Sys_create_ec_cpu, Sys_create_ec_utcb, Sys_create_ec_esp, Sys_create_ec_evt,
    Sys_create_sc_sel, Sys_create_sc_pd, Sys_create_sc_ec, Sys_create_sc_qpd,
    Sys_create_pt_sel, Sys_create_pt_pd, Sys_create_pt_ec, Sys_create_pt_mtd,
    Sys_create_pt_eip, Sys_create_sm_sel, Sys_create_sm_pd, Sys_create_sm_cnt,
    Sys_create_sm_sm, Sys_revoke_crd, Sys_revoke_self, Sys_revoke_remote, Sys_revoke_keep,
    Sys_revoke_pd, Sys_revoke_sm, Sys_ec_ctrl_ec, Sys_ec_ctrl_cnt, Sys_ec_ctrl_op,
    Sys_ec_ctrl_crd, Sys_sc_ctrl_sc, Sys_sc_ctrl_ec, Sys_sc_ctrl_op, Sys_sm_ctrl_sm,
    Sys_sm_ctrl_op, Sys_sm_ctrl_zc, Sys_sm_ctrl_time, Sys_pd_ctrl_src, Sys_pd_ctrl_dbg,
    Sys_pd_ctrl_del, Sys_pd_ctrl_dst, Sys_pd_ctrl_tra, Sys_assign_gsi_sm, Sys_assign_gsi_dev,
    Sys_assign_gsi_cpu, Sys_assign_gsi_si, Sys_assign_gsi_cfg, Sys_assign_gsi_trg,
    Sys_assign_gsi_pol, Sys_alloc_quantity, Sys_alloc_type, Sys_release_op, Sys_release_type.

Lemma request_read n q x fl sel a2 a3 a4 a5 r :
  word 5 n → word 4 fl → selector sel →
  pack n q r = args n fl sel a2 a3 a4 a5 r →
  (∀ r' : mem, flags r' = fl → (r' ARG_1 >> 9)%W = sel → r' ARG_2 = a2 → r' ARG_3 = a3 →
    r' ARG_4 = a4 → r' ARG_5 = a5 → unpack q r' = x) →
  hypercall_number (pack n q r) = n ∧ unpack q (pack n q r) = x.
Proof.
  intros Hn Hf Hs -> Hx.
  destruct (request_word_parts n fl sel (args n fl sel a2 a3 a4 a5 r) Hn Hf Hs) as (H1 & H2 & H3);
    [done|]. split; [exact H1|]. by apply Hx.
Qed.

(** Hypercall arguments do not interfere: for every request whose
    parameters fit the fields, the entry path finds its number and the accessors
    of its class give back exactly the parameters, flags, selectors, descriptors
    and 64-bit times alike. *)
Theorem request_roundtrip n q r :
  word 5 n → request_ok q →
  hypercall_number (pack n q r) = n ∧ unpack q (pack n q r) = q.
Proof.
  intros Hn Hq.
  assert (∀ x, word 4 x → Z.land x 0xf = x) as H4 by (intros; by apply (land_word_id 4)).
  assert (∀ x, word 2 x → Z.land x 0x3 = x) as H2 by (intros; by apply (land_word_id 2)).
  destruct q; cbn [request_ok] in Hq; eapply request_read; try reflexivity; try done;
    try (intros r' Hfl Hsel E2 E3 E4 E5; cbn [unpack]; accessors;
         rewrite ?Hfl, ?Hsel, ?E2, ?E3, ?E4, ?E5); try tauto;
    try (by repeat match goal with b : bool |- _ => destruct b end).
  - destruct (pair_split upper lower) as [-> ->]; tauto.
  - destruct (page_split utcb cpu) as [-> ->]; try tauto. by rewrite wrap_small by tauto.
  - destruct (qpd_parts prio quantum) as [-> ->]; tauto.
  - rewrite H4 by tauto. done.
  - destruct Hq as [Hq _]. unfold word in *. lia.
  - rewrite H2 by tauto. done.
  - rewrite time_join by tauto. by destruct op, zc.
  - rewrite wrap_small by tauto. by destruct cfg, trg, pol.
  - destruct Hq as [_ Hq]. unfold selector, word in *. lia.
  - rewrite H4, wrap_small by tauto. done.
  - rewrite H4 by tauto. done.
Qed.

(** The priority of a new cell is at most 15: [prio] masks the flags with
    0xff, but the flags of a hypercall are only four bits wide. *)
Theorem create_cell_prio_bound r : 0 ≤ Sys_create_cell_prio r ≤ 15.
Proof.
  unfold Sys_create_cell_prio, flags. rewrite <-Z.land_assoc.
  change (Z.land 0xf 0xff) with (2 ^ 4 - 1). rewrite land_low by lia.
  pose proof (Z.mod_pos_bound (r ARG_1 >> 5)%W (2 ^ 4) ltac:(lia)).
  rewrite wrap_small; [lia|]. unfold word. lia.
Qed.

(** Revoke rights to 16 pages in a remote domain, keeping the caller's. *)
Lemma request_roundtrip_witness :
  let q := Revoke false true false 0x123 (crd_make 1 0x80 4 0x1f) 0x42 in
  hypercall_number (pack 6 q (λ _, 0)) = 6 ∧ unpack q (pack 6 q (λ _, 0)) = q.
Proof. intros q. apply (request_roundtrip 6 q (λ _, 0)); by vm_compute. Defined.
