(* ===== verification/Utcb.v ===== *)
(** Message transfer areas: [Utcb] of [include/utcb.hpp] and [src/utcb.cpp].

    When an exception or a VM exit is sent to a portal, the state of the
    faulting context is copied into the UTCB of the handler, and back from it
    when the handler replies; the descriptor [mtd] selects the groups of
    registers.  The data area of a UTCB is an array of 508 words [mr] whose
    first words have names; two 32-bit fields share a word. *)
From S2P Require Import Prelude Vregs.
From stdpp Require Import list functions.
Open Scope Z_scope.

(** ** The data area

    [sta] is the pair [intr_state], [actv_state], [inj] the pair [intr_info],
    [intr_error], [ctrl] the pair of controls, [tprs] the pair [tpr],
    [tpr_threshold].  A segment is two words: selector (16 bits), attributes
    (16 bits) and limit (32 bits), then the base. *)
Inductive utcb_field :=
  | u_mtd | u_inst_len | u_rip | u_rflags | u_sta | u_inj | u_rax | u_rcx | u_rdx | u_rbx
  | u_rsp | u_rbp | u_rsi | u_rdi | u_r8 | u_r9 | u_r10 | u_r11 | u_r12 | u_r13 | u_r14
  | u_r15 | u_qual0 | u_qual1 | u_ctrl | u_cr0 | u_cr2 | u_cr3 | u_cr4 | u_xcr0 | u_xss
  | u_pdpte0 | u_pdpte1 | u_pdpte2 | u_pdpte3 | u_cr8 | u_efer | u_star | u_lstar | u_cstar
  | u_sfmask | u_kernel_gs_base | u_tprs | u_dr7 | u_sysenter_cs | u_sysenter_rsp
  | u_sysenter_rip | u_es | u_cs | u_ss | u_ds | u_fs | u_gs | u_ld | u_tr | u_gd | u_id
  | u_tsc_val | u_tsc_off | u_tsc_aux | u_exit_value | u_fpu.

Definition mr_index (f : utcb_field) : Z :=
  match f with
  | u_mtd => 0 | u_inst_len => 1 | u_rip => 2 | u_rflags => 3 | u_sta => 4 | u_inj => 5
  | u_rax => 6 | u_rcx => 7 | u_rdx => 8 | u_rbx => 9 | u_rsp => 10 | u_rbp => 11
  | u_rsi => 12 | u_rdi => 13 | u_r8 => 14 | u_r9 => 15 | u_r10 => 16 | u_r11 => 17
  | u_r12 => 18 | u_r13 => 19 | u_r14 => 20 | u_r15 => 21 | u_qual0 => 22 | u_qual1 => 23
  | u_ctrl => 24 | u_cr0 => 25 | u_cr2 => 26 | u_cr3 => 27 | u_cr4 => 28 | u_xcr0 => 29
  | u_xss => 30 | u_pdpte0 => 31 | u_pdpte1 => 32 | u_pdpte2 => 33 | u_pdpte3 => 34
  | u_cr8 => 35 | u_efer => 36 | u_star => 37 | u_lstar => 38 | u_cstar => 39
  | u_sfmask => 40 | u_kernel_gs_base => 41 | u_tprs => 42 | u_dr7 => 43
  | u_sysenter_cs => 44 | u_sysenter_rsp => 45 | u_sysenter_rip => 46 | u_es => 47
  | u_cs => 49 | u_ss => 51 | u_ds => 53 | u_fs => 55 | u_gs => 57 | u_ld => 59
  | u_tr => 61 | u_gd => 63 | u_id => 65 | u_tsc_val => 67 | u_tsc_off => 68
  | u_tsc_aux => 69 | u_exit_value => 70 | u_fpu => 71
  end.

Coercion mr_index : utcb_field >-> Z.

Definition PAGE_SIZE : Z := 4096.
Definition sizeof_head : Z := 32.
Definition words_max : Z := (PAGE_SIZE - sizeof_head) / 8.

Record utcb := Utcb { items : Z; xlt : Z; del : Z; tls : Z; mr : mem }.

Definition lo32 (w : Z) : Z := wrap 32 w.
Definition hi32 (w : Z) : Z := (w >> 32)%W.
Definition set_lo (k v : Z) (m : mem) : mem := wr k (wrap 32 v .| (hi32 (m k) << 32))%W m.
Definition set_hi (k v : Z) (m : mem) : mem := wr k (lo32 (m k) .| (wrap 32 v << 32))%W m.

(** ** [Mtd::Item] *)
Inductive Item :=
  | GPR_ACDB | GPR_BSD | RSP | RIP_LEN | RFLAGS | DS_ES | FS_GS | CS_SS | TR | LDTR | GDTR
  | IDTR | CR | DR | SYSENTER | QUAL | CTRL | INJ | STA | TSC | EFER | PDPTE | GPR_R8_R15
  | SYSCALL_SWAPGS | TPR | TSC_AUX | XSAVE | FPU.

Definition item (i : Item) : Z :=
  match i with
  | GPR_ACDB => 2 ^ 0 | GPR_BSD => 2 ^ 1 | RSP => 2 ^ 2 | RIP_LEN => 2 ^ 3
  | RFLAGS => 2 ^ 4 | DS_ES => 2 ^ 5 | FS_GS => 2 ^ 6 | CS_SS => 2 ^ 7 | TR => 2 ^ 8
  | LDTR => 2 ^ 9 | GDTR => 2 ^ 10 | IDTR => 2 ^ 11 | CR => 2 ^ 12 | DR => 2 ^ 13
  | SYSENTER => 2 ^ 14 | QUAL => 2 ^ 15 | CTRL => 2 ^ 16 | INJ => 2 ^ 17 | STA => 2 ^ 18
  | TSC => 2 ^ 19 | EFER => 2 ^ 20 | PDPTE => 2 ^ 21 | GPR_R8_R15 => 2 ^ 22
  | SYSCALL_SWAPGS => 2 ^ 23 | TPR => 2 ^ 24 | TSC_AUX => 2 ^ 25 | XSAVE => 2 ^ 26
  | FPU => 2 ^ 31
  end.

Coercion item : Item >-> Z.

(** [if (m & i) x = f (x)]. *)
Definition on {A} (m : Z) (i : Item) (f : A → A) (x : A) : A :=
  if truthy (m .& i)%W then f x else x.

(** Assignments of words, in order. *)
Definition copy (l : list (Z * Z)) (src dst : mem) : mem :=
  foldl (λ dst '(d, s), wr d (src s) dst) dst l.

(** ** Exceptions *)

Definition gpr_acdb : list (Z * Z) :=
  [(u_rax : Z, rax : Z); (u_rcx : Z, rcx : Z); (u_rdx : Z, rdx : Z); (u_rbx : Z, rbx : Z)].
Definition gpr_bsd : list (Z * Z) :=
  [(u_rbp : Z, rbp : Z); (u_rsi : Z, rsi : Z); (u_rdi : Z, rdi : Z)].
Definition gpr_r8_r15 : list (Z * Z) :=
  [(u_r8 : Z, r8 : Z); (u_r9 : Z, r9 : Z); (u_r10 : Z, r10 : Z); (u_r11 : Z, r11 : Z);
   (u_r12 : Z, r12 : Z); (u_r13 : Z, r13 : Z); (u_r14 : Z, r14 : Z); (u_r15 : Z, r15 : Z)].

Definition back : list (Z * Z) → list (Z * Z) := map (λ '(a, b), (b, a)).

Definition load_exc (r : mem) (u : utcb) : bool * utcb :=
  let m := r mtd in
  let w := mr u in
  let w := on m GPR_ACDB (copy gpr_acdb r) w in
  let w := on m GPR_BSD (copy gpr_bsd r) w in
  let w := on m GPR_R8_R15 (copy gpr_r8_r15 r) w in
  let w := on m RSP (wr u_rsp (r rsp)) w in
  let w := on m RIP_LEN (wr u_rip (r rip)) w in
  let w := on m RFLAGS (wr u_rflags (r rfl)) w in
  let w := on m QUAL (λ w, wr u_qual1 (r cr2) (wr u_qual0 (r err) w)) w in
  let w := wr u_mtd m w in
  (truthy (m .& FPU)%W, Utcb words_max (xlt u) (del u) (tls u) w).

Definition EFL_IF : Z := 2 ^ 9.
Definition EFL_IOPL : Z := 3 * 2 ^ 12.
Definition EFL_RF : Z := 2 ^ 16.
Definition EFL_VIF : Z := 2 ^ 19.
Definition EFL_VIP : Z := 2 ^ 20.
Definition efl_privileged : Z := (EFL_VIP .| EFL_VIF .| EFL_VM .| EFL_RF .| EFL_IOPL)%W.

Definition save_exc (u : utcb) (r : mem) : bool * mem :=
  let w := mr u in
  let m := w u_mtd in
  let r := on m GPR_ACDB (copy (back gpr_acdb) w) r in
  let r := on m GPR_BSD (copy (back gpr_bsd) w) r in
  let r := on m GPR_R8_R15 (copy (back gpr_r8_r15) w) r in
  let r := on m RSP (wr rsp (w u_rsp)) r in
  let r := on m RIP_LEN (wr rip (w u_rip)) r in
  let r := on m RFLAGS (wr rfl (w u_rflags .& wnot efl_privileged .| EFL_IF)%W) r in
  (truthy (m .& FPU)%W, r).

(** ** Reading through a transfer

    [look] evaluates the contents of a named word after a sequence of selected
    assignments. *)
Lemma on_skip (m : Z) (i : Item) (f : mem → mem) (x : mem) (k : Z) :
  f x k = x k → on m i f x k = x k.
Proof. intros H. unfold on. by case_match. Qed.

Lemma on_hit (m : Z) (i : Item) (f : mem → mem) (x : mem) (k : Z) :
  truthy (m .& i)%W = true → on m i f x k = f x k.
Proof. intros H. unfold on. by rewrite H. Qed.

Ltac look :=
  repeat match goal with
  | |- context [on ?m ?i ?f ?x ?k] =>
    first [rewrite (on_skip m i f x k) by reflexivity | rewrite (on_hit m i f x k) by done]
  | |- context [wr ?k1 ?v ?m ?k2] =>
    first [change (wr k1 v m k2) with (m k2) | change (wr k1 v m k2) with v]
  end.

(** Copying back what was copied out changes nothing. *)
Lemma copy_back (l : list (Z * Z)) (w r dst : mem) k :
  Forall (λ '(d, s), w d = r s) l → (∀ k, dst k = r k) → copy (back l) w dst k = r k.
Proof.
  intros Hl. unfold copy. revert dst. induction Hl as [|[d s] l Hd Hl IH]; intros dst Hk; [apply Hk|].
  simpl. apply IH. intros k'. unfold wr. case_match; [|apply Hk].
  rewrite Hd. f_equal. lia.
Qed.

Lemma on_keeps (m : Z) (i : Item) (f : mem → mem) (r dst : mem) k :
  (truthy (m .& i)%W = true → f dst k = r k) → dst k = r k → on m i f dst k = r k.
Proof. intros Hf Hd. unfold on. case_match; auto. Qed.

Lemma on_copy_back (m : Z) (i : Item) l (w r dst : mem) k :
  (truthy (m .& i)%W = true → Forall (λ '(d, s), w d = r s) l) →
  (∀ k, dst k = r k) → on m i (copy (back l) w) dst k = r k.
Proof. intros Hl Hd. apply on_keeps; [|done]. intros Hm. apply copy_back; auto. Qed.

Lemma on_wr_back (m : Z) (i : Item) (c v : Z) (r dst : mem) k :
  (truthy (m .& i)%W = true → v = r c) → (∀ k, dst k = r k) → on m i (wr c v) dst k = r k.
Proof.
  intros Hv Hd. apply on_keeps; [|done]. intros Hm. unfold wr. case_match; [|done].
  rewrite Hv by done. f_equal. lia.
Qed.

(** The flags a user may choose; the rest is fixed. *)
Definition user_flags (f : Z) : Z := (f .& wnot efl_privileged .| EFL_IF)%W.

(** An exception message is faithful: a handler that replies with the
    message it received leaves every register of the faulting context as it
    was, except that the privileged flags are replaced by the values user mode
    runs with; and both transfers agree on whether FPU state goes along. *)
Theorem exc_roundtrip r u :
  let '(f, u') := load_exc r u in let '(f', r') := save_exc u' r in
  f' = f ∧
  ∀ k, r' k = if (k =? rfl) && truthy (r mtd .& RFLAGS)%W then user_flags (r rfl) else r k.
Proof.
  unfold load_exc. set (m := r mtd). unfold save_exc. cbn [mr]. set (w := wr u_mtd m _).
  assert (w u_mtd = m) as -> by done. split; [done|]. intros k. set (r1 := on m RIP_LEN _ _).
  assert (∀ k, r1 k = r k) as H1.
  { clear k. subst r1. intros k.
    apply on_wr_back; [intros Hm; subst w; by look|]. clear k. intros k.
    apply on_wr_back; [intros Hm; subst w; by look|]. clear k. intros k.
    do 3 (apply on_copy_back;
      [intros Hm; repeat apply Forall_cons_2; try apply Forall_nil_2; subst w; by look|];
      clear k; intros k).
    done. }
  unfold on. destruct (truthy (m .& RFLAGS)%W) eqn:Hf; [|by rewrite andb_false_r, H1].
  unfold wr. rewrite andb_true_r. case_match; [|by rewrite H1].
  unfold user_flags. do 2 f_equal. subst w. by look.
Qed.

(** The registers a handler may set. *)
Definition user_regs : list Z :=
  (snd <$> gpr_acdb) ++ (snd <$> gpr_bsd) ++ (snd <$> gpr_r8_r15) ++
  [rsp : Z; rip : Z; rfl : Z].

Lemma copy_other l (src dst : mem) k : k ∉ l.*1 → copy l src dst k = dst k.
Proof.
  unfold copy. revert dst. induction l as [|[d s] l IH]; intros dst Hk; [done|]. simpl in *.
  apply not_elem_of_cons in Hk as [Hne Hk]. rewrite IH by done. unfold wr.
  by destruct (Z.eqb_spec k d).
Qed.

Lemma on_copy_other m i l (src dst : mem) k : k ∉ l.*1 → on m i (copy l src) dst k = dst k.
Proof. intros. unfold on. case_match; [by apply copy_other|done]. Qed.

Lemma on_wr_other m i c v (dst : mem) k : k ≠ c → on m i (wr c v) dst k = dst k.
Proof. intros. apply on_skip. unfold wr. by destruct (Z.eqb_spec k c). Qed.

Lemma back_fst l : (back l).*1 = l.*2.
Proof. induction l as [|[a b] l IH]; [done|]. cbn. f_equal. exact IH. Qed.

Lemma user_flags_safe f :
  (user_flags f .& efl_privileged)%W = 0 ∧ (user_flags f .& EFL_IF)%W = EFL_IF.
Proof.
  unfold user_flags. rewrite !Z.land_lor_distr_l, <-!Z.land_assoc.
  change (wnot efl_privileged .& efl_privileged)%W with 0.
  change (EFL_IF .& efl_privileged)%W with 0. change (EFL_IF .& EFL_IF)%W with EFL_IF.
  rewrite Z.land_0_r. split; [done|].
  change (wnot efl_privileged .& EFL_IF)%W with EFL_IF. bitwise.
  destruct (Z.testbit f i), (Z.testbit EFL_IF i); done.
Qed.

(** A reply to an exception cannot raise privileges: whatever a handler
    leaves in its UTCB, the reply changes no register but the general-purpose
    ones, the stack and instruction pointers and the flags, so segment
    selectors, CR2 and the hypervisor's words stay; and the flags are either
    untouched or have interrupts on and no I/O privilege, virtual-8086 mode or
    resume flag. *)
Theorem exc_reply_confined u r :
  let '(_, r') := save_exc u r in
  (∀ k, k ∉ user_regs → r' k = r k) ∧
  (r' rfl = r rfl ∨
   (r' rfl .& efl_privileged)%W = 0 ∧ (r' rfl .& EFL_IF)%W = EFL_IF).
Proof.
  unfold save_exc. set (m := mr u u_mtd). split.
  - intros k Hk. unfold user_regs in Hk.
    rewrite !not_elem_of_app, !not_elem_of_cons in Hk.
    destruct Hk as (H1 & H2 & H3 & Hsp & Hip & Hfl & _).
    rewrite !on_wr_other by done. by rewrite !on_copy_other by (by rewrite back_fst).
  - destruct (truthy (m .& RFLAGS)%W) eqn:Hm.
    + right. rewrite on_hit by done. apply user_flags_safe.
    + left. unfold on at 1. rewrite Hm. by look.
Qed.

(** ** Segments *)

(** [Utcb_segment::set_vmx]: the attributes drop the reserved bits 8 to 11. *)
Definition set_vmx (k s b l a : Z) (w : mem) : mem :=
  let ar := wrap 16 ((a >> 4 .& 0x1f00) .| (a .& 0xff))%W in
  wr (k + 1) b (wr k (wrap 16 s .| (ar << 16) .| (wrap 32 l << 32))%W w).

Definition seg_sel (k : Z) (w : mem) : Z := wrap 16 (w k).
Definition seg_ar (k : Z) (w : mem) : Z := wrap 16 (w k >> 16)%W.
Definition seg_limit (k : Z) (w : mem) : Z := wrap 32 (w k >> 32)%W.
Definition seg_base (k : Z) (w : mem) : Z := w (k + 1).

Definition load_seg (k : utcb_field) (sel base limit ar : Encoding) (s : vcpu) (w : mem) : mem :=
  set_vmx k (vmread sel s) (vmread base s) (vmread limit s) (vmread ar s) w.

Definition save_seg (k : utcb_field) (sel base limit ar : Encoding) (w : mem) (s : vcpu) : vcpu :=
  let s := vmwrite sel (seg_sel k w) s in
  let s := vmwrite base (seg_base k w) s in
  let s := vmwrite limit (seg_limit k w) s in
  vmwrite ar ((seg_ar k w << 4 .& 0x1f000) .| (seg_ar k w .& 0xff))%W s.

Definition load_dtr (k : utcb_field) (base limit : Encoding) (s : vcpu) (w : mem) : mem :=
  set_vmx k 0 (vmread base s) (vmread limit s) 0 w.

Definition save_dtr (k : utcb_field) (base limit : Encoding) (w : mem) (s : vcpu) : vcpu :=
  vmwrite limit (seg_limit k w) (vmwrite base (seg_base k w) s).

(** ** Host and guest MSRs of a VMCS *)

Inductive area_msr := ia32_star | ia32_lstar | ia32_cstar | ia32_sfmask | ia32_kernel_gs_base.

(** Position in [Msr_area] and the number of the MSR. *)
Definition area_index (x : area_msr) : Z :=
  match x with
  | ia32_star => 0 | ia32_lstar => 1 | ia32_cstar => 2 | ia32_sfmask => 3
  | ia32_kernel_gs_base => 4
  end.
Coercion area_index : area_msr >-> Z.

Definition msr_number (x : area_msr) : Z :=
  match x with
  | ia32_star => 0xc0000081 | ia32_lstar => 0xc0000082 | ia32_cstar => 0xc0000083
  | ia32_sfmask => 0xc0000084 | ia32_kernel_gs_base => 0xc0000102
  end.

Definition area_msrs : list (Z * Z) :=
  [(u_star : Z, ia32_star : Z); (u_lstar : Z, ia32_lstar : Z); (u_cstar : Z, ia32_cstar : Z);
   (u_sfmask : Z, ia32_sfmask : Z); (u_kernel_gs_base : Z, ia32_kernel_gs_base : Z)].

Definition upd_guest_msrs (f : mem → mem) (s : vcpu) : vcpu :=
  Vcpu (regs s) (vmcs s) (vmcb s) (f (guest_msrs s)) (host_msrs s) (vtpr s) (flushes s).
Definition upd_host_msrs (f : mem → mem) (s : vcpu) : vcpu :=
  Vcpu (regs s) (vmcs s) (vmcb s) (guest_msrs s) (f (host_msrs s)) (vtpr s) (flushes s).
Definition set_vtpr (v : Z) (s : vcpu) : vcpu :=
  Vcpu (regs s) (vmcs s) (vmcb s) (guest_msrs s) (host_msrs s) v (flushes s).

(** ** Portal numbers of VM exits *)

Definition NUM_VMI : Z := 256.
Definition VM_EXIT_RECALL : Z := NUM_VMI - 1.
Definition VM_EXIT_INVSTATE : Z := NUM_VMI - 3.
Definition VM_EXIT_NPT : Z := NUM_VMI - 4.

(** ** XSAVE state: [Fpu::State_xsv] *)

Definition XSV_X87 : Z := 2 ^ 0.
Definition XSV_SSE : Z := 2 ^ 1.
Definition XSV_AVX : Z := 2 ^ 2.
Definition XSV_AVX512 : Z := 2 * 2 ^ 7 - 1 * 2 ^ 5.

Section transfer.
Context (h : host).

Definition constrain_xcr (v : Z) : Z :=
  let v := if truthy (v .& XSV_AVX512)%W then (v .| (XSV_AVX512 .| XSV_AVX))%W else v in
  let v := if truthy (v .& XSV_AVX)%W then (v .| XSV_SSE)%W else v in
  let v := (v .| XSV_X87)%W in
  (hst_xcr h .& v)%W.

Definition constrain_xss (v : Z) : Z := (hst_xss h .& v)%W.

(** ** VT-x *)

Definition rd (T : vm) (cr : Z) (s : vcpu) : Z := default 0 (read_cr h T cr s).

Definition load_crs (T : vm) (s : vcpu) (w : mem) : mem :=
  wr u_cr4 (rd T 4 s) (wr u_cr3 (rd T 3 s) (wr u_cr2 (rd T 2 s) (wr u_cr0 (rd T 0 s) w))).

Definition save_crs (T : vm) (w : mem) (s : vcpu) : option vcpu :=
  s ← write_cr h T 0 (w u_cr0) s;
  s ← write_cr h T 2 (w u_cr2) s;
  s ← write_cr h T 3 (w u_cr3) s;
  write_cr h T 4 (w u_cr4) s.

(** The fields that are copied unchanged. *)
Definition vread (l : list (Z * Encoding)) (s : vcpu) (w : mem) : mem :=
  foldl (λ w '(k, e), wr k (vmread e s) w) w l.
Definition vwrite (l : list (Z * Encoding)) (w : mem) (s : vcpu) : vcpu :=
  foldl (λ s '(k, e), vmwrite e (w k) s) s l.

Definition vmx_sysenter : list (Z * Encoding) :=
  [(u_sysenter_cs : Z, GUEST_SYSENTER_CS); (u_sysenter_rsp : Z, GUEST_SYSENTER_ESP);
   (u_sysenter_rip : Z, GUEST_SYSENTER_EIP)].
Definition vmx_pdpte : list (Z * Encoding) :=
  [(u_pdpte0 : Z, GUEST_PDPTE0); (u_pdpte1 : Z, GUEST_PDPTE1);
   (u_pdpte2 : Z, GUEST_PDPTE2); (u_pdpte3 : Z, GUEST_PDPTE3)].

(** [tsc] is the time stamp counter at the call. *)
Definition load_vmx (tsc : Z) (s : vcpu) (u : utcb) : bool * utcb :=
  let r := regs s in
  let m := r mtd in
  let w := mr u in
  let w := on m GPR_ACDB (copy gpr_acdb r) w in
  let w := on m GPR_BSD (copy gpr_bsd r) w in
  let w := on m GPR_R8_R15 (copy gpr_r8_r15 r) w in
  let w := on m RSP (wr u_rsp (vmread GUEST_RSP s)) w in
  let w := on m RIP_LEN (λ w, wr u_inst_len (vmread EXI_INST_LEN s)
                                (wr u_rip (vmread GUEST_RIP s) w)) w in
  let w := on m RFLAGS (wr u_rflags (vmread GUEST_RFLAGS s)) w in
  let w := on m DS_ES (λ w,
    load_seg u_es GUEST_SEL_ES GUEST_BASE_ES GUEST_LIMIT_ES GUEST_AR_ES s
      (load_seg u_ds GUEST_SEL_DS GUEST_BASE_DS GUEST_LIMIT_DS GUEST_AR_DS s w)) w in
  let w := on m FS_GS (λ w,
    load_seg u_gs GUEST_SEL_GS GUEST_BASE_GS GUEST_LIMIT_GS GUEST_AR_GS s
      (load_seg u_fs GUEST_SEL_FS GUEST_BASE_FS GUEST_LIMIT_FS GUEST_AR_FS s w)) w in
  let w := on m CS_SS (λ w,
    load_seg u_ss GUEST_SEL_SS GUEST_BASE_SS GUEST_LIMIT_SS GUEST_AR_SS s
      (load_seg u_cs GUEST_SEL_CS GUEST_BASE_CS GUEST_LIMIT_CS GUEST_AR_CS s w)) w in
  let w := on m TR (load_seg u_tr GUEST_SEL_TR GUEST_BASE_TR GUEST_LIMIT_TR GUEST_AR_TR s) w in
  let w := on m LDTR
    (load_seg u_ld GUEST_SEL_LDTR GUEST_BASE_LDTR GUEST_LIMIT_LDTR GUEST_AR_LDTR s) w in
  let w := on m GDTR (load_dtr u_gd GUEST_BASE_GDTR GUEST_LIMIT_GDTR s) w in
  let w := on m IDTR (load_dtr u_id GUEST_BASE_IDTR GUEST_LIMIT_IDTR s) w in
  let w := on m CR (load_crs Vmcs s) w in
  let w := on m DR (wr u_dr7 (vmread GUEST_DR7 s)) w in
  let w := on m SYSENTER (vread vmx_sysenter s) w in
  let w := on m QUAL (λ w,
    let ept := r dst_portal =? 48 in
    wr u_qual1 (if ept then r nst_fault else vmread INFO_PHYS_ADDR s)
      (wr u_qual0 (if ept then r nst_error else vmread EXI_QUALIFICATION s) w)) w in
  let w := on m INJ (λ w,
    let entry := (r dst_portal =? 33) || (r dst_portal =? VM_EXIT_RECALL) in
    set_hi u_inj (vmread (if entry then ENT_INTR_ERROR else IDT_VECT_ERROR) s)
      (set_lo u_inj (vmread (if entry then ENT_INTR_INFO else IDT_VECT_INFO) s) w)) w in
  let w := on m STA (λ w, set_hi u_sta (vmread GUEST_ACTV_STATE s)
                            (set_lo u_sta (vmread GUEST_INTR_STATE s) w)) w in
  let w := on m TSC (λ w, wr u_tsc_off (r tsc_offset) (wr u_tsc_val tsc w)) w in
  let w := on m TSC_AUX (wr u_tsc_aux (r tsc_aux)) w in
  let w := on m XSAVE (λ w, wr u_xss (r xsv_xss) (wr u_xcr0 (r xsv_xcr) w)) w in
  let w := on m EFER (wr u_efer (vmread GUEST_EFER s)) w in
  let w := on m SYSCALL_SWAPGS (copy area_msrs (guest_msrs s)) w in
  let w := on m TPR (λ w, set_hi u_tprs (vmread TPR_THRESHOLD s)
                            (set_lo u_tprs (vtpr s) w)) w in
  let w := on m PDPTE (vread vmx_pdpte s) w in
  let w := wr u_exit_value (r dst_portal) w in
  let w := wr u_mtd m w in
  (truthy (m .& FPU)%W, Utcb words_max (xlt u) (del u) (tls u) w).

Definition vmx_inject (w : mem) (s : vcpu) : vcpu :=
  let info := lo32 (w u_inj) in
  let val := wrap 32 (vmread CPU_EXEC_CTRL0 s) in
  let val := if truthy (info .& 0x1000)%W then (val .| CPU_INTR_WINDOW)%W
             else (val .& not32 CPU_INTR_WINDOW)%W in
  let val := if truthy (info .& 0x2000)%W then (val .| CPU_NMI_WINDOW)%W
             else (val .& not32 CPU_NMI_WINDOW)%W in
  let s := vmx_set_cpu_ctrl0 h val s in
  let s := vmwrite ENT_INTR_INFO (info .& not32 0x3000)%W s in
  vmwrite ENT_INTR_ERROR (hi32 (w u_inj)) s.

Definition save_xsave (w : mem) (r : mem) : mem :=
  wr xsv_xss (constrain_xss (w u_xss)) (wr xsv_xcr (constrain_xcr (w u_xcr0)) r).

Definition host_area (s : vcpu) : vcpu :=
  upd_host_msrs (λ a, foldl (λ a x, wr (area_index x) (msr_read h (msr_number x)) a) a
    [ia32_star; ia32_lstar; ia32_cstar; ia32_sfmask; ia32_kernel_gs_base]) s.

(** Up to the control registers, and from the debug register on. *)
Definition save_vmx_state (w : mem) (s : vcpu) : vcpu :=
  let m := w u_mtd in
  let s := on m GPR_ACDB (upd_regs (copy (back gpr_acdb) w)) s in
  let s := on m GPR_BSD (upd_regs (copy (back gpr_bsd) w)) s in
  let s := on m GPR_R8_R15 (upd_regs (copy (back gpr_r8_r15) w)) s in
  let s := on m RSP (vmwrite GUEST_RSP (w u_rsp)) s in
  let s := on m RIP_LEN (λ s, vmwrite ENT_INST_LEN (w u_inst_len)
                                (vmwrite GUEST_RIP (w u_rip) s)) s in
  let s := on m RFLAGS (vmwrite GUEST_RFLAGS (w u_rflags)) s in
  let s := on m DS_ES (λ s,
    save_seg u_es GUEST_SEL_ES GUEST_BASE_ES GUEST_LIMIT_ES GUEST_AR_ES w
      (save_seg u_ds GUEST_SEL_DS GUEST_BASE_DS GUEST_LIMIT_DS GUEST_AR_DS w s)) s in
  let s := on m FS_GS (λ s,
    save_seg u_gs GUEST_SEL_GS GUEST_BASE_GS GUEST_LIMIT_GS GUEST_AR_GS w
      (save_seg u_fs GUEST_SEL_FS GUEST_BASE_FS GUEST_LIMIT_FS GUEST_AR_FS w s)) s in
  let s := on m CS_SS (λ s,
    save_seg u_ss GUEST_SEL_SS GUEST_BASE_SS GUEST_LIMIT_SS GUEST_AR_SS w
      (save_seg u_cs GUEST_SEL_CS GUEST_BASE_CS GUEST_LIMIT_CS GUEST_AR_CS w s)) s in
  let s := on m TR (save_seg u_tr GUEST_SEL_TR GUEST_BASE_TR GUEST_LIMIT_TR GUEST_AR_TR w) s in
  let s := on m LDTR
    (save_seg u_ld GUEST_SEL_LDTR GUEST_BASE_LDTR GUEST_LIMIT_LDTR GUEST_AR_LDTR w) s in
  let s := on m GDTR (save_dtr u_gd GUEST_BASE_GDTR GUEST_LIMIT_GDTR w) s in
  on m IDTR (save_dtr u_id GUEST_BASE_IDTR GUEST_LIMIT_IDTR w) s.

Definition save_vmx_rest (w : mem) (s : vcpu) : vcpu :=
  let m := w u_mtd in
  let s := on m DR (vmwrite GUEST_DR7 (w u_dr7)) s in
  let s := on m SYSENTER (vwrite vmx_sysenter w) s in
  let s := on m CTRL (λ s, vmx_set_cpu_ctrl1 h (hi32 (w u_ctrl))
                             (vmx_set_cpu_ctrl0 h (lo32 (w u_ctrl)) s)) s in
  let s := on m INJ (vmx_inject w) s in
  let s := on m STA (λ s, vmwrite GUEST_ACTV_STATE (hi32 (w u_sta))
                            (vmwrite GUEST_INTR_STATE (lo32 (w u_sta)) s)) s in
  let s := on m TSC (upd_regs (add_tsc_offset (w u_tsc_off))) s in
  let s := on m XSAVE (upd_regs (save_xsave w)) s in
  let s := on m EFER (write_efer Vmcs (w u_efer)) s in
  let s := host_area s in
  let s := on m SYSCALL_SWAPGS (upd_guest_msrs (copy (back area_msrs) w)) s in
  let s := on m TPR (λ s, vmwrite TPR_THRESHOLD (hi32 (w u_tprs))
                            (set_vtpr (lo32 (w u_tprs)) s)) s in
  let s := on m PDPTE (vwrite vmx_pdpte w) s in
  let s := on m TSC_AUX (upd_regs (wr tsc_aux (w u_tsc_aux))) s in
  upd_regs (wr dst_portal VM_EXIT_RECALL) s.

Definition save_vmx (u : utcb) (s : vcpu) : option (bool * vcpu) :=
  let w := mr u in
  let m := w u_mtd in
  let s := save_vmx_state w s in
  s ← (if truthy (m .& CR)%W then save_crs Vmcs w s else Some s);
  Some (truthy (m .& FPU)%W, save_vmx_rest w s).

(** ** AMD-V *)

Definition svm_acdb : list (Z * Z) :=
  [(u_rcx : Z, rcx : Z); (u_rdx : Z, rdx : Z); (u_rbx : Z, rbx : Z)].

(** A segment of the VMCB has the layout of the UTCB: two words. *)
Definition svm_seg (k : utcb_field) (f : vmcb_field) : list (Z * Z) :=
  [(k : Z, f : Z); (k + 1, f + 8)].

Definition svm_sysenter : list (Z * Z) :=
  [(u_sysenter_cs : Z, vmcb_sysenter_cs : Z); (u_sysenter_rsp : Z, vmcb_sysenter_esp : Z);
   (u_sysenter_rip : Z, vmcb_sysenter_eip : Z)].
Definition svm_syscall : list (Z * Z) :=
  [(u_star : Z, vmcb_star : Z); (u_lstar : Z, vmcb_lstar : Z); (u_cstar : Z, vmcb_cstar : Z);
   (u_sfmask : Z, vmcb_sfmask : Z); (u_kernel_gs_base : Z, vmcb_kernel_gs_base : Z)].

Definition load_svm (tsc : Z) (s : vcpu) (u : utcb) : bool * utcb :=
  let r := regs s in
  let b := vmcb s in
  let m := r mtd in
  let w := mr u in
  let w := on m GPR_ACDB (λ w, copy svm_acdb r (wr u_rax (b vmcb_rax) w)) w in
  let w := on m GPR_BSD (copy gpr_bsd r) w in
  let w := on m GPR_R8_R15 (copy gpr_r8_r15 r) w in
  let w := on m RSP (wr u_rsp (b vmcb_rsp)) w in
  let w := on m RIP_LEN (wr u_rip (b vmcb_rip)) w in
  let w := on m RFLAGS (wr u_rflags (b vmcb_rflags)) w in
  let w := on m DS_ES (copy (svm_seg u_ds vmcb_ds ++ svm_seg u_es vmcb_es) b) w in
  let w := on m FS_GS (copy (svm_seg u_fs vmcb_fs ++ svm_seg u_gs vmcb_gs) b) w in
  let w := on m CS_SS (copy (svm_seg u_cs vmcb_cs ++ svm_seg u_ss vmcb_ss) b) w in
  let w := on m TR (copy (svm_seg u_tr vmcb_tr) b) w in
  let w := on m LDTR (copy (svm_seg u_ld vmcb_ldtr) b) w in
  let w := on m GDTR (copy (svm_seg u_gd vmcb_gdtr) b) w in
  let w := on m IDTR (copy (svm_seg u_id vmcb_idtr) b) w in
  let w := on m CR (load_crs Vmcb s) w in
  let w := on m DR (wr u_dr7 (b vmcb_dr7)) w in
  let w := on m SYSENTER (copy svm_sysenter b) w in
  let w := on m QUAL (λ w,
    let npt := r dst_portal =? VM_EXIT_NPT in
    wr u_qual1 (if npt then r nst_fault else b exitinfo2)
      (wr u_qual0 (if npt then r nst_error else b exitinfo1) w)) w in
  let w := on m INJ (λ w,
    let entry := (r dst_portal =? VM_EXIT_INVSTATE) || (r dst_portal =? VM_EXIT_RECALL) in
    wr u_inj (if entry then b inj_control else b exitintinfo) w) w in
  let w := on m STA (λ w, set_hi u_sta 0 (set_lo u_sta (b int_shadow) w)) w in
  let w := on m TSC (λ w, wr u_tsc_off (r tsc_offset) (wr u_tsc_val tsc w)) w in
  let w := on m TSC_AUX (wr u_tsc_aux (r tsc_aux)) w in
  let w := on m XSAVE (λ w, wr u_xss (r xsv_xss) (wr u_xcr0 (r xsv_xcr) w)) w in
  let w := on m EFER (wr u_efer (b vmcb_efer)) w in
  let w := on m SYSCALL_SWAPGS (copy svm_syscall b) w in
  let w := wr u_exit_value (r dst_portal) w in
  let w := wr u_mtd m w in
  (truthy (m .& FPU)%W, Utcb words_max (xlt u) (del u) (tls u) w).

Definition svm_inject (w : mem) (s : vcpu) : vcpu :=
  let info := lo32 (w u_inj) in
  let bits := (2 ^ 8 .| 2 ^ 20)%W in
  let s :=
    if truthy (info .& 0x1000)%W then
      let s := bwrite int_control (vmcb s int_control .| bits)%W s in
      bwrite intercept_cpu0 (vmcb s intercept_cpu0 .| SVM_VINTR)%W s
    else
      let s := bwrite int_control (vmcb s int_control .& wnot bits)%W s in
      bwrite intercept_cpu0 (vmcb s intercept_cpu0 .& not32 SVM_VINTR)%W s in
  bwrite inj_control (w u_inj .& wnot 0x3000)%W s.

Definition save_svm_state (w : mem) (s : vcpu) : vcpu :=
  let m := w u_mtd in
  let s := on m GPR_ACDB (λ s, upd_regs (copy (back svm_acdb) w)
                                 (bwrite vmcb_rax (w u_rax) s)) s in
  let s := on m GPR_BSD (upd_regs (copy (back gpr_bsd) w)) s in
  let s := on m GPR_R8_R15 (upd_regs (copy (back gpr_r8_r15) w)) s in
  let s := on m RSP (bwrite vmcb_rsp (w u_rsp)) s in
  let s := on m RIP_LEN (bwrite vmcb_rip (w u_rip)) s in
  let s := on m RFLAGS (bwrite vmcb_rflags (w u_rflags)) s in
  let s := on m DS_ES
    (upd_vmcb (copy (back (svm_seg u_ds vmcb_ds ++ svm_seg u_es vmcb_es)) w)) s in
  let s := on m FS_GS
    (upd_vmcb (copy (back (svm_seg u_fs vmcb_fs ++ svm_seg u_gs vmcb_gs)) w)) s in
  let s := on m CS_SS
    (upd_vmcb (copy (back (svm_seg u_cs vmcb_cs ++ svm_seg u_ss vmcb_ss)) w)) s in
  let s := on m TR (upd_vmcb (copy (back (svm_seg u_tr vmcb_tr)) w)) s in
  let s := on m LDTR (upd_vmcb (copy (back (svm_seg u_ld vmcb_ldtr)) w)) s in
  let s := on m GDTR (upd_vmcb (copy (back (svm_seg u_gd vmcb_gdtr)) w)) s in
  on m IDTR (upd_vmcb (copy (back (svm_seg u_id vmcb_idtr)) w)) s.

Definition save_svm_rest (w : mem) (s : vcpu) : vcpu :=
  let m := w u_mtd in
  let s := on m DR (bwrite vmcb_dr7 (w u_dr7)) s in
  let s := on m SYSENTER (upd_vmcb (copy (back svm_sysenter) w)) s in
  let s := on m CTRL (λ s, svm_set_cpu_ctrl1 (hi32 (w u_ctrl))
                             (svm_set_cpu_ctrl0 h (lo32 (w u_ctrl)) s)) s in
  let s := on m INJ (svm_inject w) s in
  let s := on m STA (bwrite int_shadow (lo32 (w u_sta))) s in
  let s := on m TSC (upd_regs (add_tsc_offset (w u_tsc_off))) s in
  let s := on m TSC_AUX (upd_regs (wr tsc_aux (w u_tsc_aux))) s in
  let s := on m XSAVE (upd_regs (save_xsave w)) s in
  let s := on m EFER (write_efer Vmcb (w u_efer)) s in
  let s := on m SYSCALL_SWAPGS (upd_vmcb (copy (back svm_syscall) w)) s in
  upd_regs (wr dst_portal VM_EXIT_RECALL) s.

Definition save_svm (u : utcb) (s : vcpu) : option (bool * vcpu) :=
  let w := mr u in
  let m := w u_mtd in
  let s := save_svm_state w s in
  s ← (if truthy (m .& CR)%W then save_crs Vmcb w s else Some s);
  Some (truthy (m .& FPU)%W, save_svm_rest w s).

(** ** Replies cannot loosen a guest's confinement *)

Definition save_vm (T : vm) (u : utcb) (s : vcpu) : option (bool * vcpu) :=
  match T with Vmcb => save_svm u s | Vmcs => save_vmx u s end.

Lemma on_P {A} (P : A → Prop) m i f (x : A) :
  P x → (∀ x, P x → P (f x)) → P (on m i f x).
Proof. intros Hx Hf. unfold on. case_match; auto. Qed.

(** Whatever the message, the state of the guest can be written. *)
Lemma save_crs_total T w s : save_crs T w s ≠ None.
Proof. unfold save_crs, write_cr. cbn [mbind option_bind]. discriminate. Qed.

Lemma save_vm_total T u s : save_vm T u s ≠ None.
Proof.
  pose proof (save_crs_total T (mr u) (match T with Vmcb => save_svm_state | Vmcs => save_vmx_state end (mr u) s)) as Hn.
  destruct T; simpl in *; unfold save_svm, save_vmx; (destruct (truthy (_ .& CR)%W); [|rewrite bind_some; discriminate]);
    (destruct (save_crs _ _ _); [rewrite bind_some; discriminate|done]).
Qed.

(** Transfers that touch neither controls nor XSAVE state. *)
Ltac untouched :=
  repeat (apply on_P;
    [|intros ?x ?Hx; match goal with
      | H : confined _ ?T ?x |- confined _ ?T _ =>
        apply (same_ctrl h T x); [reflexivity|exact H]
      end]).

Ltac peel :=
  match goal with |- confined ?h ?T (?f ?x) => apply (same_ctrl h T x); [reflexivity|] end.

Lemma save_vmx_state_confined w s : confined h Vmcs s → confined h Vmcs (save_vmx_state w s).
Proof. intros Hs. unfold save_vmx_state. untouched. exact Hs. Qed.

Lemma save_svm_state_confined w s : confined h Vmcb s → confined h Vmcb (save_svm_state w s).
Proof. intros Hs. unfold save_svm_state. untouched. exact Hs. Qed.

Lemma save_crs_confined T w s :
  controls_ok h → confined h T s → ∃ s', save_crs T w s = Some s' ∧ confined h T s'.
Proof.
  intros Hc Hs. unfold save_crs.
  set (s1 := write_cr h T 0 (w u_cr0) s).
  assert (∀ cr v s, (cr = 0 ∨ cr = 2 ∨ cr = 3 ∨ cr = 4) → confined h T s →
    ∃ s', write_cr h T cr v s = Some s' ∧ confined h T s') as Hw.
  { intros cr v s0 Hcr Hs0. destruct (write_cr h T cr v s0) as [s'|] eqn:He.
    - exists s'. split; [done|]. by eapply write_cr_confined.
    - destruct Hcr as [-> | [-> | [-> | ->]]]; done. }
  destruct (Hw 0 (w u_cr0) s ltac:(auto) Hs) as (s2 & E1 & H1). subst s1. rewrite E1, bind_some.
  destruct (Hw 2 (w u_cr2) s2 ltac:(auto) H1) as (s3 & E2 & H2). rewrite E2, bind_some.
  destruct (Hw 3 (w u_cr3) s3 ltac:(auto) H2) as (s4 & E3 & H3). rewrite E3, bind_some.
  apply Hw; auto.
Qed.

Lemma constrain_within v : within_mask (constrain_xcr v) (hst_xcr h).
Proof. unfold constrain_xcr. rewrite Z.land_comm. apply within_clr. Qed.

Lemma constrain_xss_within v : within_mask (constrain_xss v) (hst_xss h).
Proof. unfold constrain_xss. rewrite Z.land_comm. apply within_clr. Qed.

Lemma save_xsave_confined T w s : confined h T s → confined h T (upd_regs (save_xsave w) s).
Proof.
  intros [Hc _]. split; [by destruct T|]. split; [apply constrain_within|].
  apply constrain_xss_within.
Qed.

(** The virtual interrupt that an injection requests is not one of the
    intercepts that have to stay. *)
Lemma svm_vintr_ok v s :
  let x := (if v : bool then vmcb s intercept_cpu0 .| SVM_VINTR else vmcb s intercept_cpu0 .& not32 SVM_VINTR)%W in
  svm_ctrl0_ok s → within_mask force_ctrl0 x ∧ (x .& SVM_INVLPG)%W = (vmcb s intercept_cpu0 .& SVM_INVLPG)%W.
Proof.
  intros x [H0 _]. subst x. destruct v; split.
  - apply (within_lor _ _ SVM_VINTR) in H0. by rewrite Z.lor_comm in H0.
  - rewrite Z.land_lor_distr_l. change (SVM_VINTR .& SVM_INVLPG)%W with 0. apply Z.lor_0_r.
  - unfold within_mask in *. by rewrite Z.land_assoc, H0.
  - by rewrite <-Z.land_assoc.
Qed.

Lemma svm_inject_confined w s : confined h Vmcb s → confined h Vmcb (svm_inject w s).
Proof.
  intros [[H0 H1] Hx]. unfold svm_inject. set (v := truthy _).
  destruct (svm_vintr_ok v s H0) as [F I]. destruct H0 as (_ & Hi & Hcr & Hn).
  destruct v; (split; [split; [|exact H1]|exact Hx]);
    (split; [exact F|split; [exact (eq_trans I Hi)|split; [exact Hcr|exact Hn]]]).
Qed.

Lemma vmx_inject_confined w s :
  controls_ok h → confined h Vmcs s → confined h Vmcs (vmx_inject w s).
Proof.
  intros Hc [[_ H1] Hx]. split; [|exact Hx]. unfold vmx_inject.
  set (val := if truthy _ then _ else _).
  split; [exact (vmx_ctrl0_sets h val s Hc)|exact H1].
Qed.

Lemma write_efer_confined T v s : confined h T s → confined h T (write_efer T v s).
Proof.
  intros Hs. apply (same_ctrl h T s); [|exact Hs]. destruct T; [reflexivity|].
  unfold write_efer. by case_match.
Qed.

Lemma vmx_ctrls_confined v0 v1 s :
  controls_ok h → confined h Vmcs s →
  confined h Vmcs (vmx_set_cpu_ctrl1 h v1 (vmx_set_cpu_ctrl0 h v0 s)).
Proof.
  intros Hc [_ Hx]. split; [|exact Hx]. by apply vmx_controls_confined.
Qed.

Lemma svm_ctrl0_xsave v s : xsave_ok h (svm_set_cpu_ctrl0 h v s) ↔ xsave_ok h s.
Proof. unfold svm_set_cpu_ctrl0. by destruct (get_nst_on (regs s)). Qed.

Lemma svm_ctrls_confined v0 v1 s :
  confined h Vmcb s → confined h Vmcb (svm_set_cpu_ctrl1 v1 (svm_set_cpu_ctrl0 h v0 s)).
Proof.
  intros [_ Hx]. split; [split|by apply (svm_ctrl0_xsave v0 s)].
  - exact (svm_ctrl0_sets h v0 s).
  - apply svm_ctrl1_sets.
Qed.

Lemma save_vmx_rest_confined w s :
  controls_ok h → confined h Vmcs s → confined h Vmcs (save_vmx_rest w s).
Proof.
  intros Hc Hs. unfold save_vmx_rest.
  peel. untouched. peel.
  apply on_P; [|intros; by apply write_efer_confined].
  apply on_P; [|intros; by apply save_xsave_confined]. untouched.
  apply on_P; [|intros; by apply vmx_inject_confined].
  apply on_P; [|intros; by apply vmx_ctrls_confined]. untouched. exact Hs.
Qed.

Lemma save_svm_rest_confined w s : confined h Vmcb s → confined h Vmcb (save_svm_rest w s).
Proof.
  intros Hs. unfold save_svm_rest.
  peel. untouched.
  apply on_P; [|intros; by apply save_xsave_confined]. untouched.
  apply on_P; [|intros; by apply svm_inject_confined].
  apply on_P; [|intros; by apply svm_ctrls_confined]. untouched. exact Hs.
Qed.

(** C22: A monitor cannot loosen the confinement of its guest: the reply to a VM
    exit is always completed, and whatever the monitor leaves in its UTCB, the
    execution controls that the processor or the hypervisor requires stay set,
    no control that must not be set gets set, exits on INVLPG and on accesses to
    CR3 stay on and second-stage translation off while the guest's paging is
    shadowed (and the other way round while it is nested), and the XSAVE state
    stays within what the host manages; on VT-x and on AMD-V. *)
Theorem vm_reply_confined T u s :
  controls_ok h → confined h T s → ∃ b s', save_vm T u s = Some (b, s') ∧ confined h T s'.
Proof.
  intros Hc Hs. unfold save_vm. destruct T.
  - pose proof (save_svm_state_confined (mr u) s Hs) as H1. unfold save_svm.
    set (s1 := save_svm_state (mr u) s) in *. set (o := if truthy _ then _ else _).
    assert (∃ s2, o = Some s2 ∧ confined h Vmcb s2) as (s2 & -> & H2).
    { subst o. case_match; [by apply save_crs_confined|by exists s1]. }
    rewrite bind_some. do 2 eexists. split; [reflexivity|]. by apply save_svm_rest_confined.
  - pose proof (save_vmx_state_confined (mr u) s Hs) as H1. unfold save_vmx.
    set (s1 := save_vmx_state (mr u) s) in *. set (o := if truthy _ then _ else _).
    assert (∃ s2, o = Some s2 ∧ confined h Vmcs s2) as (s2 & -> & H2).
    { subst o. case_match; [by apply save_crs_confined|by exists s1]. }
    rewrite bind_some. do 2 eexists. split; [reflexivity|]. by apply save_vmx_rest_confined.
Qed.

(** ** Messages of VM exits are faithful *)

Definition seg_word (s ar l : Z) : Z := (s .| (ar << 16) .| (l << 32))%W.

Lemma seg_word_parts s ar l :
  word 16 s → word 16 ar → word 32 l →
  wrap 16 (seg_word s ar l) = s ∧ wrap 16 (seg_word s ar l >> 16)%W = ar ∧
  wrap 32 (seg_word s ar l >> 32)%W = l.
Proof.
  intros Hs Ha Hl. unfold seg_word. split_and!; bitwise.
  all: rewrite ?(word_bits 16 s) by (done || lia); rewrite ?(word_bits 16 ar) by (done || lia).
  all: rewrite ?(word_bits 32 l) by (done || lia); rewrite ?orb_false_r; try done.
  all: try (rewrite (Z.testbit_neg_r ar) by lia); try (rewrite (Z.testbit_neg_r l) by lia).
  all: rewrite ?orb_false_r; try done.
  all: cbn [orb]; f_equal; lia.
Qed.

(** Access rights of a segment: 17 bits of which four are reserved and zero. *)
Definition access_rights (a : Z) : Prop := word 17 a ∧ (a .& 0xf00)%W = 0.

Definition pack_ar (a : Z) : Z := wrap 16 ((a >> 4 .& 0x1f00) .| (a .& 0xff))%W.

Lemma forall_below n (P : Z → Prop) : Forall P (seqZ 0 n) → ∀ i, 0 ≤ i < n → P i.
Proof. rewrite list.Forall_forall. intros HF i Hi. apply HF, elem_of_seqZ. lia. Qed.

Lemma pack_ar_back a :
  access_rights a → ((pack_ar a << 4 .& 0x1f000) .| (pack_ar a .& 0xff))%W = a.
Proof.
  intros [Hw Hz]. apply Z.bits_inj'. intros i Hi. unfold pack_ar.
  destruct (Z.lt_ge_cases i 17) as [Hlt|Hge].
  - apply (f_equal (λ z, Z.testbit z i)) in Hz. revert Hz.
    assert (0 ≤ i < 17) as Hin by lia. clear Hlt Hi. revert i Hin.
    refine (forall_below 17 _ _). cbn.
    repeat apply Forall_cons_2; try apply Forall_nil_2.
    all: repeat (first [progress autorewrite with bits | bit_step]); try lia.
    all: cbn; rewrite ?andb_true_r, ?andb_false_r, ?orb_false_r; auto.
  - rewrite (word_bits 17 a) by (done || lia).
    repeat (first [progress autorewrite with bits | bit_step]); simpl; try lia; try done.
    assert (word 17 0x1f000) by by vm_compute.
    by rewrite (word_bits 17 0x1f000), andb_false_r by (done || lia).
Qed.

(** Fields hold values of their width, attributes of segments have their
    reserved bits clear. *)
Record state_ok (s : vcpu) : Prop := {
  ok_width : ∀ k, word (field_width k) (vmcs s k);
  ok_ar : ∀ e, e ∈ [GUEST_AR_ES; GUEST_AR_CS; GUEST_AR_SS; GUEST_AR_DS; GUEST_AR_FS;
                    GUEST_AR_GS; GUEST_AR_LDTR; GUEST_AR_TR] → access_rights (vmread e s);
  ok_vtpr : word 32 (vtpr s);
  ok_shadow : word 32 (vmcb s int_shadow)
}.

(** The same guest state, up to the word the reply itself writes and the
    instruction length, which is input to an injection. *)
Definition same_guest (s s' : vcpu) : Prop :=
  (∀ k : Z, k ≠ dst_portal → regs s' k = regs s k) ∧
  (∀ k : Z, k ≠ ENT_INST_LEN → vmcs s' k = vmcs s k) ∧
  (∀ k, vmcb s' k = vmcb s k) ∧ (∀ k, guest_msrs s' k = guest_msrs s k) ∧ vtpr s' = vtpr s.

Lemma on_P_if {A} (P : A → Prop) m (i : Item) f (x : A) :
  P x → (truthy (m .& i)%W = true → ∀ x, P x → P (f x)) → P (on m i f x).
Proof. intros Hx Hf. unfold on. case_match; auto. Qed.

Section same.
Context (s : vcpu) (w : mem).

Lemma same_vmwrite (e : Encoding) v x :
  state_ok s → v = vmread e s → same_guest s x → same_guest s (vmwrite e v x).
Proof.
  intros Hok -> (Hr & Hv & Hrest). split; [done|]. split; [|done].
  intros k Hk. cbn. unfold wr. case_match; [|by apply Hv].
  rewrite wrap_small by apply (ok_width s Hok e). unfold vmread. f_equal. lia.
Qed.

Lemma same_inst_len v x : same_guest s x → same_guest s (vmwrite ENT_INST_LEN v x).
Proof.
  intros (Hr & Hv & Hrest). split; [done|]. split; [|done]. intros k Hk.
  cbn -[enc]. unfold wr. destruct (Z.eqb_spec k (enc ENT_INST_LEN)); [contradiction|]. by apply Hv.
Qed.

Lemma same_bwrite (f : vmcb_field) v x : v = vmcb s f → same_guest s x → same_guest s (bwrite f v x).
Proof.
  intros -> (Hr & Hv & Hb & Hrest). split; [done|]. split; [done|]. split; [|done].
  intros k. cbn. unfold wr. case_match; [f_equal; lia|done].
Qed.

Lemma copy_back_at l (r dst : mem) k :
  Forall (λ '(d, x), w d = r x) l → dst k = r k → copy (back l) w dst k = r k.
Proof.
  intros Hl. unfold copy. revert dst.
  induction Hl as [|[d x] l Hd Hl IH]; intros dst Hk; [apply Hk|].
  simpl. apply IH. unfold wr. case_match; [|apply Hk]. rewrite Hd. f_equal. lia.
Qed.

Lemma same_copy_regs l x :
  Forall (λ '(d, k), w d = regs s k) l → same_guest s x →
  same_guest s (upd_regs (copy (back l) w) x).
Proof. intros Hl (Hr & Hrest). split; [|done]. intros k Hk. apply copy_back_at; auto. Qed.

Lemma same_copy_vmcb l x :
  Forall (λ '(d, k), w d = vmcb s k) l → same_guest s x →
  same_guest s (upd_vmcb (copy (back l) w) x).
Proof.
  intros Hl (Hr & Hv & Hb & Hrest). split; [done|]. split; [done|]. split; [|done].
  intros k. apply copy_back_at; auto.
Qed.

Lemma same_copy_msrs l x :
  Forall (λ '(d, k), w d = guest_msrs s k) l → same_guest s x →
  same_guest s (upd_guest_msrs (copy (back l) w) x).
Proof.
  intros Hl (Hr & Hv & Hb & Hm & Ht). do 3 (split; [done|]). split; [|done].
  intros k. apply copy_back_at; auto.
Qed.

Lemma same_wr_regs (k : Z) v x : v = regs s k → same_guest s x → same_guest s (upd_regs (wr k v) x).
Proof.
  intros -> (Hr & Hrest). split; [|done]. intros k' Hk. cbn. unfold wr.
  case_match; [f_equal; lia|auto].
Qed.

Lemma same_vtpr v x : v = vtpr s → same_guest s x → same_guest s (set_vtpr v x).
Proof. intros -> (Hr & Hv & Hb & Hm & Ht). done. Qed.

Lemma same_vwrite (l : list (Z * Encoding)) x :
  state_ok s → Forall (λ '(d, e), w d = vmread e s) l → same_guest s x →
  same_guest s (vwrite l w x).
Proof.
  intros Hok Hl. unfold vwrite. revert x. induction Hl as [|[d e] l Hd Hl IH]; intros x Hx; [done|].
  simpl. apply IH. by apply same_vmwrite.
Qed.

(** A segment as loaded. *)
Lemma same_seg (k : utcb_field) (sel base limit ar : Encoding) x :
  state_ok s → field_width sel = 16 → field_width limit = 32 →
  access_rights (vmread ar s) →
  w k = seg_word (wrap 16 (vmread sel s)) (pack_ar (vmread ar s)) (wrap 32 (vmread limit s)) →
  w (k + 1) = vmread base s →
  same_guest s x → same_guest s (save_seg k sel base limit ar w x).
Proof.
  intros Hok Hs Hl Ha Hk Hb Hx. unfold save_seg, seg_sel, seg_limit, seg_ar, seg_base.
  rewrite Hk, Hb.
  destruct (seg_word_parts (wrap 16 (vmread sel s)) (pack_ar (vmread ar s))
    (wrap 32 (vmread limit s))) as (-> & -> & ->);
    [by apply wrap_word|by apply wrap_word|by apply wrap_word|].
  pose proof (ok_width s Hok sel) as Ws. pose proof (ok_width s Hok limit) as Wl.
  rewrite Hs in Ws. rewrite Hl in Wl.
  apply same_vmwrite; [done|by apply pack_ar_back|].
  apply same_vmwrite; [done|by apply wrap_small|].
  apply same_vmwrite; [done|done|].
  by apply same_vmwrite; [done|apply wrap_small|].
Qed.

Lemma same_dtr (k : utcb_field) (base limit : Encoding) x :
  state_ok s → field_width limit = 32 →
  w k = seg_word 0 0 (wrap 32 (vmread limit s)) → w (k + 1) = vmread base s →
  same_guest s x → same_guest s (save_dtr k base limit w x).
Proof.
  intros Hok Hl Hk Hb Hx. unfold save_dtr, seg_limit, seg_base. rewrite Hk, Hb.
  destruct (seg_word_parts 0 0 (wrap 32 (vmread limit s))) as (_ & _ & ->);
    [by vm_compute|by vm_compute|by apply wrap_word|].
  pose proof (ok_width s Hok limit) as Wl. rewrite Hl in Wl.
  apply same_vmwrite; [done|by apply wrap_small|]. by apply same_vmwrite.
Qed.
End same.

(** Two 32-bit fields in one word. *)
Lemma pair_parts k a b x :
  lo32 (set_hi k b (set_lo k a x) k) = wrap 32 a ∧ hi32 (set_hi k b (set_lo k a x) k) = wrap 32 b.
Proof.
  assert (∀ y z, word 32 y → word 32 z →
    wrap 32 (y .| (z << 32))%W = y ∧ ((y .| (z << 32)) >> 32)%W = z) as Hp.
  { intros y z Hy Hz. split; bitwise;
      rewrite ?(word_bits 32 y), ?(word_bits 32 z) by (done || lia);
      rewrite ?(Z.testbit_neg_r z), ?orb_false_r by lia; try done.
    simpl. f_equal. lia. }
  unfold set_hi, set_lo, lo32, hi32, wr. rewrite !Z.eqb_refl.
  set (y := wrap 32 (wrap 32 a .| _)%W).
  assert (word 32 y) by by apply wrap_word.
  destruct (Hp y (wrap 32 b)) as [-> ->]; [done|by apply wrap_word|]. split; [|done].
  subst y. apply Z.bits_inj'. intros i Hi. rewrite !wrap_bits by lia.
  destruct (Z.ltb_spec i 32); [|done]. simpl. rewrite Z.lor_spec, wshl_bits by lia.
  rewrite (Z.testbit_neg_r _ (i - 32)) by lia. rewrite wrap_bits by lia.
  destruct (Z.ltb_spec i 32); [|lia]. simpl. by rewrite andb_false_r, orb_false_r.
Qed.

(** The items that are not filtered on the way back. *)
Definition unfiltered (m : Z) : Prop :=
  Forall (λ i, truthy (m .& item i)%W = false) [CR; CTRL; INJ; TSC; XSAVE; EFER].

Lemma unfiltered_off m i :
  unfiltered m → i ∈ [CR; CTRL; INJ; TSC; XSAVE; EFER] → truthy (m .& item i)%W = false.
Proof. unfold unfiltered. rewrite list.Forall_forall. auto. Qed.

Definition load_vm (T : vm) (tsc : Z) (s : vcpu) (u : utcb) : bool * utcb :=
  match T with Vmcb => load_svm tsc s u | Vmcs => load_vmx tsc s u end.

Ltac off Hu := intros Hm; rewrite (unfiltered_off _ _ Hu) in Hm by (repeat constructor); done.
Ltac loaded := repeat apply Forall_cons_2; try apply Forall_nil_2; by look.

Ltac load_at w := subst w; look; reflexivity.

Lemma same_dst v s x : same_guest s x → same_guest s (upd_regs (wr dst_portal v) x).
Proof.
  intros (Hr & Hrest). split; [|done]. intros k Hk. cbn -[word_of]. unfold wr.
  destruct (Z.eqb_spec k (word_of dst_portal)); [contradiction|by apply Hr].
Qed.

Ltac filtered Hu := apply on_P_if; [|off Hu].

Lemma vmx_roundtrip tsc s u :
  state_ok s → unfiltered (regs s mtd) →
  let '(f, u') := load_vmx tsc s u in
  ∃ s', save_vmx u' s = Some (f, s') ∧ same_guest s s'.
Proof.
  intros Hok Hu. unfold load_vmx. set (m := regs s mtd) in *.
  set (w := wr u_mtd m _). unfold save_vmx. cbn [mr]. assert (w u_mtd = m) as -> by done.
  rewrite (unfiltered_off m CR Hu) by (repeat constructor). rewrite bind_some.
  eexists. split; [reflexivity|].
  assert (same_guest s (save_vmx_state w s)) as H1.
  { unfold save_vmx_state. assert (w u_mtd = m) as -> by done.
    do 2 (apply on_P_if; [|intros Hm x Hx; apply same_dtr; [done|done|load_at w|load_at w|done]]).
    do 2 (apply on_P_if; [|intros Hm x Hx; apply same_seg;
      [done|done|done|apply ok_ar; [done|repeat constructor]|load_at w|load_at w|done]]).
    do 3 (apply on_P_if; [|intros Hm x Hx; do 2 (apply same_seg;
      [done|done|done|apply ok_ar; [done|repeat constructor]|load_at w|load_at w|]); done]).
    apply on_P_if; [|intros Hm x Hx; apply same_vmwrite; [done|load_at w|done]].
    apply on_P_if; [|intros Hm x Hx; apply same_inst_len, same_vmwrite; [done|load_at w|done]].
    apply on_P_if; [|intros Hm x Hx; apply same_vmwrite; [done|load_at w|done]].
    do 3 (apply on_P_if; [|intros Hm x Hx; apply same_copy_regs; [subst w; loaded|done]]).
    done. }
  unfold save_vmx_rest. assert (w u_mtd = m) as -> by done. apply same_dst.
  apply on_P_if; [|intros Hm x Hx; apply same_wr_regs; [load_at w|done]].
  apply on_P_if; [|intros Hm x Hx; apply same_vwrite; [done|subst w; loaded|done]].
  apply on_P_if; [|intros Hm x Hx].
  2: { assert (∃ y, w u_tprs = set_hi u_tprs (vmread TPR_THRESHOLD s)
         (set_lo u_tprs (vtpr s) y) u_tprs) as [y ->] by (eexists; load_at w).
    destruct (pair_parts u_tprs (vtpr s) (vmread TPR_THRESHOLD s) y) as [-> ->].
    apply same_vmwrite; [done|apply wrap_small; apply (ok_width s Hok TPR_THRESHOLD)|].
    apply same_vtpr; [apply wrap_small, ok_vtpr, Hok|done]. }
  apply on_P_if; [|intros Hm x Hx; apply same_copy_msrs; [subst w; loaded|done]].
  change (same_guest s (host_area ?x)) with (same_guest s x).
  filtered Hu. filtered Hu. filtered Hu.
  apply on_P_if; [|intros Hm x Hx].
  2: { assert (∃ y, w u_sta = set_hi u_sta (vmread GUEST_ACTV_STATE s)
         (set_lo u_sta (vmread GUEST_INTR_STATE s) y) u_sta) as [y ->] by (eexists; load_at w).
    destruct (pair_parts u_sta (vmread GUEST_INTR_STATE s) (vmread GUEST_ACTV_STATE s) y)
      as [-> ->].
    apply same_vmwrite; [done|apply wrap_small; apply (ok_width s Hok GUEST_ACTV_STATE)|].
    by apply same_vmwrite; [done|apply wrap_small; apply (ok_width s Hok GUEST_INTR_STATE)|]. }
  filtered Hu. filtered Hu.
  apply on_P_if; [|intros Hm x Hx; apply same_vwrite; [done|subst w; loaded|done]].
  by apply on_P_if; [|intros Hm x Hx; apply same_vmwrite; [done|load_at w|done]].
Qed.

Lemma svm_roundtrip tsc s u :
  state_ok s → unfiltered (regs s mtd) →
  let '(f, u') := load_svm tsc s u in
  ∃ s', save_svm u' s = Some (f, s') ∧ same_guest s s'.
Proof.
  intros Hok Hu. unfold load_svm. set (m := regs s mtd) in *.
  set (w := wr u_mtd m _). unfold save_svm. cbn [mr]. assert (w u_mtd = m) as -> by done.
  rewrite (unfiltered_off m CR Hu) by (repeat constructor). rewrite bind_some.
  eexists. split; [reflexivity|].
  assert (same_guest s (save_svm_state w s)) as H1.
  { unfold save_svm_state. assert (w u_mtd = m) as -> by done.
    do 7 (apply on_P_if; [|intros Hm x Hx; apply same_copy_vmcb; [subst w; loaded|done]]).
    do 3 (apply on_P_if; [|intros Hm x Hx; apply same_bwrite; [load_at w|done]]).
    do 2 (apply on_P_if; [|intros Hm x Hx; apply same_copy_regs; [subst w; loaded|done]]).
    apply on_P_if; [|intros Hm x Hx; apply same_copy_regs; [subst w; loaded|]].
    - done.
    - apply same_bwrite; [load_at w|done]. }
  unfold save_svm_rest. assert (w u_mtd = m) as -> by done. apply same_dst.
  apply on_P_if; [|intros Hm x Hx; apply same_copy_vmcb; [subst w; loaded|done]].
  filtered Hu. filtered Hu.
  apply on_P_if; [|intros Hm x Hx; apply same_wr_regs; [load_at w|done]].
  filtered Hu.
  apply on_P_if; [|intros Hm x Hx].
  2: { assert (∃ y, w u_sta = set_hi u_sta 0 (set_lo u_sta (vmcb s int_shadow) y) u_sta)
         as [y ->] by (eexists; load_at w).
    destruct (pair_parts u_sta (vmcb s int_shadow) 0 y) as [-> _].
    apply same_bwrite; [apply wrap_small, ok_shadow, Hok|done]. }
  filtered Hu. filtered Hu.
  apply on_P_if; [|intros Hm x Hx; apply same_copy_vmcb; [subst w; loaded|done]].
  by apply on_P_if; [|intros Hm x Hx; apply same_bwrite; [load_at w|done]].
Qed.

(** The message of a VM exit is faithful: when the monitor replies with the
    message it received, every register of the guest is as it was before the
    exit, on VT-x and on AMD-V, for all groups of registers that the reply does
    not filter; segment attributes survive the packing into 16 bits. *)
Theorem vm_roundtrip T tsc s u :
  state_ok s → unfiltered (regs s mtd) →
  let '(f, u') := load_vm T tsc s u in
  ∃ s', save_vm T u' s = Some (f, s') ∧ same_guest s s'.
Proof. destruct T; [apply svm_roundtrip|apply vmx_roundtrip]. Qed.
End transfer.

(** ** Messages between contexts *)

Definition ucnt (u : utcb) : Z := wrap 16 (items u).
Definition tcnt (u : utcb) : Z := wrap 16 (items u >> 16)%W.
Definition ui (u : utcb) : Z := Z.min (words_max / 1) (ucnt u).
Definition ti (u : utcb) : Z := Z.min (words_max / 2) (tcnt u).

(** [save]: the loop over the untyped items, [n] iterations from [i]. *)
Fixpoint save_loop (n : nat) (i : Z) (src dst : mem) : mem :=
  match n with
  | O => dst
  | S n => save_loop n (i + 1) src (wr i (src i) dst)
  end.

Definition save (u dst : utcb) : utcb :=
  Utcb (items u) (xlt dst) (del dst) (tls dst) (save_loop (Z.to_nat (ui u)) 0 (mr u) (mr dst)).

(** Typed items grow down from the end of the page; the byte offset of the
    [i]-th. *)
Definition sizeof_xfer : Z := 16.
Definition xfer (i : Z) : Z := (PAGE_SIZE / sizeof_xfer - 1 - i) * sizeof_xfer.

Lemma save_loop_spec n i src dst k :
  save_loop n i src dst k = if (i <=? k) && (k <? i + Z.of_nat n) then src k else dst k.
Proof.
  revert i dst. induction n as [|n IH]; intros i dst; cbn [save_loop].
  - zcase; simpl; try done; lia.
  - rewrite IH. unfold wr. zcase; simpl; try done; try lia. by subst.
Qed.

(** C40: Messages stay within the page: a message copies exactly the untyped
    words its header announces, at most 508, and leaves the rest of the
    receiver's data; and every typed item the header announces lies, whole,
    behind the header of the page, however large the announced counts are. *)
Theorem save_in_page u dst k :
  mr (save u dst) k = (if (0 <=? k) && (k <? ui u) then mr u k else mr dst k) ∧
  0 ≤ ui u ≤ 508 ∧ sizeof_head + ui u * 8 ≤ PAGE_SIZE ∧
  (0 ≤ k < ti u → sizeof_head ≤ xfer k ∧ xfer k + sizeof_xfer ≤ PAGE_SIZE).
Proof.
  assert (words_max = 508) as Hm by done.
  assert (word 16 (ucnt u) ∧ word 16 (tcnt u)) as [Hu Ht] by (split; by apply wrap_word).
  unfold word in Hu, Ht. unfold ui, ti. rewrite Hm.
  change (508 / 1) with 508. change (508 / 2) with 254.
  split_and!; try lia.
  - unfold save. cbn [mr]. rewrite save_loop_spec. unfold ui. rewrite Hm.
    change (508 / 1) with 508. by rewrite Z2Nat.id by lia.
  - unfold sizeof_head, PAGE_SIZE. lia.
  - unfold xfer, sizeof_head, PAGE_SIZE, sizeof_xfer. change (4096 / 16) with 256. lia.
Qed.

(** ** Model-specific registers in a message

    [for_each_word] runs the operations a message lists: a word with bit 29
    clear asks to read a register and is replaced by its contents, a word with
    bit 29 set is followed by the value to write.  The callbacks act on a state
    of their own.  The message header becomes the set of operations that
    succeeded. *)
Section for_each_word.
Context {S : Type} (fn_read : Z → S → bool * Z * S) (fn_write : Z → Z → S → bool * S).

Definition write_bit : Z := 29.

Fixpoint word_loop (fuel : nat) (i id_op max success : Z) (m : mem) (st : S) :
    option (Z * mem * S) :=
  match fuel with
  | O => None
  | Datatypes.S fuel =>
    if negb (i <? max) then Some (success, m, st)
    else
      let op := m i in
      if truthy (op .& (1 << write_bit))%W then
        if max <=? i + 1 then Some (success, m, st)
        else
          let value := m (i + 1) in
          let msr := (op .& wnot (1 << write_bit))%W in
          let '(ok, st) := fn_write msr value st in
          let success := if ok : bool then (success .| (1 << id_op))%W else success in
          word_loop fuel (i + 2) (id_op + 1) max success m st
      else
        let '(ok, in_out, st) := fn_read op st in
        let success := if ok : bool then (success .| (1 << id_op))%W else success in
        let m := if ok then wr i in_out m else m in
        word_loop fuel (i + 1) (id_op + 1) max success m st
  end.

Definition for_each_word (fuel : nat) (u : utcb) (st : S) : option (utcb * S) :=
  let max := Z.min (ui u) (8 * 8 - 1) in
  '(success, m, st) ← word_loop fuel 0 0 max 0 (mr u) st;
  Some (Utcb success (xlt u) (del u) (tls u) m, st).

(** The operations a sequence of words lists, with the position of each. *)
Inductive msr_op := Msr_read (msr : Z) | Msr_write (msr value : Z).

Fixpoint decode (i : Z) (l : list Z) : list (Z * msr_op) :=
  match l with
  | [] => []
  | op :: l =>
    if truthy (op .& (1 << write_bit))%W
    then match l with
         | [] => []
         | v :: l => (i, Msr_write (op .& wnot (1 << write_bit))%W v) :: decode (i + 2) l
         end
    else (i, Msr_read op) :: decode (i + 1) l
  end.

(** Running them in order: the outcomes, the data area and the state. *)
Fixpoint perform (l : list (Z * msr_op)) (m : mem) (st : S) : list bool * mem * S :=
  match l with
  | [] => ([], m, st)
  | (_, Msr_write x v) :: l =>
    let '(ok, st) := fn_write x v st in
    let '(oks, m, st) := perform l m st in (ok :: oks, m, st)
  | (i, Msr_read x) :: l =>
    let '(ok, v, st) := fn_read x st in
    let '(oks, m, st) := perform l (if ok : bool then wr i v m else m) st in
    (ok :: oks, m, st)
  end.

(** The set of successes: bit [k] for the [k]-th operation. *)
Fixpoint outcome_bits (id success : Z) (oks : list bool) : Z :=
  match oks with
  | [] => success
  | ok :: oks => outcome_bits (id + 1) (if ok : bool then (success .| (1 << id))%W else success) oks
  end.

Lemma word_loop_spec l fuel i id success m st max :
  (length l < fuel)%nat → max = i + Z.of_nat (length l) →
  (∀ k, (k < length l)%nat → l !! k = Some (m (i + Z.of_nat k))) →
  word_loop fuel i id max success m st =
    let '(oks, m', st') := perform (decode i l) m st in
    Some (outcome_bits id success oks, m', st').
Proof.
  revert l i id success m st. induction fuel as [|fuel IH]; intros l i id success m st Hf Hm Hl; [lia|].
  cbn [word_loop]. destruct l as [|op l].
  { destruct (Z.ltb_spec i max); [simpl in *; lia|]. done. }
  destruct (Z.ltb_spec i max); [|cbn [length] in *; lia]. cbn [negb].
  pose proof (Hl 0%nat ltac:(cbn [length]; lia)) as H0. cbn in H0. injection H0 as H0.
  rewrite Z.add_0_r in H0. rewrite <-H0. cbn [decode]. clear H0.
  assert (∀ k, (k < length l)%nat → l !! k = Some (m (i + 1 + Z.of_nat k))) as Hl1.
  { intros k Hk. replace (i + 1 + Z.of_nat k) with (i + Z.of_nat (Datatypes.S k)) by lia.
    apply (Hl (Datatypes.S k)). cbn [length]. lia. }
  destruct (truthy (op .& (1 << write_bit))%W).
  - destruct l as [|v l].
    { destruct (Z.leb_spec max (i + 1)); [done|cbn [length] in *; lia]. }
    destruct (Z.leb_spec max (i + 1)); [cbn [length] in *; lia|].
    pose proof (Hl1 0%nat ltac:(cbn [length]; lia)) as H1. cbn in H1. injection H1 as H1.
    rewrite Z.add_0_r in H1. rewrite <-H1. cbn [perform].
    destruct (fn_write _ v st) as [ok st'].
    rewrite (IH l); [|cbn [length] in *; lia|cbn [length] in *; lia|].
    + by destruct (perform (decode (i + 2) l) m st') as [[oks m'] st''].
    + intros k Hk. replace (i + 2 + Z.of_nat k) with (i + 1 + Z.of_nat (Datatypes.S k)) by lia.
      apply (Hl1 (Datatypes.S k)). cbn [length]. lia.
  - cbn [perform]. destruct (fn_read op st) as [[ok v] st'].
    rewrite (IH l); [|cbn [length] in *; lia|cbn [length] in *; lia|].
    + by destruct (perform (decode (i + 1) l) _ st') as [[oks m'] st''].
    + intros k Hk. rewrite Hl1 by done. destruct ok; [|done]. unfold wr.
      by destruct (Z.eqb_spec (i + 1 + Z.of_nat k) i); [lia|].
Qed.

(** The register operations of a message are run exactly as listed: the
    call always returns, the operations are those that the words of the message
    decode to, in order, at most 63 words of it, every successful read replaces
    its word and no other word changes except by a read, and the header names
    the operations that succeeded. *)
Theorem for_each_word_performs u st :
  let l := mr u <$> seqZ 0 (Z.min (ui u) 63) in
  for_each_word 64 u st =
    let '(oks, m, st) := perform (decode 0 l) (mr u) st in
    Some (Utcb (outcome_bits 0 0 oks) (xlt u) (del u) (tls u) m, st).
Proof.
  intros l. assert (0 ≤ ui u) as Hu.
  { unfold ui. assert (word 16 (ucnt u)) as [? ?] by by apply wrap_word.
    assert (words_max = 508) as -> by done. change (508 / 1) with 508. lia. }
  assert (length l = Z.to_nat (Z.min (ui u) 63)) as Hlen.
  { subst l. by rewrite length_fmap, length_seqZ. }
  unfold for_each_word. change (8 * 8 - 1) with 63.
  rewrite (word_loop_spec l); [| |lia|].
  - by destruct (perform (decode 0 l) (mr u) st) as [[oks m] st'].
  - rewrite Hlen. lia.
  - intros k Hk. subst l. rewrite list_lookup_fmap, lookup_seqZ_lt by lia. cbn. f_equal.
Qed.
End for_each_word.

(** ** A concrete exit *)

(** A VM exit whose message carries general-purpose registers, stack pointer,
    data segments and task priority. *)
Definition demo_exit : vcpu := {|
  regs := wr mtd 0x1000025 (λ k, k); vmcs := vmcs demo_vcpu; vmcb := vmcb demo_vcpu;
  guest_msrs := λ _, 0; host_msrs := λ _, 0; vtpr := 3; flushes := [] |}.

Lemma demo_state_ok : state_ok demo_exit.
Proof.
  split; [| |by vm_compute|by vm_compute].
  - intros k. cbn -[field_width enc]. unfold wr.
    destruct (Z.eqb_spec k (enc CPU_EXEC_CTRL0)) as [->|]; [by vm_compute|].
    destruct (field_width_range k) as [-> | [-> | ->]]; by vm_compute.
  - apply list.Forall_forall. repeat apply Forall_cons_2; try apply Forall_nil_2; by vm_compute.
Qed.

Lemma vm_roundtrip_witness :
  let '(f, u') := load_vm demo_host Vmcs 0 demo_exit (Utcb 0 0 0 0 (λ _, 0)) in
  ∃ s', save_vm demo_host Vmcs u' demo_exit = Some (f, s') ∧ same_guest demo_exit s'.
Proof.
  apply (vm_roundtrip demo_host Vmcs 0 demo_exit (Utcb 0 0 0 0 (λ _, 0))).
  - apply demo_state_ok.
  - repeat apply Forall_cons_2; try apply Forall_nil_2; by vm_compute.
Defined.

(** A monitor that asks for every control at once. *)
Definition demo_reply : utcb := Utcb 0 0 0 0 (λ _, 2 ^ 64 - 1).

Lemma vm_reply_confined_witness :
  ∃ b s', save_vm demo_host Vmcb demo_reply demo_vcpu = Some (b, s') ∧
    confined demo_host Vmcb s'.
Proof.
  apply (vm_reply_confined demo_host Vmcb demo_reply demo_vcpu).
  - apply demo_host_ok.
  - by vm_compute.
Defined.

(** A message of one untyped word and one typed item. *)
Lemma save_in_page_witness :
  let u := Utcb 0x10001 0 0 0 (λ _, 7) in
  0 ≤ 0 < ti u ∧ sizeof_head ≤ xfer 0 ∧ xfer 0 + sizeof_xfer ≤ PAGE_SIZE.
Proof.
  intros u. split; [by vm_compute|].
  apply (save_in_page u (Utcb 0 0 0 0 (λ _, 0)) 0). by vm_compute.
Defined.
