(* ===== verification/Buddy.v ===== *)
(** The buddy allocator of [include/buddy.hpp] and [src/buddy.cpp].

    A pool is an array of pages; a block of order [o] is [2^o] pages whose
    first page has an index that is a multiple of [2^o].  The pool keeps one
    descriptor per page ([Block], only that of the first page of a block is
    meaningful) and one ring of free blocks per order.  Descriptors are
    objects: the list head of order [j] is the object [j], the descriptor of
    page [i] is the object [order + (i - min_idx)], so that pointer arithmetic
    and pointer comparison within the array are those of numbers.

    The theorems show that a pool implements a map of allocated blocks: it is
    always tiled by allocated and free blocks, no two free blocks could be
    merged, hence an allocation fails only when no block of that size can be
    placed beside the allocated ones. *)
From S2P Require Import Prelude Bits Queue Quota.
Local Open Scope Z_scope.

Definition PAGE_BITS : Z := 12.
Definition PAGE_SIZE : Z := 2 ^ PAGE_BITS.

(** ** Block descriptors and pools *)

Inductive Tag := Used | Free.

#[export] Instance Tag_eq_dec : EqDecision Tag.
Proof. solve_decision. Defined.

Inductive Fill := NOFILL | FILL_0 | FILL_1.

(** [base], [index] and [head] are addresses, [prev] and [next] of all
    descriptors are in [lk]. *)
Record buddy := Buddy {
  max_idx : Z; min_idx : Z; base : Z; order : Z; index : Z; head : Z;
  lk : links; ord : obj → Z; tag : obj → Tag;
}.

Definition set_lk (L : links) (b : buddy) : buddy :=
  Buddy (max_idx b) (min_idx b) (base b) (order b) (index b) (head b) L (ord b) (tag b).
Definition set_ord (t : obj) (o : Z) (b : buddy) : buddy :=
  Buddy (max_idx b) (min_idx b) (base b) (order b) (index b) (head b) (lk b) (<[t := o]> (ord b)) (tag b).
Definition set_tag (t : obj) (g : Tag) (b : buddy) : buddy :=
  Buddy (max_idx b) (min_idx b) (base b) (order b) (index b) (head b) (lk b) (ord b) (<[t := g]> (tag b)).

(** [head + j]. *)
Definition head_at (j : Z) : obj := Z.to_nat j.

Definition block_to_index (b : buddy) (t : obj) : Z := Z.of_nat t - order b + min_idx b.
Definition index_to_block (b : buddy) (i : Z) : obj := Z.to_nat (order b + (i - min_idx b)).

(** Conversion of an unsigned to a signed 64-bit integer. *)
Definition signed64 (z : Z) : Z := let z := wrap 64 z in if z <? 2 ^ 63 then z else z - 2 ^ 64.

Definition page_to_index (b : buddy) (l_addr : Z) : Z :=
  signed64 (l_addr / PAGE_SIZE - base b / PAGE_SIZE).
Definition index_to_page (b : buddy) (i : Z) : Z := (base b + i * PAGE_SIZE)%W.

(** The address difference between the kernel's virtual and physical image. *)
Section offset.
Context (OFFSET : Z).

Definition virt_to_phys (virt : Z) : Z := (virt - OFFSET)%W.
Definition phys_to_virt (phys : Z) : Z := (phys + OFFSET)%W.

(** [assert ((virt_to_phys (virt) & ((1ul << (ord + PAGE_BITS)) - 1)) == 0)]. *)
Definition phys_aligned (virt o : Z) : bool :=
  (virt_to_phys virt .& ((1 << (o + PAGE_BITS)) - 1))%W =? 0.

(** ** Allocation *)

(** [block->prev->next = block->next; block->next->prev = block->prev]. *)
Definition unlink_block (t : obj) (L : links) : option links :=
  p ← prev L t;
  let L := set_next p (next L t) L in
  n ← next L t;
  Some (set_prev n (prev L t) L).

(** [buddy->prev = buddy->next = head + j; ...; head[j].next = head[j].prev = buddy]. *)
Definition link_alone (t h : obj) (L : links) : links :=
  let L := set_prev t (Some h) (set_next t (Some h) L) in
  set_next h (Some t) (set_prev h (Some t) L).

(** The loop [while (j-- != ord)] that returns upper halves to the lists. *)
Fixpoint split (fuel : nat) (o j : Z) (block : obj) (b : buddy) : option buddy :=
  if j =? o then Some b
  else match fuel with
  | O => None
  | S fuel =>
    let j := j - 1 in
    let d := (1 << j)%W in
    let t := (block + Z.to_nat d)%nat in
    split fuel o j block
      (set_lk (link_alone t (head_at j) (lk b)) (set_tag t Free (set_ord t j b)))
  end.

Definition memset (p c n : Z) (mem : Z → Z) : Z → Z :=
  λ a, if (p <=? a) && (a <? p + n) then c else mem a.

Definition fill_block (f : Fill) (virt o : Z) (mem : Z → Z) : Z → Z :=
  match f with
  | NOFILL => mem
  | FILL_0 => memset virt 0 (1 << (o + PAGE_BITS))%W mem
  | FILL_1 => memset virt 255 (1 << (o + PAGE_BITS))%W mem
  end.

(** The body of the loop once a non-empty list is found. *)
Definition take_block (o j : Z) (block : obj) (q : quota) (f : Fill) (mem : Z → Z) (b : buddy) :
    option (Z * quota * (Z → Z) * buddy) :=
  L ← unlink_block block (lk b);
  b ← split (Z.to_nat (j - o)) o j block (set_tag block Used (set_ord block o (set_lk L b)));
  let virt := index_to_page b (block_to_index b block) in
  if phys_aligned virt (ord b block) then
    Some (virt, Quota.alloc q (1 << o)%W, fill_block f virt (ord b block) mem, b)
  else None.

(** The loop over the orders; [Some None] is the result [nullptr]. *)
Fixpoint scan (fuel : nat) (o j : Z) (q : quota) (f : Fill) (mem : Z → Z) (b : buddy) :
    option (option (Z * quota * (Z → Z) * buddy)) :=
  if j <? order b then
    match fuel with
    | O => None
    | S fuel =>
      block ← next (lk b) (head_at j);
      if bool_decide (block = head_at j) then scan fuel o (j + 1) q f mem b
      else r ← take_block o j block q f mem b; Some (Some r)
    end
  else Some None.

Definition _alloc (o : Z) (q : quota) (f : Fill) (mem : Z → Z) (b : buddy) :
    option (option (Z * quota * (Z → Z) * buddy)) :=
  scan (Z.to_nat (order b - o)) o o q f mem b.

(** [Buddy::alloc] tries the pools of the list in turn; [None] is the panic. *)
Fixpoint alloc (o : Z) (q : quota) (f : Fill) (mem : Z → Z) (pools : list buddy) :
    option (Z * quota * (Z → Z) * list buddy) :=
  match pools with
  | [] => None
  | b :: rest =>
    r ← _alloc o q f mem b;
    match r with
    | Some (v, q, mem, b) => Some (v, q, mem, b :: rest)
    | None => '(v, q, mem, rest) ← alloc o q f mem rest; Some (v, q, mem, b :: rest)
    end
  end.

(** ** Deallocation *)

(** The loop that merges [block] of order [o] with its buddies. *)
Fixpoint merge (fuel : nat) (o : Z) (block : obj) (b : buddy) : option (Z * obj * buddy) :=
  if o <? (order b - 1)%W then
    match fuel with
    | O => None
    | S fuel =>
      let block_idx := block_to_index b block in
      let buddy_idx := Z.lxor block_idx (1 << o)%W in
      if (buddy_idx <? min_idx b) || (max_idx b <=? buddy_idx) then Some (o, block, b)
      else
        let t := index_to_block b buddy_idx in
        if bool_decide (tag b t = Used) || negb (ord b t =? o) then Some (o, block, b)
        else
          L ← unlink_block t (lk b);
          merge fuel (o + 1) (if (t <? block)%nat then t else block) (set_lk L b)
    end
  else Some (o, block, b).

(** [block->prev = h; block->next = h->next; block->next->prev = h->next = block]. *)
Definition push (t h : obj) (L : links) : option links :=
  let L := set_prev t (Some h) L in
  let L := set_next t (next L h) L in
  let L' := set_next h (Some t) L in
  n ← next L t;
  Some (set_prev n (Some t) L').

Definition _free (virt : Z) (q : quota) (b : buddy) : option (quota * buddy) :=
  let idx := page_to_index b virt in
  if negb ((min_idx b <=? idx) && (idx <? max_idx b)) then None
  else
    let block := index_to_block b idx in
    if negb (bool_decide (tag b block = Used)) then None
    else if negb (phys_aligned virt (ord b block)) then None
    else
      let q := Quota.free q (1 << ord b block)%W in
      '(o, block, b) ← merge (Z.to_nat (order b)) (ord b block) block b;
      L ← push block (head_at o) (lk b);
      Some (q, set_lk L (set_tag block Free (set_ord block o b))).

(** [Buddy::free] frees in the pool that holds the page. *)
Fixpoint free (virt : Z) (q : quota) (pools : list buddy) : option (quota * list buddy) :=
  match pools with
  | [] => None
  | b :: rest =>
    let idx := page_to_index b virt in
    if (min_idx b <=? idx) && (idx <? max_idx b) then
      '(q, b) ← _free virt q b; Some (q, b :: rest)
    else '(q, rest) ← free virt q rest; Some (q, b :: rest)
  end.

(** ** Construction *)

(** [sizeof (Block)]. *)
Definition sizeof_Block : Z := 24.

(** The list heads are their own neighbours. *)
Fixpoint init_heads (n : nat) (L : links) : links :=
  match n with
  | O => L
  | S n => let L := init_heads n L in set_prev n (Some n) (set_next n (Some n) L)
  end.

(** [for (mword i = f_addr; i < end; i += PAGE_SIZE) _free (i, Quota::init)]. *)
Fixpoint free_pages (fuel : nat) (i end_ : Z) (q : quota) (b : buddy) : option (quota * buddy) :=
  if i <? end_ then
    match fuel with
    | O => None
    | S fuel => '(q, b) ← _free i q b; free_pages fuel (i + PAGE_SIZE)%W end_ q b
    end
  else Some (q, b).

(** The fields the constructor computes, before the pages are freed.  The
    memory that holds the descriptors is zero: every page has tag [Used] and
    order 0. *)
Definition Buddy_layout (phys virt size : Z) : buddy * Z :=
  let bit := bit_scan_reverse size in
  let base := phys_to_virt (align_up phys (1 << bit)%W) in
  let order := (bit + 1 - PAGE_BITS)%W in
  let size := (size - wrap 64 (order * sizeof_Block))%W in
  let head := (virt + size)%W in
  let size := (size - wrap 64 (size / (PAGE_SIZE + sizeof_Block) * sizeof_Block))%W in
  let size := (size .& wnot (PAGE_SIZE - 1))%W in
  let b0 := Buddy 0 0 base order 0 head (Links (λ _, None) (λ _, None)) (λ _, 0) (λ _, Used) in
  let min_idx := page_to_index b0 virt in
  let max_idx := page_to_index b0 (virt + size)%W in
  let index := (virt + size - wrap 64 (min_idx * sizeof_Block))%W in
  (Buddy max_idx min_idx base order index head
     (init_heads (Z.to_nat order) (lk b0)) (λ _, 0) (λ _, Used), size).

(** The descriptor array, [index + min_idx] to [index + max_idx], ends at or
    before the list heads. *)
Definition storage_apart (virt size : Z) (b : buddy) : bool :=
  virt + size + (max_idx b - min_idx b) * sizeof_Block <=? head b.

(** Heads and descriptors are separate objects here; where the source lets the
    last descriptor overlap [head[0]] the model stops ([None]). *)
Definition Buddy_construct (phys virt f_addr size : Z) (q : quota) : option (quota * buddy) :=
  let '(b, size) := Buddy_layout phys virt size in
  if negb (storage_apart virt size b) then None
  else free_pages (S (Z.to_nat ((size - (f_addr - virt)) / PAGE_SIZE))) f_addr (virt + size)%W q b.

End offset.

(** ** Buddies *)

Lemma lxor_1 q : Z.lxor q 1 = if Z.even q then q + 1 else q - 1.
Proof.
  assert (∀ k, Z.lxor (2 * k) 1 = 2 * k + 1) as He.
  { intros k. rewrite <-Z.add_nocarry_lxor; [done|].
    change 1 with (Z.ones 1) at 1. rewrite Z.land_ones by lia. rewrite Z.mul_comm. by apply Z.mod_mul. }
  destruct (Z.even q) eqn:Hq.
  - apply Z.even_spec in Hq as [k ->]. apply He.
  - rewrite <-Z.negb_odd in Hq. apply negb_false_iff, Z.odd_spec in Hq as [k ->].
    rewrite <-He, Z.lxor_assoc, Z.lxor_nilpotent, Z.lxor_0_r, He. lia.
Qed.

(** The buddy of an aligned index is the other half of the next larger block. *)
Lemma lxor_pow2 i o :
  0 ≤ o → i mod 2 ^ o = 0 →
  Z.lxor i (2 ^ o) = if i mod 2 ^ (o + 1) =? 0 then i + 2 ^ o else i - 2 ^ o.
Proof.
  intros Ho Hi. assert (0 < 2 ^ o) by (apply Z.pow_pos_nonneg; lia).
  pose proof (Z.div_mod i (2 ^ o)) as Hd. rewrite Hi in Hd. generalize dependent (i / 2 ^ o). intros q Hd.
  assert (i = q * 2 ^ o) as E by lia. clear Hd Hi. subst i.
  assert (Z.lxor (q * 2 ^ o) (2 ^ o) = Z.lxor q 1 * 2 ^ o) as ->.
  { rewrite <-(Z.mul_1_l (2 ^ o)) at 2. by rewrite <-!Z.shiftl_mul_pow2, Z.shiftl_lxor. }
  rewrite lxor_1, Z.pow_add_r, Z.pow_1_r by lia. rewrite (Z.mul_comm q (2 ^ o)).
  rewrite Z.mul_mod_distr_l, Zmod_even by lia.
  destruct (Z.even q); zcase; lia.
Qed.

(** A block and its buddy are the halves of an aligned block. *)
Lemma buddy_pair i o :
  0 ≤ o → i mod 2 ^ o = 0 →
  ∃ m, m mod 2 ^ (o + 1) = 0 ∧
    ((i = m ∧ Z.lxor i (2 ^ o) = m + 2 ^ o) ∨ (i = m + 2 ^ o ∧ Z.lxor i (2 ^ o) = m)).
Proof.
  intros Ho Hal. pose proof (pow2_pos o Ho). pose proof (lxor_pow2 i o Ho Hal) as Hx.
  destruct (Z.eqb_spec (i mod 2 ^ (o + 1)) 0) as [|Hne]; [exists i; auto|].
  exists (i - 2 ^ o). split; [|right; lia].
  rewrite pow2_succ in * by done. apply Z.mod_divide in Hal as [a ->]; [|lia].
  replace (a * 2 ^ o - 2 ^ o) with ((a - 1) * 2 ^ o) by lia.
  rewrite Z.mul_mod_distr_r in * by lia. pose proof (Z.mod_pos_bound a 2).
  rewrite <-Zminus_mod_idemp_l. replace (a mod 2) with 1 by nia. done.
Qed.

Lemma lxor_aligned i o : 0 ≤ o → i mod 2 ^ o = 0 → Z.lxor i (2 ^ o) mod 2 ^ o = 0.
Proof.
  intros Ho Hal. pose proof (pow2_pos o Ho). rewrite lxor_pow2 by done.
  apply Z.mod_divide in Hal as [a ->]; [|lia].
  case_match; [rewrite <-Z.mul_succ_l|rewrite <-Z.mul_pred_l]; apply Z_mod_mult.
Qed.

(** ** Tilings

    A tiling assigns to the first page of each block its order and tag. *)
Abbreviation tiles := (gmap Z (Z * Tag)).

Record tiling (mn mx od : Z) (A : tiles) : Prop := {
  til_block i o g : A !! i = Some (o, g) → 0 ≤ o < od ∧ mn ≤ i ∧ i + 2 ^ o ≤ mx ∧ i mod 2 ^ o = 0;
  til_disj i k o g o' g' p :
    A !! i = Some (o, g) → A !! k = Some (o', g') → in_block i o p → in_block k o' p → i = k;
  til_cover p : mn ≤ p < mx → ∃ i o g, A !! i = Some (o, g) ∧ in_block i o p;
}.

Section tilings.
Context {mn mx od : Z}.
Implicit Types A : tiles.

Lemma tiling_mark A i o g g' :
  tiling mn mx od A → A !! i = Some (o, g) → tiling mn mx od (<[i := (o, g')]> A).
Proof.
  intros T Hi.
  assert (∀ k ok gk, <[i := (o, g')]> A !! k = Some (ok, gk) → ∃ g1, A !! k = Some (ok, g1)) as Hl.
  { intros k ok gk [(-> & [= <- <-])|(? & ?)]%lookup_insert_Some; eauto. }
  split.
  - intros k ok gk [? ?]%Hl. by eapply til_block.
  - intros k k' ok gk ok' gk' p [? ?]%Hl [? ?]%Hl. by eapply til_disj.
  - intros p (k & ok & gk & Hk & Hp)%(til_cover _ _ _ _ T).
    destruct (decide (k = i)) as [->|].
    + exists i, o, g'. simplify_eq. by rewrite lookup_insert_Some; auto.
    + exists k, ok, gk. rewrite lookup_insert_Some; auto.
Qed.

Definition halve (i o : Z) (g g' : Tag) (A : tiles) : tiles :=
  <[i := (o, g)]> (<[i + 2 ^ o := (o, g')]> A).

Lemma halve_lookup i o g g' A k ok gk :
  0 ≤ o → halve i o g g' A !! k = Some (ok, gk) ↔
  (k = i ∧ ok = o ∧ gk = g) ∨ (k = i + 2 ^ o ∧ ok = o ∧ gk = g') ∨
  (k ≠ i ∧ k ≠ i + 2 ^ o ∧ A !! k = Some (ok, gk)).
Proof.
  intros Ho. pose proof (pow2_pos o Ho). unfold halve. rewrite !lookup_insert_Some. split.
  - intros [(<- & [= -> ->])|(? & [(<- & [= -> ->])|(? & ?)])]; auto 6.
  - intros [(-> & -> & ->)|[(-> & -> & ->)|(? & ? & ?)]]; auto 7.
    right. split; [lia|]. auto.
Qed.

Lemma til_order A i o g : tiling mn mx od A → A !! i = Some (o, g) → 0 ≤ o < od.
Proof. intros T Hi. apply (til_block _ _ _ _ T _ _ _ Hi). Qed.

(** No block starts inside another one. *)
Lemma til_inner A i o g k :
  tiling mn mx od A → A !! i = Some (o, g) → in_block i o k → k ≠ i → A !! k = None.
Proof.
  intros T Hi Hk Hne. destruct (A !! k) as [[ok gk]|] eqn:E; [|done]. destruct Hne.
  symmetry. eapply til_disj; [done|exact Hi|exact E|done|].
  apply in_block_self. apply (til_order _ _ _ _ T E).
Qed.

Lemma tiling_halve A i o g0 g g' :
  0 ≤ o → tiling mn mx od A → A !! i = Some (o + 1, g0) → tiling mn mx od (halve i o g g' A).
Proof.
  intros Ho T Hi. pose proof (pow2_pos o Ho). pose proof (pow2_succ o Ho) as E.
  destruct (til_block _ _ _ _ T _ _ _ Hi) as (? & ? & ? & Hal).
  assert (i mod 2 ^ o = 0 ∧ (i + 2 ^ o) mod 2 ^ o = 0) as [? ?].
  { apply Z.mod_divide in Hal as [a ->]; [|lia]. rewrite E.
    replace (a * (2 * 2 ^ o)) with (a * 2 * 2 ^ o) by lia.
    rewrite <-Z.mul_succ_l. by rewrite !Z_mod_mult. }
  assert (∀ k ok gk, halve i o g g' A !! k = Some (ok, gk) →
    (ok = o ∧ (k = i ∨ k = i + 2 ^ o)) ∨ (k ≠ i ∧ A !! k = Some (ok, gk))) as Hl.
  { intros k ok gk. rewrite halve_lookup by done.
    intros [(-> & -> & ->)|[(-> & -> & ->)|(? & ? & ?)]]; auto. }
  assert (∀ k ok gk p, k ≠ i → A !! k = Some (ok, gk) → in_block k ok p → ¬ i ≤ p < i + 2 * 2 ^ o) as Hout.
  { intros k ok gk p Hne Hk Hp Hp'. apply Hne. eapply til_disj; [done|exact Hk|exact Hi|exact Hp|].
    unfold in_block. lia. }
  split.
  - intros k ok gk [(-> & [->| ->])|(_ & Hk)]%Hl; [lia|lia|by eapply til_block].
  - intros k k' ok gk ok' gk' p Hk Hk' Hp Hp'.
    apply Hl in Hk. apply Hl in Hk'. unfold in_block in *.
    destruct Hk as [(-> & Hk)|(? & Hk)], Hk' as [(-> & Hk')|(? & Hk')].
    + lia.
    + exfalso. eapply (Hout _ _ _ p); [|exact Hk'| |]; unfold in_block; lia.
    + exfalso. eapply (Hout _ _ _ p); [|exact Hk| |]; unfold in_block; lia.
    + by eapply til_disj.
  - intros p (k & ok & gk & Hk & Hp)%(til_cover _ _ _ _ T).
    destruct (decide (k = i)) as [->|Hne].
    + simplify_eq. unfold in_block in *. destruct (Z.lt_ge_cases p (i + 2 ^ o)).
      * exists i, o, g. rewrite halve_lookup by done. split; [auto|lia].
      * exists (i + 2 ^ o), o, g'. rewrite halve_lookup by done. split; [auto|lia].
    + exists k, ok, gk. rewrite halve_lookup by done. split; [right; right|done].
      split_and!; try done. intros ->. eapply (Hout _ _ _ (i + 2 ^ o)); [exact Hne|exact Hk| |lia].
      apply in_block_self. apply (til_order _ _ _ _ T Hk).
Qed.

Definition join (i o : Z) (g : Tag) (A : tiles) : tiles :=
  <[i := (o + 1, g)]> (delete (i + 2 ^ o) A).

Lemma join_lookup i o g A k ok gk :
  0 ≤ o → join i o g A !! k = Some (ok, gk) ↔
  (k = i ∧ ok = o + 1 ∧ gk = g) ∨ (k ≠ i ∧ k ≠ i + 2 ^ o ∧ A !! k = Some (ok, gk)).
Proof.
  intros Ho. unfold join. rewrite lookup_insert_Some, lookup_delete_Some. split.
  - intros [(<- & [= -> ->])|(? & ? & ?)]; auto 6.
  - intros [(-> & -> & ->)|(? & ? & ?)]; auto 7.
Qed.

Lemma tiling_join A i o g g1 g2 :
  tiling mn mx od A → o + 1 < od → i mod 2 ^ (o + 1) = 0 →
  A !! i = Some (o, g1) → A !! (i + 2 ^ o) = Some (o, g2) → tiling mn mx od (join i o g A).
Proof.
  intros T Hod Hal Hi Hi'.
  destruct (til_block _ _ _ _ T _ _ _ Hi) as ([Ho _] & ? & ? & _).
  destruct (til_block _ _ _ _ T _ _ _ Hi') as (_ & ? & ? & _).
  pose proof (pow2_pos o Ho). pose proof (pow2_succ o Ho) as E.
  assert (∀ k ok gk p, k ≠ i → k ≠ i + 2 ^ o → A !! k = Some (ok, gk) → in_block k ok p →
    ¬ in_block i (o + 1) p) as Hout.
  { intros k ok gk p Hn1 Hn2 Hk Hp Hp'. unfold in_block in Hp'.
    destruct (Z.lt_ge_cases p (i + 2 ^ o)); [apply Hn1|apply Hn2];
      (eapply til_disj; [done|exact Hk|eassumption|exact Hp|unfold in_block; lia]). }
  split.
  - intros k ok gk. rewrite join_lookup by done.
    intros [(-> & -> & ->)|(_ & _ & Hk)]; [split_and!; lia|by eapply til_block].
  - intros k k' ok gk ok' gk' p. rewrite !join_lookup by done.
    intros [(-> & -> & ->)|(? & ? & Hk)] [(-> & -> & ->)|(? & ? & Hk')] Hp Hp'; [done| | |by eapply til_disj].
    + by edestruct (Hout k' ok' gk' p).
    + by edestruct (Hout k ok gk p).
  - intros p (k & ok & gk & Hk & Hp)%(til_cover _ _ _ _ T).
    destruct (decide (k = i)) as [->|]; [|destruct (decide (k = i + 2 ^ o)) as [->|]].
    + exists i, (o + 1), g. rewrite join_lookup by done. simplify_eq. unfold in_block in *. split; [auto|lia].
    + exists i, (o + 1), g. rewrite join_lookup by done. simplify_eq. unfold in_block in *. split; [auto|lia].
    + exists k, ok, gk. rewrite join_lookup by done. auto.
Qed.

(** The buddy of a block is a block of at most its order, when it lies in
    the pool at all. *)
Lemma buddy_starts A i o g :
  tiling mn mx od A → A !! i = Some (o, g) → mn ≤ Z.lxor i (2 ^ o) < mx →
  ∃ o' g', A !! Z.lxor i (2 ^ o) = Some (o', g') ∧ o' ≤ o.
Proof.
  intros T Hi Hr. destruct (til_block _ _ _ _ T _ _ _ Hi) as ([Ho _] & ? & ? & Hal).
  pose proof (pow2_pos o Ho). pose proof (pow2_succ o Ho) as E.
  destruct (til_cover _ _ _ _ T _ Hr) as (k & ok & gk & Hk & Hp).
  destruct (til_block _ _ _ _ T _ _ _ Hk) as ([Hok _] & _ & _ & Hkal).
  destruct (Z.le_gt_cases ok o) as [Hle|Hgt].
  - enough (k = Z.lxor i (2 ^ o)) as <- by eauto.
    destruct (aligned_nested k ok (Z.lxor i (2 ^ o)) o (Z.lxor i (2 ^ o))) as [? ?]; try done;
      [by apply lxor_aligned|by apply in_block_self|unfold in_block in *; lia].
  - exfalso. assert (k = i) as ->.
    { destruct (buddy_pair i o Ho Hal) as (m & Hm & Him).
      eapply til_disj; [done|exact Hk|exact Hi| |by apply in_block_self].
      destruct (aligned_nested m (o + 1) k ok (Z.lxor i (2 ^ o))) as [? ?]; try done;
        [lia|unfold in_block; lia|]. unfold in_block. lia. }
    simplify_eq. lia.
Qed.

(** ** Free runs

    In a tiling whose free buddies are merged, every aligned run of free
    pages lies in one free block. *)
Definition coalesced (A : tiles) : Prop :=
  ∀ i o, A !! i = Some (o, Free) → o + 1 < od → A !! Z.lxor i (2 ^ o) ≠ Some (o, Free).

Lemma free_run A i o :
  tiling mn mx od A → coalesced A → 0 ≤ o < od → i mod 2 ^ o = 0 → mn ≤ i → i + 2 ^ o ≤ mx →
  (∀ k ok p, A !! k = Some (ok, Used) → in_block k ok p → ¬ in_block i o p) →
  ∃ k ok, A !! k = Some (ok, Free) ∧ o ≤ ok.
Proof.
  intros T HC Ho Hal Hmn Hmx Hfree.
  assert (∀ n k ok gk, ok < Z.of_nat n → A !! k = Some (ok, gk) → i ≤ k → k + 2 ^ ok ≤ i + 2 ^ o →
    ∃ k ok, A !! k = Some (ok, Free) ∧ o ≤ ok) as Hind.
  2: { pose proof (pow2_pos o). destruct (til_cover _ _ _ _ T i) as (k & ok & gk & Hk & Hp); [lia|].
    destruct (til_block _ _ _ _ T _ _ _ Hk) as (? & ? & ? & ?).
    destruct (Z.le_gt_cases o ok).
    - destruct gk; [|by eauto]. edestruct Hfree; [exact Hk|exact Hp|]. apply in_block_self. lia.
    - destruct (aligned_nested k ok i o i) as [? ?]; try done; [lia|apply in_block_self; lia|].
      eapply (Hind (Z.to_nat od) k ok gk); [lia|done|lia|lia]. }
  induction n as [|n IH]; intros k ok gk Hn Hk Hik Hki.
  { apply til_order in Hk; [lia|done]. }
  destruct (til_block _ _ _ _ T _ _ _ Hk) as (? & ? & ? & Hkal).
  pose proof (pow2_pos ok). pose proof (pow2_pos o).
  destruct gk.
  { exfalso. eapply (Hfree k ok k); [exact Hk|apply in_block_self; lia|unfold in_block; lia]. }
  destruct (Z.le_gt_cases o ok); [by eauto|].
  set (k' := Z.lxor k (2 ^ ok)).
  assert (i ≤ k' ∧ k' + 2 ^ ok ≤ i + 2 ^ o) as [? ?].
  { destruct (buddy_pair k ok ltac:(lia) Hkal) as (m & Hm & Hkm). fold k' in Hkm.
    pose proof (pow2_succ ok ltac:(lia)).
    destruct (aligned_nested m (ok + 1) i o k) as [? ?]; try done; [lia|unfold in_block; lia..|]. lia. }
  destruct (buddy_starts A k ok Free T Hk) as (o' & g' & Hk' & Hle); [fold k'; lia|].
  destruct (decide (o' = ok)) as [->|Hne].
  - destruct g'.
    + exfalso. eapply (Hfree k' ok k'); [exact Hk'|apply in_block_self; lia|unfold in_block; lia].
    + exfalso. eapply HC; [exact Hk|lia|exact Hk'].
  - eapply (IH k' o' g'); [lia|exact Hk'|lia|].
    assert (2 ^ o' ≤ 2 ^ ok) by (apply Z.pow_le_mono_r; lia). lia.
Qed.
End tilings.

(** ** Descriptors as objects *)

(** What the allocator never changes. *)
Definition same_pool (b b' : buddy) : Prop :=
  max_idx b' = max_idx b ∧ min_idx b' = min_idx b ∧ base b' = base b ∧ order b' = order b ∧
  index b' = index b ∧ head b' = head b.

Lemma same_pool_refl b : same_pool b b.
Proof. done. Qed.

Lemma same_pool_trans b1 b2 b3 : same_pool b1 b2 → same_pool b2 b3 → same_pool b1 b3.
Proof. unfold same_pool. intuition congruence. Qed.

Lemma same_pool_block b b' i : same_pool b b' → index_to_block b' i = index_to_block b i.
Proof. intros (_ & E1 & _ & E2 & _). unfold index_to_block. by rewrite E1, E2. Qed.

Lemma block_index b i : 0 ≤ order b → min_idx b ≤ i → block_to_index b (index_to_block b i) = i.
Proof. intros. unfold block_to_index, index_to_block. lia. Qed.

Lemma block_inj b i k :
  0 ≤ order b → min_idx b ≤ i → min_idx b ≤ k → index_to_block b i = index_to_block b k → i = k.
Proof. intros ? Hi Hk E. rewrite <-(block_index b i), <-(block_index b k) by done. by rewrite E. Qed.

Lemma block_not_head b i j :
  min_idx b ≤ i → 0 ≤ j < order b → index_to_block b i ≠ head_at j.
Proof. unfold index_to_block, head_at. lia. Qed.

Lemma block_plus b i d :
  0 ≤ order b → min_idx b ≤ i → 0 ≤ d →
  (index_to_block b i + Z.to_nat d)%nat = index_to_block b (i + d).
Proof. intros. unfold index_to_block. lia. Qed.

Lemma block_lt b i k :
  0 ≤ order b → min_idx b ≤ i → min_idx b ≤ k →
  (index_to_block b i <? index_to_block b k)%nat = (i <? k).
Proof.
  intros. unfold index_to_block.
  destruct (Nat.ltb_spec (Z.to_nat (order b + (i - min_idx b))) (Z.to_nat (order b + (k - min_idx b)))); zcase; lia.
Qed.

(** ** The lists of free blocks *)
Record lists (b : buddy) (fl : Z → list Z) : Prop := {
  l_ring j : 0 ≤ j < order b → ring (lk b) (head_at j :: (index_to_block b <$> fl j));
  l_range j k : 0 ≤ j < order b → k ∈ fl j → min_idx b ≤ k;
  l_disj j j' k : 0 ≤ j < order b → 0 ≤ j' < order b → k ∈ fl j → k ∈ fl j' → j = j';
}.

Lemma lists_same b b' fl :
  lk b' = lk b → order b' = order b → min_idx b' = min_idx b → lists b fl → lists b' fl.
Proof.
  intros E1 E2 E3 [H1 H2 H3].
  assert (∀ i, index_to_block b' i = index_to_block b i) as E by (intros; unfold index_to_block; by rewrite E2, E3).
  split; rewrite ?E2, ?E3; [|done..]. intros j Hj. rewrite E1.
  rewrite (list_fmap_ext _ (index_to_block b)) by done. by apply H1.
Qed.

(** Objects on the ring of order [j] are on no other ring. *)
Lemma lists_other b fl j j' t :
  lists b fl → 0 ≤ j < order b → 0 ≤ j' < order b → j ≠ j' →
  t ∈ head_at j :: (index_to_block b <$> fl j) → t ∉ head_at j' :: (index_to_block b <$> fl j').
Proof.
  intros HL Hj Hj' Hne. rewrite !elem_of_cons, !list_elem_of_fmap.
  intros [->|(k & -> & Hk)] [E|(k' & E & Hk')].
  - unfold head_at in E. lia.
  - symmetry in E. by apply block_not_head in E; [|exact (l_range _ _ HL j' k' Hj' Hk')|].
  - by apply block_not_head in E; [|exact (l_range _ _ HL j k Hj Hk)|].
  - apply block_inj in E as ->; [|lia|exact (l_range _ _ HL j k Hj Hk)|exact (l_range _ _ HL j' k' Hj' Hk')].
    apply Hne. exact (l_disj _ _ HL j j' k' Hj Hj' Hk Hk').
Qed.

(** Replacing the list of order [j] by pointer changes on its own ring. *)
Lemma lists_update b fl j l L :
  lists b fl → 0 ≤ j < order b →
  ring L (head_at j :: (index_to_block b <$> l)) →
  (∀ k, k ∈ l → min_idx b ≤ k ∧ ∀ j', 0 ≤ j' < order b → j' ≠ j → k ∉ fl j') →
  same_links (λ t, ∃ j', 0 ≤ j' < order b ∧ j' ≠ j ∧ t ∈ head_at j' :: (index_to_block b <$> fl j')) (lk b) L →
  lists (set_lk L b) (<[j := l]> fl).
Proof.
  intros HL Hj Hr Hl Hs. split; simpl.
  - intros j' Hj'. destruct (decide (j' = j)) as [->|Hne]; [by rewrite fn_lookup_insert|].
    rewrite fn_lookup_insert_ne by done.
    apply (ring_frame (lk b) L (head_at j' :: (index_to_block b <$> fl j')));
      [intros t Ht; apply Hs; eauto..|by apply (l_ring _ _ HL)].
  - intros j' k Hj'. destruct (decide (j' = j)) as [->|Hne].
    + rewrite fn_lookup_insert. intros Hk. by apply Hl.
    + rewrite fn_lookup_insert_ne by done. by apply (l_range _ _ HL).
  - intros j1 j2 k Hj1 Hj2.
    destruct (decide (j1 = j)) as [->|], (decide (j2 = j)) as [->|];
      rewrite ?fn_lookup_insert, ?fn_lookup_insert_ne by done; intros Hk1 Hk2; try done.
    + destruct (Hl k Hk1) as [_ Ho]. by destruct (Ho j2 Hj2).
    + destruct (Hl k Hk2) as [_ Ho]. by destruct (Ho j1 Hj1).
    + exact (l_disj _ _ HL j1 j2 k Hj1 Hj2 Hk1 Hk2).
Qed.

Lemma unlink_block_eq t L n p :
  next L t = Some n → prev L t = Some p → n ≠ t → p ≠ t → unlink_block t L = unlink t L.
Proof.
  intros Hn Hp Hnt Hpt. unfold unlink_block, unlink. rewrite Hn, Hp. simpl.
  rewrite !fn_lookup_insert_ne by done. by rewrite Hn, Hp.
Qed.

Lemma lists_unlink b fl j l1 i l2 :
  lists b fl → 0 ≤ j < order b → fl j = l1 ++ i :: l2 →
  ∃ L, unlink_block (index_to_block b i) (lk b) = Some L ∧ lists (set_lk L b) (<[j := l1 ++ l2]> fl).
Proof.
  intros HL Hj Hfl. pose proof (l_ring _ _ HL j Hj) as Hr. rewrite Hfl, fmap_app, fmap_cons in Hr.
  set (t := index_to_block b i) in *. set (B1 := index_to_block b <$> l1) in *. set (B2 := index_to_block b <$> l2) in *.
  destruct (unlink_spec (lk b) t (head_at j :: B1) B2) as (L & HU & Hr' & _ & _ & Hn & Hf); [done|done|].
  exists L. split.
  - rewrite <-HU. apply (ring_rotate _ (head_at j :: B1) (t :: B2)) in Hr as [Hd Hs]. simpl in Hs.
    pose proof (seg_last _ _ _ _ Hs) as Hp. apply list.NoDup_cons in Hd as [Ht _].
    eapply (unlink_block_eq _ _ _ _ Hn Hp); intros E; apply Ht; rewrite <-E.
    + destruct B2; left.
    + destruct (B2 ++ head_at j :: B1) eqn:E2; [by destruct B2|].
      rewrite last_cons_default in E |- *. apply last_in.
  - apply lists_update; [done..|by rewrite fmap_app| |].
    + intros k Hk. assert (k ∈ fl j) as Hk' by (rewrite Hfl; rewrite !elem_of_app, elem_of_cons in *; tauto).
      split; [exact (l_range _ _ HL j k Hj Hk')|]. intros j' Hj' Hne Hk2. apply Hne.
      exact (l_disj _ _ HL j' j k Hj' Hj Hk2 Hk').
    + intros a (j' & Hj' & Hne & Ha). apply Hf.
      assert (a ∉ head_at j :: (index_to_block b <$> fl j)) as Ha' by (by eapply lists_other).
      rewrite Hfl, fmap_app, fmap_cons in Ha'. fold B1 B2 t in Ha'.
      change ((head_at j :: B1) ++ B2) with (head_at j :: B1 ++ B2).
      rewrite !elem_of_cons, !elem_of_app, elem_of_cons in *. tauto.
Qed.

(** Linking [t] behind a list head. *)
Lemma push_spec L t h l :
  ring L (h :: l) → t ∉ h :: l →
  ∃ L', push t h L = Some L' ∧ ring L' (h :: t :: l) ∧ same_links (λ a, a ∉ t :: h :: l) L L'.
Proof.
  intros Hr Ht. assert (∃ n m, l ++ [h] = n :: m ∧ next L h = Some n) as (n & m & E & Hn).
  { destruct l as [|n m]; simpl in Hr; [exists h, []|exists n, (m ++ [h])]; split; tauto. }
  assert (ring L (n :: m)) as Hr2 by (rewrite <-E; by apply (ring_rotate _ [h] l)).
  assert (∀ a, a ∈ n :: m ↔ a ∈ h :: l) as Hin.
  { intros a. rewrite <-E, elem_of_app, list_elem_of_singleton, elem_of_cons. tauto. }
  assert (prev L n = Some h) as Hp.
  { destruct l as [|? ?]; simpl in Hr, E; simplify_eq; tauto. }
  destruct (link_before_spec L t n m Hr2) as (L1 & HL1 & Hr1 & Hf1); [by rewrite Hin|].
  assert (t ≠ h ∧ t ≠ n) as [Hth Htn].
  { split; intros ->; apply Ht; [left|]. apply Hin. left. }
  set (L2 := set_prev n (Some t) (set_next h (Some t) (set_next t (Some n) (set_prev t (Some h) L)))).
  assert (push t h L = Some L2) as ->.
  { unfold push. simpl. by rewrite fn_lookup_insert, Hn. }
  exists L2. split; [done|].
  assert (∀ a, next L2 a = next L1 a ∧ prev L2 a = prev L1 a) as Hsame.
  { revert HL1. unfold link_before. simpl. rewrite Hp. rewrite fn_lookup_insert. cbn [mbind option_bind]. simpl.
    rewrite fn_lookup_insert_ne, fn_lookup_insert by done. cbn [mbind option_bind]. intros [= <-]. done. }
  split.
  - eapply ring_frame; [intros a _; apply Hsame|intros a _; apply Hsame|].
    assert (ring L1 ((l ++ [h]) ++ [t])) as Hr3 by (rewrite E; exact Hr1).
    rewrite <-app_assoc in Hr3. by apply (ring_rotate _ l [h; t]) in Hr3.
  - intros a Ha. rewrite (proj1 (Hsame a)), (proj2 (Hsame a)). apply Hf1.
    intros [->|Ha']%elem_of_cons; apply Ha; [left|right; by apply Hin].
Qed.

Lemma link_alone_spec L t h :
  ring L [h] → t ≠ h →
  ring (link_alone t h L) [h; t] ∧ same_links (λ a, a ∉ [t; h]) L (link_alone t h L).
Proof.
  intros Hr Ht. unfold link_alone. split.
  - split.
    + apply list.NoDup_cons. split; [rewrite list_elem_of_singleton; congruence|]. apply NoDup_singleton.
    + simpl. split_and!;
        first [by rewrite fn_lookup_insert|by rewrite fn_lookup_insert_ne, fn_lookup_insert by congruence].
  - intros a Ha. rewrite !not_elem_of_cons in Ha. simpl. rewrite !fn_lookup_insert_ne by (intros <-; tauto). done.
Qed.

(** Entering a block that is on no list. *)
Lemma lists_enter b fl j i L :
  lists b fl → 0 ≤ j < order b → min_idx b ≤ i → (∀ j', 0 ≤ j' < order b → i ∉ fl j') →
  ring L (head_at j :: index_to_block b i :: (index_to_block b <$> fl j)) →
  same_links (λ a, a ∉ index_to_block b i :: head_at j :: (index_to_block b <$> fl j)) (lk b) L →
  lists (set_lk L b) (<[j := i :: fl j]> fl).
Proof.
  intros HL Hj Hi Hnew Hr Hs. apply lists_update; [done..| |].
  - intros k [->|Hk]%elem_of_cons; [by auto|]. split; [exact (l_range _ _ HL j k Hj Hk)|].
    intros j' Hj' Hne Hk2. apply Hne. exact (l_disj _ _ HL j' j k Hj' Hj Hk2 Hk).
  - intros a (j' & Hj' & Hne & Ha). apply Hs. intros [->|Ha']%elem_of_cons.
    + apply elem_of_cons in Ha as [E|(k & E & Hk)%list_elem_of_fmap]; [by apply block_not_head in E|].
      apply block_inj in E as <-; [exact (Hnew j' Hj' Hk)|lia|done|exact (l_range _ _ HL j' k Hj' Hk)].
    + exact (lists_other b fl j' j a HL Hj' Hj Hne Ha Ha').
Qed.

Lemma enter_fresh b fl j i :
  lists b fl → 0 ≤ j < order b → min_idx b ≤ i → (∀ j', 0 ≤ j' < order b → i ∉ fl j') →
  index_to_block b i ∉ head_at j :: (index_to_block b <$> fl j).
Proof.
  intros HL Hj Hi Hnew [E|(k & E & Hk)%list_elem_of_fmap]%elem_of_cons; [by apply block_not_head in E|].
  apply block_inj in E as <-; [exact (Hnew j Hj Hk)|lia|done|exact (l_range _ _ HL j k Hj Hk)].
Qed.

(** ** The state of a pool *)
Section pool.
Context (OFFSET : Z).

(** What the constructor sets up: the largest order of a block is
    [order - 1]; the pages have addresses; [base] is aligned physically. *)
Record geometry (b : buddy) : Prop := {
  g_order : 0 < order b ≤ 52;
  g_idx : min_idx b ≤ max_idx b;
  g_base : word 64 (base b) ∧ base b mod PAGE_SIZE = 0;
  g_addr : 0 ≤ base b + min_idx b * PAGE_SIZE ∧ base b + max_idx b * PAGE_SIZE ≤ 2 ^ 64;
  g_phys : (base b - OFFSET) mod 2 ^ (order b - 1 + PAGE_BITS) = 0;
}.

Lemma geometry_same b b' : same_pool b b' → geometry b → geometry b'.
Proof.
  intros (E1 & E2 & E3 & E4 & _) [? ? ? ? ?].
  split; rewrite ?E1, ?E2, ?E3, ?E4; done.
Qed.

(** [tag] and [ord] of the first page of every block except [x]. *)
Definition fields (b : buddy) (A : tiles) (x : option Z) : Prop :=
  ∀ i o g, A !! i = Some (o, g) → Some i ≠ x →
    ord b (index_to_block b i) = o ∧ tag b (index_to_block b i) = g.

Record pool (b : buddy) (A : tiles) (fl : Z → list Z) (x : option Z) : Prop := {
  p_geometry : geometry b;
  p_tiling : tiling (min_idx b) (max_idx b) (order b) A;
  p_coalesced : coalesced (od := order b) A;
  p_lists : lists b fl;
  p_free i j : 0 ≤ j < order b → i ∈ fl j ↔ A !! i = Some (j, Free);
  p_fields : fields b A x;
}.

(** Allocated blocks. *)
Definition used_as (A : tiles) (U : gmap Z Z) : Prop :=
  ∀ i o, U !! i = Some o ↔ A !! i = Some (o, Used).

(** A pool represents the map from the first page of each allocated block to
    the order of the block. *)
Definition buddy_rep (b : buddy) (U : gmap Z Z) : Prop :=
  ∃ A fl, pool b A fl None ∧ used_as A U.

(** A block of order [o] can be placed at [i] beside the allocated ones. *)
Definition placeable (b : buddy) (U : gmap Z Z) (i o : Z) : Prop :=
  0 ≤ o < order b ∧ min_idx b ≤ i ∧ i + 2 ^ o ≤ max_idx b ∧ i mod 2 ^ o = 0 ∧
  ∀ k ok p, U !! k = Some ok → in_block k ok p → ¬ in_block i o p.

Section facts.
Context {b : buddy} {A : tiles} {fl : Z → list Z} {x : option Z}.
Hypothesis P : pool b A fl x.

Lemma pool_order i o g : A !! i = Some (o, g) → 0 ≤ o < order b.
Proof. apply (til_order _ _ _ _ (p_tiling _ _ _ _ P)). Qed.

Lemma pool_block i o g :
  A !! i = Some (o, g) → 0 ≤ o < order b ∧ min_idx b ≤ i ∧ i + 2 ^ o ≤ max_idx b ∧ i mod 2 ^ o = 0.
Proof. apply (til_block _ _ _ _ (p_tiling _ _ _ _ P)). Qed.

Lemma pool_range i o g : A !! i = Some (o, g) → min_idx b ≤ i < max_idx b.
Proof. intros Hi. destruct (pool_block _ _ _ Hi) as ([Ho _] & ? & ? & _). pose proof (pow2_pos o Ho). lia. Qed.

Lemma pool_used_not_free i o j : A !! i = Some (o, Used) → 0 ≤ j < order b → i ∉ fl j.
Proof. intros Hi Hj Hin. apply (p_free _ _ _ _ P) in Hin; [|done]. congruence. Qed.

Lemma pool_absent_not_free i j : A !! i = None → 0 ≤ j < order b → i ∉ fl j.
Proof. intros Hi Hj Hin. apply (p_free _ _ _ _ P) in Hin; [|done]. congruence. Qed.
End facts.

(** Page addresses. *)
Lemma pages_PAGE_SIZE : PAGE_SIZE = 4096.
Proof. done. Qed.

Lemma signed64_small z : - 2 ^ 63 ≤ z < 2 ^ 63 → signed64 z = z.
Proof.
  intros Hz. unfold signed64, wrap. destruct (Z.le_gt_cases 0 z).
  - rewrite Z.mod_small by lia. zcase; lia.
  - rewrite <-(Z.mod_add z 1), Z.mod_small by lia. zcase; lia.
Qed.

Lemma index_page b i : geometry b → min_idx b ≤ i < max_idx b →
  index_to_page b i = base b + i * PAGE_SIZE ∧ page_to_index b (index_to_page b i) = i.
Proof.
  intros [_ _ [[Hb0 Hb1] Hb] [Ha0 Ha1] _] Hi. rewrite pages_PAGE_SIZE in *.
  assert (index_to_page b i = base b + i * PAGE_SIZE) as E.
  { unfold index_to_page. rewrite pages_PAGE_SIZE. apply wadd_small. lia. }
  split; [done|]. unfold page_to_index. rewrite E, pages_PAGE_SIZE, Z.div_add by lia.
  replace (_ + i - _) with i by lia. apply signed64_small. lia.
Qed.

(** The alignment the code asserts. *)
Lemma block_phys_aligned b i o :
  geometry b → 0 ≤ o < order b → i mod 2 ^ o = 0 → phys_aligned OFFSET (index_to_page b i) o = true.
Proof.
  intros [Hod _ _ _ Hp] Ho Hi. unfold phys_aligned, virt_to_phys.
  rewrite (wadd_small o) by (unfold PAGE_BITS; lia). rewrite wshl_1 by (unfold PAGE_BITS; lia).
  set (k := o + PAGE_BITS). assert (0 ≤ k < 64) by (unfold k, PAGE_BITS in *; lia).
  assert (1 ≤ 2 ^ k < 2 ^ 64) by (split; [pose proof (pow2_pos k); lia|apply Z.pow_lt_mono_r; lia]).
  rewrite (wsub_small (2 ^ k) 1), <-ones_pow2, Z.land_ones by lia. apply Z.eqb_eq.
  assert (∀ z, wrap 64 z mod 2 ^ k = z mod 2 ^ k) as Hw.
  { intros z. unfold wrap. rewrite Z.mod_mod_divide; [done|].
    exists (2 ^ (64 - k)). rewrite <-Z.pow_add_r by lia. f_equal. lia. }
  unfold wsub, index_to_page, wadd. rewrite Hw, <-Zminus_mod_idemp_l, Hw, Zminus_mod_idemp_l.
  apply Z.mod_divide; [lia|].
  replace (base b + i * PAGE_SIZE - OFFSET) with (base b - OFFSET + i * PAGE_SIZE) by lia.
  apply Z.divide_add_r.
  - apply Z.mod_divide in Hp; [|apply Z.pow_nonzero; lia]. etrans; [|exact Hp].
    exists (2 ^ (order b - 1 - o)). rewrite <-Z.pow_add_r by lia.
    apply (f_equal (Z.pow 2)). unfold k. lia.
  - apply Z.mod_divide in Hi as [a ->]; [|apply Z.pow_nonzero; lia]. exists a.
    unfold k, PAGE_SIZE, PAGE_BITS. rewrite Z.pow_add_r by lia. lia.
Qed.

Lemma shl1_small o b : geometry b → 0 ≤ o < order b → (1 << o)%W = 2 ^ o.
Proof. intros [Ho _ _ _ _] ?. apply wshl_1. lia. Qed.

(** ** Splitting a block *)

Lemma coalesced_fewer od A A' :
  (∀ k ok, A' !! k = Some (ok, Free) → A !! k = Some (ok, Free)) →
  coalesced (od := od) A → coalesced (od := od) A'.
Proof. intros Hs HC k ok Hk Ho Hk'. by eapply HC; [apply Hs, Hk| |apply Hs, Hk']. Qed.

Lemma coalesced_halve mn mx od A i j :
  0 ≤ j → tiling mn mx od A → A !! i = Some (j + 1, Used) →
  coalesced (od := od) A → coalesced (od := od) (halve i j Used Free A).
Proof.
  intros Hj T Hi HC k ok Hk Hok Hk'.
  destruct (til_block _ _ _ _ T _ _ _ Hi) as (_ & _ & _ & Hal).
  pose proof (pow2_pos j Hj). pose proof (pow2_succ j Hj).
  assert (i mod 2 ^ j = 0) as Hal'.
  { apply Z.mod_divide; [lia|]. apply Z.mod_divide in Hal; [|lia]. etrans; [|exact Hal]. exists 2. lia. }
  assert (Z.lxor i (2 ^ j) = i + 2 ^ j) as Hx by (rewrite lxor_pow2, Hal by done; done).
  assert (Z.lxor (i + 2 ^ j) (2 ^ j) = i) as Hx'.
  { rewrite <-Hx, Z.lxor_assoc, Z.lxor_nilpotent. apply Z.lxor_0_r. }
  apply halve_lookup in Hk; [|done]. apply halve_lookup in Hk'; [|done].
  destruct Hk as [(_ & _ & ?)|[(-> & -> & _)|(_ & Hne & Hk)]]; [done| |].
  - rewrite Hx' in Hk'. destruct Hk' as [(_ & _ & ?)|[(? & _)|(? & _)]]; [done|lia|done].
  - destruct Hk' as [(_ & _ & ?)|[(E & -> & _)|(_ & _ & Hk')]]; [done| |exact (HC k ok Hk Hok Hk')].
    assert (k = i) as ->.
    { by rewrite <-(Z.lxor_0_r k), <-(Z.lxor_nilpotent (2 ^ j)), <-Z.lxor_assoc, E. }
    simplify_eq.
Qed.

Lemma split_step b A fl i j :
  pool b A fl (Some i) → 0 ≤ j → A !! i = Some (j + 1, Used) → fl j = [] →
  let t := index_to_block b (i + 2 ^ j) in
  pool (set_lk (link_alone t (head_at j) (lk b)) (set_tag t Free (set_ord t j b)))
    (halve i j Used Free A) (<[j := [i + 2 ^ j]]> fl) (Some i).
Proof.
  intros P Hj Hi Hfl t. pose proof (pow2_pos j Hj). pose proof (pow2_succ j Hj).
  pose proof (pool_block P _ _ _ Hi) as (? & ? & ? & _).
  pose proof (p_geometry _ _ _ _ P) as G. destruct (g_order _ G).
  assert (A !! (i + 2 ^ j) = None) as Hnew.
  { eapply (til_inner A i (j + 1)); [apply P|exact Hi|unfold in_block; lia|lia]. }
  assert (∀ j', 0 ≤ j' < order b → i + 2 ^ j ∉ fl j') as Hnfl.
  { intros j' Hj'. by apply (pool_absent_not_free P). }
  split; simpl.
  - by eapply geometry_same; [|exact G].
  - eapply tiling_halve; [done|apply P|exact Hi].
  - eapply coalesced_halve; [done|apply P|done|apply P].
  - pose proof (l_ring _ _ (p_lists _ _ _ _ P) j ltac:(lia)) as Hr. rewrite Hfl in Hr.
    destruct (link_alone_spec (lk b) t (head_at j) Hr) as [Hr' Hs]; [by apply block_not_head; lia|].
    pose proof (lists_enter b fl j (i + 2 ^ j) (link_alone t (head_at j) (lk b))
      (p_lists _ _ _ _ P) ltac:(lia) ltac:(lia) Hnfl) as HE.
    rewrite Hfl in HE. by eapply lists_same; [..|exact (HE Hr' Hs)].
  - intros k j' Hj'. rewrite halve_lookup by done. destruct (decide (j' = j)) as [->|Hne].
    + rewrite fn_lookup_insert, list_elem_of_singleton. split; [auto|].
      intros [(_ & _ & ?)|[(-> & _)|(_ & ? & Hk)]]; [done|done|].
      apply (p_free _ _ _ _ P) in Hk; [|lia]. rewrite Hfl in Hk. by apply not_elem_of_nil in Hk.
    + rewrite fn_lookup_insert_ne by done. rewrite (p_free _ _ _ _ P) by done. split.
      * intros Hk. right; right. split_and!; [| |done]; intros ->; congruence.
      * intros [(_ & _ & ?)|[(_ & ? & _)|(_ & _ & ?)]]; done.
  - intros k o g Hk Hne. apply halve_lookup in Hk; [|done].
    destruct Hk as [(-> & _)|[(-> & -> & ->)|(? & Hne' & Hk)]]; [done| |].
    + simpl. change (index_to_block _ _) with t. by rewrite !fn_lookup_insert.
    + assert (index_to_block b k ≠ t).
      { intros E. apply Hne'. eapply block_inj; [| | |exact E]; [lia| |lia]. pose proof (pool_range P _ _ _ Hk). lia. }
      simpl. change (index_to_block _ k) with (index_to_block b k).
      rewrite !fn_lookup_insert_ne by done. by apply (p_fields _ _ _ _ P).
Qed.

Lemma fields_complete b A i o g :
  fields b A (Some i) → A !! i = Some (o, g) →
  ord b (index_to_block b i) = o → tag b (index_to_block b i) = g → fields b A None.
Proof.
  intros HF Hi Ho Hg k ok gk Hk _. destruct (decide (k = i)) as [->|]; [by simplify_eq|].
  apply HF; congruence.
Qed.

Lemma split_spec n b A fl i o j :
  pool b A fl (Some i) → 0 ≤ o → j = o + Z.of_nat n → A !! i = Some (j, Used) →
  ord b (index_to_block b i) = o → tag b (index_to_block b i) = Used →
  (∀ j', o ≤ j' < j → fl j' = []) →
  ∃ b' A' fl', split n o j (index_to_block b i) b = Some b' ∧ same_pool b b' ∧ pool b' A' fl' None ∧
    ord b' (index_to_block b i) = o ∧
    ∀ k ok, A' !! k = Some (ok, Used) ↔ (k = i ∧ ok = o) ∨ (k ≠ i ∧ A !! k = Some (ok, Used)).
Proof.
  revert b A fl j. induction n as [|n IH]; intros b A fl j P Ho Hj Hi Hord Htag Hfl.
  - assert (j = o) as -> by lia. simpl. rewrite Z.eqb_refl. exists b, A, fl.
    split_and!; [done..| |done|].
    + destruct P. split; try done. by eapply fields_complete.
    + intros k ok. destruct (decide (k = i)) as [->|]; [|intuition congruence].
      rewrite Hi. split; [intros [= ->]; auto|]. intros [[_ ->]|[? _]]; done.
  - cbn [split]. destruct (Z.eqb_spec j o); [lia|].
    pose proof (p_geometry _ _ _ _ P) as G. destruct (g_order _ G).
    pose proof (pool_block P _ _ _ Hi) as (? & Hmin & Hmax & _).
    replace j with (j - 1 + 1) in Hi by lia. pose proof (pow2_pos (j - 1) ltac:(lia)).
    pose proof (split_step b A fl i (j - 1) P ltac:(lia) Hi (Hfl (j - 1) ltac:(lia))) as P'.
    rewrite wshl_1 by lia. rewrite block_plus by lia. cbv zeta in P'.
    set (t := index_to_block b (i + 2 ^ (j - 1))) in *.
    assert (index_to_block b i ≠ t) as Hit.
    { intros E. apply block_inj in E; lia. }
    set (b1 := set_lk _ _) in *.
    destruct (IH b1 _ _ (j - 1) P') as (b' & A' & fl' & E & HS & P2 & Ho2 & HU); [done|lia| | | | |].
    + rewrite halve_lookup by lia. auto.
    + simpl. by rewrite fn_lookup_insert_ne.
    + simpl. by rewrite fn_lookup_insert_ne.
    + intros j' Hj'. rewrite fn_lookup_insert_ne by lia. apply Hfl. lia.
    + exists b', A', fl'. split_and!; [exact E|exact HS|done|exact Ho2|].
      intros k ok. rewrite HU, halve_lookup by lia. split.
      * intros [?|(? & [(? & _)|[(_ & _ & ?)|(_ & _ & ?)]])]; [by left|done|done|by right].
      * intros [?|(? & Hk)]; [by left|]. right. split; [done|]. right; right. split_and!; [done| |done].
        intros ->. assert (A !! (i + 2 ^ (j - 1)) = None) as E0; [|congruence].
        eapply (til_inner A i (j - 1 + 1)); [apply P|exact Hi|unfold in_block; rewrite pow2_succ by lia; lia|lia].
Qed.

(** ** Taking a block off its list *)

Lemma pool_take b A fl j i l o :
  pool b A fl None → 0 ≤ j < order b → fl j = i :: l →
  ∃ L, unlink_block (index_to_block b i) (lk b) = Some L ∧ A !! i = Some (j, Free) ∧
    pool (set_tag (index_to_block b i) Used (set_ord (index_to_block b i) o (set_lk L b)))
      (<[i := (j, Used)]> A) (<[j := l]> fl) (Some i).
Proof.
  intros P Hj Hfl.
  assert (A !! i = Some (j, Free)) as Hi by (apply (p_free _ _ _ _ P); [done|rewrite Hfl; left]).
  destruct (lists_unlink b fl j [] i l (p_lists _ _ _ _ P) Hj Hfl) as (L & HL & HLs).
  assert (i ∉ l) as Hil.
  { pose proof (l_ring _ _ (p_lists _ _ _ _ P) j Hj) as [Hd _]. rewrite Hfl, fmap_cons in Hd.
    apply list.NoDup_cons in Hd as [_ Hd]. apply list.NoDup_cons in Hd as [Hd _].
    intros ?. apply Hd, list_elem_of_fmap. eauto. }
  exists L. split_and!; [done..|]. split; simpl.
  - by eapply geometry_same; [|apply P].
  - by eapply tiling_mark; [apply P|].
  - eapply coalesced_fewer; [|apply P]. by intros k ok [(_ & ?)|(_ & ?)]%lookup_insert_Some.
  - by eapply lists_same; [..|exact HLs].
  - intros k j' Hj'. rewrite lookup_insert_Some. destruct (decide (j' = j)) as [->|Hne].
    + rewrite fn_lookup_insert. pose proof (p_free _ _ _ _ P k j Hj) as Hk. rewrite Hfl, elem_of_cons in Hk.
      split.
      * intros Hkl. right. split; [by intros <-|]. tauto.
      * intros [(_ & ?)|(? & ?)]; [done|]. destruct (proj2 Hk) as [|]; [done|congruence|done].
    + rewrite fn_lookup_insert_ne by done. rewrite (p_free _ _ _ _ P) by done. split.
      * intros Hk. right. split; [|done]. intros <-. congruence.
      * by intros [(_ & ?)|(? & ?)].
  - intros k ok g [(<- & _)|(? & Hk)]%lookup_insert_Some Hne; [done|]. simpl.
    change (index_to_block _ k) with (index_to_block b k).
    assert (index_to_block b i ≠ index_to_block b k).
    { pose proof (pool_range P _ _ _ Hk). pose proof (pool_range P _ _ _ Hi).
      destruct (g_order _ (p_geometry _ _ _ _ P)). intros E. apply block_inj in E; [done|lia..]. }
    rewrite !fn_lookup_insert_ne by done. by apply (p_fields _ _ _ _ P).
Qed.

Lemma take_block_spec b A fl j i l o q f mem :
  pool b A fl None → 0 ≤ o ≤ j → j < order b → fl j = i :: l → (∀ j', o ≤ j' < j → fl j' = []) →
  ∃ b' A' fl',
    take_block OFFSET o j (index_to_block b i) q f mem b =
      Some (index_to_page b i, Quota.alloc q (2 ^ o), fill_block f (index_to_page b i) o mem, b') ∧
    same_pool b b' ∧ pool b' A' fl' None ∧
    ∀ k ok, A' !! k = Some (ok, Used) ↔ (k = i ∧ ok = o) ∨ (k ≠ i ∧ A !! k = Some (ok, Used)).
Proof.
  intros P Ho Hj Hfl Hlow.
  destruct (pool_take b A fl j i l o P) as (L & HL & Hi & P1); [lia|done|].
  pose proof (p_geometry _ _ _ _ P) as G.
  destruct (pool_block P _ _ _ Hi) as (_ & _ & _ & Hal). pose proof (pool_range P _ _ _ Hi).
  unfold take_block. rewrite HL. cbn [mbind option_bind].
  set (t := index_to_block b i) in *. set (b1 := set_tag t Used _) in *.
  destruct (split_spec (Z.to_nat (j - o)) b1 (<[i := (j, Used)]> A) (<[j := l]> fl) i o j) as
    (b2 & A2 & fl2 & E & HS & P2 & Hord & HU); [done|lia|lia|by rewrite lookup_insert_eq| | | |].
  - simpl. by rewrite fn_lookup_insert.
  - simpl. by rewrite fn_lookup_insert.
  - intros j' Hj'. rewrite fn_lookup_insert_ne by lia. apply Hlow. lia.
  - change (index_to_block b1 i) with t in E, Hord.
    rewrite E. cbn [mbind option_bind]. rewrite Hord.
    assert (same_pool b b2) as HS' by exact HS.
    assert (index_to_page b2 (block_to_index b2 t) = index_to_page b i) as ->.
    { destruct HS' as (_ & E1 & E2 & E3 & _). unfold t, index_to_page, block_to_index, index_to_block.
      rewrite E1, E2, E3. do 2 f_equal. destruct (g_order _ G). lia. }
    assert (i mod 2 ^ o = 0) as Hal'.
    { apply Z.mod_divide; [apply Z.pow_nonzero; lia|]. apply Z.mod_divide in Hal; [|apply Z.pow_nonzero; lia].
      etrans; [|exact Hal]. exists (2 ^ (j - o)). rewrite <-Z.pow_add_r by lia. f_equal. lia. }
    rewrite block_phys_aligned by (done || lia). rewrite (shl1_small o b) by (done || lia).
    exists b2, A2, fl2. split_and!; [done..|].
    intros k ok. rewrite HU. rewrite lookup_insert_Some.
    split; (intros [?|(? & Hk)]; [by left|right]; split; [done|]); [|by right].
    by destruct Hk as [(? & _)|(_ & ?)].
Qed.

(** ** The search for a non-empty list *)

Lemma scan_spec n b A fl o j q f mem :
  pool b A fl None → 0 ≤ o ≤ j → order b ≤ j + Z.of_nat n →
  (∀ j', o ≤ j' < j → fl j' = []) →
  (∃ j' i l b' A' fl',
     scan OFFSET n o j q f mem b = Some (Some
       (index_to_page b i, Quota.alloc q (2 ^ o), fill_block f (index_to_page b i) o mem, b')) ∧
     o ≤ j' < order b ∧ fl j' = i :: l ∧ same_pool b b' ∧ pool b' A' fl' None ∧
     ∀ k ok, A' !! k = Some (ok, Used) ↔ (k = i ∧ ok = o) ∨ (k ≠ i ∧ A !! k = Some (ok, Used))) ∨
  (scan OFFSET n o j q f mem b = Some None ∧ ∀ j', o ≤ j' < order b → fl j' = []).
Proof.
  intros P. revert j. induction n as [|n IH]; intros j Ho Hn Hlow; cbn [scan].
  - destruct (Z.ltb_spec j (order b)); [lia|]. right. split; [done|]. intros. apply Hlow. lia.
  - destruct (Z.ltb_spec j (order b)); [|right; split; [done|]; intros; apply Hlow; lia].
    pose proof (l_ring _ _ (p_lists _ _ _ _ P) j ltac:(lia)) as Hr.
    destruct (fl j) as [|i l] eqn:Hfl.
    + destruct Hr as [_ [Hn' _]]. simpl in Hn'. rewrite Hn'. cbn [mbind option_bind].
      rewrite bool_decide_true by done. apply IH; [lia..|].
      intros j' Hj'. destruct (decide (j' = j)) as [->|]; [done|]. apply Hlow. lia.
    + destruct Hr as [Hd [[Hn' _] _]]. rewrite Hn'. cbn [mbind option_bind].
      rewrite bool_decide_false.
      2: { intros E. apply list.NoDup_cons in Hd as [Hd _]. apply Hd. rewrite <-E. left. }
      destruct (take_block_spec b A fl j i l o q f mem P ltac:(lia) ltac:(lia) Hfl Hlow)
        as (b' & A' & fl' & -> & HS & P' & HU).
      left. exists j, i, l, b', A', fl'. split_and!; try done. lia.
Qed.

Lemma fill_block_spec f virt o mem a :
  0 ≤ o ≤ 51 → fill_block f virt o mem a =
    if decide (virt ≤ a < virt + 2 ^ o * PAGE_SIZE)
    then match f with NOFILL => mem a | FILL_0 => 0 | FILL_1 => 255 end else mem a.
Proof.
  intros Ho. unfold fill_block, memset.
  rewrite !(wadd_small o), !wshl_1 by (unfold PAGE_BITS; lia).
  rewrite Z.pow_add_r by (unfold PAGE_BITS; lia). change (2 ^ PAGE_BITS) with PAGE_SIZE.
  destruct f; case_decide; zcase; simpl; try done; lia.
Qed.

(** ** Merging *)

Lemma merge_step b A fl i o m :
  pool b A fl (Some i) → o + 1 < order b → A !! i = Some (o, Used) →
  m = Z.min i (Z.lxor i (2 ^ o)) → A !! Z.lxor i (2 ^ o) = Some (o, Free) →
  ∃ L fl', unlink_block (index_to_block b (Z.lxor i (2 ^ o))) (lk b) = Some L ∧
    pool (set_lk L b) (join m o Used A) fl' (Some m) ∧ join m o Used A !! m = Some (o + 1, Used) ∧
    (∀ k ok, join m o Used A !! k = Some (ok, Used) ∧ k ≠ m ↔ A !! k = Some (ok, Used) ∧ k ≠ i).
Proof.
  intros P Hod Hi Hm Hb. set (i' := Z.lxor i (2 ^ o)) in *.
  destruct (pool_block P _ _ _ Hi) as ([Ho _] & _ & _ & Hal). pose proof (pow2_pos o Ho).
  destruct (buddy_pair i o Ho Hal) as (m' & Hm' & Hpair). fold i' in Hpair.
  assert (m' = m) as -> by lia.
  assert (i' ∈ fl o) as (l1 & l2 & Hfl)%list_elem_of_split by (by apply (p_free _ _ _ _ P); [lia|]).
  destruct (lists_unlink b fl o l1 i' l2 (p_lists _ _ _ _ P) ltac:(lia) Hfl) as (L & HL & HLs).
  assert (i' ∉ l1 ++ l2) as Hnl.
  { pose proof (l_ring _ _ (p_lists _ _ _ _ P) o ltac:(lia)) as [Hd _]. apply list.NoDup_cons in Hd as [_ Hd].
    rewrite Hfl in Hd. apply NoDup_fmap_1 in Hd. apply list.NoDup_app in Hd as (_ & H1 & H2).
    apply list.NoDup_cons in H2 as [H2 _]. rewrite elem_of_app. intros [Hin|?]; [|done].
    apply (H1 _ Hin). left. }
  assert (∀ k ok gk, join m o Used A !! k = Some (ok, gk) ↔
    (k = m ∧ ok = o + 1 ∧ gk = Used) ∨ (k ≠ i ∧ k ≠ i' ∧ A !! k = Some (ok, gk))) as HJ.
  { intros k ok gk. rewrite join_lookup by done.
    assert (k ≠ i ∧ k ≠ i' ↔ k ≠ m ∧ k ≠ m + 2 ^ o) by lia. tauto. }
  exists L, (<[o := l1 ++ l2]> fl). split_and!; [done| |by apply HJ; auto|].
  - split; simpl.
    + by eapply geometry_same; [|apply P].
    + destruct Hpair as [[-> E]|[-> E]];
        (eapply tiling_join; [apply P|done|done| |]); first [exact Hi|rewrite <-E; exact Hb|exact Hb|by rewrite E in Hb].
    + eapply coalesced_fewer; [|apply P]. by intros k ok [(_ & _ & ?)|(_ & _ & ?)]%HJ.
    + exact HLs.
    + intros k j Hj. rewrite HJ. destruct (decide (j = o)) as [->|Hne].
      * rewrite fn_lookup_insert. pose proof (p_free _ _ _ _ P k o Hj) as Hk.
        rewrite Hfl, elem_of_app, elem_of_cons in Hk. rewrite elem_of_app in Hnl |- *. split.
        { intros Hkl. right. split_and!; [| |apply Hk; tauto].
          - intros ->. rewrite Hi in Hk. assert (Some (o, Used) = Some (o, Free)) by tauto. congruence.
          - intros ->. tauto. }
        intros [(_ & _ & ?)|(_ & ? & Hk')]; [done|]. apply Hk in Hk'. tauto.
      * rewrite fn_lookup_insert_ne by done. rewrite (p_free _ _ _ _ P) by done. split.
        { intros Hk. right. split_and!; [intros ->; congruence..|done]. }
        by intros [(_ & _ & ?)|(_ & _ & ?)].
    + intros k ok gk Hk Hne. apply HJ in Hk as [(-> & _)|(? & _ & Hk)]; [done|].
      simpl. change (index_to_block _ k) with (index_to_block b k).
      apply (p_fields _ _ _ _ P); [done|congruence].
  - intros k ok. rewrite HJ. split.
    + intros [[(-> & _)|(? & ? & ?)] ?]; done.
    + intros [Hk Hne]. assert (k ≠ i') by (intros ->; congruence).
      split; [right; done|]. lia.
Qed.

Lemma merge_spec n b A fl i o :
  pool b A fl (Some i) → A !! i = Some (o, Used) → order b ≤ o + 1 + Z.of_nat n →
  ∃ i' o' L A' fl', merge n o (index_to_block b i) b = Some (o', index_to_block b i', set_lk L b) ∧
    pool (set_lk L b) A' fl' (Some i') ∧ A' !! i' = Some (o', Used) ∧
    (o' + 1 < order b → A' !! Z.lxor i' (2 ^ o') ≠ Some (o', Free)) ∧
    (∀ k ok, A' !! k = Some (ok, Used) ∧ k ≠ i' ↔ A !! k = Some (ok, Used) ∧ k ≠ i).
Proof.
  revert b A fl i o. induction n as [|n IH]; intros b A fl i o P Hi Hn; cbn [merge];
    pose proof (p_geometry _ _ _ _ P) as G; destruct (g_order _ G) as [Hg1 Hg2];
    rewrite (wsub_small (order b) 1) by lia; destruct (pool_block P _ _ _ Hi) as (Ho & _ & _ & Hal).
  1: { destruct (Z.ltb_spec o (order b - 1)); [lia|].
    exists i, o, (lk b), A, fl. split_and!; [by destruct b|by destruct b|done|lia|done]. }
  destruct (Z.ltb_spec o (order b - 1)).
  2: { exists i, o, (lk b), A, fl. split_and!; [by destruct b|by destruct b|done|lia|done]. }
  pose proof (pool_range P _ _ _ Hi) as Hir.
  rewrite (shl1_small o b), block_index by (done || lia). set (i' := Z.lxor i (2 ^ o)) in *.
  destruct (Z.ltb_spec i' (min_idx b)) as [Hlo|Hlo]; [|destruct (Z.leb_spec (max_idx b) i') as [Hhi|Hhi]].
  1,2: exists i, o, (lk b), A, fl; split_and!; [by destruct b|by destruct b|done| |done];
    intros _ Hb; apply (pool_range P) in Hb; fold i' in Hb; lia.
  simpl orb. cbv iota.
  destruct (buddy_starts A i o Used (p_tiling _ _ _ _ P) Hi) as (o2 & g2 & Hb & Hle); [fold i'; lia|]. fold i' in Hb.
  destruct (p_fields _ _ _ _ P _ _ _ Hb) as [Hbo Hbt].
  { intros [= E]. destruct (buddy_pair i o ltac:(lia) Hal) as (m & _ & Hpair). fold i' in Hpair.
    pose proof (pow2_pos o). lia. }
  rewrite Hbo, Hbt. destruct (bool_decide (g2 = Used) || negb (o2 =? o)) eqn:Hc.
  { exists i, o, (lk b), A, fl. split_and!; [by destruct b|by destruct b|done| |done].
    intros _. fold i'. rewrite Hb. intros [= -> ->]. by rewrite Z.eqb_refl in Hc. }
  apply orb_false_iff in Hc as [Hg He]. apply bool_decide_eq_false in Hg.
  apply negb_false_iff, Z.eqb_eq in He as ->. destruct g2; [done|].
  destruct (merge_step b A fl i o (Z.min i i') P) as (L & fl' & HL & P' & Hm & HU); [lia|done|done|exact Hb|].
  fold i' in HL. rewrite HL. cbn [mbind option_bind].
  assert ((if (index_to_block b i' <? index_to_block b i)%nat then index_to_block b i' else index_to_block b i)
    = index_to_block (set_lk L b) (Z.min i i')) as ->.
  { rewrite block_lt by lia. change (index_to_block (set_lk L b)) with (index_to_block b). zcase; f_equal; lia. }
  destruct (IH _ _ _ _ _ P' Hm) as (i2 & o' & L' & A' & fl2 & E & P2 & Hi2 & Hex & HU2); [simpl; lia|].
  exists i2, o', L', A', fl2. split_and!; [exact E|exact P2|done|exact Hex|].
  intros k ok. by rewrite HU2.
Qed.

(** ** Freeing *)

Lemma pool_release b A fl i o L :
  pool b A fl (Some i) → A !! i = Some (o, Used) →
  (o + 1 < order b → A !! Z.lxor i (2 ^ o) ≠ Some (o, Free)) →
  push (index_to_block b i) (head_at o) (lk b) = Some L →
  pool (set_lk L (set_tag (index_to_block b i) Free (set_ord (index_to_block b i) o b)))
    (<[i := (o, Free)]> A) (<[o := i :: fl o]> fl) None.
Proof.
  intros P Hi Hex HL. destruct (pool_block P _ _ _ Hi) as (Ho & Hmin & _ & Hal).
  assert (∀ j, 0 ≤ j < order b → i ∉ fl j) as Hnew by (intros; by eapply (pool_used_not_free P)).
  split; simpl.
  - by eapply geometry_same; [|apply P].
  - by eapply tiling_mark; [apply P|].
  - intros k ok Hk Hok Hk'.
    apply lookup_insert_Some in Hk as [(<- & Ek)|(? & Hk)];
      apply lookup_insert_Some in Hk' as [(E & Ek')|(? & Hk')]; simplify_eq.
    + destruct (buddy_pair i ok ltac:(lia) Hal) as (m & _ & Hpair). pose proof (pow2_pos ok). lia.
    + by apply Hex.
    + apply Hex; [done|]. by rewrite Z.lxor_assoc, Z.lxor_nilpotent, Z.lxor_0_r.
    + by apply (p_coalesced _ _ _ _ P k ok Hk Hok).
  - destruct (push_spec (lk b) (index_to_block b i) (head_at o) (index_to_block b <$> fl o)) as (L' & E & Hr & Hs).
    + by apply (l_ring _ _ (p_lists _ _ _ _ P)).
    + by apply enter_fresh; [apply P| | |].
    + rewrite HL in E. injection E as <-.
      pose proof (lists_enter b fl o i L (p_lists _ _ _ _ P) Ho Hmin Hnew Hr Hs) as HE.
      by eapply lists_same; [..|exact HE].
  - intros k j Hj. rewrite lookup_insert_Some. destruct (decide (j = o)) as [->|Hne].
    + rewrite fn_lookup_insert, elem_of_cons, (p_free _ _ _ _ P) by done. split.
      * intros [->|Hk]; [by left|]. right. split; [|done]. intros <-. congruence.
      * intros [(<- & _)|(_ & ?)]; auto.
    + rewrite fn_lookup_insert_ne, (p_free _ _ _ _ P) by done. split.
      * intros Hk. right. split; [|done]. intros <-. congruence.
      * intros [(_ & ?)|(_ & ?)]; congruence.
  - intros k ok gk Hk _. simpl. change (index_to_block _ k) with (index_to_block b k).
    apply lookup_insert_Some in Hk as [(<- & [= <- <-])|(? & Hk)]; [by rewrite !fn_lookup_insert|].
    assert (index_to_block b i ≠ index_to_block b k).
    { intros E. pose proof (pool_range P _ _ _ Hk). apply block_inj in E; [done|lia..]. }
    rewrite !fn_lookup_insert_ne by done. apply (p_fields _ _ _ _ P); [done|congruence].
Qed.

Lemma pool_free_spec b U i o q :
  buddy_rep b U → U !! i = Some o →
  ∃ b', _free OFFSET (index_to_page b i) q b = Some (Quota.free q (2 ^ o), b') ∧
    buddy_rep b' (delete i U) ∧ same_pool b b'.
Proof.
  intros (A & fl & P & HU) Hi. apply HU in Hi. pose proof (p_geometry _ _ _ _ P) as G.
  pose proof (pool_range P _ _ _ Hi) as Hr. destruct (pool_block P _ _ _ Hi) as (Ho & _ & _ & Hal).
  destruct (p_fields _ _ _ _ P _ _ _ Hi) as [Hord Htag]; [done|].
  unfold _free. rewrite (proj2 (index_page b i G Hr)).
  rewrite (proj2 (Z.leb_le _ _)), (proj2 (Z.ltb_lt _ _)) by lia. cbn [andb negb].
  rewrite Htag, bool_decide_true by done. cbn [negb]. rewrite Hord, block_phys_aligned by done. cbn [negb].
  rewrite (shl1_small o b) by done.
  assert (pool b A fl (Some i)) as P1.
  { destruct P as [? ? ? ? ? HF]. split; try done. intros k ok gk Hk _. by apply HF. }
  destruct (merge_spec (Z.to_nat (order b)) b A fl i o P1 Hi) as (i' & o' & L & A' & fl' & -> & P2 & Hi' & Hex & HU2);
    [lia|]. cbn [mbind option_bind].
  change (index_to_block b i') with (index_to_block (set_lk L b) i').
  set (b2 := set_lk L b) in *. destruct (pool_block P2 _ _ _ Hi') as (Ho' & Hmin & _).
  destruct (push_spec (lk b2) (index_to_block b2 i') (head_at o') (index_to_block b2 <$> fl' o')) as (L' & HL' & _).
  { by apply (l_ring _ _ (p_lists _ _ _ _ P2)). }
  { apply enter_fresh; [apply P2|done..|]. intros j Hj. by eapply (pool_used_not_free P2). }
  rewrite HL'. cbn [mbind option_bind].
  eexists. split; [reflexivity|]. split; [|done].
  eexists _, _. split; [by eapply pool_release|].
  intros k ok. rewrite lookup_delete_Some, lookup_insert_Some, (HU k ok).
  pose proof (HU2 k ok) as Hk. split.
  - intros [Hne HkU]. right. destruct (proj2 Hk (conj HkU (not_eq_sym Hne))) as [? ?]. auto.
  - intros [(_ & ?)|(Hne & HkU)]; [done|]. destruct (proj1 Hk (conj HkU (not_eq_sym Hne))) as [? ?]. auto.
Qed.

Lemma pool_alloc_spec b U o q f mem :
  buddy_rep b U → 0 ≤ o →
  (∃ i b', _alloc OFFSET o q f mem b =
     Some (Some (index_to_page b i, Quota.alloc q (2 ^ o), fill_block f (index_to_page b i) o mem, b')) ∧
     placeable b U i o ∧ buddy_rep b' (<[i := o]> U) ∧ same_pool b b') ∨
  (_alloc OFFSET o q f mem b = Some None ∧ ∀ i, ¬ placeable b U i o).
Proof.
  intros (A & fl & P & HU) Ho. unfold _alloc.
  destruct (scan_spec (Z.to_nat (order b - o)) b A fl o o q f mem P) as
    [(j & i & l & b' & A' & fl' & -> & Hj & Hfl & HS & P' & HU')|[-> Hnone]]; [lia..| |].
  - left. exists i, b'. split; [done|].
    assert (A !! i = Some (j, Free)) as Hi by (apply (p_free _ _ _ _ P); [lia|rewrite Hfl; left]).
    destruct (pool_block P _ _ _ Hi) as (_ & Hmin & Hmax & Hal).
    assert (2 ^ o ≤ 2 ^ j) by (apply Z.pow_le_mono_r; lia).
    split_and!; [|exists A', fl'; split; [done|]|done].
    + split_and!; [lia..| |].
      * apply Z.mod_divide; [apply Z.pow_nonzero; lia|]. apply Z.mod_divide in Hal; [|apply Z.pow_nonzero; lia].
        etrans; [|exact Hal]. exists (2 ^ (j - o)). rewrite <-Z.pow_add_r by lia. f_equal. lia.
      * intros k ok p Hk Hp Hp'. apply HU in Hk. assert (k = i) as ->; [|congruence].
        eapply til_disj; [apply P|exact Hk|exact Hi|exact Hp|unfold in_block in *; lia].
    + intros k ok. rewrite HU', lookup_insert_Some, (HU k ok). intuition congruence.
  - right. split; [done|]. intros i (Hod & Hmin & Hmax & Hal & Hout).
    destruct (free_run A i o (p_tiling _ _ _ _ P) (p_coalesced _ _ _ _ P) Hod Hal Hmin Hmax) as (k & ok & Hk & Hle).
    { intros k ok p Hk. apply Hout. by apply HU. }
    pose proof (pool_order P _ _ _ Hk). apply (p_free _ _ _ _ P) in Hk; [|lia].
    rewrite Hnone in Hk by lia. by apply not_elem_of_nil in Hk.
Qed.

(** ** Construction *)

(** The memory a pool is constructed in: page-aligned, mapped at the kernel's
    offset, and inside the address space. *)
Record pool_memory (phys virt size : Z) : Prop := {
  pm_phys : word 64 phys ∧ phys mod PAGE_SIZE = 0;
  pm_virt : virt = phys_to_virt OFFSET phys ∧ virt mod PAGE_SIZE = 0;
  pm_size : 2 * PAGE_SIZE ≤ size < 2 ^ 64 ∧ phys + size ≤ 2 ^ 64 ∧ virt + size ≤ 2 ^ 64;
}.

(** The bytes that remain for pages and their descriptors, and for pages. *)
Definition pool_bytes (size : Z) : Z := size - (Z.log2 size - 11) * sizeof_Block.
Definition page_bytes (size : Z) : Z :=
  let s := pool_bytes size - pool_bytes size / (PAGE_SIZE + sizeof_Block) * sizeof_Block in
  s - s mod PAGE_SIZE.

Lemma log2_page size : 2 * PAGE_SIZE ≤ size < 2 ^ 64 → 13 ≤ Z.log2 size < 64.
Proof.
  rewrite pages_PAGE_SIZE. intros Hs. split; [|apply Z.log2_lt_pow2; lia].
  apply Z.log2_le_pow2; lia.
Qed.

Lemma page_bytes_bounds size :
  2 * PAGE_SIZE ≤ size < 2 ^ 64 →
  0 < pool_bytes size < size ∧ 0 ≤ page_bytes size ≤ pool_bytes size ∧ page_bytes size mod PAGE_SIZE = 0.
Proof.
  intros Hs. pose proof (log2_page size Hs). unfold page_bytes, pool_bytes, sizeof_Block.
  rewrite pages_PAGE_SIZE in *. assert (0 < size - (Z.log2 size - 11) * 24) by lia.
  set (s := size - (Z.log2 size - 11) * 24) in *. change (4096 + 24) with 4120.
  set (t := s - s / 4120 * 24). assert (0 ≤ t) by (unfold t; Z.div_mod_to_equations; lia).
  split; [lia|]. split; [unfold t in *; Z.div_mod_to_equations; lia|].
  rewrite Zminus_mod_idemp_r, Z.sub_diag. done.
Qed.

Lemma div_share a n k : 0 ≤ a → 0 ≤ k ≤ n → 0 < n → 0 ≤ a / n * k ≤ a.
Proof. intros. assert (0 ≤ a / n) by (apply Z.div_pos; lia). pose proof (Z.mul_div_le a n). nia. Qed.

Lemma div_plus v d p : 0 < p → d mod p = 0 → (v + d) / p = v / p + d / p.
Proof. intros Hp Hd. apply Z.mod_divide in Hd as [k ->]; [|lia]. by rewrite Z.div_add, Z.div_mul by lia. Qed.

Lemma layout_eq phys virt size :
  pool_memory phys virt size →
  let d := align_up phys (2 ^ Z.log2 size) - phys in
  let base := virt + d in
  let order := Z.log2 size - 11 in
  let min_idx := - (d / PAGE_SIZE) in
  (0 ≤ d < 2 ^ Z.log2 size ∧ 2 ^ Z.log2 size ≤ size ∧ d mod PAGE_SIZE = 0 ∧ (d + phys) mod 2 ^ Z.log2 size = 0) ∧
  Buddy_layout OFFSET phys virt size =
    (Buddy (min_idx + page_bytes size / PAGE_SIZE) min_idx base order
       (virt + page_bytes size - wrap 64 (min_idx * sizeof_Block))%W (virt + pool_bytes size)%W
       (init_heads (Z.to_nat order) (Links (λ _, None) (λ _, None))) (λ _, 0) (λ _, Used),
     page_bytes size).
Proof.
  intros [[Hp Hpal] [Hv Hval] (Hs & Hs2 & Hs3)] d base0 order0 min0.
  assert (0 ≤ virt < 2 ^ 64) as Hvw by (rewrite Hv; apply wadd_word). destruct Hp as [Hp0 Hp1].
  pose proof (log2_page size Hs) as Hlog. destruct (page_bytes_bounds size Hs) as (HB1 & HB2 & HB3).
  assert (2 ^ Z.log2 size ≤ size < 2 ^ Z.succ (Z.log2 size)) as Hpow by (apply Z.log2_spec; rewrite pages_PAGE_SIZE in *; lia).
  destruct (align_up_spec phys (Z.log2 size)) as [Hal Hup]; [split; lia|lia|lia|].
  assert (d mod PAGE_SIZE = 0) as Hd.
  { unfold d. rewrite <-Zminus_mod_idemp_r, Hpal, Z.sub_0_r. apply Z.mod_divide; [done|].
    apply Z.mod_divide in Hal; [|apply Z.pow_nonzero; lia]. etrans; [|exact Hal].
    exists (2 ^ (Z.log2 size - 12)). unfold PAGE_SIZE, PAGE_BITS. rewrite <-Z.pow_add_r by lia. f_equal. lia. }
  split; [split_and!; [unfold d; lia..|lia|exact Hd|unfold d; by rewrite Z.sub_add]|].
  unfold Buddy_layout, bit_scan_reverse. rewrite (proj2 (Z.eqb_neq size 0)) by (rewrite pages_PAGE_SIZE in *; lia).
  rewrite (wshl_1 (Z.log2 size)) by lia.
  assert (phys_to_virt OFFSET (align_up phys (2 ^ Z.log2 size)) = base0) as ->.
  { unfold phys_to_virt, base0. rewrite <-(wrap_small 64 (virt + d)) by (split; lia).
    rewrite Hv. unfold phys_to_virt, d. generalize (align_up phys (2 ^ Z.log2 size)). intros a. wcong. }
  rewrite (wadd_small (Z.log2 size) 1), (wsub_small (Z.log2 size + 1) PAGE_BITS) by (unfold PAGE_BITS; lia).
  replace (Z.log2 size + 1 - PAGE_BITS) with order0 by (unfold order0, PAGE_BITS; lia).
  rewrite (wrap_small 64 (order0 * sizeof_Block)) by (unfold order0, sizeof_Block; split; lia).
  rewrite (wsub_small size) by (unfold pool_bytes, order0, sizeof_Block in *; lia).
  change (size - order0 * sizeof_Block) with (pool_bytes size).
  assert (0 ≤ pool_bytes size / (PAGE_SIZE + sizeof_Block) * sizeof_Block ≤ pool_bytes size) as HD.
  { apply div_share; [lia|done..]. }
  rewrite (wrap_small 64 (_ / _ * _)) by (split; lia). rewrite (wsub_small (pool_bytes size)) by lia.
  set (s := pool_bytes size - _) in *.
  assert ((s .& wnot (PAGE_SIZE - 1))%W = page_bytes size) as ->.
  { assert (align_dn s (2 ^ 12) = s - s mod 2 ^ 12) as E by (apply align_dn_eq; [split|]; lia).
    exact E. }
  assert (0 ≤ d / PAGE_SIZE < 2 ^ 52 ∧ 0 ≤ page_bytes size / PAGE_SIZE < 2 ^ 52) as [? ?].
  { rewrite pages_PAGE_SIZE. split; (split; [apply Z.div_pos|apply Z.div_lt_upper_bound]; lia). }
  assert (page_to_index (Buddy 0 0 base0 order0 0 (virt + pool_bytes size)%W (Links (λ _, None) (λ _, None))
    (λ _, 0) (λ _, Used)) virt = min0) as ->.
  { unfold page_to_index, min0, base0. simpl. rewrite (div_plus virt d) by done.
    rewrite signed64_small; lia. }
  rewrite (wadd_small virt (page_bytes size)) by lia.
  assert (page_to_index (Buddy 0 0 base0 order0 0 (virt + pool_bytes size)%W (Links (λ _, None) (λ _, None))
    (λ _, 0) (λ _, Used)) (virt + page_bytes size) = min0 + page_bytes size / PAGE_SIZE) as ->; [|done].
  unfold page_to_index, min0, base0. simpl. rewrite (div_plus virt d), (div_plus virt (page_bytes size)) by done.
  rewrite signed64_small; lia.
Qed.

Lemma init_heads_ring n L j : (j < n)%nat → ring (init_heads n L) [j].
Proof.
  induction n as [|n IH]; intros Hj; [lia|]. destruct (decide (j = n)) as [->|].
  - split; [apply NoDup_singleton|]. simpl. by rewrite !fn_lookup_insert.
  - eapply ring_frame; [| |apply IH; lia]; intros a ->%list_elem_of_singleton; simpl;
      by rewrite fn_lookup_insert_ne by congruence.
Qed.

(** The pages from [m] on, below [n]. *)
Definition pages (m n : Z) : gset Z := list_to_set (seqZ m (n - m)).

Lemma elem_of_pages m n i : i ∈ pages m n ↔ m ≤ i < n.
Proof. unfold pages. rewrite elem_of_list_to_set, elem_of_seqZ. lia. Qed.

Lemma tiling_pages mn mx od :
  0 < od → tiling mn mx od (gset_to_gmap (0, Used) (pages mn mx)).
Proof.
  intros Hod. split.
  - intros i o g. rewrite lookup_gset_to_gmap_Some, elem_of_pages. intros [Hi [= <- <-]].
    rewrite Z.mod_1_r. lia.
  - intros i k o g o' g' p. rewrite !lookup_gset_to_gmap_Some. unfold in_block.
    intros [_ [= <- _]] [_ [= <- _]]. lia.
  - intros p Hp. exists p, 0, Used. rewrite lookup_gset_to_gmap_Some, elem_of_pages.
    unfold in_block. split; [done|lia].
Qed.

Lemma layout_rep phys virt size :
  pool_memory phys virt size →
  ∃ b, Buddy_layout OFFSET phys virt size = (b, page_bytes size) ∧
    base b + min_idx b * PAGE_SIZE = virt ∧ base b + max_idx b * PAGE_SIZE = virt + page_bytes size ∧
    order b = Z.log2 size - 11 ∧
    buddy_rep b (gset_to_gmap 0 (pages (min_idx b) (max_idx b))).
Proof.
  intros HM. destruct (layout_eq _ _ _ HM) as [(Hd1 & Hd2 & Hd3 & Hd4) ->].
  destruct HM as [Hp [Hv Hval] (Hs & Hs2 & Hs3)].
  assert (0 ≤ virt < 2 ^ 64) as Hvw by (rewrite Hv; apply wadd_word).
  destruct (page_bytes_bounds size Hs) as (HB1 & HB2 & HB3). pose proof (log2_page size Hs) as Hlog.
  set (d := align_up phys _ - phys) in *. set (n := page_bytes size) in *.
  assert (d / PAGE_SIZE * PAGE_SIZE = d ∧ n / PAGE_SIZE * PAGE_SIZE = n) as [Ed En].
  { rewrite pages_PAGE_SIZE in *. pose proof (Z.div_mod d 4096). pose proof (Z.div_mod n 4096). lia. }
  assert (0 ≤ n / PAGE_SIZE) by (apply Z.div_pos; [lia|done]).
  eexists. split; [reflexivity|]. cbn [base min_idx max_idx order].
  split_and!; [lia|lia|done|].
  exists (gset_to_gmap (0, Used) (pages (- (d / PAGE_SIZE)) (- (d / PAGE_SIZE) + n / PAGE_SIZE))), (λ _, []).
  split.
  2: { intros i o. rewrite !lookup_gset_to_gmap_Some. intuition congruence. }
  split; cbn [base min_idx max_idx order].
  - split; cbn [base min_idx max_idx order]; [lia|lia| |lia|].
    + split; [split; lia|]. rewrite <-Zplus_mod_idemp_r, Hd3, Z.add_0_r. done.
    + unfold PAGE_BITS. replace (Z.log2 size - 11 - 1 + 12) with (Z.log2 size) by lia.
      assert (virt + d - OFFSET = d + phys + (virt - (phys + OFFSET))) as -> by lia.
      apply Z.mod_divide; [apply Z.pow_nonzero; lia|]. apply Z.divide_add_r.
      * apply Z.mod_divide; [apply Z.pow_nonzero; lia|done].
      * rewrite Hv. unfold phys_to_virt, wadd, wrap. rewrite (Z.div_mod (phys + OFFSET) (2 ^ 64)) at 2 by lia.
        exists (- (2 ^ (64 - Z.log2 size) * ((phys + OFFSET) / 2 ^ 64))).
        assert (2 ^ 64 = 2 ^ (64 - Z.log2 size) * 2 ^ Z.log2 size) as E by (rewrite <-Z.pow_add_r by lia; f_equal; lia).
        generalize ((phys + OFFSET) / 2 ^ 64) ((phys + OFFSET) mod 2 ^ 64). intros x y. rewrite E. lia.
  - apply tiling_pages. lia.
  - intros i o Hi. apply lookup_gset_to_gmap_Some in Hi. by destruct Hi.
  - split; cbn [lk order].
    + intros j Hj. apply init_heads_ring. unfold head_at. lia.
    + by intros j k _ ?%not_elem_of_nil.
    + by intros j j' k _ _ ?%not_elem_of_nil.
  - intros i j Hj. rewrite lookup_gset_to_gmap_Some. split; [by intros ?%not_elem_of_nil|by intros [_ ?]].
  - intros i o g Hi _. apply lookup_gset_to_gmap_Some in Hi as [_ [= <- <-]]. done.
Qed.

Lemma delete_gset_to_gmap (X : gset Z) i (x : Z) :
  delete i (gset_to_gmap x X) = gset_to_gmap x (X ∖ {[i]}).
Proof.
  apply map_eq. intros k. apply option_eq. intros y.
  rewrite lookup_delete_Some, !lookup_gset_to_gmap_Some, elem_of_difference, elem_of_singleton.
  assert (i ≠ k ↔ k ≠ i) by (split; congruence). tauto.
Qed.

Lemma free_pages_spec n b X k q :
  buddy_rep b (gset_to_gmap 0 X) → base b + max_idx b * PAGE_SIZE < 2 ^ 64 →
  min_idx b ≤ k ≤ max_idx b → max_idx b - k < Z.of_nat n →
  (∀ i, k ≤ i < max_idx b → i ∈ X) →
  ∃ q' b', free_pages OFFSET n (base b + k * PAGE_SIZE) (base b + max_idx b * PAGE_SIZE) q b = Some (q', b') ∧
    same_pool b b' ∧ buddy_rep b' (gset_to_gmap 0 (X ∖ pages k (max_idx b))).
Proof.
  revert b X k q. induction n as [|n IH]; intros b X k q HB Hend Hk Hn HX; [lia|]. cbn [free_pages].
  rewrite pages_PAGE_SIZE in *. destruct (Z.ltb_spec (base b + k * 4096) (base b + max_idx b * 4096)) as [Hlt|Hge].
  2: { exists q, b. split_and!; [done..|]. assert (X ∖ pages k (max_idx b) = X) as ->; [|done].
    apply set_eq. intros i. rewrite elem_of_difference, elem_of_pages. split; [tauto|]. split; [done|lia]. }
  destruct (pool_free_spec b (gset_to_gmap 0 X) k 0 q HB) as (b1 & E1 & HB1 & HS1).
  { apply lookup_gset_to_gmap_Some. split; [apply HX; lia|done]. }
  destruct HB as (A & fl & P & _). pose proof (p_geometry _ _ _ _ P) as G.
  rewrite (proj1 (index_page b k G ltac:(lia))), pages_PAGE_SIZE in E1. rewrite E1. cbn [mbind option_bind].
  rewrite delete_gset_to_gmap in HB1. pose proof HS1 as (Emax & Emin & Ebase & _).
  destruct (g_base _ G) as [[? ?] _]. destruct (g_addr _ G) as [? ?]. rewrite pages_PAGE_SIZE in *.
  rewrite wadd_small by lia. replace (base b + k * 4096 + 4096) with (base b1 + (k + 1) * 4096) by lia.
  rewrite <-Emax, <-Ebase in Hend |- *.
  destruct (IH b1 _ (k + 1) (Quota.free q (2 ^ 0)) HB1 Hend) as (q' & b' & E & HS & HB'); [lia|lia| |].
  { intros i Hi. apply elem_of_difference. split; [apply HX; lia|]. rewrite elem_of_singleton. lia. }
  exists q', b'. split_and!; [exact E|by eapply same_pool_trans|].
  rewrite Emax in HB' |- *. assert (X ∖ pages k (max_idx b) = X ∖ {[k]} ∖ pages (k + 1) (max_idx b)) as ->; [|done].
  apply set_eq. intros i. rewrite !elem_of_difference, elem_of_singleton, !elem_of_pages. split.
  - intros [? Hi]. split_and!; [done|lia..].
  - intros [[? ?] Hi]. split; [done|lia].
Qed.

(** The pages from [f_addr] are freed one by one. *)
Lemma construct_rep phys virt f_addr size q :
  pool_memory phys virt size →
  (let '(b, n) := Buddy_layout OFFSET phys virt size in storage_apart virt n b = true) →
  f_addr mod PAGE_SIZE = 0 →
  virt ≤ f_addr ≤ virt + page_bytes size →
  ∃ q' b, Buddy_construct OFFSET phys virt f_addr size q = Some (q', b) ∧
    base b + min_idx b * PAGE_SIZE = virt ∧
    base b + max_idx b * PAGE_SIZE = virt + page_bytes size ∧
    buddy_rep b (gset_to_gmap 0 (pages (min_idx b) (page_to_index b f_addr))).
Proof.
  intros HM Ha Hf Hr. destruct (layout_rep _ _ _ HM) as (b & E & Emin & Emax & _ & HB).
  destruct HM as [_ [Hv Hval] (Hs & _ & Hs3)].
  destruct (page_bytes_bounds size Hs) as (HB1 & HB2 & HB3).
  assert (0 ≤ virt < 2 ^ 64) as Hvw by (rewrite Hv; apply wadd_word).
  pose proof HB as (A & fl & P & _). pose proof (p_geometry _ _ _ _ P) as G. destruct (g_base _ G) as [[Hb0 Hb1] Hbal].
  rewrite E in Ha. unfold Buddy_construct. rewrite E, Ha, wadd_small by lia. cbn [negb].
  assert (∃ k, f_addr = base b + k * PAGE_SIZE) as [k ->].
  { rewrite pages_PAGE_SIZE in *. exists ((f_addr - base b) / 4096).
    pose proof (Z.div_mod f_addr 4096 ltac:(lia)). pose proof (Z.div_mod (base b) 4096 ltac:(lia)).
    replace (f_addr - base b) with ((f_addr / 4096 - base b / 4096) * 4096) by lia. rewrite Z.div_mul by lia. lia. }
  assert (min_idx b ≤ k ≤ max_idx b) as Hk by (rewrite pages_PAGE_SIZE in *; lia).
  assert (page_bytes size - (base b + k * PAGE_SIZE - virt) = (max_idx b - k) * PAGE_SIZE) as -> by lia.
  rewrite Z.div_mul by done. rewrite <-Emax.
  destruct (free_pages_spec (S (Z.to_nat (max_idx b - k))) b _ k q HB) as (q' & b' & -> & HS & HB'); [lia|lia|lia| |].
  { intros i Hi. apply elem_of_pages. lia. }
  pose proof HS as (E1 & E2 & E3 & _). exists q', b'. rewrite E1, E2, E3. split_and!; [done..|].
  assert (page_to_index b' (base b + k * PAGE_SIZE) = k) as ->.
  { unfold page_to_index. rewrite E3, Z.div_add by done.
    replace (base b / PAGE_SIZE + k - base b / PAGE_SIZE) with k by lia.
    apply signed64_small. destruct (g_addr _ G). rewrite pages_PAGE_SIZE in *. lia. }
  assert (pages (min_idx b) k = pages (min_idx b) (max_idx b) ∖ pages k (max_idx b)) as ->; [|done].
  apply set_eq. intros i. rewrite elem_of_difference, !elem_of_pages. lia.
Qed.

(** ** Properties *)

(** C11: A pool implements a map from the first page of each allocated block to
    its order.  [_alloc] places an aligned block of [2^ord] pages inside the
    pool and apart from all allocated ones, returns its address, charges the
    quota, fills exactly the bytes of the block as requested and fails only if
    no such block can be placed; it never fails an assertion.  [_free] of an
    allocated block removes it from the map and credits the quota by its size,
    merging included; freeing an address outside the pool fails the
    assertion. *)
Theorem buddy_refines_map b U :
  buddy_rep b U →
  (∀ o q f mem, 0 ≤ o →
     match _alloc OFFSET o q f mem b with
     | Some (Some (virt, q', mem', b')) =>
       ∃ i, placeable b U i o ∧ virt = base b + i * PAGE_SIZE ∧ q' = Quota.alloc q (2 ^ o) ∧
         buddy_rep b' (<[i := o]> U) ∧ same_pool b b' ∧
         (∀ a, mem' a = if decide (virt ≤ a < virt + 2 ^ o * PAGE_SIZE)
                        then match f with NOFILL => mem a | FILL_0 => 0 | FILL_1 => 255 end else mem a)
     | Some None => ∀ i, ¬ placeable b U i o
     | None => False
     end) ∧
  (∀ i o q, U !! i = Some o →
     ∃ b', _free OFFSET (base b + i * PAGE_SIZE) q b = Some (Quota.free q (2 ^ o), b') ∧
       buddy_rep b' (delete i U) ∧ same_pool b b') ∧
  (∀ virt q, ¬ min_idx b ≤ page_to_index b virt < max_idx b → _free OFFSET virt q b = None).
Proof.
  intros HB. pose proof HB as (A & fl & P & HU). pose proof (p_geometry _ _ _ _ P) as G.
  destruct (g_order _ G). split_and!.
  - intros o q f mem Ho. destruct (pool_alloc_spec b U o q f mem HB Ho) as [(i & b' & -> & Hpl & HB' & HS)|[-> Hno]]; [|done].
    exists i. pose proof Hpl as (? & ? & ? & _). pose proof (pow2_pos o Ho).
    split_and!; [done|apply index_page; [done|lia]|done..|].
    intros a. apply fill_block_spec. lia.
  - intros i o q Hi. pose proof (proj1 (HU i o) Hi) as HA. pose proof (pool_range P _ _ _ HA).
    rewrite <-(proj1 (index_page b i G ltac:(lia))). by apply pool_free_spec.
  - intros virt q Hout. unfold _free. zcase; simpl; try done. lia.
Qed.

(** The constructor of a pool terminates without a failed assertion and
    makes every page from [f_addr] to the end of the page area available:
    exactly the pages below [f_addr] stay allocated.  The page area begins at
    [virt] and is what the descriptors leave.  The list heads and the
    descriptors are separate objects in the model, so the memory must be one in
    which the descriptor array ends at or before the list heads;
    [index_storage_fits] says exactly for which sizes that is so. *)
Theorem construct_spec phys virt f_addr size q :
  pool_memory phys virt size →
  (let '(b, n) := Buddy_layout OFFSET phys virt size in storage_apart virt n b = true) →
  f_addr mod PAGE_SIZE = 0 →
  virt ≤ f_addr ≤ virt + page_bytes size →
  ∃ q' b, Buddy_construct OFFSET phys virt f_addr size q = Some (q', b) ∧
    base b + min_idx b * PAGE_SIZE = virt ∧
    base b + max_idx b * PAGE_SIZE = virt + page_bytes size ∧
    buddy_rep b (gset_to_gmap 0 (pages (min_idx b) (page_to_index b f_addr))).
Proof. apply construct_rep. Qed.

(** C33: The constructor computes the size of the descriptor array so that the
    array ends at or before the list heads, except when the bytes that remain
    beside the heads leave less than one descriptor after the last page: the
    condition is exact. *)
Theorem index_storage_fits phys virt size :
  pool_memory phys virt size →
  let '(b, _) := Buddy_layout OFFSET phys virt size in
  virt + page_bytes size + (max_idx b - min_idx b) * sizeof_Block ≤ head b ↔
  (size - order b * sizeof_Block) mod (PAGE_SIZE + sizeof_Block) < PAGE_SIZE.
Proof.
  intros HM. destruct (layout_eq _ _ _ HM) as [_ ->]. cbn [max_idx min_idx head order].
  destruct HM as [_ [Hv _] (Hs & _ & Hs3)].
  assert (0 ≤ virt < 2 ^ 64) as Hvw by (rewrite Hv; apply wadd_word).
  destruct (page_bytes_bounds size Hs) as (HB1 & _ & _).
  rewrite wadd_small by lia. change (size - (Z.log2 size - 11) * sizeof_Block) with (pool_bytes size).
  match goal with |- context [?x + ?y - ?x] => replace (x + y - x) with y by lia end.
  unfold page_bytes. set (s := pool_bytes size) in *. clearbody s. clear Hv Hs Hs3 Hvw.
  unfold sizeof_Block. rewrite pages_PAGE_SIZE. change (4096 + 24) with 4120.
  pose proof (Z.div_mod s 4120 ltac:(lia)) as Ds. pose proof (Z.mod_pos_bound s 4120 ltac:(lia)).
  set (k := s / 4120) in *. set (r := s mod 4120) in *.
  replace (s - k * 24) with (r + k * 4096) by lia. rewrite Z.mod_add by lia.
  destruct (Z.lt_ge_cases r 4096).
  - rewrite (Z.mod_small r) by lia. replace (r + k * 4096 - r) with (k * 4096) by lia. rewrite Z.div_mul by lia. lia.
  - replace (r mod 4096) with (r - 4096) by (rewrite <-(Z.mod_add r (-1)), Z.mod_small by lia; lia).
    replace (r + k * 4096 - (r - 4096)) with ((k + 1) * 4096) by lia. rewrite Z.div_mul by lia. lia.
Qed.
End pool.

(** ** Examples *)

Definition pool16 : buddy := (Buddy_layout 0 65536 65536 65536).1.

Lemma pool_memory16 : pool_memory 0 65536 65536 65536.
Proof. split; [vm_compute; intuition discriminate..|vm_compute; intuition discriminate]. Qed.

Lemma pool16_rep : buddy_rep 0 pool16 (gset_to_gmap 0 (pages 0 15)).
Proof.
  destruct (layout_rep _ _ _ _ pool_memory16) as (b & E & _ & _ & _ & HB).
  unfold pool16. rewrite E. cbn [fst].
  assert (min_idx b = 0 ∧ max_idx b = 15) as [E1 E2].
  { replace b with pool16 by (unfold pool16; by rewrite E). by vm_compute. }
  by rewrite E1, E2 in HB.
Qed.

Lemma buddy_refines_map_witness :
  ∃ b', _free 0 (65536 + 3 * PAGE_SIZE) quota_new pool16 = Some (Quota.free quota_new 1, b') ∧
    buddy_rep 0 b' (delete 3 (gset_to_gmap 0 (pages 0 15))).
Proof.
  destruct (buddy_refines_map 0 pool16 _ pool16_rep) as (_ & Hfree & _).
  destruct (Hfree 3 0 quota_new) as (b' & E & HB & _).
  - apply lookup_gset_to_gmap_Some. split; [by apply elem_of_pages|done].
  - exists b'. split; [exact E|exact HB].
Defined.

Lemma construct_spec_witness :
  ∃ q' b, Buddy_construct 0 65536 65536 (65536 + PAGE_SIZE) 65536 quota_new = Some (q', b) ∧
    buddy_rep 0 b (gset_to_gmap 0 (pages (min_idx b) (page_to_index b (65536 + PAGE_SIZE)))).
Proof.
  destruct (construct_spec 0 65536 65536 (65536 + PAGE_SIZE) 65536 quota_new pool_memory16) as (q' & b & E & _ & _ & HB);
    [by vm_compute|by vm_compute|by vm_compute|]. exists q', b. exact (conj E HB).
Defined.

(** A pool of 354 MiB, as [Hip::_add_buddy] constructs them in units of 2 MiB:
    the descriptor of the last page is the head of the list of order 0. *)
Definition bad_size : Z := 354 * 2 ^ 20.

Lemma index_storage_fits_witness :
  pool_memory 0 (2 ^ 24) (2 ^ 24) bad_size ∧
  let '(b, _) := Buddy_layout 0 (2 ^ 24) (2 ^ 24) bad_size in
  ¬ 2 ^ 24 + page_bytes bad_size + (max_idx b - min_idx b) * sizeof_Block ≤ head b.
Proof.
  assert (pool_memory 0 (2 ^ 24) (2 ^ 24) bad_size) as HM by (split; vm_compute; intuition discriminate).
  split; [exact HM|]. pose proof (index_storage_fits 0 _ _ _ HM) as H.
  destruct (Buddy_layout 0 (2 ^ 24) (2 ^ 24) bad_size) as [b n] eqn:E.
  rewrite H. assert (order b = 17) as ->; [|by vm_compute].
  destruct (layout_rep 0 _ _ _ HM) as (b2 & E2 & _ & _ & Ho & _). rewrite E in E2. injection E2 as <- _. by rewrite Ho.
Defined.

(** The assertion in [_free] does not detect every double release: a page that
    was merged into a block to its left keeps its tag [Used].  Page 1 is
    released twice; the free blocks at the pages 0 and 1 overlap. *)
Lemma double_free_undetected :
  (r1 ← _free 0 65536 quota_new pool16;
   r2 ← _free 0 (65536 + PAGE_SIZE) r1.1 r1.2;
   r3 ← _free 0 (65536 + PAGE_SIZE) r2.1 r2.2;
   let b := r3.2 in
   Some (ord b (index_to_block b 0), tag b (index_to_block b 0),
         ord b (index_to_block b 1), tag b (index_to_block b 1))) = Some (1, Free, 0, Free).
Proof. by vm_compute. Qed.
