(* ===== verification/Pte.v ===== *)
(** Page tables: [include/pte.hpp], [include/hpt.hpp], [include/ept.hpp],
    [include/dpt.hpp], [include/ipt.hpp] and [src/pte.cpp].

    The four kinds of page table (host, nested, and the two DMA formats) are
    instances of one template, [Pte<P,E,L,B,F,V>]; here the kinds are
    instances of the class [PteKind], which has the members by which they
    differ, and the template's operations are written once.  On x86_64 all
    kinds have L = 4 levels of 2^9 entries of 64 bits.

    Pointers are addresses of the kernel's linear map of physical memory, and
    [wds] gives the 64-bit word at an address.  Pages for tables come from
    [Buddy::allocator] through the interface [Frames]; the laws a client may
    use are the class [FramesOk], which [PteBuddy] proves of the allocator of
    [Buddy].  The flushes of the processor's caches and translation buffers
    have no counterpart in the state. *)
From S2P Require Import Prelude Bits Bitmap Quota Queue Buddy.
Local Open Scope Z_scope.

(** [L] and [B]: [PTE_LEV] and [PTE_BPL]. *)
Definition LEV : nat := 4.
Definition BPL : Z := 9.

(** ** The kinds of page table *)

Class PteKind := {
  pte_n : Z;                  (* [PTE_N] *)
  pte_lev : bool;             (* the template's [V] *)
  pte_addr : Z → Z;           (* [addr ()] *)
  pte_order : Z → Z;          (* [order ()] *)
  order_bits : Z → Z;         (* [order (o)] *)
  super : Z → Z → bool;       (* [super (l)] *)
  pte_s : Z → Z;              (* [pte_s (l)] *)
}.

Definition PAGE_MASK : Z := ((1 << PAGE_BITS) - 1)%W.

(** The members of the template that a kind may override. *)
Definition Pte_addr (val : Z) : Z := (val .& wnot ((1 << PAGE_BITS) - 1)%W)%W.
Definition Pte_order (val : Z) : Z := PAGE_BITS.
Definition Pte_order_bits (o : Z) : Z := 0.
Definition attr (val : Z) : Z := (val .& PAGE_MASK)%W.

(** Host page tables; on AMD processors also nested page tables. *)
Definition HPT_P : Z := 1.
Definition HPT_W : Z := (1 << 1)%W.
Definition HPT_U : Z := (1 << 2)%W.
Definition HPT_PWT : Z := (1 << 3)%W.
Definition HPT_UC : Z := (1 << 4)%W.
Definition HPT_A : Z := (1 << 5)%W.
Definition HPT_D : Z := (1 << 6)%W.
Definition HPT_S : Z := (1 << 7)%W.
Definition HPT_NX : Z := (1 << 63)%W.

Definition Hpt_addr (val : Z) : Z :=
  let paddr := (val .& wnot PAGE_MASK)%W in
  if xorb (truthy (paddr .& HPT_NX)%W) (truthy (paddr .& (HPT_NX >> 1))%W) then
    if truthy (paddr .& HPT_NX)%W then ((ones64 .^ HPT_NX) .& paddr)%W
    else (HPT_NX .| paddr)%W
  else paddr.

Definition Hpt_super (l val : Z) : bool := truthy (val .& HPT_S)%W.
Definition Hpt_pte_s (l : Z) : Z := if truthy l then HPT_S else 0.

Definition Hpt_hw_attr (a : Z) : Z :=
  let a := if truthy a && negb (truthy (a .& 0x4)%W) then (a .| HPT_NX)%W else a in
  if truthy a then (a .| HPT_D .| HPT_A .| HPT_U .| HPT_P)%W else 0.

Definition Hpt : PteKind := {|
  pte_n := (HPT_A .| HPT_U .| HPT_W .| HPT_P)%W; pte_lev := false;
  pte_addr := Hpt_addr; pte_order := Pte_order; order_bits := Pte_order_bits;
  super := Hpt_super; pte_s := Hpt_pte_s |}.

(** Nested page tables of Intel processors. *)
Definition EPT_R : Z := 1.
Definition EPT_W : Z := (1 << 1)%W.
Definition EPT_X : Z := (1 << 2)%W.
Definition EPT_I : Z := (1 << 6)%W.
Definition EPT_S : Z := (1 << 7)%W.

Definition Ept_super (l val : Z) : bool := truthy (val .& EPT_S)%W.
Definition Ept_pte_s (l : Z) : Z := if truthy l then EPT_S else 0.
Definition Ept_order (val : Z) : Z := (PAGE_BITS + (val >> 8 .& 0xf))%W.
Definition Ept_order_bits (o : Z) : Z := (o << 8)%W.

Definition Ept_hw_attr (a t : Z) : Z :=
  if truthy a then (t << 3 .| a .| EPT_I .| EPT_R)%W else 0.

Definition Ept : PteKind := {|
  pte_n := (EPT_R .| EPT_W .| EPT_X)%W; pte_lev := false;
  pte_addr := Pte_addr; pte_order := Ept_order; order_bits := Ept_order_bits;
  super := Ept_super; pte_s := Ept_pte_s |}.

(** DMA page tables of Intel's IOMMU. *)
Definition DPT_R : Z := 1.
Definition DPT_W : Z := (1 << 1)%W.
Definition DPT_S : Z := (1 << 7)%W.

Definition Dpt_super (l val : Z) : bool := truthy (val .& DPT_S)%W.
Definition Dpt_pte_s (l : Z) : Z := if truthy l then DPT_S else 0.

Definition Dpt : PteKind := {|
  pte_n := (DPT_R .| DPT_W)%W; pte_lev := false;
  pte_addr := Pte_addr; pte_order := Pte_order; order_bits := Pte_order_bits;
  super := Dpt_super; pte_s := Dpt_pte_s |}.

(** Page tables of AMD's IOMMU: entries name the level of what they refer to. *)
Definition IPT_R : Z := (1 << 61)%W.
Definition IPT_W : Z := (1 << 62)%W.
Definition IPT_P : Z := 1.

Definition Ipt_addr (val : Z) : Z :=
  let paddr := (val .& wnot 0xfff)%W in (paddr .& ((1 << 52) - 1))%W.

Definition Ipt_hw_attr (a : Z) : Z :=
  let r := if truthy (a .& 0x1)%W then IPT_R else 0 in
  let r := (r .| (if truthy (a .& 0x2)%W then IPT_W else 0))%W in
  (r .| (if truthy r then IPT_P else 0))%W.

Definition Ipt_super (l val : Z) : bool := truthy l && negb (truthy (val >> 9 .& 0x7)%W).
Definition Ipt_pte_s (l : Z) : Z := 0.

Definition Ipt : PteKind := {|
  pte_n := (IPT_R .| IPT_W .| IPT_P)%W; pte_lev := true;
  pte_addr := Ipt_addr; pte_order := Pte_order; order_bits := Pte_order_bits;
  super := Ipt_super; pte_s := Ipt_pte_s |}.

(** ** The allocator of table pages *)

(** [Buddy::allocator.alloc (0, quota, FILL_0)], less the filling, and
    [Buddy::allocator.free]; [None] is a panic. *)
Class Frames (E : Type) := {
  frame_alloc : quota → E → option (Z * quota * E);
  frame_free : Z → quota → E → option (quota * E);
}.

(** ** Operations *)

Record state (E : Type) := State { wds : Z → Z; qta : quota; frs : E }.
Arguments State {E}.
Arguments wds {E}.
Arguments qta {E}.
Arguments frs {E}.

Section pte.
Context (OFFSET : Z) {K : PteKind} {E : Type} {F : Frames E}.
Implicit Types s : state E.

Definition set_wds (w : Z → Z) s : state E := State w (qta s) (frs s).

(** [e + k] for a pointer to entries. *)
Definition entry (e k : Z) : Z := (e + 8 * k)%W.

(** [v >> (l * B + PAGE_BITS) & ((1UL << B) - 1)]. *)
Definition idx (l : nat) (v : Z) : Z :=
  ((v >> (Z.of_nat l * BPL + PAGE_BITS)%Z) .& ((1 << BPL) - 1))%W.

(** The entry for [v] in the table that the entry [val] refers to. *)
Definition down (val v : Z) (l : nat) : Z := entry (phys_to_virt OFFSET (pte_addr val)) (idx l v).

(** [new (quota) P]: a page of zeros. *)
Definition new_table s : option (Z * state E) :=
  '(p, q, f) ← frame_alloc (qta s) (frs s);
  Some (p, State (fill_block FILL_0 p 0 (wds s)) q f).

Definition destroy (obj : Z) s : option (state E) :=
  '(q, f) ← frame_free obj (qta s) (frs s); Some (State (wds s) q f).

(** The entry of level [l] for the table at the physical address [f]. *)
Definition table_entry (l : nat) (f : Z) : Z :=
  (f .| (if (l =? LEV)%nat then 0 else pte_n) .| (if pte_lev then Z.of_nat l << 9 else 0))%W.

(** [set (o, v)] of the entry at [e]. *)
Definition set_pte (e o v : Z) s : bool * state E :=
  let '(b, x) := cmp_swap (wds s e) o v in (b, set_wds (<[e := x]> (wds s)) s).

(** The body of [walk] for an empty entry. *)
Definition grow (l : nat) (e : Z) s : option (state E) :=
  '(p, s) ← new_table s;
  let '(b, s) := set_pte e 0 (table_entry l (virt_to_phys OFFSET p)) s in
  if b then Some s else destroy p s.

(** The loop of [walk] at the entry [e] of level [l].  The result is a pointer,
    or [nullptr] as [None]; below level 0 the loop has no meaning. *)
Fixpoint walk (l : nat) (e v : Z) (n : nat) (a : bool) s : option (option Z * state E) :=
  if (l =? n)%nat then Some (Some e, s)
  else match l with
  | O => None
  | S l' =>
    if wds s e =? 0 then
      if negb a then Some (None, s)
      else s ← grow l e s; walk l' (down (wds s e) v l') v n a s
    else walk l' (down (wds s e) v l') v n a s
  end.

(** What [lookup] returns for the entry [val] of level [l] that maps [v]: the
    size, the physical address and the attributes. *)
Definition leaf_result (l : nat) (val v : Z) : Z * Z * Z :=
  let s := (1 << (Z.of_nat l * BPL + pte_order val)%Z)%W in
  (s, (pte_addr val .| (v .& (s - 1)))%W, attr val).

(** The loop of [lookup] at the entry [e] of level [l]; [None] is the result 0. *)
Fixpoint lookup (l : nat) (e v : Z) (w : Z → Z) : option (Z * Z * Z) :=
  if w e =? 0 then None
  else match l with
  | O => Some (leaf_result l (w e) v)
  | S l' => if negb (super (Z.of_nat l) (w e)) then lookup l' (down (w e) v l') v w
            else Some (leaf_result l (w e) v)
  end.

Inductive Pte_Type := TYPE_UP | TYPE_DN | TYPE_DF.

#[export] Instance Pte_Type_eq_dec : EqDecision Pte_Type.
Proof. solve_decision. Defined.

(** What [update] does with a present entry before it is overwritten by [p]. *)
Definition retire (l : nat) (t : Pte_Type) (x p : Z) (flush : bool) s : option (bool * state E) :=
  let flush := flush || ((0 <? l)%nat && negb (x =? p)) in
  match t with
  | TYPE_DF => Some (flush, s)
  | _ =>
    if (0 <? l)%nat && negb (super (Z.of_nat l) x) then
      s ← destroy (phys_to_virt OFFSET (pte_addr x)) s; Some (true, s)
    else Some (flush, s)
  end.

(** The loop of [update], with [n] entries to go. *)
Fixpoint fill (n l : nat) (t : Pte_Type) (e p st : Z) (flush : bool) s : option (bool * state E) :=
  match n with
  | O => Some (flush, s)
  | S n =>
    '(flush, s) ← (if wds s e =? 0 then Some (flush, s) else retire l t (wds s e) p flush s);
    fill n l t (entry e 1) (p + st)%W st flush (set_wds (<[e := p]> (wds s)) s)
  end.

(** [update] of the page table at [this]. *)
Definition update (this v o p a : Z) (t : Pte_Type) s : option (bool * state E) :=
  let l := Z.to_nat (o / BPL) in
  let n := Z.to_nat (1 << (o mod BPL))%W in
  '(e, s) ← walk LEV this v l (if t is TYPE_UP then true else false) s;
  match e with
  | None => Some (false, s)
  | Some e =>
    if truthy a then
      fill n l t e (p .| order_bits (o mod BPL) .| pte_s (Z.of_nat l) .| a)%W
        (1 << (Z.of_nat l * BPL + PAGE_BITS)%Z)%W false s
    else fill n l t e 0 0 false s
  end.

(** [for (x : xs) s = f (x, s)]. *)
Fixpoint for_each {A} (f : A → state E → option (state E)) (xs : list A) s : option (state E) :=
  match xs with
  | [] => Some s
  | x :: xs => s ← f x s; for_each f xs s
  end.

(** The functions that tell which tables to free and which to descend into. *)
Definition dest_fn : Type := Z → Z → Z → bool.
Definition iter_fn : Type := Z → Z → bool.

(** One turn of the loop of [free_up] on the table at [e]; [sub] is the call
    for the table below. *)
Definition free_entry (l : nat) (sub : Z → Z → state E → option (state E))
    (e v : Z) (d : option dest_fn) (il : option iter_fn) (i : Z) s : option (state E) :=
  let x := wds s (entry e i) in
  if (x =? 0) || super (Z.of_nat l) x then Some s
  else
    let p := phys_to_virt OFFSET (pte_addr x) in
    let virt := (v + (i << (Z.of_nat l * BPL + PAGE_BITS)%Z))%W in
    s ← (if (match il with Some il => il (Z.of_nat l) virt | None => (1 <? l)%nat end)
         then sub p virt s else Some s);
    if (match d with Some d => d (pte_addr (wds s (entry e i))) virt (Z.of_nat l) | None => true end)
    then destroy p s else Some s.

Fixpoint free_up (l : nat) (e v : Z) (d : option dest_fn) (il : option iter_fn) s : option (state E) :=
  if e =? 0 then Some s
  else
    for_each (free_entry l
      (λ p virt s, match l with O => None | S l' => free_up l' p virt d il s end) e v d il)
      (seqZ 0 (2 ^ BPL)) s.

(** [addr ()] of [this] is the one of the template. *)
Definition clear (this : Z) (d : option dest_fn) (il : option iter_fn) s : option (state E) :=
  if wds s this =? 0 then Some s
  else
    let e := phys_to_virt OFFSET (Pte_addr (wds s this)) in
    s ← free_up (LEV - 1) e 0 d il s; destroy e s.

(** [root (quota)]. *)
Definition root (this : Z) s : option (Z * state E) :=
  '(e, s) ← walk LEV this 0 (LEV - 1) true s;
  Some (match e with Some e => virt_to_phys OFFSET e | None => virt_to_phys OFFSET 0 end, s).

(** [check (qg, o)]: the quota that [update] of order [o] may use. *)
Definition check_need (o : Z) : Z := o / (4096 / 8) + Z.of_nat LEV.
Definition check (q r : quota) (o : Z) : bool * quota * quota := guard_check q r (check_need o).

End pte.
