(* ===== verification/PteKinds.v ===== *)
(** The kinds of page table satisfy the laws by which the operations of [Pte]
    are proved: an entry that [walk] makes refers to its table, an entry that
    [update] makes is a leaf of its level, and the two are told apart. *)
From S2P Require Import Prelude Bits Buddy Pte.
Local Open Scope Z_scope.

(** Physical addresses of pages. *)
Definition frame (f : Z) : Prop := 0 < f < 2 ^ 52 ∧ f mod PAGE_SIZE = 0.

(** The entry that [update] writes for the physical address [f]. *)
Definition leaf {K : PteKind} (l : nat) (o f a : Z) : Z :=
  (f .| order_bits o .| pte_s (Z.of_nat l) .| a)%W.

Class PteLaws (K : PteKind) := {
  (** Attributes that [update] may be called with. *)
  good_attr : Z → Prop;
  good_0 : good_attr 0;
  (** The logarithm of the number of entries that a leaf says it belongs to. *)
  span : Z → Z;
  span_le o : 0 ≤ o < BPL → 0 ≤ span o ≤ o;
  order_range x : PAGE_BITS ≤ pte_order x < PAGE_BITS + 16;
  entry_addr l f : (1 ≤ l ≤ LEV)%nat → frame f → pte_addr (table_entry l f) = f;
  entry_super l f : (1 ≤ l ≤ LEV)%nat → frame f → super (Z.of_nat l) (table_entry l f) = false;
  entry_present l f : (1 ≤ l ≤ LEV)%nat → frame f → table_entry l f ≠ 0;
  leaf_sum l o f a : (l < LEV)%nat → 0 ≤ o < BPL → 0 ≤ f < 2 ^ 52 → f mod PAGE_SIZE = 0 →
    good_attr a → leaf l o f a = f + leaf l o 0 a;
  leaf_word l o f a : (l < LEV)%nat → 0 ≤ o < BPL → 0 ≤ f < 2 ^ 52 → f mod PAGE_SIZE = 0 →
    good_attr a → word 64 (leaf l o f a);
  leaf_addr l o f a : (l < LEV)%nat → 0 ≤ o < BPL → 0 ≤ f < 2 ^ 52 → f mod PAGE_SIZE = 0 →
    good_attr a → pte_addr (leaf l o f a) = f;
  leaf_super l o f a : (0 < l < LEV)%nat → 0 ≤ o < BPL → 0 ≤ f < 2 ^ 52 → f mod PAGE_SIZE = 0 →
    good_attr a → super (Z.of_nat l) (leaf l o f a) = true;
  leaf_order l o f a : (l < LEV)%nat → 0 ≤ o < BPL → 0 ≤ f < 2 ^ 52 → f mod PAGE_SIZE = 0 →
    good_attr a → pte_order (leaf l o f a) = PAGE_BITS + span o;
  leaf_attr l o f a : (l < LEV)%nat → 0 ≤ o < BPL → 0 ≤ f < 2 ^ 52 → f mod PAGE_SIZE = 0 →
    good_attr a → attr (leaf l o f a) = attr (leaf l o 0 a);
  leaf_present l o f a : 0 ≤ f → good_attr a → truthy a = true → leaf l o f a ≠ 0;
}.

(** ** Flags beside an address *)

(** [x] has flags below the address bits and above them. *)
Definition flags (x : Z) : Prop :=
  word 64 x ∧ ∀ i, 12 ≤ i < 52 → Z.testbit x i = false.

Lemma frame_bits f i :
  0 ≤ f < 2 ^ 52 → f mod PAGE_SIZE = 0 → 0 ≤ i → ¬ 12 ≤ i < 52 → Z.testbit f i = false.
Proof.
  intros Hf Hal Hi Hni. destruct (Z.lt_ge_cases i 12).
  - by apply (proj1 (mod_pow2_bits0 f 12 ltac:(lia)) Hal).
  - apply (word_bits 52); [done|lia].
Qed.

Lemma lor_sum f x : 0 ≤ f < 2 ^ 52 → f mod PAGE_SIZE = 0 → flags x → Z.lor f x = f + x.
Proof.
  intros Hf Hal [Hx Hm]. symmetry. rewrite Z.add_nocarry_lxor.
  - apply Z.lxor_lor. bitwise. 
    destruct (decide (12 ≤ i < 52)); [by rewrite Hm, andb_false_r|by rewrite frame_bits].
  - bitwise. destruct (decide (12 ≤ i < 52)); [by rewrite Hm, andb_false_r|by rewrite frame_bits].
Qed.

Lemma truthy_bit x n : 0 ≤ n < 64 → truthy (x .& (1 << n))%W = Z.testbit x n.
Proof.
  intros Hn. rewrite wshl_1 by done. apply eq_bool_prop_intro. rewrite !Is_true_true, truthy_true.
  split.
  - intros Hne. destruct (Z.testbit x n) eqn:Hb; [done|]. destruct Hne. bitwise.
    rewrite Z.pow2_bits_eqb by lia. destruct (Z.eqb_spec n i) as [<-|]; by rewrite ?Hb, ?andb_false_r.
  - intros Hb H0. assert (Z.testbit (Z.land x (2 ^ n)) n = true) as H1.
    { rewrite Z.land_spec, Hb, Z.pow2_bits_eqb, Z.eqb_refl by lia. done. }
    by rewrite H0, Z.bits_0 in H1.
Qed.

Lemma PAGE_MASK_eq : PAGE_MASK = Z.ones 12.
Proof. reflexivity. Qed.

Lemma attr_mod x : 0 ≤ x → attr x = x mod PAGE_SIZE.
Proof. intros. unfold attr. rewrite PAGE_MASK_eq. by apply Z.land_ones. Qed.

Lemma page_mod_add f x : f mod PAGE_SIZE = 0 → (f + x) mod PAGE_SIZE = x mod PAGE_SIZE.
Proof. intros Hf. rewrite Z.add_mod by done. rewrite Hf, Z.add_0_l. by apply Z.mod_mod. Qed.

(** [val & ~PAGE_MASK]. *)
Lemma Pte_addr_bits x i :
  word 64 x → 0 ≤ i → Z.testbit (Pte_addr x) i = (12 <=? i) && Z.testbit x i.
Proof.
  intros Hx Hi. unfold Pte_addr. change ((1 << PAGE_BITS) - 1)%W with (Z.ones 12).
  assert (word 64 (Z.ones 12)) by (unfold word; change (Z.ones 12) with 4095; lia).
  rewrite Z.land_spec, wnot_bits, Z.testbit_ones_nonneg by (done || lia).
  rewrite (proj2 (Z.leb_le 0 i)) by done.
  destruct (Z.ltb_spec i 64); [|rewrite (word_bits 64 x) by done; by rewrite ?andb_false_r].
  rewrite andb_true_r, andb_comm. f_equal. cbn. lia.
Qed.

Lemma Pte_addr_low f x :
  0 ≤ f < 2 ^ 52 → f mod PAGE_SIZE = 0 → 0 ≤ x < PAGE_SIZE → Pte_addr (Z.lor f x) = f.
Proof.
  intros Hf Hal Hx. apply Z.bits_inj'. intros i Hi.
  assert (word 64 (Z.lor f x)).
  { apply lor_word; [lia| |]; unfold word, PAGE_SIZE, PAGE_BITS in *; lia. }
  rewrite Pte_addr_bits, Z.lor_spec by done. destruct (Z.leb_spec 12 i); cbn.
  - rewrite (word_bits 12 x) by done. by rewrite orb_false_r.
  - symmetry. apply frame_bits; [done..|lia].
Qed.

Lemma small_flags x : 0 ≤ x < PAGE_SIZE → flags x.
Proof.
  intros Hx. split; [unfold word, PAGE_SIZE, PAGE_BITS in *; lia|].
  intros i Hi. apply (word_bits 12); [done|lia].
Qed.

(** ** Entries as an address with flags *)
Section split.
Context {K : PteKind}.

Definition entry_flags (l : nat) : Z :=
  Z.lor (if (l =? LEV)%nat then 0 else pte_n) (if pte_lev then Z.shiftl (Z.of_nat l) 9 else 0).

Definition leaf_flags (l : nat) (o a : Z) : Z :=
  Z.lor (Z.lor (order_bits o) (pte_s (Z.of_nat l))) a.

Lemma table_entry_split l f : (l ≤ LEV)%nat → table_entry l f = Z.lor f (entry_flags l).
Proof.
  intros Hl. unfold table_entry, entry_flags. rewrite Z.lor_assoc.
  destruct pte_lev; [|done]. do 2 f_equal. unfold wshl. apply wrap_small.
  unfold LEV in *. do 5 (destruct l as [|l]; [by vm_compute|]). lia.
Qed.

Lemma leaf_split l o f a : leaf l o f a = Z.lor f (leaf_flags l o a).
Proof. unfold leaf, leaf_flags. by rewrite !Z.lor_assoc. Qed.

Lemma leaf_split0 l o a : leaf l o 0 a = leaf_flags l o a.
Proof. by rewrite leaf_split. Qed.
End split.

Section low.
Context (f x : Z).
Hypothesis Hf : 0 ≤ f < 2 ^ 52.
Hypothesis Hal : f mod PAGE_SIZE = 0.
Hypothesis Hx : flags x.

Lemma with_flag i : 0 ≤ i → ¬ 12 ≤ i < 52 → Z.testbit (Z.lor f x) i = Z.testbit x i.
Proof. intros. by rewrite Z.lor_spec, frame_bits. Qed.

Lemma with_low : Z.lor f x mod PAGE_SIZE = x mod PAGE_SIZE.
Proof. rewrite lor_sum by done. by apply page_mod_add. Qed.

Lemma with_attr : attr (Z.lor f x) = attr x.
Proof.
  destruct Hx as [[H0 _] _].
  rewrite !attr_mod; [apply with_low|done|]. apply Z.lor_nonneg. lia.
Qed.

Lemma with_word : word 64 (Z.lor f x).
Proof. apply lor_word; [lia| |apply Hx]. unfold word. lia. Qed.

(** A field of the low bits. *)
Lemma with_field n k : 0 ≤ n → 0 ≤ k → n + k ≤ 12 →
  Z.land (Z.shiftr (Z.lor f x) n) (Z.ones k) = Z.land (Z.shiftr x n) (Z.ones k).
Proof.
  intros. apply Z.bits_inj'. intros i Hi.
  rewrite !Z.land_spec, !Z.shiftr_spec, !Z.testbit_ones_nonneg by lia.
  destruct (Z.ltb_spec i k); [|by rewrite !andb_false_r]. by rewrite with_flag by lia.
Qed.

Lemma with_addr : Pte_addr (Z.lor f x) = Z.lor f (Pte_addr x).
Proof.
  pose proof with_word. apply Z.bits_inj'. intros i Hi.
  rewrite Z.lor_spec, !Pte_addr_bits, Z.lor_spec by (done || apply Hx).
  destruct (Z.leb_spec 12 i); [done|]. cbn. rewrite frame_bits; [done|done..|lia].
Qed.

Lemma with_present : x ≠ 0 → Z.lor f x ≠ 0.
Proof. intros Hne [_ H0]%Z.lor_eq_0_iff. done. Qed.

Lemma with_frame : 0 < f → Z.lor f x ≠ 0.
Proof. intros Hp [H0 _]%Z.lor_eq_0_iff. lia. Qed.

(** The NX bit is all that [Hpt_addr] removes. *)
Lemma with_hpt_addr : Pte_addr x = 0 ∨ Pte_addr x = 2 ^ 63 → Hpt_addr (Z.lor f x) = f.
Proof.
  intros Hp. unfold Hpt_addr. change (_ .& wnot PAGE_MASK)%W with (Pte_addr (Z.lor f x)).
  rewrite with_addr. change (HPT_NX >> 1)%W with (1 << 62)%W. unfold HPT_NX.
  rewrite !truthy_bit, !Z.lor_spec, !(frame_bits f) by (done || lia). cbn [orb].
  destruct Hp as [-> | ->].
  - by rewrite Z.bits_0, Z.lor_0_r.
  - change (Z.testbit (2 ^ 63) 63) with true. change (Z.testbit (2 ^ 63) 62) with false. cbn [xorb].
    change (ones64 .^ (1 << 63))%W with (Z.ones 63). rewrite Z.land_comm, Z.land_ones by lia.
    rewrite lor_sum by (done || (split; [by vm_compute|intros i Hi; rewrite Z.pow2_bits_eqb by lia; lia])).
    rewrite Z.add_mod, Z_mod_same_full, Z.add_0_r, Z.mod_mod by lia. apply Z.mod_small. lia.
Qed.
End low.

(** Flags of the low twelve bits and the NX bit. *)
Lemma flags_lor x y : flags x → flags y → flags (Z.lor x y).
Proof.
  intros [Hx Hx'] [Hy Hy']. split; [by apply lor_word|].
  intros i Hi. by rewrite Z.lor_spec, Hx', Hy'.
Qed.

Lemma flags_range x y : flags x → 0 ≤ y < 2 ^ 52 → y mod PAGE_SIZE = 0 → word 64 (y + x).
Proof. intros Hx Hy Hal. rewrite <-lor_sum by done. by apply with_word. Qed.

(** The root has no flags but the level. *)
Lemma root_addr {K : PteKind} f : frame f → Pte_addr (table_entry LEV f) = f.
Proof.
  intros [Hf Hal]. rewrite table_entry_split by done. apply Pte_addr_low; [lia|done|].
  unfold entry_flags. by destruct pte_lev.
Qed.

(** ** The instances *)

(** What distinguishes the kinds; the other laws follow. *)
Lemma laws_of (K : PteKind) (good : Z → Prop) (sp : Z → Z) :
  good 0 → (∀ o, 0 ≤ o < BPL → 0 ≤ sp o ≤ o) →
  (∀ x, PAGE_BITS ≤ pte_order x < PAGE_BITS + 16) →
  (∀ l f, (1 ≤ l ≤ LEV)%nat → frame f →
    pte_addr (Z.lor f (entry_flags l)) = f ∧ super (Z.of_nat l) (Z.lor f (entry_flags l)) = false) →
  (∀ l o a, (l < LEV)%nat → 0 ≤ o < BPL → good a → flags (leaf_flags l o a)) →
  (∀ l o f a, (l < LEV)%nat → 0 ≤ o < BPL → 0 ≤ f < 2 ^ 52 → f mod PAGE_SIZE = 0 → good a →
    let x := Z.lor f (leaf_flags l o a) in
    pte_addr x = f ∧ ((0 < l)%nat → super (Z.of_nat l) x = true) ∧ pte_order x = PAGE_BITS + sp o) →
  PteLaws K.
Proof.
  intros H0 Hsp Hr He Hfl Hlf. refine {| good_attr := good; span := sp |}; [done|done|done|..].
  - intros l f Hl Hf. rewrite table_entry_split by lia. by apply He.
  - intros l f Hl Hf. rewrite table_entry_split by lia. by apply He.
  - intros l f Hl [Hf Hal]. rewrite table_entry_split by lia. apply with_frame; lia.
  - intros. rewrite leaf_split0, leaf_split. apply lor_sum; [done..|by apply Hfl].
  - intros. rewrite leaf_split. apply with_word; [done..|by apply Hfl].
  - intros. rewrite leaf_split. by apply Hlf.
  - intros. rewrite leaf_split. apply Hlf; (done || lia).
  - intros. rewrite leaf_split. by apply Hlf.
  - intros. rewrite leaf_split0, leaf_split. apply with_attr; [done..|by apply Hfl].
  - intros l o f a Hf Ha Ht. unfold leaf. intros [_ ->]%Z.lor_eq_0_iff. done.
Defined.

(** Case analysis on a level below a bound. *)
Ltac levels l := unfold LEV in *; first [lia | destruct l as [|l]; [try lia | levels l]].

Lemma nx_addr x :
  word 64 x → (∀ i, 12 ≤ i < 63 → Z.testbit x i = false) → Pte_addr x = 0 ∨ Pte_addr x = 2 ^ 63.
Proof.
  intros Hx Hb. destruct (Z.testbit x 63) eqn:H63; [right|left]; apply Z.bits_inj'; intros i Hi;
    rewrite Pte_addr_bits, ?Z.bits_0, ?Z.pow2_bits_eqb by (done || lia);
    destruct (decide (12 ≤ i < 63)) as [Hr|Hr]; try (rewrite Hb by done; lia);
    destruct (decide (i = 63)) as [->|]; rewrite ?H63; try done;
    destruct (decide (i < 12)); try lia; rewrite (word_bits 64 x i) by (done || lia); lia.
Qed.

(** Host page tables: flags in the low bits, and the NX bit. *)
Definition Hpt_good (a : Z) : Prop := word 64 a ∧ ∀ i, 12 ≤ i < 63 → Z.testbit a i = false.

Lemma Hpt_leaf_flags l o a :
  Hpt_good a → flags (leaf_flags (K := Hpt) l o a) ∧
    (Pte_addr (leaf_flags (K := Hpt) l o a) = 0 ∨ Pte_addr (leaf_flags (K := Hpt) l o a) = 2 ^ 63).
Proof.
  intros [Hw Ha]. assert (0 ≤ pte_s (PteKind := Hpt) (Z.of_nat l) < PAGE_SIZE) as Hs.
  { cbn. unfold Hpt_pte_s. by destruct (truthy _). }
  unfold leaf_flags. cbn [order_bits Hpt]. unfold Pte_order_bits. rewrite Z.lor_0_l.
  assert (flags (Z.lor (pte_s (PteKind := Hpt) (Z.of_nat l)) a)) as Hfl.
  { apply flags_lor; [by apply small_flags|]. split; [done|]. intros. apply Ha. lia. }
  split; [done|]. apply nx_addr; [apply Hfl|]. intros i Hi.
  rewrite Z.lor_spec, (Ha i Hi), orb_false_r. apply (word_bits 12); [done|lia].
Qed.

(** [super] is bit 7 in three kinds. *)
Lemma super_bit x : truthy (x .& (1 << 7))%W = Z.testbit x 7.
Proof. by apply truthy_bit. Qed.

#[export] Instance Hpt_laws : PteLaws Hpt.
Proof.
  apply (laws_of Hpt Hpt_good (λ _, 0)); [|intros; cbn; lia|done|..].
  - split; [done|]. intros. apply Z.bits_0.
  - intros l f Hl [Hf Hal]. cbn [pte_addr super Hpt]. unfold Hpt_super, HPT_S.
    rewrite super_bit, with_flag by (done || lia). split; [|by levels l].
    apply with_hpt_addr; [lia|done|apply small_flags|left]; levels l; done.
  - intros. by apply Hpt_leaf_flags.
  - intros l o f a Hl _ Hf Hal Ha. cbn [pte_addr super pte_order Hpt]. unfold Hpt_super, HPT_S.
    rewrite super_bit, with_flag by (done || lia). split_and!; [|intros; unfold leaf_flags; rewrite !Z.lor_spec; by levels l|done].
    by apply with_hpt_addr; [done..|apply Hpt_leaf_flags|apply Hpt_leaf_flags].
Defined.

(** The kinds whose entries have no flags above the address. *)
Section plain.
Context (K : PteKind) (good : Z → Prop).
Hypothesis Kaddr : ∀ x, pte_addr x = Pte_addr x.
Hypothesis Kentry : ∀ l, (1 ≤ l ≤ LEV)%nat → 0 ≤ entry_flags l < PAGE_SIZE ∧ Z.testbit (entry_flags l) 7 = false.
Hypothesis Ksuper : ∀ l x, super l x = Z.testbit x 7.
Hypothesis Kleaf : ∀ l o a, (l < LEV)%nat → 0 ≤ o < BPL → good a → 0 ≤ leaf_flags l o a < PAGE_SIZE ∧
  ((0 < l)%nat → Z.testbit (leaf_flags l o a) 7 = true).

Lemma plain_laws (sp : Z → Z) :
  good 0 → (∀ o, 0 ≤ o < BPL → 0 ≤ sp o ≤ o) →
  (∀ x, PAGE_BITS ≤ pte_order x < PAGE_BITS + 16) →
  (∀ l o f a, (l < LEV)%nat → 0 ≤ o < BPL → 0 ≤ f < 2 ^ 52 → f mod PAGE_SIZE = 0 → good a →
    pte_order (Z.lor f (leaf_flags l o a)) = PAGE_BITS + sp o) →
  PteLaws K.
Proof.
  intros H0 Hsp Hrg Hord. apply (laws_of K good sp); [done|done|done|..].
  - intros l f Hl [Hf Hal]. destruct (Kentry l Hl).
    rewrite Kaddr, Ksuper, Pte_addr_low, with_flag by (done || lia). done.
  - intros l o a Hl Ho Ha. by apply small_flags, Kleaf.
  - intros l o f a Hl Ho Hf Hal Ha. destruct (Kleaf l o a Hl Ho Ha) as [Hr Hs]. cbn zeta.
    rewrite Kaddr, Ksuper, Pte_addr_low, with_flag by (done || lia). auto.
Defined.
End plain.

Definition Dpt_good (a : Z) : Prop := 0 ≤ a < PAGE_SIZE.

#[export] Instance Dpt_laws : PteLaws Dpt.
Proof.
  apply (plain_laws Dpt Dpt_good) with (sp := λ _, 0); [done| |intros; apply super_bit| |done|intros; cbn; lia|done|done].
  - intros l Hl. levels l; done.
  - intros l o a Hl _ Ha. unfold leaf_flags. split; [|intros; rewrite !Z.lor_spec; by levels l].
    apply (lor_word 12); [lia| |done]. by levels l.
Defined.

(** Nested page tables keep the order in bits 8 to 11. *)
Definition Ept_good (a : Z) : Prop := 0 ≤ a < 2 ^ 8.

Lemma Ept_order_range x : PAGE_BITS ≤ Ept_order x < PAGE_BITS + 16.
Proof.
  unfold Ept_order. change 0xf with (Z.ones 4). rewrite Z.land_ones by lia.
  pose proof (Z.mod_pos_bound (Z.shiftr x 8) (2 ^ 4) ltac:(lia)) as Hm. unfold PAGE_BITS in *.
  rewrite wadd_small by lia. lia.
Qed.

Lemma Ept_leaf_order l o f a :
  (l < LEV)%nat → 0 ≤ o < BPL → 0 ≤ f < 2 ^ 52 → f mod PAGE_SIZE = 0 → Ept_good a →
  Ept_order (Z.lor f (leaf_flags (K := Ept) l o a)) = PAGE_BITS + o.
Proof.
  intros Hl Ho Hf Hal Ha. unfold Ept_order. change 0xf with (Z.ones 4).
  rewrite with_field by (done || lia). unfold leaf_flags. cbn [order_bits pte_s Ept].
  rewrite !Z.shiftr_lor. unfold BPL in Ho.
  assert (Z.shiftr a 8 = 0) as -> by (rewrite Z.shiftr_div_pow2 by lia; apply Z.div_small, Ha).
  assert (Z.shiftr (Ept_pte_s (Z.of_nat l)) 8 = 0) as -> by (unfold Ept_pte_s; by destruct (truthy _)).
  unfold Ept_order_bits. rewrite !Z.lor_0_r, wshl_small, Z.shiftr_div_pow2, Z.div_mul by lia.
  rewrite Z.land_ones, Z.mod_small by lia. apply wadd_small. unfold PAGE_BITS. lia.
Qed.

#[export] Instance Ept_laws : PteLaws Ept.
Proof.
  apply (plain_laws Ept Ept_good) with (sp := λ o, o); [done| |intros; apply super_bit| |done|intros; lia|apply Ept_order_range|apply Ept_leaf_order].
  - intros l Hl. levels l; done.
  - intros l o a Hl Ho Ha. unfold leaf_flags. split.
    + apply (lor_word 12); [lia|apply lor_word; [lia| |by levels l]|unfold Ept_good, word in *; lia].
      cbn [order_bits Ept]. unfold Ept_order_bits, BPL, word in *. rewrite wshl_small by lia. lia.
    + intros. rewrite !Z.lor_spec. apply orb_true_iff. left. apply orb_true_iff. right. by levels l.
Defined.

(** Page tables of AMD's IOMMU have flags above the address. *)
Definition Ipt_good (a : Z) : Prop := flags a ∧ ∀ i, 9 ≤ i < 12 → Z.testbit a i = false.

Lemma Ipt_addr_spec f x :
  0 ≤ f < 2 ^ 52 → f mod PAGE_SIZE = 0 → flags x → Ipt_addr (Z.lor f x) = f.
Proof.
  intros Hf Hal Hx. unfold Ipt_addr.
  change (Z.lor f x .& wnot 0xfff)%W with (Pte_addr (Z.lor f x)). change ((1 << 52) - 1)%W with (Z.ones 52).
  rewrite with_addr by done. apply Z.bits_inj'. intros i Hi.
  rewrite Z.land_spec, Z.lor_spec, Pte_addr_bits, Z.testbit_ones_nonneg by (lia || done || apply Hx).
  destruct (decide (12 ≤ i < 52)) as [Hr|Hr].
  - rewrite (proj2 Hx) by done. rewrite andb_false_r, orb_false_r, (proj2 (Z.ltb_lt _ _)), andb_true_r by lia. done.
  - rewrite frame_bits by done. destruct (Z.ltb_spec i 52); [|by rewrite andb_false_r].
    rewrite (proj2 (Z.leb_gt 12 i)) by lia. done.
Qed.

Lemma Ipt_super_field f l x :
  0 ≤ f < 2 ^ 52 → f mod PAGE_SIZE = 0 → flags x →
  Ipt_super l (Z.lor f x) = truthy l && negb (truthy (Z.land (Z.shiftr x 9) (Z.ones 3))).
Proof. intros. unfold Ipt_super. change 0x7 with (Z.ones 3). by rewrite with_field. Qed.

#[export] Instance Ipt_laws : PteLaws Ipt.
Proof.
  assert (∀ l, (1 ≤ l ≤ LEV)%nat → flags (entry_flags (K := Ipt) l)) as He.
  { intros l Hl. unfold entry_flags. apply flags_lor.
    - destruct (l =? LEV)%nat; [by apply small_flags|]. split; [done|].
      intros i Hi. cbn [pte_n Ipt]. rewrite !Z.lor_spec. unfold IPT_R, IPT_W, IPT_P.
      rewrite !wshl_1, !Z.pow2_bits_eqb by lia. change 1 with (2 ^ 0). rewrite Z.pow2_bits_eqb by lia. lia.
    - cbn [pte_lev Ipt]. apply small_flags. levels l; done. }
  apply (laws_of Ipt Ipt_good (λ _, 0)); [|intros; cbn; lia|done|..].
  - split; [split; [done|]|]; intros; apply Z.bits_0.
  - intros l f Hl [Hf Hal]. cbn [pte_addr super Ipt]. rewrite Ipt_addr_spec, Ipt_super_field by (lia || auto).
    split; [done|]. by levels l.
  - intros l o a _ _ Ha. apply Ha.
  - intros l o f a Hl _ Hf Hal [Ha Hb]. cbn [pte_addr super pte_order Ipt].
    change (leaf_flags (K := Ipt) l o a) with a. cbn zeta. rewrite Ipt_addr_spec, Ipt_super_field by done.
    split_and!; [done| |done]. intros Hl0.
    assert (Z.land (Z.shiftr a 9) (Z.ones 3) = 0) as ->; [|by levels l].
    apply Z.bits_inj'. intros i Hi. rewrite Z.land_spec, Z.shiftr_spec, Z.testbit_ones_nonneg, Z.bits_0 by lia.
    destruct (Z.ltb_spec i 3); [|by rewrite andb_false_r]. rewrite Hb by lia. done.
Defined.

(** ** The attributes of the memory space

    The words that [Space_mem::update] passes are within what the laws cover. *)
Lemma Hpt_hw_attr_good a : 0 ≤ a < PAGE_SIZE → Hpt_good (Hpt_hw_attr a).
Proof.
  intros Ha. assert (Hpt_good a) as Hg.
  { split; [unfold word, PAGE_SIZE, PAGE_BITS in *; lia|]. intros i Hi. apply (word_bits 12); [done|lia]. }
  assert (∀ x y, Hpt_good x → Hpt_good y → Hpt_good (Z.lor x y)) as Hor.
  { intros x y [Hx Hx'] [Hy Hy']. split; [by apply lor_word|]. intros i Hi. by rewrite Z.lor_spec, Hx', Hy'. }
  assert (∀ x, 0 ≤ x < 2 ^ 12 → Hpt_good x) as Hlow.
  { intros x Hx. split; [unfold word; lia|]. intros i Hi. apply (word_bits 12); [done|lia]. }
  assert (Hpt_good HPT_NX) as Hnx.
  { split; [done|]. intros i Hi. unfold HPT_NX. rewrite wshl_1, Z.pow2_bits_eqb by lia. lia. }
  unfold Hpt_hw_attr. destruct (truthy _); [|by apply Hlow].
  repeat apply Hor; try (by apply Hlow). destruct (_ && _); auto.
Qed.

Lemma Hpt_hw_attr_truthy a : 0 ≤ a → truthy (Hpt_hw_attr a) = truthy a.
Proof.
  intros Ha. unfold Hpt_hw_attr. destruct (truthy a) eqn:Ht; cbn [andb]; [|by rewrite Ht].
  assert (∀ x, truthy (x .| HPT_P)%W = true) as HP.
  { intros x. apply truthy_true. intros [_ ?]%Z.lor_eq_0_iff. done. }
  destruct (negb _); rewrite ?Ht; [|by rewrite HP].
  destruct (truthy (a .| HPT_NX)%W) eqn:H0; [by rewrite HP|].
  apply truthy_false, Z.lor_eq_0_iff in H0 as [_ ?]. done.
Qed.

Lemma Ept_hw_attr_good a t : 0 ≤ a < 8 → 0 ≤ t < 8 → Ept_good (Ept_hw_attr a t).
Proof.
  intros Ha Ht. unfold Ept_hw_attr. destruct (truthy a); [|done].
  change (word 8 (t << 3 .| a .| EPT_I .| EPT_R)%W).
  assert (word 8 (t << 3)%W) by (rewrite wshl_small by lia; unfold word; lia).
  apply lor_word; [lia|apply lor_word; [lia|apply lor_word; [lia|done|unfold word; lia]|done]|done].
Qed.

Lemma Ipt_hw_attr_good a : Ipt_good (Ipt_hw_attr a).
Proof.
  assert (Ipt_good 0 ∧ Ipt_good IPT_R ∧ Ipt_good IPT_W ∧ Ipt_good IPT_P) as (H0 & HR & HW & HP).
  { split_and!; (split; [split; [done|]|]); intros i Hi; unfold IPT_R, IPT_W, IPT_P;
      rewrite ?Z.bits_0, ?wshl_1 by lia; change 1 with (2 ^ 0); rewrite ?Z.pow2_bits_eqb by lia; lia. }
  assert (∀ x y, Ipt_good x → Ipt_good y → Ipt_good (Z.lor x y)) as Hor.
  { intros x y [Hx Hx'] [Hy Hy']. split; [by apply flags_lor|]. intros i Hi. by rewrite Z.lor_spec, Hx', Hy'. }
  assert (∀ (b : bool) x, Ipt_good x → Ipt_good (if b then x else 0)) as Hif.
  { intros [] x Hx; [exact Hx|exact H0]. }
  unfold Ipt_hw_attr. cbn zeta. clear H0.
  apply Hor; [apply Hor; apply Hif; [exact HR|exact HW]|apply Hif; exact HP].
Qed.
