(* ===== verification/PteMap.v ===== *)
(** What page tables mean: the tables of [Pte] as a map from addresses to
    translations.

    A page table is a tree in memory.  Its tables are named by a map [T] from
    a level and a position to the page of the table: the entry of level [S l]
    at position [y] is for the addresses [v] with [v / 2^(9 * S l + 12) = y],
    and refers to the table [(l, y)].  [tables] says that the words in memory
    are such a tree.  [walk] extends the tree without changing a translation,
    and [update] changes the translations of its region and no other. *)
From S2P Require Import Prelude Bits Bitmap Quota Queue Buddy Pte PteKinds.
Local Open Scope Z_scope.

(** ** Positions *)

Definition shift (l : nat) : Z := 9 * Z.of_nat l + 12.
Definition pos (l : nat) (v : Z) : Z := (v mod 2 ^ 48) / 2 ^ shift l.

Lemma shift_S l : shift (S l) = shift l + 9.
Proof. unfold shift. lia. Qed.

Lemma shift_pos l : 0 ≤ shift l.
Proof. unfold shift. lia. Qed.

Lemma pos_S l v : pos (S l) v = pos l v / 512.
Proof.
  unfold pos. pose proof (shift_pos l). rewrite shift_S, Z.pow_add_r by lia.
  rewrite Z.div_div by lia. done.
Qed.

Lemma pos_top v : pos LEV v = 0.
Proof. unfold pos. apply Z.div_small. apply Z.mod_pos_bound. done. Qed.

Lemma pos_nonneg l v : 0 ≤ pos l v.
Proof. unfold pos. apply Z.div_pos; [apply Z.mod_pos_bound; done|]. apply pow2_pos, shift_pos. Qed.

Lemma pos_bound l v : (l ≤ LEV)%nat → pos l v < 2 ^ (9 * (Z.of_nat LEV - Z.of_nat l)).
Proof.
  intros Hl. unfold pos, LEV in *. apply Z.div_lt_upper_bound; [apply pow2_pos, shift_pos|].
  rewrite <-Z.pow_add_r by (unfold shift; lia). unfold shift.
  replace (9 * Z.of_nat l + 12 + 9 * (Z.of_nat 4 - Z.of_nat l)) with 48 by lia.
  apply Z.mod_pos_bound. done.
Qed.

Lemma idx_div l v : idx l v = (v / 2 ^ shift l) mod 512.
Proof.
  unfold idx, BPL, PAGE_BITS. change ((1 << 9) - 1)%W with (Z.ones 9).
  rewrite Z.land_ones by lia. rewrite Z.shiftr_div_pow2 by lia. unfold shift.
  by replace (Z.of_nat l * 9 + 12) with (9 * Z.of_nat l + 12) by lia.
Qed.

Lemma idx_pos l v : (l < LEV)%nat → idx l v = pos l v mod 512.
Proof.
  intros Hl. rewrite idx_div. unfold pos, LEV in *. pose proof (shift_pos l).
  assert (shift l + 9 ≤ 48) by (unfold shift; lia).
  change 512 with (2 ^ 9).
  rewrite <-!Z.shiftr_div_pow2, <-!Z.land_ones by lia. apply Z.bits_inj'. intros i Hi.
  rewrite !Z.land_spec, !Z.shiftr_spec, Z.land_spec, !Z.testbit_ones_nonneg by lia.
  destruct (Z.ltb_spec i 9); [|by rewrite !andb_false_r].
  by rewrite (proj2 (Z.ltb_lt (i + shift l) 48)), !andb_true_r by lia.
Qed.

Lemma idx_range l v : 0 ≤ idx l v < 512.
Proof. rewrite idx_div. by apply Z.mod_pos_bound. Qed.

(** A position is that of the table and the index in it. *)
Lemma pos_split l v : (l < LEV)%nat → pos l v = pos (S l) v * 512 + idx l v.
Proof. intros. rewrite idx_pos, pos_S by done. rewrite (Z.div_mod (pos l v) 512) at 1 by lia. lia. Qed.

(** ** Pages for tables *)

(** A page of the linear map. *)
Definition page (OFFSET p : Z) : Prop :=
  0 < p ∧ p mod PAGE_SIZE = 0 ∧ p + PAGE_SIZE ≤ 2 ^ 64 ∧ frame (virt_to_phys OFFSET p).

Definition in_page (p a : Z) : Prop := p ≤ a < p + PAGE_SIZE.

(** What [Pte] requires of the allocator: pages in [X] are handed out and may
    be returned, [room n] says that [n] pages can be had, and addresses
    [outside] are never handed out. *)
Class FramesOk (OFFSET : Z) (E : Type) `{Frames E} := {
  owns : E → gset Z → Prop;
  room : nat → E → Prop;
  outside : Z → Prop;
  owns_page e X p : owns e X → p ∈ X → page OFFSET p;
  owns_outside e X p a : owns e X → p ∈ X → outside a → ¬ in_page p a;
  room_le e n m : (m ≤ n)%nat → room n e → room m e;
  owns_alloc e X n q : owns e X → room (S n) e → ∃ p e',
    frame_alloc q e = Some (p, Quota.alloc q 1, e') ∧ (p ∉ X) ∧ owns e' ({[p]} ∪ X) ∧ room n e';
  owns_free e X p q : owns e X → p ∈ X → ∃ e',
    frame_free p q e = Some (Quota.free q 1, e') ∧ owns e' (X ∖ {[p]}) ∧
    (∀ n, room n e → room n e');
}.

Lemma in_page_start p a : p mod PAGE_SIZE = 0 → in_page p a → p = a / PAGE_SIZE * PAGE_SIZE.
Proof.
  unfold in_page, PAGE_SIZE, PAGE_BITS. intros Hp Ha.
  pose proof (Z.div_mod p (2 ^ 12)). enough (a / 2 ^ 12 = p / 2 ^ 12) by lia.
  symmetry. apply (Z.div_unique a (2 ^ 12) (p / 2 ^ 12) (a - p)); lia.
Qed.

Lemma page_disjoint OFFSET p p' a :
  page OFFSET p → page OFFSET p' → in_page p a → in_page p' a → p = p'.
Proof.
  intros (_ & H1 & _) (_ & H2 & _) Ha Ha'.
  apply (in_page_start p a) in H1; [|done]. apply (in_page_start p' a) in H2; [|done]. congruence.
Qed.

Lemma virt_phys OFFSET p : word 64 p → phys_to_virt OFFSET (virt_to_phys OFFSET p) = p.
Proof.
  intros Hp. transitivity (wrap 64 p); [|by apply wrap_small].
  unfold phys_to_virt, virt_to_phys. wcong.
Qed.

Lemma page_word OFFSET p : page OFFSET p → word 64 p.
Proof. unfold page, word, PAGE_SIZE, PAGE_BITS. lia. Qed.

Lemma in_page_entry p i : 0 ≤ i < 512 → in_page p (p + 8 * i).
Proof. unfold in_page, PAGE_SIZE, PAGE_BITS. lia. Qed.

Lemma page_entry OFFSET p i : page OFFSET p → 0 ≤ i < 512 → entry p i = p + 8 * i.
Proof.
  intros (H0 & _ & Hm & _) Hi. apply wadd_small. unfold PAGE_SIZE, PAGE_BITS in *. lia.
Qed.

(** ** Trees of tables *)

Abbreviation tree := (gmap (nat * Z) Z).

(** The pages of a tree. *)
Definition tabs (T : tree) : gset Z := map_img T.

Lemma elem_of_tabs (T : tree) t : t ∈ tabs T ↔ ∃ k, T !! k = Some t.
Proof. apply elem_of_map_img. Qed.

Section tables.
Context {OFFSET : Z} {K : PteKind}.

(** The entry [w] of level [l] at the position [y]. *)
Definition slot_ok (T : tree) (l : nat) (y w : Z) : Prop :=
  match l with
  | O => True
  | S l' =>
    match T !! (l', y) with
    | Some t => w = table_entry l (virt_to_phys OFFSET t)
    | None => w = 0 ∨ super (Z.of_nat l) w = true
    end
  end.

(** The address of the entry of level [l] at the position [y]. *)
Definition addr (T : tree) (r : Z) (l : nat) (y : Z) : option Z :=
  if (l =? LEV)%nat then if y =? 0 then Some r else None
  else t ← T !! (l, y / 512); Some (t + 8 * (y mod 512)).

(** The page table at [r] in the memory [w] has the tree [T]. *)
Record tables (T : tree) (r : Z) (w : Z → Z) : Prop := {
  t_page k t : T !! k = Some t → page OFFSET t;
  t_inj k k' t : T !! k = Some t → T !! k' = Some t → k = k';
  t_out k t : T !! k = Some t → ¬ in_page t r;
  t_level l y t : T !! (l, y) = Some t → (l < LEV)%nat ∧ is_Some (addr T r (S l) y);
  t_slot l y a : addr T r l y = Some a → slot_ok T l y (w a);
}.

(** The address of the entry of level [l] for [v]. *)
Definition slot (T : tree) (r : Z) (l : nat) (v : Z) : option Z := addr T r l (pos l v).

Context {L : PteLaws K}.

Lemma down_table t l v :
  page OFFSET t → (l < LEV)%nat →
  down OFFSET (table_entry (S l) (virt_to_phys OFFSET t)) v l = t + 8 * (pos l v mod 512).
Proof.
  intros Hp Hl. unfold down. rewrite entry_addr by (lia || apply Hp).
  rewrite virt_phys by (by eapply page_word). rewrite <-idx_pos by done.
  eapply page_entry; [done|apply idx_range].
Qed.

Lemma addr_top T r : addr T r LEV 0 = Some r.
Proof. done. Qed.

Lemma addr_below T r l y t :
  l ≠ LEV → T !! (l, y / 512) = Some t → addr T r l y = Some (t + 8 * (y mod 512)).
Proof. intros Hl Ht. unfold addr. by rewrite (proj2 (Nat.eqb_neq l LEV)), Ht. Qed.

Lemma addr_cases T r l y a :
  addr T r l y = Some a →
  (l = LEV ∧ y = 0 ∧ a = r) ∨ (l ≠ LEV ∧ ∃ t, T !! (l, y / 512) = Some t ∧ a = t + 8 * (y mod 512)).
Proof.
  unfold addr. destruct (Nat.eqb_spec l LEV) as [->|]; [destruct (Z.eqb_spec y 0)|]; [|done|].
  - intros [= ->]. auto.
  - intros (t & ? & [= <-])%bind_Some. eauto.
Qed.

Lemma slot_below T r l v t :
  (l < LEV)%nat → T !! (l, pos (S l) v) = Some t → slot T r l v = Some (t + 8 * (pos l v mod 512)).
Proof. intros Hl Ht. apply addr_below; [lia|]. by rewrite <-pos_S. Qed.

Section inv.
Context {T : tree} {r : Z} {w : Z → Z}.
Hypothesis I : tables T r w.

Lemma addr_level l y a : addr T r l y = Some a → (l ≤ LEV)%nat.
Proof.
  intros [(-> & _)|(Hl & t & Ht & _)]%addr_cases; [done|].
  pose proof (t_level _ _ _ I _ _ _ Ht). lia.
Qed.

(** Entries of tables lie in the pages of the tables. *)
Lemma in_page_mod t y : in_page t (t + 8 * (y mod 512)).
Proof. apply in_page_entry. by apply Z.mod_pos_bound. Qed.

(** Different entries are at different addresses. *)
Lemma addr_inj l y l' y' a : addr T r l y = Some a → addr T r l' y' = Some a → l = l' ∧ y = y'.
Proof.
  intros [(-> & -> & ->)|(Hl & t & Ht & ->)]%addr_cases [(-> & -> & E)|(Hl' & t' & Ht' & E)]%addr_cases.
  - done.
  - destruct (t_out _ _ _ I _ _ Ht'). rewrite E. apply in_page_mod.
  - destruct (t_out _ _ _ I _ _ Ht). rewrite <-E. apply in_page_mod.
  - assert (t = t') as ->.
    { eapply (page_disjoint _ _ _ (t + 8 * (y mod 512))); [by eapply t_page..|apply in_page_mod|].
      rewrite E. apply in_page_mod. }
    pose proof (t_inj _ _ _ I _ _ _ Ht Ht') as [= -> Hp]. split; [done|].
    rewrite (Z.div_mod y 512), (Z.div_mod y' 512) by done. lia.
Qed.

Lemma slot_parent l v e :
  (l < LEV)%nat → slot T r l v = Some e →
  ∃ e' t, slot T r (S l) v = Some e' ∧ T !! (l, pos (S l) v) = Some t ∧ e = t + 8 * (pos l v mod 512) ∧
    w e' = table_entry (S l) (virt_to_phys OFFSET t).
Proof.
  intros Hl [(-> & _)|(_ & t & Ht & ->)]%addr_cases; [lia|].
  rewrite <-pos_S in Ht. destruct (t_level _ _ _ I _ _ _ Ht) as [_ [e' He']].
  exists e', t. split_and!; [done..|].
  pose proof (t_slot _ _ _ I _ _ _ He') as Hok. cbn [slot_ok] in Hok. by rewrite Ht in Hok.
Qed.

Lemma lookup_down l v e t :
  (l < LEV)%nat → T !! (l, pos (S l) v) = Some t → w e = table_entry (S l) (virt_to_phys OFFSET t) →
  lookup OFFSET (S l) e v w = lookup OFFSET l (t + 8 * (pos l v mod 512)) v w.
Proof.
  intros Hl Ht He. pose proof (t_page _ _ _ I _ _ Ht) as Hp. cbn [lookup].
  rewrite He, (proj2 (Z.eqb_neq _ _)) by (apply entry_present; [lia|apply Hp]).
  rewrite entry_super by (lia || apply Hp). cbn [negb]. by rewrite down_table.
Qed.

(** [lookup] reaches every entry of the address that a table has. *)
Lemma slot_lookup k l v e :
  (l + k = LEV)%nat → slot T r l v = Some e → lookup OFFSET LEV r v w = lookup OFFSET l e v w.
Proof.
  revert l e. induction k as [|k IH]; intros l e Hl He.
  - assert (l = LEV) as -> by lia. unfold slot in He. rewrite pos_top, addr_top in He. by injection He as <-.
  - destruct (slot_parent l v e ltac:(lia) He) as (e' & t & He' & Ht & -> & Hw).
    rewrite (IH (S l) e') by (lia || done). apply lookup_down; [lia|done..].
Qed.

(** [lookup] depends on the entries of the address only. *)
Lemma lookup_frame_at w' v l e :
  slot T r l v = Some e →
  (∀ l' e', (l' ≤ l)%nat → slot T r l' v = Some e' → w' e' = w e') →
  lookup OFFSET l e v w' = lookup OFFSET l e v w.
Proof.
  revert e. induction l as [|l IH]; intros e He Hw.
  - cbn [lookup]. by rewrite (Hw 0%nat e).
  - cbn [lookup]. rewrite (Hw (S l) e) by done. pose proof (addr_level _ _ _ He) as Hl.
    destruct (Z.eqb_spec (w e) 0) as [|Hne]; [done|].
    pose proof (t_slot _ _ _ I _ _ _ He) as Hok. cbn [slot_ok] in Hok.
    destruct (T !! (l, pos (S l) v)) as [t|] eqn:Ht.
    + pose proof (t_page _ _ _ I _ _ Ht) as Hp.
      rewrite Hok, entry_super, down_table by (lia || done || apply Hp). cbn [negb].
      apply IH; [by apply slot_below|]. intros l' e' Hl' He'. apply (Hw l'); [lia|done].
    + destruct Hok as [|Hs]; [done|]. by rewrite Hs.
Qed.

Lemma lookup_frame w' v :
  (∀ l e, slot T r l v = Some e → w' e = w e) →
  lookup OFFSET LEV r v w' = lookup OFFSET LEV r v w.
Proof.
  intros Hw. apply lookup_frame_at.
  - unfold slot. by rewrite pos_top.
  - intros l e _. apply Hw.
Qed.
End inv.

(** ** Writes to the tree *)

Lemma tables_frame T r w w' :
  tables T r w → (∀ l y a, addr T r l y = Some a → w' a = w a) → tables T r w'.
Proof.
  intros I Hw. destruct I as [H1 H2 H3 H4 H5]. split; [done..|].
  intros l y a Ha. rewrite (Hw l y a) by done. by apply H5.
Qed.

(** Pages that are not tables hold no entry. *)
Lemma addr_not_in T r w l y a t :
  tables T r w → addr T r l y = Some a → page OFFSET t → t ∉ tabs T → ¬ in_page t r → ¬ in_page t a.
Proof.
  intros I Ha Ht Hn Hr Hin. apply addr_cases in Ha as [(_ & _ & ->)|(_ & t' & Ht' & ->)]; [done|].
  apply Hn, elem_of_tabs. exists (l, y / 512). rewrite Ht'. f_equal.
  eapply page_disjoint; [by eapply t_page|done|apply in_page_mod|done].
Qed.

Lemma addr_insert T r l y t l1 y1 a :
  T !! (l, y) = None → (l < LEV)%nat →
  addr (<[(l, y) := t]> T) r l1 y1 = Some a →
  addr T r l1 y1 = Some a ∨ (l1 = l ∧ y1 / 512 = y ∧ a = t + 8 * (y1 mod 512)).
Proof.
  intros Hn Hl [(-> & -> & ->)|(Hl1 & t1 & Ht1 & ->)]%addr_cases; [by left|].
  apply lookup_insert_Some in Ht1 as [([= -> ->] & ->)|(_ & Ht1)]; [by right|].
  left. by apply addr_below.
Qed.

Lemma addr_mono T T' r l y a : T ⊆ T' → addr T r l y = Some a → addr T' r l y = Some a.
Proof.
  intros HT [(-> & -> & ->)|(Hl & t & Ht & ->)]%addr_cases; [done|].
  apply addr_below; [done|]. by eapply lookup_weaken.
Qed.

Section link.
Context {T : tree} {r : Z} {w : Z → Z} {l : nat} {y e t : Z}.
Hypothesis I : tables T r w.
Hypothesis He : addr T r (S l) y = Some e.
Hypothesis H0 : w e = 0.
Hypothesis Hn : T !! (l, y) = None.
Hypothesis Ht : page OFFSET t.
Hypothesis Hfresh : t ∉ tabs T.
Hypothesis Hr : ¬ in_page t r.
Hypothesis Hz : ∀ a, in_page t a → w a = 0.

Let T' := <[(l, y) := t]> T.
Let w' := <[e := table_entry (S l) (virt_to_phys OFFSET t)]> w.

Lemma link_mono : T ⊆ T'.
Proof. by apply insert_subseteq. Qed.

Lemma link_tables : tables T' r w'.
Proof.
  pose proof (addr_level I _ _ _ He) as Hl. subst T' w'. split.
  - intros k t' [(_ & <-)|(_ & Hk)]%lookup_insert_Some; [done|]. by eapply t_page.
  - assert (∀ k, T !! k ≠ Some t) as Hne by (intros k Hk; apply Hfresh, elem_of_tabs; eauto).
    intros k k' t' [(<- & <-)|(_ & Hk)]%lookup_insert_Some [(<- & E)|(_ & Hk')]%lookup_insert_Some.
    + done.
    + by destruct (Hne k').
    + subst. by destruct (Hne k).
    + by eapply t_inj.
  - intros k t' [(_ & <-)|(_ & Hk)]%lookup_insert_Some; [done|]. by eapply t_out.
  - intros l1 y1 t1 Hk. assert ((l1 < LEV)%nat ∧ is_Some (addr T r (S l1) y1)) as [? [a Ha]].
    { apply lookup_insert_Some in Hk as [([= <- <-] & _)|(_ & Hk)]; [split; [lia|eauto]|].
      by eapply t_level. }
    split; [done|]. exists a. eapply addr_mono; [by apply insert_subseteq|done].
  - intros l1 y1 a Ha. apply addr_insert in Ha as [Ha|(-> & Hy & ->)]; [| |done|lia].
    + destruct (decide (l1 = S l ∧ y1 = y)) as [[-> ->]|Hd].
      * rewrite He in Ha. injection Ha as <-. rewrite fn_lookup_insert. cbn [slot_ok].
        by rewrite lookup_insert_eq.
      * rewrite fn_lookup_insert_ne by (intros <-; apply Hd; by eapply (addr_inj I)).
        pose proof (t_slot _ _ _ I _ _ _ Ha) as Hok. destruct l1 as [|l1]; [done|]. cbn [slot_ok] in *.
        rewrite lookup_insert_ne; [done|]. intros [= <- <-]. by apply Hd.
    + assert (in_page t (t + 8 * (y1 mod 512))) as Hin by apply in_page_mod.
      rewrite fn_lookup_insert_ne by (intros E; eapply addr_not_in; [exact I|exact He|done..|]; by rewrite E).
      rewrite (Hz _ Hin). destruct l as [|l']; [done|]. cbn [slot_ok].
      rewrite lookup_insert_ne by (intros [= ?]; lia). destruct (T !! (l', y1)) as [t1|] eqn:Ht1; [|by left].
      exfalso. destruct (t_level _ _ _ I _ _ _ Ht1) as [_ [a Ha]].
      apply addr_cases in Ha as [(? & _)|(_ & t2 & Ht2 & _)]; [lia|]. congruence.
Qed.

Lemma link_lookup v : lookup OFFSET LEV r v w' = lookup OFFSET LEV r v w.
Proof.
  pose proof (addr_level I _ _ _ He) as Hl.
  destruct (decide (pos (S l) v = y)) as [Hy|Hy].
  - rewrite (slot_lookup I (LEV - S l) (S l) v e) by (unfold slot; rewrite ?Hy; done || lia).
    assert (slot T' r l v = Some (t + 8 * (pos l v mod 512))) as Hs.
    { apply slot_below; [lia|]. unfold T'. by rewrite Hy, lookup_insert_eq. }
    rewrite (slot_lookup link_tables (LEV - l) l v _ ltac:(lia) Hs).
    assert (w' (t + 8 * (pos l v mod 512)) = 0) as Hz'.
    { unfold w'. rewrite fn_lookup_insert_ne; [apply Hz, in_page_mod|].
      intros E. eapply addr_not_in; [done|exact He|done..|]. rewrite E. apply in_page_mod. }
    destruct l; cbn [lookup]; by rewrite Hz', H0.
  - apply (lookup_frame I). intros l1 e1 He1. unfold w'. apply fn_lookup_insert_ne. intros <-.
    apply Hy. destruct (addr_inj I _ _ _ _ _ He He1) as [E ->]. by rewrite E.
Qed.
End link.
End tables.
