(* ===== verification/PteSound.v ===== *)
(** Correctness of [walk], [update] and [lookup] of [Pte] over the trees of
    [PteMap].

    [walk] makes the missing tables on the way to an entry and changes no
    translation; [update] maps or unmaps exactly its region. *)
From S2P Require Import Prelude Bits Bitmap Quota Queue Buddy Pte PteKinds PteMap.
Local Open Scope Z_scope.

(** [n] pages are charged to the quota [q]. *)
Definition charged (n : Z) (q q' : quota) : Prop :=
  q' = Quota.Quota (wrap 64 (used q + n)) (over q) (upli q) (notr q).

Lemma charged_0 q : word 64 (used q) → charged 0 q q.
Proof. intros Hw. unfold charged. rewrite Z.add_0_r, wrap_small by done. by destruct q. Qed.

Lemma charged_alloc q : charged 1 q (Quota.alloc q 1).
Proof. done. Qed.

Lemma charged_trans n m q1 q2 q3 : charged n q1 q2 → charged m q2 q3 → charged (n + m) q1 q3.
Proof.
  unfold charged. intros -> ->. cbn. f_equal. unfold wrap.
  rewrite Z.add_mod_idemp_l by done. f_equal. lia.
Qed.

Section sound.
Context {OFFSET : Z} {K : PteKind} {L : PteLaws K} {E : Type} {F : Frames E} {FO : FramesOk OFFSET E}.
Implicit Types (s : state E) (T : tree) (X : gset Z).

(** Addresses that no new page contains. *)
Definition held X (a : Z) : Prop := outside a ∨ ∃ x, x ∈ X ∧ in_page x a.

(** The tables of [T] at [r] among the pages [X] of the allocator. *)
Record sound T X (r : Z) s : Prop := {
  s_tables : tables (OFFSET := OFFSET) T r (wds s);
  s_owns : owns (frs s) X;
  s_tabs : tabs T ⊆ X;
  s_root : held X r;
  s_used : word 64 (used (qta s));
}.

(** What changed from [s] to [s'] as the tree grew from [T] to [T']. *)
Record grown T X (r : Z) s T' s' : Prop := {
  g_sound : sound T' (X ∪ tabs T') r s';
  g_mono : T ⊆ T';
  g_fresh t : t ∈ tabs T' → t ∈ X → t ∈ tabs T;
  g_lookup v : lookup OFFSET LEV r v (wds s') = lookup OFFSET LEV r v (wds s);
  g_keep l y a : addr T r l y = Some a → wds s a ≠ 0 → wds s' a = wds s a;
  g_rest a : a ≠ r → (∀ t, t ∈ tabs T' → ¬ in_page t a) → wds s' a = wds s a;
}.

Lemma tree_grown_refl T X r s : sound T X r s → grown T X r s T s.
Proof.
  intros [? ? Hs ? ?]. split; try done. rewrite (comm_L (∪)), subseteq_union_1_L by done. by split.
Qed.

Lemma tree_grown_trans T1 T2 T3 X r s1 s2 s3 :
  grown T1 X r s1 T2 s2 → grown T2 (X ∪ tabs T2) r s2 T3 s3 → grown T1 X r s1 T3 s3.
Proof.
  intros [S2 M2 F2 L2 K2 R2] [S3 M3 F3 L3 K3 R3].
  assert (tabs T2 ⊆ tabs T3) as Ht.
  { intros t [k Hk]%elem_of_tabs. apply elem_of_tabs. exists k. by eapply lookup_weaken. }
  split.
  - by rewrite <-assoc_L, (subseteq_union_1_L (tabs T2)) in S3 by (done || apply _).
  - by etrans.
  - intros t Ht3 HX. apply F2; [|done]. apply F3; [done|]. set_solver.
  - intros v. by rewrite L3, L2.
  - intros l y a Ha Hne. rewrite (K3 l y a), (K2 l y a); [done|done|done| |].
    + by eapply addr_mono.
    + by rewrite (K2 l y a).
  - intros a Ha Hn. rewrite R3 by done. apply R2; [done|]. intros t Ht2. apply Hn. set_solver.
Qed.

Lemma zero_page p w a : page OFFSET p →
  fill_block FILL_0 p 0 w a = if decide (in_page p a) then 0 else w a.
Proof.
  intros Hp. unfold fill_block, memset. change (1 << (0 + PAGE_BITS))%W with PAGE_SIZE.
  case_decide as Hd; unfold in_page in Hd.
  - by rewrite (proj2 (Z.leb_le _ _)), (proj2 (Z.ltb_lt _ _)) by lia.
  - destruct (Z.leb_spec p a), (Z.ltb_spec a (p + PAGE_SIZE)); (done || lia).
Qed.

(** [grow] hangs a new table below an empty entry. *)
Lemma grow_spec T X r s l y e n :
  sound T X r s → addr T r (S l) y = Some e → wds s e = 0 → T !! (l, y) = None → room (S n) (frs s) →
  ∃ t s', grow OFFSET (S l) e s = Some s' ∧ grown T X r s (<[(l, y) := t]> T) s' ∧
    wds s' e = table_entry (S l) (virt_to_phys OFFSET t) ∧ charged 1 (qta s) (qta s') ∧ room n (frs s').
Proof.
  intros [I HO HT HR HU] He H0 Hn Hroom.
  destruct (owns_alloc _ _ _ (qta s) HO Hroom) as (t & f & Ha & Hfresh & HO' & Hroom').
  assert (t ∈ {[t]} ∪ X) as Htin by (by apply elem_of_union_l, elem_of_singleton).
  pose proof (owns_page _ _ _ HO' Htin) as Hp. pose proof (λ a, owns_outside _ _ _ a HO' Htin) as Hout.
  assert (t ∉ tabs T) as HtT by (intros Ht; by apply Hfresh, HT).
  assert (∀ a, held X a → ¬ in_page t a) as Hheld.
  { intros a [Ho|(x & Hx & Hxa)]; [by apply Hout|]. intros Hta. apply Hfresh.
    rewrite (page_disjoint OFFSET t x a); try done. exact (owns_page _ _ _ HO Hx). }
  assert (¬ in_page t r) as Htr by auto.
  set (w1 := fill_block FILL_0 t 0 (wds s)).
  assert (∀ a, ¬ in_page t a → w1 a = wds s a) as Hw1.
  { intros a Hna. unfold w1. rewrite zero_page by done. by rewrite decide_False. }
  assert (∀ l1 y1 a, addr T r l1 y1 = Some a → w1 a = wds s a) as Hfr.
  { intros l1 y1 a Hay. apply Hw1. by eapply addr_not_in. }
  assert (tables (OFFSET := OFFSET) T r w1) as I1 by (by eapply tables_frame).
  assert (w1 e = 0) as H1 by (by rewrite (Hfr _ _ _ He)).
  assert (∀ a, in_page t a → w1 a = 0) as Hz.
  { intros a Hta. unfold w1. rewrite zero_page by done. by rewrite decide_True. }
  assert (tabs (<[(l, y) := t]> T) = {[t]} ∪ tabs T) as Htabs by (by apply map_img_insert_notin_L).
  exists t. eexists. split; [|split_and!].
  - unfold grow, new_table. rewrite Ha. cbn [mbind option_bind]. unfold set_pte, cmp_swap. cbn [wds].
    fold w1. rewrite H1, decide_True by done. reflexivity.
  - split; cbn [wds frs qta set_wds].
    + split; cbn [wds frs qta set_wds].
      * apply (link_tables I1 He Hn Hp HtT Htr Hz).
      * rewrite Htabs. by replace (X ∪ ({[t]} ∪ tabs T)) with ({[t]} ∪ X) by (apply set_eq; intros k; rewrite !elem_of_union; specialize (HT k); tauto).
      * apply union_subseteq_r.
      * destruct HR as [|(x & Hx & Hxr)]; [by left|right; exists x; split; [by apply elem_of_union_l|done]].
      * apply wadd_word.
    + by apply insert_subseteq.
    + rewrite Htabs. by intros k [->%elem_of_singleton|]%elem_of_union.
    + intros v. rewrite (link_lookup I1 He H1 Hn Hp HtT Htr Hz). apply (lookup_frame I). intros l1 e1. apply Hfr.
    + intros l1 y1 a Ha1 Hne. rewrite fn_lookup_insert_ne; [by eapply Hfr|]. intros <-. by apply Hne.
    + intros a Har Hna. rewrite fn_lookup_insert_ne.
      * apply Hw1. apply Hna. rewrite Htabs. apply elem_of_union_l, elem_of_singleton_2. done.
      * intros <-. apply addr_cases in He as [(_ & _ & ->)|(_ & t' & Ht' & ->)]; [done|].
        apply (Hna t'); [|apply in_page_mod]. rewrite Htabs. apply elem_of_union_r, elem_of_tabs. eauto.
  - cbn. by rewrite fn_lookup_insert.
  - apply charged_alloc.
  - done.
Qed.

(** ** walk *)

Lemma leaf_size l x : (l ≤ LEV)%nat →
  (1 << (Z.of_nat l * BPL + pte_order x)%Z)%W = 2 ^ (Z.of_nat l * BPL + pte_order x) ∧
  2 ^ shift l ≤ 2 ^ (Z.of_nat l * BPL + pte_order x).
Proof.
  intros Hl. pose proof (order_range x). unfold LEV, BPL, PAGE_BITS, shift in *.
  split; [apply wshl_1; lia|apply Z.pow_le_mono_r; lia].
Qed.

(** What is mapped at [v], if anything, is not larger than an entry of level
    [l] and the entries that belong to it. *)
Definition no_larger (l : nat) (r v : Z) (w : Z → Z) : Prop :=
  ∀ sz p a, lookup OFFSET LEV r v w = Some (sz, p, a) → sz < 2 ^ shift (S l).

Lemma lookup_leaf l e v w :
  w e ≠ 0 → (0 < l)%nat → super (Z.of_nat l) (w e) = true →
  lookup OFFSET l e v w = Some (leaf_result l (w e) v).
Proof.
  intros Hne Hl Hs. destruct l as [|l]; [lia|]. cbn [lookup].
  by rewrite (proj2 (Z.eqb_neq _ _)), Hs by done.
Qed.

(** An entry above the level that is in use refers to a table. *)
Lemma table_there T r w n l v e :
  tables (OFFSET := OFFSET) T r w → slot T r (S l) v = Some e → (n ≤ l)%nat → no_larger n r v w → w e ≠ 0 →
  ∃ t, T !! (l, pos (S l) v) = Some t ∧ w e = table_entry (S l) (virt_to_phys OFFSET t).
Proof.
  intros I He Hn Hmax Hne. pose proof (addr_level I _ _ _ He) as Hl.
  pose proof (t_slot _ _ _ I _ _ _ He) as Hok. cbn [slot_ok] in Hok.
  destruct (T !! (l, pos (S l) v)) as [t|]; [by exists t|exfalso].
  destruct Hok as [|Hs]; [done|].
  assert (lookup OFFSET LEV r v w = Some (leaf_result (S l) (w e) v)) as Hlk.
  { rewrite (slot_lookup I (LEV - S l) (S l) v e) by (lia || done). apply lookup_leaf; [done|lia|done]. }
  apply Hmax in Hlk. destruct (leaf_size (S l) (w e) Hl) as [Es Hge]. rewrite Es in Hlk.
  assert (2 ^ shift (S n) ≤ 2 ^ shift (S l)); [|lia].
  apply Z.pow_le_mono_r; [lia|]. unfold shift. lia.
Qed.

(** [walk] with allocation reaches the entry of level [n]. *)
Lemma walk_grow d T X r n l v e s m :
  (l = n + d)%nat → sound T X r s → slot T r l v = Some e → no_larger n r v (wds s) →
  room (d + m) (frs s) →
  ∃ e' T' s', walk OFFSET l e v n true s = Some (Some e', s') ∧ grown T X r s T' s' ∧
    slot T' r n v = Some e' ∧ room m (frs s') ∧
    ∃ k, 0 ≤ k ≤ Z.of_nat d ∧ charged k (qta s) (qta s').
Proof.
  revert T X l e s. induction d as [|d IH]; intros T X l e s -> Sd He Hmax Hroom.
  - exists e, T, s. replace (n + 0)%nat with n in * by lia. split_and!.
    + destruct n; cbn [walk]; by rewrite ?Nat.eqb_refl.
    + by apply tree_grown_refl.
    + done.
    + done.
    + exists 0. split; [lia|]. apply charged_0, Sd.
  - replace (n + S d)%nat with (S (n + d)) in * by lia. cbn [walk].
    rewrite (proj2 (Nat.eqb_neq (S (n + d)) n)) by lia. pose proof (addr_level (s_tables _ _ _ _ Sd) _ _ _ He) as Hl.
    destruct (Z.eqb_spec (wds s e) 0) as [H0|Hne]; cbn [negb].
    + assert (T !! ((n + d)%nat, pos (S (n + d)) v) = None) as Hnone.
      { pose proof (t_slot _ _ _ (s_tables _ _ _ _ Sd) _ _ _ He) as Hok. cbn [slot_ok] in Hok.
        destruct (T !! _) as [t|] eqn:Ht; [|done]. rewrite H0 in Hok. symmetry in Hok.
        apply entry_present in Hok; [done|lia|]. apply (t_page _ _ _ (s_tables _ _ _ _ Sd) _ _ Ht). }
      destruct (grow_spec T X r s (n + d) (pos (S (n + d)) v) e (d + m) Sd He H0 Hnone Hroom)
        as (t & s1 & -> & G1 & Hw1 & Hq1 & Hr1). cbn [mbind option_bind].
      set (T1 := <[((n + d)%nat, pos (S (n + d)) v) := t]> T) in *.
      assert (T1 !! ((n + d)%nat, pos (S (n + d)) v) = Some t) as Ht1 by apply lookup_insert_eq.
      pose proof (t_page _ _ _ (s_tables _ _ _ _ (g_sound _ _ _ _ _ _ G1)) _ _ Ht1) as Hp.
      rewrite Hw1, down_table by (done || lia).
      destruct (IH T1 (X ∪ tabs T1) (n + d)%nat (t + 8 * (pos (n + d) v mod 512)) s1)
        as (e' & T' & s' & -> & G & He' & Hr' & k & Hk & Hq); [done|apply G1|by apply slot_below|..|done|].
      { intros sz p a. rewrite (g_lookup _ _ _ _ _ _ G1). apply Hmax. }
      exists e', T', s'. split_and!; [done|by eapply tree_grown_trans|done..|].
      exists (1 + k). split; [lia|]. by eapply charged_trans.
    + destruct (table_there T r (wds s) n (n + d) v e (s_tables _ _ _ _ Sd) He) as (t & Ht & Hw); [lia|done..|].
      rewrite Hw, down_table by (lia || by eapply (t_page _ _ _ (s_tables _ _ _ _ Sd))).
      destruct (IH T X (n + d)%nat (t + 8 * (pos (n + d) v mod 512)) s)
        as (e' & T' & s' & -> & G & He' & Hr' & k & Hk & Hq); [done|done|by apply slot_below|done|..].
      { apply (room_le _ (S d + m)); [lia|done]. }
      exists e', T', s'. split_and!; [done..|]. exists k. split; [lia|done].
Qed.

(** Above an entry all entries are in use. *)
Lemma slot_up T r w l v e k :
  tables (OFFSET := OFFSET) T r w → slot T r l v = Some e → (l + S k ≤ LEV)%nat →
  ∃ e', slot T r (l + S k) v = Some e' ∧ w e' ≠ 0.
Proof.
  intros I He. induction k as [|k IH]; intros Hk.
  - destruct (slot_parent I l v e ltac:(lia) He) as (e' & t & He' & Ht & _ & Hw).
    replace (l + 1)%nat with (S l) by lia. exists e'. split; [done|]. rewrite Hw.
    apply entry_present; [lia|]. apply (t_page _ _ _ I _ _ Ht).
  - destruct (IH ltac:(lia)) as (e1 & He1 & _).
    destruct (slot_parent I (l + S k) v e1 ltac:(lia) He1) as (e' & t & He' & Ht & _ & Hw).
    replace (l + S (S k))%nat with (S (l + S k)) by lia. exists e'. split; [done|]. rewrite Hw.
    apply entry_present; [lia|]. apply (t_page _ _ _ I _ _ Ht).
Qed.

(** [walk] without allocation finds the entry, or nothing is mapped in the
    range of the table that would hold it. *)
Lemma walk_read d T r n l v e s :
  (l = n + d)%nat → tables (OFFSET := OFFSET) T r (wds s) → slot T r l v = Some e → no_larger n r v (wds s) →
  (∃ e', walk OFFSET l e v n false s = Some (Some e', s) ∧ slot T r n v = Some e') ∨
  (walk OFFSET l e v n false s = Some (None, s) ∧
    ∀ v', pos (S n) v' = pos (S n) v → lookup OFFSET LEV r v' (wds s) = None ∧
      ∀ l', (l' ≤ n)%nat → slot T r l' v' = None).
Proof.
  revert l e. induction d as [|d IH]; intros l e -> I He Hmax.
  - left. exists e. replace (n + 0)%nat with n in * by lia. split; [|done].
    destruct n; cbn [walk]; by rewrite ?Nat.eqb_refl.
  - replace (n + S d)%nat with (S (n + d)) in * by lia. cbn [walk].
    rewrite (proj2 (Nat.eqb_neq (S (n + d)) n)) by lia. pose proof (addr_level I _ _ _ He) as Hl.
    destruct (Z.eqb_spec (wds s e) 0) as [H0|Hne]; cbn [negb].
    + right. split; [done|]. intros v' Hv'.
      assert (pos (S (n + d)) v' = pos (S (n + d)) v) as Hp.
      { clear -Hv'. induction d as [|d IH]; [by rewrite Nat.add_0_r|].
        rewrite Nat.add_succ_r, !(pos_S (S (n + d))). by rewrite IH. }
      assert (slot T r (S (n + d)) v' = Some e) as He2 by (unfold slot; by rewrite Hp). split.
      * rewrite (slot_lookup I (LEV - S (n + d)) (S (n + d)) v' e) by (done || lia). cbn [lookup]. by rewrite H0.
      * intros l' Hl'. destruct (slot T r l' v') as [e1|] eqn:He1; [exfalso|done].
        destruct (slot_up T r (wds s) l' v' e1 (n + d - l') I He1) as (e2 & Hs2 & Hne); [lia|].
        replace (l' + S (n + d - l'))%nat with (S (n + d)) in Hs2 by lia. congruence.
    + destruct (table_there T r (wds s) n (n + d) v e I He) as (t & Ht & Hw); [lia|done..|].
      rewrite Hw, down_table by (lia || by eapply (t_page _ _ _ I)).
      apply IH; [done|done|by apply slot_below|done].
Qed.

(** ** Writing entries *)

(** The tables below the entry of level [l] at the position [y]. *)
Definition under (l : nat) (y : Z) (k : nat * Z) : Prop :=
  (k.1 < l)%nat ∧ k.2 / 512 ^ Z.of_nat (l - 1 - k.1) = y.

#[local] Instance under_dec l y k : Decision (under l y k).
Proof. unfold under. apply _. Defined.

Definition prune (l : nat) (y : Z) T : tree := filter (λ kt, ¬ under l y kt.1) T.

Lemma prune_lookup l y T k t : prune l y T !! k = Some t ↔ T !! k = Some t ∧ ¬ under l y k.
Proof. unfold prune. by rewrite map_lookup_filter_Some. Qed.

Lemma under_child l y l1 y1 : (S l1 < l)%nat → under l y (l1, y1) ↔ under l y (S l1, y1 / 512).
Proof.
  intros Hl. unfold under. cbn [fst snd].
  replace (l - 1 - l1)%nat with (S (l - 1 - S l1)) by lia.
  rewrite Nat2Z.inj_succ, Z.pow_succ_r, <-Z.div_div by lia. intuition lia.
Qed.

Lemma under_here l y y1 : under (S l) y (l, y1) ↔ y1 = y.
Proof.
  unfold under. cbn [fst snd]. replace (S l - 1 - l)%nat with 0%nat by lia.
  change (512 ^ Z.of_nat 0) with 1. rewrite Z.div_1_r. intuition lia.
Qed.

Lemma prune_addr l y T r l1 y1 a :
  addr (prune l y T) r l1 y1 = Some a ↔ addr T r l1 y1 = Some a ∧ (l1 = LEV ∨ ¬ under l y (l1, y1 / 512)).
Proof.
  unfold addr. destruct (Nat.eqb_spec l1 LEV) as [->|Hl]; [split; [auto|by intros [? _]]|].
  split.
  - intros (t & Ht & [= <-])%bind_Some. apply prune_lookup in Ht as [-> Hn]. auto.
  - intros [(t & Ht & [= <-])%bind_Some [|Hn]]; [done|].
    by rewrite (proj2 (prune_lookup l y T (l1, y1 / 512) t) (conj Ht Hn)).
Qed.

Section write.
Context {T : tree} {r : Z} {w : Z → Z} {l : nat} {y e x : Z}.
Hypothesis I : tables (OFFSET := OFFSET) T r w.
Hypothesis He : addr T r l y = Some e.
Hypothesis Hl : l ≠ LEV.
Hypothesis Hx : l = 0%nat ∨ x = 0 ∨ super (Z.of_nat l) x = true.

Lemma write_tables : tables (OFFSET := OFFSET) (prune l y T) r (<[e := x]> w).
Proof.
  split.
  - intros k t [Hk _]%prune_lookup. by eapply t_page.
  - intros k k' t [Hk _]%prune_lookup [Hk' _]%prune_lookup. by eapply t_inj.
  - intros k t [Hk _]%prune_lookup. by eapply t_out.
  - intros l1 y1 t [Hk Hn]%prune_lookup. destruct (t_level _ _ _ I _ _ _ Hk) as [Hl1 [a Ha]].
    split; [done|]. exists a. apply prune_addr. split; [done|]. right. intros Hu. apply Hn.
    apply under_child; [|done]. by destruct Hu.
  - intros l1 y1 a [Ha Hna]%prune_addr. destruct (decide (a = e)) as [->|Hae].
    + destruct (addr_inj I _ _ _ _ _ He Ha) as [<- <-]. rewrite fn_lookup_insert.
      destruct l as [|l']; [done|]. cbn [slot_ok]. destruct Hx as [|Hx']; [done|].
      destruct (prune (S l') y T !! (l', y)) as [t|] eqn:Ht; [exfalso|done].
      apply prune_lookup in Ht as [_ Hu]. by apply Hu, under_here.
    + rewrite fn_lookup_insert_ne by done. pose proof (t_slot _ _ _ I _ _ _ Ha) as Hok.
      destruct l1 as [|l1]; [done|]. cbn [slot_ok] in *.
      assert (prune l y T !! (l1, y1) = T !! (l1, y1)) as ->; [|done].
      unfold prune. rewrite map_lookup_filter. destruct (T !! (l1, y1)) as [t|] eqn:Ht; [|done]. cbn [mbind option_bind].
      rewrite option_guard_True; [done|]. intros Hu.
      destruct (decide (S l1 = l)) as [<-|].
      * apply under_here in Hu as ->. rewrite He in Ha. by injection Ha as ->.
      * pose proof (proj1 Hu) as Hlt. cbn [fst] in Hlt. pose proof (addr_level I _ _ _ He).
        destruct Hna as [Hlev|Hna]; [lia|].
        apply Hna, (proj1 (under_child l y l1 y1 ltac:(lia)) Hu).
Qed.

Lemma write_lookup v :
  lookup OFFSET LEV r v (<[e := x]> w) =
  if decide (pos l v = y) then if x =? 0 then None else Some (leaf_result l x v)
  else lookup OFFSET LEV r v w.
Proof.
  pose proof (addr_level I _ _ _ He) as Hle. case_decide as Hv.
  - assert (slot (prune l y T) r l v = Some e) as Hs.
    { apply prune_addr. rewrite Hv. split; [done|]. right. intros [Hu _]. cbn in Hu. lia. }
    rewrite (slot_lookup write_tables (LEV - l) l v e) by (lia || done).
    destruct (Z.eqb_spec x 0) as [H0|Hne].
    + destruct l; cbn [lookup]; by rewrite fn_lookup_insert, H0.
    + destruct (decide (l = 0%nat)) as [H0|].
      * rewrite H0. cbn [lookup]. by rewrite fn_lookup_insert, (proj2 (Z.eqb_neq _ _)).
      * assert (super (Z.of_nat l) x = true) by (by destruct Hx as [|[|]]).
        by rewrite lookup_leaf, fn_lookup_insert by (rewrite ?fn_lookup_insert; done || lia).
  - apply (lookup_frame I). intros l1 e1 He1. apply fn_lookup_insert_ne. intros <-. apply Hv.
    by destruct (addr_inj I _ _ _ _ _ He He1) as [<- <-].
Qed.
End write.

(** The table that [update] frees as it overwrites the entry of level [l] at [y]. *)
Definition freed1 (t : Pte_Type) T (l : nat) (y : Z) : gset Z :=
  match t, l with
  | TYPE_DF, _ | _, O => ∅
  | _, S l' => if T !! (l', y) is Some p then {[p]} else ∅
  end.

Lemma elem_of_freed1 t T l y p : p ∈ freed1 t T l y ↔ t ≠ TYPE_DF ∧ ∃ l', l = S l' ∧ T !! (l', y) = Some p.
Proof.
  split.
  - destruct t, l as [|l']; cbn; try (by intros ?%elem_of_empty);
      (destruct (T !! (l', y)) as [p'|] eqn:Hp; [intros ->%elem_of_singleton; eauto|by intros ?%elem_of_empty]).
  - intros (Ht & l' & -> & Hp). destruct t; cbn; rewrite ?Hp; try done; by apply elem_of_singleton.
Qed.

Lemma retire_spec T X r s l y e t p fl :
  sound T X r s → addr T r l y = Some e → l ≠ LEV → wds s e ≠ 0 →
  (l = 0%nat ∨ p = 0 ∨ super (Z.of_nat l) p = true) →
  ∃ s', retire OFFSET l t (wds s e) p fl s = Some (fl || ((0 <? l)%nat && negb (wds s e =? p)), s') ∧
    wds s' = wds s ∧ owns (frs s') (X ∖ freed1 t T l y) ∧ word 64 (used (qta s')) ∧
    ∀ n, room n (frs s) → room n (frs s').
Proof.
  intros [I HO HT HR HU] He Hl Hne Hp.
  assert (∀ X', X' = ∅ → owns (frs s) (X ∖ X')) as Hno by (intros X' ->; by rewrite difference_empty_L).
  destruct (decide (t = TYPE_DF)) as [->|Ht].
  { exists s. split_and!; auto. }
  pose proof (t_slot _ _ _ I _ _ _ He) as Hok.
  destruct l as [|l]; [exists s; destruct t; split_and!; auto|].
  cbn [slot_ok] in Hok. assert (freed1 t T (S l) y = if T !! (l, y) is Some p then {[p]} else ∅) as -> by (by destruct t).
  assert ((0 <? S l)%nat = true) as Hlt by done. unfold retire. rewrite Hlt.
  destruct (T !! (l, y)) as [t1|] eqn:Ht1.
  - pose proof (t_page _ _ _ I _ _ Ht1) as Hpage. destruct (t_level _ _ _ I _ _ _ Ht1) as [Hlev _].
    assert (super (Z.of_nat (S l)) (wds s e) = false) as Hsup by (rewrite Hok; apply entry_super; [lia|apply Hpage]).
    assert (wds s e ≠ p) as Hnp.
    { intros <-. destruct Hp as [|[|Hs]]; [done|done|]. by rewrite Hsup in Hs. }
    rewrite Hsup, (proj2 (Z.eqb_neq _ _) Hnp). cbn [negb andb]. rewrite orb_true_r.
    rewrite Hok, entry_addr by (lia || apply Hpage). rewrite virt_phys by (by eapply page_word).
    destruct (owns_free (frs s) X t1 (qta s) HO) as (f & Hf & HO' & Hroom).
    { apply HT, elem_of_tabs. eauto. }
    exists (State (wds s) (Quota.free (qta s) 1) f). split_and!; [|done|done| |done].
    + destruct t; [..|done]; unfold destroy; by rewrite Hf.
    + unfold Quota.free. destruct (_ <=? _); [apply wsub_word|done].
  - destruct Hok as [|Hsup]; [done|]. rewrite Hsup. cbn [negb andb].
    exists s. split_and!; auto. by destruct t.
Qed.

(** One turn of the loop of [fill]. *)
Lemma fill_step T X r s s1 l y e t x :
  sound T X r s → addr T r l y = Some e → l ≠ LEV → (l = 0%nat ∨ x = 0 ∨ super (Z.of_nat l) x = true) →
  wds s1 = wds s → owns (frs s1) (X ∖ freed1 t T l y) → word 64 (used (qta s1)) →
  sound (prune l y T) (X ∖ freed1 t T l y) r (set_wds (<[e := x]> (wds s1)) s1).
Proof.
  intros [I HO HT HR HU] He Hl Hx Hw HO' HU'. rewrite Hw. split; [by apply write_tables|done| | |done].
  - intros p [k [Hk Hu]%prune_lookup]%elem_of_tabs. apply elem_of_difference. split.
    + apply HT, elem_of_tabs. eauto.
    + intros (_ & l' & -> & Hp)%elem_of_freed1. pose proof (t_inj _ _ _ I _ _ _ Hk Hp) as ->.
      by apply Hu, under_here.
  - destruct HR as [|(q & Hq & Hqr)]; [by left|right]. exists q. split; [|done]. apply elem_of_difference.
    split; [done|]. intros (_ & l' & _ & Hp)%elem_of_freed1. by apply (t_out _ _ _ I _ _ Hp).
Qed.

(** The tree and the freed pages after [n] entries. *)
Fixpoint prunes (n l : nat) (y : Z) T : tree :=
  match n with O => T | S n => prunes n l (y + 1) (prune l y T) end.
Fixpoint freed (t : Pte_Type) T (n l : nat) (y : Z) : gset Z :=
  match n with O => ∅ | S n => freed1 t T l y ∪ freed t T n l (y + 1) end.

Lemma freed1_prune t T l y y' : y ≠ y' → freed1 t (prune l y T) l y' = freed1 t T l y'.
Proof.
  intros Hy. apply set_eq. intros p. rewrite !elem_of_freed1. split.
  - intros (? & l' & -> & [? _]%prune_lookup). eauto.
  - intros (? & l' & -> & Hp). split; [done|]. exists l'. split; [done|]. apply prune_lookup. split; [done|].
    intros ?%under_here. congruence.
Qed.

Lemma freed_prune t T n l y y' : y < y' → freed t (prune l y T) n l y' = freed t T n l y'.
Proof.
  revert y'. induction n as [|n IH]; intros y' Hy; [done|]. cbn [freed].
  rewrite freed1_prune, IH by lia. done.
Qed.

(** Some of the [n] entries at [e] are present and not what is written. *)
Definition stale (l n : nat) (e : Z) (f : nat → Z) (w : Z → Z) : Prop :=
  (0 < l)%nat ∧ ∃ i, (i < n)%nat ∧ w (e + 8 * Z.of_nat i) ≠ 0 ∧ w (e + 8 * Z.of_nat i) ≠ f i.

Definition entries T (r : Z) (l n : nat) (y e : Z) : Prop :=
  ∀ i, (i < n)%nat → addr T r l (y + Z.of_nat i) = Some (e + 8 * Z.of_nat i).

Record filled t T X (r : Z) s (l n : nat) (y e : Z) (f : nat → Z) fl fl' s' : Prop := {
  f_sound : sound (prunes n l y T) (X ∖ freed t T n l y) r s';
  f_in v i : (i < n)%nat → pos l v = y + Z.of_nat i →
    lookup OFFSET LEV r v (wds s') = if f i =? 0 then None else Some (leaf_result l (f i) v);
  f_out v : ¬ y ≤ pos l v < y + Z.of_nat n →
    lookup OFFSET LEV r v (wds s') = lookup OFFSET LEV r v (wds s);
  f_rest a : (∀ i, (i < n)%nat → a ≠ e + 8 * Z.of_nat i) → wds s' a = wds s a;
  f_flush : fl' = true ↔ fl = true ∨ stale l n e f (wds s);
  f_room m : room m (frs s) → room m (frs s');
}.

Lemma entries_next T r w l n y e :
  tables (OFFSET := OFFSET) T r w → l ≠ LEV → entries T r l (S n) y e →
  entries (prune l y T) r l n (y + 1) (entry e 1).
Proof.
  intros I Hl He i Hi. apply prune_addr. split; [|right; intros [Hu _]; cbn in Hu; lia].
  pose proof (He (S i) ltac:(lia)) as Hi1. pose proof (He 1%nat ltac:(lia)) as H1.
  assert (entry e 1 = e + 8) as ->.
  { apply addr_cases in H1 as [(? & _)|(_ & t & Ht & Heq)]; [done|].
    pose proof (t_page _ _ _ I _ _ Ht) as (Hp0 & _ & Hmax & _).
    pose proof (Z.mod_pos_bound (y + Z.of_nat 1) 512 ltac:(done)).
    pose proof (He 0%nat ltac:(lia)) as H0.
    apply addr_cases in H0 as [(? & _)|(_ & t0 & Ht0 & Heq0)]; [done|].
    pose proof (t_page _ _ _ I _ _ Ht0) as (Hp00 & _).
    pose proof (Z.mod_pos_bound (y + Z.of_nat 0) 512 ltac:(done)).
    apply wadd_small. unfold PAGE_SIZE, PAGE_BITS in *. lia. }
  replace (y + 1 + Z.of_nat i) with (y + Z.of_nat (S i)) by lia.
  replace (e + 8 + 8 * Z.of_nat i) with (e + 8 * Z.of_nat (S i)) by lia. done.
Qed.

Lemma stale_step l n e f w w' x :
  w' = <[e := x]> w → (∀ i, (i < n)%nat → entry e 1 + 8 * Z.of_nat i = e + 8 * Z.of_nat (S i)) →
  stale l (S n) e f w ↔ ((0 < l)%nat ∧ w e ≠ 0 ∧ w e ≠ f 0%nat) ∨ stale l n (entry e 1) (f ∘ S) w'.
Proof.
  intros -> He. unfold stale. cbn [compose]. split.
  - intros (Hl & i & Hi & H1 & H2). destruct i as [|i].
    + left. change (8 * Z.of_nat 0) with 0 in *. rewrite Z.add_0_r in *. auto.
    + right. split; [done|]. exists i. split; [lia|]. rewrite He by lia.
      rewrite fn_lookup_insert_ne by lia. auto.
  - intros [(Hl & H1 & H2)|(Hl & i & Hi & H1 & H2)]; (split; [done|]).
    + exists 0%nat. change (8 * Z.of_nat 0) with 0. rewrite Z.add_0_r. split; [lia|auto].
    + exists (S i). rewrite He in * by lia. rewrite fn_lookup_insert_ne in H1, H2 by lia. split; [lia|auto].
Qed.

Lemma fill_spec n t T X r s l y e f st fl :
  sound T X r s → l ≠ LEV → entries T r l n y e →
  (∀ i, (i < n)%nat → l = 0%nat ∨ f i = 0 ∨ super (Z.of_nat l) (f i) = true) →
  (∀ i, (S i < n)%nat → (f i + st)%W = f (S i)) →
  ∃ fl' s', fill OFFSET n l t e (f 0%nat) st fl s = Some (fl', s') ∧ filled t T X r s l n y e f fl fl' s'.
Proof.
  revert T X s y e f fl. induction n as [|n IH]; intros T X s y e f fl HS Hl He Hf Hst.
  - exists fl, s. split; [done|]. split; cbn [prunes freed]; try done.
    + by rewrite difference_empty_L.
    + lia.
    + split; [auto|]. by intros [|(_ & i & Hi & _)]; [|lia].
  - pose proof (s_tables _ _ _ _ HS) as I. pose proof (He 0%nat ltac:(lia)) as He0.
    change (8 * Z.of_nat 0) with 0 in He0. change (Z.of_nat 0) with 0 in He0. rewrite !Z.add_0_r in He0.
    pose proof (entries_next _ _ _ _ _ _ _ I Hl He) as Hen.
    set (fl1 := if wds s e =? 0 then fl else fl || ((0 <? l)%nat && negb (wds s e =? f 0%nat))).
    assert (∃ s1, (if wds s e =? 0 then Some (fl, s) else retire OFFSET l t (wds s e) (f 0%nat) fl s) = Some (fl1, s1) ∧
      wds s1 = wds s ∧ owns (frs s1) (X ∖ freed1 t T l y) ∧ word 64 (used (qta s1)) ∧
      (∀ m, room m (frs s) → room m (frs s1))) as (s1 & Hr & Hw1 & HO1 & HU1 & Hroom1).
    { subst fl1. destruct (Z.eqb_spec (wds s e) 0) as [H0|Hne].
      - exists s. split_and!; [done..| |apply HS|done].
        assert (freed1 t T l y = ∅) as ->; [|rewrite difference_empty_L; apply HS].
        apply elem_of_equiv_empty_L. intros p (_ & l' & -> & Hp)%elem_of_freed1.
        pose proof (t_slot _ _ _ I _ _ _ He0) as Hok. cbn [slot_ok] in Hok. rewrite Hp, H0 in Hok.
        pose proof (t_level _ _ _ I _ _ _ Hp) as [? _]. pose proof (t_page _ _ _ I _ _ Hp) as Hpg.
        symmetry in Hok. apply entry_present in Hok; [done|lia|apply Hpg].
      - apply (retire_spec T X r s l y); [done..|]. apply Hf. lia. }
    cbn [fill]. rewrite Hr. cbn [mbind option_bind].
    pose proof (fill_step T X r s s1 l y e t (f 0%nat) HS He0 Hl (Hf 0%nat ltac:(lia)) Hw1 HO1 HU1) as HS1.
    set (s2 := set_wds (<[e := f 0%nat]> (wds s1)) s1) in *.
    assert (∃ fl' s', fill OFFSET n l t (entry e 1) (f 0%nat + st)%W st fl1 s2 = Some (fl', s') ∧
      filled t (prune l y T) (X ∖ freed1 t T l y) r s2 l n (y + 1) (entry e 1) (f ∘ S) fl1 fl' s') as (fl' & s' & Hfill & HF).
    { assert (fill OFFSET n l t (entry e 1) (f 0%nat + st)%W st fl1 s2 =
        fill OFFSET n l t (entry e 1) ((f ∘ S) 0%nat) st fl1 s2) as ->.
      { destruct n; [done|]. by rewrite (Hst 0%nat) by lia. }
      apply (IH _ _ _ _ _ (f ∘ S)); [done..| |]; intros i Hi; [apply Hf|apply Hst]; lia. }
    exists fl', s'. split; [done|]. destruct HF as [F1 F2 F3 F4 F5 F6].
    assert (∀ i, (i < n)%nat → entry e 1 + 8 * Z.of_nat i = e + 8 * Z.of_nat (S i)) as Hei.
    { intros i Hi. pose proof (Hen i Hi) as [Ha _]%prune_addr. pose proof (He (S i) ltac:(lia)) as Ha'.
      replace (y + Z.of_nat (S i)) with (y + 1 + Z.of_nat i) in Ha' by lia. congruence. }
    assert (∀ v, lookup OFFSET LEV r v (wds s2) = if decide (pos l v = y) then
      if f 0%nat =? 0 then None else Some (leaf_result l (f 0%nat) v) else lookup OFFSET LEV r v (wds s)) as Hlk.
    { intros v. cbn [s2 set_wds wds]. rewrite Hw1. apply (write_lookup I He0 Hl). apply Hf. lia. }
    assert (∀ a, a ≠ e → wds s2 a = wds s a) as Hw2.
    { intros a Ha. cbn [s2 set_wds wds]. rewrite Hw1. by apply fn_lookup_insert_ne. }
    split.
    + cbn [prunes freed]. rewrite freed_prune, difference_difference_l_L in F1 by lia. done.
    + intros v [|i] Hi Hv.
      * rewrite F3, Hlk by lia. by rewrite decide_True by lia.
      * apply (F2 v i); lia.
    + intros v Hv. rewrite F3, Hlk by lia. by rewrite decide_False by lia.
    + intros a Ha. rewrite F4; [|intros i Hi; rewrite Hei by done; apply Ha; lia].
      apply Hw2. specialize (Ha 0%nat ltac:(lia)). by rewrite Z.add_0_r in Ha.
    + rewrite F5, (stale_step l n e f (wds s) (wds s2) (f 0%nat)) by (done || (cbn [s2 set_wds wds]; by rewrite Hw1)).
      assert (fl1 = true ↔ fl = true ∨ ((0 < l)%nat ∧ wds s e ≠ 0 ∧ wds s e ≠ f 0%nat)) as ->; [|tauto].
      subst fl1. destruct (Z.eqb_spec (wds s e) 0); [tauto|].
      rewrite orb_true_iff, andb_true_iff, negb_true_iff, Z.eqb_neq, Nat.ltb_lt. tauto.
    + intros m Hm. by apply F6, Hroom1.
Qed.
End sound.
