(* ===== verification/PteUpdate.v ===== *)
(** [Pte::update] and [Pte::lookup] as operations on a map from addresses to
    translations. *)
From S2P Require Import Prelude Bits Bitmap Quota Queue Buddy Pte PteKinds PteMap PteSound.
Local Open Scope Z_scope.

(** The region of [2^o] pages at [v]; all addresses are taken modulo [2^48],
    the range of four levels. *)
Definition covers (v o q : Z) : Prop := in_block (v mod 2 ^ 48) (o + PAGE_BITS) (q mod 2 ^ 48).

#[export] Instance covers_dec v o q : Decision (covers v o q).
Proof. unfold covers, in_block. apply _. Defined.

(** The distance of [q] from [v]. *)
Definition offset (v q : Z) : Z := q mod 2 ^ 48 - v mod 2 ^ 48.

(** What [update] requires of a region and the frames it maps. *)
Record region (v o p : Z) : Prop := {
  r_order : 0 ≤ o < 36;
  r_virt : v mod 2 ^ (o + PAGE_BITS) = 0;
  r_phys : p mod 2 ^ (o + PAGE_BITS) = 0;
  r_range : 0 ≤ p ∧ p + 2 ^ (o + PAGE_BITS) ≤ 2 ^ 52;
}.

Section arith.
Context {v o p : Z}.
Hypothesis R : region v o p.
Let l := Z.to_nat (o / BPL).
Let m := o mod BPL.

Lemma region_level : (l < LEV)%nat ∧ 0 ≤ m < 9 ∧ o + PAGE_BITS = shift l + m.
Proof.
  destruct R as [Ho _ _ _]. subst l m. unfold BPL, PAGE_BITS, shift, LEV.
  pose proof (Z.div_mod o 9). pose proof (Z.mod_pos_bound o 9).
  assert (0 ≤ o / 9 < 4) by (split; [apply Z.div_pos|apply Z.div_lt_upper_bound]; lia). lia.
Qed.

Lemma region_entries : Z.to_nat (1 << m)%W = Z.to_nat (2 ^ m).
Proof. destruct region_level as (_ & Hm & _). by rewrite wshl_1 by lia. Qed.

Lemma pow_region : 2 ^ (o + PAGE_BITS) = 2 ^ shift l * 2 ^ m.
Proof. destruct region_level as (_ & Hm & ->). apply Z.pow_add_r; [apply shift_pos|lia]. Qed.

Lemma low_aligned k x : 0 ≤ k ≤ 48 → x mod 2 ^ k = 0 → (x mod 2 ^ 48) mod 2 ^ k = 0.
Proof.
  intros Hk Hx. rewrite mod_pow2_bits0 in * by lia. intros i Hi.
  rewrite Z.mod_pow2_bits_low by lia. by apply Hx.
Qed.

Lemma region_top : o + PAGE_BITS ≤ 48.
Proof. destruct R as [Ho _ _ _]. unfold PAGE_BITS. lia. Qed.

(** The position of the region is a multiple of the number of its entries. *)
Lemma region_pos : pos l v * 2 ^ shift l = v mod 2 ^ 48 ∧ pos l v mod 2 ^ m = 0.
Proof.
  destruct region_level as (Hl & Hm & Ho). pose proof (shift_pos l) as Hs.
  pose proof (pow2_pos (shift l) Hs). pose proof (pow2_pos m ltac:(lia)).
  pose proof (low_aligned (o + PAGE_BITS) v) as Hal. specialize (Hal ltac:(pose proof region_top; lia) (r_virt _ _ _ R)).
  rewrite pow_region in Hal. unfold pos. set (x := v mod 2 ^ 48) in *.
  apply Z.mod_divide in Hal as [c Hc]; [|lia].
  assert (x / 2 ^ shift l = c * 2 ^ m) as ->.
  { rewrite Hc. replace (c * (2 ^ shift l * 2 ^ m)) with (c * 2 ^ m * 2 ^ shift l) by lia. apply Z.div_mul. lia. }
  split; [lia|]. apply Z.mod_mul. lia.
Qed.

Lemma covers_pos q : covers v o q ↔ pos l v ≤ pos l q < pos l v + 2 ^ m.
Proof.
  destruct region_level as (Hl & Hm & Ho). pose proof (shift_pos l) as Hs.
  pose proof (pow2_pos (shift l) Hs). pose proof (pow2_pos m ltac:(lia)).
  destruct region_pos as [Hv _]. unfold covers, in_block. rewrite pow_region, <-Hv.
  change (pos l q) with ((q mod 2 ^ 48) / 2 ^ shift l). set (x := q mod 2 ^ 48).
  pose proof (Z.div_mod x (2 ^ shift l) ltac:(lia)) as Hd. pose proof (Z.mod_pos_bound x (2 ^ shift l) ltac:(lia)) as Hmd.
  set (w := 2 ^ shift l) in *. set (a := x / w) in *. set (y := pos l v) in *. set (n := 2 ^ m) in *. set (b := x mod w) in *.
  clearbody x w a y n b. split; intros [H1 H2]; split.
  - apply Z.lt_succ_r, (Z.mul_lt_mono_pos_r w); lia.
  - apply (Z.mul_lt_mono_pos_r w); lia.
  - assert (y * w ≤ a * w) by (apply Z.mul_le_mono_nonneg_r; lia). lia.
  - assert ((a + 1) * w ≤ (y + n) * w) by (apply Z.mul_le_mono_nonneg_r; lia). lia.
Qed.

Lemma covers_table q : covers v o q → pos (S l) q = pos (S l) v.
Proof.
  rewrite covers_pos. intros Hq. rewrite !pos_S. destruct region_level as (Hl & Hm & Ho).
  destruct region_pos as [_ Hal]. pose proof (pow2_pos m ltac:(lia)).
  assert (512 = 2 ^ (9 - m) * 2 ^ m) as E by (rewrite <-Z.pow_add_r by lia; by replace (9 - m + m) with 9 by lia).
  pose proof (pow2_pos (9 - m) ltac:(lia)).
  rewrite E, (Z.mul_comm (2 ^ (9 - m))), <-!Z.div_div by lia. f_equal.
  apply Z.mod_divide in Hal as [c Hc]; [|lia]. rewrite Hc, Z.div_mul by lia.
  symmetry. apply (Z.div_unique _ _ c (pos l q - c * 2 ^ m)); lia.
Qed.

(** The entries of the region lie side by side in one table. *)
Lemma region_slots T r e :
  slot T r l v = Some e → entries T r l (Z.to_nat (2 ^ m)) (pos l v) e.
Proof.
  destruct region_level as (Hl & Hm & Ho). destruct region_pos as [_ Hal]. pose proof (pow2_pos m ltac:(lia)).
  intros [(? & _)|(_ & t & Ht & ->)]%addr_cases i Hi; [lia|].
  assert (512 = 2 ^ (9 - m) * 2 ^ m) as E by (rewrite <-Z.pow_add_r by lia; by replace (9 - m + m) with 9 by lia).
  set (y := pos l v) in *. pose proof (Z.div_mod y 512 ltac:(lia)). pose proof (Z.mod_pos_bound y 512 ltac:(lia)).
  assert (y mod 512 + Z.of_nat i < 512) as Hlt.
  { apply Z.mod_divide in Hal as [c Hc]; [|lia]. pose proof (pow2_pos (9 - m) ltac:(lia)).
    assert (∃ d, y mod 512 = d * 2 ^ m) as [d Hd].
    { exists (c - y / 512 * 2 ^ (9 - m)). rewrite Z.mul_sub_distr_r, <-Hc, <-Z.mul_assoc, <-E. lia. }
    assert (d < 2 ^ (9 - m)) by (apply (Z.mul_lt_mono_pos_r (2 ^ m)); [done|]; rewrite <-Hd, <-E; lia).
    assert ((d + 1) * 2 ^ m ≤ 512) by (rewrite E; apply Z.mul_le_mono_nonneg_r; lia). lia. }
  assert ((y + Z.of_nat i) / 512 = y / 512 ∧ (y + Z.of_nat i) mod 512 = y mod 512 + Z.of_nat i) as [Hd Hmd].
  { split; symmetry; [apply (Z.div_unique _ _ _ (y mod 512 + Z.of_nat i))|apply (Z.mod_unique _ _ (y / 512))]; lia. }
  rewrite (addr_below T r l _ t); [|lia|by rewrite Hd]. f_equal. lia.
Qed.

(** Entry [i] maps the frames from [p + i * 2^shift l]. *)
Definition frame_at (i : nat) : Z := p + Z.of_nat i * 2 ^ shift l.

Lemma frame_at_ok i : (i < Z.to_nat (2 ^ m))%nat → 0 ≤ frame_at i < 2 ^ 52 ∧ frame_at i mod PAGE_SIZE = 0.
Proof.
  intros Hi. destruct region_level as (Hl & Hm & Ho). destruct R as [_ _ Hp [Hp0 Hp1]].
  pose proof (shift_pos l) as Hs. pose proof (pow2_pos (shift l) Hs).
  rewrite pow_region in Hp1. unfold frame_at. split; [nia|].
  assert (PAGE_SIZE ≠ 0) as Hps by done. rewrite Z.add_mod by done.
  assert (∀ x k, PAGE_BITS ≤ k → x mod 2 ^ k = 0 → x mod PAGE_SIZE = 0) as Hdown.
  { intros x k Hk Hx. unfold PAGE_SIZE, PAGE_BITS in *. rewrite mod_pow2_bits0 in * by lia.
    intros j Hj. apply Hx. lia. }
  rewrite (Hdown p (o + PAGE_BITS)), (Hdown (Z.of_nat i * 2 ^ shift l) (shift l)); [done| | | |done].
  - unfold PAGE_BITS, shift. lia.
  - apply Z.mod_mul. lia.
  - rewrite Ho. unfold shift, PAGE_BITS. lia.
Qed.
End arith.

(** The frame of an entry and the offset in it make up the address. *)
Lemma lor_parts x k j : 0 ≤ k ≤ j → Z.lor (x - x mod 2 ^ k) (x mod 2 ^ j) = x.
Proof.
  intros Hk. pose proof (pow2_pos k ltac:(lia)).
  replace (x - x mod 2 ^ k) with (x / 2 ^ k * 2 ^ k) by (pose proof (Z.div_mod x (2 ^ k)); lia).
  apply Z.bits_inj'. intros i Hi. rewrite Z.lor_spec.
  destruct (Z.lt_ge_cases i k).
  - rewrite Z.mul_pow2_bits_low, Z.mod_pow2_bits_low by lia. done.
  - rewrite Z.mul_pow2_bits, Z.div_pow2_bits by lia. replace (i - k + k) with i by lia.
    destruct (Z.lt_ge_cases i j); [rewrite Z.mod_pow2_bits_low by lia; by rewrite orb_diag|].
    by rewrite Z.mod_pow2_bits_high, orb_false_r by lia.
Qed.

Lemma mod_down a k j : 0 ≤ k ≤ j → (a mod 2 ^ j) mod 2 ^ k = a mod 2 ^ k.
Proof.
  intros Hk. apply Z.bits_inj'. intros i Hi. destruct (Z.lt_ge_cases i k).
  - by rewrite !Z.mod_pow2_bits_low by lia.
  - by rewrite !(Z.mod_pow2_bits_high _ k) by lia.
Qed.

Section leaves.
Context {K : PteKind} {L : PteLaws K} {v o p : Z}.
Hypothesis R : region v o p.
Let l := Z.to_nat (o / BPL).
Let m := o mod BPL.

(** What a region maps an address to. *)
Definition mapping (a q : Z) : option (Z * Z * Z) :=
  if truthy a then Some (2 ^ (shift l + span m), p + offset v q, attr (leaf l m 0 a)) else None.

Definition leaf_at (a : Z) (i : nat) : Z :=
  if truthy a then leaf l m (frame_at (o := o) (p := p) i) a else 0.

Lemma offset_mod q k : 0 ≤ k ≤ o + PAGE_BITS → (p + offset v q) mod 2 ^ k = q mod 2 ^ k.
Proof.
  intros Hk. pose proof (region_top R). destruct R as [_ Hv Hp _].
  assert (v mod 2 ^ k = 0 ∧ p mod 2 ^ k = 0) as [Hv' Hp'].
  { by rewrite <-(mod_down v k (o + PAGE_BITS)), Hv, <-(mod_down p k (o + PAGE_BITS)), Hp by done. }
  assert ((v mod 2 ^ 48) mod 2 ^ k = 0) as Hv48 by (rewrite mod_down by lia; done).
  unfold offset. rewrite <-(mod_down q k 48) by lia.
  rewrite Z.add_mod, Zminus_mod, Hp', Hv48, Z.sub_0_r, Z.add_0_l by (pose proof (pow2_pos k); lia).
  by rewrite !Z.mod_mod by (pose proof (pow2_pos k); lia).
Qed.

Lemma frame_offset q :
  covers v o q → 
  frame_at (o := o) (p := p) (Z.to_nat (pos l q - pos l v)) =
  p + offset v q - (p + offset v q) mod 2 ^ shift l.
Proof.
  intros Hq%(covers_pos R). destruct (region_level R) as (Hl & Hm & Ho). fold l m in Hl, Hm, Ho.
  pose proof (shift_pos l) as Hs.
  rewrite offset_mod by lia. destruct (region_pos R) as [Hv _]. fold l in Hv, Hq.
  unfold frame_at, offset. fold l. rewrite Z2Nat.id, <-Hv by lia.
  change (pos l q) with ((q mod 2 ^ 48) / 2 ^ shift l).
  rewrite <-(mod_down q (shift l) 48) by (pose proof (region_top R); unfold PAGE_BITS in *; lia).
  pose proof (Z.div_mod (q mod 2 ^ 48) (2 ^ shift l)). pose proof (pow2_pos (shift l) Hs). lia.
Qed.

Lemma leaf_translate a q :
  good_attr a → covers v o q →
  (if leaf_at a (Z.to_nat (pos l q - pos l v)) =? 0 then None
   else Some (leaf_result l (leaf_at a (Z.to_nat (pos l q - pos l v))) q)) = mapping a q.
Proof.
  intros Ha Hq. unfold leaf_at, mapping. destruct (truthy a) eqn:Ht; [|done].
  destruct (region_level R) as (Hl & Hm & Ho). fold l m in Hl, Hm, Ho.
  pose proof (proj1 (covers_pos R q) Hq) as Hp. fold l m in Hp.
  destruct (frame_at_ok R (Z.to_nat (pos l q - pos l v))) as [Hf0 Hf1]; [fold m; lia|].
  rewrite (proj2 (Z.eqb_neq _ _)) by (apply leaf_present; [lia|done|done]).
  f_equal. unfold leaf_result. rewrite leaf_order, leaf_addr, (leaf_attr _ _ (frame_at _)) by (done || unfold BPL; lia).
  pose proof (span_le m ltac:(unfold BPL; lia)) as Hsp. pose proof (shift_pos l).
  replace (Z.of_nat l * BPL + (PAGE_BITS + span m)) with (shift l + span m) by (unfold shift, BPL, PAGE_BITS; lia).
  rewrite wshl_1 by (unfold shift, LEV in *; lia). do 2 f_equal.
  assert (0 < 2 ^ (shift l + span m) < 2 ^ 64).
  { split; [apply pow2_pos; lia|apply Z.pow_lt_mono_r; unfold shift, LEV in *; lia]. }
  rewrite (wsub_small _ 1), <-ones_pow2, Z.land_ones by lia.
  rewrite frame_offset by done. rewrite <-(offset_mod q (shift l + span m)) by lia.
  apply lor_parts. lia.
Qed.

Lemma leaf_at_ok a i :
  good_attr a → (i < Z.to_nat (2 ^ m))%nat → l = 0%nat ∨ leaf_at a i = 0 ∨ super (Z.of_nat l) (leaf_at a i) = true.
Proof.
  intros Ha Hi. unfold leaf_at. destruct (truthy a); [|by right; left].
  destruct (region_level R) as (Hl & Hm & Ho). fold l m in Hl, Hm.
  destruct (decide (l = 0%nat)); [by left|]. right. right. destruct (frame_at_ok R i Hi).
  apply leaf_super; (done || unfold BPL; lia).
Qed.

Lemma leaf_at_next a i :
  good_attr a → (S i < Z.to_nat (2 ^ m))%nat →
  (leaf_at a i + (if truthy a then 2 ^ shift l else 0))%W = leaf_at a (S i).
Proof.
  intros Ha Hi. unfold leaf_at. destruct (truthy a) eqn:Ht; [|done].
  destruct (region_level R) as (Hl & Hm & Ho). fold l m in Hl, Hm.
  destruct (frame_at_ok R i ltac:(fold m; lia)). destruct (frame_at_ok R (S i) Hi).
  pose proof (leaf_word l m (frame_at (o := o) (p := p) (S i)) a) as Hw.
  specialize (Hw Hl ltac:(unfold BPL; lia) ltac:(done) ltac:(done) Ha).
  rewrite (leaf_sum l m (frame_at (S i))) in Hw |- * by (done || unfold BPL; lia).
  rewrite (leaf_sum l m (frame_at i)) by (done || unfold BPL; lia).
  unfold frame_at in *. fold l in Hw |- *. rewrite wadd_small; [lia|]. unfold word in Hw. lia.
Qed.
End leaves.

(** ** update *)
Section update.
Context {OFFSET : Z} {K : PteKind} {L : PteLaws K} {E : Type} {F : Frames E} {FO : FramesOk OFFSET E}.
Implicit Types (s : state E) (T : tree) (X : gset Z).

(** The translation of [q]. *)
Definition translate (r q : Z) s : option (Z * Z * Z) := lookup OFFSET LEV r q (wds s).

(** [update] of the region [v], [o], [p] and the attributes [a] led from [s] to [s']. *)
Record updated (v o p a : Z) T X (r : Z) s (fl : bool) T' X' s' : Prop := {
  u_sound : sound (OFFSET := OFFSET) T' X' r s';
  (** the region is mapped as asked, and nothing else changes *)
  u_map q : translate r q s' =
    if decide (covers v o q) then mapping (v := v) (o := o) (p := p) a q else translate r q s;
  (** without a flush, translations of large pages were only added *)
  u_flush : fl = false → 9 ≤ o → ∀ q, covers v o q → translate r q s = None ∨ translate r q s = translate r q s';
  (** pages of others are kept, with what they hold *)
  u_keep x : x ∈ X → x ∉ tabs T → x ∈ X' ∧ (x ∉ tabs T');
  u_rest x : held (X ∖ tabs T) x → x ≠ r → wds s' x = wds s x;
  (** the entries above the region's are kept, and what they hold *)
  u_upper l y b : addr T r l y = Some b → (Z.to_nat (o / BPL) < l)%nat →
    addr T' r l y = Some b ∧ (wds s b ≠ 0 → wds s' b = wds s b);
  (** of the tables only those of the next level are returned to the allocator *)
  u_freed k t : T !! k = Some t → t ∉ X' → S k.1 = Z.to_nat (o / BPL);
  (** no table is left below the region *)
  u_gone q l' : covers v o q → (l' < Z.to_nat (o / BPL))%nat → T' !! (l', pos (S l') q) = None;
  u_same k k' t : T !! k = Some t → T' !! k' = Some t → k = k';
  (** the entries of the region are in the tree *)
  u_slot q : truthy a = true → covers v o q → is_Some (slot T' r (Z.to_nat (o / BPL)) q);
}.

Lemma prunes_mono n l y T : prunes n l y T ⊆ T.
Proof.
  revert y T. induction n as [|n IH]; intros y T; [done|]. cbn [prunes]. etrans; [apply IH|].
  apply map_filter_subseteq.
Qed.

Lemma pos_add k l q : pos (l + k) q = pos l q / 512 ^ Z.of_nat k.
Proof.
  induction k as [|k IH].
  - change (512 ^ Z.of_nat 0) with 1. by rewrite Z.div_1_r, Nat.add_0_r.
  - rewrite Nat.add_succ_r, pos_S, IH, Nat2Z.inj_succ, Z.pow_succ_r by lia.
    rewrite Z.div_div, (Z.mul_comm 512) by lia. done.
Qed.

(** The tables below the entries are gone from the tree. *)
Lemma prunes_gone n l y T l' q :
  y ≤ pos l q < y + Z.of_nat n → (l' < l)%nat → prunes n l y T !! (l', pos (S l') q) = None.
Proof.
  revert y T. induction n as [|n IH]; intros y T Hq Hl; [lia|]. cbn [prunes].
  destruct (decide (pos l q = y)) as [Hy|]; [|apply IH; lia].
  destruct (prunes n l (y + 1) (prune l y T) !! (l', pos (S l') q)) as [t|] eqn:Ht; [exfalso|done].
  eapply lookup_weaken in Ht; [|apply prunes_mono]. apply prune_lookup in Ht as [_ Hu]. apply Hu.
  split; [done|]. cbn [fst snd]. rewrite <-pos_add. by replace (S l' + (l - 1 - l'))%nat with l by lia.
Qed.

Lemma prunes_addr n l y T r l' y' e :
  (l ≤ l')%nat → addr T r l' y' = Some e → addr (prunes n l y T) r l' y' = Some e.
Proof.
  intros Hl. revert y T. induction n as [|n IH]; intros y T He; [done|]. cbn [prunes]. apply IH, prune_addr.
  split; [done|]. right. intros [Hu _]. cbn in Hu. lia.
Qed.

Lemma freed_level t T n l y k x :
  x ∈ freed t T n l y → (∀ k k', T !! k = Some x → T !! k' = Some x → k = k') → T !! k = Some x → S k.1 = l.
Proof.
  intros Hx Hinj Hk. revert y Hx. induction n as [|n IH]; intros y; [by intros ?%elem_of_empty|]. cbn [freed].
  intros [(_ & l' & -> & Hx)%elem_of_freed1|Hx]%elem_of_union; [|by eapply IH].
  by rewrite (Hinj _ _ Hk Hx).
Qed.

Lemma tabs_mono T T' : T ⊆ T' → tabs T ⊆ tabs T'.
Proof. intros HT t [k Hk]%elem_of_tabs. apply elem_of_tabs. exists k. by eapply lookup_weaken. Qed.

Lemma elem_of_freed t T n l y x : x ∈ freed t T n l y → x ∈ tabs T.
Proof.
  revert y. induction n as [|n IH]; intros y; [by intros ?%elem_of_empty|]. cbn [freed].
  intros [(_ & l' & _ & Hx)%elem_of_freed1|Hx]%elem_of_union; [apply elem_of_tabs; eauto|by eapply IH].
Qed.

Lemma held_not_tab T X r s x t :
  sound (OFFSET := OFFSET) T X r s → held (X ∖ tabs T) x → t ∈ tabs T → ¬ in_page t x.
Proof.
  intros HS Hx Ht Hin. destruct Hx as [Ho|(q & [Hq Hn]%elem_of_difference & Hqx)].
  - eapply (owns_outside _ _ t); [apply HS|by apply HS|done|done].
  - apply Hn. assert (q = t) as ->; [|done]. eapply (page_disjoint OFFSET); [..|exact Hqx|exact Hin].
    + apply (owns_page _ _ _ (s_owns _ _ _ _ HS) Hq).
    + apply (owns_page _ _ _ (s_owns _ _ _ _ HS)). by apply HS.
Qed.

Lemma grown_keep T X r s T1 s1 x :
  grown (OFFSET := OFFSET) T X r s T1 s1 → held (X ∖ tabs T) x → held ((X ∪ tabs T1) ∖ tabs T1) x.
Proof.
  intros G [|(q & [Hq Hn]%elem_of_difference & Hqx)]; [by left|right]. exists q. split; [|done].
  apply elem_of_difference. split; [by apply elem_of_union_l|]. intros Hq1. apply Hn. by eapply g_fresh.
Qed.

Section at_entry.
Context {v o p a : Z} {t : Pte_Type} {T T1 : tree} {X : gset Z} {r e : Z} {s s1 : state E}.
Hypothesis R : region v o p.
Hypothesis Ha : good_attr a.
Hypothesis G : grown (OFFSET := OFFSET) T X r s T1 s1.
Let l := Z.to_nat (o / BPL).
Let m := o mod BPL.
Hypothesis He : slot T1 r l v = Some e.

Lemma update_at : ∃ fl T' X' s',
  (if truthy a then
     fill OFFSET (Z.to_nat (1 << m)%W) l t e (p .| order_bits m .| pte_s (Z.of_nat l) .| a)%W
       (1 << (Z.of_nat l * BPL + PAGE_BITS)%Z)%W false s1
   else fill OFFSET (Z.to_nat (1 << m)%W) l t e 0 0 false s1) = Some (fl, s') ∧
  updated v o p a T X r s fl T' X' s' ∧ ∀ k, room k (frs s1) → room k (frs s').
Proof.
  destruct (region_level R) as (Hl & Hm & Ho). fold l m in Hl, Hm, Ho.
  pose proof (g_sound _ _ _ _ _ _ G) as HS1. pose proof (s_tables _ _ _ _ HS1) as I1.
  pose proof (region_slots R T1 r e He) as Hent. fold l m in Hent.
  destruct (fill_spec (Z.to_nat (2 ^ m)) t T1 (X ∪ tabs T1) r s1 l (pos l v) e (leaf_at (o := o) (p := p) a)
    (if truthy a then 2 ^ shift l else 0) false HS1) as (fl & s' & Hfill & HF); [lia|done|..].
  { intros i Hi. by apply (leaf_at_ok R). }
  { intros i Hi. by apply (leaf_at_next R). }
  exists fl, (prunes (Z.to_nat (2 ^ m)) l (pos l v) T1), ((X ∪ tabs T1) ∖ freed t T1 (Z.to_nat (2 ^ m)) l (pos l v)), s'.
  split.
  { pose proof (region_entries R) as Hre. fold m in Hre. rewrite Hre, <-Hfill. unfold leaf_at. destruct (truthy a); [|done].
    rewrite wshl_1 by (unfold LEV, BPL, PAGE_BITS in *; lia). unfold frame_at, leaf. fold l m.
    change (Z.of_nat 0 * 2 ^ shift l) with 0. rewrite Z.add_0_r. unfold shift, BPL, PAGE_BITS.
    by replace (Z.of_nat l * 9 + 12) with (9 * Z.of_nat l + 12) by lia. }
  assert (∀ i, (i < Z.to_nat (2 ^ m))%nat → ∃ t1, t1 ∈ tabs T1 ∧ in_page t1 (e + 8 * Z.of_nat i)) as Hpg.
  { intros i Hi. apply Hent, addr_cases in Hi as [(? & _)|(_ & t1 & Ht1 & ->)]; [lia|].
    exists t1. split; [apply elem_of_tabs; eauto|apply in_page_mod]. }
  assert (∀ q, translate r q s' = if decide (covers v o q) then mapping (v := v) (o := o) (p := p) a q else translate r q s) as Hmap.
  { intros q. unfold translate. case_decide as Hq.
    - rewrite <-(leaf_translate R a q Ha Hq). fold l. pose proof (proj1 (covers_pos R q) Hq) as Hp. fold l m in Hp.
      eapply f_in; [exact HF|lia|lia].
    - rewrite (f_out _ _ _ _ _ _ _ _ _ _ _ _ _ HF); [apply G|]. intros Hp. apply Hq, (covers_pos R). fold l m. lia. }
  split; [|intros k; apply HF]. split.
  - apply HF.
  - exact Hmap.
  - intros -> Ho9 q Hq. rewrite Hmap, decide_True by done. unfold translate. rewrite <-(g_lookup _ _ _ _ _ _ G q).
    pose proof (leaf_translate R a q Ha Hq) as Hlt. fold l in Hlt.
    pose proof (proj1 (covers_pos R q) Hq) as Hp. fold l m in Hp.
    set (i := Z.to_nat (pos l q - pos l v)) in *. assert (i < Z.to_nat (2 ^ m))%nat as Hi by lia.
    assert (slot T1 r l q = Some (e + 8 * Z.of_nat i)) as Hs.
    { unfold slot. replace (pos l q) with (pos l v + Z.of_nat i) by lia. by apply Hent. }
    rewrite (slot_lookup I1 (LEV - l) l q _ ltac:(lia) Hs).
    assert (0 < l)%nat as Hl0 by (unfold shift, PAGE_BITS in *; lia).
    destruct (decide (wds s1 (e + 8 * Z.of_nat i) = 0)) as [H0|Hne].
    { left. destruct l; cbn [lookup]; by rewrite H0. }
    destruct (decide (wds s1 (e + 8 * Z.of_nat i) = leaf_at (o := o) (p := p) a i)) as [Heq|Hne'].
    + right. rewrite <-Hlt, Heq in *. rewrite (proj2 (Z.eqb_neq _ _)) by done.
      destruct (leaf_at_ok R a i Ha Hi) as [Hl1|[|Hsup]]; [fold l in Hl1; lia|done|]. fold l in Hsup.
      rewrite lookup_leaf; rewrite ?Heq; done.
    + exfalso. assert (false = true) as Hf; [|done]. apply (f_flush _ _ _ _ _ _ _ _ _ _ _ _ _ HF).
      right. split; [done|]. by exists i.
  - intros x Hx Hn. assert (x ∉ tabs T1) as Hn1 by (intros ?; apply Hn; by eapply g_fresh). split.
    + apply elem_of_difference. split; [by apply elem_of_union_l|]. by intros ?%elem_of_freed.
    + intros Ht. apply Hn1. exact (tabs_mono _ _ (prunes_mono _ _ _ _) _ Ht).
  - intros x Hx Hr. pose proof (grown_keep _ _ _ _ _ _ _ G Hx) as Hx1.
    rewrite (f_rest _ _ _ _ _ _ _ _ _ _ _ _ _ HF).
    + apply G; [done|]. intros t1 Ht1. by eapply held_not_tab.
    + intros i Hi ->. destruct (Hpg i Hi) as (t1 & Ht1 & Hin). by eapply held_not_tab.
  - intros l' y b Hb Hlt. fold l in Hlt. pose proof (addr_mono _ _ _ _ _ _ (g_mono _ _ _ _ _ _ G) Hb) as Hb1.
    split; [apply prunes_addr; [lia|done]|]. intros Hne. rewrite (f_rest _ _ _ _ _ _ _ _ _ _ _ _ _ HF); [by eapply (g_keep _ _ _ _ _ _ G)|].
    intros i Hi ->. destruct (addr_inj I1 _ _ _ _ _ Hb1 (Hent i Hi)) as [-> _]. lia.
  - intros k t1 Hk Hn. pose proof (lookup_weaken _ _ _ _ Hk (g_mono _ _ _ _ _ _ G)) as Hk1.
    destruct (decide (t1 ∈ freed t T1 (Z.to_nat (2 ^ m)) l (pos l v))) as [Hf|Hnf].
    + eapply freed_level; [exact Hf| |exact Hk1]. intros k1 k2. by eapply t_inj.
    + destruct Hn. apply elem_of_difference. split; [|done]. apply elem_of_union_r, elem_of_tabs. eauto.
  - intros q l' Hq Hl'. apply prunes_gone; [|done]. pose proof (proj1 (covers_pos R q) Hq) as Hp. fold l m in Hp. lia.
  - intros k k' t1 Hk Hk'. eapply (t_inj _ _ _ I1); [eapply lookup_weaken; [exact Hk|apply G]|].
    eapply lookup_weaken; [exact Hk'|apply prunes_mono].
  - intros q _ Hq. pose proof (proj1 (covers_pos R q) Hq) as Hp. fold l m in Hp |- *.
    exists (e + 8 * Z.of_nat (Z.to_nat (pos l q - pos l v))). apply prunes_addr; [done|].
    replace (pos l q) with (pos l v + Z.of_nat (Z.to_nat (pos l q - pos l v))) at 1 by lia. apply Hent. lia.
Qed.
End at_entry.

Lemma grow_region T X r s v o p a m :
  sound (OFFSET := OFFSET) T X r s → region v o p → good_attr a →
  no_larger (OFFSET := OFFSET) (Z.to_nat (o / BPL)) r v (wds s) → room (LEV + m) (frs s) →
  ∃ fl T' X' s', update OFFSET r v o p a TYPE_UP s = Some (fl, s') ∧ updated v o p a T X r s fl T' X' s' ∧
    room m (frs s').
Proof.
  intros HS R Ha Hmax Hroom. destruct (region_level R) as (Hl & _).
  destruct (walk_grow (LEV - Z.to_nat (o / BPL)) T X r (Z.to_nat (o / BPL)) LEV v r s (Z.to_nat (o / BPL) + m))
    as (e & T1 & s1 & Hw & G & He & Hr & _); [lia|done|unfold slot; by rewrite pos_top|done| |].
  { by replace (LEV - Z.to_nat (o / BPL) + (Z.to_nat (o / BPL) + m))%nat with (LEV + m)%nat by lia. }
  destruct (update_at R Ha G (t := TYPE_UP) He) as (fl & T' & X' & s' & Hf & Hu & Hk).
  exists fl, T', X', s'. split; [unfold update; rewrite Hw; exact Hf|]. split; [done|].
  apply Hk. apply (room_le _ (Z.to_nat (o / BPL) + m)); [lia|done].
Qed.

Lemma map_region T X r s v o p a :
  sound (OFFSET := OFFSET) T X r s → region v o p → good_attr a →
  no_larger (OFFSET := OFFSET) (Z.to_nat (o / BPL)) r v (wds s) → room LEV (frs s) →
  ∃ fl T' X' s', update OFFSET r v o p a TYPE_UP s = Some (fl, s') ∧ updated v o p a T X r s fl T' X' s'.
Proof.
  intros HS R Ha Hmax Hroom.
  destruct (grow_region T X r s v o p a 0 HS R Ha Hmax Hroom) as (fl & T' & X' & s' & ? & ? & _). eauto 6.
Qed.

(** Without new tables the region is changed where it has tables. *)
Lemma change_region T X r s v o p a t :
  sound (OFFSET := OFFSET) T X r s → region v o p → good_attr a → t ≠ TYPE_UP →
  no_larger (OFFSET := OFFSET) (Z.to_nat (o / BPL)) r v (wds s) →
  ∃ fl s', update OFFSET r v o p a t s = Some (fl, s') ∧ (∀ k, room k (frs s) → room k (frs s')) ∧
    ((∃ T' X', updated v o p a T X r s fl T' X' s') ∨
     (fl = false ∧ s' = s ∧ ∀ q, covers v o q → translate r q s = None ∧
        ∀ l, (l < Z.to_nat (o / BPL))%nat → T !! (l, pos (S l) q) = None)).
Proof.
  intros HS R Ha Ht Hmax. destruct (region_level R) as (Hl & _). pose proof (s_tables _ _ _ _ HS) as I.
  assert ((if t is TYPE_UP then true else false) = false) as Ef by (by destruct t).
  destruct (walk_read (OFFSET := OFFSET) (LEV - Z.to_nat (o / BPL)) T r (Z.to_nat (o / BPL)) LEV v r s) as [(e & Hw & He)|(Hw & Hnone)];
    [lia|done|unfold slot; by rewrite pos_top|done|..].
  - destruct (update_at R Ha (tree_grown_refl _ _ _ _ HS) (t := t) He) as (fl & T' & X' & s' & Hf & Hu & Hk).
    exists fl, s'. split; [unfold update; rewrite Ef, Hw; exact Hf|]. split; [done|]. left. eauto.
  - exists false, s. split; [unfold update; by rewrite Ef, Hw|]. split; [done|]. right. split_and!; [done..|].
    intros q Hq. destruct (Hnone q (covers_table R q Hq)) as [Hn Hs]. split; [done|].
    intros l' Hl'. specialize (Hs l' ltac:(lia)).
    destruct (T !! (l', pos (S l') q)) as [t1|] eqn:Ht1; [|done]. by rewrite (slot_below T r l' q t1) in Hs by (done || lia).
Qed.

Lemma unmap_region T X r s v o :
  sound (OFFSET := OFFSET) T X r s → region v o 0 →
  no_larger (OFFSET := OFFSET) (Z.to_nat (o / BPL)) r v (wds s) →
  ∃ fl T' X' s', update OFFSET r v o 0 0 TYPE_DN s = Some (fl, s') ∧ updated v o 0 0 T X r s fl T' X' s'.
Proof.
  intros HS R Hmax.
  destruct (change_region T X r s v o 0 0 TYPE_DN HS R good_0) as (fl & s' & E0 & _ & [(T' & X' & U)|(-> & -> & Hnone)]); [done|done|..].
  - by exists fl, T', X', s'.
  - exists false, T, X, s. split; [done|]. pose proof (s_tables _ _ _ _ HS) as I.
    split; [done| | |auto|done|auto| | | |done].
    + intros q. case_decide as Hc; [by rewrite (proj1 (Hnone q Hc))|done].
    + intros _ _ q Hc. left. by apply (Hnone q Hc).
    + intros k t Hk Hn. destruct Hn. apply HS, elem_of_tabs. eauto.
    + intros q l' Hc Hl'. by apply (Hnone q Hc).
    + intros k k' t. by eapply t_inj.
Qed.

(** C5: mapping a region.  Under the allocator's contract, with a page to spare
    for every level of tables and no page larger than the region's mapped over
    it, [update] of a region aligned to its size, with attributes that denote a
    leaf, succeeds: afterwards [lookup] gives for every address of the
    region its own frame, the size of the page and the attributes, for every
    other address what it gave before, and the tables are still a tree of
    pages of the allocator. *)
Theorem update_maps T X r s v o p a :
  sound (OFFSET := OFFSET) T X r s → region v o p → good_attr a →
  no_larger (OFFSET := OFFSET) (Z.to_nat (o / BPL)) r v (wds s) → room LEV (frs s) →
  ∃ fl T' X' s', update OFFSET r v o p a TYPE_UP s = Some (fl, s') ∧ updated v o p a T X r s fl T' X' s'.
Proof. apply map_region. Qed.

(** unmapping a region.  [update] without attributes and without making
    tables removes the translations of the region and no others; it cannot
    fail. *)
Theorem update_unmaps T X r s v o :
  sound (OFFSET := OFFSET) T X r s → region v o 0 →
  no_larger (OFFSET := OFFSET) (Z.to_nat (o / BPL)) r v (wds s) →
  ∃ fl T' X' s', update OFFSET r v o 0 0 TYPE_DN s = Some (fl, s') ∧ updated v o 0 0 T X r s fl T' X' s'.
Proof. apply unmap_region. Qed.

(** mapping is undone by unmapping.  When nothing is mapped in an aligned
    region, mapping it and unmapping it again gives back every translation. *)
Theorem map_unmap_roundtrip T X r s v o p a :
  sound (OFFSET := OFFSET) T X r s → region v o p → good_attr a →
  (∀ q, covers v o q → translate r q s = None) → room LEV (frs s) →
  ∃ f1 f2 s1 s2, update OFFSET r v o p a TYPE_UP s = Some (f1, s1) ∧
    update OFFSET r v o 0 0 TYPE_DN s1 = Some (f2, s2) ∧ ∀ q, translate r q s2 = translate r q s.
Proof.
  intros HS R Ha Hfree Hroom. destruct (region_level R) as (Hl & Hm & Ho).
  assert (covers v o v) as Hv by (apply in_block_self; unfold PAGE_BITS; pose proof (r_order _ _ _ R); lia).
  destruct (map_region T X r s v o p a HS R Ha) as (f1 & T1 & X1 & s1 & E1 & U1); [|done|].
  { intros sz q b Hq. by rewrite (Hfree v Hv : lookup _ _ _ _ _ = _) in Hq. }
  assert (region v o 0) as R0.
  { destruct R as [? ? ? [? ?]]. split; [done|done|by rewrite Z.mod_0_l by (apply Z.pow_nonzero; unfold PAGE_BITS; lia)|lia]. }
  destruct (unmap_region T1 X1 r s1 v o (u_sound _ _ _ _ _ _ _ _ _ _ _ _ U1) R0) as (f2 & T2 & X2 & s2 & E2 & U2).
  { intros sz q b Hq. pose proof (u_map _ _ _ _ _ _ _ _ _ _ _ _ U1 v) as Hmap. unfold translate in Hmap.
    rewrite Hq, decide_True in Hmap by done. unfold mapping in Hmap. destruct (truthy a); [|done].
    injection Hmap as -> _ _. rewrite shift_S. pose proof (shift_pos (Z.to_nat (o / BPL))).
    pose proof (span_le (o mod BPL) Hm). apply Z.pow_lt_mono_r; lia. }
  exists f1, f2, s1, s2. split_and!; [done..|]. intros q.
  rewrite (u_map _ _ _ _ _ _ _ _ _ _ _ _ U2), (u_map _ _ _ _ _ _ _ _ _ _ _ _ U1).
  case_decide as Hq; [|done]. by rewrite Hfree.
Qed.

(** A tree with its own pages survives what happens to another one. *)
Lemma spare_tree T X r s T' X' s' {K2 : PteKind} {L2 : PteLaws K2} T2 r2 :
  sound (OFFSET := OFFSET) (K := K) T' X' r s' → (∀ x, x ∈ X → x ∉ tabs T → x ∈ X' ∧ x ∉ tabs T') →
  (∀ x, held (X ∖ tabs T) x → x ≠ r → wds s' x = wds s x) →
  sound (OFFSET := OFFSET) (K := K2) T2 X r2 s → tabs T2 ## tabs T →
  r2 ≠ r → held (X ∖ tabs T) r2 → (∀ t, t ∈ tabs T2 → ¬ in_page t r) →
  sound (OFFSET := OFFSET) (K := K2) T2 X' r2 s' ∧ tabs T2 ## tabs T' ∧ held (X' ∖ tabs T') r2 ∧
  (∀ l y b, addr T2 r2 l y = Some b → wds s' b = wds s b) ∧
  ∀ q, lookup OFFSET (K := K2) LEV r2 q (wds s') = lookup OFFSET (K := K2) LEV r2 q (wds s).
Proof.
  intros HS' Hkeep Hrest HS2 Hdis Hr Hr2 Hout. pose proof (s_tables _ _ _ _ HS2) as I2.
  assert (∀ t, t ∈ tabs T2 → t ∈ X' ∧ t ∉ tabs T') as HT2.
  { intros t Ht. apply Hkeep; [by apply HS2|]. intros Ht'. by apply (Hdis t). }
  assert (∀ l y b, addr T2 r2 l y = Some b → wds s' b = wds s b) as Hfr.
  { intros l y b Hb. apply Hrest.
    - apply addr_cases in Hb as [(_ & _ & ->)|(_ & t & Ht & ->)]; [done|].
      right. exists t. split; [|apply in_page_mod]. assert (t ∈ tabs T2) by (apply elem_of_tabs; eauto).
      apply elem_of_difference. split; [by apply HS2|]. intros Ht'. by apply (Hdis t).
    - intros ->. apply addr_cases in Hb as [(_ & _ & ?)|(_ & t & Ht & E')]; [done|].
      apply (Hout t); [apply elem_of_tabs; eauto|]. rewrite E'. apply in_page_mod. }
  assert (held (X' ∖ tabs T') r2) as Hr2'.
  { destruct Hr2 as [|(x & [Hx Hn]%elem_of_difference & Hin)]; [by left|right]. exists x. split; [|done].
    apply elem_of_difference. by apply Hkeep. }
  split_and!.
  - split; [by eapply tables_frame|apply HS'|by intros t [? _]%HT2| |apply HS'].
    destruct Hr2' as [|(x & [Hx _]%elem_of_difference & Hin)]; [by left|right; eauto].
  - intros t Ht. by apply HT2.
  - done.
  - done.
  - intros q. apply (lookup_frame I2). intros l e. apply Hfr.
Qed.

(** page tables do not interfere.  [update] of one page table keeps every
    other page table that has its own pages: its tree and all its translations. *)
Theorem update_separate T X r s v o p a fl T' X' s' {K2 : PteKind} {L2 : PteLaws K2} T2 r2 :
  updated v o p a T X r s fl T' X' s' →
  sound (OFFSET := OFFSET) (K := K2) T2 X r2 s → tabs T2 ## tabs T →
  r2 ≠ r → held (X ∖ tabs T) r2 → (∀ t, t ∈ tabs T2 → ¬ in_page t r) →
  sound (OFFSET := OFFSET) (K := K2) T2 X' r2 s' ∧
  ∀ q, lookup OFFSET (K := K2) LEV r2 q (wds s') = lookup OFFSET (K := K2) LEV r2 q (wds s).
Proof.
  intros U HS2 Hdis Hr Hr2 Hout.
  destruct (spare_tree (K2 := K2) T X r s T' X' s' T2 r2 (u_sound _ _ _ _ _ _ _ _ _ _ _ _ U)
    (u_keep _ _ _ _ _ _ _ _ _ _ _ _ U) (u_rest _ _ _ _ _ _ _ _ _ _ _ _ U)) as (? & _ & _ & _ & ?); [done..|by split].
Qed.

(** tables are leaked.  When [update] overwrites a large entry that refers
    to a table, it frees that table and not the tables below: they stay
    allocated although no entry leads to them any more. *)
Theorem update_leaks T X r s v o p a fl T' X' s' q l t :
  updated v o p a T X r s fl T' X' s' → covers v o q → tabs T ⊆ X →
  T !! (l, pos (S l) q) = Some t → (S l < Z.to_nat (o / BPL))%nat →
  t ∈ X' ∧ t ∉ tabs T'.
Proof.
  intros U Hq HX Ht Hl. split.
  - destruct (decide (t ∈ X')) as [|Hn]; [done|]. pose proof (u_freed _ _ _ _ _ _ _ _ _ _ _ _ U _ _ Ht Hn). cbn in *. lia.
  - intros [k Hk]%elem_of_tabs. pose proof (u_same _ _ _ _ _ _ _ _ _ _ _ _ U _ _ _ Ht Hk) as <-.
    rewrite (u_gone _ _ _ _ _ _ _ _ _ _ _ _ U q l Hq) in Hk by lia. done.
Qed.

(** the quota check is enough.  What [Quota_guard::check] reserves for an
    [update] covers the pages that the walk takes. *)
Theorem walk_within_check T X r s v o p :
  sound (OFFSET := OFFSET) T X r s → region v o p →
  no_larger (OFFSET := OFFSET) (Z.to_nat (o / BPL)) r v (wds s) → room LEV (frs s) →
  ∃ e s' n, walk OFFSET LEV r v (Z.to_nat (o / BPL)) true s = Some (Some e, s') ∧
    charged n (qta s) (qta s') ∧ 0 ≤ n ≤ check_need o.
Proof.
  intros HS R Hmax Hroom. destruct (region_level R) as (Hl & _).
  destruct (walk_grow (LEV - Z.to_nat (o / BPL)) T X r (Z.to_nat (o / BPL)) LEV v r s (Z.to_nat (o / BPL)))
    as (e & T1 & s1 & Hw & G & He & _ & n & Hn & Hq); [lia|done|unfold slot; by rewrite pos_top|done| |].
  { by replace (LEV - Z.to_nat (o / BPL) + Z.to_nat (o / BPL))%nat with LEV by lia. }
  exists e, s1, n. split; [done|]. split; [done|]. unfold check_need.
  pose proof (r_order _ _ _ R). assert (0 ≤ o / (4096 / 8)) by (apply Z.div_pos; [lia|reflexivity]). lia.
Qed.
End update.
