(* ===== verification/PteClear.v ===== *)
(** [Pte::clear]: a page table gives back every page of its tree. *)
From S2P Require Import Prelude Bits Bitmap Quota Queue Buddy Pte PteKinds PteMap PteSound.
Local Open Scope Z_scope.

Section clear.
Context {OFFSET : Z} {K : PteKind} {L : PteLaws K} {E : Type} {F : Frames E} {FO : FramesOk OFFSET E}.
Implicit Types (s : state E) (X : gset Z).

#[local] Instance under_dec l y k : Decision (under l y k).
Proof. unfold under. apply _. Defined.

Lemma under_split l y k :
  under (S l) y k ↔ k = (l, y) ∨ ∃ i, 0 ≤ i < 512 ∧ under l (y * 512 + i) k.
Proof.
  destruct k as [l1 y1]. destruct (decide (l1 = l)) as [->|Hne].
  - rewrite under_here. split; [intros ->; by left|]. intros [[= ->]|(i & _ & [Hl _])]; [done|]. cbn in Hl. lia.
  - unfold under. cbn [fst snd]. split.
    + intros [Hl Hd]. right. replace (S l - 1 - l1)%nat with (S (l - 1 - l1)) in Hd by lia.
      rewrite Nat2Z.inj_succ, Z.pow_succ_r, Z.mul_comm, <-Z.div_div in Hd by lia.
      exists (y1 / 512 ^ Z.of_nat (l - 1 - l1) mod 512). split; [by apply Z.mod_pos_bound|]. split; [lia|].
      pose proof (Z.div_mod (y1 / 512 ^ Z.of_nat (l - 1 - l1)) 512). lia.
    + intros [[= -> _]|(i & Hi & Hl & Hd)]; [done|]. split; [lia|].
      replace (S l - 1 - l1)%nat with (S (l - 1 - l1)) by lia.
      rewrite Nat2Z.inj_succ, Z.pow_succ_r, Z.mul_comm, <-Z.div_div, Hd by lia.
      symmetry. apply (Z.div_unique _ _ y i); lia.
Qed.

Section tree.
Context {T : tree} {r : Z} {w : Z → Z}.
Hypothesis I : tables (OFFSET := OFFSET) T r w.

(** The pages of the tables at and below [(l - 1, y)]. *)
Definition branch (l : nat) (y : Z) : gset Z := tabs (filter (λ kt : (nat * Z) * Z, under l y kt.1) T).

Lemma elem_of_branch l y t : t ∈ branch l y ↔ ∃ k, T !! k = Some t ∧ under l y k.
Proof. unfold branch. rewrite elem_of_tabs. by setoid_rewrite map_lookup_filter_Some. Qed.

(** A branch hangs on its first table. *)
Lemma branch_root l y k t :
  T !! k = Some t → under (S l) y k → (l < LEV)%nat → is_Some (T !! (l, y)).
Proof.
  destruct k as [l1 y1]. intros Ht Hu Hl. pose proof (proj1 Hu) as Hl1. cbn [fst] in Hl1.
  remember (l - l1)%nat as d eqn:Hd. revert l1 y1 t Ht Hu Hl1 Hd.
  induction d as [|d IH]; intros l1 y1 t Ht Hu Hl1 Hd.
  - assert (l1 = l) as -> by lia. apply under_here in Hu as ->. eauto.
  - destruct (t_level _ _ _ I _ _ _ Ht) as [_ [a Ha]].
    apply addr_cases in Ha as [(? & _)|(_ & t' & Ht' & _)]; [lia|].
    eapply (IH (S l1) (y1 / 512)); [exact Ht'| |lia..]. apply (proj1 (under_child (S l) y l1 y1 ltac:(lia))), Hu.
Qed.

Lemma branch_none l y : (l < LEV)%nat → T !! (l, y) = None → branch (S l) y = ∅.
Proof.
  intros Hl Hn. apply elem_of_equiv_empty_L. intros t (k & Hk & Hu)%elem_of_branch.
  destruct (branch_root l y k t Hk Hu Hl) as [t' Ht']. congruence.
Qed.

Definition branches (l : nat) (y : Z) (js : list Z) : gset Z := ⋃ ((λ i, branch l (y * 512 + i)) <$> js).

Lemma elem_of_branches l y js t : t ∈ branches l y js ↔ ∃ i, i ∈ js ∧ t ∈ branch l (y * 512 + i).
Proof.
  unfold branches. rewrite elem_of_union_list. split.
  - intros (B & (i & -> & Hi)%list_elem_of_fmap & Ht). eauto.
  - intros (i & Hi & Ht). exists (branch l (y * 512 + i)). split; [|done]. apply list_elem_of_fmap. eauto.
Qed.

Lemma branch_table l y t :
  T !! (l, y) = Some t →
  branch (S l) y = {[t]} ∪ branches l y (seqZ 0 (2 ^ BPL)) ∧ (t ∉ branches l y (seqZ 0 (2 ^ BPL))).
Proof.
  intros Ht. split.
  - apply set_eq. intros t'. rewrite elem_of_union, elem_of_singleton, elem_of_branch, elem_of_branches. split.
    + intros (k & Hk & [->|(i & Hi & Hu)]%under_split); [left; congruence|right].
      exists i. split; [by apply elem_of_seqZ|]. apply elem_of_branch. eauto.
    + intros [->|(i & Hi%elem_of_seqZ & (k & Hk & Hu)%elem_of_branch)].
      * exists (l, y). split; [done|]. by apply under_here.
      * exists k. split; [done|]. apply under_split. right. exists i. split; [exact Hi|done].
  - intros (i & _ & (k & Hk & [Hu _])%elem_of_branch)%elem_of_branches.
    pose proof (t_inj _ _ _ I _ _ _ Ht Hk) as <-. cbn in Hu. lia.
Qed.

Lemma branch_disjoint l y y' t : y ≠ y' → t ∈ branch l y → t ∉ branch l y'.
Proof.
  intros Hy (k & Hk & [_ H1])%elem_of_branch (k' & Hk' & [_ H2])%elem_of_branch.
  pose proof (t_inj _ _ _ I _ _ _ Hk Hk') as <-. congruence.
Qed.

(** [s'] is [s] less the pages [B]. *)
Definition returned X (B : gset Z) s s' : Prop :=
  wds s' = wds s ∧ owns (frs s') (X ∖ B).

Lemma destroy_spec X s p : owns (frs s) X → p ∈ X → ∃ s', destroy p s = Some s' ∧ returned X {[p]} s s'.
Proof.
  intros HO Hp. destruct (owns_free (frs s) X p (qta s) HO Hp) as (f & Hf & HO' & _).
  eexists. split; [unfold destroy; by rewrite Hf|]. done.
Qed.

Lemma returned_trans X B1 B2 s1 s2 s3 :
  returned X B1 s1 s2 → returned (X ∖ B1) B2 s2 s3 → returned X (B1 ∪ B2) s1 s3.
Proof.
  intros [W1 H1] [W2 H2]. split; [by rewrite W2|]. by rewrite <-difference_difference_l_L.
Qed.

Lemma for_each_branches (f : Z → state E → option (state E)) l y js X s :
  NoDup js → wds s = w → owns (frs s) X → branches l y js ⊆ X →
  (∀ i X1 s1, i ∈ js → wds s1 = w → owns (frs s1) X1 → branch l (y * 512 + i) ⊆ X1 →
    ∃ s', f i s1 = Some s' ∧ returned X1 (branch l (y * 512 + i)) s1 s') →
  ∃ s', for_each f js s = Some s' ∧ returned X (branches l y js) s s'.
Proof.
  revert X s. induction js as [|i js IH]; intros X s Hnd Hw HO HX Hf.
  - exists s. split; [done|]. split; [done|]. change (branches l y []) with (∅ : gset Z). by rewrite difference_empty_L.
  - apply list.NoDup_cons in Hnd as [Hi Hnd].
    assert (branch l (y * 512 + i) ⊆ X) as H1.
    { intros t Ht. apply HX, elem_of_branches. exists i. split; [left|done]. }
    destruct (Hf i X s) as (s1 & Hs1 & R1); [left|done..|]. pose proof R1 as [Hw1 HO1].
    destruct (IH (X ∖ branch l (y * 512 + i)) s1 Hnd) as (s' & Hs' & R2); [by rewrite Hw1|done| | |].
    + intros t Ht. apply elem_of_difference. split.
      * apply HX. apply elem_of_branches in Ht as (j & Hj & Ht). apply elem_of_branches. exists j. split; [by right|done].
      * apply elem_of_branches in Ht as (j & Hj & Ht). revert Ht. apply branch_disjoint. intros E'.
        assert (j = i) as -> by lia. done.
    + intros j X1 s2 Hj. apply Hf. by right.
    + exists s'. cbn [for_each]. rewrite Hs1. split; [exact Hs'|]. by apply returned_trans with s1.
Qed.

(** [free_up] of a table returns the branches below it. *)
Lemma free_up_spec l e y v X s :
  (0 < l < LEV)%nat → T !! (l, y) = Some e → wds s = w → owns (frs s) X →
  branches l y (seqZ 0 (2 ^ BPL)) ⊆ X →
  ∃ s', free_up OFFSET l e v None None s = Some s' ∧ returned X (branches l y (seqZ 0 (2 ^ BPL))) s s'.
Proof.
  revert e y v X s. induction l as [|l IH]; intros e y v X s Hl He Hw HO HX; [lia|].
  pose proof (t_page _ _ _ I _ _ He) as Hp. cbn [free_up].
  rewrite (proj2 (Z.eqb_neq e 0)) by (destruct Hp; lia).
  apply for_each_branches; [apply NoDup_seqZ|done..|]. clear X s Hw HO HX.
  intros i X s Hi%elem_of_seqZ Hw HO HX. change (0 + 2 ^ BPL) with 512 in Hi.
  assert (entry e i = e + 8 * i) as Hei by (by eapply page_entry).
  assert (addr T r (S l) (y * 512 + i) = Some (e + 8 * i)) as Ha.
  { assert ((y * 512 + i) / 512 = y ∧ (y * 512 + i) mod 512 = i) as [Hd Hm].
    { split; symmetry; [apply (Z.div_unique _ _ _ i)|apply (Z.mod_unique _ _ y)]; lia. }
    rewrite (addr_below T r (S l) _ e); [|lia|by rewrite Hd]. by rewrite Hm. }
  pose proof (t_slot _ _ _ I _ _ _ Ha) as Hok. cbn [slot_ok] in Hok.
  unfold free_entry. rewrite Hw, Hei.
  destruct (T !! (l, y * 512 + i)) as [t|] eqn:Ht.
  - pose proof (t_page _ _ _ I _ _ Ht) as Hpt. rewrite Hok.
    rewrite (proj2 (Z.eqb_neq _ _)) by (apply entry_present; [lia|apply Hpt]).
    rewrite entry_super by (lia || apply Hpt). cbn [orb].
    rewrite entry_addr by (lia || apply Hpt). rewrite virt_phys by (by eapply page_word).
    destruct (branch_table l (y * 512 + i) t Ht) as [Hbr Hnt]. rewrite Hbr in HX |- *.
    set (B := branches l (y * 512 + i) (seqZ 0 (2 ^ BPL))) in *.
    set (virt := (v + (i << (Z.of_nat (S l) * BPL + PAGE_BITS)%Z))%W).
    assert (∃ s1, (if (1 <? S l)%nat then free_up OFFSET l t virt None None s else Some s) = Some s1 ∧
      returned X B s s1) as (s1 & Hs1 & R1).
    { destruct (Nat.ltb_spec 1 (S l)).
      - apply (IH t (y * 512 + i)); [lia|done..|]. etrans; [apply union_subseteq_r|exact HX].
      - exists s. split; [done|]. assert (B = ∅) as ->; [|split; [done|by rewrite difference_empty_L]].
        apply elem_of_equiv_empty_L. intros x (j & _ & (k & _ & [Hu _])%elem_of_branch)%elem_of_branches. lia. }
    rewrite Hs1. cbn [mbind option_bind]. pose proof R1 as [_ HO1].
    destruct (destroy_spec (X ∖ B) s1 t HO1) as (s' & Hs' & R2).
    { apply elem_of_difference. split; [|done]. apply HX, elem_of_union_l, elem_of_singleton. done. }
    exists s'. split; [exact Hs'|]. rewrite (union_comm_L {[t]}). by apply returned_trans with s1.
  - rewrite branch_none by (lia || done).
    assert (returned X ∅ s s) as HR by (split; [done|by rewrite difference_empty_L]).
    exists s. split; [|done]. destruct Hok as [->| ->]; [done|by rewrite orb_true_r].
Qed.

Lemma tree_branch : tabs T = branch LEV 0.
Proof.
  apply set_eq. intros t. rewrite elem_of_branch, elem_of_tabs. split; [|intros (k & Hk & _); eauto].
  intros [[l y] Hk]. exists (l, y). split; [done|]. pose proof (t_level _ _ _ I _ _ _ Hk) as [Hl _].
  split; [exact Hl|]. cbn [fst snd].
  remember (LEV - 1 - l)%nat as d eqn:Hd. revert l y t Hk Hl Hd. induction d as [|d IH]; intros l y t Hk Hl Hd.
  - destruct (t_level _ _ _ I _ _ _ Hk) as [_ [a Ha]].
    apply addr_cases in Ha as [(_ & -> & _)|(? & _)]; [done|lia].
  - destruct (t_level _ _ _ I _ _ _ Hk) as [_ [a Ha]].
    apply addr_cases in Ha as [(? & _)|(_ & t' & Ht' & _)]; [lia|].
    rewrite Nat2Z.inj_succ, Z.pow_succ_r, <-Z.div_div by lia. eapply IH; [exact Ht'|..]; [|lia].
    by destruct (t_level _ _ _ I _ _ _ Ht').
Qed.
End tree.

(** C21: [clear] without conditions on the entries (as the destructor of an
    address space calls it for the tables of devices and virtual CPUs) returns
    every table of the tree to the allocator, each once, and keeps the other
    pages, when the root itself is not a leaf. *)
Theorem clear_frees T X r s :
  sound (OFFSET := OFFSET) T X r s → no_larger (OFFSET := OFFSET) 3 r 0 (wds s) →
  ∃ s', clear OFFSET r None None s = Some s' ∧ wds s' = wds s ∧ owns (frs s') (X ∖ tabs T).
Proof.
  intros [I HO HT _ _] Hmax. rewrite (tree_branch I). rewrite (tree_branch I) in HT.
  pose proof (t_slot _ _ _ I _ _ _ (addr_top T r)) as Hok. cbn [slot_ok] in Hok. unfold clear.
  destruct (T !! (3%nat, 0)) as [t|] eqn:Ht.
  - assert (T !! ((LEV - 1)%nat, 0) = Some t) as Ht' by done. pose proof (t_page _ _ _ I _ _ Ht) as Hp.
    unfold LEV in Hok. cbn [slot_ok] in Hok. rewrite Ht in Hok. rewrite Hok.
    rewrite (proj2 (Z.eqb_neq _ _)) by (apply entry_present; [unfold LEV; lia|apply Hp]).
    change 4%nat with LEV. rewrite root_addr by apply Hp. rewrite virt_phys by (by eapply page_word).
    destruct (branch_table I 3 0 t Ht) as [Hbr Hnt]. change (branch LEV 0) with (branch (T := T) 4 0) in *. rewrite Hbr in *.
    destruct (free_up_spec I 3 t 0 0 X s) as (s1 & Hs1 & R1); [unfold LEV; lia|done..| |].
    { etrans; [apply union_subseteq_r|exact HT]. }
    change (LEV - 1)%nat with 3%nat. rewrite Hs1. cbn [mbind option_bind]. pose proof R1 as [_ HO1].
    destruct (destroy_spec _ s1 t HO1) as (s' & Hs' & R2).
    { apply elem_of_difference. split; [|done]. apply HT, elem_of_union_l, elem_of_singleton. done. }
    exists s'. split; [exact Hs'|]. rewrite (union_comm_L {[t]}). exact (returned_trans X _ _ s s1 s' R1 R2).
  - change (branch LEV 0) with (branch (T := T) 4 0). rewrite (branch_none I 3 0) by (unfold LEV; lia || done).
    exists s. unfold LEV in Hok. cbn [slot_ok] in Hok. rewrite Ht in Hok.
    assert (wds s r = 0) as ->.
    { destruct (decide (wds s r = 0)) as [|Hne]; [done|exfalso].
      destruct (table_there T r (wds s) 3 3 0 r I) as (t & Ht' & _); [done|done|exact Hmax|done|].
      change (pos 4 0) with 0 in Ht'. congruence. }
    rewrite difference_empty_L. done.
Qed.
End clear.
