(* ===== verification/PteBuddy.v ===== *)
(** The allocator of [Buddy] keeps the contract that [Pte] relies on, and page
    tables over it, for concrete inputs. *)
From S2P Require Import Prelude Bits Bitmap Quota Queue Buddy Pte PteKinds PteMap PteSound PteUpdate PteClear.
Local Open Scope Z_scope.

#[local] Instance in_block_dec i o p : Decision (in_block i o p).
Proof. unfold in_block. apply _. Defined.

(** A pool represents one map: the descriptors determine the tiling. *)
Lemma tiling_unique b A1 A2 :
  tiling (min_idx b) (max_idx b) (order b) A1 → tiling (min_idx b) (max_idx b) (order b) A2 →
  fields b A1 None → fields b A2 None → ∀ i o g, A1 !! i = Some (o, g) → A2 !! i = Some (o, g).
Proof.
  intros T1 T2 F1 F2.
  assert (∀ n i o g, i - min_idx b < Z.of_nat n → A1 !! i = Some (o, g) → A2 !! i = Some (o, g)) as Hind.
  { induction n as [|n IH]; intros i o g Hn Hi; destruct (til_block _ _ _ _ T1 _ _ _ Hi) as (Ho & Hmin & Hmax & _); [lia|].
    pose proof (pow2_pos o ltac:(lia)).
    destruct (til_cover _ _ _ _ T2 i) as (k & ok & gk & Hk & Hin); [lia|].
    destruct (til_block _ _ _ _ T2 _ _ _ Hk) as (Hok & Hkmin & Hkmax & _). unfold in_block in Hin.
    destruct (til_cover _ _ _ _ T1 k) as (k1 & ok1 & gk1 & Hk1 & Hin1); [lia|]. unfold in_block in Hin1.
    assert (k = i) as ->.
    { destruct (decide (k = i)) as [|Hki]; [done|]. exfalso. assert (k1 < i) by lia.
      pose proof (IH k1 ok1 gk1 ltac:(lia) Hk1) as Hk2.
      assert (k1 = k) as -> by (eapply (til_disj _ _ _ _ T2 k1 k _ _ _ _ k); [done|done|exact Hin1|unfold in_block; pose proof (pow2_pos ok); lia]).
      rewrite Hk in Hk2. injection Hk2 as -> ->.
      apply Hki. eapply (til_disj _ _ _ _ T1 k i _ _ _ _ i); [done|done|exact Hin|by apply in_block_self; lia]. }
    destruct (F1 i o g Hi) as [E1 E2]; [done|]. destruct (F2 i ok gk Hk) as [E3 E4]; [done|]. congruence. }
  intros i o g. apply (Hind (S (Z.to_nat (i - min_idx b)))). lia.
Qed.

Section buddy.
Context (OFFSET : Z).

Lemma buddy_rep_unique b U1 U2 : buddy_rep OFFSET b U1 → buddy_rep OFFSET b U2 → U1 = U2.
Proof.
  intros (A1 & fl1 & P1 & H1) (A2 & fl2 & P2 & H2). apply map_eq. intros i. apply option_eq. intros o.
  rewrite (H1 i o), (H2 i o). split; eapply tiling_unique; (apply P1 || apply P2).
Qed.

(** The pages of a pool that are in no allocated block. *)
Definition vacant (b : buddy) (U : gmap Z Z) : gset Z :=
  filter (λ i, map_Forall (λ k ok, ¬ in_block k ok i) U) (pages (min_idx b) (max_idx b)).

Lemma elem_of_vacant b U i :
  i ∈ vacant b U ↔ min_idx b ≤ i < max_idx b ∧ ∀ k ok, U !! k = Some ok → ¬ in_block k ok i.
Proof. unfold vacant. rewrite elem_of_filter, elem_of_pages. unfold map_Forall. tauto. Qed.

#[local] Instance Buddy_frames : Frames buddy := {|
  frame_alloc q b :=
    '(p, q, _, bs) ← Buddy.alloc OFFSET 0 q NOFILL (λ _, 0) [b];
    b ← hd_error bs; Some (p, q, b);
  frame_free p q b := '(q, bs) ← Buddy.free OFFSET p q [b]; b ← hd_error bs; Some (q, b);
|}.

Context (b0 : buddy).
(** The pool's pages are pages of the linear map. *)
Hypothesis pool_pages : ∀ i, min_idx b0 ≤ i < max_idx b0 → page OFFSET (index_to_page b0 i).

Definition pool_owns (b : buddy) (X : gset Z) : Prop :=
  same_pool b0 b ∧ ∃ U, buddy_rep OFFSET b U ∧ ∀ p, p ∈ X → ∃ i, U !! i = Some 0 ∧ p = index_to_page b0 i.

Definition pool_room (n : nat) (b : buddy) : Prop :=
  same_pool b0 b ∧ ∃ U, buddy_rep OFFSET b U ∧ (n ≤ size (vacant b U))%nat.

Definition pool_outside (a : Z) : Prop :=
  ∀ i, min_idx b0 ≤ i < max_idx b0 → ¬ in_page (index_to_page b0 i) a.

Lemma rep_range b U i o : same_pool b0 b → buddy_rep OFFSET b U → U !! i = Some o → min_idx b0 ≤ i < max_idx b0.
Proof.
  intros (E1 & E2 & _) (A & fl & P & HU) Hi. rewrite <-E1, <-E2. eapply pool_range; [exact P|by apply HU].
Qed.

Lemma same_index b i : same_pool b0 b → index_to_page b i = index_to_page b0 i.
Proof. intros (_ & _ & E & _). unfold index_to_page. by rewrite E. Qed.

Lemma index_inj b U i k :
  same_pool b0 b → buddy_rep OFFSET b U → min_idx b0 ≤ i < max_idx b0 → min_idx b0 ≤ k < max_idx b0 →
  index_to_page b0 i = index_to_page b0 k → i = k.
Proof.
  intros HS (A & fl & P & _) Hi Hk He. pose proof HS as (E1 & E2 & _).
  rewrite <-!(same_index b) in He by done. pose proof (p_geometry _ _ _ _ _ P) as G.
  destruct (index_page OFFSET b i G) as [_ <-]; [lia|]. destruct (index_page OFFSET b k G) as [_ <-]; [lia|].
  by rewrite He.
Qed.

Lemma pool_alloc b X n q :
  pool_owns b X → pool_room (S n) b → ∃ p b',
    frame_alloc q b = Some (p, Quota.alloc q 1, b') ∧ (p ∉ X) ∧ pool_owns b' ({[p]} ∪ X) ∧ pool_room n b'.
Proof.
  intros (HS & U & HB & HX) (_ & U' & HB' & Hn). rewrite (buddy_rep_unique _ _ _ HB' HB) in Hn. clear U' HB'.
  destruct (pool_alloc_spec OFFSET b U 0 q NOFILL (λ _, 0) HB ltac:(lia)) as [(i & b' & Ha & Hpl & HB' & HS')|[_ Hno]].
  2: { exfalso. assert (∃ i, i ∈ vacant b U) as [i [Hi Hout]%elem_of_vacant].
    { apply set_choose_L. intros He. rewrite He, size_empty in Hn. lia. }
    apply (Hno i). destruct HB as (A & fl & P & _). pose proof (g_order _ _ (p_geometry _ _ _ _ _ P)).
    split_and!; [lia..|by rewrite Z.mod_1_r|]. intros k ok p Hk Hp Hp'. apply (Hout k ok Hk).
    unfold in_block in *. change (2 ^ 0) with 1 in *. by assert (i = p) as -> by lia. }
  destruct Hpl as (_ & Hmin & Hmax & _ & Hout). change (2 ^ 0) with 1 in *.
  pose proof HS as (Emax & Emin & _). pose proof (same_pool_trans _ _ _ HS HS') as HS2.
  assert (in_block i 0 i) as Hii by (apply in_block_self; lia).
  exists (index_to_page b0 i), b'. split_and!.
  - cbn [frame_alloc Buddy_frames]. cbn [Buddy.alloc]. rewrite Ha. cbn. by rewrite same_index.
  - intros (k & Hk & He)%HX. pose proof (rep_range _ _ _ _ HS HB Hk).
    apply (index_inj _ _ _ _ HS HB) in He as ->; [|lia|done]. by apply (Hout k 0 k).
  - split; [done|]. exists (<[i := 0]> U). split; [done|]. intros p [->%elem_of_singleton|Hp]%elem_of_union.
    + exists i. by rewrite lookup_insert_eq.
    + destruct (HX p Hp) as (k & Hk & ->). exists k. rewrite lookup_insert_ne; [done|]. intros <-.
      by apply (Hout i 0 i).
  - split; [done|]. exists (<[i := 0]> U). split; [done|].
    assert (vacant b U ∖ {[i]} ⊆ vacant b' (<[i := 0]> U)) as Hsub.
    { intros k [[Hk Hout']%elem_of_vacant Hne]%elem_of_difference. destruct HS' as (E1 & E2 & _).
      apply elem_of_vacant. rewrite E1, E2. split; [done|]. intros j oj [(<- & <-)|(_ & Hj)]%lookup_insert_Some.
      - unfold in_block. change (2 ^ 0) with 1. rewrite elem_of_singleton in Hne. lia.
      - by apply Hout'. }
    apply subseteq_size in Hsub. rewrite size_difference in Hsub.
    + rewrite size_singleton in Hsub. lia.
    + intros k ->%elem_of_singleton. apply elem_of_vacant. split; [lia|]. intros k ok Hk Hin. by apply (Hout k ok i).
Qed.

Lemma pool_free b X p q :
  pool_owns b X → p ∈ X → ∃ b',
    frame_free p q b = Some (Quota.free q 1, b') ∧ pool_owns b' (X ∖ {[p]}) ∧ ∀ n, pool_room n b → pool_room n b'.
Proof.
  intros (HS & U & HB & HX) Hp. destruct (HX p Hp) as (i & Hi & ->).
  destruct (pool_free_spec OFFSET b U i 0 q HB Hi) as (b' & Hf & HB' & HS').
  pose proof (rep_range _ _ _ _ HS HB Hi) as Hr. pose proof HS as (Emax & Emin & _).
  pose proof (same_pool_trans _ _ _ HS HS') as HS2. exists b'. split_and!.
  - cbn [frame_free Buddy_frames Buddy.free]. rewrite <-(same_index b) by done.
    pose proof HB as (A & fl & P & _). destruct (index_page OFFSET b i (p_geometry _ _ _ _ _ P)) as [_ Hidx]; [lia|].
    rewrite Hidx, (proj2 (Z.leb_le _ _)), (proj2 (Z.ltb_lt _ _)) by lia. cbn [andb]. by rewrite Hf.
  - split; [done|]. exists (delete i U). split; [done|].
    intros p [Hp' Hne]%elem_of_difference. destruct (HX p Hp') as (k & Hk & ->). exists k.
    rewrite lookup_delete_ne; [done|]. intros ->. by apply Hne, elem_of_singleton.
  - intros n (_ & U' & HB2 & Hn). rewrite (buddy_rep_unique _ _ _ HB2 HB) in Hn. split; [done|].
    exists (delete i U). split; [done|]. etrans; [exact Hn|]. apply subseteq_size.
    intros k [Hk Hout]%elem_of_vacant. destruct HS' as (E1 & E2 & _). apply elem_of_vacant. rewrite E1, E2.
    split; [done|]. intros j oj [_ Hj]%lookup_delete_Some. by apply Hout.
Qed.

Lemma Buddy_frames_ok : FramesOk OFFSET buddy.
Proof.
  refine {| owns := pool_owns; room := pool_room; outside := pool_outside |}.
  - intros b X p (HS & U & HB & HX) (i & Hi & ->)%HX. apply pool_pages. by eapply rep_range.
  - intros b X p a (HS & U & HB & HX) (i & Hi & ->)%HX Ha. apply Ha. by eapply rep_range.
  - intros b n m Hm (HS & U & HB & Hn). split; [done|]. exists U. split; [done|lia].
  - apply pool_alloc.
  - apply pool_free.
Defined.
End buddy.

(** ** A page table over a pool of pages *)

Definition demo_pool : buddy :=
  match Buddy_construct 65536 65536 131072 131072 65536 quota_new with
  | Some (_, b) => b
  | None => (Buddy_layout 65536 65536 131072 65536).1
  end.

Lemma demo_memory : pool_memory 65536 65536 131072 65536.
Proof. split; [vm_compute; intuition discriminate..|vm_compute; intuition discriminate]. Qed.

Lemma demo_rep : buddy_rep 65536 demo_pool ∅.
Proof.
  destruct (construct_rep 65536 65536 131072 131072 65536 quota_new demo_memory) as (q & b & Heq & _ & _ & HB);
    [by vm_compute..|].
  assert (b = demo_pool) as -> by (unfold demo_pool; by rewrite Heq).
  assert (pages (min_idx demo_pool) (page_to_index demo_pool 131072) = ∅) as E0 by by vm_compute.
  rewrite E0 in HB. exact HB.
Qed.

Lemma demo_fields : min_idx demo_pool = 0 ∧ max_idx demo_pool = 15 ∧ base demo_pool = 131072.
Proof. by vm_compute. Qed.

Lemma demo_pages i : min_idx demo_pool ≤ i < max_idx demo_pool → page 65536 (index_to_page demo_pool i).
Proof.
  destruct demo_fields as (-> & -> & Eb). intros Hi. unfold index_to_page. rewrite Eb, pages_PAGE_SIZE.
  rewrite wadd_small by lia. unfold page, virt_to_phys. rewrite wsub_small by lia.
  unfold frame, PAGE_SIZE, PAGE_BITS. split_and!; try lia.
  - by rewrite (Z.mod_add 131072 i).
  - replace (131072 + i * 4096 - 65536) with (65536 + i * 2 ^ 12) by lia. by rewrite Z.mod_add.
Qed.

#[local] Instance demo_frames : Frames buddy := Buddy_frames 65536.
#[local] Instance demo_ok : FramesOk 65536 buddy := Buddy_frames_ok 65536 demo_pool demo_pages.

(** An empty page table whose root is the word at address 8. *)
Definition demo_state : state buddy := State (λ _, 0) quota_new demo_pool.

Lemma demo_outside r : 0 ≤ r < 131072 → outside r.
Proof.
  intros Hr i Hi. destruct demo_fields as (E1 & E2 & Eb). rewrite E1, E2 in Hi. unfold in_page, index_to_page.
  rewrite Eb, pages_PAGE_SIZE, wadd_small by lia. lia.
Qed.

Lemma demo_table_sound (K : PteKind) r : 0 ≤ r < 131072 → sound (OFFSET := 65536) (K := K) ∅ ∅ r demo_state.
Proof.
  intros Hr. split; [|split; [done|]| | |done].
  - split; try (by intros * ?%lookup_empty_Some).
    intros l y a [(-> & -> & ->)|(_ & t & Ht & _)]%addr_cases; [|by rewrite lookup_empty in Ht].
    unfold LEV. cbn [slot_ok]. rewrite lookup_empty. by left.
  - exists ∅. split; [apply demo_rep|]. by intros p ?%elem_of_empty.
  - unfold tabs. by rewrite map_img_empty_L.
  - left. by apply demo_outside.
Qed.

Lemma demo_room : room LEV (frs demo_state).
Proof. split; [done|]. exists ∅. split; [apply demo_rep|]. apply Nat.leb_le. by vm_compute. Qed.

Lemma demo_empty (K : PteKind) n v : no_larger (OFFSET := 65536) (K := K) n 8 v (wds demo_state).
Proof. intros sz p a. by cbn. Qed.

(** One gigabyte at address 2^30, mapped to the frames from 2^31, and a page in
    the middle of it. *)
Lemma demo_region : region (2 ^ 30) 18 (2 ^ 31).
Proof. by split. Qed.

Lemma demo_page : region (2 ^ 30) 0 (2 ^ 31).
Proof. by split. Qed.

Lemma demo_region0 : region (2 ^ 30) 18 0.
Proof. by split. Qed.

Lemma demo_covers : covers (2 ^ 30) 0 (2 ^ 30).
Proof. by vm_compute. Qed.

Lemma demo_covers18 : covers (2 ^ 30) 18 (2 ^ 30).
Proof. by vm_compute. Qed.

Lemma demo_level : (1 < Z.to_nat (18 / BPL))%nat.
Proof. by apply Nat.ltb_lt. Qed.

Definition demo_attr : Z := Hpt_hw_attr 7.

Lemma demo_attr_good : good_attr (PteLaws := Hpt_laws) demo_attr.
Proof. by apply Hpt_hw_attr_good. Qed.

Lemma update_maps_witness :
  ∃ fl s', update (K := Hpt) 65536 8 (2 ^ 30) 18 (2 ^ 31) demo_attr TYPE_UP demo_state = Some (fl, s') ∧
    translate (K := Hpt) (OFFSET := 65536) 8 (2 ^ 30 + 12345) s' = Some (2 ^ 30, 2 ^ 31 + 12345, 0xe7) ∧
    translate (K := Hpt) (OFFSET := 65536) 8 (2 ^ 31) s' = None.
Proof.
  destruct (update_maps (L := Hpt_laws) ∅ ∅ 8 demo_state (2 ^ 30) 18 (2 ^ 31) demo_attr (demo_table_sound Hpt 8 ltac:(lia))
    demo_region demo_attr_good (demo_empty Hpt _ _) demo_room) as (fl & T' & X' & s' & E & U).
  exists fl, s'. split; [exact E|]. split; rewrite (u_map _ _ _ _ _ _ _ _ _ _ _ _ U); by vm_compute.
Defined.

Lemma update_unmaps_witness :
  ∃ fl s', update (K := Hpt) 65536 8 (2 ^ 30) 18 0 0 TYPE_DN demo_state = Some (fl, s') ∧
    translate (K := Hpt) (OFFSET := 65536) 8 (2 ^ 30 + 12345) s' = None.
Proof.
  destruct (update_unmaps (L := Hpt_laws) ∅ ∅ 8 demo_state (2 ^ 30) 18 (demo_table_sound Hpt 8 ltac:(lia))
    ltac:(by split) (demo_empty Hpt _ _)) as (fl & T' & X' & s' & E & U).
  exists fl, s'. split; [exact E|]. rewrite (u_map _ _ _ _ _ _ _ _ _ _ _ _ U). by vm_compute.
Defined.

Lemma map_unmap_roundtrip_witness :
  ∃ f1 f2 s1 s2, update (K := Ept) 65536 8 (2 ^ 30) 18 (2 ^ 31) (Ept_hw_attr 7 6) TYPE_UP demo_state = Some (f1, s1) ∧
    update (K := Ept) 65536 8 (2 ^ 30) 18 0 0 TYPE_DN s1 = Some (f2, s2) ∧
    translate (K := Ept) (OFFSET := 65536) 8 (2 ^ 30 + 12345) s2 = None.
Proof.
  destruct (map_unmap_roundtrip (L := Ept_laws) ∅ ∅ 8 demo_state (2 ^ 30) 18 (2 ^ 31) (Ept_hw_attr 7 6)
    (demo_table_sound Ept 8 ltac:(lia)) demo_region) as (f1 & f2 & s1 & s2 & E1 & E2 & Hq); [by apply Ept_hw_attr_good|done|exact demo_room|].
  exists f1, f2, s1, s2. split; [exact E1|]. split; [exact E2|]. by rewrite Hq.
Defined.

Lemma update_separate_witness :
  ∃ fl s', update (K := Hpt) 65536 8 (2 ^ 30) 18 (2 ^ 31) demo_attr TYPE_UP demo_state = Some (fl, s') ∧
    lookup 65536 (K := Ept) LEV 16 (2 ^ 30 + 12345) (wds s') = None.
Proof.
  destruct (map_region (L := Hpt_laws) ∅ ∅ 8 demo_state (2 ^ 30) 18 (2 ^ 31) demo_attr (demo_table_sound Hpt 8 ltac:(lia))
    demo_region demo_attr_good (demo_empty Hpt _ _) demo_room) as (fl & T' & X' & s' & E & U).
  exists fl, s'. split; [exact E|].
  destruct (update_separate (L2 := Ept_laws) ∅ ∅ 8 demo_state (2 ^ 30) 18 (2 ^ 31) demo_attr fl T' X' s' ∅ 16
    U (demo_table_sound Ept 16 ltac:(lia))) as [_ Hq].
  - unfold tabs. by rewrite map_img_empty_L.
  - done.
  - left. apply demo_outside. lia.
  - intros t Ht. unfold tabs in Ht. by rewrite map_img_empty_L in Ht.
  - by rewrite Hq.
Defined.

Lemma walk_within_check_witness :
  ∃ e s' n, walk (K := Hpt) 65536 LEV 8 (2 ^ 30) 0 true demo_state = Some (Some e, s') ∧
    charged n (qta demo_state) (qta s') ∧ 0 ≤ n ≤ check_need 0.
Proof.
  exact (walk_within_check (L := Hpt_laws) ∅ ∅ 8 demo_state (2 ^ 30) 0 (2 ^ 31) (demo_table_sound Hpt 8 ltac:(lia))
    demo_page (demo_empty Hpt _ _) demo_room).
Defined.

(** A page is mapped, and then the gigabyte around it. *)
Lemma update_leaks_witness :
  ∃ f1 s1 f2 s2 X2 T2 t, update (K := Hpt) 65536 8 (2 ^ 30) 0 (2 ^ 31) demo_attr TYPE_UP demo_state = Some (f1, s1) ∧
    update (K := Hpt) 65536 8 (2 ^ 30) 18 0 0 TYPE_DN s1 = Some (f2, s2) ∧
    sound (OFFSET := 65536) (K := Hpt) T2 X2 8 s2 ∧ t ∈ X2 ∧ t ∉ tabs T2.
Proof.
  destruct (map_region (L := Hpt_laws) ∅ ∅ 8 demo_state (2 ^ 30) 0 (2 ^ 31) demo_attr (demo_table_sound Hpt 8 ltac:(lia))
    demo_page demo_attr_good (demo_empty Hpt _ _) demo_room) as (f1 & T1 & X1 & s1 & E1 & U1).
  destruct (unmap_region (L := Hpt_laws) T1 X1 8 s1 (2 ^ 30) 18 (u_sound _ _ _ _ _ _ _ _ _ _ _ _ U1)) as (f2 & T2 & X2 & s2 & E2 & U2).
  - exact demo_region0.
  - intros sz q a Hq. pose proof (u_map _ _ _ _ _ _ _ _ _ _ _ _ U1 (2 ^ 30)) as Hm. unfold translate in Hm.
    rewrite Hq in Hm. vm_compute in Hm. injection Hm as -> _ _. vm_compute. reflexivity.
  - destruct (u_slot _ _ _ _ _ _ _ _ _ _ _ _ U1 (2 ^ 30)) as [e He]; [vm_compute; reflexivity|exact demo_covers|].
    assert (∃ t, T1 !! (0%nat, pos 1 (2 ^ 30)) = Some t) as [t Ht].
    { apply addr_cases in He as [(? & _)|(_ & t & Ht & _)]; [discriminate|]. exists t. rewrite pos_S. exact Ht. }
    exists f1, s1, f2, s2, X2, T2, t. split; [exact E1|]. split; [exact E2|]. split; [apply U2|].
    apply (update_leaks T1 X1 8 s1 (2 ^ 30) 18 0 0 f2 T2 X2 s2 (2 ^ 30) 0 t U2 demo_covers18); [|exact Ht|exact demo_level].
    exact (s_tabs _ _ _ _ (u_sound _ _ _ _ _ _ _ _ _ _ _ _ U1)).
Defined.

Lemma clear_frees_witness :
  ∃ f1 s1 s2 T1 X1, update (K := Hpt) 65536 8 (2 ^ 30) 0 (2 ^ 31) demo_attr TYPE_UP demo_state = Some (f1, s1) ∧
    clear (K := Hpt) 65536 8 None None s1 = Some s2 ∧ owns (frs s2) (X1 ∖ tabs T1).
Proof.
  destruct (map_region (L := Hpt_laws) ∅ ∅ 8 demo_state (2 ^ 30) 0 (2 ^ 31) demo_attr (demo_table_sound Hpt 8 ltac:(lia))
    demo_page demo_attr_good (demo_empty Hpt _ _) demo_room) as (f1 & T1 & X1 & s1 & E1 & U1).
  pose proof (u_sound _ _ _ _ _ _ _ _ _ _ _ _ U1) as HS.
  destruct (clear_frees (L := Hpt_laws) T1 X1 8 s1 HS) as (s2 & E2 & _ & HO).
  - intros sz q a Hq. pose proof (u_map _ _ _ _ _ _ _ _ _ _ _ _ U1 0) as Hm. unfold translate in Hm.
    rewrite Hq in Hm. vm_compute in Hm. discriminate.
  - exists f1, s1, s2, T1, X1. split; [exact E1|]. split; [exact E2|exact HO].
Defined.

(** The definitions run: a page is mapped with four new tables and looked up. *)
Example map_page_run :
  match update (K := Hpt) 65536 8 (2 ^ 30) 0 (2 ^ 31) demo_attr TYPE_UP demo_state with
  | Some (_, s) => (translate (K := Hpt) (OFFSET := 65536) 8 (2 ^ 30 + 100) s, used (qta s))
  | None => (None, 0)
  end = (Some (4096, 2 ^ 31 + 100, 0x67), 4).
Proof. vm_compute. reflexivity. Qed.
