(* ===== verification/Slab.v ===== *)
(** Slabs: [include/slab.hpp] and [src/slab.cpp].

    A cache hands out elements of one size from pages, its slabs, and keeps the
    slabs in a list: those with free elements first, [curr] the last of them.
    The free elements of a slab are linked through a word behind each.  Pages
    come from the allocator by the interface [Frames] of [Pte]. *)
From S2P Require Import Prelude Bits Bitmap Quota Queue Buddy Pte PteKinds PteMap.
Local Open Scope Z_scope.

(** The fields of a slab, which is at the start of its page; [s_head] is null
    as 0.  [sizeof (Slab)] is 40. *)
Record slab := Slab { avail : Z; owner : Z; s_prev : option Z; s_next : option Z; s_head : Z }.

Definition SLAB_SIZE : Z := 40.

Definition set_avail (v : Z) (x : slab) : slab := Slab v (owner x) (s_prev x) (s_next x) (s_head x).
Definition set_prev (v : option Z) (x : slab) : slab := Slab (avail x) (owner x) v (s_next x) (s_head x).
Definition set_next (v : option Z) (x : slab) : slab := Slab (avail x) (owner x) (s_prev x) v (s_head x).
Definition set_head (v : Z) (x : slab) : slab := Slab (avail x) (owner x) (s_prev x) (s_next x) v.

(** [size], [buff] and [elem], which the constructor of a cache computes. *)
Record sizes := Sizes { size : Z; buff : Z; elem : Z }.

Definition cache_sizes (elem_size elem_align : Z) : sizes :=
  let size := align_up elem_size 8 in
  let buff := align_up (size + 8)%W elem_align in
  Sizes size buff ((PAGE_SIZE - SLAB_SIZE) / buff).

Section cache.
Context {E : Type} {F : Frames E} (this : Z) (C : sizes).

(** The fields of all slabs, the link words, the quota and the allocator, and
    [curr] and [head] of the cache at [this]. *)
Record cache := Cache {
  slabs : Z → slab; links : Z → Z; cqta : quota; cfrs : E; curr : option Z; head : option Z;
}.
Implicit Types c : cache.

Definition upd (p : Z) (f : slab → slab) c : cache :=
  Cache (<[p := f (slabs c p)]> (slabs c)) (links c) (cqta c) (cfrs c) (curr c) (head c).
Definition set_link (a v : Z) c : cache :=
  Cache (slabs c) (<[a := v]> (links c)) (cqta c) (cfrs c) (curr c) (head c).
Definition set_curr (v : option Z) c : cache := Cache (slabs c) (links c) (cqta c) (cfrs c) v (head c).
Definition set_first (v : option Z) c : cache := Cache (slabs c) (links c) (cqta c) (cfrs c) (curr c) v.
Definition set_alloc (q : quota) (f : E) c : cache := Cache (slabs c) (links c) q f (curr c) (head c).

Definition full p c : bool := avail (slabs c p) =? 0.
Definition empty p c : bool := avail (slabs c p) =? elem C.

(** ** A slab *)

(** The loop of the constructor, [i] turns to go. *)
Fixpoint link_loop (i : nat) (p link : Z) c : cache :=
  match i with
  | O => c
  | S i =>
    let c := set_link link (s_head (slabs c p)) c in
    let c := upd p (set_head link) c in
    link_loop i p (link - buff C)%W c
  end.

(** [Slab (slab_cache)] in the page at [p]. *)
Definition slab_new (p : Z) c : cache :=
  let c := upd p (λ _, Slab (elem C) this None None 0) c in
  link_loop (Z.to_nat (elem C)) p (p + PAGE_SIZE - buff C + size C)%W c.

Definition slab_alloc (p : Z) c : option (Z * cache) :=
  let c := upd p (λ x, set_avail (avail x - 1)%W x) c in
  if avail (slabs c p) <? elem C then
    let h := s_head (slabs c p) in
    Some ((h - size C)%W, upd p (set_head (links c h)) c)
  else None.

Definition slab_free (p ptr : Z) c : cache :=
  if elem C <=? avail (slabs c p) then c
  else
    let c := upd p (λ x, set_avail (avail x + 1)%W x) c in
    let link := (ptr + size C)%W in
    let c := set_link link (s_head (slabs c p)) c in
    upd p (set_head link) c.

(** [Slab::destroy]; what the page holds is not touched. *)
Definition slab_destroy (p : Z) c : option cache :=
  '(q, f) ← frame_free p (cqta c) (cfrs c); Some (set_alloc q f c).

(** ** The cache *)

Definition grow c : option cache :=
  '(p, q, f) ← frame_alloc (cqta c) (cfrs c);
  let c := set_alloc q f c in
  let c := slab_new p c in
  let c := match head c with Some h => upd h (set_prev (Some p)) c | None => c end in
  let c := upd p (set_next (head c)) c in
  Some (set_first (Some p) (set_curr (Some p) c)).

Definition alloc c : option (Z * cache) :=
  c ← (match curr c with None => grow c | Some _ => Some c end);
  p ← curr c;
  if full p c then None
  else if (match s_next (slabs c p) with Some n => negb (full n c) | None => false end) then None
  else
    '(ret, c) ← slab_alloc p c;
    Some (ret, if full p c then set_curr (s_prev (slabs c p)) c else c).

(** The slab is taken out of the list; it has a predecessor. *)
Definition dequeue (p q : Z) c : cache :=
  let c := upd q (set_next (s_next (slabs c p))) c in
  match s_next (slabs c p) with Some n => upd n (set_prev (s_prev (slabs c p))) c | None => c end.

(** The slab becomes the first of the list, which is not empty. *)
Definition enqueue_head (p : Z) c : option cache :=
  let c := upd p (set_prev None) c in
  let c := upd p (set_next (head c)) c in
  h ← head c;
  Some (set_first (Some p) (upd h (set_prev (Some p)) c)).

(** The slab is put behind [curr]. *)
Definition enqueue_curr (p k : Z) c : option cache :=
  let c := upd p (set_prev (Some k)) c in
  let c := upd p (set_next (s_next (slabs c k))) c in
  n ← s_next (slabs c k);
  let c := upd n (set_prev (Some p)) c in
  Some (upd k (set_next (Some p)) c).

Definition free (ptr : Z) c : option cache :=
  let p := (ptr .& wnot PAGE_MASK)%W in
  if negb (owner (slabs c p) =? this) then None
  else
    let was_full := full p c in
    let c := slab_free p ptr c in
    if was_full then
      c ← (match s_prev (slabs c p) with
           | Some q =>
             if full q c then
               let c := dequeue p q c in
               match curr c with Some k => enqueue_curr p k c | None => enqueue_head p c end
             else Some c
           | None => Some c
           end);
      Some (set_curr (Some p) c)
    else if empty p c then
      match s_prev (slabs c p) with
      | Some q =>
        let c := if bool_decide (curr c = Some p) then set_curr (Some q) c else c in
        let c := dequeue p q c in
        if empty q c || (match head c with Some h => empty h c | None => false end) then
          if bool_decide (head c = Some p) then None else slab_destroy p c
        else enqueue_head p c
      | None => Some c
      end
    else Some c.

(** [free (quota)].  The successor is read from the slab after it was
    destroyed, when its page may belong to others. *)
Fixpoint free_all (fuel : nat) c : option cache :=
  match head c with
  | None => Some (set_curr None c)
  | Some h =>
    if full h c then Some c
    else if negb (owner (slabs c h) =? this) then None
    else
      match fuel with
      | O => None
      | S fuel =>
        let c := set_curr (Some h) c in
        c ← slab_destroy h c;
        free_all fuel (set_first (s_next (slabs c h)) c)
      end
  end.
End cache.
