(* ===== verification/SlabSound.v ===== *)
(** Correctness of slabs: a cache hands out elements that do not overlap, takes
    them back, and keeps its slabs in order. *)
From S2P Require Import Prelude Bits Bitmap Quota Queue Buddy Pte PteKinds PteMap Slab.
Local Open Scope Z_scope.

(** ** Doubly linked lists *)

Definition first (l : list Z) (nx : option Z) : option Z := match l with [] => nx | p :: _ => Some p end.
Definition final (pv : option Z) (l : list Z) : option Z := match list.last l with Some p => Some p | None => pv end.

(** The slabs of [l] are linked one after the other, behind [pv] and before [nx]. *)
Fixpoint dll (pv : option Z) (l : list Z) (nx : option Z) (f : Z → slab) : Prop :=
  match l with
  | [] => True
  | p :: r => s_prev (f p) = pv ∧ s_next (f p) = first r nx ∧ dll (Some p) r nx f
  end.

Lemma final_cons pv p l : final pv (p :: l) = final (Some p) l.
Proof. unfold final. destruct l as [|q l]; [done|]. change (list.last (p :: q :: l)) with (list.last (q :: l)). by destruct (list.last (q :: l)) eqn:Hl; [|apply last_None in Hl]. Qed.

Lemma slab_final_snoc pv l p : final pv (l ++ [p]) = Some p.
Proof. unfold final. by rewrite last_snoc. Qed.

Lemma slab_first_app l1 l2 nx : first (l1 ++ l2) nx = first l1 (first l2 nx).
Proof. by destruct l1. Qed.

Lemma dll_app pv l1 l2 nx f :
  dll pv (l1 ++ l2) nx f ↔ dll pv l1 (first l2 nx) f ∧ dll (final pv l1) l2 nx f.
Proof.
  revert pv. induction l1 as [|p l1 IH]; intros pv; cbn [app dll]; [by split; [|intros [_ ?]]|].
  rewrite IH, slab_first_app, final_cons. tauto.
Qed.

Lemma dll_ext pv l nx f g :
  (∀ p, p ∈ l → s_prev (g p) = s_prev (f p) ∧ s_next (g p) = s_next (f p)) → dll pv l nx f → dll pv l nx g.
Proof.
  revert pv. induction l as [|p l IH]; intros pv Hfg; [done|]. cbn [dll]. intros (H1 & H2 & H3).
  destruct (Hfg p) as [-> ->]; [by left|]. split; [done|]. split; [done|]. apply IH; [|done]. intros q Hq. apply Hfg. by right.
Qed.

(** The end of a list is linked to another successor. *)
Lemma dll_relink pv l q nx nx' f g :
  dll pv (l ++ [q]) nx f → q ∉ l →
  (∀ p, p ∈ l → s_prev (g p) = s_prev (f p) ∧ s_next (g p) = s_next (f p)) →
  s_prev (g q) = s_prev (f q) → s_next (g q) = nx' → dll pv (l ++ [q]) nx' g.
Proof.
  rewrite !dll_app. cbn [dll first]. intros (H1 & H2 & H3 & _) Hq Hl Hp Hn. split; [by eapply dll_ext|].
  split; [by rewrite Hp|]. by rewrite Hn.
Qed.

(** ** The slots of a slab *)
Section slots.
Context (OFFSET this : Z) (C : sizes).

(** What the constructor computes. *)
Record sizes_ok : Prop := {
  so_size : 0 ≤ size C; so_buff : size C + 8 ≤ buff C;
  so_elem : 1 ≤ elem C; so_fits : elem C * buff C ≤ PAGE_SIZE - SLAB_SIZE;
}.
Context (HC : sizes_ok).

Definition slot (p k : Z) : Z := p + PAGE_SIZE - k * buff C.
Definition link (p k : Z) : Z := slot p k + size C.
Definition index (k : Z) : Prop := 1 ≤ k ≤ elem C.

Lemma slot_range k : index k → SLAB_SIZE ≤ PAGE_SIZE - k * buff C ∧ buff C ≤ k * buff C.
Proof.
  intros Hk. unfold index in Hk. destruct HC as [? ? ? Hf].
  assert (k * buff C ≤ elem C * buff C) by (apply Z.mul_le_mono_nonneg_r; lia).
  assert (1 * buff C ≤ k * buff C) by (apply Z.mul_le_mono_nonneg_r; lia). lia.
Qed.

Lemma link_in_page p k : index k → in_page p (link p k) ∧ in_page p (slot p k).
Proof.
  intros Hk. destruct (slot_range k Hk). unfold in_page, link, slot, SLAB_SIZE in *. destruct HC. lia.
Qed.

(** Elements do not overlap, and their links are behind them. *)
Lemma slots_disjoint k k' : k < k' → buff C ≤ k' * buff C - k * buff C.
Proof. intros Hk. destruct HC. assert (1 * buff C ≤ (k' - k) * buff C) by (apply Z.mul_le_mono_nonneg_r; lia). lia. Qed.

Lemma slot_inj p k k' : slot p k = slot p k' → k = k'.
Proof.
  intros Hs. unfold slot in Hs. destruct (Z.lt_trichotomy k k') as [Hk|[|Hk]]; [|done|];
    pose proof (slots_disjoint _ _ Hk); destruct HC; lia.
Qed.

Lemma slot_page p p' k k' : page OFFSET p → page OFFSET p' → index k → index k' → slot p k = slot p' k' → p = p' ∧ k = k'.
Proof.
  intros Hp Hp' Hk Hk' Hs. destruct (link_in_page p k Hk) as [_ H1]. destruct (link_in_page p' k' Hk') as [_ H2].
  assert (p = p') as <- by (eapply (page_disjoint OFFSET p p' (slot p k)); [done|done|done|by rewrite Hs]).
  split; [done|]. by eapply slot_inj.
Qed.

(** [free] finds the slab of an element. *)
Lemma slot_slab p k : page OFFSET p → index k → (slot p k .& wnot PAGE_MASK)%W = p.
Proof.
  intros (H0 & Hal & Hmax & _) Hk. destruct (slot_range k Hk) as [Hr Hb]. destruct HC as [? ? ? Hf].
  unfold SLAB_SIZE in *. unfold slot. replace (p + PAGE_SIZE - k * buff C) with (p + (PAGE_SIZE - k * buff C)) by lia.
  set (x := PAGE_SIZE - k * buff C) in *. assert (0 ≤ x < PAGE_SIZE) as Hx by (unfold x; lia). clearbody x.
  apply Z.bits_inj'. intros i Hi.
  assert (word 64 PAGE_MASK) by (unfold PAGE_MASK, word; by vm_compute).
  rewrite Z.land_spec, wnot_bits by done. change PAGE_MASK with (Z.ones 12).
  assert (p + x = Z.lor p x) as ->.
  { rewrite Z.add_nocarry_lxor; [apply Z.lxor_lor|]; apply Z.bits_inj'; intros j Hj; rewrite Z.land_spec, Z.bits_0;
      (destruct (Z.lt_ge_cases j 12);
        [rewrite (proj1 (mod_pow2_bits0 p 12 ltac:(lia)) Hal j) by lia; done
        |rewrite (word_bits 12 x) by (done || lia); by rewrite andb_false_r]). }
  rewrite Z.lor_spec. rewrite Z.testbit_ones_nonneg by lia.
  destruct (Z.ltb_spec i 12); destruct (Z.leb_spec 0 i); try lia; destruct (Z.ltb_spec i 64); cbn [negb andb].
  - rewrite andb_false_r. symmetry. apply (proj1 (mod_pow2_bits0 p 12 ltac:(lia)) Hal i). lia.
  - lia.
  - rewrite andb_true_r, (word_bits 12 x) by (done || lia). by rewrite orb_false_r.
  - rewrite andb_false_r. symmetry. apply (word_bits 64); [|lia]. unfold word, PAGE_SIZE, PAGE_BITS in *. lia.
Qed.
End slots.

(** The constructor finds sizes for which this holds, if an element with its
    link fits into a page at all. *)
Lemma cache_sizes_ok s o : 0 ≤ s → 0 ≤ o < 64 → s + 16 + 2 ^ o ≤ PAGE_SIZE - SLAB_SIZE → sizes_ok (cache_sizes s (2 ^ o)).
Proof.
  intros Hs Ho Hfit. pose proof (pow2_pos o ltac:(lia)). unfold PAGE_SIZE, PAGE_BITS, SLAB_SIZE in Hfit.
  assert (2 ^ 64 = 18446744073709551616) as E64 by reflexivity.
  destruct (align_up_spec s 3) as [_ H1]; [unfold word; lia|lia|lia|]. change (2 ^ 3) with 8 in H1.
  unfold cache_sizes. set (size := align_up s 8) in *. rewrite (wadd_small size 8) by lia.
  destruct (align_up_spec (size + 8) o) as [_ H2]; [unfold word; lia|lia|lia|].
  set (buff := align_up (size + 8) (2 ^ o)) in *.
  split; cbn [Slab.size Slab.buff Slab.elem]; [lia|lia| |]; unfold PAGE_SIZE, PAGE_BITS, SLAB_SIZE.
  - apply Z.div_le_lower_bound; lia.
  - rewrite Z.mul_comm. apply Z.mul_div_le. lia.
Qed.

(** ** The free elements of a slab *)
Section rep.
Context {OFFSET : Z} {E : Type} {F : Frames E} {FO : FramesOk OFFSET E} (this : Z) (C : sizes) (HC : sizes_ok C).
Implicit Types c : cache (E := E).

Abbreviation slot := (slot C).
Abbreviation link := (link C).
Abbreviation index := (index C).

(** From [a] the links lead through the elements [ks] of the slab [p]. *)
Fixpoint chain (w : Z → Z) (p a : Z) (ks : list Z) : Prop :=
  match ks with
  | [] => a = 0
  | k :: ks => a = link p k ∧ chain w p (w a) ks
  end.

Lemma slab_chain_ext w w' p a ks : (∀ k, k ∈ ks → w' (link p k) = w (link p k)) → chain w p a ks → chain w' p a ks.
Proof.
  revert a. induction ks as [|k ks IH]; intros a Hw; [done|]. cbn [chain]. intros [-> Hc]. split; [done|].
  rewrite Hw by by left. apply IH; [|done]. intros j Hj. apply Hw. by right.
Qed.

(** The elements [ks] of the slab at [p] are free. *)
Record slab_rep (p : Z) (ks : list Z) c : Prop := {
  sr_chain : chain (links c) p (s_head (slabs c p)) ks;
  sr_nodup : NoDup ks;
  sr_index k : k ∈ ks → index k;
  sr_avail : avail (slabs c p) = Z.of_nat (length ks);
  sr_owner : owner (slabs c p) = this;
}.

Lemma indices_length ks : NoDup ks → (∀ k, k ∈ ks → index k) → Z.of_nat (length ks) ≤ elem C.
Proof.
  intros Hn Hi. destruct HC as [_ _ He _].
  assert (length ks ≤ length (seqZ 1 (elem C)))%nat as Hl; [|rewrite length_seqZ in Hl; lia].
  apply submseteq_length, NoDup_submseteq; [done|]. intros k Hk. apply elem_of_seqZ. apply Hi in Hk. unfold index in Hk. lia.
Qed.

Lemma elem_small : elem C < 2 ^ 12.
Proof.
  destruct HC as [? ? ? Hf]. unfold PAGE_SIZE, PAGE_BITS, SLAB_SIZE in Hf.
  assert (elem C * 8 ≤ elem C * buff C) by (apply Z.mul_le_mono_nonneg_l; lia). lia.
Qed.

Lemma rep_avail p ks c : slab_rep p ks c → 0 ≤ avail (slabs c p) ≤ elem C ∧ full p c = bool_decide (ks = []).
Proof.
  intros [_ Hn Hi Ha _]. pose proof (indices_length ks Hn Hi). unfold full. rewrite Ha. split; [lia|].
  destruct ks; [done|]. rewrite bool_decide_eq_false_2 by done. apply Z.eqb_neq. cbn. lia.
Qed.

(** Another slab does not matter. *)
Lemma slab_rep_frame p ks c c' : slab_rep p ks c →
  s_head (slabs c' p) = s_head (slabs c p) → avail (slabs c' p) = avail (slabs c p) → owner (slabs c' p) = owner (slabs c p) →
  (∀ a, in_page p a → links c' a = links c a) → slab_rep p ks c'.
Proof.
  intros [Hc Hn Hi Ha Ho] E1 E2 E3 Hl. split; [|done|done|by rewrite E2|by rewrite E3].
  rewrite E1. eapply slab_chain_ext; [|exact Hc]. intros k Hk. apply Hl. apply (link_in_page C HC). by apply Hi.
Qed.

(** What the operations on a slab leave alone. *)
Record only (p : Z) c c' : Prop := {
  on_slabs q : q ≠ p → slabs c' q = slabs c q;
  on_links a : ¬ in_page p a → links c' a = links c a;
  on_prev : s_prev (slabs c' p) = s_prev (slabs c p);
  on_next : s_next (slabs c' p) = s_next (slabs c p);
  on_rest : cqta c' = cqta c ∧ cfrs c' = cfrs c ∧ curr c' = curr c ∧ head c' = head c;
}.

Lemma slab_upd_ne p q f c : q ≠ p → slabs (upd p f c) q = slabs c q.
Proof. intros Hq. by apply fn_lookup_insert_ne. Qed.

Lemma upd_eq p f c : slabs (upd p f c) p = f (slabs c p).
Proof. by apply fn_lookup_insert. Qed.

Lemma slab_alloc_spec p k ks c : page OFFSET p → slab_rep p (k :: ks) c →
  ∃ c', slab_alloc C p c = Some (slot p k, c') ∧ slab_rep p ks c' ∧ only p c c'.
Proof.
  intros Hp HR. pose proof (rep_avail _ _ _ HR) as [Hav _]. destruct HR as [[Hh Hc] [Hk Hn]%list.NoDup_cons Hi Ha Ho].
  pose proof elem_small. pose proof (Hi k ltac:(by left)) as Hki. pose proof (link_in_page C HC p k Hki) as [Hl Hs].
  assert (1 ≤ avail (slabs c p)) by (rewrite Ha; cbn [length]; lia).
  unfold slab_alloc. rewrite upd_eq. cbn [set_avail avail s_head]. rewrite wsub_small by lia.
  rewrite (proj2 (Z.ltb_lt _ _)) by lia. eexists. split.
  { f_equal. f_equal. rewrite Hh. unfold in_page, PAGE_SIZE, PAGE_BITS in *. destruct Hp as (Hp0 & _ & Hmax & _). unfold PAGE_SIZE, PAGE_BITS in *.
    unfold SlabSound.link in *. destruct HC. rewrite wsub_small; lia. }
  split.
  - split; rewrite ?upd_eq; cbn [set_head set_avail s_head avail owner links upd]; try done.
    + intros j Hj. apply Hi. by right.
    + rewrite ?wsub_small by lia. cbn [length] in Ha. lia.
  - split; rewrite ?upd_eq; try done. intros q Hq. by rewrite !slab_upd_ne.
Qed.

Lemma slab_free_spec p k ks c : page OFFSET p → slab_rep p ks c → index k → k ∉ ks →
  slab_rep p (k :: ks) (slab_free C p (slot p k) c) ∧ only p c (slab_free C p (slot p k) c).
Proof.
  intros Hp HR Hki Hk. destruct HR as [Hc Hn Hi Ha Ho].
  assert (Z.of_nat (length (k :: ks)) ≤ elem C) as Hlen.
  { apply indices_length; [by constructor|]. intros j [->|Hj]%elem_of_cons; [done|by apply Hi]. }
  pose proof elem_small. pose proof (link_in_page C HC p k Hki) as [Hl Hs]. cbn [length] in Hlen.
  unfold slab_free. rewrite (proj2 (Z.leb_gt _ _)) by (rewrite Ha; lia).
  assert ((slot p k + size C)%W = link p k) as ->.
  { apply wadd_small. destruct Hp as (Hp0 & _ & Hmax & _). change (0 ≤ link p k < 2 ^ 64). unfold in_page, PAGE_SIZE, PAGE_BITS in *. lia. }
  split.
  - split; cbn [set_link links]; rewrite ?upd_eq; cbn [set_head s_head avail owner set_link slabs]; rewrite ?upd_eq; cbn [set_avail avail owner s_head].
    + split; [done|]. cbn [upd set_link links]. rewrite fn_lookup_insert. eapply slab_chain_ext; [|exact Hc].
      intros j Hj. apply fn_lookup_insert_ne. intros Heq. apply Hk. unfold SlabSound.link in Heq.
      rewrite (slot_inj C HC p k j); [done|]. lia.
    + by constructor.
    + intros j [->|Hj]%elem_of_cons; [done|by apply Hi].
    + rewrite Ha, wadd_small by lia. cbn [length]. lia.
    + done.
  - split; rewrite ?upd_eq; cbn [set_link slabs]; rewrite ?upd_eq; try done.
    + intros q Hq. rewrite slab_upd_ne by done. cbn [set_link slabs]. by rewrite slab_upd_ne.
    + intros a Ha'. cbn [upd set_link links]. apply fn_lookup_insert_ne. intros <-. done.
Qed.

Lemma page_large p : page OFFSET p → PAGE_SIZE ≤ p.
Proof.
  intros (Hp0 & Hal & _). apply Z.mod_divide in Hal as [x ->]; [|done]. unfold PAGE_SIZE, PAGE_BITS in *. nia.
Qed.

Lemma link_next p j : page OFFSET p → index j → (link p j - buff C)%W = link p (j + 1).
Proof.
  intros Hp Hij. pose proof (page_large p Hp) as Hlarge. pose proof (link_in_page C HC p j Hij) as [Hl Hs].
  destruct (slot_range C HC j Hij) as [Hr Hb]. destruct HC as [? ? ? Hf].
  assert (1 * buff C ≤ elem C * buff C) by (apply Z.mul_le_mono_nonneg_r; lia).
  destruct Hp as (Hp0 & _ & Hmax & _). unfold SlabSound.link, SlabSound.slot, in_page, PAGE_SIZE, PAGE_BITS, SLAB_SIZE in *.
  rewrite wsub_small; lia.
Qed.

(** The elements that the constructor has linked. *)
Fixpoint linked (i : nat) (j : Z) (ks : list Z) : list Z :=
  match i with O => ks | S i => linked i (j + 1) (j :: ks) end.

Lemma linked_spec i : ∀ j ks k, k ∈ linked i j ks ↔ j ≤ k < j + Z.of_nat i ∨ k ∈ ks.
Proof.
  induction i as [|i IH]; intros j ks k; cbn [linked].
  - split; [by right|intros [?|?]; [lia|done]].
  - rewrite IH, elem_of_cons. split.
    + intros [?|[->|?]]; [left; lia|left; lia|by right].
    + intros [?|?]; [|by right; right]. destruct (decide (k = j)); [by right; left|left; lia].
Qed.

Lemma link_loop_spec p i : page OFFSET p → ∀ j ks c, 1 ≤ j → j + Z.of_nat i ≤ elem C + 1 →
  chain (links c) p (s_head (slabs c p)) ks → NoDup ks → (∀ k, k ∈ ks → k < j ∧ index k) →
  let c' := link_loop C i p (link p j) c in
  chain (links c') p (s_head (slabs c' p)) (linked i j ks) ∧ NoDup (linked i j ks) ∧
  avail (slabs c' p) = avail (slabs c p) ∧ owner (slabs c' p) = owner (slabs c p) ∧ only p c c'.
Proof.
  intros Hp. pose proof (page_large p Hp) as Hlarge. induction i as [|i IH]; intros j ks c Hj Hji Hc Hn Hks; cbn [link_loop linked].
  { by split_and!. }
  assert (index j) as Hij by (unfold SlabSound.index; lia). pose proof (link_in_page C HC p j Hij) as [Hl Hs].
  destruct (slot_range C HC j Hij) as [Hr Hb].
  rewrite (link_next p j Hp Hij).
  set (c1 := upd p (set_head (link p j)) (set_link (link p j) (s_head (slabs c p)) c)).
  assert (only p c c1) as Hon.
  { split; unfold c1; rewrite ?upd_eq; try done.
    - intros q Hq. by rewrite slab_upd_ne.
    - intros a Ha. cbn [upd set_link links]. apply fn_lookup_insert_ne. by intros <-. }
  assert (s_head (slabs c1 p) = link p j ∧ avail (slabs c1 p) = avail (slabs c p) ∧ owner (slabs c1 p) = owner (slabs c p)) as (E1 & E2 & E3).
  { unfold c1. by rewrite upd_eq. }
  destruct (IH (j + 1) (j :: ks) c1) as (H1 & H2 & H3 & H4 & [G1 G2 G3 G4 (G5 & G6 & G7 & G8)]); [lia|lia| | | |].
  - rewrite E1. split; [done|]. unfold c1. cbn [upd set_link links]. rewrite fn_lookup_insert.
    eapply slab_chain_ext; [|exact Hc]. intros k Hk. apply fn_lookup_insert_ne. intros Heq.
    destruct (Hks k Hk) as [Hlt _]. unfold SlabSound.link in Heq. pose proof (slot_inj C HC p j k). lia.
  - constructor; [|done]. intros Hin. destruct (Hks j Hin). lia.
  - intros k [->|Hk]%elem_of_cons; [split; [lia|done]|]. destruct (Hks k Hk). split; [lia|done].
  - split; [exact H1|]. split; [exact H2|]. split; [by rewrite H3|]. split; [by rewrite H4|].
    destruct Hon as [O1 O2 O3 O4 (O5 & O6 & O7 & O8)]. split.
    + intros q Hq. rewrite G1 by done. by apply O1.
    + intros a Ha. rewrite G2 by done. by apply O2.
    + by rewrite G3.
    + by rewrite G4.
    + split_and!; congruence.
Qed.

Definition all_free : list Z := linked (Z.to_nat (elem C)) 1 [].

Lemma all_free_spec k : k ∈ all_free ↔ index k.
Proof.
  unfold all_free. rewrite linked_spec. pose proof (so_elem _ HC). unfold SlabSound.index. 
  split; [intros [?|Hk]; [lia|by apply elem_of_nil in Hk]|lia].
Qed.

Lemma linked_length i : ∀ j ks, length (linked i j ks) = (i + length ks)%nat.
Proof. induction i as [|i IH]; intros j ks; cbn [linked]; [done|]. rewrite IH. cbn [length]. lia. Qed.

(** A new slab is empty and in no list. *)
Lemma slab_new_spec p c : page OFFSET p →
  let c' := slab_new this C p c in
  slab_rep p all_free c' ∧ s_prev (slabs c' p) = None ∧ s_next (slabs c' p) = None ∧
  (∀ q, q ≠ p → slabs c' q = slabs c q) ∧ (∀ a, ¬ in_page p a → links c' a = links c a) ∧
  cqta c' = cqta c ∧ cfrs c' = cfrs c ∧ curr c' = curr c ∧ head c' = head c.
Proof.
  intros Hp. pose proof (so_elem _ HC) as He. pose proof (link_in_page C HC p 1 ltac:(unfold SlabSound.index; lia)) as [Hl _].
  unfold slab_new. set (c0 := upd p (λ _, Slab (elem C) this None None 0) c).
  assert ((p + PAGE_SIZE - buff C + size C)%W = link p 1) as ->.
  { transitivity (wrap 64 (link p 1)).
    - unfold SlabSound.link, SlabSound.slot. rewrite Z.mul_1_l. wcong.
    - apply wrap_small. destruct Hp as (Hp0 & _ & Hmax & _). unfold word, in_page in *. lia. }
  destruct (link_loop_spec p (Z.to_nat (elem C)) Hp 1 [] c0) as (H1 & H2 & H3 & H4 & [G1 G2 G3 G4 G5]); [lia|lia| |by constructor|by intros k ?%elem_of_nil|].
  { unfold c0. by rewrite upd_eq. }
  assert (slabs c0 p = Slab (elem C) this None None 0) as E0 by apply upd_eq.
  rewrite E0 in H3, H4, G3, G4. cbn zeta. split; [|split; [done|split; [done|split; [|split; [|done]]]]].
  - split; [done|done|by intros k ?%all_free_spec| |done]. rewrite H3. cbn [avail]. unfold all_free.
    rewrite linked_length. cbn [length]. lia.
  - intros q Hq. rewrite G1 by done. by apply slab_upd_ne.
  - intros a Ha. by rewrite G2.
Qed.

(** ** The list of slabs *)

(** Only the links of the list change, and [curr] and [head]. *)
Record relinked c c' : Prop := {
  rl_fields q : avail (slabs c' q) = avail (slabs c q) ∧ owner (slabs c' q) = owner (slabs c q) ∧
    s_head (slabs c' q) = s_head (slabs c q);
  rl_rest : links c' = links c ∧ cqta c' = cqta c ∧ cfrs c' = cfrs c;
}.

Lemma relinked_refl c : relinked c c.
Proof. by split. Qed.

Lemma relinked_trans c1 c2 c3 : relinked c1 c2 → relinked c2 c3 → relinked c1 c3.
Proof.
  intros [F1 (A1 & B1 & C1)] [F2 (A2 & B2 & C2)]. split; [|split_and!; congruence].
  intros q. destruct (F1 q) as (? & ? & ?), (F2 q) as (? & ? & ?). split_and!; congruence.
Qed.

Lemma relinked_upd p f c :
  (∀ x, avail (f x) = avail x ∧ owner (f x) = owner x ∧ s_head (f x) = s_head x) → relinked c (upd p f c).
Proof.
  intros Hf. split; [|done]. intros q. destruct (decide (q = p)) as [->|Hq]; [rewrite upd_eq; apply Hf|by rewrite slab_upd_ne].
Qed.

Lemma relinked_rep p ks c c' : relinked c c' → slab_rep p ks c → slab_rep p ks c'.
Proof.
  intros [Hf (Hl & _)] [Hc Hn Hi Ha Ho]. destruct (Hf p) as (E1 & E2 & E3). split; [|done|done|by rewrite E1|by rewrite E2].
  by rewrite Hl, E3.
Qed.

Lemma relinked_first v c c' : relinked c c' → relinked c (set_first v c').
Proof. intros [H1 H2]. by split. Qed.

Lemma relinked_curr v c c' : relinked c c' → relinked c (set_curr v c').
Proof. intros [H1 H2]. by split. Qed.

(** Updates of the links, one slab at a time. *)
Ltac links_at := repeat first [rewrite upd_eq | rewrite slab_upd_ne by (congruence || set_solver)].
Ltac relink := repeat first [apply relinked_first | eapply relinked_trans; [|apply relinked_upd; by intros]]; apply relinked_refl.

Lemma slab_dequeue_spec l1 q p l2 c : NoDup (l1 ++ q :: p :: l2) → dll None (l1 ++ q :: p :: l2) None (slabs c) →
  let c' := dequeue p q c in
  dll None (l1 ++ q :: l2) None (slabs c') ∧ relinked c c' ∧ curr c' = curr c ∧ head c' = head c.
Proof.
  intros Hn Hd c'. rewrite dll_app in Hd. cbn [dll first] in Hd. destruct Hd as (D1 & Dq1 & Dq2 & Dp1 & Dp2 & D2).
  apply list.NoDup_app in Hn as (_ & Hn1 & [Hqn [Hpn Hn2]%list.NoDup_cons]%list.NoDup_cons).
  assert (q ≠ p) as Hqp by (intros ->; apply Hqn; by left).
  unfold c', dequeue. rewrite slab_upd_ne by done. rewrite Dp2, Dp1.
  destruct l2 as [|n l3]; cbn [first] in *.
  - split; [|split; [relink|done]]. rewrite dll_app. cbn [dll first]. split; [|by links_at].
    eapply dll_ext; [|exact D1]. intros x Hx. rewrite slab_upd_ne; [done|]. intros ->. by apply (Hn1 q Hx); left.
  - assert (n ≠ q ∧ n ≠ p) as [Hnq Hnp] by (split; intros ->; [apply Hqn; right; by left|apply Hpn; by left]).
    split; [|split; [relink|done]]. rewrite dll_app. cbn [dll first].
    apply list.NoDup_cons in Hn2 as [Hn3 _]. cbn [dll] in D2. destruct D2 as (Dn1 & Dn2 & D3).
    split; [|split; [|split; [|split; [|split]]]].
    + eapply dll_ext; [|exact D1]. intros x Hx. rewrite !slab_upd_ne; [done| |].
      * intros ->. by apply (Hn1 q Hx); left.
      * intros ->. by apply (Hn1 n Hx); right; right; left.
    + rewrite slab_upd_ne by done. by rewrite upd_eq.
    + rewrite slab_upd_ne by done. by rewrite upd_eq.
    + by rewrite upd_eq.
    + rewrite upd_eq. cbn [set_prev s_next]. by rewrite slab_upd_ne.
    + eapply dll_ext; [|exact D3]. intros x Hx. rewrite !slab_upd_ne; [done| |]; intros ->; [apply Hqn; by right; right|done].
Qed.

Lemma enqueue_head_spec p l c : l ≠ [] → p ∉ l → NoDup l → dll None l None (slabs c) → head c = first l None →
  ∃ c', enqueue_head p c = Some c' ∧ dll None (p :: l) None (slabs c') ∧ relinked c c' ∧ curr c' = curr c ∧ head c' = Some p.
Proof.
  intros Hl Hp Hn Hd Hh. destruct l as [|h l]; [done|]. cbn [first] in Hh. cbn [dll] in Hd. destruct Hd as (Dh1 & Dh2 & D).
  apply not_elem_of_cons in Hp as [Hph Hpl]. apply list.NoDup_cons in Hn as [Hhl _].
  unfold enqueue_head. cbn [upd head]. rewrite Hh. cbn [mbind option_bind]. eexists. split; [reflexivity|].
  split; [|split; [relink|done]]. cbn [set_first slabs dll first].
  split; [|split; [|split; [|split]]].
  - rewrite slab_upd_ne by done. rewrite upd_eq. cbn [set_next s_prev]. by rewrite upd_eq.
  - rewrite slab_upd_ne by done. by rewrite upd_eq.
  - by rewrite upd_eq.
  - rewrite upd_eq. cbn [set_prev s_next]. by rewrite !slab_upd_ne.
  - eapply dll_ext; [|exact D]. intros x Hx. rewrite !slab_upd_ne; [done|..]; by intros ->.
Qed.

Lemma enqueue_curr_spec p l1 k n l2 c : p ∉ l1 ++ k :: n :: l2 → NoDup (l1 ++ k :: n :: l2) →
  dll None (l1 ++ k :: n :: l2) None (slabs c) →
  ∃ c', enqueue_curr p k c = Some c' ∧ dll None (l1 ++ k :: p :: n :: l2) None (slabs c') ∧ relinked c c' ∧
    curr c' = curr c ∧ head c' = head c.
Proof.
  intros Hp Hn Hd. rewrite dll_app in Hd. cbn [dll first] in Hd. destruct Hd as (D1 & Dk1 & Dk2 & Dn1 & Dn2 & D2).
  rewrite not_elem_of_app, !not_elem_of_cons in Hp. destruct Hp as (Hp1 & Hpk & Hpn & Hp2).
  apply list.NoDup_app in Hn as (_ & Hn1 & [Hkn [Hnn Hn2]%list.NoDup_cons]%list.NoDup_cons).
  assert (k ≠ n) as Hkne by (intros ->; apply Hkn; by left).
  unfold enqueue_curr. rewrite !slab_upd_ne by done. rewrite Dk2. cbn [mbind option_bind]. eexists. split; [reflexivity|].
  split; [|split; [relink|done]]. rewrite dll_app. cbn [dll first].
  split; [|split; [|split; [|split; [|split; [|split; [|split]]]]]].
  - eapply dll_ext; [|exact D1]. intros x Hx. rewrite !slab_upd_ne; [done|..]; intros ->; try done.
    + by apply (Hn1 n Hx); right; left.
    + by apply (Hn1 k Hx); left.
  - rewrite upd_eq. cbn [set_next s_prev]. by rewrite !slab_upd_ne.
  - by rewrite upd_eq.
  - rewrite !slab_upd_ne by done. rewrite upd_eq. cbn [set_next s_prev]. by rewrite upd_eq.
  - rewrite !slab_upd_ne by done. by rewrite upd_eq.
  - rewrite slab_upd_ne by done. by rewrite upd_eq.
  - rewrite slab_upd_ne by done. rewrite upd_eq. cbn [set_prev s_next]. by rewrite !slab_upd_ne.
  - eapply dll_ext; [|exact D2]. intros x Hx. rewrite !slab_upd_ne; [done|..]; intros ->; try done. apply Hkn. by right.
Qed.
End rep.
