(* ===== verification/SlabCache.v ===== *)
(** What a slab cache promises: its elements are a set that [alloc] adds to and
    [free] takes from. *)
From S2P Require Import Prelude Bits Bitmap Quota Queue Buddy Pte PteKinds PteMap Slab SlabSound.
Local Open Scope Z_scope.

Lemma nodup_middle (l l' : list Z) p : NoDup (l ++ p :: l') → NoDup (l ++ l') ∧ (p ∉ l ++ l').
Proof. rewrite <-Permutation_middle, list.NoDup_cons. tauto. Qed.

Section cache.
Context {OFFSET : Z} {E : Type} {F : Frames E} {FO : FramesOk OFFSET E} (this : Z) (C : sizes) (HC : sizes_ok C).
Implicit Types (c : cache (E := E)) (fl : Z → list Z) (X : gset Z).

Abbreviation slot := (slot C).
Abbreviation index := (index C).
Abbreviation slab_rep := (slab_rep this C).

(** The slabs of [front] have free elements, those of [back] do not; the
    elements [fl p] of the slab [p] are free. *)
Record cache_rep fl (front back : list Z) X c : Prop := {
  cr_dll : dll None (front ++ back) None (slabs c);
  cr_head : head c = first (front ++ back) None;
  cr_curr : curr c = final None front;
  cr_nodup : NoDup (front ++ back);
  cr_owns : owns (cfrs c) X;
  cr_pages p : p ∈ front ++ back → p ∈ X;
  cr_slab p : p ∈ front ++ back → slab_rep p (fl p) c;
  cr_front p : p ∈ front → fl p ≠ [];
  cr_back p : p ∈ back → fl p = [];
}.

(** The elements that are handed out. *)
Definition live fl (l : list Z) (x : Z) : Prop := ∃ p k, p ∈ l ∧ index k ∧ (k ∉ fl p) ∧ x = slot p k.

Lemma cr_page fl front back X c p : cache_rep fl front back X c → p ∈ front ++ back → page OFFSET p.
Proof. intros HR Hp. eapply (owns_page _ _ _ (cr_owns _ _ _ _ _ HR)). by eapply cr_pages. Qed.

Lemma only_rep p q ks c c' : only p c c' → page OFFSET p → page OFFSET q → q ≠ p → slab_rep q ks c → slab_rep q ks c'.
Proof.
  intros [Hs Hl _ _ _] Hp Hq Hne HR. apply (slab_rep_frame this C HC q ks c c' HR); try by rewrite Hs.
  intros a Ha. apply Hl. intros Hpa. apply Hne. by eapply (page_disjoint OFFSET q p a).
Qed.

Lemma only_dll p pv l nx c c' : only p c c' → dll pv l nx (slabs c) → dll pv l nx (slabs c').
Proof.
  intros [Hs _ Hp Hn _]. apply dll_ext. intros q _. destruct (decide (q = p)) as [->|Hq]; [done|]. by rewrite Hs.
Qed.

(** The free elements of the slab [p] become [ks]. *)
Lemma rep_only fl front back X c p ks c' : cache_rep fl front back X c → p ∈ front ++ back →
  only p c c' → slab_rep p ks c' → ∀ q, q ∈ front ++ back → slab_rep q (<[p := ks]> fl q) c'.
Proof.
  intros HR Hp Ho Hr q Hq. destruct (decide (q = p)) as [->|Hne]; [by rewrite fn_lookup_insert|].
  rewrite fn_lookup_insert_ne by done. eapply only_rep; [exact Ho|by eapply cr_page|by eapply cr_page|done|by eapply cr_slab].
Qed.

Lemma live_other fl p ks l x : (∀ k, k ∈ ks ↔ k ∈ fl p) → live (<[p := ks]> fl) l x ↔ live fl l x.
Proof.
  intros Hk. unfold live. split; intros (q & k & Hq & Hi & Hn & Hx); exists q, k; (split; [done|split; [done|split; [|done]]]);
    destruct (decide (p = q)) as [->|Hne]; rewrite ?fn_lookup_insert, ?fn_lookup_insert_ne in * by done; by rewrite ?Hk in *.
Qed.

(** The cache gets a page. *)
Lemma slab_grow_spec fl back X c n : cache_rep fl [] back X c → room (S n) (cfrs c) →
  ∃ p c', grow this C c = Some c' ∧ (p ∉ X) ∧ cache_rep (<[p := all_free C]> fl) [p] back ({[p]} ∪ X) c' ∧
    (∀ x, live (<[p := all_free C]> fl) (p :: back) x ↔ live fl back x) ∧ room n (cfrs c').
Proof.
  intros HR Hroom. destruct (owns_alloc _ _ _ (cqta c) (cr_owns _ _ _ _ _ HR) Hroom) as (p & f & Ha & Hfresh & HO & Hroom').
  assert (p ∈ {[p]} ∪ X) as Hin by (by apply elem_of_union_l, elem_of_singleton).
  pose proof (owns_page _ _ _ HO Hin) as Hp. pose proof HR as [Hd Hh _ Hn _ Hpg Hsl _ Hbk]. cbn [app] in *.
  assert (∀ q, q ∈ back → q ≠ p) as Hne by (intros q Hq ->; by apply Hfresh, Hpg).
  unfold grow. rewrite Ha. cbn [mbind option_bind].
  destruct (slab_new_spec this C HC p (set_alloc (Quota.alloc (cqta c) 1) f c) Hp) as (Hr & Hpv & Hnx & Hs & Hl & Hq & Hf & _ & Hhd).
  set (c1 := slab_new this C p _) in *. cbn [set_alloc slabs links cqta cfrs head] in Hs, Hl, Hq, Hf, Hhd.
  set (c2 := match head c1 with Some h => upd h (set_prev (Some p)) c1 | None => c1 end).
  assert (relinked c1 c2 ∧ head c2 = head c1) as [Hrl Hh2].
  { unfold c2. destruct (head c1) eqn:Eh; (split; [|exact Eh]); [apply relinked_upd; by intros|apply relinked_refl]. }
  eexists p, _. split; [reflexivity|]. split; [done|].
  set (c' := set_first _ _).
  assert (relinked c1 c') as Hrl'.
  { apply relinked_first, relinked_curr. eapply relinked_trans; [exact Hrl|apply relinked_upd; by intros]. }
  assert (∀ q, q ≠ p → slabs c' q = slabs c2 q) as Hs'.
  { intros q Hqp. cbn [c' set_first set_curr slabs]. by apply slab_upd_ne. }
  split; [|split; [|by cbn [c' set_first set_curr upd cfrs]; destruct Hrl as [_ (_ & _ & ->)]; rewrite Hf]].
  - split.
    + cbn [app dll]. split; [|split].
      * cbn [c' set_first set_curr slabs]. rewrite upd_eq. cbn [set_next s_prev]. unfold c2. rewrite Hhd, Hh.
        destruct back as [|h r]; [done|]. cbn [first]. rewrite slab_upd_ne; [done|]. intros ->. by apply (Hne h); [left|].
      * cbn [c' set_first set_curr slabs]. rewrite upd_eq. cbn [set_next s_next]. by rewrite Hh2, Hhd, Hh.
      * destruct back as [|h r]; [done|]. cbn [dll] in Hd |- *. destruct Hd as (D1 & D2 & D3).
        pose proof (Hne h ltac:(by left)) as Hhp. apply list.NoDup_cons in Hn as [Hhr _].
        assert (∀ q, q ∈ h :: r → slabs c' q = if decide (q = h) then set_prev (Some p) (slabs c q) else slabs c q) as Hall.
        { intros q Hqr. rewrite Hs' by (by apply Hne). unfold c2. rewrite Hhd, Hh. cbn [first]. case_decide as Hqh.
          - rewrite Hqh, upd_eq, Hs by done. done.
          - rewrite slab_upd_ne by done. apply Hs. by apply Hne. }
        rewrite (Hall h) by by left. rewrite decide_True by done. split; [done|]. split; [done|].
        eapply dll_ext; [|exact D3]. intros q Hqr. rewrite Hall by by right. rewrite decide_False by (by intros ->). done.
    + done.
    + done.
    + cbn [app]. constructor; [|done]. intros Hpb. by apply (Hne p).
    + cbn [c' set_first set_curr upd cfrs]. destruct Hrl as [_ (_ & _ & ->)]. by rewrite Hf.
    + cbn [app]. intros q [->|Hqb]%elem_of_cons; [done|]. apply elem_of_union_r. by apply Hpg.
    + cbn [app]. intros q [->|Hqb]%elem_of_cons.
      * rewrite fn_lookup_insert. by apply (relinked_rep this C p _ c1 c').
      * rewrite fn_lookup_insert_ne by (intros ->; by apply (Hne q)). apply (relinked_rep this C q _ c1 c' Hrl').
        apply (slab_rep_frame this C HC q _ c c1); [by apply Hsl|by rewrite Hs by (by apply Hne)..|].
        intros a Hqa. apply Hl. intros Hpa. apply (Hne q Hqb). eapply (page_disjoint OFFSET q p a); [|done..].
        by apply (cr_page _ _ _ _ _ q HR).
    + intros q ->%list_elem_of_singleton. rewrite fn_lookup_insert. intros Hnil. pose proof (so_elem _ HC).
      assert (1 ∈ all_free C) as H1 by (apply (all_free_spec C HC); unfold SlabSound.index; lia). rewrite Hnil in H1. by apply elem_of_nil in H1.
    + intros q Hqb. rewrite fn_lookup_insert_ne by (intros ->; by apply (Hne q)). by apply Hbk.
  - intros x. split; intros (q & k & Hqb & Hi & Hk & Hx).
    + apply elem_of_cons in Hqb as [->|Hqb].
      * rewrite fn_lookup_insert in Hk. destruct Hk. by apply (all_free_spec C HC).
      * exists q, k. rewrite fn_lookup_insert_ne in Hk by (intros ->; by apply (Hne q)). done.
    + exists q, k. rewrite fn_lookup_insert_ne by (intros ->; by apply (Hne q)). split; [by right|done].
Qed.

(** The last slab with free elements gives one. *)
Lemma take_spec fl f p back X c : cache_rep fl (f ++ [p]) back X c →
  ∃ x c' fl' front' back',
    (if full p c then None
     else if (match s_next (slabs c p) with Some n => negb (full n c) | None => false end) then None
     else
       '(ret, c) ← slab_alloc C p c;
       Some (ret, if full p c then set_curr (s_prev (slabs c p)) c else c)) = Some (x, c') ∧
    cache_rep fl' front' back' X c' ∧ front' ++ back' = f ++ p :: back ∧
    ¬ live fl (f ++ p :: back) x ∧ (∃ k, index k ∧ x = slot p k) ∧
    (∀ y, live fl' (f ++ p :: back) y ↔ y = x ∨ live fl (f ++ p :: back) y) ∧
    cfrs c' = cfrs c ∧ cqta c' = cqta c.
Proof.
  intros HR. pose proof HR as [Hd Hh Hcu Hn HO Hpg Hsl Hfr Hbk]. rewrite <-app_assoc in *. cbn [app] in *.
  assert (p ∈ f ++ p :: back) as Hp by (apply elem_of_app; right; by left).
  pose proof (cr_page _ _ _ _ _ p HR ltac:(rewrite <-app_assoc; exact Hp)) as Hpp.
  pose proof (Hfr p ltac:(apply elem_of_app; right; by left)) as Hne.
  destruct (fl p) as [|k r] eqn:Hflp; [done|]. pose proof (Hsl p Hp) as Hr. rewrite Hflp in Hr.
  destruct (rep_avail this C HC p _ _ Hr) as [_ ->]. rewrite bool_decide_eq_false_2 by done.
  assert (s_next (slabs c p) = first back None ∧ s_prev (slabs c p) = final None f) as [Hnx Hpv].
  { apply dll_app in Hd as [_ Hd]. cbn [dll] in Hd. split; apply Hd. }
  assert ((match s_next (slabs c p) with Some n => negb (full n c) | None => false end) = false) as ->.
  { rewrite Hnx. destruct back as [|n back']; [done|]. cbn [first].
    assert (n ∈ f ++ p :: n :: back') as Hnin by (apply elem_of_app; right; right; by left).
    destruct (rep_avail this C HC n _ _ (Hsl n Hnin)) as [_ ->]. by rewrite (Hbk n) by by left. }
  destruct (slab_alloc_spec this C HC p k r c Hpp Hr) as (c1 & -> & Hr1 & Hon). cbn [mbind option_bind].
  pose proof Hon as [_ _ Hpv1 _ (Hq1 & Hf1 & Hcu1 & Hh1)].
  destruct (rep_avail this C HC p _ _ Hr1) as [_ Hfull]. pose proof (sr_nodup _ _ _ _ _ Hr) as Hnd. apply list.NoDup_cons in Hnd as [Hkr _].
  pose proof (sr_index _ _ _ _ _ Hr k ltac:(by left)) as Hki.
  assert (∀ q, q ∈ f ++ p :: back → slab_rep q (<[p := r]> fl q) c1) as Hsl1.
  { intros q Hq. eapply (rep_only fl (f ++ [p]) back X c p); try done; rewrite <-app_assoc; done. }
  assert (∀ front' back', front' ++ back' = f ++ p :: back → curr (if full p c1 then set_curr (s_prev (slabs c1 p)) c1 else c1) = final None front' →
    (∀ q, q ∈ front' → <[p := r]> fl q ≠ []) → (∀ q, q ∈ back' → <[p := r]> fl q = []) →
    cache_rep (<[p := r]> fl) front' back' X (if full p c1 then set_curr (s_prev (slabs c1 p)) c1 else c1)) as Hrep.
  { intros front' back' El Ec H1 H2.
    assert (relinked c1 (if full p c1 then set_curr (s_prev (slabs c1 p)) c1 else c1)) as Hrl.
    { destruct (full p c1); [apply relinked_curr|]; apply relinked_refl. }
    split; rewrite ?El; try done.
    - assert (slabs (if full p c1 then set_curr (s_prev (slabs c1 p)) c1 else c1) = slabs c1) as -> by by destruct (full p c1).
      by eapply only_dll.
    - transitivity (head c1); [by destruct (full p c1)|]. by rewrite Hh1.
    - destruct Hrl as [_ (_ & _ & ->)]. by rewrite Hf1.
    - intros q Hq. eapply relinked_rep; [exact Hrl|]. by apply Hsl1. }
  assert (∀ q, q ∈ back → <[p := r]> fl q = []) as Hbk'.
  { intros q Hq. rewrite fn_lookup_insert_ne; [by apply Hbk|]. intros <-. by rewrite (Hbk p Hq) in Hflp. }
  assert (∀ q, q ∈ f → <[p := r]> fl q ≠ []) as Hfr'.
  { intros q Hq. rewrite fn_lookup_insert_ne; [apply Hfr; apply elem_of_app; by left|]. intros <-.
    apply list.NoDup_app in Hn as (_ & Hdis & _). apply (Hdis p Hq). by left. }
  exists (slot p k), (if full p c1 then set_curr (s_prev (slabs c1 p)) c1 else c1), (<[p := r]> fl),
    (if full p c1 then f else f ++ [p]), (if full p c1 then p :: back else back).
  split; [done|]. split; [|split; [by destruct (full p c1); rewrite <-?app_assoc|]].
  - apply Hrep; rewrite Hfull; destruct r as [|k' r].
    + done.
    + by rewrite bool_decide_eq_false_2, <-app_assoc.
    + rewrite bool_decide_eq_true_2 by done. cbn [set_curr curr]. by rewrite Hpv1.
    + rewrite bool_decide_eq_false_2 by done. by rewrite Hcu1.
    + rewrite bool_decide_eq_true_2 by done. done.
    + rewrite bool_decide_eq_false_2 by done. intros q [Hq| ->%list_elem_of_singleton]%elem_of_app; [by apply Hfr'|].
      by rewrite fn_lookup_insert.
    + rewrite bool_decide_eq_true_2 by done. intros q [->|Hq]%elem_of_cons; [by rewrite fn_lookup_insert|by apply Hbk'].
    + rewrite bool_decide_eq_false_2 by done. done.
  - assert (∀ q j, q ∈ f ++ p :: back → index j → slot p k = slot q j → q = p ∧ j = k) as Hslot.
    { intros q j Hq Hj Hs. destruct (slot_page OFFSET C HC p q k j Hpp) as [<- <-]; try done.
      eapply cr_page; [exact HR|]. by rewrite <-app_assoc. }
    split; [|split; [by exists k|split; [|by destruct (full p c1)]]].
    + intros (q & j & Hq & Hj & Hnj & Hs). destruct (Hslot q j Hq Hj Hs) as [-> ->]. apply Hnj. rewrite Hflp. by left.
    + intros y. split.
      * intros (q & j & Hq & Hj & Hnj & ->). destruct (decide (q = p)) as [->|Hqp].
        -- rewrite fn_lookup_insert in Hnj. destruct (decide (j = k)) as [->|Hjk]; [by left|right].
           exists p, j. rewrite Hflp, not_elem_of_cons. done.
        -- right. exists q, j. by rewrite fn_lookup_insert_ne in Hnj by done.
      * intros [->|(q & j & Hq & Hj & Hnj & ->)].
        -- exists p, k. by rewrite fn_lookup_insert.
        -- exists q, j. split; [done|]. split; [done|]. split; [|done]. destruct (decide (p = q)) as [<-|Hqp].
           ++ rewrite fn_lookup_insert. rewrite Hflp, not_elem_of_cons in Hnj. by destruct Hnj.
           ++ by rewrite fn_lookup_insert_ne.
Qed.

Lemma alloc_rep fl front back X c n : cache_rep fl front back X c → room (S n) (cfrs c) →
  ∃ x c' fl' front' back' X', alloc this C c = Some (x, c') ∧ cache_rep fl' front' back' X' c' ∧
    ¬ live fl (front ++ back) x ∧ (∃ p k, p ∈ X' ∧ index k ∧ x = slot p k) ∧
    (∀ y, live fl' (front' ++ back') y ↔ y = x ∨ live fl (front ++ back) y) ∧ X ⊆ X' ∧ room n (cfrs c').
Proof.
  intros HR Hroom. unfold alloc. destruct front as [|p0 f0].
  - rewrite (cr_curr _ _ _ _ _ HR). change (final None []) with (None (A := Z)).
    destruct (slab_grow_spec fl back X c n HR Hroom) as (p & c1 & -> & Hfresh & HR1 & Hlive & Hroom1). cbn [mbind option_bind].
    rewrite (cr_curr _ _ _ _ _ HR1). change (final None [p]) with (Some p). cbn [mbind option_bind].
    destruct (take_spec _ [] p back _ c1 HR1) as (x & c' & fl' & front' & back' & -> & HR' & El & Hnew & (k & Hk & Hx) & Hl' & Hf & _).
    cbn [app] in *. exists x, c', fl', front', back', ({[p]} ∪ X). split; [done|]. split; [done|].
    split; [by rewrite <-Hlive|]. split; [exists p, k; split; [by apply elem_of_union_l, elem_of_singleton|done]|].
    split; [intros y; by rewrite El, Hl', Hlive|]. split; [by apply union_subseteq_r|]. by rewrite Hf.
  - destruct (exists_last (l := p0 :: f0)) as (f & p & Ef); [done|]. rewrite Ef in *.
    rewrite (cr_curr _ _ _ _ _ HR), slab_final_snoc. cbn [mbind option_bind].
    rewrite (cr_curr _ _ _ _ _ HR), slab_final_snoc. cbn [mbind option_bind].
    destruct (take_spec fl f p back X c HR) as (x & c' & fl' & front' & back' & -> & HR' & El & Hnew & (k & Hk & Hx) & Hl' & Hf & _).
    rewrite <-app_assoc. cbn [app]. exists x, c', fl', front', back', X. split; [done|]. split; [done|]. split; [done|].
    split; [exists p, k; split; [|done]; eapply (cr_pages _ _ _ _ _ HR); rewrite <-app_assoc; apply elem_of_app; right; by left|].
    split; [intros y; by rewrite El, Hl'|]. split; [done|]. rewrite Hf. eapply room_le; [|exact Hroom]. lia.
Qed.

(** A slab that is not in the list gives its page back. *)
Lemma gone_rep fl front back X c p q f : cache_rep fl front back X c → (p ∉ front ++ back) → owns f (X ∖ {[p]}) →
  cache_rep fl front back (X ∖ {[p]}) (set_alloc q f c).
Proof.
  intros [Hd Hh Hc Hn _ Hpg Hsl Hf Hb] Hp HO. split; try done.
  - intros x Hx. apply elem_of_difference. split; [by apply Hpg|]. intros ->%elem_of_singleton. done.
  - intros x Hx. by apply (slab_rep_frame this C HC x (fl x) c); [apply Hsl|..].
Qed.

(** All elements of an empty slab are free. *)
Lemma rep_empty p ks c : slab_rep p ks c → empty C p c = true → ∀ k, index k → k ∈ ks.
Proof.
  intros [_ Hn Hi Ha _] He k Hk. unfold empty in He. apply Z.eqb_eq in He.
  assert (ks ≡ₚ seqZ 1 (elem C)) as ->; [|apply elem_of_seqZ; unfold SlabSound.index in Hk; lia].
  apply submseteq_length_Permutation.
  - apply NoDup_submseteq; [done|]. intros j Hj. apply Hi in Hj. apply elem_of_seqZ. unfold SlabSound.index in Hj. lia.
  - rewrite length_seqZ. pose proof (so_elem _ HC). lia.
Qed.

Lemma empty_live fl p l c x : slab_rep p (fl p) c → empty C p c = true → live fl (p :: l) x ↔ live fl l x.
Proof.
  intros Hr He. split; intros (q & j & Hq & Hj & Hnj & Hx).
  - apply elem_of_cons in Hq as [->|Hq]; [|by exists q, j]. destruct Hnj. by eapply rep_empty.
  - exists q, j. split; [by right|done].
Qed.

Lemma live_perm fl l l' x : l ≡ₚ l' → live fl l x ↔ live fl l' x.
Proof. intros Hl. unfold live. by setoid_rewrite Hl. Qed.

(** ** An element is given back *)
Section free.
Context {fl : Z → list Z} {front back : list Z} {X : gset Z} {c : cache (E := E)}.
Context (HR : cache_rep fl front back X c).
Context {p k : Z} (Hp : p ∈ front ++ back) (Hk : index k) (Hlive : k ∉ fl p).

Abbreviation c1 := (slab_free C p (slot p k) c).
Abbreviation fl1 := (<[p := k :: fl p]> fl).

Lemma freed_slab : slab_rep p (k :: fl p) c1 ∧ only p c c1.
Proof. apply (slab_free_spec (OFFSET := OFFSET)); [done|by eapply cr_page|by eapply cr_slab|done|done]. Qed.

Lemma freed_slabs q : q ∈ front ++ back → slab_rep q (fl1 q) c1.
Proof. destruct freed_slab as [Hr Ho]. by eapply rep_only. Qed.

(** The list is put in order again by changes of the links. *)
Lemma freed_sub front' back' c' : relinked c1 c' → dll None (front' ++ back') None (slabs c') →
  head c' = first (front' ++ back') None → curr c' = final None front' →
  NoDup (front' ++ back') → (∀ q, q ∈ front' → q = p ∨ q ∈ front) → (∀ q, q ∈ back' → q ∈ back ∧ q ≠ p) →
  cache_rep fl1 front' back' X c'.
Proof.
  intros Hrl Hd Hh Hc Hn Hf Hb. destruct freed_slab as [_ [_ _ _ _ (_ & Hf1 & _)]].
  assert (∀ q, q ∈ front' ++ back' → q ∈ front ++ back) as Hin.
  { intros q [Hq|Hq]%elem_of_app; [destruct (Hf q Hq) as [->|]; [done|]|destruct (Hb q Hq)]; apply elem_of_app; auto. }
  split; try done.
  - destruct Hrl as [_ (_ & _ & ->)]. rewrite Hf1. apply HR.
  - intros q Hq. apply HR. by apply Hin.
  - intros q Hq. eapply relinked_rep; [exact Hrl|]. apply freed_slabs. by apply Hin.
  - intros q Hq. destruct (decide (q = p)) as [->|Hqp]; [by rewrite fn_lookup_insert|].
    rewrite fn_lookup_insert_ne by done. destruct (Hf q Hq); [done|]. by apply HR.
  - intros q Hq. destruct (Hb q Hq) as [Hq' Hqp]. rewrite fn_lookup_insert_ne by done. by apply (cr_back _ _ _ _ _ HR).
Qed.

Lemma freed_rep front' back' c' : relinked c1 c' → dll None (front' ++ back') None (slabs c') →
  head c' = first (front' ++ back') None → curr c' = final None front' →
  front' ++ back' ≡ₚ front ++ back → (∀ q, q ∈ front' → q = p ∨ q ∈ front) → (∀ q, q ∈ back' → q ∈ back ∧ q ≠ p) →
  cache_rep fl1 front' back' X c'.
Proof. intros Hrl Hd Hh Hc Hperm. apply freed_sub; try done. rewrite Hperm. apply HR. Qed.

(** The element is not handed out any more. *)
Lemma freed_live l y : (∀ q, q ∈ l → q ∈ front ++ back) → p ∈ l → live fl1 l y ↔ live fl l y ∧ y ≠ slot p k.
Proof.
  intros Hl Hpl. assert (∀ q j, q ∈ l → index j → slot q j = slot p k → q = p ∧ j = k) as Hslot.
  { intros q j Hq Hj Hs. apply (slot_page OFFSET C HC q p j k); try done; by eapply (cr_page _ _ _ _ _ _ HR); auto. }
  split.
  - intros (q & j & Hq & Hj & Hnj & ->). destruct (decide (q = p)) as [->|Hqp].
    + rewrite fn_lookup_insert, not_elem_of_cons in Hnj. destruct Hnj as [Hne Hnj]. split; [by exists p, j|].
      intros Hs. by destruct (Hslot p j Hq Hj Hs).
    + rewrite fn_lookup_insert_ne in Hnj by done. split; [by exists q, j|]. intros Hs. by destruct (Hslot q j Hq Hj Hs).
  - intros [(q & j & Hq & Hj & Hnj & ->) Hne]. exists q, j. split; [done|]. split; [done|]. split; [|done].
    destruct (decide (p = q)) as [<-|Hqp]; [|by rewrite fn_lookup_insert_ne].
    rewrite fn_lookup_insert, not_elem_of_cons. split; [|done]. by intros ->.
Qed.

Lemma freed_c1 : dll None (front ++ back) None (slabs c1) ∧ curr c1 = final None front ∧ head c1 = first (front ++ back) None.
Proof.
  destruct freed_slab as [_ Hon]. pose proof Hon as [_ _ _ _ (_ & _ & -> & ->)].
  split; [|split; apply HR]. by eapply only_dll, HR.
Qed.

(** The slab was full. *)
Lemma free_full : fl p = [] →
  ∃ c' front' back',
    (c ← (match s_prev (slabs c1 p) with
          | Some q =>
            if full q c1 then
              let c := dequeue p q c1 in
              match curr c with Some k => enqueue_curr p k c | None => enqueue_head p c end
            else Some c1
          | None => Some c1
          end);
     Some (set_curr (Some p) c)) = Some c' ∧
    cache_rep fl1 front' back' X c' ∧ front' ++ back' ≡ₚ front ++ back ∧ cfrs c' = cfrs c.
Proof.
  intros Hfl. assert (∀ c', relinked c1 c' → cfrs (set_curr (Some p) c') = cfrs c) as Hfrs.
  { intros c' [_ (_ & _ & E1)]. cbn [set_curr cfrs]. rewrite E1. destruct freed_slab as [_ [_ _ _ _ (_ & ? & _)]]. done. }
  destruct freed_c1 as (Hd & Hcu & Hh).
  assert (p ∈ back) as Hpb.
  { apply elem_of_app in Hp as [Hpf|]; [|done]. by destruct (cr_front _ _ _ _ _ HR p Hpf). }
  apply list_elem_of_split in Hpb as (b1 & b2 & Eb).
  assert ((front ++ [p]) ++ b1 ++ b2 ≡ₚ front ++ back) as Hperm.
  { rewrite Eb, <-app_assoc. apply Permutation_app_head. cbn [app]. by apply Permutation_middle. }
  assert (∀ front' back' c', relinked c1 c' → dll None (front' ++ back') None (slabs c') → head c' = first (front' ++ back') None →
    front' = front ++ [p] → back' = b1 ++ b2 → cache_rep fl1 front' back' X (set_curr (Some p) c')) as Hrep.
  { intros front' back' c' Hrl Hd' Hh' -> ->. pose proof (cr_nodup _ _ _ _ _ HR) as Hn.
    apply freed_rep; [by apply relinked_curr|done|done|by rewrite slab_final_snoc| | |].
    - exact Hperm.
    - intros q [Hq| ->%list_elem_of_singleton]%elem_of_app; auto.
    - intros q Hq. rewrite Eb in *. apply list.NoDup_app in Hn as (_ & _ & Hn). apply nodup_middle in Hn as [_ Hn].
      split; [|intros ->; by apply Hn]. apply elem_of_app in Hq as [|]; apply elem_of_app; [by left|right; by right]. }
  pose proof (cr_nodup _ _ _ _ _ HR) as Hn. rewrite Eb in Hd, Hh, Hn.
  destruct (list.last b1) as [q|] eqn:Hl.
  - apply last_Some in Hl as [b1' ->].
    replace (front ++ (b1' ++ [q]) ++ p :: b2) with ((front ++ b1') ++ q :: p :: b2) in * by (by rewrite <-!app_assoc).
    assert (q ∈ back ∧ q ≠ p) as [Hqb Hqp].
    { rewrite Eb. split; [rewrite <-app_assoc; apply elem_of_app; right; by left|]. intros ->.
      apply list.NoDup_app in Hn as (_ & _ & [Hn _]%list.NoDup_cons). apply Hn. by left. }
    assert (s_prev (slabs c1 p) = Some q) as ->.
    { apply dll_app in Hd as [_ Hd]. cbn [dll] in Hd. apply Hd. }
    assert (full q c1 = true) as ->.
    { destruct (rep_avail this C HC q _ _ (freed_slabs q ltac:(apply elem_of_app; by right))) as [_ ->].
      rewrite fn_lookup_insert_ne by done. by rewrite (cr_back _ _ _ _ _ HR q Hqb). }
    destruct (slab_dequeue_spec (front ++ b1') q p b2 c1 Hn Hd) as (Hd2 & Hrl2 & Hcu2 & Hh2). cbn zeta.
    set (c2 := dequeue p q c1) in *. rewrite Hcu2, Hcu.
    assert ((p ∉ (front ++ b1') ++ q :: b2) ∧ NoDup ((front ++ b1') ++ q :: b2)) as [Hpn Hn2].
    { replace ((front ++ b1') ++ q :: p :: b2) with (((front ++ b1') ++ [q]) ++ p :: b2) in Hn by (by rewrite <-!app_assoc).
      apply nodup_middle in Hn as [H1 H2]. rewrite <-!app_assoc in *. by split. }
    destruct (list.last front) as [kk|] eqn:Hlf.
    + apply last_Some in Hlf as [f Ef]. replace (final None front) with (Some kk) by (by rewrite Ef, slab_final_snoc).
      destruct (b1' ++ q :: b2) as [|n l2] eqn:En; [by destruct b1'|].
      assert ((front ++ b1') ++ q :: b2 = f ++ kk :: n :: l2) as El by (rewrite <-app_assoc, En, Ef, <-app_assoc; done).
      rewrite El in *. destruct (enqueue_curr_spec p f kk n l2 c2 Hpn Hn2 Hd2) as (c3 & -> & Hd3 & Hrl3 & _ & Hh3).
      cbn [mbind option_bind]. eexists _, (front ++ [p]), ((b1' ++ [q]) ++ b2). split; [reflexivity|].
      assert ((front ++ [p]) ++ (b1' ++ [q]) ++ b2 = f ++ kk :: p :: n :: l2) as El3.
      { rewrite Ef, <-!app_assoc. cbn [app]. by rewrite En. }
      split; [apply Hrep; try done; [by eapply relinked_trans|by rewrite El3|]|].
      * rewrite El3, Hh3, Hh2, Hh, Ef, <-!app_assoc. cbn [app]. by rewrite !slab_first_app.
      * split; [exact Hperm|]. apply Hfrs. by eapply relinked_trans.
    + apply last_None in Hlf as Ef. replace (final None front) with (@None Z) by (by rewrite Ef).
      assert (front ++ b1' = b1') as Ef1 by (by rewrite Ef). rewrite Ef1 in *.
      destruct (enqueue_head_spec p (b1' ++ q :: b2) c2) as (c3 & -> & Hd3 & Hrl3 & _ & Hh3); [by destruct b1'|done|done|done| |].
      { rewrite Hh2, Hh. by rewrite !slab_first_app. }
      assert ((front ++ [p]) ++ (b1' ++ [q]) ++ b2 = p :: b1' ++ q :: b2) as El3 by (by rewrite Ef, <-!app_assoc).
      cbn [mbind option_bind]. eexists _, (front ++ [p]), ((b1' ++ [q]) ++ b2). split; [reflexivity|].
      split; [apply Hrep; try done; [by eapply relinked_trans|by rewrite El3..]|split; [exact Hperm|]]. apply Hfrs. by eapply relinked_trans.
  - apply last_None in Hl as ->. cbn [app] in *.
    assert (s_prev (slabs c1 p) = final None front) as ->.
    { apply dll_app in Hd as [_ Hd]. cbn [dll] in Hd. apply Hd. }
    assert ((match final None front with Some q => if full q c1 then
        match curr (dequeue p q c1) with Some k => enqueue_curr p k (dequeue p q c1) | None => enqueue_head p (dequeue p q c1) end
        else Some c1 | None => Some c1 end) = Some c1) as ->.
    { unfold final. destruct (list.last front) as [q|] eqn:Hlf; [|done]. apply last_Some in Hlf as [f Ef].
      assert (q ∈ front) as Hqf by (rewrite Ef; apply elem_of_app; right; by left).
      destruct (rep_avail this C HC q _ _ (freed_slabs q ltac:(apply elem_of_app; by left))) as [_ ->].
      rewrite fn_lookup_insert_ne.
      - rewrite bool_decide_eq_false_2; [done|]. by apply HR.
      - intros ->. apply list.NoDup_app in Hn as (_ & Hn & _). apply (Hn q Hqf). by left. }
    cbn [mbind option_bind]. eexists _, (front ++ [p]), b2. split; [reflexivity|].
    split; [apply Hrep; try done; by rewrite <-app_assoc|split; [exact Hperm|]]. by apply Hfrs.
Qed.

(** The slab had free elements before: [back] stays as it is. *)
Lemma front_back f1 f2 : front = f1 ++ p :: f2 → ∀ q, q ∈ back → q ∈ back ∧ q ≠ p.
Proof.
  intros Ef q Hq. split; [done|]. intros ->. pose proof (cr_nodup _ _ _ _ _ HR) as Hn.
  apply list.NoDup_app in Hn as (_ & Hn & _). apply (Hn p); [|done]. rewrite Ef. apply elem_of_app. right. by left.
Qed.

Lemma freed_same f1 f2 : front = f1 ++ p :: f2 → cache_rep fl1 front back X c1.
Proof.
  intros Ef. destruct freed_c1 as (Hd & Hcu & Hh).
  apply freed_rep; [apply relinked_refl|done|done|done|done|auto|by eapply front_back].
Qed.

(** The slab becomes empty. *)
Lemma free_empty f1 f2 : front = f1 ++ p :: f2 → 
  ∃ c' front' back' X',
    (match s_prev (slabs c1 p) with
     | Some q =>
       let c := if bool_decide (curr c1 = Some p) then set_curr (Some q) c1 else c1 in
       let c := dequeue p q c in
       if empty C q c || (match head c with Some h => empty C h c | None => false end) then
         if bool_decide (head c = Some p) then None else slab_destroy p c
       else enqueue_head p c
     | None => Some c1
     end) = Some c' ∧
    cache_rep fl1 front' back' X' c' ∧ X' ⊆ X ∧
    (front' ++ back' ≡ₚ front ++ back ∨ p :: front' ++ back' ≡ₚ front ++ back) ∧
    (∀ n, room n (cfrs c) → room n (cfrs c')).
Proof.
  intros Ef. assert (cfrs c1 = cfrs c) as Ec1 by (by destruct freed_slab as [_ [_ _ _ _ (_ & ? & _)]]).
  assert (∀ c', relinked c1 c' → cfrs c' = cfrs c) as Hfrs by (intros c' [_ (_ & _ & ->)]; exact Ec1).
  destruct freed_c1 as (Hd & Hcu & Hh). pose proof (cr_nodup _ _ _ _ _ HR) as Hn.
  pose proof (front_back f1 f2 Ef) as Hback.
  destruct (list.last f1) as [q|] eqn:Hl; cycle 1.
  { apply last_None in Hl as ->. cbn [app] in *. pose proof (freed_same [] f2 Ef) as HR1. rewrite Ef in Hd. cbn [app dll] in Hd. destruct Hd as (-> & _ & _).
    exists c1, front, back, X. split; [done|]. split; [done|]. split; [done|]. rewrite Ec1. split; [by left|done]. }
  apply last_Some in Hl as [f0 ->].
  assert (front ++ back = f0 ++ q :: p :: (f2 ++ back)) as El by (rewrite Ef, <-!app_assoc; done).
  assert (((f0 ++ [q]) ++ f2) ++ back = f0 ++ q :: (f2 ++ back)) as El2 by (rewrite <-!app_assoc; done).
  rewrite El in Hd, Hh, Hn.
  assert (s_prev (slabs c1 p) = Some q) as ->.
  { apply dll_app in Hd as [_ Hd]. cbn [dll] in Hd. apply Hd. }
  set (c2 := if bool_decide (curr c1 = Some p) then set_curr (Some q) c1 else c1).
  assert (relinked c1 c2 ∧ slabs c2 = slabs c1 ∧ head c2 = head c1 ∧ curr c2 = final None ((f0 ++ [q]) ++ f2)) as (Hrl2 & Hs2 & Hh2 & Hc2).
  { unfold c2. destruct f2 as [|x f2'] using rev_ind.
    - rewrite Hcu, Ef, slab_final_snoc, app_nil_r, slab_final_snoc, bool_decide_eq_true_2 by done. split; [apply relinked_curr, relinked_refl|done].
    - rewrite bool_decide_eq_false_2; [split; [apply relinked_refl|split; [done|split; [done|]]]|].
      + by rewrite Hcu, Ef, app_comm_cons, !app_assoc, !slab_final_snoc.
      + rewrite Hcu, Ef, app_comm_cons, app_assoc, slab_final_snoc. intros [= ->]. apply list.NoDup_app in Hn as (_ & _ & Hn).
        apply list.NoDup_cons in Hn as [_ [Hn _]%list.NoDup_cons]. apply Hn. apply elem_of_app. left. apply elem_of_app. right. by left. }
  assert (NoDup (f0 ++ q :: f2 ++ back) ∧ (p ∉ f0 ++ q :: f2 ++ back)) as [Hn2 Hpn].
  { replace (f0 ++ q :: p :: f2 ++ back) with ((f0 ++ [q]) ++ p :: f2 ++ back) in Hn by (by rewrite <-app_assoc).
    apply nodup_middle in Hn as [H1 H2]. rewrite <-app_assoc in H1, H2. done. }
  destruct (slab_dequeue_spec f0 q p (f2 ++ back) c2 Hn) as (Hd3 & Hrl3 & Hc3 & Hh3); [by rewrite Hs2|].
  cbn zeta. set (c3 := dequeue p q c2) in *.
  assert (relinked c1 c3) as Hrl by (by eapply relinked_trans).
  assert (∀ x, x ∈ (f0 ++ [q]) ++ f2 → x ∈ front) as Hsub.
  { intros x Hx. rewrite Ef. apply elem_of_app. apply elem_of_app in Hx as [Hx|Hx]; [by left|right; by right]. }
  assert (head c3 = first (f0 ++ q :: f2 ++ back) None) as Hhd by (by rewrite Hh3, Hh2, Hh, !slab_first_app).
  assert (p :: ((f0 ++ [q]) ++ f2) ++ back ≡ₚ front ++ back) as Hperm.
  { rewrite Ef, <-(Permutation_middle (f0 ++ [q]) f2 p). done. }
  destruct (empty C q c3 || _) eqn:Hem.
  - rewrite bool_decide_eq_false_2.
    2: { rewrite Hhd. destruct f0 as [|x f0']; cbn [app first]; intros [= ->]; apply Hpn; by left. }
    assert (cache_rep fl1 ((f0 ++ [q]) ++ f2) back X c3) as HR3.
    { apply freed_sub; rewrite ?El2; try done; [by rewrite Hc3|auto]. }
    destruct (owns_free (OFFSET := OFFSET) (cfrs c3) X p (cqta c3)) as (e' & Hfr & HO & Hroom); [apply HR3|by apply HR|].
    unfold slab_destroy. rewrite Hfr. cbn [mbind option_bind].
    eexists _, ((f0 ++ [q]) ++ f2), back, (X ∖ {[p]}). split; [reflexivity|].
    split; [apply gone_rep; [done|by rewrite El2|done]|]. split; [by apply subseteq_difference_l|].
    split; [by right|]. rewrite <-(Hfrs c3 Hrl). exact Hroom.
  - destruct (enqueue_head_spec p (f0 ++ q :: f2 ++ back) c3) as (c4 & E4 & Hd4 & Hrl4 & Hc4 & Hh4); [by destruct f0|done..|].
    exists c4, (p :: (f0 ++ [q]) ++ f2), back, X. split; [done|].
    rewrite (Hfrs c4) by (by eapply relinked_trans). split; [|split; [done|split; [by left|done]]].
    apply freed_rep; cbn [app first]; rewrite ?El2; try done.
    + by eapply relinked_trans.
    + rewrite Hc4, Hc3, Hc2, final_cons. destruct ((f0 ++ [q]) ++ f2) as [|x l] eqn:E2; [by destruct f0|]. by rewrite !final_cons.
    + by rewrite <-El2.
    + intros x [->|Hx]%elem_of_cons; auto.
Qed.

Lemma free_rep : ∃ c' fl' front' back' X', free this C (slot p k) c = Some c' ∧ cache_rep fl' front' back' X' c' ∧
  X' ⊆ X ∧ (∀ y, live fl' (front' ++ back') y ↔ live fl (front ++ back) y ∧ y ≠ slot p k) ∧
  (∀ n, room n (cfrs c) → room n (cfrs c')).
Proof.
  pose proof (cr_page _ _ _ _ _ _ HR Hp) as Hpp. pose proof (cr_slab _ _ _ _ _ HR p Hp) as Hr.
  destruct freed_slab as [Hr1 _]. assert (slab_rep p (fl1 p) c1) as Hr1' by (by rewrite fn_lookup_insert).
  unfold free. rewrite (slot_slab OFFSET C HC p k Hpp Hk). rewrite (sr_owner _ _ _ _ _ Hr), Z.eqb_refl. cbn [negb].
  destruct (rep_avail this C HC p _ _ Hr) as [_ ->]. case_bool_decide as Hfl.
  - destruct (free_full Hfl) as (c' & front' & back' & Hc' & HR' & Hperm & Ec). cbn zeta in Hc'. rewrite Hc'.
    exists c', fl1, front', back', X. split; [done|]. split; [done|]. split; [done|]. rewrite Ec. split; [|done]. intros y.
    rewrite (live_perm fl1 _ _ y Hperm). by apply freed_live.
  - assert (p ∈ front) as Hpf.
    { apply elem_of_app in Hp as [|Hpb]; [done|]. by rewrite (cr_back _ _ _ _ _ HR p Hpb) in Hfl. }
    apply list_elem_of_split in Hpf as (f1 & f2 & Ef). destruct (empty C p c1) eqn:Hem.
    + destruct (free_empty f1 f2 Ef) as (c' & front' & back' & X' & Hc' & HR' & HX & Hperm & Hroom). cbn zeta in Hc'. rewrite Hc'.
      exists c', fl1, front', back', X'. split; [done|]. split; [done|]. split; [done|]. split; [|done]. intros y.
      rewrite <-freed_live by done. destruct Hperm as [Hperm|Hperm]; rewrite <-(live_perm fl1 _ _ y Hperm); [done|].
      by rewrite (empty_live fl1 p _ c1).
    + exists c1, fl1, front, back, X. split; [done|]. split; [by eapply freed_same|]. split; [done|].
      split; [intros y; by apply freed_live|]. by destruct freed_slab as [_ [_ _ _ _ (_ & -> & _)]].
Qed.
End free.

(** ** A cache is a set *)

(** The elements [S] are handed out, the slabs are in the pages [X]. *)
Definition cache_ok (S X : gset Z) c : Prop :=
  ∃ fl front back, cache_rep fl front back X c ∧ ∀ x, x ∈ S ↔ live fl (front ++ back) x.

(** An element of the slabs, with the link behind it. *)
Definition element (X : gset Z) (x : Z) : Prop :=
  ∃ p, p ∈ X ∧ p + SLAB_SIZE ≤ x ∧ x + buff C ≤ p + PAGE_SIZE.

Lemma ok_element S X c x : cache_ok S X c → x ∈ S → element X x.
Proof.
  intros (fl & front & back & HR & HS) Hx. apply HS in Hx as (p & k & Hp & Hk & _ & ->). exists p.
  split; [by eapply cr_pages|]. destruct (slot_range C HC k Hk). unfold SlabSound.slot. lia.
Qed.

(** Elements do not overlap. *)
Lemma ok_disjoint S X c x y : cache_ok S X c → x ∈ S → y ∈ S → x ≠ y → x + buff C ≤ y ∨ y + buff C ≤ x.
Proof.
  intros (fl & front & back & HR & HS) Hx Hy Hne.
  apply HS in Hx as (p & j & Hp & Hj & _ & ->). apply HS in Hy as (q & k & Hq & Hk & _ & ->).
  destruct (decide (p = q)) as [<-|Hpq].
  - destruct (Z.lt_trichotomy j k) as [Hl|[->|Hl]]; [|done|]; pose proof (slots_disjoint C HC _ _ Hl); unfold SlabSound.slot; lia.
  - pose proof (cr_page _ _ _ _ _ _ HR Hp) as (_ & Hp0 & _). pose proof (cr_page _ _ _ _ _ _ HR Hq) as (_ & Hq0 & _).
    destruct (slot_range C HC j Hj), (slot_range C HC k Hk). unfold SlabSound.slot, SLAB_SIZE, PAGE_SIZE, PAGE_BITS in *.
    apply Z.mod_divide in Hp0 as [a ->]; [|done]. apply Z.mod_divide in Hq0 as [b ->]; [|done]. nia.
Qed.

Lemma ok_empty c : head c = None → curr c = None → owns (cfrs c) ∅ → cache_ok ∅ ∅ c.
Proof.
  intros Hh Hc HO. exists (λ _, []), [], []. split; [split; try done; [by constructor|..]; intros q Hq; by apply elem_of_nil in Hq|].
  intros x. split; [by intros ?%elem_of_empty|]. intros (p & k & Hp & _). by apply elem_of_nil in Hp.
Qed.

Lemma alloc_ok S X c n : cache_ok S X c → room (Datatypes.S n) (cfrs c) →
  ∃ x c' X', alloc this C c = Some (x, c') ∧ (x ∉ S) ∧ cache_ok ({[x]} ∪ S) X' c' ∧ X ⊆ X' ∧ room n (cfrs c').
Proof.
  intros (fl & front & back & HR & HS) Hroom.
  destruct (alloc_rep fl front back X c n HR Hroom) as (x & c' & fl' & front' & back' & X' & Ha & HR' & Hn & _ & Hl & HX & Hr).
  exists x, c', X'. split; [done|]. split; [by rewrite HS|]. split; [|done]. exists fl', front', back'. split; [done|].
  intros y. by rewrite Hl, elem_of_union, elem_of_singleton, HS.
Qed.

Lemma free_ok S X c x : cache_ok S X c → x ∈ S →
  ∃ c' X', free this C x c = Some c' ∧ cache_ok (S ∖ {[x]}) X' c' ∧ X' ⊆ X ∧
    (∀ n, room n (cfrs c) → room n (cfrs c')).
Proof.
  intros (fl & front & back & HR & HS) Hx. apply HS in Hx as (p & k & Hp & Hk & Hn & ->).
  destruct (free_rep HR Hp Hk Hn) as (c' & fl' & front' & back' & X' & Hf & HR' & HX & Hl & Hroom).
  exists c', X'. split; [done|]. split; [|done]. exists fl', front', back'. split; [done|].
  intros y. by rewrite Hl, elem_of_difference, elem_of_singleton, HS.
Qed.
End cache.
