(* ===== verification/SlabSpec.v ===== *)
(** Slab caches for their clients, and the theorems applied: a cache on the
    pool of [PteBuddy]. *)
From S2P Require Import Prelude Bits Bitmap Quota Queue Buddy Pte PteKinds PteMap PteBuddy Slab SlabSound SlabCache.
Local Open Scope Z_scope.

(** What clients ask for: an element, or that the [i]-th of the elements they
    have is taken back. *)
Inductive request := ALLOC | FREE (i : nat).

Section client.
Context {OFFSET : Z} {E : Type} {F : Frames E} {FO : FramesOk OFFSET E} (this : Z) (C : sizes).
Implicit Types (c : cache (E := E)) (l : list Z).

Definition serve (r : request) (st : list Z * cache) : option (list Z * cache) :=
  let '(l, c) := st in
  match r with
  | ALLOC => '(x, c) ← alloc (E := E) this C c; Some (x :: l, c)
  | FREE i =>
    match l !! i with
    | Some x => c ← free (E := E) this C x c; Some (delete i l, c)
    | None => Some st
    end
  end.

Definition serve_all (rs : list request) (st : option (list Z * cache)) : option (list Z * cache) :=
  fold_left (λ st r, st ← st; serve r st) rs st.

Definition apart l : Prop :=
  ∀ i j x y, l !! i = Some x → l !! j = Some y → i ≠ j → x + buff C ≤ y ∨ y + buff C ≤ x.

Context (HC : sizes_ok C).
#[local] Abbreviation cache_ok := (cache_ok (OFFSET := OFFSET) this C).

Lemma serve_step r l X c n : cache_ok (list_to_set l) X c → NoDup l → room (S n) (cfrs c) →
  ∃ l' X' c', serve r (l, c) = Some (l', c') ∧ cache_ok (list_to_set l') X' c' ∧ NoDup l' ∧ room n (cfrs c').
Proof.
  intros Hok Hnd Hroom. assert (room n (cfrs c)) as Hroom' by (eapply room_le; [|exact Hroom]; lia).
  destruct r as [|i]; cbn [serve].
  - destruct (alloc_ok this C HC _ X c n Hok Hroom) as (x & c' & X' & -> & Hx & Hok' & _ & Hr).
    exists (x :: l), X', c'. split; [done|]. split; [done|]. split; [|done].
    constructor; [|done]. by rewrite <-(elem_of_list_to_set (C := gset Z)).
  - destruct (l !! i) as [x|] eqn:Hi; [|by exists l, X, c].
    assert (x ∈ (list_to_set l : gset Z)) as Hx by (apply elem_of_list_to_set; by eapply list_elem_of_lookup_2).
    destruct (free_ok this C HC _ X c x Hok Hx) as (c' & X' & -> & Hok' & _ & Hr).
    exists (delete i l), X', c'. split; [done|].
    pose proof (delete_Permutation l i x Hi) as Hp. pose proof Hnd as Hnd'. rewrite Hp in Hnd'.
    apply list.NoDup_cons in Hnd' as [Hxd Hd]. split; [|split; [done|by apply Hr]].
    assert ((list_to_set l : gset Z) ∖ {[x]} = list_to_set (delete i l)) as <-; [|done].
    apply set_eq. intros y. rewrite elem_of_difference, elem_of_singleton, !elem_of_list_to_set, Hp at 1.
    rewrite elem_of_cons. split; [by intros [[->|] ?]|]. intros Hy. split; [by right|]. by intros ->.
Qed.

Lemma serve_all_spec rs : ∀ l X c, cache_ok (list_to_set l) X c → NoDup l → room (length rs) (cfrs c) →
  ∃ l' X' c', serve_all rs (Some (l, c)) = Some (l', c') ∧ cache_ok (list_to_set l') X' c' ∧ NoDup l'.
Proof.
  induction rs as [|r rs IH]; intros l X c Hok Hnd Hroom; [by exists l, X, c|].
  destruct (serve_step r l X c (length rs) Hok Hnd Hroom) as (l1 & X1 & c1 & E1 & Hok1 & Hnd1 & Hr1).
  destruct (IH l1 X1 c1 Hok1 Hnd1 Hr1) as (l' & X' & c' & E' & ?). exists l', X', c'. split; [|done].
  unfold serve_all in *. cbn [fold_left mbind option_bind]. by rewrite E1.
Qed.

(** C17: a slab cache implements a set of elements.  If the elements [S] are
    handed out, the slabs lie in the pages [X] and the allocator has a page
    left, [alloc] returns an element that is not in [S], lies behind the header
    of one of the slabs together with the link word, and is added to the set;
    every element that is handed out can be given back, which takes just it
    from the set and lets slabs go at most.  Each operation is atomic, as the
    lock of the cache makes it. *)
Theorem slab_refines_set S X c n : cache_ok S X c → room (Datatypes.S n) (cfrs c) →
  (∃ x c' X', alloc this C c = Some (x, c') ∧ (x ∉ S) ∧ element C X' x ∧ cache_ok ({[x]} ∪ S) X' c' ∧ X ⊆ X' ∧
    room n (cfrs c')) ∧
  (∀ x, x ∈ S → ∃ c' X', free this C x c = Some c' ∧ cache_ok (S ∖ {[x]}) X' c' ∧ X' ⊆ X ∧
    ∀ m, room m (cfrs c) → room m (cfrs c')).
Proof.
  intros Hok Hroom. split; [|intros x; by apply free_ok].
  destruct (alloc_ok this C HC S X c n Hok Hroom) as (x & c' & X' & Ha & Hx & Hok' & ?).
  exists x, c', X'. split; [done|]. split; [done|]. split; [|done].
  eapply (ok_element this C HC); [exact Hok'|]. by apply elem_of_union_l, elem_of_singleton.
Qed.

(** whatever clients ask for, an empty cache serves every request as long as
    there are pages: no assertion fails, no slab is missed, and the elements
    that clients have never overlap. *)
Theorem slab_client_safe rs c : head c = None → curr c = None → owns (cfrs c) ∅ → room (length rs) (cfrs c) →
  ∃ l c', serve_all rs (Some ([], c)) = Some (l, c') ∧ NoDup l ∧ apart l.
Proof.
  intros Hh Hc HO Hroom.
  destruct (serve_all_spec rs [] ∅ c) as (l & X & c' & He & Hok & Hnd); [by apply ok_empty|constructor|done|].
  exists l, c'. split; [done|]. split; [done|]. intros i j x y Hi Hj Hij.
  apply (ok_disjoint this C HC _ X c' x y Hok); [apply elem_of_list_to_set; by eapply list_elem_of_lookup_2..|].
  intros ->. apply Hij. by eapply NoDup_lookup.
Qed.

(** ** All pages are given back *)

Lemma free_all_spec front back : ∀ pv X c, dll pv front (first back None) (slabs c) → head c = first (front ++ back) None →
  NoDup front → owns (OFFSET := OFFSET) (cfrs c) X → (∀ p, p ∈ front → p ∈ X ∧ full p c = false ∧ owner (slabs c p) = this) →
  (∀ p, p ∈ back → full p c = true) →
  ∃ c', free_all this (length front) c = Some c' ∧ head c' = first back None ∧
    owns (OFFSET := OFFSET) (cfrs c') (X ∖ list_to_set front) ∧
    curr c' = match back with [] => None | _ => final (curr c) front end.
Proof.
  induction front as [|p front IH]; intros pv X c Hd Hh Hn HO Hf Hb; cbn [app first length] in *.
  - assert (X ∖ list_to_set [] = X) as -> by apply difference_empty_L.
    destruct back as [|h back]; cbn [free_all first] in *; rewrite Hh; [by exists (set_curr None c)|].
    rewrite (Hb h) by by left. by exists c.
  - destruct (Hf p) as (Hp & Hfull & Ho); [by left|]. apply list.NoDup_cons in Hn as [Hpf Hn]. cbn [dll] in Hd.
    destruct Hd as (_ & Hnx & Hd). destruct (owns_free (OFFSET := OFFSET) (cfrs c) X p (cqta c) HO Hp) as (e' & Hfr & HO' & _).
    cbn [free_all]. rewrite Hh, Hfull, Ho, Z.eqb_refl. cbn [negb].
    unfold slab_destroy. cbn [set_curr cqta cfrs]. rewrite Hfr. cbn [mbind option_bind set_alloc set_curr slabs].
    rewrite Hnx. set (c1 := set_first _ _).
    destruct (IH (Some p) (X ∖ {[p]}) c1) as (c' & He & Hh' & HOx & Hc').
    + done.
    + cbn [c1 set_first head]. by rewrite slab_first_app.
    + done.
    + done.
    + intros q Hq. destruct (Hf q) as (Hq1 & Hq2 & Hq3); [by right|]. split; [|done].
      apply elem_of_difference. split; [done|]. intros ->%elem_of_singleton. done.
    + done.
    + exists c'. split; [exact He|]. split; [exact Hh'|].
      split; [by rewrite list_to_set_cons, <-difference_difference_l_L|].
      rewrite Hc'. by rewrite final_cons.
Qed.

(** [free (quota)] gives back the pages of exactly the slabs with free elements,
    the ones in use among them.  If there are full slabs they stay, and [curr]
    points to the last slab that was given back. *)
Lemma free_all_gives_back fl front back X c : cache_rep (OFFSET := OFFSET) this C fl front back X c →
  ∃ c', free_all this (length front) c = Some c' ∧ head c' = first back None ∧
    owns (OFFSET := OFFSET) (cfrs c') (X ∖ list_to_set front) ∧
    curr c' = match back with [] => None | _ => final None front end.
Proof.
  intros HR. pose proof HR as [Hd Hh Hc Hn HO Hpg Hsl Hfr Hbk]. apply dll_app in Hd as [Hd _].
  destruct (free_all_spec front back None X c Hd Hh) as (c' & He & Hh' & HO' & Hc').
  - by apply list.NoDup_app in Hn as [? _].
  - done.
  - intros p Hp. assert (p ∈ front ++ back) as Hpl by (apply elem_of_app; by left).
    destruct (rep_avail this C HC p _ _ (Hsl p Hpl)) as [_ ->]. split; [by apply Hpg|].
    rewrite bool_decide_eq_false_2 by by apply Hfr. split; [done|]. apply (Hsl p Hpl).
  - intros p Hp. destruct (rep_avail this C HC p (fl p) c) as [_ ->]; [apply Hsl, elem_of_app; by right|].
    rewrite (Hbk p Hp). done.
  - exists c'. split; [done|]. split; [done|]. split; [done|]. rewrite Hc'. destruct back; [done|].
    rewrite Hc. unfold final. by destruct (list.last front).
Qed.
End client.

(** ** A cache on a pool *)

#[local] Existing Instance demo_frames.
#[local] Existing Instance demo_ok.

(** Elements of 40 bytes, aligned to 32. *)
Definition demo_sizes : sizes := cache_sizes 40 32.
Definition demo_cache : cache (E := buddy) :=
  Cache (λ _, Slab 0 0 None None 0) (λ _, 0) quota_new demo_pool None None.

Lemma demo_sizes_ok : sizes_ok demo_sizes.
Proof. split; vm_compute; discriminate. Qed.

Lemma slab_demo_owns : owns (OFFSET := 65536) (cfrs demo_cache) ∅.
Proof. split; [done|]. exists ∅. split; [apply demo_rep|]. by intros p ?%elem_of_empty. Qed.

Lemma demo_room8 : room (OFFSET := 65536) 8 (cfrs demo_cache).
Proof. split; [done|]. exists ∅. split; [apply demo_rep|]. apply Nat.leb_le. by vm_compute. Qed.

Definition demo_requests : list request := [ALLOC; ALLOC; FREE 1; ALLOC; FREE 0; FREE 7; ALLOC; ALLOC].

Lemma slab_client_safe_witness :
  ∃ l c', serve_all 4096 demo_sizes demo_requests (Some ([], demo_cache)) = Some (l, c') ∧ apart demo_sizes l.
Proof.
  destruct (slab_client_safe (OFFSET := 65536) 4096 demo_sizes demo_sizes_ok demo_requests demo_cache
    eq_refl eq_refl slab_demo_owns demo_room8) as (l & c' & He & _ & Ha).
  exists l, c'. split; [exact He|exact Ha].
Defined.

Lemma slab_refines_set_witness :
  ∃ x c1 c2, alloc 4096 demo_sizes demo_cache = Some (x, c1) ∧ free 4096 demo_sizes x c1 = Some c2 ∧
    room (OFFSET := 65536) 7 (cfrs c2).
Proof.
  destruct (slab_refines_set (OFFSET := 65536) 4096 demo_sizes demo_sizes_ok ∅ ∅ demo_cache 7
    (ok_empty 4096 demo_sizes demo_cache eq_refl eq_refl slab_demo_owns) demo_room8) as [(x & c1 & X & Ha & _ & _ & Hok & _ & Hr) _].
  destruct (slab_refines_set (OFFSET := 65536) 4096 demo_sizes demo_sizes_ok _ X c1 6 Hok Hr) as [_ Hf].
  destruct (Hf x) as (c2 & X2 & Hfr & _ & _ & Hroom); [by apply elem_of_union_l, elem_of_singleton|].
  exists x, c1, c2. split; [exact Ha|]. split; [exact Hfr|]. by apply Hroom.
Defined.

(** 64 elements make two slabs, and the pages of both come back. *)
Example fill_and_drain_run :
  match serve_all 4096 demo_sizes (repeat ALLOC 64) (Some ([], demo_cache)) with
  | Some (l, c) =>
    match serve_all 4096 demo_sizes (repeat (FREE 0) 64) (Some (l, c)) with
    | Some (l', c') => (length l, used (cqta c), length l', used (cqta c'))
    | None => (0%nat, 0, 0%nat, 0)
    end
  | None => (0%nat, 0, 0%nat, 0)
  end = (64%nat, 2, 0%nat, 1).
Proof. vm_compute. reflexivity. Qed.
