(* ===== verification/HptOps.v ===== *)
(** The operations of host page tables: [src/hpt.cpp] and the functions of
    [include/hpt.hpp] that tell which tables of a domain to free.

    The tables that the CPUs use, [loc], share subtrees with the page table of
    the domain, [hpt]: [sync_from] copies an entry from one to the other. *)
From S2P Require Import Prelude Bits Bitmap Quota Queue Buddy Pte PteKinds PteMap PteSound PteUpdate.
Local Open Scope Z_scope.

#[export] Existing Instance Pte.Hpt.

Definition USER_ADDR : Z := 0x00007fffc0000000.
Definition CANONICAL_ADDR : Z := 0x0000800000000000.
Definition LINK_ADDR : Z := 0xffffffff81000000.
Definition CPU_LOCAL : Z := 0xffffffffbfe00000.
Definition SPC_LOCAL : Z := 0xffffffffc0000000.
Definition END_SPACE_LIM : Z := (ones64 + 1)%W.
Definition SPC_LOCAL_IOP : Z := SPC_LOCAL.
Definition SPC_LOCAL_OBJ : Z := (END_SPACE_LIM - 0x20000000)%W.
Definition SPC_LOCAL_REMAP : Z := (SPC_LOCAL_OBJ - 0x1000000)%W.

(** ** What to free of a domain's tables *)

Definition dest_hpt (FRAME_0 FRAME_1 : Z) : dest_fn :=
  λ p _ _, negb (p =? FRAME_0) && negb (p =? FRAME_1).

Definition iter_hpt_lev : iter_fn := λ l v,
  let v := if truthy (v .& (1 << 47))%W then (v .| wnot ((1 << 48) - 1)%W)%W else v in
  (2 <=? l) || ((l =? 1) && (SPC_LOCAL_OBJ <=? v)).

Definition dest_loc : dest_fn := λ _ v l, (USER_ADDR <=? v) && (3 <=? l).
Definition iter_loc_lev : iter_fn := λ l _, 3 <? l.

Section hpt.
Context (OFFSET : Z) {E : Type} {F : Frames E}.
Implicit Types s : state E.

(** [src.walk (quota, v, l, false)] of a copy of a root: the copy has the value
    of the root, and [l < LEV]. *)
Definition walk_copy (src v : Z) (n : nat) s : option (option Z * state E) :=
  if src =? 0 then Some (None, s) else walk OFFSET 3 (down OFFSET src v 3) v n false s.

(** The level of the entries to copy. *)
Definition sync_level (v o : Z) : nat := Z.to_nat ((bit_scan_reverse (v .^ o)%W - PAGE_BITS) / BPL).

(** [sync_from] of the table at [this]; [src] is the root of the other table. *)
Definition sync_from (this src v o : Z) s : option (bool * state E) :=
  let l := sync_level v o in
  '(e, s) ← walk_copy src v l s;
  match e with
  | None => Some (false, s)
  | Some e =>
    '(d, s) ← walk OFFSET LEV this v l true s;
    d ← d;
    if wds s d =? wds s e then Some (false, s)
    else Some (true, set_wds (<[d := wds s e]> (wds s)) s)
  end.

Definition sync_user (this src v : Z) s : option (bool * state E) := sync_from this src v CANONICAL_ADDR s.

(** [PDBR] is the root of the kernel's tables. *)
Fixpoint sync_range (fuel : nat) (l : Z) (this PDBR a e : Z) s : option (state E) :=
  if a <? e then
    match fuel with
    | O => None
    | S fuel =>
      '(_, s) ← sync_from this PDBR a CPU_LOCAL s;
      sync_range fuel l this PDBR (a + (1 << (l * BPL + PAGE_BITS)%Z))%W e s
    end
  else Some s.

Definition sync_master_range (fuel : nat) (this PDBR a e : Z) s : option (state E) :=
  sync_range fuel ((bit_scan_reverse (LINK_ADDR .^ CPU_LOCAL)%W - PAGE_BITS) / BPL) this PDBR a e s.

(** [replace]: the loop ends at the first turn, as nothing interferes between
    the copy [o = *e] and the compare-and-swap. *)
Definition replace (this v p : Z) s : option (Z * state E) :=
  '(e, s) ← walk OFFSET LEV this v 0 true s;
  e ← e;
  let o := wds s e in
  let s := if negb (o =? p) && negb (truthy (attr o .& HPT_W)%W) then (set_pte e o p s).2 else s in
  Some (Hpt_addr (wds s e), s).

(** [remap]: [hpt] is a local variable with the value of CR3. *)
Definition remap (hpt cr3 phys : Z) s : option (Z * state E) :=
  let s := set_wds (<[hpt := cr3]> (wds s)) s in
  let size := (1 << (BPL + PAGE_BITS)%Z)%W in
  let offset := (phys .& (size - 1))%W in
  let phys := (phys .& wnot offset)%W in
  s ← (match lookup OFFSET LEV hpt SPC_LOCAL_REMAP (wds s) with
       | None => Some s
       | Some _ =>
         '(_, s) ← update OFFSET hpt SPC_LOCAL_REMAP BPL 0 0 TYPE_DN s;
         '(_, s) ← update OFFSET hpt (SPC_LOCAL_REMAP + size)%W BPL 0 0 TYPE_DN s;
         Some s
       end);
  '(_, s) ← update OFFSET hpt SPC_LOCAL_REMAP BPL phys (HPT_W .| HPT_P)%W TYPE_UP s;
  '(_, s) ← update OFFSET hpt (SPC_LOCAL_REMAP + size)%W BPL (phys + size)%W (HPT_W .| HPT_P)%W TYPE_UP s;
  Some ((SPC_LOCAL_REMAP + offset)%W, s).
End hpt.
