(* ===== verification/SpacePio.v ===== *)
(** I/O port spaces: [include/space_pio.hpp] and [src/space_pio.cpp].

    A domain has a bitmap of 2^16 bits for its threads, mapped at
    [SPC_LOCAL_IOP], and one for its virtual CPUs; a bit that is clear lets the
    port be used.  Bitmaps are made, with all bits set, when they are needed. *)
From S2P Require Import Prelude Bits Bitmap Quota Queue Mdb Buddy Pte PteKinds PteMap PteSound PteUpdate HptOps.
Local Open Scope Z_scope.

(** [Buddy::allocator.alloc (1, quota, FILL_1)], less the filling; [None] is a panic. *)
Class Pairs (E : Type) := pair_alloc : quota → E → option (Z * quota * E).

(** [sizeof (mword)] is 8. *)
Definition idx_to_virt (idx : Z) : Z := (SPC_LOCAL_IOP + idx / 8 / 8 * 8)%W.
Definition idx_to_mask (idx : Z) : Z := (1 << (idx mod (8 * 8))%Z)%W.

Section pio.
Context (OFFSET : Z) {E : Type} {F : Frames E} {A : Pairs E}.

(** The bitmaps; physical addresses. *)
Record pio := Pio { pst : state E; hbmp : Z; gbmp : Z }.
Implicit Types m : pio.

Definition bmp (host : bool) m : Z := if host then hbmp m else gbmp m.
Definition set_bmp (host : bool) (b : Z) m : pio :=
  if host then Pio (pst m) b (gbmp m) else Pio (pst m) (hbmp m) b.
Definition set_pst (s : state E) m : pio := Pio s (hbmp m) (gbmp m).

(** Two pages of ones. *)
Definition new_bitmap (s : state E) : option (Z * state E) :=
  '(p, q, f) ← pair_alloc (qta s) (frs s);
  Some (p, State (λ a, if (p <=? a) && (a <? p + 2 * PAGE_SIZE) then ones64 else wds s a) q f).

(** [walk (quota, host, idx)]; [hpt] is the page table of the domain. *)
Definition walk (hpt : Z) (host : bool) (idx : Z) m : option (Z * pio) :=
  m ← (if bmp host m =? 0 then
      '(p, s) ← new_bitmap (pst m);
      let b := virt_to_phys OFFSET p in
      let m := set_bmp host b (set_pst s m) in
      if host then
        '(_, s) ← Pte.update OFFSET hpt SPC_LOCAL_IOP 1 b (HPT_NX .| HPT_D .| HPT_A .| HPT_W .| HPT_P)%W TYPE_UP (pst m);
        Some (set_pst s m)
      else Some m
    else Some m);
  Some ((bmp host m .| (idx_to_virt idx .& (2 * PAGE_SIZE - 1)))%W, m).

(** [update (quota, host, idx, attr)]. *)
Definition update_port (hpt : Z) (host : bool) (idx attr : Z) m : option pio :=
  '(phys, m) ← walk hpt host idx m;
  let a := phys_to_virt OFFSET phys in
  let w := wds (pst m) a in
  let w := if truthy attr then clr_mask w (idx_to_mask idx) else set_mask w (idx_to_mask idx) in
  Some (set_pst (set_wds (<[a := w]> (wds (pst m))) (pst m)) m).

(** The loops over the ports of a node, [n] of them from [i] on. *)
Fixpoint update_ports (n : nat) (hpt : Z) (host : bool) (base i attr : Z) m : option pio :=
  match n with
  | O => Some m
  | S n => m ← update_port hpt host (base + i)%W attr m; update_ports n hpt host base (i + 1) attr m
  end.

(** [update (quota, mdb, r)]. *)
Definition update (hpt : Z) (node : mdb) (r : Z) m : option (bool * pio) :=
  let n := Z.to_nat (1 << node_order node)%W in
  let a := (node_attr node .& wnot r)%W in
  m ← (if truthy (node_sub node .& 2)%W then update_ports n hpt false (node_base node) 0 a m else Some m);
  m ← update_ports n hpt true (node_base node) 0 a m;
  Some (false, m).

(** [page_fault (addr, error)]; [loc] is the root that the CPU uses. *)
Definition page_fault (FRAME_1 loc hpt addr : Z) (s : state E) : option (state E) :=
  '(b, s) ← sync_from OFFSET loc (wds s hpt) addr CPU_LOCAL s;
  if b : bool then Some s
  else '(_, s) ← replace OFFSET hpt addr (FRAME_1 .| HPT_NX .| HPT_A .| HPT_P)%W s; Some s.

(** ** Which ports may be used *)

(** The word of the bitmap at [b] for a port. *)
Definition port_word (b q : Z) : Z := phys_to_virt OFFSET (b .| (idx_to_virt q .& (2 * PAGE_SIZE - 1)))%W.

Definition allowed (host : bool) (q : Z) m : bool :=
  negb (Z.testbit (wds (pst m) (port_word (bmp host m) q)) (q mod 64)).

(** A bitmap is there, in two pages of the linear map. *)
Definition present (b : Z) : Prop :=
  b ≠ 0 ∧ 0 ≤ b < 2 ^ 52 ∧ b mod (2 * PAGE_SIZE) = 0 ∧ phys_to_virt OFFSET b + 2 * PAGE_SIZE ≤ 2 ^ 64.

Definition port (q : Z) : Prop := 0 ≤ q < 2 ^ 16.

Lemma port_low q : port q → (idx_to_virt q .& (2 * PAGE_SIZE - 1))%W = 8 * (q / 64).
Proof.
  intros Hq. unfold port in Hq. change (2 * PAGE_SIZE - 1)%W with (Z.ones 13). rewrite Z.land_ones by lia.
  unfold idx_to_virt. rewrite Z.div_div by lia. change (8 * 8) with 64.
  assert (0 ≤ q / 64 < 2 ^ 10) by (split; [apply Z.div_pos|apply Z.div_lt_upper_bound]; lia).
  change SPC_LOCAL_IOP with ((2 ^ 51 - 2 ^ 17) * 2 ^ 13). rewrite wadd_small by lia.
  rewrite Z.add_comm, Z.mod_add by done. rewrite Z.mod_small; lia.
Qed.

Lemma port_word_eq b q : present b → port q → port_word b q = phys_to_virt OFFSET b + 8 * (q / 64).
Proof.
  intros (_ & Hb & Hal & Hmax) Hq. unfold port_word. rewrite port_low by done. unfold port in Hq.
  assert (0 ≤ q / 64 < 2 ^ 10) as Hd by (split; [apply Z.div_pos|apply Z.div_lt_upper_bound]; lia).
  assert (Z.lor b (8 * (q / 64)) = b + 8 * (q / 64)) as ->.
  { symmetry. rewrite Z.add_nocarry_lxor; [apply Z.lxor_lor|]; apply Z.bits_inj'; intros i Hi; rewrite Z.land_spec, Z.bits_0;
      (destruct (Z.lt_ge_cases i 13);
        [rewrite (proj1 (mod_pow2_bits0 b 13 ltac:(lia)) Hal i) by lia; done
        |rewrite (word_bits 13 (8 * (q / 64))) by (lia || (unfold word; lia)); by rewrite andb_false_r]). }
  transitivity (wrap 64 (phys_to_virt OFFSET b + 8 * (q / 64))); [unfold phys_to_virt; wcong|].
  apply wrap_small. unfold word. pose proof (wadd_word b OFFSET) as Hw. unfold word in Hw.
  unfold phys_to_virt, PAGE_SIZE, PAGE_BITS in *. lia.
Qed.

(** Both bitmaps are there and apart. *)
Record ready m : Prop := {
  rd_host : present (hbmp m);
  rd_guest : present (gbmp m);
  rd_apart : phys_to_virt OFFSET (hbmp m) + 2 * PAGE_SIZE ≤ phys_to_virt OFFSET (gbmp m) ∨
    phys_to_virt OFFSET (gbmp m) + 2 * PAGE_SIZE ≤ phys_to_virt OFFSET (hbmp m);
}.

Definition in_bitmap (b a : Z) : Prop := phys_to_virt OFFSET b ≤ a < phys_to_virt OFFSET b + 2 * PAGE_SIZE.

Lemma rd_bmp m h : ready m → present (bmp h m).
Proof. intros [? ? _]. by destruct h. Qed.

Lemma word_in b q : present b → port q → in_bitmap b (port_word b q).
Proof.
  intros Hb Hq. unfold in_bitmap. rewrite port_word_eq by done. unfold port in Hq.
  assert (0 ≤ q / 64 < 2 ^ 10) by (split; [apply Z.div_pos|apply Z.div_lt_upper_bound]; lia).
  unfold PAGE_SIZE, PAGE_BITS. lia.
Qed.

Lemma words_apart m h h' a : ready m → in_bitmap (bmp h m) a → in_bitmap (bmp h' m) a → h = h'.
Proof.
  intros [_ _ Hap] H1 H2. unfold in_bitmap in *. destruct h, h'; try done; cbn [bmp] in *; lia.
Qed.

(** A change of the words of one bitmap. *)
Record port_step (hpt : Z) (host : bool) m m' : Prop := {
  ps_ready : ready m';
  ps_bmps : hbmp m' = hbmp m ∧ gbmp m' = gbmp m;
  ps_rest a : ¬ in_bitmap (bmp host m) a → wds (pst m') a = wds (pst m) a;
  ps_other q : port q → allowed (negb host) q m' = allowed (negb host) q m;
}.

Lemma port_step_trans hpt host m1 m2 m3 : port_step hpt host m1 m2 → port_step hpt host m2 m3 → port_step hpt host m1 m3.
Proof.
  intros [A1 [B1 C1] D1 E1] [A2 [B2 C2] D2 E2]. split; [done|split; congruence| |].
  - intros a Ha. rewrite D2, D1; [done|done|]. by destruct host; cbn [bmp] in *; rewrite ?B1, ?C1.
  - intros q Hq. by rewrite E2, E1.
Qed.

Lemma mask_bit (b : bool) w q j :
  Z.testbit (if b then clr_mask w (idx_to_mask q) else set_mask w (idx_to_mask q)) (j mod 64) =
  if decide (j mod 64 = q mod 64) then negb b else Z.testbit w (j mod 64).
Proof.
  pose proof (Z.mod_pos_bound q 64 ltac:(done)). pose proof (Z.mod_pos_bound j 64 ltac:(done)).
  unfold idx_to_mask. change (8 * 8) with 64. destruct b.
  - unfold clr_mask. rewrite Z.land_spec, wnot_bits, one_shl_bits by (lia || auto with nova).
    rewrite (proj2 (Z.leb_le _ _)), (proj2 (Z.ltb_lt _ _)) by lia. cbn [andb]. case_decide as Hj; [rewrite bool_decide_eq_true_2 by done|rewrite bool_decide_eq_false_2 by done].
    + by rewrite andb_false_r.
    + by rewrite andb_true_r.
  - rewrite set_bit_bits by lia. case_decide as Hj; [rewrite bool_decide_eq_true_2 by done|rewrite bool_decide_eq_false_2 by done].
    + by rewrite orb_true_r.
    + by rewrite orb_false_r.
Qed.

Lemma same_port q j : q / 64 = j / 64 → q mod 64 = j mod 64 → q = j.
Proof. intros. rewrite (Z.div_mod q 64), (Z.div_mod j 64) by done. lia. Qed.

Lemma update_port_spec hpt host q attr m : ready m → port q →
  ∃ m', update_port hpt host q attr m = Some m' ∧ port_step hpt host m m' ∧
    ∀ j, port j → allowed host j m' = if decide (j = q) then truthy attr else allowed host j m.
Proof.
  intros HR Hq. pose proof (rd_bmp m host HR) as Hb. unfold update_port, walk.
  rewrite (proj2 (Z.eqb_neq _ _)) by apply Hb. cbn [mbind option_bind].
  fold (port_word (bmp host m) q). set (a := port_word (bmp host m) q).
  eexists. split; [reflexivity|]. set (w := if truthy attr then _ else _). set (m' := set_pst _ m).
  assert (bmp host m' = bmp host m ∧ bmp (negb host) m' = bmp (negb host) m) as [Hbm Hbn] by by destruct host.
  pose proof (word_in _ q Hb Hq : in_bitmap _ a) as Ha.
  assert (∀ x, x ≠ a → wds (pst m') x = wds (pst m) x) as Hne by (intros x Hx; by apply fn_lookup_insert_ne).
  assert (wds (pst m') a = w) as Haw by apply fn_lookup_insert.
  split.
  - split; [by destruct HR|done| |].
    + intros x Hx. apply Hne. by intros ->.
    + intros j Hj. unfold allowed. rewrite Hbn, Hne; [done|]. intros Hx.
      assert (negb host = host); [|by destruct host]. apply (words_apart m (negb host) host a HR); [|done].
      rewrite <-Hx. apply word_in; [by apply rd_bmp|done].
  - intros j Hj. unfold allowed. rewrite Hbm.
    destruct (decide (port_word (bmp host m) j = a)) as [Hja|Hja].
    + rewrite Hja, Haw. unfold w. rewrite mask_bit. unfold a in Hja. rewrite !port_word_eq in Hja by done.
      case_decide as Hm; case_decide as Hjq; try (by rewrite negb_involutive).
      * destruct Hjq. apply same_port; [lia|done].
      * by subst j.
      * done.
    + rewrite Hne by done. by rewrite decide_False by (intros ->; done).
Qed.

Lemma update_ports_spec n hpt host base attr : ∀ i m, ready m → 0 ≤ base → 0 ≤ i → base + i + Z.of_nat n ≤ 2 ^ 16 →
  ∃ m', update_ports n hpt host base i attr m = Some m' ∧ (n = 0%nat ∨ port_step hpt host m m') ∧ ready m' ∧
    ∀ j, port j → allowed host j m' = if decide (base + i ≤ j < base + i + Z.of_nat n) then truthy attr else allowed host j m.
Proof.
  induction n as [|n IH]; intros i m HR Hb Hi Hn.
  { exists m. split; [done|]. split; [by left|]. split; [done|]. intros j _. by rewrite decide_False by lia. }
  cbn [update_ports]. rewrite wadd_small by lia.
  destruct (update_port_spec hpt host (base + i) attr m HR) as (m1 & -> & HS1 & Ha1); [unfold port; lia|]. cbn [mbind option_bind].
  destruct (IH (i + 1) m1 (ps_ready _ _ _ _ HS1)) as (m2 & Hu & HS2 & HR2 & Ha2); [done|lia|lia|].
  exists m2. split; [exact Hu|]. split; [right|split; [done|]].
  - destruct HS2 as [->|HS2]; [|by eapply port_step_trans]. cbn in Hu. by injection Hu as <-.
  - intros j Hj. rewrite Ha2, Ha1 by done.
    destruct (decide (base + i ≤ j < base + i + Z.of_nat (S n))); destruct (decide (base + (i + 1) ≤ j < base + (i + 1) + Z.of_nat n));
      destruct (decide (j = base + i)); try done; lia.
Qed.

(** a domain may use exactly the ports it was given.  [update] of a node lets
    the threads use every port of the node, or none when no right is left, and
    the virtual CPUs too when the node says so; no other port and no other word
    of memory changes. *)
Theorem pio_update hpt node r m :
  ready m → 0 ≤ node_base node → 0 ≤ node_order node → node_base node + 2 ^ node_order node ≤ 2 ^ 16 →
  ∃ m', update hpt node r m = Some (false, m') ∧ ready m' ∧
    (∀ h q, port q → allowed h q m' =
      if decide ((node_base node ≤ q < node_base node + 2 ^ node_order node) ∧ (h = true ∨ truthy (node_sub node .& 2)%W = true))
      then truthy (node_attr node .& wnot r)%W else allowed h q m) ∧
    ∀ a, ¬ in_bitmap (hbmp m) a → ¬ in_bitmap (gbmp m) a → wds (pst m') a = wds (pst m) a.
Proof.
  intros HR Hb Ho Hend. assert (node_order node < 64) as Ho64.
  { apply Z.nle_gt. intros Hge. assert (2 ^ 64 ≤ 2 ^ node_order node) by (apply Z.pow_le_mono_r; lia). lia. }
  pose proof (pow2_pos _ Ho) as Hpos. unfold update. rewrite wshl_1 by lia.
  set (n := Z.to_nat (2 ^ node_order node)). set (a := (node_attr node .& wnot r)%W).
  assert (Z.of_nat n = 2 ^ node_order node) as En by (unfold n; lia). assert (n ≠ 0%nat) as Hn0 by lia.
  assert (∃ m1, (if truthy (node_sub node .& 2)%W then update_ports n hpt false (node_base node) 0 a m else Some m) = Some m1 ∧
    ready m1 ∧ (hbmp m1 = hbmp m ∧ gbmp m1 = gbmp m) ∧ (∀ x, ¬ in_bitmap (gbmp m) x → wds (pst m1) x = wds (pst m) x) ∧
    (∀ q, port q → allowed true q m1 = allowed true q m) ∧
    ∀ q, port q → allowed false q m1 = if decide ((node_base node ≤ q < node_base node + 2 ^ node_order node) ∧
      truthy (node_sub node .& 2)%W = true) then truthy a else allowed false q m) as (m1 & -> & HR1 & [Hh1 Hg1] & Hr1 & Hat & Haf).
  { destruct (truthy (node_sub node .& 2)%W).
    - destruct (update_ports_spec n hpt false (node_base node) a 0 m HR) as (m1 & Hu & [|[_ Hbm Hr Hoth]] & HR1 & Ha); try lia.
      exists m1. split; [exact Hu|]. split; [done|]. split; [done|]. split; [exact Hr|]. split; [exact Hoth|].
      intros q Hq. rewrite Ha by done. rewrite Z.add_0_r, En.
      repeat case_decide; try done; tauto.
    - exists m. split_and!; try done. intros q _. rewrite decide_False by (by intros [_ ?]). done. }
  cbn [mbind option_bind].
  destruct (update_ports_spec n hpt true (node_base node) a 0 m1 HR1) as (m2 & Hu & [|[_ Hbm Hr Hoth]] & HR2 & Ha); try lia.
  exists m2. rewrite Hu. split; [done|]. split; [done|]. split.
  - intros h q Hq. destruct h.
    + rewrite Ha by done. rewrite Z.add_0_r, En, Hat by done. repeat case_decide; try done; tauto.
    + change (negb true) with false in Hoth. rewrite (Hoth q Hq), Haf by done. repeat case_decide; try done; destruct_and?; destruct_or?; done || tauto.
  - intros x Hx1 Hx2. rewrite Hr, Hr1; [done|done|]. cbn [bmp]. by rewrite Hh1.
Qed.

(** A bitmap that is made lets no port be used. *)
Lemma fresh_bitmap m hpt idx p q f :
  gbmp m = 0 → pair_alloc (qta (pst m)) (frs (pst m)) = Some (p, q, f) → word 64 p → present (virt_to_phys OFFSET p) →
  ∃ b m', walk hpt false idx m = Some (b, m') ∧ gbmp m' = virt_to_phys OFFSET p ∧ ∀ j, port j → allowed false j m' = false.
Proof.
  intros H0 Ha Hw Hp. unfold walk. cbn [bmp]. rewrite H0. cbn [Z.eqb]. unfold new_bitmap. rewrite Ha.
  cbn [mbind option_bind set_bmp set_pst gbmp hbmp pst]. eexists _, _. split; [reflexivity|]. split; [done|].
  intros j Hj. unfold allowed. cbn [bmp gbmp pst wds]. pose proof (word_in _ j Hp Hj) as Hin. unfold in_bitmap in Hin.
  rewrite virt_phys in Hin by done. rewrite (proj2 (Z.leb_le _ _)), (proj2 (Z.ltb_lt _ _)) by lia. cbn [andb].
  pose proof (Z.mod_pos_bound j 64 ltac:(done)). rewrite ones64_bits by lia. rewrite (proj2 (Z.ltb_lt _ _)) by lia. done.
Qed.
End pio.

(** The serial port is given to a domain whose bitmaps let it use nothing. *)
#[local] Instance no_frames : Frames unit := {| frame_alloc _ _ := None; frame_free _ _ _ := None |}.
#[local] Instance no_pairs : Pairs unit := λ _ _, None.

Definition demo_pio : pio (E := unit) := Pio (State (λ _, ones64) quota_new tt) 0x100000 0x102000.
Definition demo_ports : mdb := Mdb 0 0%nat 0%nat None None 0 0x3f8 3 3 0 2.

Lemma demo_pio_ready : ready 65536 demo_pio.
Proof. split; [by repeat split|by repeat split|left; by vm_compute]. Qed.

Lemma pio_update_witness :
  ∃ m', update 65536 8 demo_ports 0 demo_pio = Some (false, m') ∧ allowed 65536 true 0x3fd m' = true ∧
    allowed 65536 false 0x3fd m' = true ∧ allowed 65536 true 0x2f8 m' = false.
Proof.
  destruct (pio_update 65536 8 demo_ports 0 demo_pio demo_pio_ready) as (m' & Hu & _ & Ha & _);
    [by vm_compute|by vm_compute|by vm_compute|].
  assert (∀ q, 0 ≤ q < 2 ^ 16 → port q) as Hp by done.
  exists m'. split; [exact Hu|]. split; [|split]; rewrite Ha by (apply Hp; lia); by vm_compute.
Defined.
