(* ===== verification/SpaceObj.v ===== *)
(** Object spaces: [include/space_obj.hpp] and [src/space_obj.cpp].

    The capabilities of a domain are an array in the kernel's part of its
    address space.  Pages of the array are made when a capability is stored;
    what was never stored is not mapped, or mapped to a page of zeros at the
    physical address [FRAME_0]. *)
From S2P Require Import Prelude Bits Bitmap Quota Queue Mdb Crd Buddy Pte PteKinds PteMap PteSound PteUpdate HptOps.
Local Open Scope Z_scope.

(** [sizeof (Capability)] is 8. *)
Definition caps : Z := (END_SPACE_LIM - SPC_LOCAL_OBJ)%W / 8.
Definition idx_to_virt (idx : Z) : Z := (SPC_LOCAL_OBJ + (idx mod caps) * 8)%W.

Section obj.
Context (OFFSET FRAME_0 : Z) {E : Type} {F : Frames E}.
Implicit Types s : state E.

(** [phys & ~PAGE_MASK]. *)
Definition frame_of (phys : Z) : Z := (phys .& wnot PAGE_MASK)%W.

(** A new page for the entry of [virt]; [phys] is what [lookup] left. *)
Definition renew (hpt virt phys : Z) s : option (Z * bool * state E) :=
  let shootdown := frame_of phys =? FRAME_0 in
  '(ptr, s) ← new_table s;
  let p := virt_to_phys OFFSET ptr in
  '(phys, s) ← replace OFFSET hpt virt (p .| HPT_NX .| HPT_D .| HPT_A .| HPT_W .| HPT_P)%W s;
  s ← (if negb (phys =? p) then destroy ptr s else Some s);
  Some ((phys .| (virt .& PAGE_MASK))%W, shootdown, s).

(** [walk (quota, idx, shootdown)] for the page table at [hpt].  [junk] is the
    value of the local variable [phys], which is not initialised. *)
Definition walk (hpt idx junk : Z) s : option (Z * bool * state E) :=
  let virt := idx_to_virt idx in
  match Pte.lookup OFFSET LEV hpt virt (wds s) with
  | None => renew hpt virt junk s
  | Some (_, phys, _) => if frame_of phys =? FRAME_0 then renew hpt virt phys s else Some (phys, false, s)
  end.

(** [update (quota, idx, cap)]. *)
Definition update_cap (hpt idx cap junk : Z) s : option (bool * state E) :=
  '(phys, shootdown, s) ← walk hpt idx junk s;
  Some (shootdown, set_wds (<[phys_to_virt OFFSET phys := cap]> (wds s)) s).

(** [lookup (idx, cap)]: the capability, when the result is 1. *)
Definition lookup_cap (hpt idx : Z) s : option Z :=
  match Pte.lookup OFFSET LEV hpt (idx_to_virt idx) (wds s) with
  | None => None
  | Some (_, phys, _) => if frame_of phys =? FRAME_0 then None else Some (wds s (phys_to_virt OFFSET phys))
  end.

(** [update (quota, mdb, r)].  The assertion on [mdb->space] is a precondition. *)
Definition update (hpt : Z) (node : mdb) (r junk : Z) s : option (bool * state E) :=
  update_cap hpt (node_base node) (capability (node_phys node) (node_attr node .& wnot r)%W) junk s.

(** [page_fault (addr, error)]; [loc] is the root that the CPU uses. *)
Definition page_fault (loc hpt addr : Z) s : option (state E) :=
  '(b, s) ← sync_from OFFSET loc (wds s hpt) addr CPU_LOCAL s;
  if b : bool then Some s
  else '(_, s) ← replace OFFSET hpt addr (FRAME_0 .| HPT_NX .| HPT_A .| HPT_P)%W s; Some s.
End obj.
