(* ===== verification/SpaceObjSound.v ===== *)
(** Correctness of object spaces: the capabilities of a domain are a map from
    selectors, however their pages come about. *)
From S2P Require Import Prelude Bits Bitmap Quota Queue Mdb Crd Buddy Pte PteKinds PteMap PteSound PteUpdate HptOps SpaceObj.
Local Open Scope Z_scope.

(** ** Selectors and addresses *)

Definition page_no (i : Z) : Z := (i mod caps) / 512.
Definition slot_off (i : Z) : Z := (i mod caps) mod 512 * 8.
Definition page_at (y : Z) : Z := SPC_LOCAL_OBJ + y * PAGE_SIZE.

Lemma caps_eq : caps = 2 ^ 26.
Proof. reflexivity. Qed.

Lemma obj_eq : SPC_LOCAL_OBJ = 2 ^ 64 - 2 ^ 29.
Proof. reflexivity. Qed.

Lemma page_range i : 0 ≤ page_no i < 2 ^ 17.
Proof.
  unfold page_no. rewrite caps_eq. pose proof (Z.mod_pos_bound i (2 ^ 26) ltac:(done)).
  split; [apply Z.div_pos; lia|apply Z.div_lt_upper_bound; lia].
Qed.

Lemma off_range i : 0 ≤ slot_off i < PAGE_SIZE ∧ slot_off i mod 8 = 0.
Proof.
  unfold slot_off. pose proof (Z.mod_pos_bound (i mod caps) 512 ltac:(done)). unfold PAGE_SIZE, PAGE_BITS.
  split; [lia|]. by apply Z.mod_mul.
Qed.

Lemma virt_split i : idx_to_virt i = page_at (page_no i) + slot_off i.
Proof.
  pose proof (page_range i). pose proof (off_range i) as [Ho _].
  assert ((i mod caps) * 8 = page_no i * PAGE_SIZE + slot_off i) as E0.
  { unfold page_no, slot_off. pose proof (Z.div_mod (i mod caps) 512 ltac:(done)). unfold PAGE_SIZE, PAGE_BITS. lia. }
  unfold idx_to_virt, page_at. rewrite E0, obj_eq. unfold PAGE_SIZE, PAGE_BITS in *. rewrite wadd_small; lia.
Qed.

Lemma same_selector i j : page_no i = page_no j → slot_off i = slot_off j → i mod caps = j mod caps.
Proof.
  unfold page_no, slot_off. intros Hp Ho. rewrite (Z.div_mod (i mod caps) 512), (Z.div_mod (j mod caps) 512) by done. lia.
Qed.

Lemma virt_mod i : idx_to_virt i mod PAGE_SIZE = slot_off i.
Proof.
  rewrite virt_split. unfold page_at. rewrite obj_eq. pose proof (off_range i) as [Ho _].
  replace (2 ^ 64 - 2 ^ 29 + page_no i * PAGE_SIZE + slot_off i)
    with (slot_off i + (2 ^ 52 - 2 ^ 17 + page_no i) * PAGE_SIZE) by (unfold PAGE_SIZE, PAGE_BITS; lia).
  rewrite Z.mod_add by done. by apply Z.mod_small.
Qed.

Lemma virt_page i : idx_to_virt i - idx_to_virt i mod PAGE_SIZE = page_at (page_no i).
Proof. rewrite virt_mod, virt_split. lia. Qed.

Lemma page_at_low y : 0 ≤ y < 2 ^ 17 → page_at y mod 2 ^ 48 = 2 ^ 48 - 2 ^ 29 + y * PAGE_SIZE.
Proof.
  intros Hy. unfold page_at. rewrite obj_eq. unfold PAGE_SIZE, PAGE_BITS.
  replace (2 ^ 64 - 2 ^ 29 + y * 2 ^ 12) with (2 ^ 48 - 2 ^ 29 + y * 2 ^ 12 + (2 ^ 16 - 1) * 2 ^ 48) by lia.
  rewrite Z.mod_add by done. apply Z.mod_small. lia.
Qed.

Lemma virt_low i : idx_to_virt i mod 2 ^ 48 = 2 ^ 48 - 2 ^ 29 + page_no i * PAGE_SIZE + slot_off i.
Proof.
  pose proof (page_range i) as Hp. pose proof (off_range i) as [Ho _]. rewrite virt_split.
  rewrite <-Z.add_mod_idemp_l, (page_at_low _ Hp) by done. apply Z.mod_small. unfold PAGE_SIZE, PAGE_BITS in *. lia.
Qed.

Lemma covers_slot y i : 0 ≤ y < 2 ^ 17 → covers (page_at y) 0 (idx_to_virt i) ↔ page_no i = y.
Proof.
  intros Hy. unfold covers, in_block. rewrite page_at_low, virt_low by done. pose proof (off_range i) as [Ho _].
  change (2 ^ (0 + PAGE_BITS)) with PAGE_SIZE. unfold PAGE_SIZE, PAGE_BITS in *. split; [lia|intros ->; lia].
Qed.

Lemma offset_slot i : offset (page_at (page_no i)) (idx_to_virt i) = slot_off i.
Proof. unfold offset. rewrite virt_low, (page_at_low _ (page_range i)). lia. Qed.

(** ** Frames *)

Lemma frame_of_eq f x : 0 ≤ f < 2 ^ 52 → f mod PAGE_SIZE = 0 → 0 ≤ x < PAGE_SIZE → frame_of (f + x) = f.
Proof.
  intros Hf Hal Hx. change (frame_of (f + x)) with (Pte_addr (f + x)).
  rewrite <-(lor_sum f x Hf Hal (small_flags x Hx)), Pte_addr_low; done.
Qed.

Section replace.
Context {OFFSET : Z} {E : Type} {F : Frames E} {FO : FramesOk OFFSET E}.
Implicit Types (s : state E) (T : tree) (X : gset Z).

(** The attributes of a page of capabilities. *)
Definition cap_attr : Z := (HPT_NX .| HPT_D .| HPT_A .| HPT_W .| HPT_P)%W.

Lemma cap_attr_good : Hpt_good cap_attr.
Proof.
  split; [by vm_compute|]. intros i Hi.
  assert (cap_attr = Z.lor (2 ^ 63) 99) as -> by reflexivity.
  rewrite Z.lor_spec, Z.pow2_bits_false by lia. apply (word_bits 12); [done|lia].
Qed.

Lemma cap_entry f : (f .| HPT_NX .| HPT_D .| HPT_A .| HPT_W .| HPT_P)%W = leaf (K := Hpt) 0 0 f cap_attr.
Proof.
  unfold leaf, cap_attr. change (order_bits 0) with 0. change (pte_s (Z.of_nat 0)) with 0. rewrite !Z.lor_0_r.
  by rewrite !Z.lor_assoc.
Qed.

Lemma idx_page l v : idx l (v - v mod PAGE_SIZE) = idx l v.
Proof.
  rewrite !idx_div. f_equal. unfold shift. rewrite Z.pow_add_r by lia. change (2 ^ 12) with PAGE_SIZE.
  rewrite (Z.mul_comm _ PAGE_SIZE), <-!Z.div_div by (done || (apply pow2_pos; lia)). f_equal.
  replace (v - v mod PAGE_SIZE) with (v / PAGE_SIZE * PAGE_SIZE) by (pose proof (Z.div_mod v PAGE_SIZE ltac:(done)); lia).
  by apply Z.div_mul.
Qed.

Lemma walk_page l e v n a s : Pte.walk OFFSET l e (v - v mod PAGE_SIZE) n a s = Pte.walk OFFSET l e v n a s.
Proof.
  revert e s. induction l as [|l IH]; intros e s; [done|]. cbn [Pte.walk]. unfold down. rewrite idx_page.
  destruct (S l =? n)%nat; [done|]. destruct (wds s e =? 0); [|apply IH].
  destruct (negb a); [done|]. destruct (grow OFFSET (S l) e s) as [s1|]; [|done]. apply IH.
Qed.

(** Addresses of a page are mapped alike. *)
Lemma lookup_page l e v w :
  (λ x, x.1.1) <$> Pte.lookup OFFSET l e (v - v mod PAGE_SIZE) w = (λ x, x.1.1) <$> Pte.lookup OFFSET l e v w.
Proof.
  revert e. induction l as [|l IH]; intros e; cbn [lookup]; (destruct (w e =? 0); [done|]); [done|].
  destruct (negb (super _ (w e))); [|done]. unfold down. rewrite idx_page. apply IH.
Qed.

Lemma page_region v f : frame f → region (v - v mod PAGE_SIZE) 0 f.
Proof.
  intros [Hf Hal]. split; [lia| |exact Hal|].
  - change (2 ^ (0 + PAGE_BITS)) with PAGE_SIZE. rewrite Zminus_mod_idemp_r, Z.sub_diag. done.
  - change (2 ^ (0 + PAGE_BITS)) with PAGE_SIZE. split; [lia|].
    pose proof (Z.div_mod f PAGE_SIZE ltac:(done)). unfold PAGE_SIZE, PAGE_BITS in *.
    assert (f / 2 ^ 12 < 2 ^ 40) by (apply Z.div_lt_upper_bound; lia). lia.
Qed.

(** [replace] writes what [update] of the page would, unless the entry is
    writable or has the value already. *)
Lemma replace_spec T X r s v f m :
  sound (OFFSET := OFFSET) T X r s → frame f → no_larger (OFFSET := OFFSET) 0 r v (wds s) → room (LEV + m) (frs s) →
  (∀ sz g a, translate (OFFSET := OFFSET) r v s = Some (sz, g, a) → truthy (a .& HPT_W)%W = false ∧ frame_of g ≠ f) →
  ∃ fl T' X' s', replace OFFSET r v (leaf (K := Hpt) 0 0 f cap_attr) s = Some (f, s') ∧
    updated (OFFSET := OFFSET) (v - v mod PAGE_SIZE) 0 f cap_attr T X r s fl T' X' s' ∧ room m (frs s').
Proof.
  intros HS Hf Hmax Hroom Hold.
  assert (no_larger (OFFSET := OFFSET) 0 r (v - v mod PAGE_SIZE) (wds s)) as Hmax'.
  { intros sz g a Hl. pose proof (lookup_page LEV r v (wds s)) as Hp. rewrite Hl in Hp.
    destruct (Pte.lookup OFFSET LEV r v (wds s)) as [[[sz' g'] a']|] eqn:Hv; [|done]. injection Hp as ->. by eapply Hmax. }
  destruct (grow_region (K := Hpt) (L := Hpt_laws) T X r s (v - v mod PAGE_SIZE) 0 f cap_attr m HS (page_region v f Hf) cap_attr_good Hmax' Hroom)
    as (fl & T' & X' & s' & Hu & HU & Hm).
  destruct (walk_grow (OFFSET := OFFSET) LEV T X r 0 LEV v r s m) as (e & T1 & s1 & Hw & G & He & _); [done|done|by unfold slot; rewrite pos_top|done|done|].
  exists fl, T', X', s'. split; [|done].
  destruct Hf as [Hf Hal]. assert (0 ≤ f < 2 ^ 52) as Hf0 by lia.
  assert (leaf (K := Hpt) 0 0 f cap_attr ≠ 0) as Hne by (apply (leaf_present (PteLaws := Hpt_laws)); [lia|apply cap_attr_good|done]).
  assert (Hpt_addr (leaf (K := Hpt) 0 0 f cap_attr) = f) as Hla.
  { apply (leaf_addr (PteLaws := Hpt_laws)); [unfold LEV; lia|done|done|done|apply cap_attr_good]. }
  assert (negb (wds s1 e =? leaf (K := Hpt) 0 0 f cap_attr) && negb (truthy (attr (wds s1 e) .& HPT_W)%W) = true) as Hset.
  { pose proof (g_lookup _ _ _ _ _ _ G v) as Hlk. rewrite (slot_lookup (s_tables _ _ _ _ (g_sound _ _ _ _ _ _ G)) LEV 0 v e) in Hlk by done.
    cbn [lookup] in Hlk. destruct (Z.eqb_spec (wds s1 e) 0) as [->|Hn0].
    - rewrite (proj2 (Z.eqb_neq _ _)) by done. reflexivity.
    - destruct (Hold _ _ _ (eq_sym Hlk)) as [-> Hg]. apply andb_true_iff. split; [|done]. apply negb_true_iff, Z.eqb_neq.
      intros Eq. apply Hg. rewrite Eq. change (pte_addr (leaf (K := Hpt) 0 0 f cap_attr)) with (Hpt_addr (leaf (K := Hpt) 0 0 f cap_attr)).
      rewrite Hla. change ((1 << (Z.of_nat 0 * BPL + pte_order (leaf (K := Hpt) 0 0 f cap_attr))%Z)%W - 1)%W with (Z.ones 12).
      rewrite Z.land_ones by lia. pose proof (Z.mod_pos_bound v (2 ^ 12) ltac:(done)) as Hb.
      rewrite lor_sum by (done || by apply small_flags). by apply frame_of_eq. }
  unfold replace. rewrite Hw. cbn [mbind option_bind]. rewrite Hset.
  unfold Pte.update in Hu. change (Z.to_nat (0 / BPL)) with 0%nat in *. rewrite walk_page, Hw in Hu. cbn [mbind option_bind] in Hu.
  assert (truthy cap_attr = true) as Ht by reflexivity. rewrite Ht in Hu.
  change (Z.to_nat (1 << (0 mod BPL))%W) with 1%nat in Hu. cbn [fill] in Hu.
  assert (s' = set_wds (<[e := leaf (K := Hpt) 0 0 f cap_attr]> (wds s1)) s1) as ->.
  { destruct (wds s1 e =? 0); cbn [retire mbind option_bind] in Hu; by injection Hu as _ <-. }
  unfold set_pte, cmp_swap. rewrite decide_True by done. cbn [snd set_wds wds].
  rewrite fn_lookup_insert. by rewrite Hla.
Qed.
End replace.

(** ** The capabilities of a domain *)
Section objs.
Context {OFFSET FRAME_0 : Z} {E : Type} {F : Frames E} {FO : FramesOk OFFSET E}.
Context (r : Z).
Implicit Types (s : state E) (T : tree) (X : gset Z) (M : gmap Z Z).

(** The page of zeros is not one of the allocator. *)
Record zero_frame : Prop := {
  zf_range : 0 ≤ FRAME_0 < 2 ^ 52;
  zf_page : FRAME_0 mod PAGE_SIZE = 0;
  zf_out : outside (OFFSET := OFFSET) (E := E) (phys_to_virt OFFSET FRAME_0);
}.
Context (HZ : zero_frame).

(** Page [y] of the array is at [M !! y], or is not there. *)
Record objs M T X s : Prop := {
  ob_sound : sound (OFFSET := OFFSET) (K := Hpt) T X r s;
  ob_root : held (X ∖ tabs T) r;
  ob_page y d : M !! y = Some d → d ∈ X ∧ (d ∉ tabs T) ∧ ¬ in_page d r;
  ob_inj y y' d : M !! y = Some d → M !! y' = Some d → y = y';
  ob_map i : match translate (OFFSET := OFFSET) (K := Hpt) r (idx_to_virt i) s with
    | None => M !! page_no i = None
    | Some (sz, f, a) => sz = PAGE_SIZE ∧
      match M !! page_no i with
      | Some d => f = virt_to_phys OFFSET d + slot_off i
      | None => f = FRAME_0 + slot_off i ∧ truthy (a .& HPT_W)%W = false
      end
    end;
}.

(** The capability at a selector; the null capability is 0. *)
Definition cap_at (i : Z) s : Z := default 0 (lookup_cap OFFSET FRAME_0 r i s).

Lemma data_page M T X s y d : objs M T X s → M !! y = Some d → page OFFSET d.
Proof. intros HO Hy. apply (owns_page _ _ _ (s_owns _ _ _ _ (ob_sound _ _ _ _ HO))). by apply (ob_page _ _ _ _ HO y). Qed.

Lemma data_frame X e d : owns e X → d ∈ X → virt_to_phys OFFSET d ≠ FRAME_0.
Proof.
  intros HO Hd Heq. apply (owns_outside e X d d HO Hd).
  - rewrite <-(virt_phys OFFSET d) by (by eapply page_word, owns_page). rewrite Heq. apply HZ.
  - unfold in_page, PAGE_SIZE, PAGE_BITS. lia.
Qed.

Lemma data_addr d i : page OFFSET d → phys_to_virt OFFSET (virt_to_phys OFFSET d + slot_off i) = d + slot_off i.
Proof.
  intros (H0 & _ & H2 & Hf & _). pose proof (off_range i) as [Ho _].
  assert (0 ≤ slot_off i < 2 ^ 64) by (unfold PAGE_SIZE, PAGE_BITS in *; lia).
  transitivity (wrap 64 (d + slot_off i)); [|apply wrap_small; unfold word, PAGE_SIZE, PAGE_BITS in *; lia].
  unfold phys_to_virt, virt_to_phys. wcong.
Qed.

Lemma data_of d i : page OFFSET d → frame_of (virt_to_phys OFFSET d + slot_off i) = virt_to_phys OFFSET d.
Proof. intros (_ & _ & _ & Hf & Hal). apply frame_of_eq; [lia|done|apply off_range]. Qed.

(** Selectors read their slot of the page, or nothing. *)
Lemma cap_at_eq M T X s i : objs M T X s →
  cap_at i s = match M !! page_no i with Some d => wds s (d + slot_off i) | None => 0 end.
Proof.
  intros HO. unfold cap_at, lookup_cap. pose proof (ob_map _ _ _ _ HO i) as Hm. unfold translate in Hm.
  destruct (Pte.lookup OFFSET LEV r (idx_to_virt i) (wds s)) as [[[sz f] a]|]; [|by rewrite Hm].
  destruct Hm as [_ Hm]. destruct (M !! page_no i) as [d|] eqn:Hd.
  - pose proof (data_page _ _ _ _ _ _ HO Hd) as Hp. rewrite Hm, data_of by done.
    rewrite (proj2 (Z.eqb_neq _ _)), data_addr by
      (done || (eapply data_frame; [apply (s_owns _ _ _ _ (ob_sound _ _ _ _ HO))|by apply (ob_page _ _ _ _ HO (page_no i))])).
    done.
  - destruct Hm as [-> _]. rewrite frame_of_eq, Z.eqb_refl; [done|apply HZ|apply HZ|apply off_range].
Qed.

(** Slots are apart. *)
Lemma slots_apart M T X s i j d d' : objs M T X s →
  M !! page_no i = Some d → M !! page_no j = Some d' → i mod caps ≠ j mod caps → d + slot_off i ≠ d' + slot_off j.
Proof.
  intros HO Hd Hd' Hne Heq. pose proof (off_range i) as [Hi _]. pose proof (off_range j) as [Hj _].
  assert (d = d') as <-.
  { eapply (page_disjoint OFFSET d d' (d + slot_off i)); [by eapply data_page..| |]; unfold in_page; lia. }
  apply Hne, same_selector; [by eapply (ob_inj _ _ _ _ HO)|lia].
Qed.

(** A capability is written to a slot that is there. *)
Lemma objs_write M T X s i d c : objs M T X s → M !! page_no i = Some d →
  objs M T X (set_wds (<[d + slot_off i := c]> (wds s)) s) ∧
  (∀ j, cap_at j (set_wds (<[d + slot_off i := c]> (wds s)) s) = if decide (j mod caps = i mod caps) then c else cap_at j s) ∧
  ∀ q, translate (OFFSET := OFFSET) (K := Hpt) r q (set_wds (<[d + slot_off i := c]> (wds s)) s) =
    translate (OFFSET := OFFSET) (K := Hpt) r q s.
Proof.
  intros HO Hd. pose proof HO as [[H1 H2 H3 H4 H5] Hr Hpg Hinj Hmap]. destruct (Hpg _ _ Hd) as (HdX & HdT & Hdr).
  pose proof (data_page _ _ _ _ _ _ HO Hd) as Hp. pose proof (off_range i) as [Hi _].
  set (s' := set_wds _ s).
  assert (∀ l y b, addr T r l y = Some b → wds s' b = wds s b) as Hfr.
  { intros l y b Hb. apply fn_lookup_insert_ne. intros <-.
    eapply (addr_not_in T r (wds s) l y _ d); try done. unfold in_page. lia. }
  assert (∀ q, translate (OFFSET := OFFSET) (K := Hpt) r q s' = translate (OFFSET := OFFSET) (K := Hpt) r q s) as Htr.
  { intros q. apply (lookup_frame H1). intros l e. apply Hfr. }
  assert (objs M T X s') as HO'.
  { split; try done; [split; try done; by eapply tables_frame|]. intros j. rewrite Htr. apply Hmap. }
  split; [done|]. split; [|done]. intros j. rewrite (cap_at_eq _ _ _ _ j HO'), (cap_at_eq _ _ _ _ j HO).
  case_decide as Hj.
  - assert (page_no j = page_no i ∧ slot_off j = slot_off i) as [-> ->] by (unfold page_no, slot_off; by rewrite Hj).
    rewrite Hd. apply fn_lookup_insert.
  - destruct (M !! page_no j) as [d'|] eqn:Hd'; [|done]. apply fn_lookup_insert_ne.
    by eapply (slots_apart M T X s).
Qed.

(** A page taken from the allocator. *)
Lemma new_page T X s n : sound (OFFSET := OFFSET) (K := Hpt) T X r s → room (S n) (frs s) →
  ∃ t s1, new_table s = Some (t, s1) ∧ (t ∉ X) ∧ page OFFSET t ∧ sound (OFFSET := OFFSET) (K := Hpt) T ({[t]} ∪ X) r s1 ∧
    ¬ in_page t r ∧ (∀ a, in_page t a → wds s1 a = 0) ∧ (∀ a, ¬ in_page t a → wds s1 a = wds s a) ∧ room n (frs s1).
Proof.
  intros [I HO HT HR HU] Hroom.
  destruct (owns_alloc _ _ _ (qta s) HO Hroom) as (t & f & Ha & Hfresh & HO' & Hroom').
  assert (t ∈ {[t]} ∪ X) as Htin by (by apply elem_of_union_l, elem_of_singleton).
  pose proof (owns_page _ _ _ HO' Htin) as Hp.
  assert (¬ in_page t r) as Htr.
  { destruct HR as [Ho|(x & Hx & Hxr)]; [by eapply owns_outside|]. intros Hta. apply Hfresh.
    rewrite (page_disjoint OFFSET t x r); try done. exact (owns_page _ _ _ HO Hx). }
  assert (∀ a, ¬ in_page t a → fill_block FILL_0 t 0 (wds s) a = wds s a) as Hout.
  { intros a Hna. rewrite zero_page by done. by rewrite decide_False. }
  exists t. eexists. unfold new_table. rewrite Ha. split; [reflexivity|]. cbn [wds frs qta]. split_and!; try done.
  - split; cbn [wds frs qta].
    + eapply tables_frame; [exact I|]. intros l y a Hay. apply Hout. eapply addr_not_in; try done. intros Ht. by apply Hfresh, HT.
    + done.
    + by apply union_subseteq_r'.
    + destruct HR as [|(x & Hx & Hxr)]; [by left|right; exists x; split; [by apply elem_of_union_r|done]].
    + apply wadd_word.
  - intros a Hta. rewrite zero_page by done. by rewrite decide_True.
Qed.

Lemma renew_spec M T X s i phys : objs M T X s → M !! page_no i = None → room (S LEV) (frs s) →
  ∃ d T' X' s', renew OFFSET FRAME_0 r (idx_to_virt i) phys s =
      Some (virt_to_phys OFFSET d + slot_off i, frame_of phys =? FRAME_0, s') ∧
    objs (<[page_no i := d]> M) T' X' s' ∧ (∀ j, cap_at j s' = cap_at j s) ∧
    ∀ q, ¬ covers (page_at (page_no i)) 0 q →
      translate (OFFSET := OFFSET) (K := Hpt) r q s' = translate (OFFSET := OFFSET) (K := Hpt) r q s.
Proof.
  intros HO Hnone Hroom. pose proof HO as [HS Hr Hpg Hinj Hmap].
  destruct (new_page T X s LEV HS Hroom) as (t & s1 & Hnew & Hfresh & Hp & HS1 & Htr & Hzero & Hsame & Hroom1).
  assert (t ∉ tabs T) as HtT by (intros Ht; by apply Hfresh, HS).
  assert (∀ q, translate (OFFSET := OFFSET) (K := Hpt) r q s1 = translate (OFFSET := OFFSET) (K := Hpt) r q s) as Htr1.
  { intros q. apply (lookup_frame (s_tables _ _ _ _ HS)). intros l e He. apply Hsame.
    eapply addr_not_in; [apply (s_tables _ _ _ _ HS)|exact He|done..]. }
  pose proof (Hmap i) as Hi. rewrite Hnone in Hi.
  destruct (replace_spec T _ r s1 (idx_to_virt i) (virt_to_phys OFFSET t) 0 HS1) as (fl & T' & X' & s2 & Hrep & HU & _).
  - apply Hp.
  - intros sz g a Hl. pose proof (Htr1 (idx_to_virt i)) as He. unfold translate in He at 1. rewrite Hl in He.
    rewrite <-He in Hi. destruct Hi as [-> _]. reflexivity.
  - by rewrite Nat.add_0_r.
  - intros sz g a Hl. rewrite Htr1 in Hl. rewrite Hl in Hi. destruct Hi as (_ & -> & Ha). split; [done|].
    rewrite frame_of_eq by (apply HZ || apply off_range). symmetry. eapply data_frame; [apply (s_owns _ _ _ _ HS1)|].
    by apply elem_of_union_l, elem_of_singleton.
  - rewrite virt_page in HU. destruct HU as [US UM _ UK UR _ _ _ _ _].
    assert (∀ a, in_page t a → wds s2 a = 0) as Hz2.
    { intros a Ha. rewrite UR; [by apply Hzero| |by intros ->]. right. exists t. split; [|done].
      apply elem_of_difference. split; [by apply elem_of_union_l, elem_of_singleton|done]. }
    assert (∀ d, d ∈ X → d ∉ tabs T → d ∈ X' ∧ d ∉ tabs T') as Hkeep.
    { intros d HdX HdT. apply UK; [by apply elem_of_union_r|done]. }
    assert (∀ y d, M !! y = Some d → d ≠ t) as Hnt by (intros y d Hy ->; by apply Hfresh, (Hpg y)).
    assert (objs (<[page_no i := t]> M) T' X' s2) as HO2.
    { split; [done| | | |].
      - destruct Hr as [|(x & [HxX HxT]%elem_of_difference & Hxr)]; [by left|right]. exists x. split; [|done].
        apply elem_of_difference. by apply Hkeep.
      - intros y d [[_ <-]|[_ Hd]]%lookup_insert_Some.
        + destruct (UK t) as [? ?]; [by apply elem_of_union_l, elem_of_singleton|done|]. by split_and!.
        + destruct (Hpg _ _ Hd) as (H1 & H2 & H3). destruct (Hkeep d H1 H2). by split_and!.
      - intros y y' d [[<- Hd]|[_ Hd]]%lookup_insert_Some [[<- Hd']|[_ Hd']]%lookup_insert_Some; try done.
        + subst d. by destruct (Hnt _ _ Hd').
        + subst d. by destruct (Hnt _ _ Hd).
        + by eapply Hinj.
      - intros j. rewrite UM. case_decide as Hc; rewrite covers_slot in Hc by apply page_range.
        + rewrite Hc, lookup_insert_eq. change (mapping (v := page_at (page_no i)) (o := 0) (p := virt_to_phys OFFSET t) cap_attr (idx_to_virt j))
            with (Some (PAGE_SIZE, virt_to_phys OFFSET t + offset (page_at (page_no i)) (idx_to_virt j), attr (leaf (K := Hpt) 0 0 0 cap_attr))).
          split; [done|]. by rewrite <-Hc, offset_slot.
        + rewrite lookup_insert_ne by done. rewrite Htr1. apply Hmap. }
    exists t, T', X', s2. split.
    { unfold renew. rewrite Hnew. cbn [mbind option_bind]. rewrite cap_entry, Hrep. cbn [mbind option_bind].
      rewrite Z.eqb_refl. cbn [negb]. cbn [mbind option_bind]. do 3 f_equal.
      change PAGE_MASK with (Z.ones 12). rewrite Z.land_ones by lia. change (2 ^ 12) with PAGE_SIZE. rewrite virt_mod.
      destruct Hp as (_ & _ & _ & Hf & Hal). apply lor_sum; [lia|done|]. apply small_flags, off_range. }
    split; [done|]. split.
    + intros j. rewrite (cap_at_eq _ _ _ _ j HO2), (cap_at_eq _ _ _ _ j HO).
      destruct (decide (page_no j = page_no i)) as [->|Hj]; [rewrite lookup_insert_eq, Hnone|rewrite lookup_insert_ne by done].
      * apply Hz2. pose proof (off_range j) as [? _]. unfold in_page. lia.
      * destruct (M !! page_no j) as [d|] eqn:Hd; [|done].
        destruct (Hpg _ _ Hd) as (H1 & H2 & H3). pose proof (off_range j) as [Ho _].
        assert (in_page d (d + slot_off j)) as Hin by (unfold in_page; lia).
        rewrite UR; [apply Hsame| |by intros <-].
        -- intros Hin'. apply (Hnt _ _ Hd). apply (page_disjoint OFFSET d t (d + slot_off j)); [exact (data_page _ _ _ _ _ _ HO Hd)|done..].
        -- right. exists d. split; [|done]. apply elem_of_difference. split; [by apply elem_of_union_r|done].
    + intros q Hq. rewrite UM, decide_False by done. apply Htr1.
Qed.

(** Storing a capability, whether its page is there or not. *)
Lemma update_cap_spec M T X s i c junk : objs M T X s → room (S LEV) (frs s) →
  ∃ b M' T' X' s', update_cap OFFSET FRAME_0 r i c junk s = Some (b, s') ∧ objs M' T' X' s' ∧
    (∀ j, cap_at j s' = if decide (j mod caps = i mod caps) then c else cap_at j s) ∧
    (∀ q, ¬ covers (page_at (page_no i)) 0 q →
      translate (OFFSET := OFFSET) (K := Hpt) r q s' = translate (OFFSET := OFFSET) (K := Hpt) r q s) ∧
    (translate (OFFSET := OFFSET) (K := Hpt) r (idx_to_virt i) s = None → b = (frame_of junk =? FRAME_0)).
Proof.
  intros HO Hroom. unfold update_cap, walk. pose proof (ob_map _ _ _ _ HO i) as Hi. unfold translate in Hi.
  assert (∀ phys, M !! page_no i = None → ∃ b M' T' X' s',
    ('(phys, shootdown, s) ← renew OFFSET FRAME_0 r (idx_to_virt i) phys s;
     Some (shootdown, set_wds (<[phys_to_virt OFFSET phys := c]> (wds s)) s)) = Some (b, s') ∧ objs M' T' X' s' ∧
    (∀ j, cap_at j s' = if decide (j mod caps = i mod caps) then c else cap_at j s) ∧
    (∀ q, ¬ covers (page_at (page_no i)) 0 q →
      translate (OFFSET := OFFSET) (K := Hpt) r q s' = translate (OFFSET := OFFSET) (K := Hpt) r q s) ∧
    b = (frame_of phys =? FRAME_0)) as Hrenew.
  { intros phys Hnone. destruct (renew_spec M T X s i phys HO Hnone Hroom) as (d & T' & X' & s1 & -> & HO1 & Hc1 & Ht1).
    cbn [mbind option_bind].
    assert (<[page_no i := d]> M !! page_no i = Some d) as Hd by apply lookup_insert_eq.
    rewrite data_addr by exact (data_page _ _ _ _ _ _ HO1 Hd).
    destruct (objs_write _ _ _ _ i d c HO1 Hd) as (HO2 & Hc2 & Ht2).
    eexists _, _, T', X', _. split; [reflexivity|]. split; [exact HO2|]. split; [|split; [|done]].
    - intros j. rewrite Hc2. by rewrite Hc1.
    - intros q Hq. rewrite Ht2. by apply Ht1. }
  destruct (Pte.lookup OFFSET LEV r (idx_to_virt i) (wds s)) as [[[sz f] a]|] eqn:Hl.
  2: { destruct (Hrenew junk Hi) as (b & M' & T' & X' & s' & Hu & H1 & H2 & H3 & H4). exists b, M', T', X', s'. by split_and!. }
  destruct Hi as [_ Hi]. destruct (M !! page_no i) as [d|] eqn:Hd.
  - pose proof (data_page _ _ _ _ _ _ HO Hd) as Hp. destruct (ob_page _ _ _ _ HO _ _ Hd) as (HdX & _).
    rewrite Hi, data_of by done. rewrite (proj2 (Z.eqb_neq _ _)) by (eapply data_frame; [apply (s_owns _ _ _ _ (ob_sound _ _ _ _ HO))|done]).
    cbn [mbind option_bind]. rewrite data_addr by done.
    destruct (objs_write _ _ _ _ i d c HO Hd) as (HO2 & Hc2 & Ht2).
    eexists _, M, T, X, _. split; [reflexivity|]. split; [exact HO2|]. split; [done|]. split; [by intros|].
    intros Hn. unfold translate in Hn. by rewrite Hl in Hn.
  - destruct Hi as [-> _]. rewrite frame_of_eq, Z.eqb_refl by (apply HZ || apply off_range).
    destruct (Hrenew (FRAME_0 + slot_off i) eq_refl) as (b & M' & T' & X' & s' & Hu & H1 & H2 & H3 & _).
    exists b, M', T', X', s'. split_and!; try done. intros Hn. unfold translate in Hn. by rewrite Hl in Hn.
Qed.

(** C16: an object space is a map from selectors to capabilities.  [update]
    stores the capability of a node, less the rights taken away, at the node's
    selector; no other selector changes, no other part of the address space is
    mapped differently, and pages are made as needed, when the allocator has a
    page for the capabilities and for each level of tables.  The number of a
    selector counts modulo the size of the space.  [junk] is what the variable
    [phys] holds, which [walk] may read before it is set. *)
Theorem obj_update M T X s node rights junk : objs M T X s → room (S LEV) (frs s) →
  ∃ b M' T' X' s', SpaceObj.update OFFSET FRAME_0 r node rights junk s = Some (b, s') ∧ objs M' T' X' s' ∧
    (∀ j, cap_at j s' = if decide (j mod caps = node_base node mod caps)
      then capability (node_phys node) (node_attr node .& wnot rights)%W else cap_at j s) ∧
    ∀ q, ¬ covers (page_at (page_no (node_base node))) 0 q →
      translate (OFFSET := OFFSET) (K := Hpt) r q s' = translate (OFFSET := OFFSET) (K := Hpt) r q s.
Proof.
  intros HO Hroom. destruct (update_cap_spec M T X s (node_base node) (capability (node_phys node) (node_attr node .& wnot rights)%W) junk HO Hroom)
    as (b & M' & T' & X' & s' & Hu & H1 & H2 & H3 & _). by exists b, M', T', X', s'.
Qed.

(** the request for a shootdown is undefined.  When the page of a selector
    is not mapped at all, [walk] compares a variable that was never set: for
    each answer there is a value of the variable that gives it. *)
Theorem shootdown_undefined M T X s node rights (b : bool) : objs M T X s → room (S LEV) (frs s) →
  translate (OFFSET := OFFSET) (K := Hpt) r (idx_to_virt (node_base node)) s = None →
  ∃ junk s', word 64 junk ∧ SpaceObj.update OFFSET FRAME_0 r node rights junk s = Some (b, s').
Proof.
  intros HO Hroom Hn. pose proof (zf_range HZ) as Hr.
  set (junk := if b then FRAME_0 else if decide (FRAME_0 = 0) then PAGE_SIZE else 0).
  destruct (update_cap_spec M T X s (node_base node) (capability (node_phys node) (node_attr node .& wnot rights)%W) junk HO Hroom)
    as (b' & M' & T' & X' & s' & Hu & _ & _ & _ & Hb).
  exists junk, s'. assert (b' = b) as <-; [|split; [|exact Hu]].
  - rewrite (Hb Hn). unfold junk. destruct b.
    + replace FRAME_0 with (FRAME_0 + 0) at 1 by lia. rewrite frame_of_eq by (apply HZ || done). apply Z.eqb_refl.
    + destruct (decide (FRAME_0 = 0)) as [->|Hne]; [done|]. apply Z.eqb_neq. by intros Hz; apply Hne.
  - unfold junk, word. destruct b'; [lia|]. destruct (decide (FRAME_0 = 0)); unfold PAGE_SIZE, PAGE_BITS; lia.
Qed.
End objs.
