(* ===== verification/SpaceObjDemo.v ===== *)
(** The theorems on object spaces applied: a domain without capabilities on the
    pool of [PteBuddy]. *)
From S2P Require Import Prelude Bits Bitmap Quota Queue Mdb Crd Buddy Pte PteKinds PteMap PteSound PteUpdate PteBuddy HptOps SpaceObj SpaceObjSound.
Local Open Scope Z_scope.

#[local] Existing Instance demo_frames.
#[local] Existing Instance demo_ok.

Definition demo_cap : mdb := Mdb 0 0%nat 0%nat None None 0x12340 777 0 0x1f 0 0.

Lemma demo_zero : zero_frame (OFFSET := 65536) (FRAME_0 := 4096) (E := buddy).
Proof. split; [lia|done|]. apply (demo_outside (phys_to_virt 65536 4096)). by vm_compute. Qed.

Lemma demo_objs : objs (OFFSET := 65536) (FRAME_0 := 4096) 8 ∅ ∅ ∅ demo_state.
Proof.
  split.
  - apply demo_table_sound. lia.
  - left. apply demo_outside. lia.
  - by intros y d ?%lookup_empty_Some.
  - by intros y y' d ?%lookup_empty_Some.
  - intros i. unfold translate, LEV. cbn. apply lookup_empty.
Qed.

Lemma demo_room5 : room (OFFSET := 65536) (S LEV) (frs demo_state).
Proof. split; [done|]. exists ∅. split; [apply demo_rep|]. apply Nat.leb_le. by vm_compute. Qed.

Lemma demo_value : capability 0x12340 (0x1f .& wnot 8)%W = 0x12357.
Proof. reflexivity. Qed.

Lemma obj_update_witness :
  ∃ b s', SpaceObj.update 65536 4096 8 demo_cap 8 0 demo_state = Some (b, s') ∧
    cap_at (OFFSET := 65536) (FRAME_0 := 4096) 8 777 s' = 0x12357 ∧
    cap_at (OFFSET := 65536) (FRAME_0 := 4096) 8 778 s' = 0.
Proof.
  destruct (obj_update (OFFSET := 65536) (FRAME_0 := 4096) 8 demo_zero ∅ ∅ ∅ demo_state demo_cap 8 0 demo_objs demo_room5)
    as (b & M & T & X & s' & Hu & _ & Hc & _).
  exists b, s'. split; [exact Hu|]. split; rewrite Hc.
  - exact demo_value.
  - by vm_compute.
Defined.

Lemma shootdown_undefined_witness :
  (∃ junk s', word 64 junk ∧ SpaceObj.update 65536 4096 8 demo_cap 0 junk demo_state = Some (true, s')) ∧
  (∃ junk s', word 64 junk ∧ SpaceObj.update 65536 4096 8 demo_cap 0 junk demo_state = Some (false, s')).
Proof.
  assert (translate (OFFSET := 65536) (K := Hpt) 8 (idx_to_virt (node_base demo_cap)) demo_state = None) as Hn by by vm_compute.
  split; apply (shootdown_undefined (OFFSET := 65536) (FRAME_0 := 4096) 8 demo_zero ∅ ∅ ∅ demo_state demo_cap 0 _ demo_objs demo_room5 Hn).
Defined.

(** The definitions run: a capability is stored, looked up and taken away. *)
Example store_lookup_run :
  match SpaceObj.update 65536 4096 8 demo_cap 0 0 demo_state with
  | Some (_, s) =>
    match SpaceObj.update 65536 4096 8 demo_cap 0x1f 0 s with
    | Some (_, s') => (lookup_cap 65536 4096 8 777 s, lookup_cap 65536 4096 8 778 s, lookup_cap 65536 4096 8 777 s', used (qta s'))
    | None => (None, None, None, 0)
    end
  | None => (None, None, None, 0)
  end = (Some 0x1235f, Some 0, Some 0, 5).
Proof. vm_compute. reflexivity. Qed.
