(* ===== verification/Derivation.v ===== *)
(** The system of all spaces and delegation trees.

    [Space] shows what the operations on the tree of one space do, [Mdb] what
    those on one delegation ring do.  This file puts them together: in a sound
    system every node lies in exactly one space and in exactly one ring, and
    the steps of which delegation and revocation consist keep it sound. *)
From S2P Require Import Prelude Bits Queue Avl AvlRemove Mdb Space.
Local Open Scope Z_scope.

(** ** Sound systems *)

(** [L] gives the nodes of each space. *)
Record spaces_inv (sp : spaces) (L : nat → list obj) : Prop := {
  sv_space s : space_inv sp s (L s);
  sv_disj s s' x : x ∈ L s → x ∈ L s' → s = s';
  sv_brk : Z.of_nat (brk sp) < 2 ^ 64;
}.

(** [R] lists the delegation rings; each starts with its root. *)
Record rings_inv (m : memory) (R : list (list obj)) : Prop := {
  rv_ring r : r ∈ R → ring (links_of m) r ∧ derivation m r;
  rv_nodup : NoDup (mjoin R);
  rv_root x l : x :: l ∈ R → prnt (m x) = None;
}.

(** Addresses and sizes do not overflow, and resources are aligned. *)
Definition node_ok (n : mdb) : Prop :=
  0 ≤ node_order n < 64 ∧ 0 ≤ node_base n ∧ node_base n + 2 ^ node_order n < 2 ^ 64 ∧
  0 ≤ node_phys n ∧ node_phys n + 2 ^ node_order n ≤ 2 ^ 64 ∧ node_phys n mod 2 ^ node_order n = 0.

Record system (sp : spaces) (L : nat → list obj) (R : list (list obj)) : Prop := {
  sy_spaces : spaces_inv sp L;
  sy_rings : rings_inv (mem sp) R;
  sy_in x : x ∈ mjoin R ↔ ∃ s, x ∈ L s;
  sy_home s x : x ∈ L s → space (mem sp x) = Some s ∨ (space (mem sp x) = None ∧ ∃ l, x :: l ∈ R);
  sy_ok s x : x ∈ L s → node_ok (mem sp x);
}.

Lemma spaces_few sp L s : spaces_inv sp L → few (L s).
Proof.
  intros [HS _ Hb]. specialize (HS s). unfold few.
  assert (length (L s) ≤ length (seq 0 (brk sp)))%nat as Hl.
  { apply submseteq_length, NoDup_submseteq; [by eapply space_NoDup|].
    intros x Hx. apply elem_of_seq. pose proof (si_brk _ _ _ HS x Hx). lia. }
  rewrite length_seq in Hl. lia.
Qed.

(** ** The steps on the trees of spaces *)

Lemma sv_lt sp L s x : spaces_inv sp L → x ∈ L s → (x < brk sp)%nat.
Proof. intros [HS _ _]. apply (si_brk _ _ _ (HS s)). Qed.

(** A change of memory that keeps bases and orders. *)
Lemma spaces_mem sp L m :
  spaces_inv sp L →
  (∀ x, node_base (m x) = node_base (mem sp x) ∧ node_order (m x) = node_order (mem sp x)) →
  spaces_inv (set_mem m sp) L.
Proof.
  intros [HS HD HB] Hm. split; [|done..]. intros s.
  by apply (space_inv_update sp); [apply HS|auto|..].
Qed.

Lemma spaces_new sp L s p b o a t sub depth x sp' :
  spaces_inv sp L → new_mdb s p b o a t sub depth sp = (x, sp') → Z.of_nat (brk sp) + 1 < 2 ^ 64 →
  spaces_inv sp' L ∧ fresh_node (tree sp') x ∧ x = brk sp ∧ brk sp' = S (brk sp) ∧
  mem sp' x = mdb_new x s p b o a t sub depth ∧ (∀ y, y ≠ x → mem sp' y = mem sp y).
Proof.
  intros [HS HD HB] Hnew Hlt. destruct (new_mdb_spec _ _ _ _ _ _ _ _ _ _ _ Hnew) as (-> & Hb & Hx & Hy & Hf & Hsp).
  split_and!; try done. split; [|done|lia]. intros s0. by apply Hsp.
Qed.

Lemma spaces_insert sp L s x :
  spaces_inv sp L → space (mem sp x) = Some s → region_wf (mem sp) x → fresh_node (tree sp) x →
  (∀ s', x ∉ L s') → (x < brk sp)%nat →
  tree_insert x sp = Some (false, sp) ∨
  ∃ t l, tree_insert x sp = Some (true, set_tree t sp) ∧ spaces_inv (set_tree t sp) (<[s := l]> L) ∧
    l ≡ₚ x :: L s.
Proof.
  intros HV Hs Hwf Hf Hx Hlt. pose proof HV as [HS HD HB].
  pose proof (insert_at_run sp s (L s) x (HS s) (spaces_few _ _ _ HV) Hwf Hf (Hx s) Hlt) as Hins.
  unfold tree_insert. rewrite Hs. cbn [mbind option_bind].
  destruct (existsb _ _); [by left|right].
  destruct Hins as (t & l1 & l2 & E & El & HI & He). exists t, (l1 ++ x :: l2).
  assert (l1 ++ x :: l2 ≡ₚ x :: L s) as Hp by (rewrite El; symmetry; apply Permutation_middle).
  split_and!; [done| |done]. split; [| |done].
  - intros s'. destruct (decide (s' = s)) as [->|Hne]; [by rewrite fn_lookup_insert|].
    rewrite fn_lookup_insert_ne by done. apply (space_inv_elsewhere sp t s s' _ (x :: L s)); [apply HS|done..|].
    intros a Ha [->|Ha']%elem_of_cons; [by apply (Hx s')|]. by apply Hne, (HD s' s a).
  - intros s1 s2 y. destruct (decide (s1 = s)) as [->|], (decide (s2 = s)) as [->|];
      rewrite ?fn_lookup_insert, ?fn_lookup_insert_ne by done; rewrite ?Hp, ?elem_of_cons; [done| | |by apply HD].
    + intros [->|H1] H2; [by destruct (Hx s2)|by apply (HD s s2 y)].
    + intros H1 [->|H2]; [by destruct (Hx s1)|by apply (HD s1 s y)].
Qed.

Lemma spaces_remove sp L s x :
  spaces_inv sp L → space (mem sp x) = Some s → x ∈ L s →
  ∃ t l, tree_remove x sp = Some (true, set_tree t sp) ∧ spaces_inv (set_tree t sp) (<[s := l]> L) ∧
    L s ≡ₚ x :: l.
Proof.
  intros HV Hs Hx. pose proof HV as [HS HD HB].
  destruct (remove_at_run sp s (L s) x (HS s) (spaces_few _ _ _ HV) Hx) as (t & l1 & l2 & E & El & HI & He).
  unfold tree_remove. rewrite Hs. cbn [mbind option_bind]. exists t, (l1 ++ l2).
  assert (L s ≡ₚ x :: l1 ++ l2) as Hp by (rewrite El; symmetry; apply Permutation_middle).
  assert (∀ y, y ∈ l1 ++ l2 → y ∈ L s) as Hin by (intros y Hy; rewrite Hp; by right).
  split_and!; [done| |done]. split; [| |done].
  - intros s'. destruct (decide (s' = s)) as [->|Hne]; [by rewrite fn_lookup_insert|].
    rewrite fn_lookup_insert_ne by done. apply (space_inv_elsewhere sp t s s' _ (L s)); [apply HS|done..|].
    intros a Ha Ha'. by apply Hne, (HD s' s a).
  - intros s1 s2 y. destruct (decide (s1 = s)) as [->|], (decide (s2 = s)) as [->|];
      rewrite ?fn_lookup_insert, ?fn_lookup_insert_ne by done; [done| | |by apply HD].
    + intros H1 H2. by apply (HD s s2 y); [apply Hin|].
    + intros H1 H2. by apply (HD s1 s y); [|apply Hin].
Qed.

(** ** The steps on rings *)

Lemma ring_same m m' r :
  (∀ x, x ∈ r → mdb_next (m' x) = mdb_next (m x) ∧ mdb_prev (m' x) = mdb_prev (m x)) →
  ring (links_of m) r → ring (links_of m') r.
Proof. intros Hm. apply ring_frame; intros a Ha; simpl; f_equal; by apply Hm. Qed.

Lemma derivation_same m m' r :
  (∀ x, x ∈ r → prnt (m' x) = prnt (m x) ∧ dpth (m' x) = dpth (m x)) →
  derivation m r → derivation m' r.
Proof.
  intros Hm Hd l1 n l2 E Hne. destruct (Hd l1 n l2 E Hne) as (p & k1 & k2 & -> & Hp & Hdp & Hk).
  assert (∀ a, a = p ∨ a = n ∨ a ∈ k2 → prnt (m' a) = prnt (m a) ∧ dpth (m' a) = dpth (m a)) as Hs.
  { intros a Ha. apply Hm. rewrite E, !elem_of_app, !elem_of_cons. tauto. }
  exists p, k1, k2. destruct (Hs n) as [-> ->]; [auto|]. destruct (Hs p) as [_ ->]; [auto|].
  split_and!; [done..|]. intros a Ha. destruct (Hs a) as [_ ->]; [auto|]. by apply Hk.
Qed.

(** What [ring] and [derivation] read of a node. *)
Definition same_place (n n' : mdb) : Prop :=
  mdb_next n' = mdb_next n ∧ mdb_prev n' = mdb_prev n ∧ prnt n' = prnt n ∧ dpth n' = dpth n.

Lemma rings_same m m' R :
  (∀ x, x ∈ mjoin R → same_place (m x) (m' x)) → rings_inv m R → rings_inv m' R.
Proof.
  intros Hm [HR HN H0]. split; [|done|].
  2: { intros x l Hl. destruct (Hm x) as (_ & _ & -> & _); [|by eapply H0].
       apply list_elem_of_join. exists (x :: l). split; [left|done]. }
  intros r Hr. destruct (HR r Hr) as [H1 H2].
  assert (∀ x, x ∈ r → same_place (m x) (m' x)) as Hx by (intros x Hx; apply Hm, list_elem_of_join; eauto).
  split; [apply (ring_same m)|apply (derivation_same m)]; try done; intros x Hxr; by apply Hx in Hxr as (? & ? & ? & ?).
Qed.

(** Replacing one ring. *)
Lemma rings_replace m m' R1 r R2 r' :
  rings_inv m (R1 ++ r :: R2) → ring (links_of m') r' → derivation m' r' →
  (∀ x, x ∈ mjoin (R1 ++ R2) → same_place (m x) (m' x)) →
  NoDup r' → (∀ x, x ∈ r' → x ∉ mjoin (R1 ++ R2)) → (∀ x l, r' = x :: l → prnt (m' x) = None) →
  rings_inv m' (R1 ++ r' :: R2).
Proof.
  intros [HR HN H0] H1 H2 Hm Hd Hx Hroot. rewrite join_app in HN, Hm, Hx. cbn [mjoin list_join] in HN.
  assert (NoDup (mjoin R1 ++ mjoin R2)) as HN'.
  { apply list.NoDup_app in HN as (N1 & N2 & N3). apply list.NoDup_app in N3 as (_ & _ & N3).
    apply list.NoDup_app. split_and!; [done| |done]. intros a Ha Ha'. apply (N2 a Ha), elem_of_app. by right. }
  split.
  - assert (∀ k, k ∈ R1 ++ R2 → ring (links_of m') k ∧ derivation m' k) as Hk.
    { intros k Hk. assert (k ∈ R1 ++ r :: R2) as Hk' by (rewrite elem_of_app, elem_of_cons in *; tauto).
      destruct (HR k Hk') as [K1 K2].
      assert (∀ x, x ∈ k → same_place (m x) (m' x)) as Hs.
      { intros x Hxk. apply Hm. rewrite <-join_app. apply list_elem_of_join. eauto. }
      split; [apply (ring_same m)|apply (derivation_same m)]; try done; intros x Hxr; by apply Hs in Hxr as (? & ? & ? & ?). }
    intros k Hk'. rewrite elem_of_app, elem_of_cons in Hk'.
    destruct (decide (k = r')) as [->|Hne]; [done|]. apply Hk. rewrite elem_of_app. tauto.
  - rewrite join_app. change (NoDup (mjoin R1 ++ r' ++ mjoin R2)).
    assert (mjoin R1 ++ r' ++ mjoin R2 ≡ₚ r' ++ (mjoin R1 ++ mjoin R2)) as -> by apply Permutation_app_swap_app.
    by apply list.NoDup_app.
  - intros x l. rewrite elem_of_app, elem_of_cons. intros Hl.
    destruct (decide (x :: l = r')) as [E|Hne]; [by eapply Hroot|].
    destruct (Hm x) as (_ & _ & -> & _).
    + rewrite <-join_app. apply list_elem_of_join. exists (x :: l). split; [left|]. rewrite elem_of_app. intuition congruence.
    + apply (H0 x l). rewrite elem_of_app, elem_of_cons. intuition congruence.
Qed.

Lemma rings_split (R : list (list obj)) (x : obj) : x ∈ mjoin R → ∃ R1 l1 l2 R2, R = R1 ++ (l1 ++ x :: l2) :: R2.
Proof.
  intros (r & Hx & Hr)%list_elem_of_join. apply list_elem_of_split in Hr as (R1 & R2 & ->).
  apply list_elem_of_split in Hx as (l1 & l2 & ->). eauto.
Qed.

Lemma join_mid (R1 R2 : list (list obj)) r (x : obj) :
  x ∈ mjoin (R1 ++ r :: R2) ↔ x ∈ r ∨ x ∈ mjoin (R1 ++ R2).
Proof. rewrite !join_app. cbn [mjoin list_join]. rewrite !elem_of_app. tauto. Qed.

Lemma rings_nodup_mid m R1 r R2 :
  rings_inv m (R1 ++ r :: R2) → NoDup r ∧ ∀ x, x ∈ r → x ∉ mjoin (R1 ++ R2).
Proof.
  intros [_ HN _]. rewrite join_app in HN |- *. cbn [mjoin list_join] in HN.
  assert (mjoin R1 ++ r ++ mjoin R2 ≡ₚ r ++ (mjoin R1 ++ mjoin R2)) as E by apply Permutation_app_swap_app.
  change (NoDup (mjoin R1 ++ r ++ mjoin R2)) in HN. rewrite E in HN.
  by apply list.NoDup_app in HN as (? & ? & _).
Qed.

(** The neighbours of a node in its ring. *)
Lemma ring_next_in m r x : ring (links_of m) r → x ∈ r → mdb_next (m x) ∈ r ∧ mdb_prev (m x) ∈ r.
Proof.
  intros Hr (l1 & l2 & ->)%list_elem_of_split.
  destruct (decide (l1 ++ l2 = [])) as [[-> ->]%app_eq_nil|Hne].
  - destruct Hr as [_ [Hn Hp]]. injection Hn as Hn. injection Hp as Hp. rewrite Hn, Hp. split; left.
  - destruct (ring_around m l1 x l2 Hr Hne) as (-> & -> & _ & _ & _ & _).
    assert (∀ a, a ∈ l2 ++ l1 → a ∈ l1 ++ x :: l2) as Hin by (intros a; rewrite !elem_of_app, elem_of_cons; tauto).
    destruct (l2 ++ l1) as [|y k] eqn:E; [by apply app_eq_nil in E as [-> ->]|].
    split; apply Hin; [left|]. rewrite last_cons_default. apply last_in.
Qed.

(** A node behind its parent. *)
Lemma rings_insert m R x p a :
  rings_inv m R → p ∈ mjoin R → x ∉ mjoin R → Z.land (node_attr (m p)) a ≠ 0 →
  dpth (m x) = dpth (m p) + 1 →
  ∃ m' R', insert_node x p a m = (true, m') ∧ (∀ n, m' n = inserted x p a m n) ∧ rings_inv m' R' ∧
    (∀ y, y ∈ mjoin R' ↔ y = x ∨ y ∈ mjoin R) ∧ (∀ h l, h :: l ∈ R → ∃ l', h :: l' ∈ R').
Proof.
  intros HR Hp Hx Ha Hd. destruct (rings_split _ _ Hp) as (R1 & l1 & l2 & R2 & ->).
  destruct (rv_ring _ _ HR (l1 ++ p :: l2)) as [Hring Hder]; [apply elem_of_app; right; left|].
  rewrite join_mid in Hx. destruct (rings_nodup_mid _ _ _ _ HR) as [HN Hout].
  assert (x ∉ l1 ++ p :: l2) as Hxr by tauto.
  assert (x ≠ p) as Hxp by (intros ->; apply Hxr, elem_of_app; right; left).
  assert (p ∈ l1 ++ p :: l2) as Hpr by (apply elem_of_app; right; left).
  destruct (ring_next_in m _ p Hring Hpr) as [Hnext _].
  destruct (insert_node_run x p a m Ha Hxp) as (m' & E & Hm'); [by intros <-|].
  exists m', (R1 ++ (l1 ++ p :: x :: l2) :: R2). split; [done|]. split; [done|].
  assert (∀ y, y ∈ l1 ++ p :: x :: l2 ↔ y = x ∨ y ∈ l1 ++ p :: l2) as Hin.
  { intros y. rewrite !elem_of_app, !elem_of_cons. tauto. }
  split_and!.
  - eapply rings_replace; [exact HR| | | | | |].
    + apply (ring_pointwise (links_of (inserted x p a m))); [intros n; simpl; by rewrite Hm'..|].
      by apply inserted_ring.
    + apply (derivation_insert m); try done.
      * intros b Hb. rewrite Hm'. simpl. rewrite decide_False; [done|]. by intros ->.
      * rewrite Hm'. simpl. by rewrite decide_True.
      * by rewrite Hm'.
    + intros y Hy. assert (y ∉ l1 ++ p :: l2) as Hyr by (intros Hyr; by apply (Hout y)).
      rewrite Hm'. unfold same_place, inserted. simpl.
      assert (y ≠ x) by (intros ->; tauto).
      assert (y ≠ mdb_next (m p)) by (intros ->; done). assert (y ≠ p) by (intros ->; done).
      rewrite !decide_False by done. done.
    + rewrite Permutation_app_comm. simpl. apply list.NoDup_cons. split; [|apply list.NoDup_cons; split].
      * rewrite elem_of_cons, elem_of_app. rewrite elem_of_app, elem_of_cons in Hxr.
        rewrite Permutation_app_comm in HN. simpl in HN. apply list.NoDup_cons in HN as [HN _].
        rewrite elem_of_app in HN. intros [->|]; tauto.
      * rewrite elem_of_app. rewrite elem_of_app, elem_of_cons in Hxr. tauto.
      * rewrite Permutation_app_comm in HN. simpl in HN. by apply list.NoDup_cons in HN as [_ HN].
    + intros y [->|Hy]%Hin; [tauto|]. by apply Hout.
    + intros y l El. assert (∃ l', y :: l' = l1 ++ p :: l2) as [l' El'].
      { destruct l1; simpl in El; injection El as -> _; eauto. }
      rewrite Hm'. simpl. rewrite decide_False; [|intros ->; apply Hxr; rewrite <-El'; left].
      apply (rv_root _ _ HR y l'). rewrite El'. apply elem_of_app. right. left.
  - intros y. rewrite !join_mid, Hin. tauto.
  - intros h l. rewrite elem_of_app, elem_of_cons. intros [Hl|[Hl|Hl]].
    + exists l. apply elem_of_app. by left.
    + destruct l1 as [|h' l1]; simpl in Hl; injection Hl as -> ->; eexists; apply elem_of_app; right; left.
    + exists l. apply elem_of_app. right. by right.
Qed.

(** [remove_node] on any node of a ring: it is removed exactly when it has no
    rights and no descendants. *)
Lemma remove_node_run m l1 x l2 :
  ring (links_of m) (l1 ++ x :: l2) → derivation m (l1 ++ x :: l2) →
  if truthy (node_attr (m x)) || has_children m x l2 then remove_node true x m = (false, m)
  else ∃ m', remove_node true x m = (true, m') ∧ ∀ n, m' n = removed x m n.
Proof.
  intros Hr Hd. destruct l1 as [|h l1]; [|by apply (remove_leaf_run m (h :: l1))].
  unfold remove_node. destruct (truthy (node_attr (m x))); [done|]. simpl.
  rewrite (alive_ring m _ x Hr) by left. simpl.
  destruct l2 as [|y l2].
  - simpl in Hr. destruct Hr as [_ [Hn Hp]]. injection Hn as Hn. injection Hp as Hp.
    simpl. rewrite Hn, Z.ltb_irrefl. eexists. split; [done|]. intros n. unfold removed. rewrite Hn, Hp.
    rewrite (upd_at x (set_prev_of x) m). simpl. rewrite Hn.
    destruct (decide (n = x)) as [->|]; [by rewrite !upd_at|rewrite !upd_ne by done; by destruct (m n)].
  - destruct (ring_around m [] x (y :: l2) Hr) as (Hn & _); [done|]. rewrite Hn. simpl.
    assert (dpth (m x) < dpth (m y)) as Hlt by (apply (root_least m x (y :: l2) Hd); left).
    rewrite (proj2 (Z.ltb_lt _ _) Hlt). done.
Qed.

Lemma rings_remove m R1 l1 x l2 R2 :
  rings_inv m (R1 ++ (l1 ++ x :: l2) :: R2) → node_attr (m x) = 0 → has_children m x l2 = false →
  ∃ m', remove_node true x m = (true, m') ∧ (∀ n, m' n = removed x m n) ∧
    rings_inv m' (R1 ++ (l1 ++ l2) :: R2).
Proof.
  intros HR Ha Hc.
  destruct (rv_ring _ _ HR (l1 ++ x :: l2)) as [Hring Hder]; [apply elem_of_app; right; left|].
  destruct (rings_nodup_mid _ _ _ _ HR) as [HN Hout].
  pose proof (remove_node_run m l1 x l2 Hring Hder) as Hrun. rewrite Ha, Hc in Hrun. simpl in Hrun.
  destruct Hrun as (m' & E & Hm'). exists m'. split_and!; [done..|].
  assert (∀ y, y ∈ l1 ++ l2 → y ∈ l1 ++ x :: l2) as Hin by (intros y; rewrite !elem_of_app, elem_of_cons; tauto).
  assert (x ∈ l1 ++ x :: l2) as Hxr by (apply elem_of_app; right; left).
  destruct (ring_next_in m _ x Hring Hxr) as [Hnext Hprev].
  eapply rings_replace; [exact HR| | | | | |].
  - apply (ring_pointwise (links_of (removed x m))); [intros n; simpl; by rewrite Hm'..|].
    destruct (decide (l1 ++ l2 = [])) as [->|Hne]; [done|]. by apply removed_ring.
  - destruct l1 as [|h l1].
    + destruct l2 as [|y l2]; [intros k1 n k2 E'; by destruct k1|]. simpl in Hc. apply Z.ltb_ge in Hc.
      pose proof (root_least m x (y :: l2) Hder y). assert (dpth (m x) < dpth (m y)) by (apply H; left). lia.
    + apply (derivation_remove m m' x); try done. intros b _. by rewrite Hm'.
  - intros y Hy. assert (y ∉ l1 ++ x :: l2) as Hyr by (intros Hyr; by apply (Hout y)).
    rewrite Hm'. unfold same_place, removed. simpl.
    assert (y ≠ mdb_next (m x)) by (intros ->; done). assert (y ≠ mdb_prev (m x)) by (intros ->; done).
    by rewrite !decide_False by done.
  - rewrite Permutation_app_comm in HN. simpl in HN. apply list.NoDup_cons in HN as [_ HN].
    by rewrite Permutation_app_comm.
  - intros y Hy. apply Hout. by apply Hin.
  - intros y l El. rewrite Hm'. simpl. destruct l1 as [|h l1].
    + destruct l2 as [|z l2]; [done|]. simpl in Hc. apply Z.ltb_ge in Hc.
      pose proof (root_least m x (z :: l2) Hder z ltac:(left)). lia.
    + simpl in El. injection El as -> _. apply (rv_root _ _ HR y (l1 ++ x :: l2)). apply elem_of_app. right. left.
Qed.

(** ** The steps on the system *)

Definition attr_only (m m' : memory) : Prop := ∀ x, ∃ a, m' x = set_attr a (m x).

Lemma attr_only_refl m : attr_only m m.
Proof. intros x. exists (node_attr (m x)). by destruct (m x). Qed.

Lemma attr_only_upd x a m : attr_only m (upd x (set_attr a) m).
Proof.
  intros y. destruct (decide (x = y)) as [->|]; [exists a; apply upd_at|].
  rewrite upd_ne by done. exists (node_attr (m y)). by destruct (m y).
Qed.

Lemma system_attr sp L R m :
  system sp L R → attr_only (mem sp) m → system (set_mem m sp) L R.
Proof.
  intros [HS HR Hin Hhome Hok] Hm. split.
  - apply spaces_mem; [done|]. intros x. destruct (Hm x) as [a ->]. done.
  - simpl. eapply rings_same; [|exact HR]. intros x _. by destruct (Hm x) as [a ->].
  - done.
  - intros s x Hx. simpl. destruct (Hm x) as [a ->]. by apply Hhome.
  - intros s x Hx. simpl. destruct (Hm x) as [a ->]. by apply (Hok s).
Qed.

Lemma system_lt sp L R x : system sp L R → x ∈ mjoin R → (x < brk sp)%nat.
Proof. intros HY (s & Hs)%(sy_in _ _ _ HY). by eapply sv_lt; [apply HY|]. Qed.

Lemma system_new sp L R s p b o a t sub depth x sp' :
  system sp L R → new_mdb s p b o a t sub depth sp = (x, sp') → Z.of_nat (brk sp) + 1 < 2 ^ 64 →
  system sp' L R ∧ fresh_node (tree sp') x ∧ x = brk sp ∧ brk sp' = S (brk sp) ∧
  mem sp' x = mdb_new x s p b o a t sub depth ∧ (∀ y, y ≠ x → mem sp' y = mem sp y) ∧
  (∀ s', x ∉ L s') ∧ x ∉ mjoin R.
Proof.
  intros HY Hnew Hlt. destruct (spaces_new _ _ _ _ _ _ _ _ _ _ _ _ (sy_spaces _ _ _ HY) Hnew Hlt)
    as (HV & Hf & -> & Hb & Hx & Hy).
  assert (∀ s', brk sp ∉ L s') as HnL.
  { intros s' Hs. pose proof (sv_lt _ _ _ _ (sy_spaces _ _ _ HY) Hs). lia. }
  assert (brk sp ∉ mjoin R) as HnR.
  { intros Hr. pose proof (system_lt _ _ _ _ HY Hr). lia. }
  split_and!; try done. destruct HY as [_ HR Hin Hhome Hok]. split; [done| |done| |].
  - eapply rings_same; [|exact HR]. intros z Hz. rewrite Hy by (by intros ->). done.
  - intros s' z Hz. rewrite Hy by (intros ->; by apply (HnL s')). by apply Hhome.
  - intros s' z Hz. rewrite Hy by (intros ->; by apply (HnL s')). by apply (Hok s').
Qed.

(** A node that entered a space enters the ring of its parent as well. *)
Lemma system_derive sp L R s l x p a t :
  system sp L R → spaces_inv (set_tree t sp) (<[s := l]> L) → l ≡ₚ x :: L s →
  space (mem sp x) = Some s → node_ok (mem sp x) → (∀ s', x ∉ L s') → x ∉ mjoin R → p ∈ mjoin R →
  Z.land (node_attr (mem sp p)) a ≠ 0 → dpth (mem sp x) = dpth (mem sp p) + 1 →
  ∃ m R', insert_node x p a (mem sp) = (true, m) ∧ (∀ n, m n = inserted x p a (mem sp) n) ∧
    system (set_mem m (set_tree t sp)) (<[s := l]> L) R'.
Proof.
  intros HY HV Hl Hs Hok HnL HnR Hp Ha Hd.
  destruct (rings_insert (mem sp) R x p a (sy_rings _ _ _ HY) Hp HnR Ha Hd) as (m & R' & E & Hm & HR' & Hin & Hhead).
  exists m, R'. split_and!; [done..|]. destruct HY as [_ _ Hin0 Hhome Hok0]. split; simpl.
  - apply spaces_mem; [done|]. intros y. by rewrite Hm.
  - done.
  - intros y. rewrite Hin, Hin0. split.
    + intros [->|(s' & Hs')].
      * exists s. rewrite fn_lookup_insert, Hl. left.
      * exists s'. destruct (decide (s' = s)) as [->|]; [rewrite fn_lookup_insert, Hl; by right|].
        by rewrite fn_lookup_insert_ne.
    + intros (s' & Hs'). destruct (decide (s' = s)) as [->|].
      * rewrite fn_lookup_insert, Hl in Hs'. apply elem_of_cons in Hs' as [->|]; eauto.
      * rewrite fn_lookup_insert_ne in Hs' by done. eauto.
  - intros s' y. rewrite Hm. simpl. destruct (decide (s' = s)) as [->|].
    + rewrite fn_lookup_insert, Hl. intros [->|Hy]%elem_of_cons; [by left|].
      destruct (Hhome s y Hy) as [?|(? & k & Hk)]; [by left|right]. split; [done|]. by apply (Hhead y k).
    + rewrite fn_lookup_insert_ne by done. intros Hy.
      destruct (Hhome s' y Hy) as [?|(? & k & Hk)]; [by left|right]. split; [done|]. by apply (Hhead y k).
  - intros s' y Hy. assert (node_ok (mem sp y)) as Hoky.
    { destruct (decide (s' = s)) as [->|].
      - rewrite fn_lookup_insert, Hl in Hy. apply elem_of_cons in Hy as [->|Hy]; [done|by apply (Hok0 s)].
      - rewrite fn_lookup_insert_ne in Hy by done. by apply (Hok0 s'). }
    unfold node_ok in *. by rewrite Hm.
Qed.

(** A node without rights and descendants leaves its ring and its space. *)
Lemma system_remove sp L R1 l1 x l2 R2 s :
  system sp L (R1 ++ (l1 ++ x :: l2) :: R2) → x ∈ L s → space (mem sp x) = Some s →
  node_attr (mem sp x) = 0 → has_children (mem sp) x l2 = false →
  ∃ m t l, remove_node true x (mem sp) = (true, m) ∧ (∀ n, m n = removed x (mem sp) n) ∧
    tree_remove x (set_mem m sp) = Some (true, set_tree t (set_mem m sp)) ∧ L s ≡ₚ x :: l ∧
    system (set_tree t (set_mem m sp)) (<[s := l]> L) (R1 ++ (l1 ++ l2) :: R2).
Proof.
  intros HY Hx Hs Ha Hc. pose proof HY as [HV HR Hin Hhome Hok].
  destruct (rings_remove _ _ _ _ _ _ HR Ha Hc) as (m & E & Hm & HR').
  destruct (spaces_remove (set_mem m sp) L s x) as (t & l & Et & HV' & Hl); [|by simpl; rewrite Hm|done|].
  { apply spaces_mem; [done|]. intros y. by rewrite Hm. }
  exists m, t, l. split_and!; [done..|].
  assert (x ∉ l) as Hxl.
  { pose proof (space_NoDup _ _ _ (sv_space _ _ HV s)) as HN. rewrite Hl in HN. by apply list.NoDup_cons in HN as [? _]. }
  assert (∀ s' y, y ∈ <[s := l]> L s' ↔ y ∈ L s' ∧ y ≠ x) as HL.
  { intros s' y. destruct (decide (s' = s)) as [->|Hne].
    - rewrite fn_lookup_insert, Hl, elem_of_cons. split; [intros Hy; split; [by right|by intros ->]|tauto].
    - rewrite fn_lookup_insert_ne by done. split; [|tauto]. intros Hy. split; [done|]. intros ->.
      by apply Hne, (sv_disj _ _ HV s' s x). }
  destruct (rings_nodup_mid _ _ _ _ HR) as [HN Hout].
  split; simpl; [done|done| | |].
  - intros y. pose proof (Hin y) as Hy. rewrite join_mid in Hy |- *. setoid_rewrite HL.
    rewrite elem_of_app, elem_of_cons in Hy. rewrite elem_of_app.
    assert (y = x → (y ∉ l1) ∧ (y ∉ l2) ∧ (y ∉ mjoin (R1 ++ R2))) as Hyx.
    { intros ->. rewrite Permutation_app_comm in HN. simpl in HN. apply list.NoDup_cons in HN as [HN _].
      rewrite elem_of_app in HN. split_and!; [tauto|tauto|]. apply Hout, elem_of_app. right. left. }
    split.
    + intros Hy1. assert (y ≠ x) as Hne by (intros ->; tauto). destruct (proj1 Hy ltac:(tauto)) as [s' ?]. by exists s'.
    + intros (s' & Hs' & Hne). destruct (proj2 Hy (ex_intro _ s' Hs')) as [[|[|]]|]; tauto.
  - intros s' y (Hy & Hne)%HL. rewrite Hm. simpl. destruct (Hhome s' y Hy) as [?|(? & k & Hk)]; [by left|right].
    split; [done|]. rewrite elem_of_app, elem_of_cons in Hk. setoid_rewrite elem_of_app. setoid_rewrite elem_of_cons.
    destruct Hk as [Hk|[Hk|Hk]]; [by exists k; auto| |by exists k; auto].
    destruct l1 as [|h l1]; simpl in Hk; injection Hk as -> ->; [done|]. eexists. right. left. reflexivity.
  - intros s' y (Hy & _)%HL. unfold node_ok. rewrite Hm. by apply (Hok s').
Qed.

(** The same nodes in the same spaces, with other rights. *)
Lemma system_moved sp L R sp' L' :
  system sp L R → spaces_inv sp' L' → (∀ s x, x ∈ L' s ↔ x ∈ L s) →
  (∀ s x, x ∈ L s → ∃ a, mem sp' x = set_attr a (mem sp x)) → system sp' L' R.
Proof.
  intros [HV HR Hin Hhome Hok] HV' HL Hm. split; [done| | | |].
  - eapply rings_same; [|exact HR]. intros x (s & Hs)%Hin. by destruct (Hm s x Hs) as [a ->].
  - intros x. rewrite Hin. by setoid_rewrite HL.
  - intros s x Hx%HL. destruct (Hm s x Hx) as [a ->]. by apply Hhome.
  - intros s x Hx%HL. destruct (Hm s x Hx) as [a ->]. by apply (Hok s).
Qed.

(** The search for the next node finds the first node that ends above the
    address. *)
Definition top (n : mdb) : Z := node_base n + 2 ^ node_order n.

Lemma lookup_next sp L R s addr :
  system sp L R → ∃ r, tree_lookup s addr true sp = Some r ∧
    match r with
    | Some x => x ∈ L s ∧ addr < top (mem sp x) ∧
                ∀ y, y ∈ L s → addr < top (mem sp y) → node_base (mem sp x) ≤ node_base (mem sp y)
    | None => ∀ y, y ∈ L s → top (mem sp y) ≤ addr
    end.
Proof.
  intros HY. pose proof (sy_spaces _ _ _ HY) as HV. pose proof (sv_space _ _ HV s) as HS.
  eexists. split; [apply (tree_lookup_run _ _ _ _ _ HS (spaces_few _ _ _ HV))|].
  unfold lookup_result, top.
  assert (∀ y, y ∈ L s → 0 < 2 ^ node_order (mem sp y)) as Hp.
  { intros y Hy. apply pow2_pos. by apply (si_wf _ _ _ HS y Hy). }
  assert (∀ y, y ∈ L s → covers (mem sp) addr y = true ↔ region (mem sp) y addr) as Hcov.
  { intros y Hy. apply covers_region. by apply (si_wf _ _ _ HS). }
  destruct (si_holds _ _ _ HS) as (t & _ & Hb & _ & Ht & _). apply bst_inorder in Hb. rewrite Ht in Hb.
  destruct (List.find (covers _ _) (L s)) as [x|] eqn:Ef.
  - apply List.find_some in Ef as [Hin Hc]. apply list_elem_of_In in Hin. apply Hcov in Hc; [|done].
    unfold region in Hc. split; [done|]. split; [lia|]. intros y Hy Hlt.
    destruct (Z.le_gt_cases (node_base (mem sp x)) (node_base (mem sp y))) as [|Hgt]; [done|].
    assert (y = x) as ->; [|done]. apply (region_unique sp s (L s) y x addr); try done; unfold region; lia.
  - assert (∀ y, y ∈ L s → ¬ region (mem sp) y addr) as Hno.
    { intros y Hy Hr. apply Hcov in Hr; [|done]. by rewrite (find_none_out _ _ y Ef) in Hr. }
    destruct (List.find (λ x, addr <=? _) (L s)) as [x|] eqn:Eg.
    + destruct (find_first _ _ _ _ Hb Eg) as (Hin & Hle%Z.leb_le & Hall). specialize (Hp x Hin) as Hpx.
      split; [done|]. split; [lia|]. intros y Hy Hlt.
      assert (addr ≤ node_base (mem sp y)) as Hya by (specialize (Hno y Hy); unfold region in Hno; lia).
      destruct (Hall y Hy) as [->|Hbel]; [by apply Z.leb_le|done|]. unfold below in Hbel. simpl in Hbel. lia.
    + intros y Hy. specialize (Hno y Hy). unfold region in Hno.
      pose proof (find_none_out _ _ y Eg Hy) as Hge. apply Z.leb_gt in Hge. lia.
Qed.

(** The nodes of [l] that end above [addr]. *)
Definition ahead (l : list obj) (m : memory) (addr : Z) : list obj := filter (λ y, addr < top (m y)) l.

Lemma ahead_less l m addr x :
  x ∈ l → addr < top (m x) → (length (ahead l m (top (m x))) < length (ahead l m addr))%nat.
Proof.
  intros Hx Hlt. unfold ahead. apply list_elem_of_split in Hx as (l1 & l2 & ->).
  assert (∀ k : list obj, length (filter (λ y, (top (m x) < top (m y))%Z) k) ≤ length (filter (λ y, (addr < top (m y))%Z) k))%nat as Hle.
  { intros k. induction k as [|y k IH]; [done|]. rewrite !filter_cons. repeat case_decide; simpl; lia. }
  rewrite !list.filter_app, !filter_cons, !length_app.
  rewrite decide_False, decide_True by lia. simpl. pose proof (Hle l1). pose proof (Hle l2). lia.
Qed.
