(* ===== verification/SpaceMem.v ===== *)
(** Memory spaces: [include/space_mem.hpp] and [src/space_mem.cpp].

    A domain has a page table for its threads, [hpt], with a copy of the root
    for each CPU, [loc], one for the devices it owns, [dpt] or [ipt], and one
    for its virtual CPUs, [ept] or [npt].  [update] brings them in line with a
    node of the mapping database. *)
From S2P Require Import Prelude Bits Bitmap Quota Cpuset Pd Queue Mdb Buddy Pte PteKinds PteMap PteSound PteUpdate HptOps.
Local Open Scope Z_scope.

(** What is known of the processor: the largest orders of pages, [Vmcb::has_npt]
    and [Dpt::force_flush]. *)
Record platform := Platform {
  dpt_ord : Z; ipt_ord : Z; hpt_ord : Z; ept_ord : Z; has_npt : bool; force_flush : bool;
}.

(** [active]. *)
Definition active (ord : Z) : bool := negb (ord =? ones64).

(** The addresses of the roots in the object; [dpt] and [ipt] are a union, as
    are [ept] and [npt]. *)
Record roots := Roots { hpt : Z; dma : Z; gst : Z; loc : nat → Z }.

Definition NUM_CPU : nat := 256.

Section space_mem.
Context (OFFSET : Z) {E : Type} {F : Frames E} (P : platform) (R : roots).

(** The words and the quota of the guard are in [st], [rq] is the quota guarded. *)
Record smem := SMem { st : state E; rq : quota; hazard : Z; htlb : cpuset; gtlb : cpuset }.

Implicit Types m : smem.

Definition set_st (s : state E) m : smem := SMem s (rq m) (hazard m) (htlb m) (gtlb m).
Definition set_guard (q r : quota) m : smem :=
  SMem (State (wds (st m)) q (frs (st m))) r (hazard m) (htlb m) (gtlb m).
Definition raise_oom m : smem := SMem (st m) (rq m) (hazard m .| Pd.HZD_OOM)%W (htlb m) (gtlb m).
Definition set_htlb (c : cpuset) m : smem := SMem (st m) (rq m) (hazard m) c (gtlb m).
Definition set_gtlb (c : cpuset) m : smem := SMem (st m) (rq m) (hazard m) (htlb m) c.

(** [check (quota, ord)]. *)
Definition reserve (ord : Z) m : bool * smem :=
  let '(ok, q, r) := check (qta (st m)) (rq m) ord in (ok, set_guard q r m).

(** The loops over the parts of a region, [n] of them from part [i] on, for the
    page table at [root]: the first result is false when [check] failed. *)
Fixpoint pieces (K : PteKind) (n : nat) (i root b p ord a : Z) (chk : bool) (t : Pte_Type) (f : bool) m :
    option (bool * bool * smem) :=
  match n with
  | O => Some (true, f, m)
  | S n =>
    let '(ok, m) := if chk then reserve ord m else (true, m) in
    if ok then
      '(g, s) ← Pte.update OFFSET root (b + i * (1 << (ord + PAGE_BITS)%Z))%W ord
                  (p + i * (1 << (ord + PAGE_BITS)%Z))%W a t (st m);
      pieces K n (i + 1) root b p ord a chk t (f || g) (set_st s m)
    else Some (false, f, raise_oom m)
  end.

(** The loops for one page table; [o] is the order of the region and [max] that
    of the largest pages. *)
Definition update_table (K : PteKind) (root b p o max a : Z) (r : Z) (t : Pte_Type) (f : bool) m :
    option (bool * bool * smem) :=
  let ord := Z.min o max in
  pieces K (Z.to_nat (1 << (o - ord)%Z)%W) 0 root b p ord a (negb (truthy r)) t f m.

Definition dir (r : Z) : Pte_Type := if truthy r then TYPE_DN else TYPE_UP.

(** The tables for devices. *)
Definition update_dma (b p o a s r : Z) m : option (bool * bool * smem) :=
  '(ok, f, m) ← (if truthy (s .& 1)%W && active (dpt_ord P) then
      '(ok, f, m) ← update_table Dpt (dma R) b p o (dpt_ord P) a r (dir r) false m;
      Some (ok, if ok && force_flush P then true else f, m)
    else Some (true, false, m));
  if negb ok then Some (false, false, m)
  else if truthy (s .& 1)%W && active (ipt_ord P) then
    update_table Ipt (dma R) b p o (ipt_ord P) (Ipt_hw_attr a) r (dir r) f m
  else Some (true, f, m).

(** The tables for virtual CPUs. *)
Definition update_guest (cpus : cpuset) (b p o a ty s r : Z) m : option (bool * smem) :=
  if truthy (s .& 2)%W then
    '(ok, _, m) ← (if has_npt P then update_table Hpt (gst R) b p o (hpt_ord P) (Hpt_hw_attr a) r (dir r) false m
                   else update_table Ept (gst R) b p o (ept_ord P) (Ept_hw_attr a ty) r (dir r) false m);
    if negb ok then Some (false, m)
    else Some (true, if truthy r then set_gtlb (Cpuset.merge (gtlb m) cpus) m else m)
  else Some (true, m).

(** The loop over the copies of the root, [n] to go. *)
Fixpoint update_locs (n : nat) (b p o a r : Z) m : option (bool * smem) :=
  match n with
  | O => Some (true, m)
  | S n =>
    let j := (NUM_CPU - S n)%nat in
    if Hpt_addr (wds (st m) (loc R j)) =? 0 then update_locs n b p o a r m
    else
      match update_table Hpt (loc R j) b p o (hpt_ord P) (Hpt_hw_attr a) r TYPE_DF false m with
      | None => None
      | Some (ok, _, m) => if ok then update_locs n b p o a r m else Some (false, m)
      end
  end.

(** The tables for threads. *)
Definition update_host (cpus : cpuset) (b p o a r : Z) (f : bool) m : option (bool * smem) :=
  '(ok, f, m) ← update_table Hpt (hpt R) b p o (hpt_ord P) (Hpt_hw_attr a) r (dir r) f m;
  if negb ok then Some (f, m)
  else if truthy r || f then
    '(ok, m) ← update_locs NUM_CPU b p o a r m;
    if negb ok then Some (true, m)
    else Some (true, set_htlb (Cpuset.merge (htlb m) cpus) m)
  else Some (false, m).

(** The region does not belong to user space. *)
Definition beyond_user (base o : Z) : bool :=
  let last := (base + (1 << o))%W in
  (Z.shiftr USER_ADDR PAGE_BITS <=? base) || (Z.shiftr USER_ADDR PAGE_BITS <? last) || (last <=? base).

(** [update (quota, mdb, r)]; [cpus] is the set of CPUs the domain runs on.  The
    assertion on [mdb->space] is a precondition. *)
Definition update (cpus : cpuset) (node : mdb) (r : Z) m : option (bool * smem) :=
  let p := (node_phys node << PAGE_BITS)%W in
  let b := (node_base node << PAGE_BITS)%W in
  let o := node_order node in
  let a := (node_attr node .& wnot r)%W in
  let s := node_sub node in
  '(ok, f, m) ← update_dma b p o a s r m;
  if negb ok then Some (false, m)
  else
    '(ok, m) ← update_guest cpus b p o a (node_type node) s r m;
    if negb ok then Some (false, m)
    else
      let a := if truthy (s .& 4)%W && truthy a then (a .| HPT_PWT)%W else a in
      if beyond_user (node_base node) o then Some (false, m)
      else update_host cpus b p o a r f m.
End space_mem.
