(* ===== verification/SpaceMemSound.v ===== *)
(** Correctness of [Space_mem::update]: the page tables of a domain map the
    region of a node as the node says, and nothing else changes. *)
From S2P Require Import Prelude Bits Bitmap Quota Cpuset Pd Queue Mdb Buddy Pte PteKinds PteMap PteSound PteUpdate HptOps SpaceMem.
Local Open Scope Z_scope.

Lemma wrap_mod_down z k : 0 ≤ k ≤ 64 → wrap 64 z mod 2 ^ k = z mod 2 ^ k.
Proof. intros. unfold wrap. by apply mod_down. Qed.

(** ** The parts of a region *)
Section parts.
Context {b o p ord : Z}.
Hypothesis Rg : region b o p.
Hypothesis Hord : 0 ≤ ord ≤ o.

Definition part_size : Z := 2 ^ (ord + PAGE_BITS).
Definition part_virt (i : Z) : Z := (b + i * part_size)%W.
Definition part_phys (i : Z) : Z := (p + i * part_size)%W.

Lemma part_pos : 0 < part_size.
Proof. apply pow2_pos. unfold PAGE_BITS. lia. Qed.

Lemma whole_size : 2 ^ (o + PAGE_BITS) = 2 ^ (o - ord) * part_size.
Proof. unfold part_size. rewrite <-Z.pow_add_r by (unfold PAGE_BITS; lia). f_equal. lia. Qed.

Lemma whole_fits : b mod 2 ^ 48 + 2 ^ (o + PAGE_BITS) ≤ 2 ^ 48.
Proof.
  pose proof (region_top Rg) as Ht. destruct Rg as [Ho Hv _ _].
  pose proof (pow2_pos (o + PAGE_BITS) ltac:(unfold PAGE_BITS; lia)).
  assert (2 ^ 48 = 2 ^ (48 - (o + PAGE_BITS)) * 2 ^ (o + PAGE_BITS)) as E48.
  { rewrite <-Z.pow_add_r by (unfold PAGE_BITS in *; lia). f_equal. lia. }
  pose proof (low_aligned (o := o) (o + PAGE_BITS) b ltac:(unfold PAGE_BITS in *; lia) Hv) as Hal.
  apply Z.mod_divide in Hal as [c Hc]; [|lia]. pose proof (Z.mod_pos_bound b (2 ^ 48) ltac:(done)) as Hb.
  rewrite Hc in *. set (w := 2 ^ (o + PAGE_BITS)) in *. set (n := 2 ^ (48 - (o + PAGE_BITS))) in *.
  assert (c < n) by (apply (Z.mul_lt_mono_pos_r w); lia).
  assert ((c + 1) * w ≤ n * w) by (apply Z.mul_le_mono_nonneg_r; lia). lia.
Qed.

Lemma part_low i : 0 ≤ i < 2 ^ (o - ord) → part_virt i mod 2 ^ 48 = b mod 2 ^ 48 + i * part_size.
Proof.
  intros Hi. unfold part_virt, wadd. rewrite wrap_mod_down by lia.
  rewrite <-Z.add_mod_idemp_l by done. pose proof whole_fits. pose proof whole_size. pose proof part_pos.
  pose proof (Z.mod_pos_bound b (2 ^ 48) ltac:(done)).
  assert ((i + 1) * part_size ≤ 2 ^ (o - ord) * part_size) by (apply Z.mul_le_mono_nonneg_r; lia).
  apply Z.mod_small. nia.
Qed.

Lemma part_frame i : 0 ≤ i < 2 ^ (o - ord) → part_phys i = p + i * part_size.
Proof.
  intros Hi. unfold part_phys. pose proof whole_size. pose proof part_pos. destruct Rg as [_ _ _ [Hp Hmax]].
  assert ((i + 1) * part_size ≤ 2 ^ (o - ord) * part_size) by (apply Z.mul_le_mono_nonneg_r; lia).
  apply wadd_small. nia.
Qed.

Lemma part_region i : 0 ≤ i < 2 ^ (o - ord) → region (part_virt i) ord (part_phys i).
Proof.
  intros Hi. pose proof part_pos. pose proof whole_size.
  assert (∀ x, x mod 2 ^ (o + PAGE_BITS) = 0 → (x + i * part_size) mod part_size = 0) as Hal.
  { intros x Hx. rewrite Z.mod_add by lia. unfold part_size.
    rewrite <-(mod_down x (ord + PAGE_BITS) (o + PAGE_BITS)), Hx by (unfold PAGE_BITS; lia).
    apply Z.mod_0_l. apply Z.pow_nonzero; unfold PAGE_BITS; lia. }
  destruct Rg as [Ho Hv Hp [Hp0 Hp1]]. split.
  - lia.
  - unfold part_virt, wadd. rewrite wrap_mod_down by (unfold PAGE_BITS; lia). by apply Hal.
  - rewrite part_frame by done. by apply Hal.
  - rewrite part_frame by done. fold part_size.
    assert ((i + 1) * part_size ≤ 2 ^ (o - ord) * part_size) by (apply Z.mul_le_mono_nonneg_r; lia). nia.
Qed.

(** The addresses of the parts from [i] on, [n] of them. *)
Definition in_parts (i n q : Z) : Prop :=
  b mod 2 ^ 48 + i * part_size ≤ q mod 2 ^ 48 < b mod 2 ^ 48 + (i + n) * part_size.

#[local] Instance in_parts_dec i n q : Decision (in_parts i n q).
Proof. unfold in_parts. apply _. Defined.

Lemma covers_part i q : 0 ≤ i < 2 ^ (o - ord) → covers (part_virt i) ord q ↔ in_parts i 1 q.
Proof.
  intros Hi. unfold covers, in_block, in_parts. rewrite part_low by done. fold part_size.
  rewrite Z.mul_add_distr_r. lia.
Qed.

Lemma covers_parts q : covers b o q ↔ in_parts 0 (2 ^ (o - ord)) q.
Proof. unfold covers, in_block, in_parts. rewrite whole_size. by rewrite Z.mul_0_l, Z.add_0_r, Z.add_0_l. Qed.

(** A part maps an address as the region does. *)
Lemma part_mapping {K : PteKind} {L : PteLaws K} a q i :
  0 ≤ i < 2 ^ (o - ord) →
  mapping (v := part_virt i) (o := ord) (p := part_phys i) a q = mapping (v := b) (o := ord) (p := p) a q.
Proof.
  intros Hi. unfold mapping. destruct (truthy a); [|done]. do 3 f_equal. unfold offset.
  rewrite part_low, part_frame by done. lia.
Qed.
End parts.

Lemma guard_used q r req : word 64 (used q) → word 64 (used (guard_check q r req).1.2).
Proof.
  intros Hw. unfold guard_check. destruct (negb _); [done|]. unfold transfer_to.
  destruct (transfer_out _ _ _) as [[r' o]|]; [|done]. cbn. unfold transfer_in. cbn.
  destruct (_ && _); [apply wsub_word|done].
Qed.

Section sound.
Context {OFFSET : Z} {E : Type} {F : Frames E} {FO : FramesOk OFFSET E}.
Implicit Types (s : state E) (T : tree) (X : gset Z) (m : smem (E := E)).

(** ** Copies of a root *)

(** The pages [Y] hold objects and the tables that copies refer to; the roots
    of page tables are at [Rt]. *)
Context {Y Rt : gset Z}.

Definition reserved T X : Prop := ∀ y, y ∈ Y → y ∈ X ∧ (y ∉ tabs T).

Lemma reserved_held T X a : reserved T X → held Y a → held (X ∖ tabs T) a.
Proof.
  intros HY [|(y & Hy & Hin)]; [by left|right]. exists y. split; [|done]. apply elem_of_difference. by apply HY.
Qed.

Section copies.
Context {K : PteKind} {L : PteLaws K}.

(** Addresses of user space. *)
Definition user (v : Z) : Prop := v mod 2 ^ 48 < 2 ^ 47.

(** The table that the root at [rr] refers to, a page of [Y], has for user
    space entries that are empty or those of the table at [r].  No root is in it. *)
Definition copied T (r rr : Z) (w : Z → Z) : Prop :=
  ∃ t, t ∈ Y ∧ (∀ x, x ∈ Rt → ¬ in_page t x) ∧ ¬ in_page t rr ∧ w rr = table_entry LEV (virt_to_phys OFFSET t) ∧
    ∀ v, user v → w (t + 8 * (pos 3 v mod 512)) = 0 ∨
      ∃ c, slot T r 3 v = Some c ∧ w (t + 8 * (pos 3 v mod 512)) = w c.

(** The root at [rr] is a copy of the one at [r]. *)
Definition copy T (r rr : Z) (w : Z → Z) : Prop := held Y rr ∧ (rr ∉ Rt) ∧ copied T r rr w.

Lemma walk_step l e v n s : (n ≤ l)%nat → wds s e ≠ 0 →
  walk OFFSET (S l) e v n false s = walk OFFSET l (down OFFSET (wds s e) v l) v n false s.
Proof.
  intros Hl Hne. cbn [walk]. rewrite (proj2 (Nat.eqb_neq (S l) n)) by lia. by rewrite (proj2 (Z.eqb_neq _ _)).
Qed.

Lemma walk_stop l e v n s : (n ≤ l)%nat → wds s e = 0 → walk OFFSET (S l) e v n false s = Some (None, s).
Proof.
  intros Hl H0. cbn [walk]. rewrite (proj2 (Nat.eqb_neq (S l) n)) by lia. by rewrite (proj2 (Z.eqb_eq _ _)).
Qed.

(** A copy leads where the root leads, or nowhere. *)
Lemma copy_walk T X r rr s v n :
  sound (OFFSET := OFFSET) T X r s → reserved T X → copied T r rr (wds s) → user v → (n ≤ 2)%nat →
  walk OFFSET LEV rr v n false s = Some (None, s) ∨
  walk OFFSET LEV rr v n false s = walk OFFSET LEV r v n false s.
Proof.
  intros HS HY (t & Ht & Hr & Hrr & Hw & Hsh) Hv Hn2. pose proof (owns_page _ _ _ (s_owns _ _ _ _ HS) (proj1 (HY t Ht))) as Hp.
  change LEV with 4%nat in *. rewrite (walk_step 3 rr) by (lia || (rewrite Hw; apply (entry_present LEV); [unfold LEV; lia|apply Hp])).
  rewrite Hw, (down_table t 3 v) by (done || unfold LEV; lia).
  destruct (Hsh v Hv) as [H0|(c & Hc & Hx)].
  { left. apply walk_stop; [lia|done]. }
  destruct (decide (wds s c = 0)) as [H0|Hne].
  { left. apply walk_stop; [lia|congruence]. }
  right. destruct (slot_parent (s_tables _ _ _ _ HS) 3 v c ltac:(unfold LEV; lia) Hc) as (e' & t' & He' & Ht' & -> & Hw').
  unfold slot in He'. change 4%nat with LEV in He' at 1. rewrite pos_top, addr_top in He'. injection He' as <-.
  pose proof (t_page _ _ _ (s_tables _ _ _ _ HS) _ _ Ht') as Hp'.
  rewrite (walk_step 3 r) by (lia || (rewrite Hw'; apply (entry_present LEV); [unfold LEV; lia|apply Hp'])).
  rewrite Hw', (down_table t' 3 v) by (done || unfold LEV; lia).
  rewrite !(walk_step 2) by (lia || congruence). by rewrite Hx.
Qed.

Lemma copy_lookup X s t rr v :
  owns (frs s) X → t ∈ X → wds s rr = table_entry LEV (virt_to_phys OFFSET t) →
  lookup OFFSET LEV rr v (wds s) = lookup OFFSET 3 (t + 8 * (pos 3 v mod 512)) v (wds s).
Proof.
  intros HO Ht Hw. pose proof (owns_page _ _ _ HO Ht) as Hp. change LEV with 4%nat at 1. cbn [lookup].
  rewrite Hw, (proj2 (Z.eqb_neq _ _)) by (apply (entry_present LEV); [unfold LEV; lia|apply Hp]).
  by rewrite (entry_super LEV), (down_table t 3 v) by (done || (unfold LEV; lia) || apply Hp).
Qed.

(** What a CPU sees through its copy is what the table of the domain says, or
    nothing. *)
Lemma copy_translate T X r rr s v :
  sound (OFFSET := OFFSET) T X r s → reserved T X → copied T r rr (wds s) → user v →
  translate (OFFSET := OFFSET) rr v s = None ∨ translate (OFFSET := OFFSET) rr v s = translate (OFFSET := OFFSET) r v s.
Proof.
  intros HS HY (t & Ht & Hr & Hrr & Hw & Hsh) Hv.
  unfold translate. rewrite (copy_lookup X s t rr v (s_owns _ _ _ _ HS) (proj1 (HY t Ht)) Hw).
  destruct (Hsh v Hv) as [H0|(c & Hc & Hx)]; [left; cbn [lookup]; by rewrite H0|right].
  rewrite (slot_lookup (s_tables _ _ _ _ HS) 1 3 v c) by (done || unfold LEV; lia).
  cbn [lookup]. by rewrite Hx.
Qed.

Lemma copy_update T X r rr s v o p a :
  sound (OFFSET := OFFSET) T X r s → reserved T X → copied T r rr (wds s) → user v → (Z.to_nat (o / BPL) ≤ 2)%nat →
  Pte.update OFFSET rr v o p a TYPE_DF s = Some (false, s) ∨
  Pte.update OFFSET rr v o p a TYPE_DF s = Pte.update OFFSET r v o p a TYPE_DF s.
Proof.
  intros HS HY HC Hv Ho. unfold Pte.update. destruct (copy_walk T X r rr s v _ HS HY HC Hv Ho) as [->| ->]; auto.
Qed.
End copies.

(** ** One page table *)
Section table.
Context {K : PteKind} {L : PteLaws K} {b o p ord a : Z} {t : Pte_Type}.
Hypothesis Rg : region b o p.
Hypothesis Hord : 0 ≤ ord ≤ o.
Hypothesis Ha : good_attr a.

Abbreviation inp := (in_parts (b := b) (ord := ord)).
Abbreviation target q := (mapping (v := b) (o := ord) (p := p) a q).
Abbreviation lvl := (Z.to_nat (ord / BPL)).

(** What a change of the parts from [i] on did to the table at [r]. *)
Record effect (i n : Z) T X (r : Z) s T' X' s' : Prop := {
  ef_sound : sound (OFFSET := OFFSET) T' X' r s';
  ef_map q : translate (OFFSET := OFFSET) r q s' = translate (OFFSET := OFFSET) r q s ∨
    (inp i n q ∧ translate (OFFSET := OFFSET) r q s' = target q);
  ef_keep x : x ∈ X → x ∉ tabs T → x ∈ X' ∧ (x ∉ tabs T');
  ef_rest x : held (X ∖ tabs T) x → x ≠ r → wds s' x = wds s x;
  ef_upper l y c : addr T r l y = Some c → (lvl < l)%nat →
    addr T' r l y = Some c ∧ (wds s c ≠ 0 → wds s' c = wds s c);
}.

Lemma effect_refl i n T X r s : sound (OFFSET := OFFSET) T X r s → effect i n T X r s T X s.
Proof. intros HS. split; auto. Qed.

Lemma held_keep X T X' T' x :
  (∀ y, y ∈ X → y ∉ tabs T → y ∈ X' ∧ y ∉ tabs T') → held (X ∖ tabs T) x → held (X' ∖ tabs T') x.
Proof.
  intros Hk [|(y & [Hy Hn]%elem_of_difference & Hin)]; [by left|right]. exists y. split; [|done].
  apply elem_of_difference. by apply Hk.
Qed.

Lemma effect_trans i n k T1 X1 r s1 T2 X2 s2 T3 X3 s3 :
  0 ≤ n → 0 ≤ k →
  effect i n T1 X1 r s1 T2 X2 s2 → effect (i + n) k T2 X2 r s2 T3 X3 s3 → effect i (n + k) T1 X1 r s1 T3 X3 s3.
Proof.
  intros Hn Hk [S2 M2 K2 R2 U2] [S3 M3 K3 R3 U3]. pose proof (part_pos (o := o) Hord).
  assert (∀ q, inp i n q → inp i (n + k) q) as Hl.
  { unfold in_parts. intros q Hq. assert ((i + n) * part_size (ord := ord) ≤ (i + (n + k)) * part_size (ord := ord)); [|lia].
    apply Z.mul_le_mono_nonneg_r; lia. }
  assert (∀ q, inp (i + n) k q → inp i (n + k) q) as Hr.
  { unfold in_parts. intros q Hq. assert (i * part_size (ord := ord) ≤ (i + n) * part_size (ord := ord)) by (apply Z.mul_le_mono_nonneg_r; lia).
    rewrite Z.add_assoc. lia. }
  split.
  - done.
  - intros q. destruct (M3 q) as [->|[Hq ->]]; [|right; auto]. destruct (M2 q) as [->|[Hq ->]]; [by left|right; auto].
  - intros x Hx Hnx. destruct (K2 x Hx Hnx). auto.
  - intros x Hx Hxr. rewrite R3 by (done || by eapply held_keep). by apply R2.
  - intros l y c Hc Hlt. destruct (U2 l y c Hc Hlt) as [Hc2 Hw2]. destruct (U3 l y c Hc2 Hlt) as [Hc3 Hw3].
    split; [done|]. intros Hne. rewrite Hw3; [by apply Hw2|by rewrite Hw2].
Qed.

Lemma copy_effect i n T X r rr s T' X' s' :
  (lvl ≤ 2)%nat → r ∈ Rt → reserved T X → copy T r rr (wds s) → effect i n T X r s T' X' s' →
  copy T' r rr (wds s').
Proof.
  intros Hl HrR HY (Hh & Hne & g & Ht & Hr & Hrr & Hw & Hsh) [S' M' K' R' U'].
  assert (∀ y, held (X ∖ tabs T) (g + 8 * (y mod 512))) as Hin.
  { intros y. apply reserved_held; [done|]. right. exists g. split; [done|]. apply in_page_mod. }
  split; [done|]. split; [done|].
  exists g. split; [done|]. split; [done|]. split; [done|].
  split; [rewrite R'; [done|by apply reserved_held|by intros ->]|]. intros v Hv.
  assert (wds s' (g + 8 * (pos 3 v mod 512)) = wds s (g + 8 * (pos 3 v mod 512))) as ->.
  { apply R'; [apply Hin|]. intros E1. apply (Hr r HrR). rewrite <-E1. apply in_page_mod. }
  destruct (Hsh v Hv) as [Hz|(c & Hc & Hx)]; [by left|].
  destruct (U' 3%nat _ c Hc ltac:(lia)) as [Hc' Hw'].
  destruct (decide (wds s c = 0)) as [Hz|Hn0]; [left; congruence|]. right. exists c. split; [done|].
  rewrite Hx. symmetry. by apply Hw'.
Qed.

(** The root [rr] at which [update] is called: that of the table or a copy. *)
Definition acts (rr : Z) T X (r : Z) s : Prop :=
  rr = r ∨ (t = TYPE_DF ∧ (lvl ≤ 2)%nat ∧ b mod 2 ^ 48 + 2 ^ (o + PAGE_BITS) ≤ 2 ^ 47 ∧
    r ∈ Rt ∧ reserved T X ∧ copy T r rr (wds s)).

Lemma acts_effect rr i n T X r s T' X' s' :
  acts rr T X r s → effect i n T X r s T' X' s' → acts rr T' X' r s'.
Proof.
  intros [->|(Ht & Hl & Hu & Hr & HY & HC)] HE; [by left|right]. split_and!; [done..| |by eapply copy_effect].
  intros y Hy. destruct (HY y Hy). by apply HE.
Qed.

Lemma updated_effect i T X r s fl T' X' s' :
  0 ≤ i < 2 ^ (o - ord) →
  updated (OFFSET := OFFSET) (part_virt (b := b) (ord := ord) i) ord (part_phys (p := p) (ord := ord) i) a T X r s fl T' X' s' →
  effect i 1 T X r s T' X' s' ∧ ∀ q, inp i 1 q → translate (OFFSET := OFFSET) r q s' = target q.
Proof.
  intros Hi U.
  assert (∀ q, inp i 1 q → translate (OFFSET := OFFSET) r q s' = target q) as Hin.
  { intros q Hq. rewrite (u_map _ _ _ _ _ _ _ _ _ _ _ _ U), decide_True by (by apply (covers_part Rg Hord i q Hi)).
    by apply (part_mapping Rg Hord). }
  split; [|done]. split; [apply U| |apply U|apply U|apply U].
  intros q. destruct (decide (inp i 1 q)) as [Hq|Hq]; [right; auto|left].
  rewrite (u_map _ _ _ _ _ _ _ _ _ _ _ _ U), decide_False; [done|]. intros Hc. apply Hq.
  by apply (covers_part Rg Hord i q Hi).
Qed.

(** The region is mapped at [q] as asked, or had no tables to change. *)
Definition settled (r q : Z) s : Prop :=
  translate (OFFSET := OFFSET) r q s = target q ∨ (t ≠ TYPE_UP ∧ translate (OFFSET := OFFSET) r q s = None).

(** What [update] of one part does. *)
Lemma part_update i T X r s k rr :
  0 ≤ i < 2 ^ (o - ord) → sound (OFFSET := OFFSET) T X r s → acts rr T X r s →
  (∀ q, inp i 1 q → no_larger (OFFSET := OFFSET) lvl r q (wds s)) →
  (t = TYPE_UP → room (LEV + k) (frs s)) →
  ∃ g s' T' X',
    Pte.update OFFSET rr (b + i * (1 << (ord + PAGE_BITS)%Z))%W ord (p + i * (1 << (ord + PAGE_BITS)%Z))%W a t s = Some (g, s') ∧
    effect i 1 T X r s T' X' s' ∧ (rr = r → ∀ q, inp i 1 q → settled r q s') ∧
    (t = TYPE_UP → room k (frs s')) ∧ (t ≠ TYPE_UP → ∀ j, room j (frs s) → room j (frs s')) ∧
    (g = false → 9 ≤ ord → ∀ q, translate (OFFSET := OFFSET) r q s = None ∨
      translate (OFFSET := OFFSET) r q s' = translate (OFFSET := OFFSET) r q s).
Proof.
  intros Hi HS Hacts Hmax Hroom. pose proof (r_order _ _ _ Rg).
  assert ((1 << (ord + PAGE_BITS)%Z)%W = part_size (ord := ord)) as -> by (apply wshl_1; unfold PAGE_BITS; lia).
  change (b + i * part_size (ord := ord))%W with (part_virt (b := b) (ord := ord) i).
  change (p + i * part_size (ord := ord))%W with (part_phys (p := p) (ord := ord) i).
  pose proof (part_region Rg Hord i Hi) as Ri.
  assert (no_larger (OFFSET := OFFSET) lvl r (part_virt (b := b) (ord := ord) i) (wds s)) as Hmaxi.
  { apply Hmax. apply (covers_part Rg Hord i _ Hi). apply in_block_self. unfold PAGE_BITS. lia. }
  assert (∀ fl T' X' s', updated (OFFSET := OFFSET) (part_virt (b := b) (ord := ord) i) ord (part_phys (p := p) (ord := ord) i) a T X r s fl T' X' s' →
    fl = false → 9 ≤ ord → ∀ q, translate (OFFSET := OFFSET) r q s = None ∨ translate (OFFSET := OFFSET) r q s' = translate (OFFSET := OFFSET) r q s) as Hfl.
  { intros fl T' X' s' U -> H9 q. destruct (decide (covers (part_virt (b := b) (ord := ord) i) ord q)) as [Hq|Hq].
    - destruct (u_flush _ _ _ _ _ _ _ _ _ _ _ _ U eq_refl H9 q Hq); auto.
    - right. rewrite (u_map _ _ _ _ _ _ _ _ _ _ _ _ U q). by rewrite decide_False. }
  set (vi := part_virt (b := b) (ord := ord) i) in *. set (pi := part_phys (p := p) (ord := ord) i) in *.
  assert ((t ≠ TYPE_UP ∧ Pte.update OFFSET rr vi ord pi a t s = Some (false, s) ∧ rr ≠ r) ∨
    Pte.update OFFSET rr vi ord pi a t s = Pte.update OFFSET r vi ord pi a t s) as [(Ht & Hup & Hrr)| ->].
  { destruct Hacts as [->|(-> & Hl & Hu & HrR & HY & _ & Hne & HC)]; [by right|].
    assert (user vi) as Hv.
    { unfold user. subst vi. rewrite (part_low Rg Hord i Hi). pose proof (part_pos (o := o) Hord).
      rewrite (whole_size Hord) in Hu.
      assert ((i + 1) * part_size (ord := ord) ≤ 2 ^ (o - ord) * part_size (ord := ord)) by (apply Z.mul_le_mono_nonneg_r; lia). lia. }
    destruct (copy_update T X r rr s vi ord pi a HS HY HC Hv Hl) as [Hf|Hf]; [left|by right].
    split_and!; [done|exact Hf|by intros ->]. }
  { exists false, s, T, X. split; [exact Hup|]. split; [by apply effect_refl|]. split; [done|].
    split; [done|]. split; [done|]. by right. }
  destruct (decide (t = TYPE_UP)) as [Ht|Ht].
  - rewrite Ht. destruct (grow_region T X r s _ _ _ a k HS Ri Ha Hmaxi (Hroom Ht)) as (fl & T' & X' & s' & Hu & U & Hk).
    destruct (updated_effect i T X r s fl T' X' s' Hi U) as [Hef Hin].
    exists fl, s', T', X'. split; [exact Hu|]. split; [done|]. split; [intros _ q Hq; left; auto|].
    split; [done|]. split; [done|]. by eapply Hfl.
  - destruct (change_region T X r s _ _ _ a t HS Ri Ha Ht Hmaxi) as (fl & s' & Hu & Hk & [(T' & X' & U)|(-> & -> & Hnone)]).
    + destruct (updated_effect i T X r s fl T' X' s' Hi U) as [Hef Hin].
      exists fl, s', T', X'. split; [exact Hu|]. split; [done|]. split; [intros _ q Hq; left; auto|].
      split; [done|]. split; [done|]. by eapply Hfl.
    + exists false, s, T, X. split; [exact Hu|]. split; [by apply effect_refl|].
      split; [|split; [done|split; [done|by right]]]. intros _ q Hq. right. split; [done|].
      apply Hnone. by apply (covers_part Rg Hord i q Hi).
Qed.

(** What the reservation of quota does. *)
Lemma guard_reserve n m : ∃ ok m', reserve n m = (ok, m') ∧
  wds (st m') = wds (st m) ∧ frs (st m') = frs (st m) ∧ hazard m' = hazard m ∧ htlb m' = htlb m ∧ gtlb m' = gtlb m ∧
  (word 64 (used (qta (st m))) → word 64 (used (qta (st m')))).
Proof.
  unfold reserve, check. pose proof (guard_used (qta (st m)) (rq m) (check_need n)) as Hu.
  destruct (guard_check _ _ _) as [[ok q] r0]. exists ok. eexists. split; [reflexivity|]. by split_and!.
Qed.

Lemma sound_words T X r s s' :
  sound (OFFSET := OFFSET) T X r s → wds s' = wds s → frs s' = frs s → word 64 (used (qta s')) →
  sound (OFFSET := OFFSET) T X r s'.
Proof. intros [H1 H2 H3 H4 H5] Hw Hf Hq. split; rewrite ?Hw, ?Hf; done. Qed.

Lemma effect_words i n T X r s s0 T' X' s' :
  effect i n T X r s0 T' X' s' → wds s0 = wds s → effect i n T X r s T' X' s'.
Proof.
  intros [H1 H2 H3 H4 H5] Hw. unfold translate in *. rewrite Hw in *. by split.
Qed.

(** What the loops over [n] parts of one table did. *)
Record looped (i n : Z) (rr : Z) T X (r : Z) (chk : bool) f m (ok f' : bool) T' X' m' : Prop := {
  lp_effect : effect i n T X r (st m) T' X' (st m');
  lp_settled : rr = r → ok = true → ∀ q, inp i n q → settled r q (st m');
  lp_ok : chk = false → ok = true;
  lp_hazard : hazard m' = if ok then hazard m else (hazard m .| Pd.HZD_OOM)%W;
  lp_tlbs : htlb m' = htlb m ∧ gtlb m' = gtlb m;
  lp_flush : f' = false → f = false ∧ (9 ≤ ord → ∀ q, translate (OFFSET := OFFSET) r q (st m) = None ∨
      translate (OFFSET := OFFSET) r q (st m') = translate (OFFSET := OFFSET) r q (st m));
}.

Lemma pieces_spec n : ∀ i rr T X r chk f m k,
  0 ≤ i → i + Z.of_nat n ≤ 2 ^ (o - ord) → sound (OFFSET := OFFSET) T X r (st m) → acts rr T X r (st m) →
  (∀ q, inp i (Z.of_nat n) q → no_larger (OFFSET := OFFSET) lvl r q (wds (st m))) →
  (t = TYPE_UP → room (n * LEV + k) (frs (st m))) →
  ∃ ok f' m' T' X', pieces OFFSET K n i rr b p ord a chk t f m = Some (ok, f', m') ∧
    looped i (Z.of_nat n) rr T X r chk f m ok f' T' X' m' ∧
    (t = TYPE_UP → room k (frs (st m'))) ∧ (t ≠ TYPE_UP → ∀ j, room j (frs (st m)) → room j (frs (st m'))).
Proof.
  induction n as [|n IH]; intros i rr T X r chk f m k Hi Hn HS Hacts Hmax Hroom.
  { exists true, f, m, T, X. split; [done|]. split; [|by split].
    split; [by apply effect_refl| |done|done|done|auto].
    intros _ _ q. unfold in_parts. rewrite Z.add_0_r. lia. }
  pose proof (part_pos (o := o) Hord) as Hpp.
  cbn [pieces]. set (g := if chk then reserve ord m else (true, m)).
  assert (∃ ok m1, g = (ok, m1) ∧ wds (st m1) = wds (st m) ∧ frs (st m1) = frs (st m) ∧ hazard m1 = hazard m ∧
    htlb m1 = htlb m ∧ gtlb m1 = gtlb m ∧ word 64 (used (qta (st m1))) ∧ (chk = false → ok = true))
    as (ok & m1 & -> & Ew & Ef & Eh & Eht & Eg & Hu & Hok).
  { subst g. destruct chk.
    - destruct (guard_reserve ord m) as (ok & m1 & Hr & ? & ? & ? & ? & ? & Hu). exists ok, m1. split_and!; try done. by apply Hu, HS.
    - exists true, m. split_and!; try done. by apply HS. }
  assert (sound (OFFSET := OFFSET) T X r (st m1)) as HS1 by (by eapply sound_words).
  destruct ok.
  2: { exists false, f, (raise_oom m1), T, X. split; [done|]. split; [|split; [intros Ht; specialize (Hroom Ht)|]]; cbn [raise_oom st]; rewrite ?Ef; [|by eapply room_le; [|exact Hroom]; lia|done].
       split; cbn [raise_oom st hazard htlb gtlb]; try done.
       - by eapply effect_words; [apply effect_refl|].
       - by rewrite Eh.
       - intros ->. split; [done|]. intros _ q. right. unfold translate. by rewrite Ew. }
  assert (∀ q, inp i 1 q → inp i (Z.of_nat (S n)) q) as Hsub1.
  { unfold in_parts. intros q Hq. assert ((i + 1) * part_size (ord := ord) ≤ (i + Z.of_nat (S n)) * part_size (ord := ord)); [|lia].
    apply Z.mul_le_mono_nonneg_r; lia. }
  assert (acts rr T X r (st m1)) as Hacts1 by (unfold acts in *; by rewrite Ew).
  destruct (part_update i T X r (st m1) (n * LEV + k) rr) as (fl & s2 & T2 & X2 & Hup & E2 & Hset2 & Hk2 & Hj2 & Hfl2); [lia|done|done|..].
  { intros q Hq. rewrite Ew. by apply Hmax, Hsub1. }
  { intros Ht. rewrite Ef. replace (LEV + (n * LEV + k))%nat with (S n * LEV + k)%nat by lia. by apply Hroom. }
  rewrite Hup. cbn [mbind option_bind].
  assert (∀ q, inp (i + 1) (Z.of_nat n) q → inp i (Z.of_nat (S n)) q ∧ ¬ inp i 1 q) as Hsub2.
  { unfold in_parts. intros q Hq. assert (i * part_size (ord := ord) ≤ (i + 1) * part_size (ord := ord)) by (apply Z.mul_le_mono_nonneg_r; lia).
    replace (i + Z.of_nat (S n)) with (i + 1 + Z.of_nat n) by lia. lia. }
  destruct (IH (i + 1) rr T2 X2 r chk (f || fl) (set_st s2 m1) k) as (ok & f' & m' & T' & X' & Hp & HL & Hk & Hj);
    [lia|lia|apply E2|by eapply acts_effect| |intros Ht; by apply Hk2|].
  { intros q Hq. destruct (Hsub2 q Hq) as [Hq1 Hq2]. cbn [set_st st]. destruct (ef_map _ _ _ _ _ _ _ _ _ E2 q) as [Hm|[? _]]; [|done].
    intros sz x y Hl. unfold translate in Hm. rewrite Hm, Ew in Hl. by eapply Hmax. }
  exists ok, f', m', T', X'. split; [exact Hp|]. destruct HL as [LE LS LO LH LT LF].
  cbn [set_st st hazard htlb gtlb] in *.
  assert (effect i (Z.of_nat (S n)) T X r (st m) T' X' (st m')) as HE.
  { eapply effect_words; [|exact Ew]. replace (Z.of_nat (S n)) with (1 + Z.of_nat n) by lia.
    eapply effect_trans; [lia|lia|exact E2|exact LE]. }
  split; [|split; [done|intros Ht j Hr; apply Hj; [done|]; apply Hj2; [done|]; by rewrite Ef]].
  split; [done| |done|by rewrite LH, Eh|by rewrite Eht, Eg in LT|].
  - intros Hrr Hk' q Hq. destruct (decide (inp (i + 1) (Z.of_nat n) q)) as [Hq2|Hq2]; [by apply LS|].
    assert (inp i 1 q) as Hq1.
    { revert Hq Hq2. unfold in_parts. replace (i + Z.of_nat (S n)) with (i + 1 + Z.of_nat n) by lia. lia. }
    unfold settled. destruct (ef_map _ _ _ _ _ _ _ _ _ LE q) as [->|[? _]]; [by apply Hset2|done].
  - intros Hf. destruct (LF Hf) as [[-> ->]%orb_false_iff Hf2]. split; [done|]. intros H9 q.
    destruct (Hf2 H9 q) as [Hf3|Hf3]; destruct (Hfl2 eq_refl H9 q) as [Hf4|Hf4]; unfold translate in *; rewrite Ew in *.
    + by left.
    + left. by rewrite <-Hf4.
    + by left.
    + right. by rewrite Hf3.
Qed.
End table.
End sound.
