(* ===== verification/SpaceMemUpdate.v ===== *)
(** Correctness of [Space_mem::update]: a node of the mapping database is put
    into every page table of the domain that it selects, the trees stay apart,
    and every CPU sees, through its copy of the root, the table of the domain. *)
From S2P Require Import Prelude Bits Bitmap Quota Cpuset Pd Queue Mdb Buddy Pte PteKinds PteMap PteSound PteUpdate HptOps SpaceMem SpaceMemSound.
Local Open Scope Z_scope.

(** ** The page tables of a domain *)

(** A page table: its kind, its tree and the address of its root. *)
Record ptab := PTab { tk : PteKind; tl : PteLaws tk; tt : tree; tr : Z }.

Definition retree (T : tree) (tb : ptab) : ptab := PTab (tk tb) (tl tb) T (tr tb).

Section forest.
Context {OFFSET : Z} {E : Type} {F : Frames E} {FO : FramesOk OFFSET E} {Y Rt : gset Z}.
Implicit Types (s : state E) (T : tree) (X : gset Z) (m : smem (E := E)) (Ls : list ptab).

Definition seen (tb : ptab) (q : Z) s : option (Z * Z * Z) := lookup OFFSET (K := tk tb) LEV (tr tb) q (wds s).

(** Page tables with pages of their own. *)
Record forest Ls X s : Prop := {
  fo_sound i tb : Ls !! i = Some tb → sound (OFFSET := OFFSET) (K := tk tb) (tt tb) X (tr tb) s;
  fo_apart i j tb tb' : i ≠ j → Ls !! i = Some tb → Ls !! j = Some tb' →
    tabs (tt tb) ## tabs (tt tb') ∧ tr tb ≠ tr tb';
  fo_root i tb : Ls !! i = Some tb → held Y (tr tb) ∧ tr tb ∈ Rt;
  fo_reserved i tb : Ls !! i = Some tb → reserved (Y := Y) (tt tb) X;
}.

(** A page table of the forest changed: the others are as before. *)
Lemma forest_step Ls X s i tb T' X' s' :
  forest Ls X s → Ls !! i = Some tb →
  sound (OFFSET := OFFSET) (K := tk tb) T' X' (tr tb) s' →
  (∀ x, x ∈ X → x ∉ tabs (tt tb) → x ∈ X' ∧ x ∉ tabs T') →
  (∀ x, held (X ∖ tabs (tt tb)) x → x ≠ tr tb → wds s' x = wds s x) →
  forest (<[i := retree T' tb]> Ls) X' s' ∧
  (∀ a, held Y a → a ∉ Rt → wds s' a = wds s a) ∧
  (∀ t a, t ∈ Y → (∀ x, x ∈ Rt → ¬ in_page t x) → in_page t a → wds s' a = wds s a) ∧
  ∀ j tb2, j ≠ i → Ls !! j = Some tb2 →
    (∀ l y b, addr (tt tb2) (tr tb2) l y = Some b → wds s' b = wds s b) ∧ ∀ q, seen tb2 q s' = seen tb2 q s.
Proof.
  intros HF Hi HS' Hkeep Hrest. destruct (fo_root _ _ _ HF i tb Hi) as [Hhr HrR].
  pose proof (fo_reserved _ _ _ HF i tb Hi) as HY.
  pose proof (lookup_lt_Some _ _ _ Hi) as Hlt.
  assert (∀ j tb2, j ≠ i → Ls !! j = Some tb2 →
    sound (OFFSET := OFFSET) (K := tk tb2) (tt tb2) X' (tr tb2) s' ∧ tabs (tt tb2) ## tabs T' ∧
    (∀ l y b, addr (tt tb2) (tr tb2) l y = Some b → wds s' b = wds s b) ∧ ∀ q, seen tb2 q s' = seen tb2 q s) as Hoth.
  { intros j tb2 Hj Hb. destruct (fo_apart _ _ _ HF j i tb2 tb Hj Hb Hi) as [Hd Hr].
    destruct (fo_root _ _ _ HF j tb2 Hb) as [Hh2 _].
    destruct (spare_tree (K := tk tb) (L2 := tl tb2) (tt tb) X (tr tb) s T' X' s' (tt tb2) (tr tb2) HS' Hkeep Hrest
      (fo_sound _ _ _ HF j tb2 Hb) Hd Hr) as (H1 & H2 & _ & H4 & H5); [by eapply reserved_held|..].
    - intros t Ht. eapply (held_not_tab (K := tk tb2)); [exact (fo_sound _ _ _ HF j tb2 Hb)| |exact Ht].
      apply (reserved_held (Y := Y)); [by eapply fo_reserved|done].
    - by split_and!. }
  split; [|split; [|split]].
  - split.
    + intros j tb2 Hb. destruct (decide (j = i)) as [->|Hj].
      * rewrite list_lookup_insert_eq in Hb by done. injection Hb as <-. exact HS'.
      * rewrite list_lookup_insert_ne in Hb by done. by apply (Hoth j).
    + intros j k tb2 tb3 Hjk Hb Hb3. destruct (decide (j = i)) as [->|Hj]; [|destruct (decide (k = i)) as [->|Hk]].
      * rewrite list_lookup_insert_eq in Hb by done. rewrite list_lookup_insert_ne in Hb3 by done. injection Hb as <-.
        split; [symmetry; by apply (Hoth k)|]. exact (proj2 (fo_apart _ _ _ HF i k tb tb3 Hjk Hi Hb3)).
      * rewrite list_lookup_insert_ne in Hb by done. rewrite list_lookup_insert_eq in Hb3 by done. injection Hb3 as <-.
        split; [by apply (Hoth j)|]. exact (proj2 (fo_apart _ _ _ HF j i tb2 tb Hjk Hb Hi)).
      * rewrite !list_lookup_insert_ne in * by done. by eapply (fo_apart _ _ _ HF j k).
    + intros j tb2 Hb. destruct (decide (j = i)) as [->|Hj].
      * rewrite list_lookup_insert_eq in Hb by done. injection Hb as <-. done.
      * rewrite list_lookup_insert_ne in Hb by done. by eapply fo_root.
    + intros j tb2 Hb y Hy. destruct (Hkeep y) as [HyX HyT]; [by apply HY..|]. split; [done|].
      destruct (decide (j = i)) as [->|Hj].
      * rewrite list_lookup_insert_eq in Hb by done. injection Hb as <-. done.
      * rewrite list_lookup_insert_ne in Hb by done. by eapply (fo_reserved _ _ _ HF).
  - intros a Ha Hn. apply Hrest; [by eapply reserved_held|]. by intros ->.
  - intros t a Ht Hnr Hin. apply Hrest; [eapply reserved_held; [done|]; right; eauto|]. intros ->. by eapply Hnr.
  - intros j tb2 Hj Hb. destruct (Hoth j tb2 Hj Hb) as (_ & _ & ? & ?). done.
Qed.

(** Copies of a root survive changes of other tables. *)
Lemma copy_spare tb {L2 : PteLaws (tk tb)} rr s s' :
  (∀ a, held Y a → a ∉ Rt → wds s' a = wds s a) →
  (∀ t a, t ∈ Y → (∀ x, x ∈ Rt → ¬ in_page t x) → in_page t a → wds s' a = wds s a) →
  (∀ l y b, addr (tt tb) (tr tb) l y = Some b → wds s' b = wds s b) →
  copy (OFFSET := OFFSET) (Y := Y) (Rt := Rt) (K := tk tb) (tt tb) (tr tb) rr (wds s) →
  copy (OFFSET := OFFSET) (Y := Y) (Rt := Rt) (K := tk tb) (tt tb) (tr tb) rr (wds s').
Proof.
  intros Hh Hp Ha (Hrr & Hn & t & Ht & Hnr & Hnt & Hw & Hsh). split; [done|]. split; [done|].
  exists t. split; [done|]. split; [done|]. split; [done|]. split; [by rewrite Hh|].
  intros v Hv. rewrite (Hp t) by (done || apply in_page_mod).
  destruct (Hsh v Hv) as [|(c & Hc & Hx)]; [by left|]. right. exists c. split; [done|]. rewrite Hx. symmetry. by eapply Ha.
Qed.

(** ** One table of the forest *)

Record order_ok (b o p max : Z) : Prop := { oo_region : region b o p; oo_max : 0 ≤ max }.

Lemma order_range' b o p max : order_ok b o p max → 0 ≤ Z.min o max ≤ o.
Proof. intros [[? _ _ _] ?]. lia. Qed.

(** The translation that a node asks for in a table whose largest pages have the
    order [max]. *)
Definition wanted {K : PteKind} {L : PteLaws K} (b o p max a q : Z) : option (Z * Z * Z) :=
  mapping (v := b) (o := Z.min o max) (p := p) a q.

(** No larger page is mapped in the region than the pages of the update. *)
Definition fitting (tb : ptab) (b o max : Z) s : Prop :=
  ∀ q, covers b o q → no_larger (OFFSET := OFFSET) (K := tk tb) (Z.to_nat (Z.min o max / BPL)) (tr tb) q (wds s).

Definition parts (o max : Z) : nat := Z.to_nat (2 ^ (o - Z.min o max)).

Lemma table_spec Ls X m i tb rr b o p max a r t f k :
  forest Ls X (st m) → Ls !! i = Some tb → order_ok b o p max → good_attr (PteLaws := tl tb) a →
  acts (OFFSET := OFFSET) (Y := Y) (Rt := Rt) (K := tk tb) (b := b) (o := o) (ord := Z.min o max) (t := t) rr (tt tb) X (tr tb) (st m) →
  fitting tb b o max (st m) → (t = TYPE_UP → room (parts o max * LEV + k) (frs (st m))) →
  ∃ ok f' m' T' X', update_table OFFSET (tk tb) rr b p o max a r t f m = Some (ok, f', m') ∧
    looped (OFFSET := OFFSET) (K := tk tb) (L := tl tb) (b := b) (p := p) (ord := Z.min o max) (a := a) (t := t)
      0 (2 ^ (o - Z.min o max)) rr (tt tb) X (tr tb) (negb (truthy r)) f m ok f' T' X' m' ∧
    forest (<[i := retree T' tb]> Ls) X' (st m') ∧
    (∀ a, held Y a → a ∉ Rt → wds (st m') a = wds (st m) a) ∧
    (∀ t a, t ∈ Y → (∀ x, x ∈ Rt → ¬ in_page t x) → in_page t a → wds (st m') a = wds (st m) a) ∧
    (∀ j tb2, j ≠ i → Ls !! j = Some tb2 →
      (∀ l y b, addr (tt tb2) (tr tb2) l y = Some b → wds (st m') b = wds (st m) b) ∧
      ∀ q, seen tb2 q (st m') = seen tb2 q (st m)) ∧
    (t = TYPE_UP → room k (frs (st m'))) ∧ (t ≠ TYPE_UP → ∀ j, room j (frs (st m)) → room j (frs (st m'))).
Proof.
  intros HF Hi Ho Ha Hact Hfit Hroom. pose proof (order_range' _ _ _ _ Ho) as Hr. destruct Ho as [Rg Hmx].
  pose proof (pow2_pos (o - Z.min o max) ltac:(lia)) as Hpos.
  destruct (pieces_spec (L := tl tb) (Y := Y) (Rt := Rt) (t := t) Rg Hr Ha (parts o max) 0 rr (tt tb) X (tr tb)
    (negb (truthy r)) f m k) as (ok & f' & m' & T' & X' & Hp & HL & Hk & Hj).
  - lia.
  - unfold parts. lia.
  - by eapply fo_sound.
  - done.
  - intros q Hq. apply Hfit. apply (covers_parts Hr). revert Hq. unfold parts. by rewrite Z2Nat.id by lia.
  - done.
  - assert (Z.of_nat (parts o max) = 2 ^ (o - Z.min o max)) as En by (unfold parts; by rewrite Z2Nat.id by lia).
    rewrite En in HL. exists ok, f', m', T', X'.
    destruct (forest_step Ls X (st m) i tb T' X' (st m') HF Hi) as (HF' & H1 & H2 & H3).
    + exact (ef_sound _ _ _ _ _ _ _ _ _ (lp_effect _ _ _ _ _ _ _ _ _ _ _ _ _ _ HL)).
    + exact (ef_keep _ _ _ _ _ _ _ _ _ (lp_effect _ _ _ _ _ _ _ _ _ _ _ _ _ _ HL)).
    + exact (ef_rest _ _ _ _ _ _ _ _ _ (lp_effect _ _ _ _ _ _ _ _ _ _ _ _ _ _ HL)).
    + split_and!; try done. unfold update_table. rewrite wshl_1 by (pose proof (r_order _ _ _ Rg); lia). exact Hp.
Qed.

(** ** The steps of a change *)

(** What a step did to the translations of the tables: table [i] has the region
    as asked, when it was selected and there was enough memory. *)
Record moved (i : nat) (sel : bool) (b o p max a : Z) (t : Pte_Type) Ls s (ok : bool) s' : Prop := {
  mv_table tb q : Ls !! i = Some tb → seen tb q s' = seen tb q s ∨
    (sel = true ∧ covers b o q ∧ seen tb q s' = wanted (L := tl tb) b o p max a q);
  mv_done tb q : Ls !! i = Some tb → ok = true → sel = true → covers b o q →
    seen tb q s' = wanted (L := tl tb) b o p max a q ∨ (t ≠ TYPE_UP ∧ seen tb q s' = None);
  mv_rest j tb q : j ≠ i → Ls !! j = Some tb → seen tb q s' = seen tb q s;
}.

Lemma moved_none i b o p max a t Ls s ok : moved i false b o p max a t Ls s ok s.
Proof. split; auto; try done. Qed.

Lemma seen_retree T tb q s : seen (retree T tb) q s = seen tb q s.
Proof. done. Qed.

(** A further step that changes only what the first one did. *)
Lemma moved_again i b o p max a t Ls s s1 s2 tb ok :
  Ls !! i = Some tb → moved i true b o p max a t Ls s true s1 →
  (∀ q, seen tb q s2 = seen tb q s1 ∨ (covers b o q ∧ seen tb q s2 = wanted (L := tl tb) b o p max a q)) →
  (∀ j tb2 q, j ≠ i → Ls !! j = Some tb2 → seen tb2 q s2 = seen tb2 q s1) →
  moved i true b o p max a t Ls s ok s2.
Proof.
  intros Hi [H1 H2 H3] Hm Hr. split.
  - intros tb1 q Htb. rewrite Hi in Htb. injection Htb as <-.
    destruct (Hm q) as [->|[Hc ->]]; [by apply H1|right; auto].
  - intros tb1 q Htb _ _ Hc. rewrite Hi in Htb. injection Htb as <-.
    destruct (Hm q) as [->|[_ ->]]; [by apply H2|by left].
  - intros j tb2 q Hj Hb. rewrite (Hr j tb2) by done. by apply H3 with j.
Qed.

(** Nothing else happened: the effect on the other fields of the state. *)
Record quiet (ok : bool) m m' : Prop := {
  qt_hazard : hazard m' = if ok then hazard m else (hazard m .| Pd.HZD_OOM)%W;
  qt_htlb : htlb m' = htlb m;
  qt_gtlb : gtlb m' = gtlb m;
}.

Lemma quiet_refl m : quiet true m m.
Proof. done. Qed.

Lemma quiet_trans ok m1 m2 m3 : quiet true m1 m2 → quiet ok m2 m3 → quiet ok m1 m3.
Proof. intros [H1 H2 H3] [G1 G2 G3]. split; [by rewrite G1, H1|congruence..]. Qed.

Lemma looped_moved b o p max a t Ls X m i tb rr chk f ok f' T' X' m' :
  Ls !! i = Some tb → order_ok b o p max →
  looped (OFFSET := OFFSET) (K := tk tb) (L := tl tb) (b := b) (p := p) (ord := Z.min o max) (a := a) (t := t)
      0 (2 ^ (o - Z.min o max)) rr (tt tb) X (tr tb) chk f m ok f' T' X' m' →
  (∀ j tb2, j ≠ i → Ls !! j = Some tb2 →
      (∀ l y b, addr (tt tb2) (tr tb2) l y = Some b → wds (st m') b = wds (st m) b) ∧
      ∀ q, seen tb2 q (st m') = seen tb2 q (st m)) →
  quiet ok m m' ∧ (rr = tr tb → moved i true b o p max a t Ls (st m) ok (st m')) ∧
  (∀ q, seen tb q (st m') = seen tb q (st m) ∨ (covers b o q ∧ seen tb q (st m') = wanted (L := tl tb) b o p max a q)).
Proof.
  intros Hi Ho HL Hoth. pose proof (order_range' _ _ _ _ Ho) as Hr. destruct HL as [LE LS LO LH [LT1 LT2] LF].
  assert (∀ q, seen tb q (st m') = seen tb q (st m) ∨ (covers b o q ∧ seen tb q (st m') = wanted (L := tl tb) b o p max a q)) as Hm.
  { intros q. destruct (ef_map _ _ _ _ _ _ _ _ _ LE q) as [Hm|[Hc Hm]]; [by left|right].
    split; [by apply (covers_parts Hr)|exact Hm]. }
  split; [by split|]. split; [|done]. intros Hrr. split.
  - intros tb1 q Htb. rewrite Hi in Htb. injection Htb as <-. destruct (Hm q) as [|[? ?]]; [by left|by right].
  - intros tb1 q Htb Hok _ Hc. rewrite Hi in Htb. injection Htb as <-.
    apply (LS Hrr Hok q). by apply (covers_parts Hr).
  - intros j tb2 q Hj Hb. by apply (Hoth j tb2).
Qed.

(** ** The tables of a domain and the copies of its root *)
Section space.
Context (P : platform) (R : roots).

(** Table 2 is the one for threads. *)
Definition copies_ok Ls s : Prop :=
  ∀ th j, Ls !! 2%nat = Some th → (j < NUM_CPU)%nat → held Y (loc R j) ∧ (loc R j ∉ Rt) ∧
    (Hpt_addr (wds s (loc R j)) = 0 ∨
     copied (OFFSET := OFFSET) (Y := Y) (Rt := Rt) (K := tk th) (tt th) (tr th) (loc R j) (wds s)).

Definition space_ok Ls X s : Prop := forest Ls X s ∧ copies_ok Ls s.

Lemma table_phase Ls X m i tb rr b o p max a r t f k :
  space_ok Ls X (st m) → Ls !! i = Some tb → order_ok b o p max → good_attr (PteLaws := tl tb) a →
  (i = 2%nat → max < 27) →
  acts (OFFSET := OFFSET) (Y := Y) (Rt := Rt) (K := tk tb) (b := b) (o := o) (ord := Z.min o max) (t := t) rr (tt tb) X (tr tb) (st m) →
  fitting tb b o max (st m) → (t = TYPE_UP → room (parts o max * LEV + k) (frs (st m))) →
  ∃ ok f' m' T' X', update_table OFFSET (tk tb) rr b p o max a r t f m = Some (ok, f', m') ∧
    space_ok (<[i := retree T' tb]> Ls) X' (st m') ∧ quiet ok m m' ∧ (truthy r = true → ok = true) ∧
    (rr = tr tb → moved i true b o p max a t Ls (st m) ok (st m')) ∧
    (∀ q, seen tb q (st m') = seen tb q (st m) ∨ (covers b o q ∧ seen tb q (st m') = wanted (L := tl tb) b o p max a q)) ∧
    (∀ j tb2 q, j ≠ i → Ls !! j = Some tb2 → seen tb2 q (st m') = seen tb2 q (st m)) ∧
    (t = TYPE_UP → room k (frs (st m'))) ∧ (t ≠ TYPE_UP → ∀ j, room j (frs (st m)) → room j (frs (st m'))).
Proof.
  intros [HF HC] Hi Ho Ha Hmax Hact Hfit Hroom.
  destruct (table_spec Ls X m i tb rr b o p max a r t f k HF Hi Ho Ha Hact Hfit Hroom)
    as (ok & f' & m' & T' & X' & Hu & HL & HF' & Hh & Hp & Hoth & Hk & Hj).
  destruct (looped_moved _ _ _ _ _ _ Ls X m i tb _ _ _ _ _ _ _ _ Hi Ho HL Hoth) as (Hq & Hmv & Hmap).
  exists ok, f', m', T', X'. split; [exact Hu|]. split; [split; [done|]|split; [done|]].
  2: { split; [intros Htr; apply (lp_ok _ _ _ _ _ _ _ _ _ _ _ _ _ _ HL); by rewrite Htr|].
       split; [done|]. split; [done|]. split; [|by split]. intros j tb2 q Hji Hb. by apply (Hoth j tb2). }
  intros th j Hth Hjn. pose proof (lookup_lt_Some _ _ _ Hi) as Hlt.
  destruct (decide (i = 2%nat)) as [->|Hi2].
  - rewrite list_lookup_insert_eq in Hth by done. injection Hth as <-. cbn [retree tt tr tk].
    destruct (HC tb j Hi Hjn) as (Hhl & Hnl & [H0|Hcp]); (split; [done|split; [done|]]); [left; by rewrite Hh|right].
    pose proof (order_range' _ _ _ _ Ho) as Hr.
    apply (copy_effect (Y := Y) (Rt := Rt) (L := tl tb) 0 (2 ^ (o - Z.min o max)) (tt tb) X (tr tb) (loc R j) (st m) T' X' (st m')
      (ord := Z.min o max) (b := b) (p := p) (a := a)).
    + assert (Z.min o max / BPL < 3); [|lia]. apply Z.div_lt_upper_bound; [done|]. unfold BPL. specialize (Hmax eq_refl). lia.
    + by apply (fo_root _ _ _ HF 2%nat tb).
    + by apply (fo_reserved _ _ _ HF 2%nat tb).
    + done.
    + exact (lp_effect _ _ _ _ _ _ _ _ _ _ _ _ _ _ HL).
  - rewrite list_lookup_insert_ne in Hth by done.
    destruct (HC th j Hth Hjn) as (Hhl & Hnl & [H0|Hcp]); (split; [done|split; [done|]]); [left; by rewrite Hh|right].
    apply (copy_spare th (L2 := tl th) (loc R j) (st m) (st m') Hh Hp); [by apply (Hoth 2%nat)|done].
Qed.
End space.
End forest.
