(* ===== verification/SpaceMemSpec.v ===== *)
(** What [Space_mem::update] promises: a node of the mapping database is put
    into the page tables of the domain that it selects. *)
From S2P Require Import Prelude Bits Bitmap Quota Cpuset Pd Queue Mdb Buddy Pte PteKinds PteMap PteSound PteUpdate HptOps SpaceMem SpaceMemSound SpaceMemUpdate.
Local Open Scope Z_scope.

Section spec.
Context {OFFSET : Z} {E : Type} {F : Frames E} {FO : FramesOk OFFSET E} {Y Rt : gset Z}.
Context (P : platform) (R : roots).
Implicit Types (T : tree) (X : gset Z) (m : smem (E := E)) (Ls : list ptab).

Abbreviation space := (space_ok (OFFSET := OFFSET) (Y := Y) (Rt := Rt) R).
Abbreviation move := (moved (OFFSET := OFFSET)).

(** The unions of the object: DMA tables are those of the IOMMU that is there,
    tables for virtual CPUs those of the virtualisation that is there. *)
Definition dma_kind : PteKind := if active (dpt_ord P) then Dpt else Ipt.
Definition dma_laws : PteLaws dma_kind.
Proof. unfold dma_kind. destruct (active _); apply _. Defined.
Definition gst_kind : PteKind := if has_npt P then Hpt else Ept.
Definition gst_laws : PteLaws gst_kind.
Proof. unfold gst_kind. destruct (has_npt _); apply _. Defined.

(** The tables of a domain: for devices, virtual CPUs and threads. *)
Definition dma_tab T : ptab := PTab dma_kind dma_laws T (dma R).
Definition gst_tab T : ptab := PTab gst_kind gst_laws T (gst R).
Definition hpt_tab T : ptab := PTab Hpt Hpt_laws T (hpt R).
Definition three Td Tg Th : list ptab := [dma_tab Td; gst_tab Tg; hpt_tab Th].

(** What is assumed of the processor. *)
Record platform_ok : Prop := {
  pf_dpt : 0 ≤ dpt_ord P; pf_ipt : 0 ≤ ipt_ord P; pf_ept : 0 ≤ ept_ord P; pf_hpt : 0 ≤ hpt_ord P < 27;
  pf_one : active (dpt_ord P) && active (ipt_ord P) = false;
}.
Context (HP : platform_ok).










(** ** The tables for threads *)
Section host.
Context {b o p a : Z}.
Hypothesis Rg : region b o p.
Hypothesis Huser : b mod 2 ^ 48 + 2 ^ (o + PAGE_BITS) ≤ 2 ^ 47.
Hypothesis Ha : 0 ≤ a < PAGE_SIZE.

Abbreviation asked q := (wanted (L := Hpt_laws) b o p (hpt_ord P) (Hpt_hw_attr a) q).




End host.

(** ** The whole operation *)






(** no CPU sees what the domain does not map.  The table that CPU [j] uses
    translates a user address as the page table of the domain does, or to
    nothing until the next page fault; with [update_space], which keeps the
    premise, this holds after every change of the memory space. *)
Theorem cpu_sees Td Tg Th X (s : state E) j q :
  space (three Td Tg Th) X s → (j < NUM_CPU)%nat → Hpt_addr (wds s (loc R j)) ≠ 0 → user q →
  translate (OFFSET := OFFSET) (loc R j) q s = None ∨
  translate (OFFSET := OFFSET) (loc R j) q s = translate (OFFSET := OFFSET) (hpt R) q s.
Proof.
  intros [HF HC] Hj Hne Hu. destruct (HC (hpt_tab Th) j eq_refl Hj) as (_ & _ & [|Hcp]); [done|].
  eapply (copy_translate (Y := Y) (Rt := Rt)); [exact (fo_sound _ _ _ HF 2%nat (hpt_tab Th) eq_refl)| |exact Hcp|done].
  exact (fo_reserved _ _ _ HF 2%nat (hpt_tab Th) eq_refl).
Qed.


Abbreviation virt node := (node_base node << PAGE_BITS)%W.
Abbreviation phys node := (node_phys node << PAGE_BITS)%W.
Abbreviation ord node := (node_order node).






End spec.
