(* ===== verification/HptSync.v ===== *)
(** Correctness of [Hpt::sync_user]: after a page fault the copy of the root
    sees what the page table of the domain says. *)
From S2P Require Import Prelude Bits Bitmap Quota Cpuset Queue Mdb Buddy Pte PteKinds PteMap PteSound PteUpdate HptOps SpaceMem SpaceMemSound.
Local Open Scope Z_scope.

Lemma user_level v : 0 ≤ v < 2 ^ 47 → sync_level v CANONICAL_ADDR = 3%nat.
Proof.
  intros Hv. unfold sync_level, CANONICAL_ADDR. change 0x0000800000000000 with (2 ^ 47).
  assert (Z.lxor v (2 ^ 47) = v + 2 ^ 47) as ->.
  { rewrite <-Z.add_nocarry_lxor; [done|]. apply Z.bits_inj'. intros i Hi. rewrite Z.land_spec, Z.bits_0.
    destruct (decide (i = 47)) as [->|].
    - by rewrite (word_bits 47 v 47) by (done || unfold word; lia).
    - by rewrite Z.pow2_bits_false, andb_false_r by done. }
  unfold bit_scan_reverse. rewrite (proj2 (Z.eqb_neq _ _)) by lia.
  rewrite (Z.log2_unique _ 47) by lia. done.
Qed.

Lemma user_low v : 0 ≤ v < 2 ^ 47 → user v.
Proof. intros Hv. unfold user. rewrite Z.mod_small; lia. Qed.

Section sync.
Context {OFFSET : Z} {E : Type} {F : Frames E} {FO : FramesOk OFFSET E} {Y Rt : gset Z}.
Implicit Types (s : state E) (T : tree) (X : gset Z).

(** The walk of the copy ends in its own table. *)
Lemma copy_slot X s t rr v a :
  owns (frs s) X → t ∈ X → wds s rr = table_entry LEV (virt_to_phys OFFSET t) →
  walk OFFSET LEV rr v 3 a s = Some (Some (t + 8 * (pos 3 v mod 512)), s).
Proof.
  intros HO Ht Hw. pose proof (owns_page _ _ _ HO Ht) as Hp. change LEV with 4%nat at 1. cbn [walk Nat.eqb].
  rewrite Hw, (proj2 (Z.eqb_neq _ _)) by (apply (entry_present LEV); [unfold LEV; lia|apply Hp]).
  by rewrite (down_table t 3 v) by (done || unfold LEV; lia).
Qed.
(** The entry of the domain's table is written into the copy's. *)
Lemma sync_write T X r rr s v t c :
  sound (OFFSET := OFFSET) T X r s → reserved (Y := Y) T X → r ∈ Rt →
  held Y rr → rr ∉ Rt → t ∈ Y → (∀ x, x ∈ Rt → ¬ in_page t x) → ¬ in_page t rr →
  wds s rr = table_entry LEV (virt_to_phys OFFSET t) →
  (∀ q, user q → wds s (t + 8 * (pos 3 q mod 512)) = 0 ∨
    ∃ e, slot T r 3 q = Some e ∧ wds s (t + 8 * (pos 3 q mod 512)) = wds s e) →
  slot T r 3 v = Some c →
  let s' := set_wds (<[t + 8 * (pos 3 v mod 512) := wds s c]> (wds s)) s in
  sound (OFFSET := OFFSET) T X r s' ∧ copy (OFFSET := OFFSET) (Y := Y) (Rt := Rt) T r rr (wds s') ∧
  translate (OFFSET := OFFSET) rr v s' = translate (OFFSET := OFFSET) r v s ∧
  ∀ q, translate (OFFSET := OFFSET) r q s' = translate (OFFSET := OFFSET) r q s.
Proof.
  intros HS HY HrR Hh Hne Ht Hr Hrr Hw Hsh Hc s'. pose proof (s_tables _ _ _ _ HS) as I. pose proof (s_owns _ _ _ _ HS) as HO.
  pose proof (proj1 (HY t Ht)) as HtX. unfold s'. set (d := t + 8 * (pos 3 v mod 512)) in *.
  assert (in_page t d) as Hd by apply in_page_mod.
  assert (∀ l y e, addr T r l y = Some e → (<[d := wds s c]> (wds s)) e = wds s e) as Hfr.
  { intros l y e He. apply fn_lookup_insert_ne. intros <-.
    eapply (addr_not_in T r (wds s) l y d t); try done; [by apply (owns_page _ _ _ HO)|by apply HY|by apply Hr]. }
  assert (tables (OFFSET := OFFSET) T r (<[d := wds s c]> (wds s))) as I' by (by eapply tables_frame).
  assert (∀ q, lookup OFFSET LEV r q (<[d := wds s c]> (wds s)) = lookup OFFSET LEV r q (wds s)) as Hlk.
  { intros q. apply (lookup_frame I). intros l e. apply Hfr. }
  assert ((<[d := wds s c]> (wds s)) rr = wds s rr) as Err by (apply fn_lookup_insert_ne; by intros <-).
  split; [|split; [|split; [|exact Hlk]]].
  - destruct HS as [_ H2 H3 H4 H5]. by split.
  - split; [done|]. split; [done|]. exists t. split; [done|]. split; [done|]. split; [done|].
    cbn [set_wds wds]. split; [by rewrite Err|].
    intros q Hq. destruct (decide (t + 8 * (pos 3 q mod 512) = d)) as [Hqd|Hqd].
    + right. exists c. rewrite Hqd, fn_lookup_insert. split; [|symmetry; by eapply Hfr].
      assert (pos 3 q = pos 3 v) as Hp; [|unfold slot; rewrite Hp; exact Hc].
      pose proof (pos_nonneg 3 q). pose proof (pos_nonneg 3 v). pose proof (pos_bound 3 q ltac:(unfold LEV; lia)).
      pose proof (pos_bound 3 v ltac:(unfold LEV; lia)). change (2 ^ (9 * (Z.of_nat LEV - Z.of_nat 3))) with 512 in *.
      unfold d in Hqd. rewrite !Z.mod_small in Hqd by lia. lia.
    + rewrite fn_lookup_insert_ne by done. destruct (Hsh q Hq) as [|(e & He & Hx)]; [by left|right].
      exists e. split; [done|]. rewrite Hx. symmetry. by eapply Hfr.
  - unfold translate. rewrite (copy_lookup X (set_wds (<[d := wds s c]> (wds s)) s) t rr v HO HtX) by (cbn [set_wds wds]; by rewrite Err).
    cbn [set_wds wds]. fold d. rewrite <-(Hlk v), (slot_lookup I' 1 3 v c) by (done || unfold LEV; lia).
    cbn [lookup]. by rewrite fn_lookup_insert, (Hfr _ _ _ Hc).
Qed.

(** [Hpt::sync_user].  When the copy of a root is brought in line at a user
    address, it translates the address as the page table of the domain does;
    the domain's table is not changed, and nothing is when the result is false. *)
Theorem sync_user_spec T X r rr s v :
  sound (OFFSET := OFFSET) T X r s → reserved (Y := Y) T X → r ∈ Rt →
  copy (OFFSET := OFFSET) (Y := Y) (Rt := Rt) T r rr (wds s) → 0 ≤ v < 2 ^ 47 →
  no_larger (OFFSET := OFFSET) 3 r v (wds s) →
  ∃ ok s', sync_user OFFSET rr (wds s r) v s = Some (ok, s') ∧
    sound (OFFSET := OFFSET) T X r s' ∧ copy (OFFSET := OFFSET) (Y := Y) (Rt := Rt) T r rr (wds s') ∧
    translate (OFFSET := OFFSET) rr v s' = translate (OFFSET := OFFSET) r v s ∧
    (∀ q, translate (OFFSET := OFFSET) r q s' = translate (OFFSET := OFFSET) r q s) ∧ (ok = false → s' = s).
Proof.
  intros HS HY HrR HC Hv Hmax. pose proof HC as (Hh & Hne & t & Ht & Hr & Hrr & Hw & Hsh).
  pose proof (user_low v Hv) as Hu. pose proof (s_tables _ _ _ _ HS) as I. pose proof (s_owns _ _ _ _ HS) as HO.
  pose proof (proj1 (HY t Ht)) as HtX.
  unfold sync_user, sync_from. rewrite user_level by done. unfold walk_copy.
  destruct (Z.eqb_spec (wds s r) 0) as [H0|Hn0].
  { cbn [mbind option_bind]. exists false, s. split; [done|]. split; [done|]. split; [done|]. split; [|done].
    assert (translate (OFFSET := OFFSET) r v s = None) as -> by (unfold translate, LEV; cbn [lookup]; by rewrite H0).
    unfold translate. rewrite (copy_lookup X s t rr v HO HtX Hw).
    destruct (Hsh v Hu) as [Hz|(c & Hc & _)]; [cbn [lookup]; by rewrite Hz|exfalso].
    destruct (slot_parent I 3 v c ltac:(unfold LEV; lia) Hc) as (e & t' & He & Ht' & _ & Hwe).
    unfold slot in He. change 4%nat with LEV in He at 1. rewrite pos_top, addr_top in He. injection He as <-.
    rewrite H0 in Hwe. symmetry in Hwe. revert Hwe. apply (entry_present LEV); [unfold LEV; lia|].
    apply (t_page _ _ _ I _ _ Ht'). }
  destruct (table_there (L := Hpt_laws) T r (wds s) 3 3 v r I) as (t' & Ht' & Hw'); [|done|done|done|].
  { unfold slot. change 4%nat with LEV. by rewrite pos_top. }
  pose proof (slot_below T r 3 v t' ltac:(unfold LEV; lia) Ht') as Hc. set (c := t' + 8 * (pos 3 v mod 512)) in *.
  assert (down OFFSET (wds s r) v 3 = c) as ->.
  { rewrite Hw'. apply (down_table t' 3 v); [by apply (t_page _ _ _ I _ _ Ht')|unfold LEV; lia]. }
  assert (walk OFFSET 3 c v 3 false s = Some (Some c, s)) as -> by done. cbn [mbind option_bind].
  rewrite (copy_slot X s t rr v true HO HtX Hw). cbn [mbind option_bind].
  set (d := t + 8 * (pos 3 v mod 512)) in *.
  assert (translate (OFFSET := OFFSET) r v s = lookup OFFSET 3 c v (wds s)) as Etr.
  { apply (slot_lookup I 1 3 v c); [unfold LEV; lia|done]. }
  destruct (Z.eqb_spec (wds s d) (wds s c)) as [Heq|Hdiff].
  { exists false, s. split; [done|]. split; [done|]. split; [done|]. split; [|done].
    rewrite Etr. unfold translate. rewrite (copy_lookup X s t rr v HO HtX Hw). fold d. cbn [lookup]. by rewrite Heq. }
  exists true. eexists. split; [reflexivity|].
  destruct (sync_write T X r rr s v t c HS HY HrR Hh Hne Ht Hr Hrr Hw Hsh Hc) as (H1 & H2 & H3 & H4). by split_and!.
Qed.
End sync.
