(* ===== verification/SpaceMemDemo.v ===== *)
(** The theorems on memory spaces applied: a domain with empty page tables on
    the pool of [PteBuddy]. *)
From S2P Require Import Prelude Bits Bitmap Quota Cpuset Queue Mdb Buddy Pte PteKinds PteMap PteSound PteUpdate PteBuddy HptOps SpaceMem SpaceMemSound SpaceMemUpdate SpaceMemSpec HptSync.
Local Open Scope Z_scope.

#[local] Existing Instance demo_frames.
#[local] Existing Instance demo_ok.

(** An AMD IOMMU, nested page tables of Intel, large pages up to a gigabyte. *)
Definition demo_platform : platform := Platform ones64 9 26 26 false false.
Definition demo_roots : roots := Roots 8 16 24 (λ j, 32 + 8 * Z.of_nat j).
Definition demo_rts : gset Z := {[8; 16; 24]}.
Definition demo_node : mdb := Mdb 0 0%nat 0%nat None None (2 ^ 19) (2 ^ 18) 9 7 6 7.
Definition demo_space : smem (E := buddy) := SMem demo_state (Quota 0 0 32 0) 0 (Cpuset.cpuset_new 0) (Cpuset.cpuset_new 0).



Lemma demo_roots_out : held (OFFSET := 65536) (E := buddy) ∅ 8 ∧ held (OFFSET := 65536) (E := buddy) ∅ 16 ∧ held (OFFSET := 65536) (E := buddy) ∅ 24.
Proof. split_and!; left; apply demo_outside; lia. Qed.

Lemma demo_loc_out Y j : (j < NUM_CPU)%nat → held (OFFSET := 65536) (E := buddy) Y (loc demo_roots j) ∧ (loc demo_roots j ∉ demo_rts).
Proof.
  intros Hj. unfold NUM_CPU in Hj. cbn [demo_roots loc]. split; [left; apply demo_outside; lia|].
  unfold demo_rts. rewrite !elem_of_union, !elem_of_singleton. lia.
Qed.

(** Empty tables are a forest in every state that leaves their roots empty. *)
Lemma empty_forest Y X (s : state buddy) :
  wds s 8 = 0 → wds s 16 = 0 → wds s 24 = 0 → word 64 (used (qta s)) → owns (frs s) X → Y ⊆ X →
  forest (OFFSET := 65536) (Y := Y) (Rt := demo_rts) (three demo_platform demo_roots ∅ ∅ ∅) X s.
Proof.
  intros H8 H16 H24 Hq HO HY.
  assert (∀ (K : PteKind) r, outside (OFFSET := 65536) (E := buddy) r → wds s r = 0 → sound (OFFSET := 65536) (K := K) ∅ X r s) as Hs.
  { intros K r Hr H0. split; [|done|unfold tabs; by rewrite map_img_empty_L|by left|done].
    split; try (by intros * ?%lookup_empty_Some).
    intros l y a [(-> & -> & ->)|(_ & t & Ht & _)]%addr_cases; [|by rewrite lookup_empty in Ht].
    unfold LEV. cbn [slot_ok]. rewrite lookup_empty. by left. }
  assert (∀ i tb, three demo_platform demo_roots ∅ ∅ ∅ !! i = Some tb → tt tb = ∅ ∧ tr tb ∈ demo_rts ∧ outside (tr tb) ∧ wds s (tr tb) = 0) as Hall.
  { intros [|[|[|]]] tb [= <-]; (split; [done|split; [by apply (bool_decide_unpack _); vm_compute|split; [apply demo_outside; cbn; lia|done]]]). }
  split.
  - intros i tb Hi. destruct (Hall i tb Hi) as (-> & _ & ? & ?). by apply Hs.
  - intros i j tb tb' Hij Hi Hj. destruct (Hall i tb Hi) as (-> & _). destruct (Hall j tb' Hj) as (-> & _).
    split; [unfold tabs; rewrite map_img_empty_L; apply disjoint_empty_l|].
    destruct i as [|[|[|]]]; destruct j as [|[|[|]]]; try done; injection Hi as <-; injection Hj as <-; by cbn.
  - intros i tb Hi. destruct (Hall i tb Hi) as (_ & ? & ? & _). split; [by left|done].
  - intros i tb Hi y Hy. destruct (Hall i tb Hi) as (-> & _). split; [by apply HY|].
    unfold tabs. rewrite map_img_empty_L. apply not_elem_of_empty.
Qed.

Lemma demo_owns : owns (OFFSET := 65536) (frs demo_state) ∅.
Proof. exact (s_owns _ _ _ _ (demo_table_sound Hpt 8 ltac:(lia))). Qed.









(** CPU 0 has a table of its own, at the page [t], the other CPUs have none. *)
Definition with_copy (t : Z) (e : buddy) : state buddy :=
  State (λ a, if a =? 32 then table_entry (K := Hpt) LEV (virt_to_phys 65536 t) else 0) quota_new e.

Lemma with_copy_at t e a : a ≠ 32 → wds (with_copy t e) a = 0.
Proof. intros Ha. cbn [with_copy wds]. by rewrite (proj2 (Z.eqb_neq _ _)). Qed.

Lemma copy_page : ∃ t e, owns (OFFSET := 65536) e {[t]} ∧ page 65536 t ∧ 131072 ≤ t.
Proof.
  destruct (owns_alloc (OFFSET := 65536) (frs demo_state) ∅ 3 quota_new demo_owns demo_room) as (t & e & _ & _ & HO & _).
  rewrite (right_id_L ∅ (∪)) in HO. pose proof (owns_page _ _ t HO ltac:(by apply elem_of_singleton)) as Hp.
  exists t, e. split; [done|]. split; [done|]. apply Z.nlt_ge. intros Hlt.
  apply (owns_outside (OFFSET := 65536) e {[t]} t t HO); [by apply elem_of_singleton| |].
  - apply demo_outside. destruct Hp. lia.
  - unfold in_page, PAGE_SIZE, PAGE_BITS. lia.
Qed.

Lemma with_copy_copied t e : page 65536 t → 131072 ≤ t →
  copied (OFFSET := 65536) (Y := {[t]}) (Rt := demo_rts) (K := Hpt) ∅ 8 32 (wds (with_copy t e)).
Proof.
  intros Hp Ht. exists t. split; [by apply elem_of_singleton|]. split.
  { intros x Hx. unfold demo_rts in Hx. rewrite !elem_of_union, !elem_of_singleton in Hx. unfold in_page. lia. }
  split; [unfold in_page; lia|]. split; [done|]. intros v _. left. apply with_copy_at.
  pose proof (Z.mod_pos_bound (pos 3 v) 512 ltac:(done)). lia.
Qed.

Lemma with_copy_ok t e : owns (OFFSET := 65536) e {[t]} → page 65536 t → 131072 ≤ t →
  space_ok (OFFSET := 65536) (Y := {[t]}) (Rt := demo_rts) demo_roots (three demo_platform demo_roots ∅ ∅ ∅) {[t]} (with_copy t e).
Proof.
  intros HO Hp Ht. split; [by apply empty_forest|].
  intros th j Hth Hj. injection Hth as <-. destruct (demo_loc_out {[t]} j Hj) as [H1 H2]. split; [done|]. split; [done|].
  destruct j as [|j].
  - right. by apply with_copy_copied.
  - left. rewrite with_copy_at by (cbn [demo_roots loc]; lia). done.
Qed.

Lemma cpu_sees_witness :
  ∃ s : state buddy, translate (K := Hpt) (OFFSET := 65536) 32 4096 s = None ∨
    translate (K := Hpt) (OFFSET := 65536) 32 4096 s = translate (K := Hpt) (OFFSET := 65536) 8 4096 s.
Proof.
  destruct copy_page as (t & e & HO & Hp & Ht). exists (with_copy t e).
  apply (cpu_sees (Y := {[t]}) (Rt := demo_rts) demo_platform demo_roots ∅ ∅ ∅ {[t]} (with_copy t e) 0 4096).
  - by apply with_copy_ok.
  - apply Nat.ltb_lt. reflexivity.
  - cbn [demo_roots loc with_copy wds]. change (Hpt_addr (table_entry (K := Hpt) LEV (virt_to_phys 65536 t)) ≠ 0).
    rewrite (entry_addr (K := Hpt) LEV) by (apply Hp || (unfold LEV; lia)). destruct Hp as (_ & _ & _ & Hf & _). lia.
  - by vm_compute.
Defined.

Lemma sync_user_spec_witness :
  ∃ (s : state buddy) ok s', sync_user 65536 32 (wds s 8) 4096 s = Some (ok, s') ∧
    translate (K := Hpt) (OFFSET := 65536) 32 4096 s' = translate (K := Hpt) (OFFSET := 65536) 8 4096 s.
Proof.
  destruct copy_page as (t & e & HO & Hp & Ht). exists (with_copy t e).
  destruct (with_copy_ok t e HO Hp Ht) as [HF _].
  destruct (sync_user_spec (Y := {[t]}) (Rt := demo_rts) ∅ {[t]} 8 32 (with_copy t e) 4096) as (ok & s' & Hs & _ & _ & Htr & _).
  - exact (fo_sound _ _ _ HF 2%nat (hpt_tab demo_roots ∅) eq_refl).
  - exact (fo_reserved _ _ _ HF 2%nat (hpt_tab demo_roots ∅) eq_refl).
  - unfold demo_rts. rewrite !elem_of_union, !elem_of_singleton. lia.
  - destruct (demo_loc_out {[t]} 0 ltac:(unfold NUM_CPU; lia)). split; [done|]. split; [done|]. by apply with_copy_copied.
  - lia.
  - intros sz p a. unfold LEV. cbn [lookup]. rewrite with_copy_at by done. done.
  - exists ok, s'. by split.
Defined.

(** The definitions run: the node is mapped for threads, CPU 0 does not see it
    before [sync_user] and does afterwards. *)
Example update_sync_run :
  match new_table demo_state with
  | Some (t, s) =>
    let s := set_wds (<[32 := table_entry (K := Hpt) LEV (virt_to_phys 65536 t)]> (wds s)) s in
    match SpaceMem.update 65536 demo_platform demo_roots (Cpuset.cpuset_new 1) demo_node 0 (set_st s demo_space) with
    | Some (_, m) =>
      match sync_user 65536 32 (wds (st m) 8) (2 ^ 30 + 12345) (st m) with
      | Some (b, s') =>
        (b, translate (K := Hpt) (OFFSET := 65536) 32 (2 ^ 30 + 12345) (st m),
         translate (K := Hpt) (OFFSET := 65536) 32 (2 ^ 30 + 12345) s')
      | None => (false, None, None)
      end
    | None => (false, None, None)
    end
  | None => (false, None, None)
  end = (true, None, Some (2 ^ 21, 2 ^ 31 + 12345, 0xef)).
Proof. vm_compute. reflexivity. Qed.
