(* ===== verification/Delegate.v ===== *)
(** Delegation between protection domains: what [delegate], [del_crd] and
    [xlt_crd] of [src/pd.cpp] promise.

    A node that a delegation adds to the receiver is [confined]: it lies in the
    receiver's window, stands for what the sender's node covers in the sender's
    window, and has no right that the sender's node lacks. *)
From S2P Require Import Prelude Bits Quota Rcu Crd Queue Avl AvlRemove Mdb Space Derivation Pd.
Local Open Scope Z_scope.

Section confinement.
Context {E : Type} `{PdEnv E}.
Implicit Type w : world E.
Context (t : Type_) (this snd : nat) (snd_base rcv_base ord attr sub : Z).

(** The nodes of the sender. *)
Context (Ls : list obj).

(** [x] is derived from a node of the sender: it lies in the receiver's space
    and window, covers only what that node covers, at the same distance from
    the start of the window and for the same resource, and has at most the
    rights that are requested and held by it. *)
Definition confined (m : memory) (x : obj) : Prop :=
  ∃ p, p ∈ Ls ∧ space (m x) = Some (subspace this t) ∧ node_type (m x) = node_type (m p) ∧
    dpth (m x) = dpth (m p) + 1 ∧
    (node_attr (m x) = Z.land (node_attr (m p)) attr ∨ node_attr (m x) = 0) ∧
    ∀ q, region m x q →
      in_block rcv_base ord q ∧ region m p (q - rcv_base + snd_base) ∧
      q - node_base (m x) + node_phys (m x) = q - rcv_base + snd_base - node_base (m p) + node_phys (m p).

(** The nodes from [brk sp] to [brk sp'] are new and confined, the others are
    as before. *)
Record handed (sp sp' : spaces) : Prop := {
  hd_brk : (brk sp ≤ brk sp')%nat;
  hd_old x : (x < brk sp)%nat → kept (mem sp x) (mem sp' x);
  hd_new x : (brk sp ≤ x < brk sp')%nat → confined (mem sp') x;
}.

Lemma confined_kept m m' x :
  (∀ p, p ∈ Ls → kept (m p) (m' p)) → kept (m x) (m' x) → confined m x → confined m' x.
Proof.
  intros Hp Hx (p & Hin & C1 & C2 & C3 & C4 & C5). pose proof (Hp p Hin) as Kp.
  pose proof Kp as (P1 & _ & _ & P4 & P5 & P6 & P7 & P8 & _).
  pose proof Hx as (X1 & _ & X3 & X4 & X5 & X6 & X7 & X8 & _).
  exists p. split; [done|]. rewrite X1, X3, X7, X8, P1, P7, P8. split_and!; [done..|].
  intros q Hq. rewrite (kept_region m) in Hq by done. destruct (C5 q Hq) as (? & ? & ?).
  split_and!; [done|by rewrite (kept_region m)|lia].
Qed.



(** Steps that change links only. *)
Lemma handed_kept sp sp1 sp2 :
  (∀ p, p ∈ Ls → (p < brk sp1)%nat) → handed sp sp1 → brk sp2 = brk sp1 →
  (∀ y, (y < brk sp1)%nat → kept (mem sp1 y) (mem sp2 y)) → handed sp sp2.
Proof.
  intros HLs [B O N] Hb Hk. split; [lia| |].
  - intros x Hx. eapply kept_trans; [by apply O|apply Hk; lia].
  - intros x Hx. rewrite Hb in Hx. apply (confined_kept (mem sp1)); [|apply Hk; lia|by apply N].
    intros p Hp. apply Hk. by apply HLs.
Qed.

(** The windows are aligned and end below the top of the address space. *)
Record windows : Prop := {
  wi_snd : 0 ≤ snd_base ∧ aligned snd_base ord;
  wi_rcv : 0 ≤ rcv_base ∧ aligned rcv_base ord ∧ rcv_base + 2 ^ ord < 2 ^ 64;
  wi_attr : word 64 attr;
  wi_pd : subspace snd t ≠ subspace this t;
}.


Hypothesis W : windows.







(** ** The loop over the sender's nodes *)


End confinement.

(** ** Delegation of a descriptor *)
Section items.
Context {E : Type} `{PdEnv E}.
Implicit Type w : world E.









End items.

(** ** Examples *)
#[local] Existing Instance demo_env.


(** the descriptors of ports have to be aligned: with the unaligned base 5,
    [Pd::del_crd] gives the receiver port 6, which the sender, with ports 4 and
    5, does not have. *)
Theorem del_crd_unaligned_ports :
  let crd := crd_make 2 5 1 1 in
  ∃ L R crd' w', system (sps demo_ports) L R ∧
    del_crd 1 0 4 crd crd 0 0 demo_ports = Some (crd', w') ∧
    (∀ x, x ∈ L (subspace 0 PIO) → ¬ region (mem (sps w')) x 6) ∧
    ∃ x, space (node_of w' x) = Some (subspace 1 PIO) ∧ node_attr (node_of w' x) = 1 ∧
      prnt (node_of w' x) = Some 0%nat ∧ region (mem (sps w')) x 6.
Proof.
  intros crd. destruct (del_crd 1 0 4 crd crd 0 0 demo_ports) as [[crd' w']|] eqn:Hrun; [|by vm_compute in Hrun].
  pose proof (result_of (λ w, node_base (node_of w 0) = 4 ∧ node_order (node_of w 0) = 1 ∧
      space (node_of w 1) = Some 4%nat ∧ node_attr (node_of w 1) = 1 ∧
      prnt (node_of w 1) = Some 0%nat ∧ node_base (node_of w 1) = 5 ∧ node_order (node_of w 1) = 1)
    _ _ _ Hrun) as (Hb & Ho & Hs & Ha & Hp & Hb1 & Ho1); [by vm_compute|].
  exists (solo_nodes 1), [[0%nat]], crd', w'. unfold node_of in *. split; [by apply solo_system|]. split; [done|]. split.
  - intros x Hx. change (x ∈ [0%nat]) in Hx. apply list_elem_of_singleton in Hx as ->.
    unfold region. rewrite Hb, Ho. lia.
  - exists 1%nat. split_and!; try done. unfold region. rewrite Hb1, Ho1. lia.
Qed.
