(* ===== verification/Revoke.v ===== *)
(** Revocation: what [revoke], [rev_crd] and [pre_free] of [src/pd.cpp] promise.

    A node and what is derived from it are consecutive in their delegation
    ring.  [revoke] walks this segment forwards and takes rights away, and
    backwards to remove the nodes that have neither rights nor descendants. *)
From S2P Require Import Prelude Bits Quota Rcu Crd Queue Avl AvlRemove Mdb Space Derivation Pd.
Local Open Scope Z_scope.

(** ** Subtrees *)

Definition child (m : memory) (p x : obj) : Prop := prnt (m x) = Some p.
Definition descends (m : memory) : obj → obj → Prop := rtc (child m).

(** [sub] is the part of the ring behind [x] that is deeper than [x]. *)
Definition subtree (m : memory) (x : obj) (sub l2 : list obj) : Prop :=
  (∀ a, a ∈ sub → dpth (m x) < dpth (m a)) ∧ ∀ y, hd_error l2 = Some y → dpth (m y) ≤ dpth (m x).

Lemma subtree_split m x l : ∃ sub l2, l = sub ++ l2 ∧ subtree m x sub l2.
Proof.
  induction l as [|a l (sub & l2 & -> & Hs & He)].
  { exists [], []. split; [done|]. split; [intros a Ha; by apply not_elem_of_nil in Ha|done]. }
  destruct (decide (dpth (m x) < dpth (m a))).
  - exists (a :: sub), l2. split; [done|]. split; [|done]. intros b [->|Hb]%elem_of_cons; auto.
  - exists [], (a :: sub ++ l2). split; [done|]. split; [intros b Hb; by apply not_elem_of_nil in Hb|].
    simpl. intros y [= <-]. lia.
Qed.

Section one_ring.
Context (m : memory) (l1 : list obj) (x : obj) (sub l2 : list obj).
Hypothesis D : derivation m (l1 ++ x :: sub ++ l2).
Hypothesis N : NoDup (l1 ++ x :: sub ++ l2).
Hypothesis T : subtree m x sub l2.
Hypothesis Root : ∀ h l, l1 ++ x :: sub ++ l2 = h :: l → prnt (m h) = None.

(** The parent of a node in the ring lies before it. *)
Lemma parent_before y p :
  y ∈ l1 ++ x :: sub ++ l2 → prnt (m y) = Some p →
  ∃ k1 k2 k3, l1 ++ x :: sub ++ l2 = k1 ++ p :: k2 ++ y :: k3 ∧ dpth (m y) = dpth (m p) + 1 ∧
    ∀ a, a ∈ k2 → dpth (m p) < dpth (m a).
Proof.
  intros (j & k & E)%list_elem_of_split Hp. destruct j as [|h j]; [by rewrite (Root y k) in Hp|].
  destruct (D _ _ _ E) as (p' & k1 & k2 & Ej & Hp' & Hd & Hk); [done|].
  rewrite Hp in Hp'. injection Hp' as <-. exists k1, k2, k. rewrite E, Ej. by rewrite <-app_assoc.
Qed.

Lemma subtree_parent y : y ∈ sub → ∃ p, prnt (m y) = Some p ∧ p ∈ x :: sub.
Proof.
  intros Hy. pose proof Hy as (j & k & ->)%list_elem_of_split. destruct T as [Hs _]. 
  destruct (D (l1 ++ x :: j) y (k ++ l2)) as (p & k1 & k2 & E & Hp & Hd & Hk);
    [by rewrite <-!app_assoc|by destruct l1|].
  exists p. split; [done|].
  destruct (app_split _ _ _ _ _ _ E) as [(j' & -> & ->)|[(_ & <- & _)|(j' & -> & ->)]].
  - rewrite elem_of_cons, !elem_of_app, elem_of_cons. tauto.
  - left.
  - exfalso. specialize (Hs y Hy). assert (dpth (m p) < dpth (m x)); [|lia].
    apply Hk, elem_of_app. right. left.
Qed.

Lemma subtree_child y p :
  y ∈ l1 ++ x :: sub ++ l2 → prnt (m y) = Some p → p ∈ x :: sub → y ∈ sub.
Proof.
  intros Hy Hp Hps. destruct (parent_before y p Hy Hp) as (k1 & k2 & k3 & E & Hd & Hk).
  apply list_elem_of_split in Hps as (s1 & s2 & Es).
  assert (l1 ++ x :: sub ++ l2 = (l1 ++ s1) ++ p :: s2 ++ l2) as E2.
  { rewrite <-app_assoc. f_equal. change (x :: sub ++ l2) with ((x :: sub) ++ l2). by rewrite Es, <-app_assoc. }
  pose proof N as N'. rewrite E in E2, N'.
  assert (k1 = l1 ++ s1 ∧ k2 ++ y :: k3 = s2 ++ l2) as [-> E3].
  { destruct (app_split _ _ _ _ _ _ E2) as [(j & _ & Ej)|[(? & _ & ?)|(j & Ej & _)]]; [|done|]; exfalso.
    - rewrite Ej in N'. apply list.NoDup_app in N' as (_ & _ & N').
      apply list.NoDup_cons in N' as [N' _]. apply N', elem_of_app. right. left.
    - rewrite Ej in N'. apply list.NoDup_app in N' as (_ & N' & _). apply (N' p); [|left].
      apply elem_of_app. right. left. }
  destruct T as [Hs He].
  assert (dpth (m x) ≤ dpth (m p)) as Hxp.
  { assert (p ∈ x :: sub) as Hin by (rewrite Es; apply elem_of_app; right; left).
    apply elem_of_cons in Hin as [->|Hin]; [done|]. specialize (Hs p Hin). lia. }
  assert (y ∈ s2 ++ l2) as Hin by (rewrite <-E3; apply elem_of_app; right; left).
  assert (∀ a, a ∈ s2 → a ∈ sub) as Hs2.
  { intros a Ha. destruct s1 as [|h s1]; simpl in Es; injection Es as -> ->; [done|].
    apply elem_of_app. right. by right. }
  apply elem_of_app in Hin as [Hin|Hin]; [by apply Hs2|]. exfalso.
  destruct (decide (y ∈ s2)) as [Hys|Hys].
  { rewrite E2 in N'. apply list.NoDup_app in N' as (_ & _ & N'). apply list.NoDup_cons in N' as [_ N'].
    apply list.NoDup_app in N' as (_ & N' & _). by apply (N' y). }
  destruct l2 as [|h l2'] eqn:El2; [by apply not_elem_of_nil in Hin|]. specialize (He h eq_refl).
  assert (h = y ∨ h ∈ k2) as [->|Hh]; [|lia|specialize (Hk h Hh); lia].
  destruct (app_split k2 k3 s2 l2' y h E3) as [(j & -> & _)|[(_ & <- & _)|(j & -> & _)]]; [|by left|].
  - exfalso. apply Hys, elem_of_app. right. left.
  - right. apply elem_of_app. right. left.
Qed.

(** The nodes of the ring that descend from [x] are [x] and its subtree. *)
Lemma subtree_descends y : y ∈ l1 ++ x :: sub ++ l2 → descends m x y ↔ y ∈ x :: sub.
Proof.
  intros Hy. split.
  - intros Hd. revert y Hd Hy. apply (rtc_ind_r (λ y, y ∈ l1 ++ x :: sub ++ l2 → y ∈ x :: sub) x); [left|].
    intros z y Hxz Hzy IH Hy. right. apply (subtree_child y z); [done..|]. apply IH.
    destruct (parent_before y z Hy Hzy) as (k1 & k2 & k3 & -> & _). apply elem_of_app. right. left.
  - clear Hy. intros [->|Hy]%elem_of_cons; [reflexivity|]. destruct T as [Hs _].
    remember (Z.to_nat (dpth (m y) - dpth (m x))) as n eqn:En. revert y Hy En.
    induction n as [n IH] using lt_wf_ind. intros y Hy En.
    destruct (subtree_parent y Hy) as (p & Hp & [->|Hin]%elem_of_cons); [by apply rtc_once|].
    apply rtc_r with p; [|done]. apply (IH (Z.to_nat (dpth (m p) - dpth (m x)))); [|done..].
    destruct (parent_before y p) as (_ & _ & _ & _ & Hd & _); [|done|].
    + rewrite elem_of_app, elem_of_cons, elem_of_app. tauto.
    + specialize (Hs p Hin). lia.
Qed.
End one_ring.

(** ** Neighbours in a ring *)

Lemma ring_next m k1 x l : ring (links_of m) (k1 ++ x :: l) → mdb_next (m x) = List.hd x (l ++ k1).
Proof.
  intros Hr. destruct (decide (k1 ++ l = [])) as [[-> ->]%app_eq_nil|Hne].
  - destruct Hr as [_ [Hn _]]. by injection Hn.
  - by destruct (ring_around m k1 x l Hr Hne) as (-> & _).
Qed.

Lemma ring_prev m k1 x l : ring (links_of m) (k1 ++ x :: l) → mdb_prev (m x) = List.last (l ++ k1) x.
Proof.
  intros Hr. destruct (decide (k1 ++ l = [])) as [[-> ->]%app_eq_nil|Hne].
  - destruct Hr as [_ [_ Hp]]. by injection Hp.
  - by destruct (ring_around m k1 x l Hr Hne) as (_ & -> & _).
Qed.

(** ** Taking rights away *)

Lemma land_clear v a : word 64 a → Z.land (Z.land v (wnot a)) a = 0.
Proof.
  intros Ha. apply Z.bits_inj'. intros i Hi. rewrite !Z.land_spec, wnot_bits, Z.bits_0 by done.
  destruct (Z.testbit a i); [|by rewrite andb_false_r]. by rewrite !andb_false_r.
Qed.

(** The nodes of [D] lose the rights [a], the others keep theirs. *)
Definition demoted (a : Z) (D : list obj) (m m' : memory) : Prop :=
  ∀ x, ∃ v, m' x = set_attr v (m x) ∧ (x ∉ D → v = node_attr (m x)) ∧
    (v = node_attr (m x) ∨ v = Z.land (node_attr (m x)) (wnot a) ∧ Z.land (node_attr (m x)) a ≠ 0) ∧
    (x ∈ D → Z.land v a = 0).

Lemma set_attr_id n : set_attr (node_attr n) n = n.
Proof. by destruct n. Qed.

Lemma demoted_nil a m : demoted a [] m m.
Proof.
  intros x. exists (node_attr (m x)). rewrite set_attr_id. split_and!; [done|done|by left|].
  by intros ?%not_elem_of_nil.
Qed.

Lemma demoted_attr_only a D m m' : demoted a D m m' → attr_only m m'.
Proof. intros Hd x. destruct (Hd x) as (v & -> & _). by exists v. Qed.

Lemma demoted_one a x m :
  word 64 a → (Z.land (node_attr (m x)) a ≠ 0 → demoted a [x] m (demote_node x a m)) ∧
    (Z.land (node_attr (m x)) a = 0 → demoted a [x] m m).
Proof.
  intros Ha. split.
  - intros Hnz y. unfold demote_node. destruct (decide (x = y)) as [<-|Hne].
    + rewrite upd_at. eexists. split; [reflexivity|]. split_and!; [|right; by split|intros _; by apply land_clear].
      intros []. by apply list_elem_of_singleton.
    + rewrite upd_ne by done. exists (node_attr (m y)). rewrite set_attr_id. split_and!; [done|done|by left|].
      intros Hy%list_elem_of_singleton. congruence.
  - intros Hz y. exists (node_attr (m y)). rewrite set_attr_id. split_and!; [done|done|by left|].
    by intros ->%list_elem_of_singleton.
Qed.

Lemma demoted_trans a D1 D2 m1 m2 m3 :
  word 64 a → demoted a D1 m1 m2 → demoted a D2 m2 m3 → demoted a (D1 ++ D2) m1 m3.
Proof.
  intros Ha H1 H2 x. destruct (H1 x) as (v1 & E1 & K1 & V1 & L1). destruct (H2 x) as (v2 & E2 & K2 & V2 & L2).
  rewrite E1 in *. simpl in *. exists v2. rewrite E2, elem_of_app. split; [done|].
  split; [intros Hn; rewrite K2, K1; tauto|]. split.
  - destruct V2 as [->|[-> N2]], V1 as [->|[-> N1]]; auto. destruct N2. by apply land_clear.
  - intros [Hx|Hx]; [|auto]. destruct V2 as [->|[-> _]]; [auto|by apply land_clear].
Qed.

(** Which nodes of the segment that starts with [y] lose rights: [dem] is the
    flag for [y]; with [self] it does not change, otherwise every child of [mdb]
    sets it for what is derived from that child. *)
Fixpoint marked (m : memory) (self : bool) (mdb : obj) (hit : obj → bool) (dem : bool) (y : obj) (l : list obj) :
    list obj :=
  (if dem then [y] else []) ++
  match l with
  | [] => []
  | z :: l => marked m self mdb hit (if negb self && bool_decide (prnt (m z) = Some mdb) then hit z else dem) z l
  end.

(** [maps_part] as a total function. *)
Definition hits (m : memory) (mdb : obj) (b o : Z) (x : obj) : bool :=
  let p := (b - node_base (m mdb) + node_phys (m mdb))%W in
  match clamp (node_phys (m x)) p (node_order (m x)) o with
  | Some (c, _) => negb (c =? ones64)
  | None => false
  end.

Section loops.
Context {E : Type} `{PdEnv E}.
Implicit Type w : world E.

Lemma maps_part_run w mdb b o x :
  0 ≤ node_order (node_of w x) < 64 → o < 64 →
  maps_part x mdb b o w = Some (hits (mem (sps w)) mdb b o x).
Proof.
  intros Hx Ho. unfold maps_part, hits, node_of in *.
  destruct (clamp _ _ _ _) as [[c v]|] eqn:Ec; [done|]. unfold clamp in Ec.
  destruct (Z.leb_spec 64 (Z.max (node_order (mem (sps w) x)) o)); [lia|]. by destruct (truthy _).
Qed.

Lemma hits_attr_only m m' mdb b o x : attr_only m m' → hits m' mdb b o x = hits m mdb b o x.
Proof. intros Hm. unfold hits. destruct (Hm mdb) as [a ->], (Hm x) as [a' ->]. done. Qed.

Lemma marked_attr_only m m' self mdb b o l : attr_only m m' → ∀ dem y,
  marked m' self mdb (hits m' mdb b o) dem y l = marked m self mdb (hits m mdb b o) dem y l.
Proof.
  intros Hm. induction l as [|z l IH]; intros dem y; [done|]. simpl. rewrite IH.
  destruct (Hm z) as [a ->]. by rewrite (hits_attr_only m m').
Qed.

(** One node: its rights go when the flag is set. *)
Lemma withdraw_run t this mdb a (dem : bool) node w :
  word 64 a → space (node_of w node) ≠ None →
  ∃ w' m', (if dem && truthy (node_attr (node_of w node) .& a)%W then
      '(qg, w) ← withdraw t this node a (if truthy (node_sub (node_of w mdb) .& 0x1)%W then raise HZD_IOMMU w else w);
      Some (end_guard this qg w)
    else Some w) = Some w' ∧
    sps w' = set_mem m' (sps w) ∧ demoted a (if dem then [node] else []) (mem (sps w)) m' ∧
    preemption w' = preemption w.
Proof.
  intros Ha Hs. destruct (demoted_one a node (mem (sps w)) Ha) as [D1 D2].
  assert (sps w = set_mem (mem (sps w)) (sps w)) as Eid by by destruct (sps w).
  destruct dem; simpl.
  2: { exists w, (mem (sps w)). split_and!; try done. apply demoted_nil. }
  destruct (truthy _) eqn:Et.
  2: { exists w, (mem (sps w)). split_and!; try done. apply D2. by apply truthy_false. }
  set (w1 := if truthy _ then _ else _).
  assert (sps w1 = sps w ∧ preemption w1 = preemption w) as [E1 P1] by (unfold w1; by destruct (truthy (node_sub _ .& 0x1)%W)).
  unfold withdraw, node_of in *. rewrite E1. destruct (space (mem (sps w) node)) as [s0|] eqn:Esp; [|done].
  cbn [mbind option_bind]. destruct (run_update_sps t this node a quota_new w1) as [E2 P2].
  destruct (run_update t this node a quota_new w1) as [[f q] w2]. simpl in E2, P2.
  eexists _, (demote_node node a (mem (sps w))). split; [reflexivity|].
  unfold end_guard, demote, set_nodes, set_sps, set_quota. simpl. rewrite E2, E1, P2, P1.
  split_and!; [done| |done]. apply D1. by apply truthy_true.
Qed.

(** What the loops rely on: a segment of a ring of a sound system. *)
Lemma segment_in sp L R1 R2 r x :
  system sp L (R1 ++ r :: R2) → x ∈ r → ∃ s, x ∈ L s.
Proof. intros HY Hx. apply (sy_in _ _ _ HY), join_mid. by left. Qed.

Lemma segment_ring sp L R1 R2 r : system sp L (R1 ++ r :: R2) → ring (links_of (mem sp)) r ∧ derivation (mem sp) r.
Proof. intros HY. apply (rv_ring _ _ (sy_rings _ _ _ HY)), elem_of_app. right. left. Qed.

Lemma hd_app (d : obj) l k : hd d (l ++ k) = hd (hd d k) l.
Proof. by destruct l. Qed.

Lemma demote_loop_run t this attr self mdb d b o (HA : word 64 attr) (Ho : o < 64) L R1 l2 R2 :
  ∀ rest fuel node k1 dem w,
  system (sps w) L (R1 ++ (k1 ++ node :: rest ++ l2) :: R2) →
  (∀ a, a ∈ rest → d < dpth (node_of w a)) →
  dpth (node_of w (hd (hd node k1) l2)) ≤ d →
  (∀ a, a ∈ node :: rest → space (node_of w a) ≠ None) → (length rest < fuel)%nat →
  ∃ w' m', demote_loop t this attr self fuel mdb d b o node dem w = Some (List.last rest node, w') ∧
    sps w' = set_mem m' (sps w) ∧ preemption w' = preemption w ∧
    demoted attr (marked (mem (sps w)) self mdb (hits (mem (sps w)) mdb b o) dem node rest) (mem (sps w)) m'.
Proof.
  induction rest as [|z rest IH]; intros [|fuel] node k1 dem w HY Hdeep Hend Hsp Hf; try (simpl in Hf; lia);
    destruct (segment_ring _ _ _ _ _ HY) as [Hring _];
    pose proof (ring_next _ _ _ _ Hring) as Hnext;
    destruct (withdraw_run t this mdb attr dem node w HA (Hsp node ltac:(left))) as (w1 & m1 & E1 & S1 & D1 & P1);
    cbn [demote_loop]; rewrite E1; cbn [mbind option_bind];
    pose proof (demoted_attr_only _ _ _ _ D1) as A1;
    assert (∀ x, ∃ v, node_of w1 x = set_attr v (node_of w x)) as An
      by (intros x; unfold node_of; rewrite S1; simpl; apply A1);
    (assert (mdb_next (node_of w1 node) = mdb_next (mem (sps w) node)) as -> by (by destruct (An node) as [v ->]));
    rewrite Hnext.
  - rewrite app_nil_l, hd_app. destruct (An (hd (hd node k1) l2)) as [v ->]. simpl.
    rewrite (proj2 (Z.leb_le _ _)) by done. exists w1, m1. rewrite app_nil_r. by split_and!.
  - simpl. destruct (An z) as [v Ez].
    assert (dpth (node_of w1 z) = dpth (node_of w z)) as -> by by rewrite Ez.
    rewrite (proj2 (Z.leb_gt _ _)) by (apply Hdeep; left).
    assert (prnt (node_of w1 z) = prnt (mem (sps w) z)) as -> by by rewrite Ez.
    set (dem' := if negb self && bool_decide (prnt (mem (sps w) z) = Some mdb)
                 then hits (mem (sps w)) mdb b o z else dem).
    assert ((if negb self && bool_decide (prnt (mem (sps w) z) = Some mdb)
             then maps_part z mdb b o w1 else Some dem) = Some dem') as ->.
    { unfold dem'. destruct (negb self && _); [|done]. rewrite maps_part_run; [|rewrite Ez|done].
      - f_equal. rewrite S1. by apply hits_attr_only.
      - destruct (segment_in _ _ _ _ _ z HY) as [s Hs].
        { rewrite elem_of_app. right. right. left. }
        apply (sy_ok _ _ _ HY s z Hs). }
    cbn [mbind option_bind].
    destruct (IH fuel z (k1 ++ [node]) dem' w1) as (w2 & m2 & E2 & S2 & P2 & D2); [| | | |simpl in Hf; lia|].
    + rewrite S1, <-app_assoc. by apply system_attr.
    + intros x Hx. destruct (An x) as [v' ->]. apply Hdeep. by right.
    + rewrite (hd_app z). destruct (An (hd (hd (hd z [node]) k1) l2)) as [v' ->]. exact Hend.
    + intros x Hx. destruct (An x) as [v' ->]. apply Hsp. by right.
    + exists w2, m2. rewrite E2. split_and!.
      * change (Some (List.last rest z, w2) = Some (List.last (z :: rest) node, w2)). by rewrite last_cons_default.
      * rewrite S2, S1. done.
      * congruence.
      * eapply demoted_trans; [done|exact D1|]. rewrite S1 in D2. simpl in D2.
        by rewrite (marked_attr_only (mem (sps w))) in D2.
Qed.
(** ** Removing nodes *)

Lemma elem_hd_end (m : memory) x l2 k : 
  (∀ y, hd_error l2 = Some y → dpth (m y) ≤ dpth (m x)) → k = l2 → has_children m x k = false.
Proof. intros He ->. destruct l2 as [|y l2]; [done|]. simpl. apply Z.ltb_ge. by apply He. Qed.

Lemma last_app_cons_default (l k : list obj) x sub n : List.last (l ++ k ++ x :: sub) n = List.last sub x.
Proof.
  destruct sub as [|a sub _] using rev_ind; [by rewrite app_assoc, List.last_last|].
  by rewrite app_comm_cons, !app_assoc, !List.last_last.
Qed.

Lemma elem_of_if (c : bool) (x y : obj) : y ∈ (if c then [x] else []) ↔ y = x ∧ c = true.
Proof.
  destruct c; [rewrite list_elem_of_singleton; tauto|]. split; [by intros ?%not_elem_of_nil|by intros [_ ?]].
Qed.

(** One node on the way back. *)
Lemma drop_step w L R1 l1 x l2 R2 preempt :
  system (sps w) L (R1 ++ (l1 ++ x :: l2) :: R2) → space (node_of w x) ≠ None → preemption w = preempt →
  let stays := truthy (node_attr (node_of w x)) || has_children (mem (sps w)) x l2 in
  ∃ w' L', unpreempted preempt (drop_node true x) w = Some w' ∧
    system (sps w') L' (R1 ++ (l1 ++ (if stays then [x] else []) ++ l2) :: R2) ∧
    (∀ y, kept (node_of w y) (node_of w' y)) ∧ mdb_prev (node_of w' x) = List.last (l2 ++ l1) x ∧
    (∀ s y, y ∈ L' s ↔ y ∈ L s ∧ (y ≠ x ∨ stays = true)) ∧
    preemption w' = preempt ∧ brk (sps w') = brk (sps w) ∧ hazard w' = hazard w.
Proof.
  intros HY Hs Hp stays. destruct (segment_ring _ _ _ _ _ HY) as [Hring _].
  destruct (segment_in _ _ _ _ _ x HY) as [s Hx]; [apply elem_of_app; right; left|].
  destruct (sy_home _ _ _ HY s x Hx) as [Hsp|[Hsp _]]; [|done].
  set (w1 := if preempt then set_preemption false w else w).
  assert (sps w1 = sps w ∧ hazard w1 = hazard w) as [E1 Z1] by (by destruct preempt).
  destruct (drop_node_run w1 L R1 l1 x l2 R2 s) as (w2 & L' & E2 & HY2 & Hk & Hpr & _ & HL & Hh & Hpe & Hb);
    [by rewrite E1|done|unfold node_of; by rewrite E1|].
  unfold node_of in *. rewrite E1 in *.
  eexists (if preempt then set_preemption true w2 else w2), L'.
  unfold unpreempted. fold w1. rewrite E2. cbn [mbind option_bind].
  assert (sps (if preempt then set_preemption true w2 else w2) = sps w2 ∧
          hazard (if preempt then set_preemption true w2 else w2) = hazard w2) as [-> ->] by (by destruct preempt).
  split_and!; try done.
  - by rewrite Hpr, (ring_prev _ _ _ _ Hring).
  - destruct preempt; [done|]. by rewrite Hpe.
  - congruence.
Qed.

(** The walk back over [x :: sub]: [keep] are the nodes that stay. *)
Record swept (w w' : world E) (L L' : nat → list obj) (seg keep : list obj) : Prop := {
  sw_kept y : kept (node_of w y) (node_of w' y);
  sw_nodes s y : y ∈ L' s ↔ y ∈ L s ∧ (y ∉ seg ∨ y ∈ keep);
  sw_keep y : y ∈ keep → y ∈ seg;
  sw_gone y : y ∈ seg → y ∉ keep → node_attr (node_of w y) = 0;
  sw_preemption : preemption w' = preemption w;
  sw_brk : brk (sps w') = brk (sps w);
}.

(** The next node of the ring, when it is deeper, is a child. *)
Lemma deeper_child m l1 x y l2 :
  derivation m (l1 ++ x :: y :: l2) → dpth (m x) < dpth (m y) → child m x y.
Proof.
  intros Hder Hlt. destruct (Hder (l1 ++ [x]) y l2) as (p & k1 & k2 & El & Hp & Hd & Hk);
    [by rewrite <-app_assoc|by destruct l1|].
  destruct k2 as [|a k2 _] using rev_ind.
  - apply app_inj_tail in El as [_ ->]. exact Hp.
  - rewrite app_comm_cons, app_assoc in El. apply app_inj_tail in El as [_ ->].
    specialize (Hk a ltac:(apply elem_of_app; right; left)). lia.
Qed.

(** Every node of [l] has rights or a descendant in [l] that has some. *)
Definition needed (m : memory) (l : list obj) : Prop :=
  ∀ y, y ∈ l → ∃ z, z ∈ l ∧ descends m y z ∧ node_attr (m z) ≠ 0.

Lemma needed_nil m : needed m [].
Proof. by intros y Hy%not_elem_of_nil. Qed.

Lemma needed_kept m m' l : (∀ y, kept (m y) (m' y)) → needed m' l → needed m l.
Proof.
  intros Hk Hn y Hy. destruct (Hn y Hy) as (z & Hz & Hd & Ha). exists z. split; [done|].
  destruct (Hk z) as (_ & _ & _ & _ & _ & _ & <- & _). split; [|done].
  clear - Hk Hd. induction Hd as [|a b c Hab _ IH]; [reflexivity|]. apply rtc_l with b; [|done].
  unfold child in *. destruct (Hk b) as (_ & Hp & _). congruence.
Qed.

Lemma kept_sym n n' : kept n n' → kept n' n.
Proof. unfold kept. intuition. Qed.

(** A node that stays before needed nodes [tl] is needed. *)
Lemma needed_cons m l1 x tl l2 :
  derivation m (l1 ++ x :: tl ++ l2) → (∀ y, hd_error l2 = Some y → dpth (m y) ≤ dpth (m x)) →
  truthy (node_attr (m x)) || has_children m x (tl ++ l2) = true → needed m tl → needed m (x :: tl).
Proof.
  intros Hder Hend Hst Hn y [->|Hy]%elem_of_cons.
  2: { destruct (Hn y Hy) as (z & ? & ? & ?). exists z. rewrite elem_of_cons. auto. }
  apply orb_true_iff in Hst as [Ha|Hc].
  { exists x. split; [left|]. split; [reflexivity|]. by apply truthy_true. }
  destruct tl as [|h tl].
  { simpl in Hc. by rewrite (elem_hd_end m x l2 l2 Hend eq_refl) in Hc. }
  simpl in Hc. apply Z.ltb_lt in Hc. destruct (Hn h ltac:(left)) as (z & Hz & Hd & Hza).
  exists z. split; [by right|]. split; [|done]. apply rtc_l with h; [|done]. by apply (deeper_child m l1 x h (tl ++ l2)).
Qed.

Lemma remove_loop_run d k1 l2 R1 R2 x : ∀ sub fuel tl w L preempt,
  system (sps w) L (R1 ++ (k1 ++ (x :: sub) ++ tl ++ l2) :: R2) → d = dpth (node_of w x) →
  subtree (mem (sps w)) x (sub ++ tl) l2 →
  (∀ a, a ∈ x :: sub → space (node_of w a) ≠ None) → preemption w = preempt → (length sub < fuel)%nat →
  ∃ w' L' keep, remove_loop fuel d preempt (List.last sub x) w = Some (x, w') ∧
    system (sps w') L' (R1 ++ (k1 ++ keep ++ tl ++ l2) :: R2) ∧ swept w w' L L' (x :: sub) keep ∧
    (needed (mem (sps w)) tl → needed (mem (sps w)) (keep ++ tl)).
Proof.
  intros sub. induction sub as [|n sub IH] using rev_ind; intros [|fuel] tl w L preempt HY Hd Ht Hsp Hp Hf;
    try (rewrite ?length_app in Hf; simpl in Hf; lia).
  - destruct (drop_step w L R1 k1 x (tl ++ l2) R2 preempt HY (Hsp x ltac:(left)) Hp)
      as (w' & L' & E1 & HY' & Hk & _ & HL & Hpe & Hb & _).
    set (stays := truthy _ || _) in *. exists w', L', (if stays then [x] else []).
    cbn [remove_loop List.last]. rewrite E1. cbn [mbind option_bind].
    destruct (Hk x) as (Hdx & _). rewrite Hdx, Hd, Z.leb_refl. split_and!; [done|done| |].
    + split; try done.
      * intros s y. rewrite HL, elem_of_if, list_elem_of_singleton. split; [|tauto].
        intros [? [?|?]]; [tauto|]. destruct (decide (y = x)); tauto.
      * intros y [-> _]%elem_of_if. left.
      * intros y ->%list_elem_of_singleton Hn. apply truthy_false. apply not_true_iff_false. intros Ha.
        apply Hn, elem_of_if. unfold stays. by rewrite Ha.
      * congruence.
    + intros Hn. destruct stays eqn:Est; [|done]. simpl.
      destruct (segment_ring _ _ _ _ _ HY) as [_ Hder]. apply (needed_cons _ k1 x tl l2); try done. apply Ht.
  - rewrite List.last_last. cbn [remove_loop].
    assert (k1 ++ (x :: sub ++ [n]) ++ tl ++ l2 = (k1 ++ x :: sub) ++ n :: tl ++ l2) as El
      by (rewrite <-(app_assoc k1); f_equal; simpl; by rewrite <-app_assoc).
    rewrite El in HY. assert (n ∈ x :: sub ++ [n]) as Hn by (right; apply elem_of_app; right; left).
    destruct (drop_step w L R1 _ n (tl ++ l2) R2 preempt HY (Hsp n Hn) Hp)
      as (w1 & L1 & E1 & HY1 & Hk & Hpr & HL & Hpe & Hb & _).
    set (stays := truthy _ || _) in *. rewrite E1. cbn [mbind option_bind].
    assert ((dpth (node_of w1 n) <=? d) = false) as ->.
    { destruct (Hk n) as (-> & _). rewrite Hd. apply Z.leb_gt, Ht. rewrite !elem_of_app. left. right. left. }
    rewrite Hpr, last_app_cons_default.
    destruct (IH fuel ((if stays then [n] else []) ++ tl) w1 L1 preempt) as (w2 & L2 & keep & E2 & HY2 & [K N P G Pe B] & Hall).
    { rewrite <-!app_assoc in HY1. by rewrite <-!app_assoc. }
    { by destruct (Hk x) as (-> & _). }
    { destruct Ht as [Hs He]. split; intros y Hy; [|destruct (Hk y) as (Hdy & _), (Hk x) as (Hdx & _); unfold node_of in *; rewrite Hdy, Hdx; by apply He].
      destruct (Hk y) as (Hdy & _), (Hk x) as (Hdx & _). unfold node_of in *. rewrite Hdy, Hdx. apply Hs.
      rewrite !elem_of_app, elem_of_if in Hy. rewrite !elem_of_app, list_elem_of_singleton. tauto. }
    { intros a Ha. destruct (Hk a) as (_ & _ & -> & _). apply Hsp. rewrite elem_of_cons, elem_of_app in *. tauto. }
    { done. }
    { rewrite length_app in Hf. simpl in Hf. lia. }
    assert (∀ y, y ∈ x :: sub ++ [n] ↔ y ∈ x :: sub ∨ y = n) as Hin.
    { intros y. rewrite !elem_of_cons, elem_of_app, list_elem_of_singleton. tauto. }
    assert (n ∉ x :: sub) as Hnew.
    { destruct (rings_nodup_mid _ _ _ _ (sy_rings _ _ _ HY)) as [HN _]. apply list.NoDup_app in HN as (_ & HN & _).
      intros Hx. by apply (HN n); [apply elem_of_app; right|left]. }
    exists w2, L2, (keep ++ if stays then [n] else []). rewrite E2. split; [done|]. split.
    { rewrite <-!app_assoc in HY2. by rewrite <-!app_assoc. }
    split.
    + split; [| | | |congruence..].
      * intros y. eapply kept_trans; [apply Hk|apply K].
      * intros s y. rewrite N, HL, Hin, elem_of_app, elem_of_if. specialize (P y).
        destruct (decide (y = n)) as [->|]; [|tauto]. destruct stays; intuition done.
      * intros y. rewrite elem_of_app, elem_of_if, Hin. specialize (P y). tauto.
      * intros y [Hy| ->]%Hin; rewrite elem_of_app, elem_of_if; intros Hne.
        -- destruct (Hk y) as (_ & _ & _ & _ & _ & _ & <- & _). apply G; tauto.
        -- apply truthy_false, not_true_iff_false. intros Ha. apply Hne. right. split; [done|].
           unfold stays. by rewrite Ha.
    + intros Hneed. rewrite <-app_assoc. apply (needed_kept _ (mem (sps w1))); [exact Hk|]. apply Hall.
      apply (needed_kept (mem (sps w1)) (mem (sps w))) ; [by intros y; apply kept_sym, Hk|].
      destruct stays eqn:Est; [|done]. simpl.
      destruct (segment_ring _ _ _ _ _ HY) as [_ Hder]. apply (needed_cons _ (k1 ++ x :: sub) n tl l2); try done.
      intros y Hy. destruct Ht as [Hs He]. specialize (Hs n). rewrite !elem_of_app, list_elem_of_singleton in Hs.
      specialize (He y Hy). specialize (Hs ltac:(auto)). lia.
Qed.
End loops.

(** ** Descendants in a sound system *)
Section descendants.
Context (sp : spaces) (L : nat → list obj) (R : list (list obj)).
Hypothesis Y : system sp L R.
Local Abbreviation m := (mem sp).

Lemma present_ring y : y ∈ mjoin R → ∃ r, y ∈ r ∧ r ∈ R ∧ derivation m r ∧ NoDup r ∧
  ∀ h l, r = h :: l → prnt (m h) = None.
Proof.
  intros Hy. destruct (rings_split _ _ Hy) as (R1 & l1 & l2 & R2 & E). exists (l1 ++ y :: l2).
  rewrite E in Y. pose proof (sy_rings _ _ _ Y) as HR. destruct (segment_ring _ _ _ _ _ Y) as [_ Hd].
  destruct (rings_nodup_mid _ _ _ _ HR) as [HN _].
  assert (l1 ++ y :: l2 ∈ R1 ++ (l1 ++ y :: l2) :: R2) as Hin by (apply elem_of_app; right; left).
  split_and!; [apply elem_of_app; right; left|by rewrite E|done|done|].
  intros h l Hl. apply (rv_root _ _ HR h l). by rewrite <-Hl.
Qed.

(** The parent of a node is in its ring, one level above. *)
Lemma present_parent r x p :
  r ∈ R → x ∈ r → child m p x → p ∈ r ∧ dpth (m x) = dpth (m p) + 1.
Proof.
  intros Hr Hx Hc. destruct (rv_ring _ _ (sy_rings _ _ _ Y) r Hr) as [_ Hd].
  apply list_elem_of_split in Hx as (j & k & ->). destruct j as [|h j].
  { unfold child in Hc. by rewrite (rv_root _ _ (sy_rings _ _ _ Y) x k Hr) in Hc. }
  destruct (Hd (h :: j) x k eq_refl) as (p' & k1 & k2 & E & Hp & Hdp & _); [done|].
  unfold child in Hc. rewrite Hc in Hp. injection Hp as <-. split; [|done].
  rewrite E, <-app_assoc. apply elem_of_app. right. left.
Qed.

Lemma present_up r x y : r ∈ R → y ∈ r → descends m x y → x ∈ r ∧ dpth (m x) ≤ dpth (m y).
Proof.
  intros Hr Hy Hd. revert Hy. induction Hd as [|x z y Hxz Hzy IH]; [done|]. intros Hy.
  destruct (IH Hy) as [Hz Hle]. destruct (present_parent r z x Hr Hz Hxz) as [Hx Hdx]. split; [done|lia].
Qed.

Lemma present_above x y : y ∈ mjoin R → descends m x y → x ∈ mjoin R.
Proof.
  intros (r & Hy & Hr)%list_elem_of_join Hd. apply list_elem_of_join. exists r. split; [|done].
  by apply (present_up r x y).
Qed.

(** The ancestors of a node form a chain. *)
Lemma ancestors_chain x x' y : descends m x y → descends m x' y → descends m x x' ∨ descends m x' x.
Proof.
  intros H1 H2. revert y H1 H2.
  apply (rtc_ind_r (λ y, descends m x' y → descends m x x' ∨ descends m x' x) x); [tauto|].
  intros z y Hxz Hzy IH [->|(p & Hp & Hpy)]%rtc_inv_r; [left; by apply rtc_r with z|].
  unfold child in Hpy, Hzy. assert (p = z) as -> by congruence. auto.
Qed.

(** A node is in the part of at most one child of another node. *)
Lemma one_child x c c' y :
  y ∈ mjoin R → child m x c → child m x c' → descends m c y → descends m c' y → c = c'.
Proof.
  intros Hy. revert c c'.
  assert (∀ c c', child m x c → child m x c' → descends m c y → descends m c' y → descends m c c' → c = c') as Hone.
  { intros c c' Hc Hc' Hd Hd' [->|(p & Hp & Hpc)]%rtc_inv_r; [done|]. exfalso.
    apply list_elem_of_join in Hy as (r & Hy & Hr).
    destruct (present_up r c y Hr Hy Hd) as [Hcr _]. destruct (present_up r c' y Hr Hy Hd') as [Hcr' _].
    unfold child in Hpc, Hc'. assert (p = x) as -> by congruence.
    destruct (present_parent r c x Hr Hcr Hc) as [Hxr Hdx]. destruct (present_up r c x Hr Hxr Hp). lia. }
  intros c c' Hc Hc' Hd Hd'. destruct (ancestors_chain _ _ _ Hd Hd'); [by apply Hone|symmetry; by apply Hone].
Qed.

(** The subtree of a node in its ring. *)
Lemma present_subtree x : x ∈ mjoin R → ∃ R1 l1 sub l2 R2, R = R1 ++ (l1 ++ x :: sub ++ l2) :: R2 ∧
  subtree m x sub l2 ∧ (∀ y, y ∈ mjoin R → descends m x y ↔ y ∈ x :: sub) ∧
  dpth (m (hd (hd x l1) l2)) ≤ dpth (m x) ∧ NoDup (x :: sub) ∧ (length sub < brk sp)%nat.
Proof.
  intros Hx. destruct (rings_split _ _ Hx) as (R1 & l1 & l & R2 & E).
  destruct (subtree_split m x l) as (sub & l2 & -> & Ht). exists R1, l1, sub, l2, R2. split; [done|]. split; [done|].
  assert (l1 ++ x :: sub ++ l2 ∈ R) as Hr by (rewrite E; apply elem_of_app; right; left).
  destruct (rv_ring _ _ (sy_rings _ _ _ Y) _ Hr) as [_ Hd].
  pose proof (sy_rings _ _ _ Y) as HR. rewrite E in HR. destruct (rings_nodup_mid _ _ _ _ HR) as [HN _].
  assert (∀ h k, l1 ++ x :: sub ++ l2 = h :: k → prnt (m h) = None) as Hroot.
  { intros h k Ek. apply (rv_root _ _ HR h k). rewrite <-Ek. apply elem_of_app. right. left. }
  assert (x ∈ l1 ++ x :: sub ++ l2) as Hxr by (apply elem_of_app; right; left).
  assert (∀ y, y ∈ l1 ++ x :: sub ++ l2 → (y < brk sp)%nat) as Hlt.
  { intros y Hy. apply (system_lt _ _ _ _ Y), list_elem_of_join. eauto. }
  assert (NoDup (x :: sub)) as HN1.
  { apply list.NoDup_app in HN as (_ & _ & HN). change (NoDup ((x :: sub) ++ l2)) in HN.
    by apply list.NoDup_app in HN as (HN & _). }
  split; [|split; [|split; [done|]]].
  - intros y Hy. split.
    + intros Hxy. apply list_elem_of_join in Hy as (r & Hyr & Hrr).
      destruct (present_up r x y Hrr Hyr Hxy) as [Hx' _].
      assert (r = l1 ++ x :: sub ++ l2) as ->; [|by apply (subtree_descends m l1 x sub l2)].
      rewrite E, elem_of_app, elem_of_cons in Hrr.
      destruct (decide (r = l1 ++ x :: sub ++ l2)) as [|Hne]; [done|]. exfalso.
      destruct (rings_nodup_mid _ _ _ _ HR) as [_ Hout]. apply (Hout x); [by apply elem_of_app; right; left|].
      apply list_elem_of_join. exists r. rewrite elem_of_app. tauto.
    + intros Hys. apply (subtree_descends m l1 x sub l2); try done.
      change (y ∈ l1 ++ (x :: sub) ++ l2). rewrite !elem_of_app. tauto.
  - destruct l2 as [|z l2]; simpl; [|by apply Ht].
    destruct l1 as [|h l1]; simpl; [done|]. apply Z.lt_le_incl, (root_least m h (l1 ++ x :: sub ++ [])); [done|].
    apply elem_of_app. right. left.
  - assert (length (x :: sub) ≤ length (seq 0 (brk sp)))%nat as Hl; [|rewrite length_seq in Hl; simpl in Hl; lia].
    apply submseteq_length, NoDup_submseteq; [done|]. intros y Hy. apply elem_of_seq.
    assert (y < brk sp)%nat; [|lia]. apply Hlt. change (y ∈ l1 ++ (x :: sub) ++ l2). rewrite !elem_of_app. tauto.
Qed.
End descendants.

(** ** Which nodes lose rights *)

Lemma marked_self m mdb hit dem l : ∀ y, marked m true mdb hit dem y l = if dem then y :: l else [].
Proof. induction l as [|z l IH]; intros y; simpl; [by destruct dem|]. rewrite IH. by destruct dem. Qed.

(** [marked] behind its first node. *)
Definition mtail (m : memory) (mdb : obj) (hit : obj → bool) (dem : bool) (l : list obj) : list obj :=
  match l with
  | [] => []
  | z :: l => marked m false mdb hit (if bool_decide (prnt (m z) = Some mdb) then hit z else dem) z l
  end.

Lemma marked_flat m mdb hit dem rest : ∀ l y, (∀ z, z ∈ l → ¬ child m mdb z) →
  marked m false mdb hit dem y (l ++ rest) = (if dem then y :: l else []) ++ mtail m mdb hit dem rest.
Proof.
  induction l as [|z l IH]; intros y Hl; [simpl; by destruct dem, rest|]. simpl.
  rewrite bool_decide_eq_false_2 by (apply Hl; left). rewrite IH by (intros; apply Hl; by right).
  by destruct dem.
Qed.

Lemma mtail_spec sp L R1 l1 mdb sub l2 R2 hit :
  system sp L (R1 ++ (l1 ++ mdb :: sub ++ l2) :: R2) → subtree (mem sp) mdb sub l2 →
  ∀ n l pre dem, (length l < n)%nat → sub = pre ++ l → (∀ c, hd_error l = Some c → child (mem sp) mdb c) →
  ∀ z, z ∈ mtail (mem sp) mdb hit dem l ↔
    z ∈ l ∧ ∃ c, child (mem sp) mdb c ∧ hit c = true ∧ descends (mem sp) c z.
Proof.
  intros HY Ht. set (r := l1 ++ mdb :: sub ++ l2) in *. set (R := R1 ++ r :: R2) in *.
  assert (r ∈ R) as Hr by (apply elem_of_app; right; left).
  destruct (segment_ring _ _ _ _ _ HY) as [_ Hd]. pose proof (sy_rings _ _ _ HY) as HR.
  destruct (rings_nodup_mid _ _ _ _ HR) as [HN _].
  assert (∀ h k, r = h :: k → prnt ((mem sp) h) = None) as Hroot.
  { intros h k Ek. apply (rv_root _ _ HR h k). rewrite <-Ek. done. }
  assert (∀ y, y ∈ mdb :: sub → y ∈ r) as Hsub.
  { intros y Hy. change (y ∈ l1 ++ (mdb :: sub) ++ l2). rewrite !elem_of_app. tauto. }
  assert (∀ y, y ∈ r → y ∈ mjoin R) as Hpres by (intros y Hy; apply list_elem_of_join; eauto).
  induction n as [n IH] using lt_wf_ind. intros l pre dem Hn Esub Hhd z.
  destruct l as [|c l].
  { simpl. split; [by intros ?%not_elem_of_nil|by intros [?%not_elem_of_nil _]]. }
  pose proof (Hhd c eq_refl) as Hc. simpl in Hn.
  assert (c ∈ sub) as Hcs by (rewrite Esub; apply elem_of_app; right; left).
  destruct (present_parent sp L R HY r c mdb Hr) as [_ Hdc]; [apply Hsub; by right|done|].
  destruct (subtree_split (mem sp) c l) as (s1 & rest & -> & Hdeep & Hend).
  assert (∀ y, y ∈ s1 → ¬ child (mem sp) mdb y) as Hflat.
  { intros y Hy Hcy. specialize (Hdeep y Hy).
    destruct (present_parent sp L R HY r y mdb Hr) as [_ Hdy]; [|done|lia].
    apply Hsub. right. rewrite Esub, elem_of_app, elem_of_cons, elem_of_app. tauto. }
  assert (r = (l1 ++ mdb :: pre) ++ c :: s1 ++ rest ++ l2) as Er.
  { unfold r. rewrite Esub. rewrite <-!app_assoc. simpl. by rewrite <-!app_assoc. }
  assert (subtree (mem sp) c s1 (rest ++ l2)) as Htc.
  { split; [done|]. intros y. destruct rest as [|h rest]; [|by apply Hend].
    simpl. intros Hy. destruct Ht as [_ He]. specialize (He y Hy). lia. }
  assert (∀ y, y ∈ r → descends (mem sp) c y ↔ y ∈ c :: s1) as Hdesc.
  { intros y Hy. rewrite Er in Hy, Hd, HN. rewrite Er in Hroot.
    by apply (subtree_descends (mem sp) (l1 ++ mdb :: pre) c s1 (rest ++ l2)). }
  simpl. unfold child in Hc. rewrite Hc, bool_decide_eq_true_2 by done. rewrite marked_flat by done.
  assert (∀ h, hd_error rest = Some h → child (mem sp) mdb h) as Hrest.
  { intros h Hh. destruct rest as [|h' rest]; [done|]. simpl in Hh. injection Hh as ->.
    assert (h ∈ sub) as Hhs by (rewrite Esub, elem_of_app, elem_of_cons, elem_of_app, elem_of_cons; tauto).
    destruct (subtree_parent (mem sp) l1 mdb sub l2 Hd HN Ht Hroot h Hhs) as (p & Hp & [->|Hps]%elem_of_cons); [done|].
    exfalso. destruct (present_parent sp L R HY r h p Hr) as [_ Hdh]; [apply Hsub; by right|done|].
    pose proof (proj1 Ht p Hps). specialize (Hend h eq_refl). lia. }
  rewrite elem_of_app. rewrite (IH (S (length rest))) with (pre := pre ++ c :: s1);
    [|rewrite length_app in Hn; lia|lia|by rewrite Esub, <-app_assoc|done].
  assert (∀ y, y ∈ c :: s1 ++ rest → y ∈ r) as Hin.
  { intros y Hy. apply Hsub. right. rewrite Esub, elem_of_app. tauto. }
  assert (z ∈ (if hit c then c :: s1 else []) ↔ z ∈ c :: s1 ∧ hit c = true) as ->.
  { destruct (hit c); [tauto|]. split; [by intros ?%not_elem_of_nil|by intros [_ ?]]. }
  assert (z ∈ c :: s1 ++ rest ↔ z ∈ c :: s1 ∨ z ∈ rest) as Hz' by (rewrite !elem_of_cons, elem_of_app; tauto).
  split.
  - intros [[Hz Hh]|[Hz Hx]]; [|tauto]. split; [tauto|].
    exists c. split_and!; [done|done|]. apply Hdesc; [apply Hin; tauto|done].
  - intros [Hz (c' & Hc' & Hh & Hdz)].
    destruct (decide (z ∈ rest)) as [Hzr|Hzr]; [right; eauto|left].
    assert (z ∈ c :: s1) as Hzs by tauto. split; [done|].
    assert (z ∈ r) as Hzr' by (apply Hin; tauto).
    rewrite <-(one_child sp L R HY mdb c' c z); [done|by apply Hpres|done|done|done|by apply Hdesc].
Qed.

(** ** One node *)
Section one_node.
Context {E : Type} `{PdEnv E}.
Implicit Type w : world E.

(** [y] loses rights when the window [(b, o)] of [mdb] is revoked. *)
Definition struck (m : memory) (self : bool) (mdb : obj) (b o : Z) (y : obj) : Prop :=
  if self then hits m mdb b o mdb = true ∧ descends m mdb y
  else ∃ c, child m mdb c ∧ hits m mdb b o c = true ∧ descends m c y.

(** From [w] to [w'] nodes in [P] lose the rights [a]; nodes in [Q] without
    rights may leave their spaces; nothing else changes but links. *)
Record stripped (a : Z) (P Q : obj → Prop) (w w' : world E) (L L' : nat → list obj) : Prop := {
  st_node y : ∃ v, kept (set_attr v (node_of w y)) (node_of w' y) ∧
    (v = node_attr (node_of w y) ∨ v = Z.land (node_attr (node_of w y)) (wnot a) ∧ P y);
  st_struck y : P y → Z.land (node_attr (node_of w' y)) a = 0;
  st_clear y : Z.land (node_attr (node_of w y)) a = 0 → node_attr (node_of w' y) = node_attr (node_of w y);
  st_sub s y : y ∈ L' s → y ∈ L s;
  st_gone s y : y ∈ L s → y ∉ L' s → Q y ∧ node_attr (node_of w' y) = 0;
  st_preemption : preemption w' = preemption w;
  st_brk : brk (sps w') = brk (sps w);
}.

Lemma has_space sp L R x : system sp L R → x ∈ mjoin R →
  (∀ l, x :: l ∉ R) → space (mem sp x) ≠ None.
Proof.
  intros HY (s & Hs)%(sy_in _ _ _ HY) Hx. destruct (sy_home _ _ _ HY s x Hs) as [->|[_ [l Hl]]]; [done|].
  by destruct (Hx l).
Qed.

Lemma marked_struck sp L R1 l1 mdb sub l2 R2 self b o :
  system sp L (R1 ++ (l1 ++ mdb :: sub ++ l2) :: R2) → subtree (mem sp) mdb sub l2 →
  (∀ y, y ∈ mjoin (R1 ++ (l1 ++ mdb :: sub ++ l2) :: R2) → descends (mem sp) mdb y ↔ y ∈ mdb :: sub) →
  let hit := hits (mem sp) mdb b o in
  ∀ y, y ∈ marked (mem sp) self mdb hit (self && hit mdb) mdb sub ↔
    y ∈ mdb :: sub ∧ struck (mem sp) self mdb b o y.
Proof.
  intros HY Ht Hd hit y.
  assert (∀ z, z ∈ mdb :: sub → z ∈ l1 ++ mdb :: sub ++ l2) as Hr.
  { intros z Hz. change (z ∈ l1 ++ (mdb :: sub) ++ l2). rewrite !elem_of_app. tauto. }
  assert (∀ z, z ∈ mdb :: sub → z ∈ mjoin (R1 ++ (l1 ++ mdb :: sub ++ l2) :: R2)) as Hpres.
  { intros z Hz. apply join_mid. left. by apply Hr. }
  destruct self; simpl.
  - rewrite marked_self. change (hits (mem sp) mdb b o mdb) with (hit mdb). destruct (hit mdb).
    + split; [|tauto]. intros Hy. split; [done|]. split; [done|]. by apply Hd; [apply Hpres|].
    + split; [by intros ?%not_elem_of_nil|by intros [_ [? _]]].
  - assert (marked (mem sp) false mdb hit false mdb sub = mtail (mem sp) mdb hit false sub) as ->.
    { apply (marked_flat (mem sp) mdb hit false sub []). intros z Hz. by apply not_elem_of_nil in Hz. }
    rewrite (mtail_spec sp L R1 l1 mdb sub l2 R2 hit HY Ht (S (length sub)) sub []); [|lia|done|].
    + split; [intros [Hy Hc]; split; [by right|done]|]. intros [Hy Hc]. apply elem_of_cons in Hy as [->|Hy]; [|done]. exfalso.
      destruct Hc as (c & Hc & _ & Hdc).
      assert (l1 ++ mdb :: sub ++ l2 ∈ R1 ++ (l1 ++ mdb :: sub ++ l2) :: R2) as Hin by (apply elem_of_app; right; left).
      destruct (present_up _ _ _ HY _ c mdb Hin) as [Hcr Hle]; [apply Hr; left|done|].
      destruct (present_parent _ _ _ HY _ c mdb Hin Hcr Hc). lia.
    + intros c Hc. destruct sub as [|c' sub]; [done|]. simpl in Hc. injection Hc as ->.
      destruct (segment_ring _ _ _ _ _ HY) as [_ Hder]. pose proof (sy_rings _ _ _ HY) as HR.
      destruct (rings_nodup_mid _ _ _ _ HR) as [HN _].
      destruct (Hder (l1 ++ [mdb]) c (sub ++ l2)) as (p & k1 & k2 & El & Hp & Hdp & Hk);
        [by rewrite <-app_assoc|by destruct l1|].
      assert (∀ h k, l1 ++ mdb :: (c :: sub) ++ l2 = h :: k → prnt (mem sp h) = None) as Hroot.
      { intros h k Ek. apply (rv_root _ _ HR h k). rewrite <-Ek. apply elem_of_app. right. left. }
      destruct (subtree_parent (mem sp) l1 mdb (c :: sub) l2 Hder HN Ht Hroot c ltac:(left)) as (p' & Hp' & Hin).
      rewrite Hp in Hp'. injection Hp' as <-. apply elem_of_cons in Hin as [->|Hin]; [done|]. exfalso.
      apply list.NoDup_app in HN as (_ & HN & HN2).
      assert (p ∈ l1 ++ [mdb]) as Hpl by (rewrite El; apply elem_of_app; right; left).
      apply elem_of_app in Hpl as [Hpl| ->%list_elem_of_singleton].
      * apply (HN p Hpl). right. change (p ∈ (c :: sub) ++ l2). apply elem_of_app. by left.
      * apply list.NoDup_cons in HN2 as [HN2 _]. apply HN2. change (mdb ∈ (c :: sub) ++ l2). apply elem_of_app. by left.
Qed.

Lemma segment_spaces sp L R mdb sub :
  system sp L R → (∀ y, y ∈ mdb :: sub → y ∈ mjoin R) →
  (∀ y, y ∈ mjoin R → descends (mem sp) mdb y ↔ y ∈ mdb :: sub) → NoDup (mdb :: sub) →
  space (mem sp mdb) ≠ None → ∀ y, y ∈ mdb :: sub → space (mem sp y) ≠ None.
Proof.
  intros HY Hpres Hdesc [HN _]%list.NoDup_cons Hsp y [->|Hy]%elem_of_cons; [done|].
  assert (y ∈ mjoin R) as Hyr by (apply Hpres; by right). apply (has_space _ _ _ _ HY); [done|].
  intros l Hl. pose proof (rv_root _ _ (sy_rings _ _ _ HY) y l Hl) as Hroot.
  assert (descends (mem sp) mdb y) as [->|(p & _ & Hp)]%rtc_inv_r by (apply Hdesc; [done|by right]); [done|].
  unfold child in Hp. congruence.
Qed.

(** The two walks together: rights go first, then nodes. *)
Lemma demoted_swept attr D w w1 w2 m1 L L2 seg keep (P : obj → Prop) :
  sps w1 = set_mem m1 (sps w) → demoted attr D (mem (sps w)) m1 → (∀ y, y ∈ D ↔ P y) →
  swept w1 w2 L L2 seg keep → ∀ y, ∃ v, kept (set_attr v (node_of w y)) (node_of w2 y) ∧
    (v = node_attr (node_of w y) ∨ v = Z.land (node_attr (node_of w y)) (wnot attr) ∧ P y) ∧
    (P y → Z.land v attr = 0) ∧ (Z.land (node_attr (node_of w y)) attr = 0 → v = node_attr (node_of w y)).
Proof.
  intros S1 D1 HD [K _ _ _ _ _] y. destruct (D1 y) as (v & Ev & Hout & Hv & Hin). exists v.
  assert (node_of w1 y = set_attr v (node_of w y)) as E1 by (unfold node_of; rewrite S1; exact Ev).
  rewrite <-E1, <-HD. split; [apply K|]. split; [|split; [done|]].
  - destruct (decide (y ∈ D)); [|left; by apply Hout]. destruct Hv as [|[? _]]; auto.
  - intros Hz. by destruct Hv as [|[_ Hn]].
Qed.

Lemma revoke_one_run t this attr self w L R mdb b o :
  system (sps w) L R → mdb ∈ mjoin R → space (node_of w mdb) ≠ None → word 64 attr → o < 64 →
  let m := mem (sps w) in
  ∃ w' L' R', revoke_one t this attr self mdb b o w = Some w' ∧ system (sps w') L' R' ∧
    stripped attr (λ y, y ∈ mjoin R ∧ struck m self mdb b o y) (λ y, y ∈ mjoin R ∧ descends m mdb y) w w' L L' ∧
    (∀ y, y ∈ mjoin R → descends m mdb y →
       (∀ z, z ∈ mjoin R → descends m y z → node_attr (node_of w' z) = 0) → ∀ s, y ∉ L' s).
Proof.
  intros HY Hmdb Hsp HA Ho m.
  destruct (present_subtree _ _ _ HY mdb Hmdb) as (R1 & l1 & sub & l2 & R2 & ER & Ht & Hdesc & Hend & HN & Hlen).
  rewrite ER in HY, Hmdb, Hdesc. set (R' := R1 ++ (l1 ++ mdb :: sub ++ l2) :: R2) in *.
  assert (∀ y, y ∈ mdb :: sub → y ∈ mjoin R') as Hpres.
  { intros y Hy. apply join_mid. left. change (y ∈ l1 ++ (mdb :: sub) ++ l2). rewrite !elem_of_app. tauto. }
  pose proof (segment_spaces _ _ _ _ _ HY Hpres Hdesc HN Hsp) as Hspaces.
  destruct (segment_in _ _ _ _ _ mdb HY) as [s0 Hs0]; [apply elem_of_app; right; left|].
  destruct (sy_ok _ _ _ HY s0 mdb Hs0) as (Hoo & _).
  unfold revoke_one. rewrite (maps_part_run w mdb b o mdb) by done.
  change (hits (mem (sps w)) mdb b o mdb) with (hits m mdb b o mdb).
  assert ((if self then Some (hits m mdb b o mdb) else Some false) = Some (self && hits m mdb b o mdb)) as -> by by destruct self.
  cbn [mbind option_bind].
  destruct (demote_loop_run t this attr self mdb (dpth (node_of w mdb)) b o HA Ho L R1 l2 R2 sub
    (ring_fuel w) mdb l1 (self && hits m mdb b o mdb) w HY) as (w1 & m1 & -> & S1 & P1 & D1);
    [apply Ht|exact Hend|done|unfold ring_fuel; lia|]. cbn [mbind option_bind].
  pose proof (demoted_attr_only _ _ _ _ D1) as A1.
  assert (∀ y, ∃ v, node_of w1 y = set_attr v (node_of w y)) as An
    by (intros y; unfold node_of; rewrite S1; simpl; apply A1).
  destruct (remove_loop_run (dpth (node_of w mdb)) l1 l2 R1 R2 mdb sub (ring_fuel w1) [] w1 L (preemption w1))
    as (w2 & L2 & keep & -> & HY2 & SW & Hall).
  { rewrite S1. by apply system_attr. }
  { by destruct (An mdb) as [v ->]. }
  { rewrite app_nil_r. destruct Ht as [Hs He]. split; intros y Hy; destruct (An y) as [v Ey], (An mdb) as [v' Em];
      unfold node_of in *; rewrite Ey, Em; simpl; [by apply Hs|by apply He]. }
  { intros y Hy. destruct (An y) as [v ->]. by apply Hspaces. }
  { done. }
  { unfold ring_fuel. rewrite S1. simpl. lia. }
  cbn [mbind option_bind]. rewrite bool_decide_eq_true_2 by done. pose proof SW as [K N P G Pe B].
  assert (∀ y, y ∈ marked m self mdb (hits m mdb b o) (self && hits m mdb b o mdb) mdb sub ↔
    y ∈ mjoin R' ∧ struck m self mdb b o y) as Hmark.
  { intros y. unfold m. rewrite (marked_struck (sps w) L R1 l1 mdb sub l2 R2 self b o HY Ht Hdesc y). fold R'.
    split; [intros [Hy Hst]; split; [by apply Hpres|done]|]. intros [Hy Hst]. split; [|done].
    apply Hdesc; [done|]. destruct self; [apply Hst|]. destruct Hst as (c & Hc & _ & Hcy).
    by apply rtc_l with c. }
  exists w2, L2, (R1 ++ (l1 ++ keep ++ [] ++ l2) :: R2). split; [done|]. split; [done|].
  change (marked _ _ _ _ _ _ _) with (marked m self mdb (hits m mdb b o) (self && hits m mdb b o mdb) mdb sub) in D1.
  pose proof (demoted_swept _ _ _ _ _ _ _ _ _ _ _ S1 D1 Hmark SW) as Hnode.
  rewrite ER. fold R'. split.
  - split.
    + intros y. destruct (Hnode y) as (v & ? & ? & _). by exists v.
    + intros y Hy. destruct (Hnode y) as (v & (_ & _ & _ & _ & _ & _ & -> & _) & _ & Hv & _). by apply Hv.
    + intros y Hy. destruct (Hnode y) as (v & (_ & _ & _ & _ & _ & _ & -> & _) & _ & _ & Hv). by apply Hv.
    + intros s y Hy. by apply N in Hy as [? _].
    + intros s y Hy Hn. destruct (decide (y ∈ mdb :: sub)) as [Hys|]; [|destruct Hn; apply N; tauto].
      assert (y ∉ keep) as Hk by (intros Hk; apply Hn, N; tauto). split.
      * split; [by apply Hpres|]. apply Hdesc; [by apply Hpres|done].
      * destruct (K y) as (_ & _ & _ & _ & _ & _ & -> & _). by apply G.
    + congruence.
    + rewrite B, S1. done.
  - intros y Hyr Hdy Hz s [Hin Hk]%N.
    assert (y ∈ keep) as Hkeep by (destruct Hk as [Hk|]; [destruct Hk; by apply Hdesc|done]).
    specialize (Hall (needed_nil _)). rewrite app_nil_r in Hall.
    destruct (Hall y Hkeep) as (z & Hzk & Hyz & Hza). destruct Hza. change (node_attr (node_of w1 z) = 0).
    destruct (K z) as (_ & _ & _ & _ & _ & _ & <- & _). apply Hz; [by apply Hpres, P|].
    clear - Hyz An. induction Hyz as [|a b c Hab _ IH]; [reflexivity|]. apply rtc_l with b; [|done].
    unfold child, m, node_of in *. by destruct (An b) as [v Eb]; rewrite Eb in Hab.
Qed.

(** ** The loop over the nodes in the window *)

(** [x] has an address in the window. *)
Definition overlaps (m : memory) (base ord : Z) (x : obj) : Prop :=
  ∃ q, region m x q ∧ in_block base ord q.

(** What revoking the window from [x] takes rights from: with [self] from [x] and
    all that is derived from it, otherwise from what is derived for the window,
    that is from every child whose resource shares an address with that of the
    part of [x] in the window, and from all that is derived from that child. *)
Definition revoked (self : bool) (m : memory) (base ord : Z) (x y : obj) : Prop :=
  if self then overlaps m base ord x ∧ descends m x y
  else ∃ c q, child m x c ∧ region m x q ∧ in_block base ord q ∧
         in_block (node_phys (m c)) (node_order (m c)) (q - node_base (m x) + node_phys (m x)) ∧
         descends m c y.

Lemma revoked_descends self m base ord x y :
  revoked self m base ord x y → overlaps m base ord x ∧ descends m x y.
Proof.
  destruct self; [done|]. intros (c & q & Hc & Hq & Hb & _ & Hd). split; [by exists q|]. by apply rtc_l with c.
Qed.

Lemma revoked_below self m base ord x y z :
  revoked self m base ord x y → descends m y z → revoked self m base ord x z.
Proof.
  destruct self; simpl; [intros [? ?]; split; [done|by etransitivity]|].
  intros (c & q & H1 & H2 & H3 & H4 & H5) Hz. exists c, q. split_and!; try done. by etransitivity.
Qed.

Lemma hits_overlap m x b o c :
  node_ok (m c) → aligned (node_base (m x)) o → aligned (node_phys (m x)) o → aligned b o →
  0 ≤ node_base (m x) ≤ b → 0 ≤ node_phys (m x) → b - node_base (m x) + node_phys (m x) < 2 ^ 64 →
  hits m x b o c = true ↔
    ∃ q, in_block (node_phys (m c)) (node_order (m c)) q ∧ in_block (b - node_base (m x) + node_phys (m x)) o q.
Proof.
  intros (Hoc & _ & _ & Hpc & _ & Hal) [Ho Hbx] [_ Hpx] [_ Hb] Hle Hp Hmax. unfold hits.
  rewrite (wsub_small b (node_base (m x))) by lia. rewrite wadd_small by lia.
  set (p := b - node_base (m x) + node_phys (m x)) in *.
  destruct (clamp_run (node_phys (m c)) p (node_order (m c)) o) as ([o' b'] & -> & Hcl); [done|lia|done| |].
  { split; [done|]. unfold p. by rewrite Zplus_mod, Zminus_mod, Hb, Hbx, Hpx. }
  destruct Hcl as [[-> Hno]|(-> & Hb0 & Hbal & Hq)].
  - rewrite Z.eqb_refl. split; [done|]. intros (q & H1 & H2). by destruct (Hno q H1).
  - destruct (Z.eqb_spec (Z.min (node_order (m c)) o) ones64) as [He|_]; [unfold ones64 in He; lia|].
    split; [|done]. intros _. exists b'. apply Hq, in_block_self. lia.
Qed.

(** For a node that was found, the part [(b, o)] is its intersection with the
    window. *)
Lemma struck_revoked sp L R s self base ord x b o y :
  system sp L R → x ∈ L s → aligned b o → o = Z.min (node_order (mem sp x)) ord → 0 ≤ b →
  (∀ q, in_block b o q ↔ in_block (node_base (mem sp x)) (node_order (mem sp x)) q ∧ in_block base ord q) →
  y ∈ mjoin R → struck (mem sp) self x b o y ↔ revoked self (mem sp) base ord x y.
Proof.
  intros HY Hx Hal Ho Hb0 Hq Hy.
  destruct (sy_ok _ _ _ HY s x Hx) as (Hox & Hbx & Hbmax & Hpx & Hpmax & Hpal).
  destruct (si_wf _ _ _ (sv_space _ _ (sy_spaces _ _ _ HY) s) x Hx) as [_ Hbal]. pose proof Hal as [Ho' _].
  assert (in_block b o b) as Hbb by (apply in_block_self; lia).
  pose proof (proj1 (Hq b) Hbb) as [Hbin _]. unfold in_block in Hbin.
  assert (∀ c, node_ok (mem sp c) → hits (mem sp) x b o c = true ↔
    ∃ q, in_block (node_phys (mem sp c)) (node_order (mem sp c)) q ∧ in_block (b - node_base (mem sp x) + node_phys (mem sp x)) o q) as Hhit.
  { intros c Hc. apply hits_overlap; try lia; [done|..|done]; (split; [done|]; (eapply mod_pow2_le; [|eassumption]); lia). }
  unfold struck, revoked. destruct self.
  - rewrite Hhit by (by apply (sy_ok _ _ _ HY s)). split; intros [Hh Hd]; (split; [|done]).
    + exists b. by apply Hq.
    + exists (b - node_base (mem sp x) + node_phys (mem sp x)). split; [unfold in_block; lia|apply in_block_self; lia].
  - split.
    + intros (c & Hc & Hh & Hd).
      destruct (proj1 (sy_in _ _ _ HY c)) as [s' Hs']; [by apply (present_above _ _ _ HY c y)|].
      apply Hhit in Hh as (q & Hqc & Hqp); [|by apply (sy_ok _ _ _ HY s')].
      exists c, (q - node_phys (mem sp x) + node_base (mem sp x)).
      assert (in_block b o (q - node_phys (mem sp x) + node_base (mem sp x))) as [H1 H2]%Hq by (unfold in_block in *; lia).
      split_and!; [done|exact H1|done| |done]. by replace (_ - _ + _) with q by lia.
    + intros (c & q & Hc & Hqx & Hqw & Hqc & Hd).
      destruct (proj1 (sy_in _ _ _ HY c)) as [s' Hs']; [by apply (present_above _ _ _ HY c y)|].
      exists c. split_and!; [done| |done]. apply Hhit; [by apply (sy_ok _ _ _ HY s')|].
      eexists. split; [exact Hqc|]. assert (in_block b o q) as Hin by (apply Hq; by split).
      unfold in_block in *. lia.
Qed.

(** How far a revocation has come: [w0] with [L0] and [R0] is the state before,
    [w] with [L] the state when the nodes that end at or below [addr] are done. *)
Record progress (a : Z) (self : bool) (base ord : Z) (s : nat) (w0 : world E) (L0 : nat → list obj)
    (R0 : list (list obj)) (w : world E) (L : nat → list obj) (R : list (list obj)) (addr : Z) : Prop := {
  pg_sys : system (sps w) L R;
  pg_node y : ∃ v, kept (set_attr v (node_of w0 y)) (node_of w y) ∧
    (v = node_attr (node_of w0 y) ∨
     v = Z.land (node_attr (node_of w0 y)) (wnot a) ∧ ∃ x, x ∈ L0 s ∧ revoked self (mem (sps w0)) base ord x y);
  pg_sub s' y : y ∈ L s' → y ∈ L0 s';
  pg_gone s' y : y ∈ L0 s' → y ∉ L s' → node_attr (node_of w y) = 0 ∧
    ∃ x, x ∈ L0 s ∧ overlaps (mem (sps w0)) base ord x ∧ descends (mem (sps w0)) x y;
  pg_done x y : x ∈ L0 s → top (node_of w0 x) ≤ addr → y ∈ mjoin R0 →
    revoked self (mem (sps w0)) base ord x y → Z.land (node_attr (node_of w y)) a = 0;
  pg_bare x y : x ∈ L0 s → top (node_of w0 x) ≤ addr → y ∈ mjoin R0 → revoked self (mem (sps w0)) base ord x y →
    (∀ z, z ∈ mjoin R0 → descends (mem (sps w0)) y z → node_attr (node_of w z) = 0) → ∀ s', y ∉ L s';
  pg_preemption : preemption w = preemption w0;
  pg_brk : brk (sps w) = brk (sps w0);
}.

Lemma no_overlap m base ord x : top (m x) ≤ base → ¬ overlaps m base ord x.
Proof. intros Ht (q & Hq & Hb). unfold region, in_block, top in *. lia. Qed.

Lemma progress_init a self base ord s w L R :
  system (sps w) L R → progress a self base ord s w L R w L R base.
Proof.
  intros HY. split; try done.
  - intros y. exists (node_attr (node_of w y)). rewrite set_attr_id. split; [apply kept_refl|by left].
  - intros x y _ Ht _ [Ho _]%revoked_descends. by apply no_overlap in Ho.
  - intros x y _ Ht _ [Ho _]%revoked_descends. by apply no_overlap in Ho.
Qed.

Section progress_facts.
Context (a : Z) (self : bool) (base ord : Z) (s : nat) (w0 : world E) (L0 : nat → list obj) (R0 : list (list obj)).
Context (w : world E) (L : nat → list obj) (R : list (list obj)) (addr : Z).
Hypothesis Y0 : system (sps w0) L0 R0.
Hypothesis P : progress a self base ord s w0 L0 R0 w L R addr.

Lemma progress_same y :
  prnt (node_of w y) = prnt (node_of w0 y) ∧ node_base (node_of w y) = node_base (node_of w0 y) ∧
  node_order (node_of w y) = node_order (node_of w0 y) ∧ node_phys (node_of w y) = node_phys (node_of w0 y) ∧
  space (node_of w y) = space (node_of w0 y).
Proof. destruct (pg_node _ _ _ _ _ _ _ _ _ _ _ _ P y) as (v & (_ & -> & -> & -> & -> & -> & _) & _). done. Qed.

Lemma progress_descends x y : descends (mem (sps w)) x y ↔ descends (mem (sps w0)) x y.
Proof.
  split; intros Hd; (induction Hd as [|x z y Hxz _ IH]; [reflexivity|]);
    (apply rtc_l with z; [|done]); unfold child in *; destruct (progress_same z) as [Hp _]; unfold node_of in Hp; congruence.
Qed.

Lemma progress_overlaps x : overlaps (mem (sps w)) base ord x ↔ overlaps (mem (sps w0)) base ord x.
Proof.
  unfold overlaps, region. destruct (progress_same x) as (_ & Hb & Ho & _). unfold node_of in *. by rewrite Hb, Ho.
Qed.

Lemma progress_revoked x y : revoked self (mem (sps w)) base ord x y ↔ revoked self (mem (sps w0)) base ord x y.
Proof.
  pose proof progress_overlaps as HO. pose proof progress_descends as HD. pose proof progress_same as HS. clear P.
  unfold revoked. destruct self; [by rewrite HO, HD|]. setoid_rewrite HD. unfold child, region.
  destruct (HS x) as (_ & Hb & Ho & Hp & _). unfold node_of in *. rewrite Hb, Ho, Hp.
  split; intros (c & q & H1 & H2 & H3 & H4 & H5); exists c, q;
    destruct (HS c) as (Kc & _ & Koc & Kpc & _); unfold node_of in *; rewrite Kc, Koc, Kpc in *; done.
Qed.

(** What derives from a node that is gone is gone as well. *)
Lemma progress_gone x y : x ∈ L0 s → x ∉ L s → descends (mem (sps w0)) x y → ∀ s', y ∉ L s'.
Proof.
  intros Hx Hn Hd s' Hy. pose proof P as [HY _ HS _ _ _ _ _].
  assert (x ∈ mjoin R) as (s2 & Hx2)%(sy_in _ _ _ HY).
  { apply (present_above _ _ _ HY x y); [apply (sy_in _ _ _ HY); eauto|by apply progress_descends]. }
  apply Hn. by rewrite (sv_disj _ _ (sy_spaces _ _ _ Y0) s s2 x Hx (HS _ _ Hx2)).
Qed.

Lemma absent_bare y : y ∈ mjoin R0 → (∀ s', y ∉ L s') → node_attr (node_of w y) = 0.
Proof.
  intros (s' & Hs')%(sy_in _ _ _ Y0) Hn. by destruct (pg_gone _ _ _ _ _ _ _ _ _ _ _ _ P s' y Hs' (Hn s')).
Qed.

(** Nodes that are gone or do not overlap the window need no step. *)
Lemma progress_skip addr' :
  addr ≤ addr' → (∀ x, x ∈ L0 s → addr < top (node_of w0 x) ≤ addr' → x ∉ L s ∨ ¬ overlaps (mem (sps w0)) base ord x) →
  progress a self base ord s w0 L0 R0 w L R addr'.
Proof.
  intros Hle Hskip. split; try apply P.
  - intros x y Hx Ht Hy Hr. destruct (Z.le_gt_cases (top (node_of w0 x)) addr) as [|Hgt].
    { by apply (pg_done _ _ _ _ _ _ _ _ _ _ _ _ P x). }
    pose proof (revoked_descends _ _ _ _ _ _ Hr) as [Ho Hd].
    destruct (Hskip x Hx) as [Hn|Hn]; [lia| |done].
    rewrite absent_bare; [done|done|]. by apply (progress_gone x).
  - intros x y Hx Ht Hy Hr Hall. destruct (Z.le_gt_cases (top (node_of w0 x)) addr) as [|Hgt].
    { by apply (pg_bare _ _ _ _ _ _ _ _ _ _ _ _ P x). }
    pose proof (revoked_descends _ _ _ _ _ _ Hr) as [Ho Hd].
    destruct (Hskip x Hx) as [Hn|Hn]; [lia| |done]. by apply (progress_gone x).
Qed.
End progress_facts.

Lemma land_subset v a : word 64 a → v = Z.land v a → Z.land v (wnot a) = 0.
Proof.
  intros Ha ->. apply Z.bits_inj'. intros i Hi. rewrite !Z.land_spec, wnot_bits, Z.bits_0 by done.
  destruct (Z.testbit a i); [by rewrite !andb_false_r|]. by rewrite andb_false_r.
Qed.

(** Two nodes of a space that share an address are the same. *)
Lemma same_node sp L R s x y :
  system sp L R → x ∈ L s → y ∈ L s → node_base (mem sp x) ≤ node_base (mem sp y) →
  top (mem sp y) ≤ top (mem sp x) → y = x.
Proof.
  intros HY Hx Hy Hb Ht. pose proof (sv_space _ _ (sy_spaces _ _ _ HY) s) as HS.
  pose proof (pow2_pos (node_order (mem sp y)) ltac:(apply (si_wf _ _ _ HS y Hy))).
  apply (region_unique sp s (L s) y x (node_base (mem sp y))); try done; unfold region, top in *; lia.
Qed.

Section progress_step.
Context (a : Z) (self : bool) (base ord : Z) (s : nat) (w0 : world E) (L0 : nat → list obj) (R0 : list (list obj)).
Context (w : world E) (L : nat → list obj) (R : list (list obj)) (addr : Z).
Context (w' : world E) (L' : nat → list obj) (R' : list (list obj)) (x : obj).
Hypothesis HA : word 64 a.
Hypothesis Y0 : system (sps w0) L0 R0.
Hypothesis P : progress a self base ord s w0 L0 R0 w L R addr.
Hypothesis Y' : system (sps w') L' R'.
Hypothesis S : stripped a (λ y, y ∈ mjoin R ∧ revoked self (mem (sps w)) base ord x y)
                 (λ y, y ∈ mjoin R ∧ descends (mem (sps w)) x y) w w' L L'.
Hypothesis Hall : ∀ y, y ∈ mjoin R → descends (mem (sps w)) x y →
                  (∀ z, z ∈ mjoin R → descends (mem (sps w)) y z → node_attr (node_of w' z) = 0) → ∀ s', y ∉ L' s'.
Hypothesis Hx : x ∈ L s.
Hypothesis Hov : overlaps (mem (sps w)) base ord x.
Hypothesis Hmin : ∀ y, y ∈ L s → addr < top (node_of w y) → node_base (node_of w x) ≤ node_base (node_of w y).

Lemma step_attr y : node_attr (node_of w' y) = node_attr (node_of w y) ∨
  node_attr (node_of w' y) = Z.land (node_attr (node_of w y)) (wnot a).
Proof.
  destruct (st_node _ _ _ _ _ _ _ S y) as (v & (_ & _ & _ & _ & _ & _ & -> & _) & [->|[-> _]]); auto.
Qed.

Lemma step_stays_bare y : node_attr (node_of w y) = 0 → node_attr (node_of w' y) = 0.
Proof. intros Hz. destruct (step_attr y) as [->| ->]; rewrite Hz; [done|apply Z.land_0_l]. Qed.

Lemma step_stays_clear y : Z.land (node_attr (node_of w y)) a = 0 → Z.land (node_attr (node_of w' y)) a = 0.
Proof. intros Hz. destruct (step_attr y) as [->| ->]; [done|by apply land_clear]. Qed.

Lemma step_node y : ∃ v, kept (set_attr v (node_of w0 y)) (node_of w' y) ∧
  (v = node_attr (node_of w0 y) ∨
   v = Z.land (node_attr (node_of w0 y)) (wnot a) ∧ ∃ z, z ∈ L0 s ∧ revoked self (mem (sps w0)) base ord z y).
Proof.
  destruct (pg_node _ _ _ _ _ _ _ _ _ _ _ _ P y) as (v1 & K1 & V1).
  destruct (st_node _ _ _ _ _ _ _ S y) as (v2 & K2 & V2).
  assert (node_attr (node_of w y) = v1) as Ev by (by destruct K1 as (_ & _ & _ & _ & _ & _ & -> & _)).
  rewrite Ev in V2. exists v2. split.
  - unfold kept in *. simpl in *. intuition congruence.
  - destruct V2 as [->|[-> [_ Hr]]]; [done|]. right. split.
    + destruct V1 as [->|[-> _]]; [done|]. by rewrite <-Z.land_assoc, Z.land_diag.
    + exists x. split; [by apply (pg_sub _ _ _ _ _ _ _ _ _ _ _ _ P)|].
      by apply (progress_revoked _ _ _ _ _ _ _ _ _ _ _ _ P).
Qed.

(** The nodes of the space that end at or below the end of [x]. *)
Lemma step_cases z : z ∈ L0 s → top (node_of w0 z) ≤ top (node_of w0 x) →
  top (node_of w0 z) ≤ addr ∨ z ∉ L s ∨ z = x.
Proof.
  intros Hz Ht. destruct (Z.le_gt_cases (top (node_of w0 z)) addr) as [|Hgt]; [by left|right].
  destruct (decide (z ∈ L s)) as [Hin|]; [right|by left].
  assert (∀ y, top (node_of w y) = top (node_of w0 y)) as Htop.
  { intros y. unfold top. by destruct (progress_same _ _ _ _ _ _ _ _ _ _ _ _ P y) as (_ & -> & -> & _). }
  apply (same_node (sps w) L R s); [apply P|done|done| |].
  - apply Hmin; [done|]. rewrite Htop. lia.
  - unfold node_of in Htop. rewrite !Htop. done.
Qed.

Lemma progress_step : progress a self base ord s w0 L0 R0 w' L' R' (top (node_of w0 x)).
Proof.
  pose proof P as [HY HN HS HG HD HBare HP HB].
  assert (∀ y, y ∈ mjoin R0 → y ∉ mjoin R → node_attr (node_of w y) = 0) as Habs.
  { intros y Hy Hn. apply (absent_bare _ _ _ _ _ _ _ _ _ _ _ _ Y0 P y Hy). intros s' Hs'. apply Hn, (sy_in _ _ _ HY). eauto. }
  split; [done|apply step_node| | | | | |].
  - intros s' y Hy. apply HS. by apply (st_sub _ _ _ _ _ _ _ S).
  - intros s' y Hy Hn. destruct (decide (y ∈ L s')) as [Hin|Hout].
    + destruct (st_gone _ _ _ _ _ _ _ S s' y Hin Hn) as [[_ Hd] Hz]. split; [done|].
      exists x. split; [by apply HS|]. split; [by apply (progress_overlaps _ _ _ _ _ _ _ _ _ _ _ _ P)|].
      by apply (progress_descends _ _ _ _ _ _ _ _ _ _ _ _ P).
    + destruct (HG s' y Hy Hout) as [Hz Hd]. split; [by apply step_stays_bare|done].
  - intros z y Hz Ht Hy Hr. destruct (step_cases z Hz Ht) as [Hd|[Hn| ->]].
    + apply step_stays_clear. by apply (HD z).
    + rewrite step_stays_bare; [done|]. apply (absent_bare _ _ _ _ _ _ _ _ _ _ _ _ Y0 P y Hy).
      apply (progress_gone _ _ _ _ _ _ _ _ _ _ _ _ Y0 P z y Hz Hn). by apply revoked_descends in Hr as [_ ?].
    + destruct (decide (y ∈ mjoin R)) as [Hin|Hout]; [|by rewrite step_stays_bare; [|apply Habs]].
      apply (st_struck _ _ _ _ _ _ _ S). split; [done|]. by apply (progress_revoked _ _ _ _ _ _ _ _ _ _ _ _ P).
  - intros z y Hz Ht Hy Hr Hbare s' Hys'. pose proof (revoked_descends _ _ _ _ _ _ Hr) as [Ho Hd].
    assert (y ∈ L s') as Hys by by apply (st_sub _ _ _ _ _ _ _ S).
    destruct (step_cases z Hz Ht) as [Hle|[Hn| ->]].
    + apply (HBare z y Hz Hle Hy Hr) with (s' := s'); [|done]. intros k Hk Hyk.
      rewrite <-(st_clear _ _ _ _ _ _ _ S k); [by apply Hbare|]. apply (HD z k Hz Hle Hk). by apply (revoked_below _ _ _ _ _ y).
    + by apply (progress_gone _ _ _ _ _ _ _ _ _ _ _ _ Y0 P z y Hz Hn Hd s').
    + apply (Hall y) with (s' := s'); [apply (sy_in _ _ _ HY); eauto| | |done].
      * by apply (progress_descends _ _ _ _ _ _ _ _ _ _ _ _ P).
      * intros k Hk Hyk. apply Hbare; [|by apply (progress_descends _ _ _ _ _ _ _ _ _ _ _ _ P)].
        apply (sy_in _ _ _ HY) in Hk as (s2 & Hs2). apply (sy_in _ _ _ Y0). eauto.
  - rewrite (st_preemption _ _ _ _ _ _ _ S). done.
  - rewrite (st_brk _ _ _ _ _ _ _ S). done.
Qed.
End progress_step.

Lemma revoke_loop_run t this a self base ord w0 L0 R0 :
  word 64 a → 0 ≤ base → aligned base ord → system (sps w0) L0 R0 →
  let s := subspace this t in
  (∀ x, x ∈ L0 s → space (node_of w0 x) ≠ None) →
  ∀ fuel w L R addr, progress a self base ord s w0 L0 R0 w L R addr → base ≤ addr < 2 ^ 64 →
  (length (ahead (L0 s) (mem (sps w0)) addr) < fuel)%nat →
  ∃ w' L' R', revoke_loop t this a self fuel false base ord addr w = Some w' ∧
    progress a self base ord s w0 L0 R0 w' L' R' (2 ^ 64).
Proof.
  intros HA Hb0 Hal HY0 s Hspace. induction fuel as [|fuel IH]; intros w L R addr P Haddr Hf; [lia|].
  pose proof P as [HY _ HS _ _ _ _ _]. cbn [revoke_loop].
  assert (∀ y, top (node_of w y) = top (node_of w0 y)) as Htop.
  { intros y. unfold top. by destruct (progress_same _ _ _ _ _ _ _ _ _ _ _ _ P y) as (_ & -> & -> & _). }
  destruct (lookup_next _ _ _ (subspace this t) addr HY) as (r & -> & Hr). cbn [mbind option_bind]. fold s in Hr.
  destruct r as [x|].
  2: { exists w, L, R. split; [done|]. apply (progress_skip _ _ _ _ _ _ _ _ _ _ _ _ HY0 P); [lia|].
       intros y _ Hy. left. intros Hin. specialize (Hr y Hin). rewrite <-Htop in Hy. unfold node_of in *. lia. }
  destruct Hr as (Hx & Hlt & Hmin). destruct (sy_ok _ _ _ HY s x Hx) as (Hox & Hbx & Hbmax & _).
  destruct (si_wf _ _ _ (sv_space _ _ (sy_spaces _ _ _ HY) s) x Hx) as [_ Hbal].
  destruct (clamp_run (node_base (node_of w x)) base (node_order (node_of w x)) ord) as ([o b] & -> & Hc);
    [done|done|by split|done|]. cbn [mbind option_bind].
  destruct Hc as [[-> Hno]|(Ho & Hb & Hbal' & Hq)].
  { rewrite Z.eqb_refl. exists w, L, R. split; [done|]. apply (progress_skip _ _ _ _ _ _ _ _ _ _ _ _ HY0 P); [lia|].
    intros y _ Hy. destruct (decide (y ∈ L s)) as [Hin|]; [right|by left].
    rewrite <-(progress_overlaps _ _ _ _ _ _ _ _ _ _ _ _ P y). intros (q & Hqy & Hqw).
    assert (node_base (mem (sps w) x) ≤ node_base (mem (sps w) y)) as Hle
      by (apply Hmin; [done|]; rewrite <-Htop in Hy; unfold node_of in *; lia).
    apply (Hno (Z.max base (node_base (node_of w x)))); unfold in_block, region, top, node_of in *; lia. }
  destruct (Z.eqb_spec o ones64) as [He|_]; [pose proof (proj1 Hbal'); unfold ones64 in He; lia|]. cbn [andb].
  assert (overlaps (mem (sps w)) base ord x) as Hov by (exists b; apply Hq, in_block_self; apply Hbal').
  assert (x ∈ L0 s) as Hx0 by by apply HS.
  destruct (revoke_one_run t this a self w L R x b o HY) as (w' & L' & R' & E' & HY' & HSt & Hall);
    [apply (sy_in _ _ _ HY); eauto| |done|apply Hbal'|].
  { destruct (progress_same _ _ _ _ _ _ _ _ _ _ _ _ P x) as (_ & _ & _ & _ & ->). by apply Hspace. }
  rewrite E'. cbn [mbind option_bind].
  assert (wadd (node_base (node_of w x)) (wshl 1 (node_order (node_of w x))) = top (node_of w0 x)) as ->.
  { rewrite <-Htop. unfold top, node_of in *. rewrite wshl_1 by done. apply wadd_small.
    pose proof (pow2_pos (node_order (mem (sps w) x)) ltac:(lia)). lia. }
  assert (∀ y, y ∈ mjoin R → struck (mem (sps w)) self x b o y ↔ revoked self (mem (sps w)) base ord x y) as Hiff.
  { intros y Hy. by apply (struck_revoked (sps w) L R s). }
  apply (IH w' L' R').
  - apply (progress_step a self base ord s w0 L0 R0 w L R addr); try done.
    destruct HSt as [S1 S2 S3 S4 S5 S6 S7]. split; try done.
    + intros y. destruct (S1 y) as (v & Hk & Hv). exists v. split; [done|].
      destruct Hv as [?|(? & Hin & Hs)]; [by left|right]. by rewrite <-Hiff.
    + intros y [Hy Hs]. apply S2. by rewrite Hiff.
  - rewrite <-Htop. unfold top, node_of in *. pose proof (pow2_pos (node_order (mem (sps w) x)) ltac:(lia)). lia.
  - pose proof (ahead_less (L0 s) (mem (sps w0)) addr x Hx0) as Hless. unfold node_of in *. rewrite Htop in Hlt.
    specialize (Hless Hlt). lia.
Qed.

(** ** What a revocation achieves *)

Record revocation (a : Z) (self : bool) (base ord : Z) (s : nat) (w w' : world E) (L L' : nat → list obj)
    (R : list (list obj)) : Prop := {
  rc_struck x y : x ∈ L s → y ∈ mjoin R → revoked self (mem (sps w)) base ord x y →
    Z.land (node_attr (node_of w' y)) a = 0;
  rc_node y : ∃ v, kept (set_attr v (node_of w y)) (node_of w' y) ∧
    (v = node_attr (node_of w y) ∨
     v = Z.land (node_attr (node_of w y)) (wnot a) ∧ ∃ x, x ∈ L s ∧ revoked self (mem (sps w)) base ord x y);
  rc_sub s' y : y ∈ L' s' → y ∈ L s';
  rc_gone s' y : y ∈ L s' → y ∉ L' s' → node_attr (node_of w' y) = 0 ∧
    ∃ x, x ∈ L s ∧ overlaps (mem (sps w)) base ord x ∧ descends (mem (sps w)) x y;
  rc_bare x y : x ∈ L s → y ∈ mjoin R → revoked self (mem (sps w)) base ord x y →
    (∀ z, z ∈ mjoin R → descends (mem (sps w)) y z → node_attr (node_of w' z) = 0) → ∀ s', y ∉ L' s';
}.

Lemma progress_end a self base ord s w0 L0 R0 w L R :
  system (sps w0) L0 R0 → progress a self base ord s w0 L0 R0 w L R (2 ^ 64) →
  revocation a self base ord s w0 w L0 L R0.
Proof.
  intros HY [_ HN HS HG HD HA _ _].
  assert (∀ x, x ∈ L0 s → top (node_of w0 x) ≤ 2 ^ 64) as Htop.
  { intros x Hx. destruct (sy_ok _ _ _ HY s x Hx) as (_ & _ & Hm & _). unfold top, node_of. lia. }
  split; try done.
  - intros x y Hx. apply HD; auto.
  - intros x y Hx Hy Hr. apply (HA x); auto.
Qed.

Lemma revoke_run t this fuel base ord a self w L R :
  system (sps w) L R → word 64 a → word 64 base → aligned base ord →
  (∀ x, x ∈ L (subspace this t) → space (node_of w x) ≠ None) →
  (length (L (subspace this t)) < fuel)%nat →
  ∃ w' L' R', revoke t this fuel base ord a self false w = Some w' ∧ system (sps w') L' R' ∧
    revocation a self base ord (subspace this t) w w' L L' R.
Proof.
  intros HY HA [Hb1 Hb2] Hal Hsp Hf.
  destruct (revoke_loop_run t this a self base ord w L R HA Hb1 Hal HY Hsp fuel w L R base)
    as (w1 & L1 & R1 & E1 & P); [by apply progress_init|done| |].
  { unfold ahead. pose proof (length_filter (λ y, base < top (mem (sps w) y)) (L (subspace this t))). lia. }
  pose proof (progress_end _ _ _ _ _ _ _ _ _ _ _ HY P) as [C1 C2 C3 C4 C5].
  unfold revoke. rewrite E1. cbn [mbind option_bind].
  eexists _, L1, R1. split; [reflexivity|].
  set (w2 := (if negb (preemption w1) && pending HZD_IOMMU w1 then flush_iommu this w1 else w1)).
  assert (sps w2 = sps w1) as E2 by (unfold w2; by destruct (negb _ && _)).
  assert (∀ y, node_of w2 y = node_of w1 y) as En by (intros y; unfold node_of; by rewrite E2).
  split; [rewrite E2; apply P|].
  split; [intros x y; rewrite En; apply C1|intros y; rewrite En; apply C2|done|intros s' y; rewrite En; apply C4|].
  intros x y Hx Hy Hr Hz. apply (C5 x); [done..|]. intros z. rewrite <-En. apply Hz.
Qed.

(** C6: [Pd::revoke] without the request to keep intermediate nodes ([kim]
    false) ends and leaves spaces and delegation trees sound.  What it is to
    revoke loses the rights [a]: with [self] the nodes of the space that overlap
    the window and all that is derived from them, in all domains, otherwise what
    was derived from them for the window.  No other node loses a right; nothing
    but rights changes in a node.  A node leaves its space only without rights;
    and of what was to lose rights every node is removed that is left without
    rights and has no descendant left with rights, with [self] or not and
    whatever rights are taken. *)
Theorem revoke_withdraws t this fuel base ord a self w L R :
  system (sps w) L R → word 64 a → word 64 base → aligned base ord →
  (∀ x, x ∈ L (subspace this t) → space (node_of w x) ≠ None) →
  (length (L (subspace this t)) < fuel)%nat →
  ∃ w' L' R', revoke t this fuel base ord a self false w = Some w' ∧ system (sps w') L' R' ∧
    (∀ x y, x ∈ L (subspace this t) → y ∈ mjoin R → revoked self (mem (sps w)) base ord x y →
       Z.land (node_attr (node_of w' y)) a = 0) ∧
    (∀ y, ∃ v, kept (set_attr v (node_of w y)) (node_of w' y) ∧
       (v = node_attr (node_of w y) ∨ v = Z.land (node_attr (node_of w y)) (wnot a) ∧
          ∃ x, x ∈ L (subspace this t) ∧ revoked self (mem (sps w)) base ord x y)) ∧
    (∀ s y, y ∈ L' s → y ∈ L s) ∧
    (∀ s y, y ∈ L s → y ∉ L' s → node_attr (node_of w' y) = 0 ∧
       ∃ x, x ∈ L (subspace this t) ∧ overlaps (mem (sps w)) base ord x ∧ descends (mem (sps w)) x y) ∧
    (∀ x y, x ∈ L (subspace this t) → y ∈ mjoin R → revoked self (mem (sps w)) base ord x y →
       (∀ z, z ∈ mjoin R → descends (mem (sps w)) y z → node_attr (node_of w' z) = 0) →
       ∀ s, y ∉ L' s).
Proof.
  intros HY HA Hb Hal Hsp Hf.
  destruct (revoke_run t this fuel base ord a self w L R HY HA Hb Hal Hsp Hf) as (w' & L' & R' & HE & HY' & [C1 C2 C3 C4 C5]).
  exists w', L', R'. by split_and!.
Qed.

(** ** Keeping what was derived *)

Lemma land_all_rights v : word 5 v → v = Z.land v 0x1f.
Proof. intros Hv. change 0x1f with (2 ^ 5 - 1). rewrite land_low by lia. by rewrite Z.mod_small. Qed.

Lemma remove_inner_run m l1 x y l2 :
  ring (links_of m) (l1 ++ x :: y :: l2) → node_attr (m x) = 0 →
  ∃ m', remove_node false x m = (true, m') ∧ ring (links_of m') (l1 ++ y :: l2) ∧
    ∀ n, m' n = removed x (upd y (set_prnt (prnt (m x))) m) n.
Proof.
  intros Hr Ha. assert (l1 ++ y :: l2 ≠ []) as Hne by by destruct l1.
  destruct (ring_around m l1 x (y :: l2) Hr Hne) as (Hn & _ & _). simpl in Hn.
  unfold remove_node. rewrite Ha, (alive_ring m _ x Hr) by (apply elem_of_app; right; left). cbn [truthy Z.eqb negb andb].
  rewrite Hn. set (m1 := upd y _ m).
  assert (∀ n, mdb_next (m1 n) = mdb_next (m n) ∧ mdb_prev (m1 n) = mdb_prev (m n)) as Hsame.
  { intros n. unfold m1. destruct (decide (y = n)) as [<-|]; [by rewrite upd_at|by rewrite upd_ne]. }
  assert (ring (links_of m1) (l1 ++ x :: y :: l2)) as Hr1.
  { apply (ring_pointwise (links_of m)); [| |done]; intros n; simpl; f_equal; apply Hsame. }
  pose proof (unlink_run m1 l1 x (y :: l2) Hr1 Hne) as Hrun. cbn zeta in Hrun.
  eexists. split; [reflexivity|]. split; [|exact Hrun].
  apply (ring_pointwise (links_of (removed x m1))); [| |by apply removed_ring]; intros n; simpl; by rewrite Hrun.
Qed.

(** All rights of [x] go. *)
Lemma strip_run t this x s w :
  space (node_of w x) = Some s → word 5 (node_attr (node_of w x)) →
  ∃ qg w1 m1, (if truthy (node_attr (node_of w x) .& 0x1f)%W then
      withdraw t this x 0x1f (if truthy (node_sub (node_of w x) .& 0x1)%W then raise HZD_IOMMU w else w)
    else Some (quota_new, w)) = Some (qg, w1) ∧ sps w1 = set_mem m1 (sps w) ∧ attr_only (mem (sps w)) m1 ∧
    node_attr (m1 x) = 0 ∧ ∀ z, z ≠ x → m1 z = mem (sps w) z.
Proof.
  intros Hs Hw.
  destruct (truthy _) eqn:Et.
  - set (w1 := if truthy _ then _ else _).
    assert (sps w1 = sps w) as Es by (unfold w1; by destruct (truthy (node_sub _ .& 0x1)%W)).
    unfold withdraw, node_of in *. rewrite Es, Hs. cbn [mbind option_bind].
    destruct (run_update_sps t this x 0x1f quota_new w1) as [E2 _].
    destruct (run_update t this x 0x1f quota_new w1) as [[f q] w2]. simpl in E2.
    eexists _, _, (demote_node x 0x1f (mem (sps w))). split; [reflexivity|].
    unfold demote, set_nodes, set_sps. simpl. rewrite E2, Es. split; [done|]. unfold demote_node.
    split_and!; [|rewrite upd_at; simpl; apply land_subset; [done|by apply land_all_rights]|].
    + intros z. destruct (decide (x = z)) as [<-|]; [rewrite upd_at; eauto|rewrite upd_ne by done].
      exists (node_attr (mem (sps w) z)). by rewrite set_attr_id.
    + intros z Hz. by rewrite upd_ne by congruence.
  - eexists _, _, (mem (sps w)). split; [reflexivity|]. split; [by destruct (sps w)|]. split; [apply attr_only_refl|].
    split; [|done]. unfold node_of in *. rewrite (land_all_rights _ Hw). by apply truthy_false.
Qed.

(** [Pd::revoke] with [kim] on a node [x] that has a child: whatever the rights
    to revoke, and with [self] or not, [x] loses all its rights and leaves its
    ring and its space; nothing else loses a right, a region or its place in the
    ring.  The node [y] behind [x] gets the parent of [x]; no other node gets a
    new parent ([Mdb.remove_inner_dangles]), and depths stay, so what is left is
    not a delegation tree in the sense of [derivation]. *)
Theorem keep_children_spec t this w L R1 l1 x y l2 R2 s :
  system (sps w) L (R1 ++ (l1 ++ x :: y :: l2) :: R2) → x ∈ L s → space (node_of w x) = Some s →
  word 5 (node_attr (node_of w x)) →
  ∃ w' l, keep_children t this x w = Some w' ∧ L s ≡ₚ x :: l ∧ spaces_inv (sps w') (<[s := l]> L) ∧
    ring (links_of (mem (sps w'))) (l1 ++ y :: l2) ∧ node_attr (node_of w' x) = 0 ∧
    kept (set_prnt (prnt (node_of w x)) (node_of w y)) (node_of w' y) ∧
    ∀ z, z ≠ x → z ≠ y → kept (node_of w z) (node_of w' z).
Proof.
  intros HY Hx Hs Hw. destruct (strip_run t this x s w Hs Hw) as (qg & w1 & m1 & E1 & S1 & A1 & Z1 & O1).
  pose proof (system_attr _ _ _ m1 HY A1) as HY1. destruct (segment_ring _ _ _ _ _ HY1) as [Hr1 _]. simpl in Hr1.
  destruct (remove_inner_run m1 l1 x y l2 Hr1 Z1) as (m2 & E2 & Hr2 & Hm2).
  assert (y ≠ x) as Hyx.
  { apply (ring_rotate _ l1 (x :: y :: l2)) in Hr1 as [Hnd _]. intros ->.
    apply list.NoDup_cons in Hnd as [Hnd _]. apply Hnd. left. }
  set (w2 := if preemption w1 then set_preemption false w1 else w1).
  assert (sps w2 = set_mem m1 (sps w)) as S2 by (unfold w2; by destruct (preemption w1)).
  assert (∀ z, node_base (m2 z) = node_base (m1 z) ∧ node_order (m2 z) = node_order (m1 z) ∧ space (m2 z) = space (m1 z)) as Hsame.
  { intros z. rewrite Hm2. simpl. destruct (decide (y = z)) as [<-|]; [by rewrite upd_at|by rewrite upd_ne]. }
  destruct (spaces_remove (set_mem m2 (set_mem m1 (sps w))) L s x) as (tr & l & Et & HV & Hl); [|simpl|done|].
  { apply spaces_mem; [apply HY1|]. intros z. split; apply Hsame. }
  { destruct (Hsame x) as (_ & _ & ->). destruct (A1 x) as [v ->]. exact Hs. }
  unfold keep_children. rewrite E1. cbn [mbind option_bind]. unfold unpreempted. fold w2.
  unfold drop_node. rewrite S2. cbn [mem set_mem]. rewrite E2. cbn [sps set_nodes set_sps]. rewrite S2.
  change (set_mem m2 (set_mem m1 (sps w))) with (set_mem m2 (sps w)) in *. rewrite Et. cbn [mbind option_bind].
  eexists _, l. split; [reflexivity|]. split; [done|].
  match goal with |- context [end_guard this qg ?w3] => set (w4 := end_guard this qg w3) end.
  assert (sps w4 = set_tree tr (set_mem m2 (sps w))) as E4 by (unfold w4; by destruct (preemption w1)).
  assert (∀ n, kept (upd y (set_prnt (prnt (m1 x))) m1 n) (m2 n)) as Hk by (intros n; rewrite Hm2; apply kept_removed).
  unfold node_of. rewrite E4. split_and!; [done|done| | |]; cbn [mem set_tree set_mem].
  - destruct (Hk x) as (_ & _ & _ & _ & _ & _ & -> & _). by rewrite upd_ne.
  - eapply kept_trans; [|apply Hk]. rewrite upd_at, (O1 y) by done. destruct (A1 x) as [v ->]. apply kept_refl.
  - intros z Hzx Hzy. eapply kept_trans; [|apply Hk]. rewrite upd_ne, O1 by congruence. apply kept_refl.
Qed.

(** ** The end of a domain *)

(** The nodes of a domain that [pre_free] can revoke: [Crd (t)] denotes the
    addresses below [2^31]. *)
Record freeable (pd fuel : nat) (w : world E) (L : nat → list obj) (R : list (list obj)) : Prop := {
  fr_sys : system (sps w) L R;
  fr_low t x : x ∈ L (subspace pd t) → space (node_of w x) ≠ None ∧ top (node_of w x) ≤ 2 ^ 31;
  fr_rights y : y ∈ mjoin R → word 5 (node_attr (node_of w y));
  fr_fuel t : (length (L (subspace pd t)) < fuel)%nat;
}.

(** What is not derived from a domain stays as it is. *)
Definition untouched (pd : nat) (w w' : world E) (L L' : nat → list obj) : Prop :=
  ∀ s y, y ∈ L s → (∀ t x, x ∈ L (subspace pd t) → ¬ descends (mem (sps w)) x y) →
    y ∈ L' s ∧ kept (node_of w y) (node_of w' y).

Lemma all_rights t : let c := crd_all (type_val t) in base c = 0 ∧ order c = 31 ∧ attr c = 0x1f.
Proof. by destruct t. Qed.

Lemma free_step t pd fuel w L R :
  freeable pd fuel w L R →
  let c := crd_all (type_val t) in
  ∃ w' L' R', revoke t pd fuel (base c) (order c) (attr c) true false w = Some w' ∧ freeable pd fuel w' L' R' ∧
    L' (subspace pd t) = [] ∧ (∀ s y, y ∈ L' s → y ∈ L s) ∧ untouched pd w w' L L' ∧
    ∀ x y, descends (mem (sps w')) x y ↔ descends (mem (sps w)) x y.
Proof.
  intros [HY Hlow Hri Hfu] c. destruct (all_rights t) as (Eb & Eo & Ea). fold c in Eb, Eo, Ea. rewrite Eb, Eo, Ea.
  destruct (revoke_run t pd fuel 0 31 0x1f true w L R HY) as (w' & L' & R' & HE & HY' & [C1 C2 C3 C4 C5]);
    [done|done|done|by intros x Hx; apply (Hlow t)|apply Hfu|].
  assert (∀ y, y ∈ mjoin R' → y ∈ mjoin R) as HR.
  { intros y (s & Hs)%(sy_in _ _ _ HY'). apply (sy_in _ _ _ HY). eauto. }
  exists w', L', R'. split; [done|]. split_and!; [| |done| |].
  - split; [done| | |].
    + intros t' x Hx. destruct (C2 x) as (v & (_ & _ & Hs & _ & Hb & Ho & _) & _). unfold top. simpl in *. rewrite Hs, Hb, Ho.
      by apply (Hlow t'), C3.
    + intros y Hy. destruct (C2 y) as (v & (_ & _ & _ & _ & _ & _ & -> & _) & Hv). simpl.
      destruct Hv as [->|[-> _]]; [|apply land_word_l; [lia|]]; by apply Hri, HR.
    + intros t'. apply (Nat.le_lt_trans _ (length (L (subspace pd t')))); [|apply Hfu].
      apply submseteq_length, NoDup_submseteq; [|apply C3]. eapply space_NoDup, (sv_space _ _ (sy_spaces _ _ _ HY')).
  - destruct (L' (subspace pd t)) as [|y l] eqn:El; [done|]. exfalso.
    assert (y ∈ L' (subspace pd t)) as Hy' by (rewrite El; left). pose proof (C3 _ _ Hy') as Hy.
    assert (y ∈ mjoin R) as Hyr by (apply (sy_in _ _ _ HY); eauto).
    assert (∀ z, descends (mem (sps w)) y z → revoked true (mem (sps w)) 0 31 y z) as Hrev.
    { intros z Hz. split; [|done]. destruct (Hlow t y Hy) as [_ Ht]. destruct (sy_ok _ _ _ HY _ _ Hy) as (Ho & Hb & _).
      exists (node_base (mem (sps w) y)). unfold region, in_block, top, node_of in *.
      pose proof (pow2_pos (node_order (mem (sps w) y)) ltac:(lia)). lia. }
    apply (C5 y y Hy Hyr) with (s' := subspace pd t); [by apply Hrev| |done].
    intros z Hz Hyz. pose proof (C1 y z Hy Hz (Hrev z Hyz)) as Hc.
    destruct (C2 z) as (v & (_ & _ & _ & _ & _ & _ & Ev & _) & Hv). rewrite Ev in Hc |- *. simpl in Hc |- *.
    pose proof (land_all_rights _ (Hri z Hz)) as Hall. destruct Hv as [->|[-> _]]; [congruence|by apply land_subset].
  - intros s y Hy Hn. split.
    + destruct (decide (y ∈ L' s)) as [|Hout]; [done|]. destruct (C4 s y Hy Hout) as (_ & x & Hx & _ & Hd).
      by destruct (Hn t x Hx).
    + destruct (C2 y) as (v & Hk & Hv). assert (v = node_attr (node_of w y)) as ->; [|by rewrite set_attr_id in Hk].
      destruct Hv as [|(_ & x & Hx & Hr)]; [done|]. apply revoked_descends in Hr as [_ Hd]. by destruct (Hn t x Hx).
  - intros x y. assert (∀ z, prnt (mem (sps w') z) = prnt (mem (sps w) z)) as Hp.
    { intros z. destruct (C2 z) as (v & (_ & K & _) & _). exact K. }
    split; intros Hd; (induction Hd as [|? z ? Hc _ IH]; [reflexivity|]); apply rtc_l with z; try done;
      unfold child in *; congruence.
Qed.

Lemma untouched_trans pd w1 w2 w3 L1 L2 L3 :
  untouched pd w1 w2 L1 L2 → untouched pd w2 w3 L2 L3 → (∀ s y, y ∈ L2 s → y ∈ L1 s) →
  (∀ x y, descends (mem (sps w2)) x y ↔ descends (mem (sps w1)) x y) → untouched pd w1 w3 L1 L3.
Proof.
  intros U1 U2 HL Hd s y Hy Hn. destruct (U1 s y Hy Hn) as [Hy2 K1].
  destruct (U2 s y Hy2) as [Hy3 K2]; [|split; [done|by eapply kept_trans]].
  intros t x Hx. rewrite Hd. by apply (Hn t), HL.
Qed.

Lemma release_rid_sps pd w : sps (release_rid pd w) = sps w.
Proof.
  unfold release_rid. generalize (seq 0 num_rids). intros l. revert w.
  induction l as [|i l IH]; intros w; [done|]. simpl. rewrite IH. unfold release_one. by destruct (rid_used _ _).
Qed.

(** C32: [Pd::pre_free] empties the three spaces of a domain whose nodes lie below
    [2^31]: its nodes and all that was derived from them leave, and what was not
    derived from them is untouched. *)
Theorem pre_free_empties pd fuel w L R :
  freeable pd fuel w L R →
  ∃ w' L' R', pre_free pd fuel w = Some w' ∧ system (sps w') L' R' ∧ (∀ t, L' (subspace pd t) = []) ∧
    untouched pd w w' L L'.
Proof.
  intros HF. destruct (free_step MEM pd fuel w L R HF) as (w1 & L1 & R1 & E1 & F1 & Z1 & S1 & U1 & D1).
  destruct (free_step PIO pd fuel w1 L1 R1 F1) as (w2 & L2 & R2 & E2 & F2 & Z2 & S2 & U2 & D2).
  destruct (free_step OBJ pd fuel w2 L2 R2 F2) as (w3 & L3 & R3 & E3 & F3 & Z3 & S3 & U3 & D3).
  exists (release_rid pd w3), L3, R3. unfold pre_free. rewrite E1. cbn [mbind option_bind].
  rewrite E2. cbn [mbind option_bind]. rewrite E3. cbn [mbind option_bind].
  unfold untouched, node_of. rewrite release_rid_sps. split_and!; [done|apply F3| |].
  - assert (∀ l : list obj, (∀ y, y ∉ l) → l = []) as Hnil.
    { intros [|y l] Hl; [done|]. by destruct (Hl y ltac:(left)). }
    intros []; apply Hnil; intros y Hy; [apply S3, S2 in Hy; rewrite Z1 in Hy|apply S3 in Hy; rewrite Z2 in Hy|rewrite Z3 in Hy];
      by apply not_elem_of_nil in Hy.
  - apply (untouched_trans pd w w2 w3 L L2 L3); [|done|by auto|intros x y; by rewrite D2].
    by apply (untouched_trans pd w w1 w2 L L1 L2).
Qed.
End one_node.

(** ** Examples *)
#[local] Existing Instance demo_env.

Definition demo_high : world unit := demo_world (solo 0 (2 ^ 31) 0 7).

(** [Pd::pre_free] does not reach beyond page [2^31], although memory can be
    delegated to a domain there: the node keeps its rights and stays in the
    space, and in the delegation tree, of a domain that is being destroyed. *)
Theorem pre_free_leaves_high :
  system (sps demo_high) (solo_nodes 0) [[0%nat]] ∧
  ∃ w', pre_free 0 4 demo_high = Some w' ∧ tree_lookup (subspace 0 MEM) (2 ^ 31) false (sps w') = Some (Some 0%nat) ∧
    space (node_of w' 0) = Some (subspace 0 MEM) ∧ node_attr (node_of w' 0) = 7.
Proof.
  split; [by apply solo_system|]. destruct (pre_free 0 4 demo_high) as [w'|] eqn:E; [|by vm_compute in E].
  exists w'. split; [done|].
  apply (result_of (λ w, tree_lookup (subspace 0 MEM) (2 ^ 31) false (sps w) = Some (Some 0%nat) ∧
    space (node_of w 0) = Some (subspace 0 MEM) ∧ node_attr (node_of w 0) = 7) (x ← pre_free 0 4 demo_high; Some (tt, x)) tt w').
  - by rewrite E.
  - by vm_compute.
Qed.

Lemma revoke_withdraws_witness :
  ∃ w' L' R', revoke MEM 0 4 16 2 0x1f true false demo_pages = Some w' ∧ system (sps w') L' R' ∧
    Z.land (node_attr (node_of w' 0)) 0x1f = 0 ∧ 0%nat ∉ L' 0%nat.
Proof.
  destruct (revoke_withdraws MEM 0 4 16 2 0x1f true demo_pages (solo_nodes 0) [[0%nat]])
    as (w' & L' & R' & HE & HY & Hst & _ & _ & _ & Hall); try done; [by apply solo_system|simpl; lia|].
  assert (overlaps (mem (sps demo_pages)) 16 2 0) as Hov by (by exists 16).
  exists w', L', R'. split_and!; [exact HE|exact HY| |].
  - by apply (Hst 0%nat 0%nat); [left|left|split].
  - apply (Hall 0%nat); [left|left|by split|].
    intros z Hz _. apply list_elem_of_singleton in Hz as ->.
    apply (result_of (λ w, node_attr (node_of w 0) = 0) (x ← revoke MEM 0 4 16 2 0x1f true false demo_pages; Some (tt, x)) tt w');
      [by rewrite HE|by vm_compute].
Defined.

Lemma pre_free_empties_witness :
  ∃ w' L' R', pre_free 0 4 demo_pages = Some w' ∧ system (sps w') L' R' ∧ ∀ t, L' (subspace 0 t) = [].
Proof.
  destruct (pre_free_empties 0 4 demo_pages (solo_nodes 0) [[0%nat]]) as (w' & L' & R' & HE & HY & Hn & _);
    [|exists w', L', R'; exact (conj HE (conj HY Hn))].
  split; [by apply solo_system| | |].
  - intros [] x Hx; by apply list_elem_of_singleton in Hx as -> || by apply not_elem_of_nil in Hx.
  - intros y Hy. by apply list_elem_of_singleton in Hy as ->.
  - intros []; simpl; lia.
Defined.
