(* ===== verification/Ipc.v ===== *)
(** Execution contexts and IPC: [include/ec.hpp], [src/ec.cpp], [include/pt.hpp],
    [src/oom.cpp] and the message passing of [src/syscall.cpp].

    A handler of the kernel never returns: it ends by running the continuation
    of the current context, in the scheduler or in user mode.  A handler is a
    function from states to such an outcome; [None] is a failed assertion or a
    null dereference.  A caller waits for the reply of its [partner], whose
    [rcap] names the caller; [activate] follows the partners to the context that
    can run.  Typed items are delegated by [Pd], messages copied by [Utcb], and
    registers are those of [Vregs].  Other components are the interface
    [IpcEnv]. *)
From S2P Require Import Prelude Bits Quota Rcu Crd Queue Vregs Sysargs Utcb Avl AvlRemove Mdb Space Derivation Pd.
Local Open Scope Z_scope.

(** The functions that are used as continuations.  [Handler] are those outside
    of this file, by number. *)
Inductive continuation :=
  | Ret_user_sysexit | Ret_user_iret | Ret_user_vmresume | Ret_user_vmrun
  | Recv_kern | Recv_user | Sys_call | Sys_reply
  | Send_msg (c : continuation) | Sys_finish (s : Status)
  | Xcpu_return | Ret_xcpu_reply | Dead | Idle
  | Handler (n : nat).

#[export] Instance continuation_eq_dec : EqDecision continuation.
Proof. intros x y. unfold Decision. repeat decide equality. Defined.

(** [Ec]: [queued] is [next != nullptr], [waiting] its queue of scheduling
    contexts. *)
Record ec := Ec {
  cont : option continuation;
  cpu_regs : vcpu;
  rcap : option obj;
  ec_utcb : option utcb;
  ec_pd : nat;
  partner : option obj;
  queued : bool;
  waiting : list obj;
  cpu : Z;
  glb : Z;
  evt : Z;
  xcpu_sm : option obj;
  pt_oom : option obj;
  virt : bool;
  ec_tsc : Z;
  time : Z;
  refs : refcount;
}.

(** [Pt]. *)
Record pt := Pt { pt_ec : obj; pt_mtd : Z; pt_ip : Z; pt_id : Z }.

(** What IPC reads of [Sc]. *)
Record sc := Sc { sc_ec : obj; sc_disable : bool; sc_refs : refcount }.

(** What [Space_obj::lookup] finds: the type of the object and the permissions. *)
Inductive kobj := KPt (p : obj) (prm : Z) | KSm (p : obj) (prm : Z) | KOther.

(** Other components: the capabilities of a domain; [Sm::dn (zero)] on a counter
    that is not zero, with the value and count of a signal; [Sc::remote_enqueue]
    of a released context; [Rcu::quiet]; the owner of
    the FPU and its state in messages; the switch to a guest; the time stamp
    counter; the address space; [IA32_TSC_AUX]; and the processor features. *)
Class IpcEnv (E : Type) := {
  lookup : nat → Z → E → kobj;
  sm_take : bool → obj → E → option (option (Z * Z)) * E;
  sc_enqueue : obj → E → E;
  rcu_quiet : E → E;
  claim_fpu : obj → E → E;
  export_fpu : obj → utcb → E → utcb * E;
  import_fpu : obj → utcb → E → E;
  fpu_lazy : bool;
  fpu_disable : obj → E → E;
  enter_guest : obj → E → E;
  rdtsc : E → Z * E;
  make_space : nat → E → E;
  wr_tsc_aux : Z → E → E;
  preemption_point : E → bool * E;
  feat_rdtscp : bool;
  cpu_id : Z;
}.

Record kernel (E : Type) := Kernel {
  ecs : obj → ec;
  pts : obj → pt;
  scs : obj → sc;
  current : obj;
  sc_current : obj;
  pd_current : nat;
  ctr_link : Z;
  wd : world E;
}.
Arguments Kernel {E}.
Arguments ecs {E}.
Arguments pts {E}.
Arguments scs {E}.
Arguments current {E}.
Arguments sc_current {E}.
Arguments pd_current {E}.
Arguments ctr_link {E}.
Arguments wd {E}.

(** Where a handler ends: in the continuation of the current context, in
    [Sc::schedule (suspend)], in user mode by one of the [ret_user] functions, or
    in a handler outside of this file. *)
Inductive next := Jump | Schedule (suspend : bool) | User (k : continuation) | Other (n : nat).

(** The handlers outside. *)
Definition SYS_XCPU_CALL : nat := 0.
Definition XCPU_RETURN : nat := 1.
Definition OOM_XCPU : nat := 2.
Definition RET_XCPU_REPLY : nat := 3.
Definition IDLE : nat := 4.

Definition HZD_SCHED : Z := 0x1.
Definition HZD_DS_ES : Z := 0x2.
Definition HZD_FPU : Z := 0x8.
Definition HZD_RCU : Z := 0x10.
Definition HZD_TSC_AUX : Z := 0x10000000.
Definition HZD_STEP : Z := 0x40000000.
Definition HZD_RECALL : Z := 0x80000000.

Definition NUM_EXC : Z := 32.
Definition PT_RECALL : Z := NUM_EXC - 1.
Definition EXC_DB : Z := 1.
Definition USER_ADDR : Z := 0x00007fffc0000000.

Definition DISABLE_BLOCKING : Z := 1.
Definition SYSCALL_REPLY : Z := 1.

(** ** Setters *)

Definition set_cont (c : option continuation) (e : ec) : ec :=
  Ec c (cpu_regs e) (rcap e) (ec_utcb e) (ec_pd e) (partner e) (queued e) (waiting e) (cpu e) (glb e)
    (evt e) (xcpu_sm e) (pt_oom e) (virt e) (ec_tsc e) (time e) (refs e).
Definition set_cpu_regs (r : vcpu) (e : ec) : ec :=
  Ec (cont e) r (rcap e) (ec_utcb e) (ec_pd e) (partner e) (queued e) (waiting e) (cpu e) (glb e)
    (evt e) (xcpu_sm e) (pt_oom e) (virt e) (ec_tsc e) (time e) (refs e).
Definition set_rcap (c : option obj) (e : ec) : ec :=
  Ec (cont e) (cpu_regs e) c (ec_utcb e) (ec_pd e) (partner e) (queued e) (waiting e) (cpu e) (glb e)
    (evt e) (xcpu_sm e) (pt_oom e) (virt e) (ec_tsc e) (time e) (refs e).
Definition set_ec_utcb (u : option utcb) (e : ec) : ec :=
  Ec (cont e) (cpu_regs e) (rcap e) u (ec_pd e) (partner e) (queued e) (waiting e) (cpu e) (glb e)
    (evt e) (xcpu_sm e) (pt_oom e) (virt e) (ec_tsc e) (time e) (refs e).
Definition set_partner_of (p : option obj) (e : ec) : ec :=
  Ec (cont e) (cpu_regs e) (rcap e) (ec_utcb e) (ec_pd e) p (queued e) (waiting e) (cpu e) (glb e)
    (evt e) (xcpu_sm e) (pt_oom e) (virt e) (ec_tsc e) (time e) (refs e).
Definition set_queue (q : bool) (l : list obj) (e : ec) : ec :=
  Ec (cont e) (cpu_regs e) (rcap e) (ec_utcb e) (ec_pd e) (partner e) q l (cpu e) (glb e)
    (evt e) (xcpu_sm e) (pt_oom e) (virt e) (ec_tsc e) (time e) (refs e).
Definition set_times (t u : Z) (e : ec) : ec :=
  Ec (cont e) (cpu_regs e) (rcap e) (ec_utcb e) (ec_pd e) (partner e) (queued e) (waiting e) (cpu e) (glb e)
    (evt e) (xcpu_sm e) (pt_oom e) (virt e) t u (refs e).
Definition set_refs (r : refcount) (e : ec) : ec :=
  Ec (cont e) (cpu_regs e) (rcap e) (ec_utcb e) (ec_pd e) (partner e) (queued e) (waiting e) (cpu e) (glb e)
    (evt e) (xcpu_sm e) (pt_oom e) (virt e) (ec_tsc e) (time e) r.

Section kernel.
Context {E : Type} `{PdEnv E} `{IpcEnv E}.
Implicit Type s : kernel E.

Definition upd_ec (x : obj) (f : ec → ec) s : kernel E :=
  Kernel (<[x := f (ecs s x)]> (ecs s)) (pts s) (scs s) (current s) (sc_current s) (pd_current s) (ctr_link s) (wd s).
Definition set_sc (x : obj) (v : sc) s : kernel E :=
  Kernel (ecs s) (pts s) (<[x := v]> (scs s)) (current s) (sc_current s) (pd_current s) (ctr_link s) (wd s).
Definition set_current (x : obj) s : kernel E :=
  Kernel (ecs s) (pts s) (scs s) x (sc_current s) (pd_current s) (ctr_link s) (wd s).
Definition set_sc_current (x : obj) s : kernel E :=
  Kernel (ecs s) (pts s) (scs s) (current s) x (pd_current s) (ctr_link s) (wd s).
Definition set_pd_current (x : nat) s : kernel E :=
  Kernel (ecs s) (pts s) (scs s) (current s) (sc_current s) x (ctr_link s) (wd s).
Definition set_link (n : Z) s : kernel E :=
  Kernel (ecs s) (pts s) (scs s) (current s) (sc_current s) (pd_current s) (wrap 32 n) (wd s).
Definition set_wd (w : world E) s : kernel E :=
  Kernel (ecs s) (pts s) (scs s) (current s) (sc_current s) (pd_current s) (ctr_link s) w.

Definition upd_regs_of (x : obj) (f : Vregs.mem → Vregs.mem) s : kernel E :=
  upd_ec x (λ e, set_cpu_regs (upd_regs f (cpu_regs e)) e) s.
Definition regs_of (x : obj) s : Vregs.mem := regs (cpu_regs (ecs s x)).

(** A step of the environment. *)
Definition run_env (f : E → E) s : kernel E := set_wd (set_env (f (env (wd s))) (wd s)) s.

Definition with_hazard (f : Z → Z) s : kernel E := set_wd (Pd.set_hazard (f (Pd.hazard (wd s))) (wd s)) s.

(** [Rcu::call]. *)
Definition call_rcu (x : obj) s : kernel E := set_wd (rcu_call x (wd s)) s.

(** [bool ok = x->add_ref(); assert (ok)]. *)
Definition hold (x : obj) s : option (kernel E) :=
  let '(ok, r) := add_ref (refs (ecs s x)) in
  if ok then Some (upd_ec x (set_refs r) s) else None.

(** [if (x->del_rcu()) Rcu::call (x)]. *)
Definition drop (x : obj) s : kernel E :=
  let '(z, r) := del_rcu (refs (ecs s x)) in
  let s := upd_ec x (set_refs r) s in
  if z then call_rcu x s else s.

Definition hold_sc (x : obj) s : option (kernel E) :=
  let '(ok, r) := add_ref (sc_refs (scs s x)) in
  if ok then Some (set_sc x (Sc (sc_ec (scs s x)) (sc_disable (scs s x)) r) s) else None.

(** The union of [cpu] and [glb]. *)
Definition xcpu (e : ec) : Z := cpu e + glb e * 2 ^ 16.

Definition blocked (e : ec) : bool := queued e || bool_decide (cont e = None).

Definition vcpu_ec (e : ec) : bool := bool_decide (ec_utcb e = None) && virt e.

(** ** Partners *)

Definition set_partner (x p : obj) s : option (kernel E) :=
  let s := upd_ec x (set_partner_of (Some p)) s in
  s ← hold p s;
  let s := upd_ec p (set_rcap (Some x)) s in
  s ← hold x s;
  Some (set_link (ctr_link s + 1) s).

(** [x->clr_partner()]: [partner] is the current context.  The result is the
    old [Sc::ctr_link]. *)
Definition clr_partner (x : obj) s : option (bool * kernel E) :=
  if negb (bool_decide (partner (ecs s x) = Some (current s))) then None
  else
    let y := current s in
    let s := match rcap (ecs s y) with
             | Some z => drop z (upd_ec y (set_rcap None) s)
             | None => s
             end in
    let s := upd_ec x (set_partner_of None) s in
    let s := drop y s in
    Some (truthy (ctr_link s), set_link (ctr_link s - 1) s).

(** ** Switching contexts *)

Definition outcome : Type := option (next * kernel E).

Definition check_hazard_tsc_aux (x : obj) s : kernel E :=
  let cur := ecs s (current s) in
  let this := ecs s x in
  let raise := upd_regs_of x (Vregs.set_hazard HZD_TSC_AUX) s in
  if negb feat_rdtscp then s
  else if negb (vcpu_ec cur) && negb (vcpu_ec this) then s
  else if vcpu_ec cur && negb (vcpu_ec this) then
    if negb (regs_of (current s) s tsc_aux =? cpu_id) then raise else s
  else if negb (vcpu_ec cur) && vcpu_ec this then
    if negb (cpu_id =? regs_of x s tsc_aux) then raise else s
  else if negb (regs_of (current s) s tsc_aux =? regs_of x s tsc_aux) then raise else s.

(** [x->make_current()]. *)
Definition make_current (x : obj) s : outcome :=
  let s := drop (current s) s in
  let s := run_env (claim_fpu x) s in
  let s := check_hazard_tsc_aux x s in
  let '(t, e) := rdtsc (env (wd s)) in
  let s := run_env (λ _, e) s in
  let s := upd_ec (current s) (λ c, set_times (ec_tsc c) (time c + (t - ec_tsc c))%W c) s in
  let s := set_current x s in
  let s := upd_ec x (λ c, set_times t (time c) c) s in
  s ← hold x s;
  let s := run_env (make_space (ec_pd (ecs s x))) (set_pd_current (ec_pd (ecs s x)) s) in
  Some (Jump, s).

(** [x->release (c)]: the scheduling contexts that wait for [x] become ready;
    one that nobody else refers to is destroyed, unless [x] has a partner. *)
Definition ready_sc (partnered : bool) (z : obj) s : kernel E :=
  if negb (last_ref (sc_refs (scs s z))) || partnered then run_env (sc_enqueue z) s else call_rcu z s.

Definition release (x : obj) (c : option continuation) s : kernel E :=
  let e := ecs s x in
  let s := foldl (λ s z, ready_sc (negb (bool_decide (partner (ecs s (sc_ec (scs s z))) = None))) z s) s (waiting e) in
  upd_ec x (λ e, set_queue (queued e) [] (match c with Some _ => set_cont c e | None => e end)) s.

(** [Sm::up (c)] for the context [x] it dequeues. *)
Definition wake (x : obj) (c : option continuation) s : kernel E :=
  drop x (release x c (upd_ec x (λ e, set_queue false (waiting e) e) s)).

(** The loop of [activate]; [hops] bounds the number of partners. *)
Fixpoint follow (hops : nat) (x : obj) s : option (obj * kernel E) :=
  match partner (ecs s x) with
  | None => Some (x, s)
  | Some p =>
    match hops with
    | O => None
    | S hops => follow hops p (set_link (ctr_link s + 1) s)
    end
  end.

(** [x->block_sc()], which returns when [x] is not blocked. *)
Definition block_sc (x : obj) (back : kernel E → outcome) s : outcome :=
  if negb (blocked (ecs s x)) then back s
  else
  s ← hold_sc (sc_current s) s;
  Some (Schedule true, upd_ec x (λ e, set_queue (queued e) (waiting e ++ [sc_current s]) e) s).

Section hops.
Context (hops : nat).

Definition activate (x : obj) s : outcome :=
  '(x, s) ← follow hops x (set_link 0 s);
  if blocked (ecs s x) then block_sc x (make_current x) s else make_current x s.

(** [x->help (c)], which returns when [x] is dead. *)
Definition help (x : obj) (c : option continuation) (back : kernel E → outcome) s : outcome :=
  if bool_decide (cont (ecs s x) = Some Dead) then back s
  else
    let s := upd_ec (current s) (set_cont c) s in
    let '(sched, e) := preemption_point (env (wd s)) in
    let s := run_env (λ _, e) s in
    let s := if (sched : bool) then with_hazard (λ h, h .| HZD_SCHED)%W s else s in
    if pending HZD_SCHED (wd s) then Some (Schedule false, s) else activate x s.

(** [sm->dn (zero, 0, x, block)]. *)
Definition dn (zero : bool) (sm x : obj) (block : bool) (back : kernel E → outcome) s : outcome :=
  let '(r, e) := sm_take zero sm (env (wd s)) in
  let s := run_env (λ _, e) s in
  match r with
  | Some None => back s
  | Some (Some (value, cnt)) => back (upd_regs_of x (λ r, wr ARG_3 cnt (wr ARG_2 value r)) s)
  | None =>
    let '(ok, n) := add_ref (refs (ecs s x)) in
    if negb ok then Some (Schedule block, s)
    else
      let s := upd_ec x (λ e, set_queue true (waiting e) (set_refs n e)) s in
      if negb block then Some (Schedule false, s) else block_sc x back s
  end.

Definition reply (c : option continuation) (sm : option obj) s : outcome :=
  let s := upd_ec (current s) (set_cont c) s in
  if negb (glb (ecs s (current s)) =? 0) then Some (Schedule true, s)
  else
    match rcap (ecs s (current s)) with
    | None => activate (sc_ec (scs s (sc_current s))) s
    | Some x =>
      '(clr, s) ← clr_partner x s;
      let cur := scs s (sc_current s) in
      if bool_decide (sc_ec cur = x) && (sc_disable cur || last_ref (sc_refs cur))
      then Some (Schedule true, s)
      else
        let rest s := if negb (clr : bool) then activate (sc_ec (scs s (sc_current s))) s else make_current x s in
        match sm with
        | Some sm => dn false sm x clr rest s
        | None => rest s
        end
    end.

Definition waits_for_user (c : option continuation) : bool :=
  bool_decide (c = Some Ret_user_sysexit) || bool_decide (c = Some Xcpu_return).

Definition die s : outcome :=
  let s := match rcap (ecs s (current s)) with
           | Some x =>
             let c := if waits_for_user (cont (ecs s x)) then Sys_finish COM_ABT else Dead in
             upd_ec x (set_cont (Some c)) s
           | None => s
           end in
  reply (Some Dead) None s.

(** ** Messages of the kernel *)

(** The portal's context starts at the portal: [cont], [regs.set_pt] and
    [regs.set_ip]. *)
Definition start (y : obj) (c : continuation) (p : pt) s : kernel E :=
  upd_regs_of y (λ r, set_ip (pt_ip p) (set_pt (pt_id p) r)) (upd_ec y (set_cont (Some c)) s).

Definition send_msg (c : continuation) s : outcome :=
  let cur := ecs s (current s) in
  match lookup (pd_current s) (evt cur + regs_of (current s) s dst_portal)%W (env (wd s)) with
  | KPt p _ =>
    let p := pts s p in
    let y := pt_ec p in
    if negb (cpu cur =? xcpu (ecs s y)) then die s
    else if bool_decide (cont (ecs s y) = None) then
      let s := upd_ec (current s) (set_cont (Some c)) s in
      s ← set_partner (current s) y s;
      let s := upd_regs_of (current s) (wr mtd (pt_mtd p)) s in
      make_current y (start y Recv_kern p s)
    else help y (Some (Send_msg c)) die s
  | _ => die s
  end.

(** ** The way to user mode *)

(** [handle_hazard (hzd, func)]; [back] is what follows the call. *)
Definition handle_hazard (h : Z) (func : continuation) (back : kernel E → outcome) s : outcome :=
  let bit b := truthy (h .& b)%W in
  let s := if bit HZD_RCU then run_env rcu_quiet s else s in
  let x := current s in
  if bit HZD_SCHED then Some (Schedule false, upd_ec x (set_cont (Some func)) s)
  else
    let redirect s :=
      if bool_decide (func = Ret_user_sysexit)
      then upd_regs_of x (λ r, wr rip (r ARG_IP) (wr rsp (r ARG_SP) r)) s else s in
    if bit HZD_RECALL then
      let s := upd_regs_of x (clr_hazard HZD_RECALL) s in
      if bool_decide (func = Ret_user_vmresume) || bool_decide (func = Ret_user_vmrun)
      then send_msg func (upd_regs_of x (wr dst_portal VM_EXIT_RECALL) s)
      else send_msg Ret_user_iret (upd_regs_of x (wr dst_portal PT_RECALL) (redirect s))
    else if bit HZD_STEP then
      let s := upd_regs_of x (clr_hazard HZD_STEP) s in
      send_msg Ret_user_iret (upd_regs_of x (wr dst_portal EXC_DB) (redirect s))
    else
      let s :=
        if bit HZD_TSC then
          let s := upd_regs_of x (clr_hazard HZD_TSC) s in
          let off := regs_of x s tsc_offset in
          if bool_decide (func = Ret_user_vmresume) then
            upd_ec x (λ e, set_cpu_regs (vmwrite TSC_OFFSET_HI (off >> 32)%W (vmwrite TSC_OFFSET off (cpu_regs e))) e) s
          else if bool_decide (func = Ret_user_vmrun) then
            upd_ec x (λ e, set_cpu_regs (bwrite vmcb_tsc_offset off (cpu_regs e)) e) s
          else s
        else s in
      let s :=
        if bit HZD_TSC_AUX then
          let s := upd_regs_of x (clr_hazard HZD_TSC_AUX) s in
          run_env (wr_tsc_aux (if bool_decide (func = Ret_user_vmresume) || bool_decide (func = Ret_user_vmrun)
                               then regs_of x s tsc_aux else cpu_id)) s
        else s in
      let s := if bit HZD_DS_ES then with_hazard (λ h, h .& wnot HZD_DS_ES)%W s else s in
      if bit HZD_FPU then
        if negb fpu_lazy then die s else back (run_env (fpu_disable x) s)
      else back s.

Definition hazards_of s (mask : Z) : Z := ((Pd.hazard (wd s) .| Vregs.hazard (regs_of (current s) s)) .& mask)%W.

Definition SYSEXIT_HAZARDS : Z :=
  (HZD_RECALL .| HZD_STEP .| HZD_RCU .| HZD_FPU .| HZD_DS_ES .| HZD_SCHED .| HZD_TSC_AUX)%W.
Definition IRET_HAZARDS : Z :=
  (HZD_RECALL .| HZD_STEP .| HZD_RCU .| HZD_FPU .| HZD_SCHED .| HZD_TSC_AUX)%W.
Definition GUEST_HAZARDS : Z := (HZD_RECALL .| HZD_TSC .| HZD_TSC_AUX .| HZD_RCU .| HZD_SCHED)%W.

(** [if (hzd) handle_hazard (hzd, func)]. *)
Definition after_hazards (mask : Z) (func : continuation) (back : kernel E → outcome) s : outcome :=
  let h := hazards_of s mask in
  if truthy h then handle_hazard h func back s else back s.

Definition ret_user_sysexit : kernel E → outcome :=
  after_hazards SYSEXIT_HAZARDS Ret_user_sysexit (λ s,
    if USER_ADDR <=? regs_of (current s) s ARG_IP
    then send_msg Ret_user_sysexit (upd_regs_of (current s) (wr dst_portal 13) s)
    else Some (User Ret_user_sysexit, s)).

Definition ret_user_iret : kernel E → outcome :=
  after_hazards IRET_HAZARDS Ret_user_iret (λ s, Some (User Ret_user_iret, s)).

Definition ret_user_vmresume : kernel E → outcome :=
  after_hazards GUEST_HAZARDS Ret_user_vmresume (λ s, Some (User Ret_user_vmresume, run_env (enter_guest (current s)) s)).

Definition ret_user_vmrun : kernel E → outcome :=
  after_hazards GUEST_HAZARDS Ret_user_vmrun (λ s, Some (User Ret_user_vmrun, run_env (enter_guest (current s)) s)).

(** [sys_finish<S>]. *)
Definition sys_finish (st : Status) s : outcome :=
  let s := upd_regs_of (current s) (set_status (status_val st) true) s in
  match xcpu_sm (ecs s (current s)) with
  | Some _ => Some (Other XCPU_RETURN, s)
  | None => ret_user_sysexit s
  end.

(** The semaphore operation of [sys_sm_ctrl] that waits. *)
Definition sm_wait (zero : bool) (sm : obj) s : outcome :=
  dn zero sm (current s) true (sys_finish SUCCESS) (upd_ec (current s) (set_cont (Some (Sys_finish SUCCESS))) s).

(** ** Lack of memory *)

(** [x->oom_call (pt, src, state, CC, HELP)]. *)
Definition oom_call (x : obj) (p : pt) (src st : Z) (CC HELP : option continuation) s : outcome :=
  let y := pt_ec p in
  let go s :=
    make_current y
      (upd_regs_of y (λ r, set_ip (pt_ip p) (set_pt3 (pt_id p) src st r)) (upd_ec y (set_cont (Some Ret_user_sysexit)) s)) in
  if negb (cpu (ecs s x) =? xcpu (ecs s y)) then None
  else if bool_decide (x = y) then go s
  else if negb (bool_decide (partner (ecs s x) = None)) then None
  else
    let s := upd_ec x (set_cont CC) s in
    let finish s := s ← set_partner x y s; go s in
    if bool_decide (cont (ecs s y) = None) then finish s else help y HELP finish s.

(** The state that [oom_call_cpu] announces: by the precedence of the operators
    the condition is [OOM_SEND | (this == pt->ec)], which is not zero. *)
Definition OOM_SEND : Z := 1.
Definition OOM_REPLY : Z := 2.
Definition OOM_SELF : Z := 4.
Definition oom_cpu_state (x : obj) (p : pt) : Z :=
  if truthy (OOM_SEND .| Z.b2z (bool_decide (x = pt_ec p)))%W then OOM_SELF else 0.

Definition oom_call_cpu (x : obj) (p : pt) (src : Z) (CC HELP : option continuation) s : outcome :=
  let st := oom_cpu_state x p in
  if negb (cpu (ecs s x) =? xcpu (ecs s (pt_ec p))) then Some (Other OOM_XCPU, s)
  else oom_call x p src st CC HELP s.

(** The typed items of a message, the last one first in memory. *)
Definition item_word (i : nat) : Z := (Utcb.xfer (Z.of_nat i) - sizeof_head) / 8.
Definition item (u : utcb) (i : nat) : Crd.xfer := Xfer (mr u (item_word i)) (mr u (item_word i + 1)).
Definition items_of (u : utcb) : list Crd.xfer := item u <$> seq 0 (Z.to_nat (ti u)).
Definition put_item (m : Vregs.mem) (i : nat) (x : Crd.xfer) : Vregs.mem :=
  wr (item_word i + 1) (xval x) (wr (item_word i) (xcrd x) m).
Definition put_items (l : list Crd.xfer) (u : utcb) : utcb :=
  Utcb (items u) (xlt u) (del u) (tls u) (foldl (λ m '(i, x), put_item m i x) (mr u) (zip (seq 0 (length l)) l)).

Section spaces.
Context (root kern fuel : nat).

(** The revocations of [oom_delegate]. *)
Fixpoint oom_revoke (pd : nat) (l : list Crd.xfer) (w : world E) : option (world E) :=
  match l with
  | [] => Some w
  | x :: l =>
    w ← (if truthy (Crd.flags x >> 8 .& 1)%W then Some w else rev_crd pd fuel (xcrd x) false false false w);
    oom_revoke pd l w
  end.

(** [current->oom_delegate (dst, rep, src, user, C)]. *)
Definition oom_delegate (dst rep src : obj) (user C : bool) s : outcome :=
  match pt_oom (ecs s dst) with
  | None => die s
  | Some dp =>
    let dp := pts s dp in
    w ← (if user then
           if C && negb (waits_for_user (cont (ecs s rep)) && bool_decide (cont (ecs s dst) = Some Recv_user)) then None
           else if negb C && negb (waits_for_user (cont (ecs s dst))) then None
           else u ← ec_utcb (ecs s dst); rev_crd (ec_pd (ecs s dst)) fuel (del u) true false false (wd s)
         else if (C : bool) then None
         else u ← ec_utcb (ecs s src); oom_revoke (ec_pd (ecs s src)) (items_of u) (wd s));
    let s := set_wd w s in
    let sp := match pt_oom (ecs s src) with
              | None => ones64
              | Some sp => let sp := pts s sp in
                if bool_decide (ec_pd (ecs s (pt_ec sp)) = ec_pd (ecs s (pt_ec dp))) then pt_id sp else 0
              end in
    let y := pt_ec dp in
    let cur := current s in
    let st := (if C then OOM_SEND else OOM_REPLY) + (if bool_decide (cur = y) then OOM_SELF else 0) in
    let foreign := negb (cpu (ecs s cur) =? xcpu (ecs s y)) in
    if negb C && foreign then Some (Other OOM_XCPU, s)
    else if foreign || bool_decide (cont (ecs s cur) = Some Xcpu_return) || bool_decide (cont (ecs s cur) = Some Ret_xcpu_reply)
    then die s
    else if C && bool_decide (cur = y) then
      if negb (bool_decide (partner (ecs s rep) = Some cur)) then None
      else oom_call cur dp sp st None None (upd_ec rep (set_cont (Some Sys_call)) s)
    else
      s ← (if C then
             '(clr, s) ← clr_partner rep s;
             if (clr : bool) then Some (upd_ec cur (set_cont None) s) else None
           else Some s);
      if C then oom_call rep dp sp st (Some Sys_call) (cont (ecs s cur)) s
      else oom_call cur dp sp st (Some Sys_reply) (Some Sys_reply) s
  end.

(** ** Messages between users *)

(** The transfer of [delegate<C>] for the caller [x]. *)
Definition item_ends (C : bool) (x : obj) s : obj * obj := if C then (x, current s) else (current s, x).
Definition to_user (C : bool) (x : obj) s : bool := C || waits_for_user (cont (ecs s (item_ends C x s).2)).
Definition transfer (C : bool) (x : obj) s : option (list Crd.xfer * world E) :=
  let '(src, dst) := item_ends C x s in
  let d := ecs s dst in
  su ← ec_utcb (ecs s src);
  '(xl, de) ← (if to_user C x s then u ← ec_utcb d; Some (xlt u, del u)
               else let r := regs_of dst s in
                    let a := if bool_decide (cont d = Some Ret_user_iret) then r cr2 else r nst_fault in
                    Some (crd_of 0, crd_make (type_val MEM) (a >> PAGE_BITS)%W 0x1f 0x1f));
  xfer_items (ec_pd d) (ec_pd (ecs s src)) fuel root kern xl de (items_of su) (to_user C x s) (wd s).

(** [delegate<C>]: the typed items; [back] is what follows the call. *)
Definition delegate_items (C : bool) (back : kernel E → outcome) s : outcome :=
  x ← rcap (ecs s (current s));
  let '(src, dst) := item_ends C x s in
  let user := to_user C x s in
  '(out, w) ← transfer C x s;
  let s := set_wd w s in
  let s := if user then upd_ec dst (λ e, set_ec_utcb (put_items out <$> ec_utcb e) e) s else s in
  if pending HZD_OOM (wd s) then
    oom_delegate dst x src user C (with_hazard (λ h, h .& wnot HZD_OOM)%W s)
  else back s.

Definition sys_call s : outcome :=
  let cur := current s in
  match lookup (pd_current s) (Sys_call_pt (regs_of cur s)) (env (wd s)) with
  | KPt p _ =>
    let p := pts s p in
    let y := pt_ec p in
    if hit_limit (quotas (wd s) (pd_current s)) 0 then
      match pt_oom (ecs s cur) with
      | None => sys_finish QUO_OOM s
      | Some op =>
        match xcpu_sm (ecs s cur) with
        | Some _ => Some (Other XCPU_RETURN, upd_regs_of cur (set_status (status_val QUO_OOM) false) s)
        | None => oom_call_cpu cur (pts s op) (pt_id (pts s op)) (Some Sys_call) (Some Sys_call) s
        end
      end
    else if negb (cpu (ecs s cur) =? xcpu (ecs s y)) then Some (Other SYS_XCPU_CALL, s)
    else if bool_decide (cont (ecs s y) = None) then
      let c := match xcpu_sm (ecs s cur) with Some _ => Xcpu_return | None => Ret_user_sysexit end in
      s ← set_partner cur y (upd_ec cur (set_cont (Some c)) s);
      make_current y (start y Recv_user p s)
    else if negb (truthy (Vregs.flags (regs_of cur s) .& DISABLE_BLOCKING)%W)
    then help y (Some Sys_call) (sys_finish COM_TIM) s
    else sys_finish COM_TIM s
  | _ => sys_finish BAD_CAP s
  end.

Context (h : host).

Definition recv_kern s : outcome :=
  let cur := current s in
  x ← rcap (ecs s cur);
  let c := cont (ecs s x) in
  '(fpu, s) ←
    (if bool_decide (c = Some Ret_user_iret) then
       u ← ec_utcb (ecs s cur);
       let '(fpu, u) := load_exc (regs_of x s) u in
       Some (fpu, upd_ec cur (set_ec_utcb (Some u)) s)
     else if bool_decide (c = Some Ret_user_vmresume) then
       u ← ec_utcb (ecs s cur);
       let '(t, e) := rdtsc (env (wd s)) in
       let '(fpu, u) := load_vmx h t (cpu_regs (ecs s x)) u in
       Some (fpu, upd_ec cur (set_ec_utcb (Some u)) (run_env (λ _, e) s))
     else if bool_decide (c = Some Ret_user_vmrun) then
       u ← ec_utcb (ecs s cur);
       let '(t, e) := rdtsc (env (wd s)) in
       let '(fpu, u) := load_svm h t (cpu_regs (ecs s x)) u in
       Some (fpu, upd_ec cur (set_ec_utcb (Some u)) (run_env (λ _, e) s))
     else Some (false, s));
  s ← (if fpu : bool then
         u ← ec_utcb (ecs s cur);
         let '(u, e) := export_fpu x u (env (wd s)) in
         Some (upd_ec cur (set_ec_utcb (Some u)) (run_env (λ _, e) s))
       else Some s);
  ret_user_sysexit s.

Definition recv_user s : outcome :=
  let cur := current s in
  x ← rcap (ecs s cur);
  su ← ec_utcb (ecs s x);
  du ← ec_utcb (ecs s cur);
  let s := upd_ec cur (set_ec_utcb (Some (save su du))) s in
  if truthy (tcnt su) then delegate_items true ret_user_sysexit s else ret_user_sysexit s.

(** The state that the reply carries. *)
Definition deliver (x : obj) (src : utcb) s : option (kernel E) :=
  let c := cont (ecs s x) in
  '(fpu, s) ←
    (if waits_for_user c then
       u ← ec_utcb (ecs s x); Some (false, upd_ec x (set_ec_utcb (Some (save src u))) s)
     else if bool_decide (c = Some Ret_user_iret) then
       let '(fpu, r) := save_exc src (regs_of x s) in Some (fpu, upd_regs_of x (λ _, r) s)
     else if bool_decide (c = Some Ret_user_vmresume) then
       '(fpu, v) ← save_vmx h src (cpu_regs (ecs s x)); Some (fpu, upd_ec x (set_cpu_regs v) s)
     else if bool_decide (c = Some Ret_user_vmrun) then
       '(fpu, v) ← save_svm h src (cpu_regs (ecs s x)); Some (fpu, upd_ec x (set_cpu_regs v) s)
     else Some (false, s));
  Some (if fpu : bool then run_env (import_fpu x src) s else s).

(** The semaphore of a reply: kept over the wait for memory, or named by the
    user. *)
Definition reply_sm s : option obj * kernel E :=
  let cur := current s in
  let r := regs_of cur s in
  if bool_decide (cont (ecs s cur) = Some Sys_reply) && negb (status r =? SYSCALL_REPLY) then
    (Some (Z.to_nat (Sys_reply_sm_kern r)), upd_regs_of cur (set_pt SYSCALL_REPLY) s)
  else if truthy (Sys_reply_sm r) then
    match lookup (pd_current s) (Sys_reply_sm r) (env (wd s)) with
    | KSm sm prm => (if truthy (prm .& 2)%W then Some sm else None, s)
    | _ => (None, s)
    end
  else (None, s).

(** What becomes of the caller [x] when a semaphore is given: whether the reply
    is over. *)
Definition defer (sm : option obj) (x : obj) s : option (bool * kernel E) :=
  let c := cont (ecs s x) in
  match sm with
  | None => Some (false, s)
  | Some sm =>
    if bool_decide (c = Some Ret_user_sysexit) then Some (false, upd_ec x (set_cont (Some Sys_call)) s)
    else if bool_decide (c = Some Xcpu_return) then Some (false, upd_regs_of x (set_status (status_val BAD_HYP) false) s)
    else if bool_decide (c = Some Sys_reply) then
      if negb (status (regs_of x s) =? SYSCALL_REPLY) then None
      else
        let s := upd_regs_of x (set_pt (Z.of_nat sm)) s in
        if status (regs_of x s) =? SYSCALL_REPLY then None else Some (true, s)
    else Some (false, s)
  end.

Definition sys_reply s : outcome :=
  let cur := current s in
  match rcap (ecs s cur) with
  | None => reply None None s
  | Some x =>
    let '(sm, s) := reply_sm s in
    '(over, s) ← defer sm x s;
    if over : bool then reply None None s
    else
      src ← ec_utcb (ecs s cur);
      let last s :=
        if bool_decide (cont (ecs s cur) = Some Ret_xcpu_reply) then None
        else s ← deliver x src s; reply None sm s in
      if truthy (tcnt src) then delegate_items false last s else last s
  end.

(** ** Continuations *)

Definition run (c : continuation) s : outcome :=
  match c with
  | Ret_user_sysexit => ret_user_sysexit s
  | Ret_user_iret => ret_user_iret s
  | Ret_user_vmresume => ret_user_vmresume s
  | Ret_user_vmrun => ret_user_vmrun s
  | Recv_kern => recv_kern s
  | Recv_user => recv_user s
  | Sys_call => sys_call s
  | Sys_reply => sys_reply s
  | Send_msg c => send_msg c s
  | Sys_finish st => sys_finish st s
  | Dead => die s
  | Xcpu_return => Some (Other XCPU_RETURN, s)
  | Ret_xcpu_reply => Some (Other RET_XCPU_REPLY, s)
  | Idle => Some (Other IDLE, s)
  | Handler n => Some (Other (5 + n), s)
  end.
End spaces.
End hops.
End kernel.
