(* ===== verification/IpcSound.v ===== *)
(** The kernel of execution contexts never gets stuck: [src/ec.cpp],
    [include/ec.hpp] and the message passing of [src/syscall.cpp].

    The invariant [sound] of the execution contexts: partners and their [rcap]
    name each other, calls form chains, waiting and idle contexts have the
    continuations and the user memory their callers rely on, and every
    reference is accounted for.  Every handler of [Ipc.run] that starts in a
    sound state ends in one: no assertion fails and no null pointer is read.
    The steps of the kernel are a relation; soundness holds in every state
    reached without the destruction of a semaphore that lets a virtual CPU go
    ([kept_step]). *)
From S2P Require Import Prelude Bits Quota Rcu Crd Queue Vregs Sysargs Utcb Avl AvlRemove Mdb Space Derivation Pd Ipc.
Local Open Scope Z_scope.

(** A context with a UTCB is a thread, one without a virtual CPU. *)
Definition thread (e : ec) : bool := match ec_utcb e with Some _ => true | None => false end.

(** The continuations that threads and virtual CPUs may have while nobody waits
    for another CPU or for memory. *)
Definition fits (u : bool) (c : continuation) : bool :=
  match c with
  | Ret_user_sysexit | Ret_user_iret | Recv_kern | Recv_user | Sys_call | Sys_finish _ => u
  | Ret_user_vmresume | Ret_user_vmrun => negb u
  | Send_msg Ret_user_sysexit | Send_msg Ret_user_iret => u
  | Send_msg Ret_user_vmresume | Send_msg Ret_user_vmrun => negb u
  | Dead | Idle | Handler _ => true
  | _ => false
  end.

Definition returns_to_user (c : continuation) : bool :=
  match c with Ret_user_sysexit | Ret_user_iret | Ret_user_vmresume | Ret_user_vmrun => true | _ => false end.

Definition entering (c : continuation) : bool :=
  match c with Recv_kern | Recv_user => true | _ => false end.

(** What the invariant reads of a context. *)
Record shape := Shape {
  sh_cont : option continuation; sh_partner : option obj; sh_rcap : option obj; sh_queued : bool;
  sh_cpu : Z; sh_glb : Z; sh_thread : bool; sh_oom : option obj; sh_xcpu : option obj; sh_refs : refcount
}.
Definition shape_of (e : ec) : shape :=
  Shape (cont e) (partner e) (rcap e) (queued e) (cpu e) (glb e) (thread e) (pt_oom e) (xcpu_sm e) (refs e).

(** Decide equalities of contexts. *)
Ltac sites :=
  repeat match goal with
    | |- context [decide (?a = ?b)] =>
      first [rewrite (decide_True (P := a = b)) by done | rewrite (decide_False (P := a = b)) by done
            | destruct (decide (a = b)); [subst|]]
    end.

Section sound.
Context {E : Type} `{PdEnv E} `{IpcEnv E}.
Implicit Type s : kernel E.

(** Two states that differ in nothing the invariant reads. *)
Record alike s s' : Prop := {
  al_shape x : shape_of (ecs s x) = shape_of (ecs s' x);
  al_current : current s = current s';
  al_pts p : pts s p = pts s' p;
  al_scs z : scs s z = scs s' z;
}.

#[export] Instance alike_equiv : Equivalence alike.
Proof.
  split.
  - by intros s.
  - intros s s' []. by split.
  - intros s1 s2 s3 [A B C F] [A' B' C' F']. split; [intros x; by rewrite A|by rewrite B|intros p; by rewrite C|].
    intros z. by rewrite F.
Qed.

(** [n] partners lead from a context to the last one. *)
Inductive chain s : obj → nat → obj → Prop :=
  | chain_end x : partner (ecs s x) = None → chain s x 0 x
  | chain_next x y n z : partner (ecs s x) = Some y → chain s y n z → chain s x (S n) z.

(** The contexts that exist, and the references to them that are not those of
    this file: of capabilities, portals and the owner of the FPU. *)
Context (D : list obj) (count : obj → Z).
Hypothesis count_ok : ∀ x, 1 ≤ count x < 2 ^ 32 - 8.

(** The references to [x]: of its partner, of its caller, of the semaphore it
    waits for and of the CPU it runs on. *)
Definition owed s (x : obj) : Z :=
  count x + Z.b2z (bool_decide (partner (ecs s x) ≠ None)) + Z.b2z (bool_decide (rcap (ecs s x) ≠ None))
  + Z.b2z (queued (ecs s x)) + Z.b2z (bool_decide (current s = x)).

Record ec_ok s (x : obj) : Prop := {
  eo_wait : partner (ecs s x) ≠ None → cont (ecs s x) ≠ None ∧ queued (ecs s x) = false;
  eo_idle : cont (ecs s x) = None →
    rcap (ecs s x) = None ∧ queued (ecs s x) = false ∧ thread (ecs s x) = true;
  eo_fits c : cont (ecs s x) = Some c → x ∈ D ∧ fits (thread (ecs s x)) c = true;
  eo_recv c : cont (ecs s x) = Some c → entering c = true → rcap (ecs s x) ≠ None;
  eo_glb : rcap (ecs s x) ≠ None → glb (ecs s x) = 0;
  eo_word : word 16 (cpu (ecs s x)) ∧ word 16 (glb (ecs s x));
  eo_oom : pt_oom (ecs s x) = None ∧ xcpu_sm (ecs s x) = None;
  eo_refs : refs (ecs s x) = owed s x;
}.

Record sound s : Prop := {
  so_ec x : ec_ok s x;
  so_link x y : partner (ecs s x) = Some y ↔ rcap (ecs s y) = Some x;
  so_chain x : ∃ n y, chain s x n y;
  so_call x y : rcap (ecs s y) = Some x → cont (ecs s y) = Some Recv_user → thread (ecs s x) = true;
  so_portal p : pt_ec (pts s p) ∈ D;
}.

Definition can_run s (x : obj) : Prop :=
  partner (ecs s x) = None ∧ cont (ecs s x) ≠ None ∧ queued (ecs s x) = false.

Definition scs_ok s : Prop := ∀ z, 1 ≤ sc_refs (scs s z) < 2 ^ 32 - 1.

(** A state inside of a handler. *)
Definition calm s : Prop := sound s ∧ can_run s (current s) ∧ scs_ok s.

(** A handler ends well. *)
Definition good (o : outcome) : Prop :=
  ∃ n s, o = Some (n, s) ∧ sound s ∧
    match n with
    | Schedule _ => True
    | User k => can_run s (current s) ∧ scs_ok s ∧ returns_to_user k = true ∧ fits (thread (ecs s (current s))) k = true
    | _ => can_run s (current s) ∧ scs_ok s
    end.

(** ** Changes that keep the invariant *)

Lemma shape_eq e e' : shape_of e = shape_of e' →
  cont e = cont e' ∧ partner e = partner e' ∧ rcap e = rcap e' ∧ queued e = queued e' ∧ cpu e = cpu e' ∧
  glb e = glb e' ∧ thread e = thread e' ∧ pt_oom e = pt_oom e' ∧ xcpu_sm e = xcpu_sm e' ∧ refs e = refs e'.
Proof. intros [=]. by split_and!. Qed.

Lemma chain_ext s s' x n y : (∀ z, partner (ecs s z) = partner (ecs s' z)) → chain s x n y → chain s' x n y.
Proof. intros He. induction 1; econstructor; [by rewrite <-He|by rewrite <-He|done]. Qed.

(** The links and kinds of all contexts are the same; each is still right. *)
Lemma sound_same_links s s' :
  sound s →
  (∀ z, partner (ecs s' z) = partner (ecs s z) ∧ rcap (ecs s' z) = rcap (ecs s z) ∧ thread (ecs s' z) = thread (ecs s z)) →
  (∀ z, cont (ecs s' z) = Some Recv_user → cont (ecs s z) = Some Recv_user) →
  (∀ p, pt_ec (pts s' p) ∈ D) →
  (∀ z, ec_ok s' z) → sound s'.
Proof.
  intros [Sec Slink Schain Scall _] Hz Hr Hp Hok. split; [done| | | |done].
  - intros x y. destruct (Hz x) as (-> & _ & _), (Hz y) as (_ & -> & _). apply Slink.
  - intros x. destruct (Schain x) as (n & y & Hn). exists n, y. eapply chain_ext, Hn. intros z. by destruct (Hz z).
  - intros x y. destruct (Hz x) as (_ & _ & ->), (Hz y) as (_ & -> & _). intros Hx Hc. by apply (Scall x y), Hr.
Qed.

Lemma sound_alike s s' : alike s s' → sound s → sound s'.
Proof.
  intros [A B C _] HS. apply (sound_same_links s s' HS).
  - intros z. by destruct (shape_eq _ _ (A z)) as (_ & -> & -> & _ & _ & _ & -> & _).
  - intros z. by destruct (shape_eq _ _ (A z)) as (-> & _).
  - intros p. rewrite <-C. apply HS.
  - intros z. destruct (so_ec _ HS z) as [E1 E2 E3 E4 E5 E6 E7 E8]. unfold owed in E8.
    destruct (shape_eq _ _ (A z)) as (H1 & H2 & H3 & H4 & H5 & H6 & H7 & H8 & H9 & H10).
    rewrite H1, ?H2, ?H3, ?H4, ?H5, ?H6, ?H7, ?H8, ?H9, ?H10, ?B in *. by split.
Qed.

#[export] Instance sound_proper : Proper (alike ==> iff) sound.
Proof. intros s s' Hs. split; apply sound_alike; [done|by symmetry]. Qed.

#[export] Instance can_run_proper : Proper (alike ==> eq ==> iff) can_run.
Proof.
  intros s s' [A _ _ _] x _ <-. unfold can_run. by destruct (shape_eq _ _ (A x)) as (-> & -> & _ & -> & _).
Qed.

#[export] Instance scs_ok_proper : Proper (alike ==> iff) scs_ok.
Proof. intros s s' [_ _ _ F]. unfold scs_ok. by setoid_rewrite F. Qed.

#[export] Instance current_proper : Proper (alike ==> eq) (@current E).
Proof. intros s s' Hs. apply al_current, Hs. Qed.

#[export] Instance calm_proper : Proper (alike ==> iff) calm.
Proof. intros s s' Hs. unfold calm. by rewrite Hs. Qed.

Lemma ecs_upd x f s z : ecs (upd_ec x f s) z = if decide (z = x) then f (ecs s x) else ecs s z.
Proof.
  unfold upd_ec. simpl. destruct (decide (z = x)) as [->|Hn]; [by rewrite fn_lookup_insert|by rewrite fn_lookup_insert_ne].
Qed.

Lemma alike_upd x f s : shape_of (f (ecs s x)) = shape_of (ecs s x) → alike (upd_ec x f s) s.
Proof. intros Hf. split; [|done..]. intros z. rewrite ecs_upd. by case_decide; subst. Qed.

Lemma alike_regs x f s : alike (upd_regs_of x f s) s.
Proof. by apply alike_upd. Qed.

Lemma alike_vcpu x v s : alike (upd_ec x (set_cpu_regs v) s) s.
Proof. by apply alike_upd. Qed.

Lemma alike_env f s : alike (run_env f s) s.
Proof. by split. Qed.
Lemma alike_hazard f s : alike (with_hazard f s) s.
Proof. by split. Qed.
Lemma alike_link n s : alike (set_link n s) s.
Proof. by split. Qed.
Lemma alike_wd w s : alike (set_wd w s) s.
Proof. by split. Qed.
Lemma alike_pd p s : alike (set_pd_current p s) s.
Proof. by split. Qed.
Lemma alike_utcb x u s : thread (ecs s x) = true → alike (upd_ec x (set_ec_utcb (Some u)) s) s.
Proof. intros Ht. apply alike_upd. unfold shape_of. rewrite Ht. done. Qed.

Lemma tsc_aux_cases x s :
  check_hazard_tsc_aux x s = s ∨
  check_hazard_tsc_aux x s = upd_regs_of x (Vregs.set_hazard HZD_TSC_AUX) s ∧
    (thread (ecs s x) = false ∨ thread (ecs s (current s)) = false).
Proof.
  assert (∀ e, vcpu_ec e = true → thread e = false) as Hv
    by (intros e; unfold vcpu_ec, thread; by destruct (ec_utcb e)).
  unfold check_hazard_tsc_aux. destruct (vcpu_ec (ecs s (current s))) eqn:Ec, (vcpu_ec (ecs s x)) eqn:Ex;
    apply Hv in Ec || clear Ec; apply Hv in Ex || clear Ex; simpl; repeat case_match; auto.
Qed.

Lemma alike_tsc_aux x s : alike (check_hazard_tsc_aux x s) s.
Proof. destruct (tsc_aux_cases x s) as [->|[-> _]]; [done|apply alike_regs]. Qed.

(** ** References *)

Lemma refs_range s x : sound s → 1 ≤ refs (ecs s x) < 2 ^ 32 - 3.
Proof.
  intros HS. rewrite (eo_refs _ _ (so_ec _ HS x)). unfold owed. pose proof (count_ok x).
  destruct (bool_decide _), (bool_decide _), (queued _), (bool_decide _); simpl; lia.
Qed.

Lemma refs_current s : sound s → 1 < refs (ecs s (current s)).
Proof.
  intros HS. rewrite (eo_refs _ _ (so_ec _ HS _)). unfold owed. rewrite (bool_decide_true (current s = current s)) by done.
  pose proof (count_ok (current s)). destruct (bool_decide _), (bool_decide _), (queued _); simpl; lia.
Qed.

Lemma refs_partner s x y : sound s → partner (ecs s x) = Some y → 1 < refs (ecs s x).
Proof.
  intros HS Hp. rewrite (eo_refs _ _ (so_ec _ HS x)). unfold owed. rewrite Hp. pose proof (count_ok x).
  rewrite (bool_decide_true (Some _ ≠ None)) by done. destruct (bool_decide _), (bool_decide _), (queued _); simpl; lia.
Qed.

Lemma hold_run s x :
  1 ≤ refs (ecs s x) < 2 ^ 32 - 1 → hold x s = Some (upd_ec x (set_refs (refs (ecs s x) + 1)) s).
Proof.
  intros Hr. unfold hold. destruct (refcount_spec (refs (ecs s x))) as (-> & _); [lia|].
  by rewrite decide_False by lia.
Qed.

Lemma drop_run s x :
  1 < refs (ecs s x) < 2 ^ 32 - 1 → drop x s = upd_ec x (set_refs (refs (ecs s x) - 1)) s.
Proof.
  intros Hr. unfold drop. destruct (refcount_spec (refs (ecs s x))) as (_ & _ & Hd); [lia|].
  rewrite Hd by lia. by rewrite decide_False by lia.
Qed.

Lemma bare_eq e e' : shape_of (set_refs 0 e) = shape_of (set_refs 0 e') →
  cont e = cont e' ∧ partner e = partner e' ∧ rcap e = rcap e' ∧ queued e = queued e' ∧ cpu e = cpu e' ∧
  glb e = glb e' ∧ thread e = thread e' ∧ pt_oom e = pt_oom e' ∧ xcpu_sm e = xcpu_sm e'.
Proof. intros [=]. by split_and!. Qed.

Lemma shape_bare e e' : shape_of e = shape_of e' → shape_of (set_refs 0 e) = shape_of (set_refs 0 e').
Proof.
  intros (? & ? & ? & ? & ? & ? & ? & ? & ? & _)%shape_eq.
  change (Shape (cont e) (partner e) (rcap e) (queued e) (cpu e) (glb e) (thread e) (pt_oom e) (xcpu_sm e) 0 =
    Shape (cont e') (partner e') (rcap e') (queued e') (cpu e') (glb e') (thread e') (pt_oom e') (xcpu_sm e') 0).
  congruence.
Qed.

(** ** Switching contexts *)

(** [s'] is [s] with [x] on the CPU. *)
Record switched x s s' : Prop := {
  sw_shape z : shape_of (set_refs 0 (ecs s' z)) = shape_of (set_refs 0 (ecs s z));
  sw_refs z : refs (ecs s' z) =
    refs (ecs s z) - Z.b2z (bool_decide (current s = z)) + Z.b2z (bool_decide (x = z));
  sw_current : current s' = x;
  sw_pts p : pts s' p = pts s p;
  sw_scs z : scs s' z = scs s z;
  sw_link : ctr_link s' = ctr_link s;
  sw_sc : sc_current s' = sc_current s;
  sw_hazard : Pd.hazard (wd s') = Pd.hazard (wd s);
  sw_utcb z : ec_utcb (ecs s' z) = ec_utcb (ecs s z);
  sw_regs z : thread (ecs s x) = true → thread (ecs s (current s)) = true → cpu_regs (ecs s' z) = cpu_regs (ecs s z);
}.

Lemma sound_switched x s s' : switched x s s' → sound s → sound s'.
Proof.
  intros [A R B C _ _ _ _ _ _] HS. apply (sound_same_links s s' HS).
  - intros z. by destruct (bare_eq _ _ (A z)) as (_ & -> & -> & _ & _ & _ & -> & _).
  - intros z. by destruct (bare_eq _ _ (A z)) as (-> & _).
  - intros p. rewrite C. apply HS.
  - intros z. destruct (so_ec _ HS z) as [E1 E2 E3 E4 E5 E6 E7 E8]. unfold owed in E8.
    destruct (bare_eq _ _ (A z)) as (H1 & H2 & H3 & H4 & H5 & H6 & H7 & H8 & H9).
    split; rewrite ?H1, ?H2, ?H3, ?H4, ?H5, ?H6, ?H7, ?H8, ?H9; try done.
    rewrite R. unfold owed. rewrite H2, H3, H4, E8, B. lia.
Qed.

(** What switching leaves alone. *)
Record quiet x s s' : Prop := {
  qu_link : ctr_link s' = ctr_link s;
  qu_sc : sc_current s' = sc_current s;
  qu_hazard : Pd.hazard (wd s') = Pd.hazard (wd s);
  qu_utcb z : ec_utcb (ecs s' z) = ec_utcb (ecs s z);
  qu_regs z : thread (ecs s x) = true → thread (ecs s (current s)) = true → cpu_regs (ecs s' z) = cpu_regs (ecs s z);
}.

Lemma quiet_tsc_aux x s : quiet x s (check_hazard_tsc_aux x s).
Proof.
  destruct (tsc_aux_cases x s) as [->|[-> Ht]]; [done|]. split; [done..| |].
  - intros z. unfold upd_regs_of. rewrite ecs_upd. by sites; subst.
  - intros z Hx Hc. destruct Ht; congruence.
Qed.

Lemma switch_run x s :
  sound s → ∃ s', make_current x s = Some (Jump, s') ∧ switched x s s'.
Proof.
  intros HS. unfold make_current.
  assert (1 < refs (ecs s (current s)) < 2 ^ 32 - 1) as Hc by (pose proof (refs_range s (current s) HS); pose proof (refs_current s HS); lia).
  rewrite drop_run by done. set (s1 := upd_ec _ _ s).
  set (s2 := check_hazard_tsc_aux x (run_env (claim_fpu x) s1)).
  assert (alike s2 s1) as A2 by (unfold s2; by rewrite alike_tsc_aux, alike_env).
  pose proof (quiet_tsc_aux x (run_env (claim_fpu x) s1)) as Q2. fold s2 in Q2.
  destruct (rdtsc _) as [t e]. set (s3 := upd_ec (current (run_env (λ _, e) s2)) _ (run_env (λ _, e) s2)).
  assert (alike s3 s1) as A3.
  { transitivity (run_env (λ _, e) s2); [by apply alike_upd|by rewrite alike_env]. }
  set (s4 := upd_ec x (λ c, set_times t (time c) c) (set_current x s3)).
  assert (∀ z, shape_of (ecs s4 z) = shape_of (ecs s1 z)) as A4.
  { intros z. unfold s4. rewrite ecs_upd. simpl. destruct (decide (z = x)) as [->|]; apply A3. }
  assert (refs (ecs s4 x) = refs (ecs s1 x)) as R4 by apply (shape_eq _ _ (A4 x)).
  assert (1 ≤ refs (ecs s1 x) < 2 ^ 32 - 1) as R1.
  { unfold s1. rewrite ecs_upd. pose proof (refs_range s x HS). case_decide; subst; simpl; lia. }
  rewrite hold_run by lia. simpl. eexists. split; [reflexivity|].
  assert (∀ z, ec_utcb (ecs s4 z) = ec_utcb (ecs s2 z) ∧ cpu_regs (ecs s4 z) = cpu_regs (ecs s2 z)) as Q4.
  { intros z. assert (ec_utcb (ecs s3 z) = ec_utcb (ecs s2 z) ∧ cpu_regs (ecs s3 z) = cpu_regs (ecs s2 z)).
    { unfold s3. rewrite ecs_upd. by destruct (decide (z = current (run_env (λ _, e) s2))) as [->|]. }
    unfold s4. rewrite ecs_upd. by destruct (decide (z = x)) as [->|]. }
  assert (∀ z, ec_utcb (ecs s1 z) = ec_utcb (ecs s z) ∧ cpu_regs (ecs s1 z) = cpu_regs (ecs s z)) as Q1.
  { intros z. unfold s1. rewrite ecs_upd. by sites; subst. }
  split; [| |done| | |exact (qu_link _ _ _ Q2)|exact (qu_sc _ _ _ Q2)|exact (qu_hazard _ _ _ Q2)| |].
  - intros z. transitivity (shape_of (set_refs 0 (ecs s4 z))).
    { simpl. destruct (decide (z = x)) as [->|]; [by rewrite fn_lookup_insert|by rewrite fn_lookup_insert_ne]. }
    transitivity (shape_of (set_refs 0 (ecs s1 z))); [by apply shape_bare|].
    unfold s1. rewrite ecs_upd. by case_decide; subst.
  - intros z. assert (refs (ecs s1 z) = refs (ecs s z) - Z.b2z (bool_decide (current s = z))) as Hz.
    { unfold s1. rewrite ecs_upd. case_decide; subst; [by rewrite bool_decide_true|].
      rewrite bool_decide_false by done. simpl. lia. }
    rewrite <-Hz. assert (refs (ecs s4 z) = refs (ecs s1 z)) as R4' by apply (shape_eq _ _ (A4 z)).
    destruct (decide (z = x)) as [->|].
    + rewrite bool_decide_true, <-R4' by done. simpl. rewrite fn_lookup_insert. reflexivity.
    + rewrite bool_decide_false by done. simpl Z.b2z. rewrite Z.add_0_r, <-R4'. simpl.
      rewrite fn_lookup_insert_ne by done. reflexivity.
  - exact (al_pts _ _ A3).
  - exact (al_scs _ _ A3).
  - intros z. transitivity (ec_utcb (ecs s4 z)).
    { simpl. destruct (decide (z = x)) as [->|]; [by rewrite fn_lookup_insert|by rewrite fn_lookup_insert_ne]. }
    destruct (Q4 z) as [-> _], (Q1 z) as [<- _]. apply Q2.
  - intros z Hx Hy. transitivity (cpu_regs (ecs s4 z)).
    { simpl. destruct (decide (z = x)) as [->|]; [by rewrite fn_lookup_insert|by rewrite fn_lookup_insert_ne]. }
    destruct (Q4 z) as [_ ->], (Q1 z) as [_ <-].
    assert (∀ y, thread (ecs s1 y) = thread (ecs s y)) as T1 by (intros y; unfold thread; by rewrite (proj1 (Q1 y))).
    apply (qu_regs _ _ _ Q2); [exact (eq_trans (T1 x) Hx)|exact (eq_trans (T1 _) Hy)].
Qed.

Lemma switched_calm x s s' : sound s → can_run s x → switched x s s' → scs_ok s → calm s'.
Proof.
  intros HS Hx Hsw Hq. split; [by eapply sound_switched|].
  pose proof (sw_shape _ _ _ Hsw x) as Hz. rewrite (sw_current _ _ _ Hsw).
  apply bare_eq in Hz as (H1 & H2 & _ & H4 & _). unfold can_run. rewrite H1, H2, H4. split; [done|].
  intros z. rewrite (sw_scs _ _ _ Hsw). apply Hq.
Qed.

Lemma make_current_good x s : sound s → scs_ok s → can_run s x → good (make_current x s).
Proof.
  intros HS Hq Hx. destruct (switch_run x s HS) as (s' & -> & Hsw). exists Jump, s'.
  destruct (switched_calm x s s' HS Hx Hsw Hq) as (? & ? & ?). done.
Qed.

(** ** Following the partners *)

Lemma chain_fun s x n y n' y' : chain s x n y → chain s x n' y' → n = n' ∧ y = y'.
Proof.
  intros Hc. revert n'. induction Hc as [x Hx|x z n y Hx Hc IH]; inversion 1; subst; [done|congruence..|].
  assert (y0 = z) as -> by congruence. by destruct (IH n0) as [-> ->].
Qed.

Lemma chain_last s x n y : chain s x n y → partner (ecs s y) = None.
Proof. by induction 1. Qed.

(** The contexts of a chain are different and exist, so that it is no longer
    than their list. *)
Lemma chain_bound s x n y : sound s → chain s x n y → (n ≤ length D)%nat.
Proof.
  intros HS Hc. enough (∃ l : list obj, length l = n ∧ NoDup l ∧
    (∀ z, z ∈ l → partner (ecs s z) ≠ None ∧ ∃ k, chain s z k y ∧ (k ≤ n)%nat)) as (l & <- & HN & Hl).
  { apply submseteq_length, NoDup_submseteq; [done|]. intros z Hz. destruct (Hl z Hz) as [Hp _].
    destruct (so_ec _ HS z) as [Hw _ Hf _ _ _ _ _]. destruct (Hw Hp) as [Hn _].
    destruct (cont (ecs s z)) as [c|] eqn:E2; [|done]. by destruct (Hf c). }
  induction Hc as [x Hx|x z n y Hx Hc IH].
  - exists []. split_and!; [done|constructor|]. by intros z ?%not_elem_of_nil.
  - destruct IH as (l & Hlen & HN & Hl). exists (x :: l). split_and!; [by simpl; rewrite Hlen| |].
    + apply list.NoDup_cons. split; [|done]. intros (_ & k & Hk & Hle)%Hl.
      destruct (chain_fun s x k y (S n) y); [done|by econstructor|lia].
    + intros w [->|Hw]%elem_of_cons; [by split; [congruence|exists (S n); split; [by econstructor|]]|].
      destruct (Hl w Hw) as (? & k & ? & ?). split; [done|]. exists k. split; [done|lia].
Qed.

Lemma link_link m n s : set_link (ctr_link (set_link m s) + n) (set_link m s) = set_link (m + n) s.
Proof. unfold set_link. simpl. f_equal. unfold wrap. by rewrite Zplus_mod_idemp_l. Qed.

Lemma follow_run s x n y : chain s x n y → ∀ hops m, (n ≤ hops)%nat →
  follow hops x (set_link m s) = Some (y, set_link (m + Z.of_nat n) s).
Proof.
  induction 1 as [x Hx|x z n y Hx Hc IH]; intros hops m Hn.
  - destruct hops; simpl; rewrite Hx, Z.add_0_r; done.
  - destruct hops as [|hops]; [lia|]. cbn [follow]. change (ecs (set_link m s)) with (ecs s). rewrite Hx.
    rewrite link_link, IH by lia. do 3 f_equal. lia.
Qed.

Lemma activate_run hops s x : sound s → (length D ≤ hops)%nat →
  ∃ n y, chain s x n y ∧ activate hops x s =
    let s := set_link (Z.of_nat n) s in if blocked (ecs s y) then block_sc y (make_current y) s else make_current y s.
Proof.
  intros HS Hh. destruct (so_chain _ HS x) as (n & y & Hc). exists n, y. split; [done|].
  unfold activate. rewrite (follow_run s x n y Hc); [|by pose proof (chain_bound s x n y HS Hc); lia]. done.
Qed.

Lemma sound_set_sc z v s : sound s → sound (set_sc z v s).
Proof. intros HS. apply (sound_same_links s _ HS); try done; [apply HS|]. intros x. by destruct (so_ec _ HS x). Qed.

Lemma block_good x back s : sound s → scs_ok s → blocked (ecs s x) = true → good (block_sc x back s).
Proof.
  intros HS Hq Hbl. unfold block_sc, hold_sc. rewrite Hbl. cbn [negb].
  destruct (refcount_spec (sc_refs (scs s (sc_current s)))) as (-> & _); [specialize (Hq (sc_current s)); lia|].
  rewrite decide_False by (specialize (Hq (sc_current s)); lia). simpl. eexists _, _. split; [reflexivity|]. split; [|done].
  eapply sound_alike; [symmetry; by apply alike_upd|]. by apply sound_set_sc.
Qed.

(** ** Continuations and links *)

Lemma sound_set_cont x c s :
  sound s → x ∈ D → fits (thread (ecs s x)) c = true → entering c = false → sound (upd_ec x (set_cont (Some c)) s).
Proof.
  intros HS Hx Hf He. apply (sound_same_links s _ HS).
  - intros z. rewrite ecs_upd. by case_decide; subst.
  - intros z. rewrite ecs_upd. case_decide; [|done]. by simpl; intros [= ->].
  - apply HS.
  - intros z. destruct (so_ec _ HS z) as [E1 E2 E3 E4 E5 E6 E7 E8].
    split; unfold owed in *; rewrite ?ecs_upd; destruct (decide (z = x)) as [->|]; simpl; try done.
    + intros Hp. by split; [|apply E1].
    + by intros c' [= <-].
    + intros c' [= <-]. by rewrite He.
Qed.

Lemma can_run_D s x : sound s → can_run s x → x ∈ D.
Proof.
  intros HS (_ & Hc & _). destruct (cont (ecs s x)) as [c|] eqn:E1; [|done].
  by destruct (eo_fits _ _ (so_ec _ HS x) c E1).
Qed.

Lemma calm_set_cont c s :
  calm s → fits (thread (ecs s (current s))) c = true → entering c = false →
  calm (upd_ec (current s) (set_cont (Some c)) s).
Proof.
  intros (HS & Hr & Hq) Hf He. split_and!; [|split_and!|done].
  - apply sound_set_cont; try done. by eapply can_run_D.
  - cbn [current upd_ec]. rewrite ecs_upd, decide_True by done. apply Hr.
  - cbn [current upd_ec]. by rewrite ecs_upd, decide_True.
  - cbn [current upd_ec]. rewrite ecs_upd, decide_True by done. apply Hr.
Qed.

(** ** Connecting and disconnecting *)

(** [s'] is [s] but for the contexts and the length of the chain. *)
Record beside s s' : Prop := {
  be_current : current s' = current s;
  be_sc : sc_current s' = sc_current s;
  be_pd : pd_current s' = pd_current s;
  be_wd : wd s' = wd s;
  be_pts : pts s' = pts s;
  be_scs : scs s' = scs s;
}.

Lemma set_partner_run x y s :
  x ≠ y → 1 ≤ refs (ecs s x) < 2 ^ 32 - 1 → 1 ≤ refs (ecs s y) < 2 ^ 32 - 1 →
  ∃ s', set_partner x y s = Some s' ∧ beside s s' ∧ ctr_link s' = wrap 32 (ctr_link s + 1) ∧
    ∀ z, ecs s' z = if decide (z = x) then set_partner_of (Some y) (set_refs (refs (ecs s x) + 1) (ecs s x))
                    else if decide (z = y) then set_rcap (Some x) (set_refs (refs (ecs s y) + 1) (ecs s y))
                    else ecs s z.
Proof.
  intros Hn Hx Hy. unfold set_partner. rewrite hold_run by (rewrite ecs_upd; by sites).
  cbn [mbind option_bind]. rewrite hold_run by (rewrite !ecs_upd; by sites).
  cbn [mbind option_bind]. eexists. split_and!; [reflexivity|done|done|].
  intros z. cbn [ecs set_link]. rewrite !ecs_upd. by sites.
Qed.

Lemma clr_partner_run x s :
  x ≠ current s → partner (ecs s x) = Some (current s) → rcap (ecs s (current s)) = Some x →
  1 < refs (ecs s x) < 2 ^ 32 - 1 → 1 < refs (ecs s (current s)) < 2 ^ 32 - 1 →
  ∃ s', clr_partner x s = Some (truthy (ctr_link s), s') ∧ beside s s' ∧ ctr_link s' = wrap 32 (ctr_link s - 1) ∧
    ∀ z, ecs s' z = if decide (z = x) then set_partner_of None (set_refs (refs (ecs s x) - 1) (ecs s x))
                    else if decide (z = current s) then
                      set_rcap None (set_refs (refs (ecs s (current s)) - 1) (ecs s (current s)))
                    else ecs s z.
Proof.
  intros Hn Hp Hr Hx Hy. unfold clr_partner. rewrite Hp, bool_decide_true, Hr by done. cbn [negb].
  rewrite (drop_run (upd_ec (current s) (set_rcap None) s) x) by (rewrite ecs_upd; by sites).
  rewrite drop_run by (rewrite !ecs_upd; by sites).
  eexists. split_and!; [reflexivity|done|done|].
  intros z. cbn [ecs set_link]. rewrite !ecs_upd. by sites.
Qed.

Lemma chain_cut s s' x z n y :
  (∀ w, partner (ecs s' w) = if decide (w = x) then None else partner (ecs s w)) →
  chain s z n y → ∃ n' y', chain s' z n' y'.
Proof.
  intros Hp. induction 1 as [z Hz|z w n y Hz Hc (n' & y' & IH)].
  - exists 0%nat, z. constructor. rewrite Hp. by case_decide.
  - destruct (decide (z = x)) as [->|].
    + exists 0%nat, x. constructor. by rewrite Hp, decide_True.
    + exists (S n'), y'. econstructor; [|done]. by rewrite Hp, decide_False.
Qed.

Lemma chain_join s s' x y z n w :
  (∀ w, partner (ecs s' w) = if decide (w = x) then Some y else partner (ecs s w)) →
  partner (ecs s x) = None → partner (ecs s y) = None → x ≠ y →
  chain s z n w → ∃ n' w', chain s' z n' w'.
Proof.
  intros Hp Hx Hy Hn. induction 1 as [z Hz|z v n w Hz Hc (n' & w' & IH)].
  - destruct (decide (z = x)) as [->|].
    + exists 1%nat, y. econstructor; [by rewrite Hp, decide_True|]. constructor. rewrite Hp. by sites.
    + exists 0%nat, z. constructor. rewrite Hp. by sites.
  - exists (S n'), w'. econstructor; [|done]. rewrite Hp. destruct (decide (z = x)) as [->|]; [congruence|done].
Qed.

(** The current context leaves its caller [x] and gets the continuation [c]. *)
Lemma sound_disconnect x c s s' :
  sound s → can_run s (current s) → rcap (ecs s (current s)) = Some x →
  (c = None ∧ thread (ecs s (current s)) = true) ∨ c = Some Dead →
  current s' = current s → pts s' = pts s →
  (∀ z, ecs s' z = if decide (z = x) then set_partner_of None (set_refs (refs (ecs s x) - 1) (ecs s x))
                   else if decide (z = current s) then
                     set_rcap None (set_refs (refs (ecs s z) - 1) (set_cont c (ecs s z)))
                   else ecs s z) →
  x ≠ current s ∧ sound s' ∧ can_run s' x.
Proof.
  intros HS Hrun Hx Hc Hcur Hpts He. pose proof HS as [Sec Slink Schain Scall Sp].
  pose proof (proj2 (Slink x (current s)) Hx) as Hp.
  assert (x ≠ current s) as Hn by (intros ->; destruct Hrun; congruence).
  destruct (eo_wait _ _ (Sec x)) as [Hcx Hqx]; [congruence|].
  split; [done|]. split; [|by unfold can_run; rewrite He; sites].
  split.
  - intros z. destruct (Sec z) as [E1 E2 E3 E4 E5 E6 E7 E8]. destruct Hrun as (Hp0 & Hc0 & Hq0).
    unfold owed in E8. split; unfold owed; rewrite ?He, ?Hcur; sites; subst; simpl; try done.
    + intros ->. by destruct Hc as [[_ ?]|].
    + intros c' ->. destruct Hc as [[? _]|[= ->]]; [done|]. split; [by eapply can_run_D|done].
    + intros c' ->. by destruct Hc as [[? _]|[= ->]].
    + rewrite Hp in E8. simpl in *. lia.
    + rewrite Hx in E8. simpl in *. lia.
  - intros a b. rewrite !He. pose proof (Slink a b) as Hl. sites; subst; simpl; try done.
    all: split; try done; intros Ha; apply Hl in Ha; congruence.
  - intros z. destruct (Schain z) as (n & y & Hz). eapply chain_cut, Hz. intros w. rewrite He. by sites.
  - intros a b. rewrite !He. pose proof (Scall a b) as Hl. sites; subst; simpl; try done.
  - by rewrite Hpts.
Qed.

(** The current context calls the idle context [y], which starts in [c']. *)
Lemma sound_connect y c c' s s' :
  sound s → can_run s (current s) → cont (ecs s y) = None → y ∈ D → glb (ecs s y) = 0 →
  fits (thread (ecs s (current s))) c = true → entering c = false →
  entering c' = true → (c' = Recv_user → thread (ecs s (current s)) = true) →
  current s' = current s → (∀ p, pt_ec (pts s' p) = pt_ec (pts s p)) →
  (∀ z, ecs s' z = if decide (z = current s) then
                     set_partner_of (Some y) (set_refs (refs (ecs s z) + 1) (set_cont (Some c) (ecs s z)))
                   else if decide (z = y) then
                     set_cont (Some c') (set_rcap (Some (current s)) (set_refs (refs (ecs s y) + 1) (ecs s y)))
                   else ecs s z) →
  sound s' ∧ can_run s' y.
Proof.
  intros HS Hrun Hy HyD Hg Hf He Hf' Ht Hcur Hpts Hecs. pose proof HS as [Sec Slink Schain Scall Sp].
  destruct Hrun as (Hp0 & Hc0 & Hq0). destruct (eo_idle _ _ (Sec y) Hy) as (Hry & Hqy & Hty).
  assert (partner (ecs s y) = None) as Hpy.
  { destruct (partner (ecs s y)) eqn:Ep; [|done]. destruct (eo_wait _ _ (Sec y)); congruence. }
  assert (y ≠ current s) as Hn by congruence. split; [|unfold can_run; rewrite !Hecs; by sites]. split.
  - intros z. destruct (Sec z) as [E1 E2 E3 E4 E5 E6 E7 E8].
    unfold owed in E8. split; unfold owed; rewrite ?Hecs, ?Hcur; sites; subst; simpl; try done.
    + intros c1 [= <-]. split; [by eapply can_run_D|done].
    + intros c1 [= <-]. split; [done|]. change (fits (thread (ecs s y)) c' = true). rewrite Hty. by destruct c'.
    + intros c1 [= <-]. by rewrite He.
    + rewrite Hp0 in E8. simpl in *. lia.
    + rewrite Hry in E8. simpl in *. lia.
  - intros a b. rewrite !Hecs. pose proof (Slink a b) as Hl. sites; subst; simpl; try done.
    all: split; intros Ha; try (injection Ha as Ha; congruence); try (apply Hl in Ha; congruence); congruence.
  - intros z. destruct (Schain z) as (n & w & Hz). eapply (chain_join s s' (current s) y); try done.
    intros v. rewrite Hecs. by sites.
  - intros a b. rewrite !Hecs. pose proof (Scall a b) as Hl. sites; subst; simpl; try done.
    all: intros Hi [= Hj]; first [exact (Ht Hj) | subst; cbn in He; discriminate He | congruence].
  - intros p. by rewrite Hpts.
Qed.

Lemma xcpu_local s x y : sound s → cpu (ecs s x) = xcpu (ecs s y) → glb (ecs s y) = 0.
Proof.
  intros HS. destruct (eo_word _ _ (so_ec _ HS x)) as [Hx _], (eo_word _ _ (so_ec _ HS y)) as [Hy Hg].
  unfold xcpu, word in *. lia.
Qed.

Lemma caller_other s x : calm s → rcap (ecs s (current s)) = Some x →
  partner (ecs s x) = Some (current s) ∧ x ≠ current s.
Proof.
  intros (HS & (Hp & _) & _) Hx. assert (partner (ecs s x) = Some (current s)) by by apply HS.
  split; [done|congruence].
Qed.

Lemma alike_start y c p s : alike (start y c p s) (upd_ec y (set_cont (Some c)) s).
Proof. apply alike_regs. Qed.

Lemma alike_set_cont x c s s' : alike s s' → alike (upd_ec x (set_cont c) s) (upd_ec x (set_cont c) s').
Proof.
  intros [A B C F]. split; try done. intros z. rewrite !ecs_upd. destruct (decide (z = x)) as [->|]; [|done].
  destruct (shape_eq _ _ (A x)) as (H1 & H2 & H3 & H4 & H5 & H6 & H7 & H8 & H9 & H10).
  change (Shape c (partner (ecs s x)) (rcap (ecs s x)) (queued (ecs s x)) (cpu (ecs s x)) (glb (ecs s x))
      (thread (ecs s x)) (pt_oom (ecs s x)) (xcpu_sm (ecs s x)) (refs (ecs s x)) =
    Shape c (partner (ecs s' x)) (rcap (ecs s' x)) (queued (ecs s' x)) (cpu (ecs s' x)) (glb (ecs s' x))
      (thread (ecs s' x)) (pt_oom (ecs s' x)) (xcpu_sm (ecs s' x)) (refs (ecs s' x))).
  congruence.
Qed.

(** ** Handlers *)

Section hops.
Context (hops : nat) (Hhops : (length D ≤ hops)%nat).

Lemma activate_good x s : sound s → scs_ok s → good (activate hops x s).
Proof.
  intros HS Hq. destruct (activate_run hops s x HS Hhops) as (n & y & Hc & ->). cbv zeta.
  assert (alike (set_link (Z.of_nat n) s) s) as A by apply alike_link.
  case_match eqn:Eb; [by apply block_good; rewrite ?A|]. apply make_current_good; rewrite A; try done.
  change (ecs (set_link (Z.of_nat n) s)) with (ecs s) in Eb. unfold blocked in Eb. apply orb_false_iff in Eb as [Eq Ec].
  apply bool_decide_eq_false in Ec. split_and!; [by eapply chain_last|done|done].
Qed.

Lemma calm_sound s : calm s → sound s.
Proof. by intros [? _]. Qed.


Lemma help_good x c back s :
  calm s → fits (thread (ecs s (current s))) c = true → entering c = false →
  good (back s) → good (help hops x (Some c) back s).
Proof.
  intros HC Hf He Hb. unfold help. case_bool_decide; [done|].
  pose proof (calm_set_cont c s HC Hf He) as HC'. set (s1 := upd_ec _ _ s) in *.
  destruct (preemption_point _) as [b e]. cbv zeta.
  set (s2 := if b then _ else _). assert (alike s2 s1) as A.
  { unfold s2. by destruct b; [rewrite alike_hazard|]; rewrite alike_env. }
  assert (calm s2) as (HS & _ & Hq) by by rewrite A.
  case_match; [by exists (Schedule false), s2|by apply activate_good].
Qed.

Lemma dn_good zero sm x clr back s :
  sound s → scs_ok s → can_run s x → (∀ s', alike s' s → good (back s')) →
  good (dn zero sm x clr back s).
Proof.
  intros HS Hq Hx Hb. unfold dn. destruct (sm_take zero sm _) as [r e]. cbv zeta.
  set (s1 := run_env _ s). assert (alike s1 s) as A1 by apply alike_env.
  destruct r as [[[value cnt]|]|].
  - apply Hb. by rewrite alike_regs.
  - by apply Hb.
  - pose proof (refs_range s x HS). destruct (refcount_spec (refs (ecs s1 x))) as (-> & _); [by simpl; lia|].
    rewrite decide_False by (simpl; lia). cbn [negb]. set (s2 := upd_ec _ _ s1).
    assert (sound s2) as HS2.
    { apply (sound_same_links s _ HS); [| |apply HS|]; intros z; unfold s2; rewrite ?ecs_upd.
      - by destruct (decide (z = x)) as [->|].
      - by destruct (decide (z = x)) as [->|].
      - destruct (so_ec _ HS z) as [E1 E2 E3 E4 E5 E6 E7 E8], Hx as (Hp & Hc & Hqx). unfold owed in E8.
        split; unfold owed; rewrite ?ecs_upd; destruct (decide (z = x)) as [->|]; simpl; try done.
        rewrite Hqx in E8. simpl in E8. lia. }
    destruct clr; [|by exists (Schedule false), s2]. apply block_good; [done..|]. unfold s2. by rewrite ecs_upd, decide_True.
Qed.

Lemma reply_good c sm s :
  calm s → (c = None ∧ thread (ecs s (current s)) = true) ∨ c = Some Dead → good (reply hops c sm s).
Proof.
  intros (HS & Hrun & Hq) Hc. pose proof (can_run_D s _ HS Hrun) as HD. unfold reply. cbv zeta.
  set (s1 := upd_ec (current s) (set_cont c) s).
  assert (ecs s1 (current s) = set_cont c (ecs s (current s))) as Es1 by (unfold s1; by rewrite ecs_upd, decide_True).
  change (current s1) with (current s). rewrite Es1. cbn [glb rcap set_cont].
  destruct (rcap (ecs s (current s))) as [x|] eqn:Er.
  - rewrite (eo_glb _ _ (so_ec _ HS _)) by congruence. cbn [negb Z.eqb].
    assert (partner (ecs s x) = Some (current s)) as Hp by by apply HS.
    assert (x ≠ current s) as Hn by (intros ->; destruct Hrun; congruence).
    assert (ecs s1 x = ecs s x) as Esx by (unfold s1; by rewrite ecs_upd, decide_False).
    pose proof (refs_range s x HS). pose proof (refs_range s (current s) HS). pose proof (refs_current s HS).
    destruct (clr_partner_run x s1) as (s2 & -> & Hb & _ & He2); [done|by rewrite Esx|by change (current s1) with (current s); rewrite Es1|..].
    { rewrite Esx. split; [by eapply refs_partner|lia]. }
    { change (current s1) with (current s). rewrite Es1. cbn [refs set_cont]. lia. }
    cbn [mbind option_bind]. destruct (sound_disconnect x c s s2 HS Hrun Er Hc) as (_ & HS2 & Hrun2).
    { by rewrite (be_current _ _ Hb). }
    { by rewrite (be_pts _ _ Hb). }
    { intros z. rewrite He2, Esx. change (current s1) with (current s). rewrite Es1. unfold s1. rewrite ecs_upd. by sites; subst. }
    assert (scs_ok s2) as Hq2 by (unfold scs_ok; rewrite (be_scs _ _ Hb); apply Hq).
    case_match; [by exists (Schedule true), s2|].
    assert (∀ s', alike s' s2 → good (if negb (truthy (ctr_link s1)) then activate hops (sc_ec (scs s' (sc_current s'))) s' else make_current x s')) as Hrest.
    { intros s' A. case_match; [apply activate_good|apply make_current_good]; by rewrite A. }
    destruct sm as [sm|]; [by apply dn_good|by apply Hrest].
  - assert (sound s1) as HS1.
    { destruct Hc as [[-> Ht]| ->]; [|by apply sound_set_cont].
      apply (sound_same_links s _ HS); [| |apply HS|]; intros z; unfold s1; rewrite ?ecs_upd.
      - by sites; subst.
      - by sites; subst.
      - destruct (so_ec _ HS z) as [E1 E2 E3 E4 E5 E6 E7 E8], Hrun as (Hp & Hc & Hqx). unfold owed in E8.
        split; unfold owed; rewrite ?ecs_upd; destruct (decide (z = current s)) as [->|]; simpl; try done. }
    case_match; [by exists (Schedule true), s1|]. by apply activate_good.
Qed.

Lemma die_good s : calm s → good (die hops s).
Proof.
  intros HC. pose proof HC as (HS & Hrun & Hq). unfold die. apply reply_good; [|by right].
  destruct (rcap (ecs s (current s))) as [x|] eqn:Er; [|done]. cbv zeta.
  assert (partner (ecs s x) = Some (current s)) as Hp by by apply HS.
  assert (x ≠ current s) as Hn by (intros ->; destruct Hrun; congruence).
  destruct (eo_wait _ _ (so_ec _ HS x)) as [Hcx Hqx]; [congruence|].
  destruct (cont (ecs s x)) as [c|] eqn:Ec; [|done]. destruct (eo_fits _ _ (so_ec _ HS x) c Ec) as [HxD Hf].
  split_and!; [| |done].
  - apply sound_set_cont; [done|done| |by case_match]. case_match eqn:Ew; [|done].
    unfold waits_for_user in Ew. apply orb_true_iff in Ew as [Ew|Ew]; apply bool_decide_eq_true in Ew; simplify_eq; done.
  - unfold can_run. change (current (upd_ec _ _ s)) with (current s). rewrite ecs_upd. by sites.
Qed.

(** A call: [set_partner], [start] and [make_current]; [f] sets up the message
    of the caller. *)
Lemma call_good c c' y p f s :
  calm s → cont (ecs s y) = None → y ∈ D → cpu (ecs s (current s)) = xcpu (ecs s y) →
  fits (thread (ecs s (current s))) c = true → entering c = false →
  entering c' = true → (c' = Recv_user → thread (ecs s (current s)) = true) →
  (∀ s, alike (f s) s) →
  ∃ s', set_partner (current s) y (upd_ec (current s) (set_cont (Some c)) s) = Some s' ∧ current s' = current s ∧
    good (make_current y (start y c' p (f s'))).
Proof.
  intros (HS & Hrun & Hq) Hy HyD Hcpu Hf He He' Ht Hal. pose proof (xcpu_local s _ _ HS Hcpu) as Hg.
  assert (current s ≠ y) as Hn by (intros <-; by destruct Hrun as (_ & ? & _)).
  pose proof (refs_range s y HS). pose proof (refs_range s (current s) HS).
  destruct (set_partner_run (current s) y (upd_ec (current s) (set_cont (Some c)) s)) as (s1 & -> & Hb & _ & He1);
    [done|rewrite ecs_upd; sites; simpl; lia..|].
  exists s1. split; [done|]. split; [by rewrite (be_current _ _ Hb)|].
  set (s2 := upd_ec y (set_cont (Some c')) s1).
  destruct (sound_connect y c c' s s2 HS Hrun Hy HyD Hg Hf He He' Ht) as [HS2 Hrun2].
  { by apply (be_current _ _ Hb). }
  { intros z. exact (f_equal (λ m, pt_ec (m z)) (be_pts _ _ Hb)). }
  { intros z. unfold s2. rewrite !ecs_upd, !He1, !ecs_upd. by sites; subst. }
  assert (alike (start y c' p (f s1)) s2) as A by (rewrite alike_start; by apply alike_set_cont).
  apply make_current_good; rewrite A; [done| |done]. unfold scs_ok, s2. simpl. by rewrite (be_scs _ _ Hb).
Qed.

Lemma send_msg_good c s :
  calm s → returns_to_user c = true → fits (thread (ecs s (current s))) c = true → good (send_msg hops c s).
Proof.
  intros HC Hc Hf. assert (fits (thread (ecs s (current s))) (Send_msg c) = true) as Hfs by by destruct c.
  unfold send_msg. destruct (lookup _ _ _) as [p prm|p prm|]; try by apply die_good.
  case_match eqn:Ex; [by apply die_good|]. apply negb_false_iff, Z.eqb_eq in Ex.
  case_bool_decide as Hy; [|by apply help_good; [..|apply die_good]].
  cbv zeta. change (current (upd_ec (current s) (set_cont (Some c)) s)) with (current s).
  destruct (call_good c Recv_kern (pt_ec (pts s p)) (pts s p) (upd_regs_of (current s) (wr mtd (pt_mtd (pts s p)))) s)
    as (s1 & -> & Hcur & Hgood); try done.
  - apply (so_portal _ (calm_sound _ HC)).
  - by destruct c.
  - intros s'. apply alike_regs.
  - cbn [mbind option_bind]. by rewrite Hcur.
Qed.

Lemma calm_alike s s' : alike s' s → calm s → calm s'.
Proof. by intros ->. Qed.

(** Rewriting contexts that are alike in the goal. *)
Lemma thread_alike s s' x : alike s' s → thread (ecs s' x) = thread (ecs s x).
Proof. intros A. by destruct (shape_eq _ _ (al_shape _ _ A x)) as (_ & _ & _ & _ & _ & _ & ? & _). Qed.

Lemma send_alike c s s' :
  alike s' s → calm s → returns_to_user c = true → fits (thread (ecs s (current s))) c = true → good (send_msg hops c s').
Proof. intros A HC Hc Hf. apply send_msg_good; [by rewrite A|done|]. by rewrite (thread_alike _ _ _ A), (al_current _ _ A). Qed.

Lemma handle_hazard_good hz k back s :
  calm s → returns_to_user k = true → fits (thread (ecs s (current s))) k = true →
  (thread (ecs s (current s)) = false → truthy (hz .& HZD_STEP)%W = false) →
  (∀ s', alike s' s → good (back s')) → good (handle_hazard hops hz k back s).
Proof.
  intros HC Hk Hf Hstep Hb. unfold handle_hazard. cbv zeta.
  set (s1 := if truthy (hz .& HZD_RCU)%W then _ else _).
  assert (alike s1 s) as A1 by (unfold s1; destruct (truthy (hz .& HZD_RCU)%W); [apply alike_env|done]). clearbody s1.
  assert (calm s1) as HC1 by by rewrite A1.
  assert (fits (thread (ecs s1 (current s1))) k = true) as Hf1
    by by rewrite (thread_alike _ _ _ A1), (al_current _ _ A1).
  assert (thread (ecs s1 (current s1)) = thread (ecs s (current s))) as Ht1
    by by rewrite (thread_alike _ _ _ A1), (al_current _ _ A1).
  case_match.
  { eexists (Schedule false), _. split; [reflexivity|]. split; [|done].
    apply calm_set_cont; [done..|by destruct k]. }
  assert (∀ s', alike (if bool_decide (k = Ret_user_sysexit)
    then upd_regs_of (current s1) (λ r, wr rip (r ARG_IP) (wr rsp (r ARG_SP) r)) s' else s') s') as Ared
    by (intros s'; case_match; [apply alike_regs|done]).
  assert (∀ b v s', alike s' s1 → alike (upd_regs_of (current s1) (wr b v) s') s1) as Aw
    by (intros b v s' A; by rewrite alike_regs).
  destruct (truthy (hz .& HZD_RECALL)%W) eqn:Er.
  { destruct (bool_decide (k = Ret_user_vmresume) || bool_decide (k = Ret_user_vmrun)) eqn:Eg; [by eapply send_alike; [apply Aw, alike_regs|..]|].
    apply (send_alike _ s1); [apply Aw; etransitivity; [apply Ared|apply alike_regs]|done..|].
    apply orb_false_iff in Eg as [E1 E2]. apply bool_decide_eq_false in E1, E2. by destruct k. }
  destruct (truthy (hz .& HZD_STEP)%W) eqn:Es.
  { apply (send_alike _ s1); [apply Aw; etransitivity; [apply Ared|apply alike_regs]|done..|]. rewrite Ht1.
    destruct (thread (ecs s (current s))) eqn:Et; [done|]. by specialize (Hstep eq_refl). }
  set (s2 := if truthy (hz .& HZD_TSC)%W then _ else _).
  assert (alike s2 s1) as A2.
  { unfold s2. destruct (truthy (hz .& HZD_TSC)%W); [|done].
    destruct (bool_decide (k = Ret_user_vmresume)); [|destruct (bool_decide (k = Ret_user_vmrun))].
    1, 2: etransitivity; [by apply alike_upd|apply alike_regs].
    apply alike_regs. }
  clearbody s2. set (s3 := if truthy (hz .& HZD_TSC_AUX)%W then _ else _).
  assert (alike s3 s2) as A3 by (unfold s3; destruct (truthy (hz .& HZD_TSC_AUX)%W); [rewrite alike_env; apply alike_regs|done]). clearbody s3.
  set (s4 := if truthy (hz .& HZD_DS_ES)%W then _ else _).
  assert (alike s4 s3) as A4 by (unfold s4; destruct (truthy (hz .& HZD_DS_ES)%W); [apply alike_hazard|done]). clearbody s4.
  assert (alike s4 s) as A by by rewrite A4, A3, A2.
  destruct (truthy (hz .& HZD_FPU)%W); [destruct (negb fpu_lazy)|]; [|apply Hb|by apply Hb].
  - apply die_good. by rewrite A.
  - by rewrite alike_env.
Qed.

(** [ret_user_k]: [back] is what follows the hazards. *)
Lemma after_hazards_good m k back s :
  calm s → returns_to_user k = true → fits (thread (ecs s (current s))) k = true →
  (thread (ecs s (current s)) = false → Z.land m HZD_STEP = 0) →
  (∀ s', alike s' s → good (back s')) → good (after_hazards hops m k back s).
Proof.
  intros HC Hk Hf Hm Hb. unfold after_hazards. cbv zeta. case_match; [|by apply Hb].
  apply handle_hazard_good; try done. intros Ht. unfold hazards_of.
  rewrite <-Z.land_assoc, (Hm Ht), Z.land_0_r. done.
Qed.

Lemma user_good k s :
  calm s → returns_to_user k = true → fits (thread (ecs s (current s))) k = true → good (Some (User k, s)).
Proof. intros (HS & Hr & Hq) Hk Hf. by exists (User k), s. Qed.

Lemma user_alike k s s' :
  alike s' s → calm s → returns_to_user k = true → fits (thread (ecs s (current s))) k = true → good (Some (User k, s')).
Proof. intros A HC Hc Hf. apply user_good; [by rewrite A|done|]. by rewrite (thread_alike _ _ _ A), (al_current _ _ A). Qed.

Lemma ret_user_sysexit_good s :
  calm s → thread (ecs s (current s)) = true → good (ret_user_sysexit hops s).
Proof.
  intros HC Ht. apply after_hazards_good; [done..|by rewrite Ht|]. intros s' A. case_match.
  - by apply (send_alike _ s); [rewrite alike_regs|..].
  - by apply (user_alike _ s).
Qed.

Lemma ret_user_iret_good s :
  calm s → thread (ecs s (current s)) = true → good (ret_user_iret hops s).
Proof. intros HC Ht. apply after_hazards_good; [done..|by rewrite Ht|]. intros s' A. by apply (user_alike _ s). Qed.

Lemma ret_user_guest_good k s :
  k = Ret_user_vmresume ∨ k = Ret_user_vmrun →
  calm s → thread (ecs s (current s)) = false →
  good (after_hazards hops GUEST_HAZARDS k (λ s, Some (User k, run_env (enter_guest (current s)) s)) s).
Proof.
  intros Hk HC Ht. assert (returns_to_user k = true ∧ fits (thread (ecs s (current s))) k = true) as [Hr Hf]
    by (rewrite Ht; by destruct Hk as [->| ->]).
  apply after_hazards_good; [done..|]. intros s' A. apply (user_alike _ s); [by rewrite alike_env|done..].
Qed.

Lemma sys_finish_good st s : calm s → thread (ecs s (current s)) = true → good (sys_finish hops st s).
Proof.
  intros HC Ht. unfold sys_finish. cbv zeta. set (s1 := upd_regs_of _ _ s).
  assert (alike s1 s) as A by apply alike_regs.
  assert (xcpu_sm (ecs s1 (current s1)) = None) as ->.
  { assert (calm s1) as (HS & _) by by rewrite A. apply (eo_oom _ _ (so_ec _ HS _)). }
  apply ret_user_sysexit_good; [by rewrite A|]. by rewrite (thread_alike _ _ _ A), (al_current _ _ A).
Qed.

Lemma sys_call_good s :
  calm s → thread (ecs s (current s)) = true → good (sys_call hops s).
Proof.
  intros HC Ht. pose proof (calm_sound s HC) as HS. destruct (eo_oom _ _ (so_ec _ HS (current s))) as [Hoom Hx].
  unfold sys_call. rewrite Hoom, Hx.
  destruct (lookup _ _ _) as [p prm|p prm|]; try by apply sys_finish_good.
  case_match; [by apply sys_finish_good|].
  case_match eqn:Ex; [by exists (Other SYS_XCPU_CALL), s; destruct HC as (? & ? & ?)|].
  apply negb_false_iff, Z.eqb_eq in Ex. case_bool_decide as Hy.
  - destruct (call_good Ret_user_sysexit Recv_user (pt_ec (pts s p)) (pts s p) id s) as (s1 & -> & Hcur & Hgood); try done.
    apply (so_portal _ HS).
  - case_match; [|by apply sys_finish_good]. apply help_good; try done. by apply sys_finish_good.
Qed.

Section spaces.
Context (root kern fuel : nat) (h : host).

(** States that are alike and in which [x] has the same message. *)
Definition same_message (x : obj) s s' : Prop := alike s' s ∧ ec_utcb (ecs s' x) = ec_utcb (ecs s x) ∧
  ∀ z, cpu_regs (ecs s' z) = cpu_regs (ecs s z).

Lemma delegate_good (C : bool) x back s :
  calm s → rcap (ecs s (current s)) = Some x → transfer root kern fuel C x s ≠ None →
  (∀ s', same_message (item_ends C x s).1 s s' → good (back s')) →
  good (delegate_items hops root kern fuel C back s).
Proof.
  intros HC Hx Ht Hb. unfold delegate_items. rewrite Hx. cbn [mbind option_bind].
  destruct (item_ends C x s) as [src dst] eqn:Ei. cbv zeta.
  destruct (transfer root kern fuel C x s) as [[out w]|]; [|done]. cbn [mbind option_bind].
  set (s2 := if to_user C x s then _ else set_wd w s).
  assert (src ≠ dst) as Hn.
  { pose proof (calm_sound _ HC) as HS. destruct HC as (_ & (Hp & _) & _).
    assert (partner (ecs s x) = Some (current s)) by by apply HS.
    assert (x ≠ current s) by congruence. destruct C; by simplify_eq/=. }
  assert (same_message src s s2) as (A & Hu & Hr).
  { unfold s2. destruct (to_user C x s); [|done]. split; [|split].
    - etransitivity; [|apply (alike_wd w)]. apply alike_upd. unfold shape_of, thread. simpl. by destruct (ec_utcb _).
    - rewrite ecs_upd. by sites.
    - intros z. rewrite ecs_upd. by sites; subst. }
  clearbody s2. case_match; [|by apply Hb].
  set (s3 := with_hazard _ s2). assert (alike s3 s2) as A3 by apply alike_hazard. assert (calm s3) as HC3 by by rewrite A3, A.
  unfold oom_delegate. destruct (eo_oom _ _ (so_ec _ (calm_sound _ HC3) dst)) as [-> _]. by apply die_good.
Qed.

Lemma recv_kern_good s :
  calm s → thread (ecs s (current s)) = true → rcap (ecs s (current s)) ≠ None → good (recv_kern hops h s).
Proof.
  intros HC Ht Hx. unfold recv_kern. destruct (rcap (ecs s (current s))) as [x|]; [|done].
  cbn [mbind option_bind].
  assert (∃ u, ec_utcb (ecs s (current s)) = Some u) as [u Eu]
    by (unfold thread in Ht; destruct (ec_utcb _); [by eexists|done]).
  rewrite Eu. cbn [mbind option_bind].
  assert (∀ v s', alike s' s → alike (upd_ec (current s) (set_ec_utcb (Some v)) s') s) as Au
    by (intros v s' A; by rewrite alike_utcb; [|rewrite (thread_alike _ _ _ A)]).
  match goal with |- good (mbind _ ?o) => assert (∃ fpu s', o = Some (fpu, s') ∧ alike s' s) as (fpu & s1 & -> & A1) end.
  { repeat case_match; eexists _, _; (split; [reflexivity|]); try apply Au; try apply alike_env; done. }
  cbn [mbind option_bind].
  match goal with |- good (mbind _ ?o) => assert (∃ s', o = Some s' ∧ alike s' s) as (s2 & -> & A2) end.
  { destruct fpu; [|by eexists]. assert (thread (ecs s1 (current s)) = true) as Ht1 by by rewrite (thread_alike _ _ _ A1).
    unfold thread in Ht1. destruct (ec_utcb (ecs s1 (current s))) as [u1|]; [|done]. cbn [mbind option_bind].
    destruct (export_fpu _ _ _) as [u2 e]. eexists. split; [reflexivity|]. apply Au. by rewrite alike_env. }
  cbn [mbind option_bind]. apply ret_user_sysexit_good; [by rewrite A2|].
  by rewrite (thread_alike _ _ _ A2), (al_current _ _ A2).
Qed.

(** The part of a message that [Pd] handles is in order: the delegation of its
    typed items does not fail an assertion. *)
Definition ready (c : continuation) s : Prop :=
  match c with
  | Recv_user => ∀ x su, rcap (ecs s (current s)) = Some x → ec_utcb (ecs s x) = Some su →
      truthy (tcnt su) = true → transfer root kern fuel true x s ≠ None
  | Sys_reply => ∀ x sm s1 s2 src, rcap (ecs s (current s)) = Some x →
      reply_sm s = (sm, s1) → defer sm x s1 = Some (false, s2) → ec_utcb (ecs s (current s)) = Some src →
      truthy (tcnt src) = true → transfer root kern fuel false x s2 ≠ None
  | _ => True
  end.

Lemma thread_utcb s x : thread (ecs s x) = true → ∃ u, ec_utcb (ecs s x) = Some u.
Proof. unfold thread. destruct (ec_utcb _); [by eexists|done]. Qed.

Lemma recv_user_good s x :
  calm s → thread (ecs s (current s)) = true → rcap (ecs s (current s)) = Some x → thread (ecs s x) = true →
  ready Recv_user s → good (recv_user hops root kern fuel s).
Proof.
  intros HC Ht Hx Htx Hr. destruct (caller_other s x HC Hx) as [_ Hn]. unfold recv_user. rewrite Hx. cbn [mbind option_bind].
  destruct (thread_utcb s x Htx) as [su Esu], (thread_utcb s _ Ht) as [du Edu]. rewrite Esu, Edu. cbn [mbind option_bind].
  set (s1 := upd_ec _ _ s). assert (alike s1 s) as A by by apply alike_utcb.
  assert (thread (ecs s1 (current s1)) = true) as Ht1 by by rewrite (thread_alike _ _ _ A).
  case_match eqn:Et; [|apply ret_user_sysexit_good; [by rewrite A|done]].
  eapply (delegate_good true x); [by rewrite A| | |].
  - change (current s1) with (current s). unfold s1. by rewrite ecs_upd, decide_True.
  - intros Hf. apply (Hr x su Hx Esu Et). rewrite <-Hf. unfold transfer, item_ends, s1.
    change (current (upd_ec _ _ s)) with (current s). rewrite !ecs_upd. sites. by rewrite Edu.
  - intros s' (A' & _). apply ret_user_sysexit_good; [by rewrite A', A|]. by rewrite (thread_alike _ _ _ A'), (al_current _ _ A').
Qed.

Lemma deliver_run x src s :
  calm s → ∃ s', deliver h x src s = Some s' ∧ alike s' s.
Proof.
  intros HC. unfold deliver.
  match goal with |- ∃ s', mbind _ ?o = _ ∧ _ => assert (∃ fpu s1, o = Some (fpu, s1) ∧ alike s1 s) as (fpu & s1 & -> & A) end.
  { case_match eqn:Ew.
    - assert (thread (ecs s x) = true) as Ht.
      { unfold waits_for_user in Ew. apply orb_true_iff in Ew. rewrite !bool_decide_eq_true in Ew.
        destruct Ew as [Ec|Ec]; by destruct (eo_fits _ _ (so_ec _ (calm_sound _ HC) x) _ Ec). }
      destruct (thread_utcb s x Ht) as [u ->]. eexists _, _. split; [reflexivity|]. by apply alike_utcb.
    - case_bool_decide; [destruct (save_exc _ _); eexists _, _; split; [reflexivity|apply alike_regs]|].
      case_bool_decide as Ex.
      { pose proof (save_vm_total h Vmcs src (cpu_regs (ecs s x))) as Hv. simpl in Hv. destruct (save_vmx h src _) as [[f v]|]; [|done]. eexists _, _. split; [reflexivity|]. by apply alike_upd. }
      case_bool_decide as Ey; [|by eexists _, _].
      pose proof (save_vm_total h Vmcb src (cpu_regs (ecs s x))) as Hv. simpl in Hv.
      destruct (save_svm h src _) as [[f v]|]; [|done]. eexists _, _. split; [reflexivity|]. by apply alike_upd. }
  cbn [mbind option_bind]. destruct fpu; eexists; (split; [reflexivity|]); [by rewrite alike_env|done].
Qed.

Lemma reply_sm_alike s sm s' : reply_sm s = (sm, s') → alike s' s.
Proof. unfold reply_sm. cbv zeta. repeat case_match; intros [= _ <-]; try done; apply alike_regs. Qed.

(** [defer] changes at most the continuation of the caller. *)
Lemma defer_run sm x s :
  calm s → rcap (ecs s (current s)) = Some x →
  ∃ s', defer sm x s = Some (false, s') ∧ calm s' ∧ current s' = current s ∧
    (∀ z, rcap (ecs s' z) = rcap (ecs s z) ∧ ec_utcb (ecs s' z) = ec_utcb (ecs s z)) ∧
    cont (ecs s' (current s)) = cont (ecs s (current s)).
Proof.
  intros HC Hx. destruct (caller_other s x HC Hx) as [Hp Hn]. pose proof (calm_sound _ HC) as HS.
  unfold defer. destruct sm as [sm|]; [|by exists s].
  case_bool_decide as Ec.
  - eexists. split; [reflexivity|]. destruct (eo_fits _ _ (so_ec _ HS x) _ Ec) as [HD Hf].
    split; [split; [|split]|split; [done|split]].
    + by apply sound_set_cont.
    + unfold can_run. change (current (upd_ec _ _ s)) with (current s). rewrite ecs_upd. sites. apply HC.
    + apply HC.
    + intros z. rewrite ecs_upd. by sites; subst.
    + rewrite ecs_upd. by sites.
  - case_bool_decide as Ex; [by destruct (eo_fits _ _ (so_ec _ HS x) _ Ex)|].
    case_bool_decide as Es; [by destruct (eo_fits _ _ (so_ec _ HS x) _ Es)|]. by exists s.
Qed.

Lemma sys_reply_good s :
  calm s → thread (ecs s (current s)) = true → ready Sys_reply s → good (sys_reply hops root kern fuel h s).
Proof.
  intros HC Ht Hr. unfold sys_reply. destruct (rcap (ecs s (current s))) as [x|] eqn:Hx; [|apply reply_good; [done|by left]].
  destruct (reply_sm s) as [sm s1] eqn:Esm. pose proof (reply_sm_alike _ _ _ Esm) as A1.
  assert (calm s1) as HC1 by by rewrite A1. pose proof (al_current _ _ A1) as Hc1.
  assert (rcap (ecs s1 (current s1)) = Some x) as Hx1.
  { rewrite Hc1. by destruct (shape_eq _ _ (al_shape _ _ A1 (current s))) as (_ & _ & -> & _). }
  destruct (defer_run sm x s1 HC1 Hx1) as (s2 & Ed & HC2 & Hc2 & Hz & Hcont). rewrite Ed. cbn [mbind option_bind].
  destruct (thread_utcb s _ Ht) as [src Esrc].
  assert (ec_utcb (ecs s2 (current s)) = Some src) as Esrc2.
  { destruct (Hz (current s)) as [_ ->]. revert Esm. unfold reply_sm. cbv zeta.
    repeat case_match; intros [= _ <-]; try done. by unfold upd_regs_of; rewrite ecs_upd, decide_True. }
  rewrite Esrc2. cbn [mbind option_bind]. pose proof (Hr x sm s1 s2 src Hx Esm Ed Esrc) as Htr.
  assert (∀ s', same_message (current s) s2 s' → good (if bool_decide (cont (ecs s' (current s)) = Some Ret_xcpu_reply)
      then None else mbind (M := option) (λ s0, reply hops None sm s0 : option (next * kernel E)) (deliver h x src s'))) as Hlast.
  { intros s' (A & _ & Hregs). assert (calm s') as HC' by by rewrite A. pose proof (al_current _ _ A) as Hc'.
    case_bool_decide as Ec; [by destruct (eo_fits _ _ (so_ec _ (calm_sound _ HC') _) _ Ec)|].
    destruct (deliver_run x src s' HC') as (s3 & -> & A3).
    cbn [mbind option_bind]. apply reply_good; [by rewrite A3|]. left. split; [done|].
    rewrite (thread_alike _ _ _ A3), (al_current _ _ A3), (thread_alike _ _ _ A), Hc', Hc2, Hc1.
    unfold thread. by rewrite Esrc2. }
  case_match eqn:Et; [|by apply Hlast].
  apply (delegate_good false x); [done| |by apply Htr|].
  - rewrite Hc2. destruct (Hz (current s1)) as [-> _]. done.
  - intros s' Hs'. apply Hlast. simpl in Hs'. by rewrite Hc2, Hc1 in Hs'.
Qed.

(** What a handler relies on when it starts: the kind of the current context,
    and for a message its sender. *)
Definition enters (c : continuation) s : Prop :=
  (fits (thread (ecs s (current s))) c = true ∨ c = Sys_reply ∧ thread (ecs s (current s)) = true) ∧
  (entering c = true → ∃ x, rcap (ecs s (current s)) = Some x ∧ (c = Recv_user → thread (ecs s x) = true)).

Lemma jump_enters c s : sound s → cont (ecs s (current s)) = Some c → enters c s.
Proof.
  intros HS Hc. destruct (eo_fits _ _ (so_ec _ HS _) c Hc) as [_ Hf]. split; [by left|]. intros He.
  pose proof (eo_recv _ _ (so_ec _ HS _) c Hc He) as Hr. destruct (rcap (ecs s (current s))) as [x|] eqn:Er; [|done].
  exists x. split; [done|]. intros ->. by apply (so_call _ HS x (current s)).
Qed.

Lemma run_good c s : calm s → enters c s → ready c s → good (run hops root kern fuel h c s).
Proof.
  intros HC [Hf He] Hr. pose proof HC as (HS & Hrun & Hq).
  assert (∀ n, good (Some (Other n, s))) as Ho by (intros n; by exists (Other n), s).
  destruct Hf as [Hf|[-> Ht]]; [|by apply sys_reply_good].
  destruct c as [| | | | | | | |k|st| | | | |n]; try done; cbn [run].
  - by apply ret_user_sysexit_good.
  - by apply ret_user_iret_good.
  - apply negb_true_iff in Hf. apply ret_user_guest_good; auto.
  - apply negb_true_iff in Hf. apply ret_user_guest_good; auto.
  - destruct (He eq_refl) as (x & Hx & _). apply recv_kern_good; [done|done|congruence].
  - destruct (He eq_refl) as (x & Hx & Htx). by apply (recv_user_good s x); auto.
  - by apply sys_call_good.
  - by apply send_msg_good; destruct k.
  - by apply sys_finish_good.
  - by apply die_good.
  - apply Ho.
  - apply Ho.
Qed.

(** ** Steps from outside *)

Lemma release_run x c s :
  ∃ s', release x c s = upd_ec x (λ e, set_queue (queued e) [] (match c with Some _ => set_cont c e | None => e end)) s' ∧
    ecs s' = ecs s ∧ current s' = current s ∧ pts s' = pts s ∧ scs s' = scs s.
Proof.
  eexists. split; [reflexivity|].
  match goal with |- context [foldl ?f s ?l] => generalize l; set (g := f) end. intros l.
  enough (∀ l s, ecs (foldl g s l) = ecs s ∧ current (foldl g s l) = current s ∧ pts (foldl g s l) = pts s ∧
    scs (foldl g s l) = scs s) by done.
  clear l. intros l. induction l as [|z l IH]; intros s'; [done|]. cbn [foldl].
  destruct (IH (g s' z)) as (-> & -> & -> & ->). unfold g, ready_sc. by case_match.
Qed.

(** A released waiter has left its queue; the others do not change. *)
Lemma wake_run x c s :
  sound s → queued (ecs s x) = true →
  let e1 := set_queue false [] (match c with Some _ => set_cont c (ecs s x) | None => ecs s x end) in
  partner (ecs s x) = None ∧ cont (ecs s x) ≠ None ∧
  (∀ z, ecs (wake x c s) z = if decide (z = x) then set_refs (refs (ecs s x) - 1) e1 else ecs s z) ∧
  current (wake x c s) = current s ∧ pts (wake x c s) = pts s ∧ scs (wake x c s) = scs s.
Proof using count_ok.
  clear dependent hops.
  intros HS Hqx e1. unfold wake. set (s0 := upd_ec x _ s).
  destruct (release_run x c s0) as (s1 & -> & E1 & E2 & E3 & E4).
  pose proof (so_ec _ HS x) as [W1 W2 W3 W4 W5 W6 W7 W8]. pose proof (refs_range s x HS).
  assert (cont (ecs s x) ≠ None) as Hcx by (intros Hn; destruct (W2 Hn) as (_ & ? & _); congruence).
  assert (partner (ecs s x) = None) as Hpx by (destruct (partner (ecs s x)); [destruct W1; congruence|done]).
  set (s2 := upd_ec x _ s1).
  assert (∀ z, ecs s2 z = if decide (z = x) then e1 else ecs s z) as E5.
  { intros z. unfold s2, e1. rewrite ecs_upd, E1. unfold s0. rewrite !ecs_upd. sites; [|done]. by destruct c. }
  assert (refs e1 = refs (ecs s x)) as Hre by (unfold e1; by destruct c).
  assert (1 < refs (ecs s x)) as Hlo.
  { rewrite W8. unfold owed. rewrite Hqx. pose proof (count_ok x).
    destruct (bool_decide _), (bool_decide _), (bool_decide _); simpl; lia. }
  rewrite drop_run by (rewrite E5; sites; rewrite Hre; lia).
  split_and!; [done|done| |by simpl; rewrite E2|by simpl; rewrite E3|by simpl; rewrite E4].
  intros z. rewrite ecs_upd, !E5. sites; subst; by rewrite ?Hre.
Qed.

(** A waiter is released; a thread may be told that the semaphore is gone. *)
Lemma sound_wake x c s :
  sound s → queued (ecs s x) = true →
  match c with Some c => fits (thread (ecs s x)) c = true ∧ entering c = false | None => True end →
  sound (wake x c s) ∧ current (wake x c s) = current s ∧ scs (wake x c s) = scs s ∧
  ∀ z, z ≠ x → ecs (wake x c s) z = ecs s z.
Proof.
  intros HS Hqx Hc. destruct (wake_run x c s HS Hqx) as (Hpx & Hcx & E6 & E2 & E3 & E4).
  pose proof (so_ec _ HS x) as [W1 W2 W3 W4 W5 W6 W7 W8].
  set (e1 := set_queue _ _ _) in *. set (s2 := wake x c s) in *.
  split_and!; [|done|done|intros z Hz; by rewrite E6; sites].
  apply (sound_same_links s _ HS).
  - intros z. rewrite E6. destruct (decide (z = x)) as [->|]; [|done]. unfold e1. by destruct c.
  - intros z. rewrite E6. destruct (decide (z = x)) as [->|]; [|done]. unfold e1. destruct c as [c|]; [|done].
    simpl. intros [= ->]. by destruct Hc.
  - intros p. rewrite E3. apply HS.
  - intros z. destruct (decide (z = x)) as [->|Hz].
    + split; unfold owed; rewrite ?E6; sites; rewrite ?E2.
      * unfold e1. destruct c; simpl; rewrite Hpx; done.
      * unfold e1. destruct c; simpl; done.
      * unfold e1. destruct c as [c|]; simpl; [|done]. intros c' [= <-]. destruct Hc as [Hf _].
        split; [|done]. destruct (cont (ecs s x)) as [c0|] eqn:Ec; [|done]. by destruct (W3 c0).
      * unfold e1. destruct c as [c|]; simpl; [|done]. intros c' [= <-]. destruct Hc as [_ Hn]. by rewrite Hn.
      * unfold e1. by destruct c.
      * unfold e1. by destruct c.
      * unfold e1. by destruct c.
      * unfold owed in W8. rewrite Hqx in W8. unfold e1.
        destruct c; simpl in *; lia.
    + destruct (so_ec _ HS z) as [V1 V2 V3 V4 V5 V6 V7 V8].
      split; unfold owed; rewrite ?E6; sites; rewrite ?E2; done.
Qed.

(** A new context, or an idle one that is replaced. *)
Record newborn (x : obj) (e : ec) : Prop := {
  nb_links : partner e = None ∧ rcap e = None ∧ queued e = false;
  nb_oom : pt_oom e = None ∧ xcpu_sm e = None;
  nb_word : word 16 (cpu e) ∧ word 16 (glb e);
  nb_cont : match cont e with Some c => fits (thread e) c = true ∧ entering c = false | None => thread e = true end;
  nb_refs : refs e = count x;
}.

Lemma sound_create x e s :
  sound s → x ∈ D → x ≠ current s → cont (ecs s x) = None → newborn x e → sound (upd_ec x (λ _, e) s).
Proof.
  intros HS HD Hn Hx [(N1 & N2 & N3) N4 N5 N6 N7]. pose proof HS as [Sec Slink Schain Scall Sp].
  destruct (eo_idle _ _ (Sec x) Hx) as (Hr & _).
  assert (partner (ecs s x) = None) as Hp by (destruct (partner (ecs s x)) eqn:E1; [|done]; destruct (eo_wait _ _ (Sec x)); congruence).
  assert (∀ z, partner (ecs (upd_ec x (λ _, e) s) z) = partner (ecs s z) ∧ rcap (ecs (upd_ec x (λ _, e) s) z) = rcap (ecs s z)) as Hl
    by (intros z; rewrite ecs_upd; sites; subst; split; congruence).
  split; [| | | |done].
  - intros z. destruct (Sec z) as [E1 E2 E3 E4 E5 E6 E7 E8].
    split; unfold owed in *; rewrite ?ecs_upd; destruct (decide (z = x)) as [->|]; cbn beta; try done.
    + by intros Hc; rewrite Hc in N6.
    + intros c Hc. rewrite Hc in N6. by destruct N6.
    + intros c Hc. rewrite Hc in N6. destruct N6 as [_ Hf]. congruence.
    + rewrite N1, N2, N3, N7. change (current (upd_ec _ _ s)) with (current s).
      rewrite bool_decide_false, bool_decide_false by (try done; intros ?; congruence). simpl. lia.
  - intros a b. destruct (Hl a) as [-> _], (Hl b) as [_ ->]. apply Slink.
  - intros z. destruct (Schain z) as (n & y & Hz). exists n, y. eapply chain_ext, Hz. intros w. by destruct (Hl w) as [-> _].
  - intros a b. destruct (Hl b) as [_ ->]. rewrite !ecs_upd. intros Ha. pose proof (proj2 (Slink a b) Ha).
    destruct (decide (a = x)) as [->|]; [congruence|]. destruct (decide (b = x)) as [->|]; [congruence|]. by apply Scall.
Qed.

(** ** The kernel as a transition system *)

Abbreviation config := (next * kernel E)%type.

(** How the kernel is entered from user mode: the IPC hypercalls, exceptions
    and interrupts, and the exits of a guest. *)
Inductive entry : continuation → continuation → Prop :=
  | entry_call k : k = Ret_user_sysexit ∨ k = Ret_user_iret → entry k Sys_call
  | entry_reply k : k = Ret_user_sysexit ∨ k = Ret_user_iret → entry k Sys_reply
  | entry_exc k : k = Ret_user_sysexit ∨ k = Ret_user_iret → entry k (Send_msg Ret_user_iret)
  | entry_irq k : k = Ret_user_sysexit ∨ k = Ret_user_iret → entry k Ret_user_iret
  | entry_vmx : entry Ret_user_vmresume (Send_msg Ret_user_vmresume)
  | entry_vmx_irq : entry Ret_user_vmresume Ret_user_vmresume
  | entry_svm : entry Ret_user_vmrun (Send_msg Ret_user_vmrun)
  | entry_svm_irq : entry Ret_user_vmrun Ret_user_vmrun.

(** What user mode, other CPUs, other hypercalls and devices may change: all
    but the shapes of the contexts. *)
Record outside s s' : Prop := {
  os_shape x : shape_of (ecs s x) = shape_of (ecs s' x);
  os_current : current s' = current s;
  os_portal p : pt_ec (pts s' p) ∈ D;
  os_scs : scs_ok s';
}.

Inductive step : config → config → Prop :=
  | step_jump s c r : cont (ecs s (current s)) = Some c → ready c s → run hops root kern fuel h c s = Some r → step (Jump, s) r
  | step_entry k c s r : entry k c → ready c s → run hops root kern fuel h c s = Some r → step (User k, s) r
  | step_wait k zero sm s r : k = Ret_user_sysexit ∨ k = Ret_user_iret → sm_wait hops zero sm s = Some r → step (User k, s) r
  | step_schedule b s s' r : outside s s' → activate hops (sc_ec (scs s' (sc_current s'))) s' = Some r → step (Schedule b, s) r
  | step_outside n s s' : outside s s' → step (n, s) (n, s')
  | step_wake n s x : queued (ecs s x) = true → step (n, s) (n, wake x None s)
  | step_gone n s x st : queued (ecs s x) = true → step (n, s) (n, wake x (Some (Sys_finish st)) s)
  | step_create n s x e : x ∈ D → x ≠ current s → cont (ecs s x) = None → newborn x e →
      step (n, s) (n, upd_ec x (λ _, e) s).

(** [~Sm] and [Sm::timeout] release a waiter with the end of a system call,
    also when the waiter is a virtual CPU, for which that is no end. *)
Definition frees_vcpu (r r' : config) : Prop :=
  ∃ x st, queued (ecs r.2 x) = true ∧ thread (ecs r.2 x) = false ∧ r' = (r.1, wake x (Some (Sys_finish st)) r.2).

(** Every step but that one. *)
Definition kept_step (r r' : config) : Prop := step r r' ∧ ¬ frees_vcpu r r'.

Lemma outside_sound s s' : outside s s' → sound s → sound s'.
Proof.
  intros [A B C _] HS. apply (sound_same_links s s' HS); [| |done|].
  - intros z. by destruct (shape_eq _ _ (A z)) as (_ & -> & -> & _ & _ & _ & -> & _).
  - intros z. by destruct (shape_eq _ _ (A z)) as (-> & _).
  - intros z. destruct (so_ec _ HS z) as [E1 E2 E3 E4 E5 E6 E7 E8]. unfold owed in E8.
    destruct (shape_eq _ _ (A z)) as (H1 & H2 & H3 & H4 & H5 & H6 & H7 & H8 & H9 & H10).
    split; unfold owed; rewrite ?B, <-?H1, <-?H2, <-?H3, <-?H4, <-?H5, <-?H6, <-?H7, <-?H8, <-?H9, <-?H10; done.
Qed.

(** A step between handlers that leaves the running context alone. *)
Lemma good_keep n s s' :
  good (Some (n, s)) → sound s' → current s' = current s →
  (can_run s (current s) → scs_ok s → scs_ok s' ∧ shape_of (ecs s' (current s)) = shape_of (ecs s (current s))) →
  good (Some (n, s')).
Proof.
  intros (n' & t & [= <- <-] & HS & Hn) HS' Hc Hs. exists n, s'. split; [done|]. split; [done|].
  assert (can_run s (current s) → scs_ok s → can_run s' (current s') ∧ scs_ok s' ∧
    thread (ecs s' (current s')) = thread (ecs s (current s))) as Hk.
  { intros Hr Hq. destruct (Hs Hr Hq) as [Hq' Hsh]. destruct (shape_eq _ _ Hsh) as (E1 & E2 & _ & E4 & _ & _ & E7 & _).
    unfold can_run in *. by rewrite !Hc, E1, E2, E4, E7. }
  destruct n; [by destruct Hn as [Hr Hq]; destruct (Hk Hr Hq) as (? & ? & _)|done| |by destruct Hn as [Hr Hq]; destruct (Hk Hr Hq) as (? & ? & _)].
  destruct Hn as (Hr & Hq & Hret & Hf). destruct (Hk Hr Hq) as (? & ? & ->). done.
Qed.

Lemma wake_good n s x c :
  good (Some (n, s)) → queued (ecs s x) = true →
  match c with Some c => fits (thread (ecs s x)) c = true ∧ entering c = false | None => True end →
  good (Some (n, wake x c s)).
Proof.
  intros HG Hx Hc. pose proof HG as (n' & t & [= <- <-] & HS & Hn).
  destruct (sound_wake x c s HS Hx Hc) as (HS' & Hcur & Hq & He). apply (good_keep n s); [done..|].
  intros (_ & _ & Hr) Hs. split; [by unfold scs_ok; rewrite Hq|]. rewrite He; [done|congruence].
Qed.

Lemma user_calm k s : good (Some (User k, s)) → calm s ∧ fits (thread (ecs s (current s))) k = true.
Proof. intros (n & s' & [= <- <-] & HS & Hr & Hq & _ & Hf). split; [by split|done]. Qed.

Lemma entry_enters k c s : entry k c → fits (thread (ecs s (current s))) k = true → enters c s.
Proof.
  intros He Hf. destruct He as [k' [->| ->]|k' [->| ->]|k' [->| ->]|k' [->| ->]| | | |]; (split; [|done]); simpl in *; auto.
Qed.

Lemma step_good r r' : kept_step r r' → good (Some r) → good (Some r').
Proof.
  intros [Hstep Hkept].
  destruct Hstep as [s c r Hc Hd Er|k c s r He Hd Er|k zero sm s r Hk Er|b s s' r Ho Er|n s s' Ho|n s x Hx|n s x st Hx|n s x e HD Hn Hc He];
    intros HG.
  - rewrite <-Er. destruct HG as (n & s' & [= <- <-] & HS & Hr & Hq).
    apply run_good; [by split|by apply jump_enters|done].
  - rewrite <-Er. destruct (user_calm k s HG) as [HC Hf]. apply run_good; [done|by eapply entry_enters|done].
  - rewrite <-Er. destruct (user_calm k s HG) as [HC Hf].
    assert (thread (ecs s (current s)) = true) as Ht by by destruct Hk as [->| ->].
    assert (calm (upd_ec (current s) (set_cont (Some (Sys_finish SUCCESS))) s)) as (HS' & Hr' & Hq') by by apply calm_set_cont.
    apply dn_good; try done. intros s' A. apply sys_finish_good; [by rewrite A|].
    rewrite (thread_alike _ _ _ A), (al_current _ _ A). change (current (upd_ec _ _ s)) with (current s).
    by rewrite ecs_upd, decide_True.
  - rewrite <-Er. destruct HG as (n & t & [= <- <-] & HS & _). apply activate_good; [by eapply outside_sound|apply Ho].
  - destruct HG as (n' & t & [= <- <-] & HS & Hn). apply (good_keep n s); [by exists n, s|by eapply outside_sound|apply Ho|].
    intros _ _. split; [apply Ho|symmetry; apply Ho].
  - by eapply wake_good.
  - destruct (thread (ecs s x)) eqn:Ht; [|destruct Hkept; by exists x, st]. eapply wake_good; [done|done|]. by rewrite Ht.
  - destruct HG as (n' & t & [= <- <-] & HS & Hn'). apply (good_keep n s); [by exists n, s|by apply sound_create|done|].
    intros _ Hq. split; [done|]. rewrite ecs_upd. by sites.
Qed.

Lemma reachable_good r r' : rtc kept_step r r' → good (Some r) → good (Some r').
Proof. induction 1; eauto using step_good. Qed.


(** C9: Contexts keep their kind, unless a semaphore is destroyed at which a
    virtual CPU waits: after any sequence of the other steps from a sound state
    (without out-of-memory portals and calls from other CPUs) the context that
    returns to user mode does so as what it is: a thread with the system call or
    interrupt return, a virtual CPU by entering the guest.  So that destruction
    is the only way in which a guest may come to run in the user mode of its
    virtual machine monitor; [IpcTrip.semaphore_lets_guest_out] shows that there
    it does. *)
Theorem users_keep_kind r k s :
  good (Some r) → rtc kept_step r (User k, s) →
  (k = Ret_user_sysexit ∨ k = Ret_user_iret) ∧ ec_utcb (ecs s (current s)) ≠ None ∨
  (k = Ret_user_vmresume ∨ k = Ret_user_vmrun) ∧ ec_utcb (ecs s (current s)) = None.
Proof.
  intros HG Hr%reachable_good; [|done]. destruct Hr as (n & t & [= <- <-] & _ & _ & _ & Hu & Hf).
  unfold thread in Hf. destruct k; try done; destruct (ec_utcb _); try done; auto.
Qed.
End spaces.

(** C14: Time flows along calls.  Activating a context follows its partners to
    the only context of the chain that waits for nobody: in at most as many
    steps as there are contexts.  That context continues on the time of the
    scheduling context, which remembers the length of the chain; if it is
    blocked, the scheduling context waits for it. *)
Theorem activate_reaches_end x s :
  sound s → scs_ok s →
  ∃ n y r s', chain s x n y ∧ (∀ n' y', chain s x n' y' → n' = n ∧ y' = y) ∧ (n ≤ length D)%nat ∧
    partner (ecs s y) = None ∧ activate hops x s = Some (r, s') ∧
    if blocked (ecs s y) then
      r = Schedule true ∧ current s' = current s ∧ waiting (ecs s' y) = waiting (ecs s y) ++ [sc_current s] ∧
      sc_refs (scs s' (sc_current s)) = sc_refs (scs s (sc_current s)) + 1
    else r = Jump ∧ current s' = y ∧ ctr_link s' = wrap 32 (Z.of_nat n).
Proof.
  intros HS Hq. destruct (activate_run hops s x HS Hhops) as (n & y & Hc & Hrun). rewrite Hrun. cbv zeta.
  set (s1 := set_link (Z.of_nat n) s). change (ecs s1) with (ecs s).
  assert (alike s1 s) as A by apply alike_link.
  assert (∃ r s', (if blocked (ecs s y) then block_sc y (make_current y) s1 else make_current y s1) = Some (r, s') ∧
    if blocked (ecs s y) then
      r = Schedule true ∧ current s' = current s ∧ waiting (ecs s' y) = waiting (ecs s y) ++ [sc_current s] ∧
      sc_refs (scs s' (sc_current s)) = sc_refs (scs s (sc_current s)) + 1
    else r = Jump ∧ current s' = y ∧ ctr_link s' = wrap 32 (Z.of_nat n)) as (r & s' & Hr & Hs').
  { destruct (blocked (ecs s y)) eqn:Ebl.
    - unfold block_sc, hold_sc. change (ecs s1 y) with (ecs s y). rewrite Ebl. cbn [negb]. change (scs s1) with (scs s). change (sc_current s1) with (sc_current s).
      destruct (refcount_spec (sc_refs (scs s (sc_current s)))) as (-> & _); [specialize (Hq (sc_current s)); lia|].
      rewrite decide_False by (specialize (Hq (sc_current s)); lia). eexists _, _. split; [reflexivity|].
      split; [done|]. split; [done|]. split; [by rewrite ecs_upd, decide_True|]. simpl. by rewrite fn_lookup_insert.
    - destruct (switch_run y s1) as (s' & -> & Hsw); [by rewrite A|]. eexists _, _. split; [reflexivity|].
      split; [done|]. split; [apply Hsw|]. by rewrite (sw_link _ _ _ Hsw). }
  exists n, y, r, s'. split_and!; [done| |by eapply chain_bound|by eapply chain_last|done|done].
  intros n' y' Hc'. by destruct (chain_fun s x n y n' y' Hc Hc') as [-> ->].
Qed.
End hops.
End sound.

(** ** Examples *)

#[local] Existing Instance demo_env.

(** Capability 1 is portal 0, capability 2 semaphore 0, which is not free. *)
Definition demo_ipc : IpcEnv unit := {|
  lookup pd sel e := if sel =? 1 then KPt 0 31 else if sel =? 2 then KSm 0 3 else KOther;
  sm_take zero sm e := (None, e);
  sc_enqueue z e := e;
  rcu_quiet e := e;
  claim_fpu x e := e;
  export_fpu x u e := (u, e);
  import_fpu x u e := e;
  fpu_lazy := false;
  fpu_disable x e := e;
  enter_guest x e := e;
  rdtsc e := (0, e);
  make_space pd e := e;
  wr_tsc_aux v e := e;
  preemption_point e := (false, e);
  feat_rdtscp := false;
  cpu_id := 0;
|}.
#[local] Existing Instance demo_ipc.

(** A context with the message [w] (nothing but the word 0) and the first
    argument [a]. *)
Definition demo_utcb (w : Z) : utcb := Utcb 1 0 0 0 (λ k, if k =? 0 then w else 0).
Definition demo_regs (a : Z) : vcpu := Vcpu (wr ARG_1 a (λ _, 0)) (λ _, 0) (λ _, 0) (λ _, 0) (λ _, 0) 0 [].
Definition demo_ec (c : option continuation) (a : Z) (r p : option obj) (u : option utcb) (g n : Z) : ec :=
  Ec c (demo_regs a) r u 0 p false [] 0 g 0 None None false 0 0 n.

(** Thread 1 runs and is about to call thread 2, which is idle. *)
Definition demo_ecs : obj → ec := λ x,
  if decide (x = 1%nat) then demo_ec (Some Ret_user_sysexit) (1 << 9)%W None None (Some (demo_utcb 7)) 1 2
  else demo_ec None 0 None None (Some (demo_utcb 0)) 0 1.
Definition demo_kernel : kernel unit :=
  Kernel demo_ecs (λ _, Pt 2 0 100 5) (λ _, Sc 1 false 2) 1 0 0 0 demo_pages.

Lemma demo_count_ok : ∀ x : obj, 1 ≤ (λ _ : obj, 1) x < 2 ^ 32 - 8.
Proof. intros x. lia. Qed.

(** Contexts that do not call each other. *)
Lemma sound_unlinked (D : list obj) (s : kernel unit) :
  (∀ x, partner (ecs s x) = None ∧ rcap (ecs s x) = None) → (∀ p, pt_ec (pts s p) ∈ D) →
  (∀ x, pt_oom (ecs s x) = None ∧ xcpu_sm (ecs s x) = None) → (∀ x, word 16 (cpu (ecs s x)) ∧ word 16 (glb (ecs s x))) →
  (∀ x, match cont (ecs s x) with
        | Some c => x ∈ D ∧ fits (thread (ecs s x)) c = true ∧ entering c = false
        | None => queued (ecs s x) = false ∧ thread (ecs s x) = true
        end) →
  (∀ x, refs (ecs s x) = 1 + Z.b2z (queued (ecs s x)) + Z.b2z (bool_decide (current s = x))) →
  sound D (λ _, 1) s.
Proof.
  intros Hl Hp Ho Hw Hc Hr. split; [| | | |done].
  - intros x. destruct (Hl x) as [Hpx Hrx]. specialize (Hc x). split; rewrite ?Hpx, ?Hrx; try done.
    + intros Hn. by rewrite Hn in Hc.
    + intros c Hn. rewrite Hn in Hc. by destruct Hc as (? & ? & _).
    + intros c Hn. rewrite Hn in Hc. destruct Hc as (_ & _ & Hc). by rewrite Hc.
    + rewrite Hr. unfold owed. by rewrite Hpx, Hrx.
  - intros x y. by rewrite (proj1 (Hl x)), (proj2 (Hl y)).
  - intros x. exists 0%nat, x. by constructor; apply Hl.
  - intros x y. by rewrite (proj2 (Hl y)).
Qed.

Lemma demo_sound : sound [1%nat; 2%nat] (λ _, 1) demo_kernel.
Proof.
  assert (∀ P : ec → Prop, P (demo_ecs 1) → P (demo_ec None 0 None None (Some (demo_utcb 0)) 0 1) → ∀ x, P (demo_ecs x)) as Hall
    by (intros P H1 H2 x; unfold demo_ecs; case_decide; subst; [exact H1|exact H2]).
  apply sound_unlinked.
  - by apply (Hall (λ e, partner e = None ∧ rcap e = None)).
  - intros p. by apply list_elem_of_further, list_elem_of_here.
  - by apply (Hall (λ e, pt_oom e = None ∧ xcpu_sm e = None)).
  - by apply (Hall (λ e, word 16 (cpu e) ∧ word 16 (glb e))).
  - intros x. unfold demo_kernel, demo_ecs. simpl. case_decide; subst; [|done]. by split; [apply list_elem_of_here|].
  - intros x. unfold demo_kernel, demo_ecs. simpl. case_decide; subst; [done|]. by rewrite bool_decide_false.
Qed.

Lemma demo_calm : calm [1%nat; 2%nat] (λ _, 1) demo_kernel.
Proof. split; [apply demo_sound|]. split; [done|]. by intros z. Qed.

Lemma demo_user : good [1%nat; 2%nat] (λ _, 1) (Some (User Ret_user_sysexit, demo_kernel)).
Proof. exists (User Ret_user_sysexit), demo_kernel. split; [done|]. split; [apply demo_sound|]. split; [done|]. by split. Qed.

(** The state after the call. *)
Definition demo_called : kernel unit :=
  match run 2 0 0 0 demo_host Sys_call demo_kernel with Some (_, s) => s | None => demo_kernel end.
Lemma demo_call : run 2 0 0 0 demo_host Sys_call demo_kernel = Some (Jump, demo_called).
Proof. vm_compute. reflexivity. Qed.
Definition demo_received : kernel unit :=
  match run 2 0 0 0 demo_host Recv_user demo_called with Some (_, s) => s | None => demo_kernel end.
Lemma demo_receive : run 2 0 0 0 demo_host Recv_user demo_called = Some (User Ret_user_sysexit, demo_received).
Proof. vm_compute. reflexivity. Qed.

Lemma demo_step : step [1%nat; 2%nat] (λ _, 1) 2 0 0 0 demo_host (User Ret_user_sysexit, demo_kernel) (Jump, demo_called).
Proof. apply (step_entry _ _ _ _ _ _ _ _ Sys_call); [by apply entry_call; left|done|apply demo_call]. Qed.

Lemma demo_kept_step : kept_step [1%nat; 2%nat] (λ _, 1) 2 0 0 0 demo_host (User Ret_user_sysexit, demo_kernel) (Jump, demo_called).
Proof. split; [exact demo_step|]. by intros (x & st & _ & _ & [=]). Qed.

Lemma demo_ready : ready 0 0 0 Recv_user demo_called.
Proof.
  intros x su Hx Hu Ht.
  assert (rcap (ecs demo_called (current demo_called)) = Some 1%nat) as Hx' by (vm_compute; reflexivity).
  rewrite Hx' in Hx. injection Hx as <-.
  assert (ec_utcb (ecs demo_called 1) = Some (demo_utcb 7)) as Hu' by (vm_compute; reflexivity).
  rewrite Hu' in Hu. injection Hu as <-. exfalso. revert Ht. vm_compute. discriminate.
Qed.


Lemma users_keep_kind_witness :
  ec_utcb (ecs demo_received (current demo_received)) ≠ None.
Proof.
  destruct (users_keep_kind [1%nat; 2%nat] (λ _, 1) demo_count_ok 2 ltac:(simpl; lia) 0 0 0 demo_host
    (User Ret_user_sysexit, demo_kernel) Ret_user_sysexit demo_received demo_user) as [[_ Hu]|[[Hk|Hk] _]]; [|exact Hu|discriminate Hk..].
  apply (rtc_l _ _ (Jump, demo_called)); [exact demo_kept_step|]. apply rtc_once. split; [|by intros (x & st & _ & _ & [=])].
  apply (step_jump _ _ _ _ _ _ _ _ Recv_user); [vm_compute; reflexivity|exact demo_ready|exact demo_receive].
Defined.

Lemma activate_reaches_end_witness :
  ∃ n y r s', chain demo_called 1 n y ∧ n = 1%nat ∧ y = 2%nat ∧ activate 2 1 demo_called = Some (r, s') ∧ current s' = 2%nat.
Proof.
  assert (good [1%nat; 2%nat] (λ _, 1) (Some (Jump, demo_called))) as (n0 & t & Heq & HS & Hq).
  { apply (step_good [1%nat; 2%nat] (λ _, 1) demo_count_ok 2 ltac:(simpl; lia) 0 0 0 demo_host _ _ demo_kept_step demo_user). }
  injection Heq as <- <-. destruct Hq as [_ Hq].
  destruct (activate_reaches_end [1%nat; 2%nat] (λ _, 1) demo_count_ok 2 ltac:(simpl; lia) 1 demo_called HS Hq)
    as (n & y & r & s' & Hc & Hu & _ & _ & Hrun & Hend).
  assert (chain demo_called 1 1 2) as Hc'.
  { apply (chain_next _ _ 2); [vm_compute; reflexivity|]. apply chain_end. vm_compute. reflexivity. }
  destruct (Hu _ _ Hc') as [<- <-]. exists 1%nat, 2%nat, r, s'.
  assert (blocked (ecs demo_called 2) = false) as Hb by (vm_compute; reflexivity).
  rewrite Hb in Hend. exact (conj Hc (conj eq_refl (conj eq_refl (conj Hrun (proj1 (proj2 Hend)))))).
Defined.
