(* ===== verification/IpcTrip.v ===== *)
(** A message and its reply: the functional behaviour of [sys_call],
    [recv_user] and [sys_reply] ([src/syscall.cpp]) together, the hazard of
    [IA32_TSC_AUX], and example systems on which the theorems on execution
    contexts are evaluated, with the flaws that modelling them showed. *)
From S2P Require Import Prelude Bits Quota Rcu Crd Queue Vregs Sysargs Utcb Avl AvlRemove Mdb Space Derivation Pd Ipc IpcSound.
Local Open Scope Z_scope.

Section trip.
Context {E : Type} `{PdEnv E} `{IpcEnv E}.
Implicit Type s : kernel E.
Context (D : list obj) (count : obj → Z) (count_ok : ∀ x, 1 ≤ count x < 2 ^ 32 - 8).
Context (hops root kern fuel : nat) (h : host).
Abbreviation sound := (IpcSound.sound D count).
Abbreviation calm := (IpcSound.calm D count).

(** [y] waits for a call, with the UTCB [v]. *)
Definition idle_portal (y : obj) (v : utcb) s : Prop :=
  cont (ecs s y) = None ∧ ec_utcb (ecs s y) = Some v.

(** [sys_call] of [cur] through a portal of the idle [y]. *)
Lemma call_run s p prm y v u :
  calm s → ec_utcb (ecs s (current s)) = Some u →
  lookup (pd_current s) (Sys_call_pt (regs_of (current s) s)) (env (wd s)) = KPt p prm → pt_ec (pts s p) = y →
  idle_portal y v s → hit_limit (quotas (wd s) (pd_current s)) 0 = false →
  cpu (ecs s (current s)) = xcpu (ecs s y) →
  ∃ s', sys_call hops s = Some (Jump, s') ∧ calm s' ∧ current s' = y ∧
    ctr_link s' = wrap 32 (ctr_link s + 1) ∧ sc_current s' = sc_current s ∧
    Pd.hazard (wd s') = Pd.hazard (wd s) ∧ (∀ z, scs s' z = scs s z) ∧
    (∀ z, ec_utcb (ecs s' z) = ec_utcb (ecs s z)) ∧
    regs_of y s' = set_ip (pt_ip (pts s p)) (set_pt (pt_id (pts s p)) (regs_of y s)) ∧
    (∀ z, cont (ecs s' z) = if decide (z = current s) then Some Ret_user_sysexit
                            else if decide (z = y) then Some Recv_user else cont (ecs s z)) ∧
    (∀ z, partner (ecs s' z) = if decide (z = current s) then Some y else partner (ecs s z)) ∧
    (∀ z, rcap (ecs s' z) = if decide (z = y) then Some (current s) else rcap (ecs s z)).
Proof.
  intros HC Hu Hlk <- [Hy Hv] Hq Hcpu. pose proof HC as (HS & Hrun & Hscs). set (y := pt_ec (pts s p)) in *.
  destruct (eo_oom _ _ _ _ (so_ec _ _ _ HS (current s))) as [_ Hx].
  assert (thread (ecs s (current s)) = true) as Htc by (unfold thread; by rewrite Hu).
  assert (thread (ecs s y) = true) as Hty by (unfold thread; by rewrite Hv).
  assert (current s ≠ y) as Hn by (intros Hc; destruct Hrun as (_ & Hr & _); congruence).
  unfold sys_call. rewrite Hlk, Hq, Hx. fold y. rewrite Hcpu, Z.eqb_refl. cbn [negb]. rewrite bool_decide_true by done.
  pose proof (refs_range D count count_ok s y HS). pose proof (refs_range D count count_ok s (current s) HS).
  destruct (set_partner_run (current s) y (upd_ec (current s) (set_cont (Some Ret_user_sysexit)) s)) as (s1 & -> & Hb & Hl & He1);
    [done|rewrite ecs_upd; sites; simpl; lia..|]. cbn [mbind option_bind].
  set (s2 := upd_ec y (set_cont (Some Recv_user)) s1).
  destruct (sound_connect D count y Ret_user_sysexit Recv_user s s2) as [HS2 Hrun2]; try done.
  { apply (so_portal _ _ _ HS). }
  { by apply (xcpu_local D count s (current s)). }
  { by apply (be_current _ _ Hb). }
  { intros z. exact (f_equal (λ m, pt_ec (m z)) (be_pts _ _ Hb)). }
  { intros z. unfold s2. rewrite !ecs_upd, !He1, !ecs_upd. by sites; subst. }
  set (s3 := start y Recv_user (pts s p) s1).
  assert (alike s3 s2) as A by apply alike_start.
  destruct (switch_run D count count_ok y s3) as (s4 & Hr4 & Hsw); [by rewrite A|]. rewrite Hr4.
  exists s4. split; [done|].
  assert (current s3 = current s) as Hc3 by apply (be_current _ _ Hb).
  assert (∀ z, ec_utcb (ecs s3 z) = ec_utcb (ecs s z)) as Hu3.
  { intros z. unfold s3, start, upd_regs_of. rewrite !ecs_upd, He1, ecs_upd. sites; subst; rewrite ?He1, ?ecs_upd; by sites. }
  assert (∀ z, thread (ecs s3 z) = thread (ecs s z)) as Ht3 by (intros z; unfold thread; by rewrite Hu3).
  assert (∀ z, ecs s2 z = if decide (z = current s) then
      set_partner_of (Some y) (set_refs (refs (ecs s z) + 1) (set_cont (Some Ret_user_sysexit) (ecs s z)))
      else if decide (z = y) then set_cont (Some Recv_user) (set_rcap (Some (current s)) (set_refs (refs (ecs s y) + 1) (ecs s y)))
      else ecs s z) as He2.
  { intros z. unfold s2. rewrite !ecs_upd, !He1, !ecs_upd. by sites; subst. }
  split.
  - apply (switched_calm D count y s3); [by rewrite A|by rewrite A|done|].
    intros z. change (scs s3 z) with (scs s1 z). rewrite (be_scs _ _ Hb). apply Hscs.
  - split; [apply Hsw|]. split; [by rewrite (sw_link _ _ _ Hsw)|].
    split; [by rewrite (sw_sc _ _ _ Hsw); apply (be_sc _ _ Hb)|].
    split; [by rewrite (sw_hazard _ _ _ Hsw); change (wd s3) with (wd s1); rewrite (be_wd _ _ Hb)|].
    split; [intros z; rewrite (sw_scs _ _ _ Hsw); change (scs s3 z) with (scs s1 z); by rewrite (be_scs _ _ Hb)|].
    split; [intros z; by rewrite (sw_utcb _ _ _ Hsw), Hu3|].
    split.
    { unfold regs_of. rewrite (sw_regs _ _ _ Hsw), ?Hc3 by (by rewrite ?Hc3, Ht3). unfold s3, start, upd_regs_of.
      rewrite !ecs_upd, He1, !ecs_upd. by sites. }
    split; [|split]; intros z; destruct (bare_eq _ _ (sw_shape _ _ _ Hsw z)) as (E1 & E2 & E3 & _);
      destruct (shape_eq _ _ (al_shape _ _ A z)) as (F1 & F2 & F3 & _);
      rewrite ?E1, ?E2, ?E3, ?F1, ?F2, ?F3, He2; sites; subst; done.
Qed.

Lemma quiet_sysexit s :
  hazards_of s SYSEXIT_HAZARDS = 0 → regs_of (current s) s ARG_IP < USER_ADDR →
  ret_user_sysexit hops s = Some (User Ret_user_sysexit, s).
Proof.
  intros Hh Hip. unfold ret_user_sysexit, after_hazards. cbv zeta. rewrite Hh. cbn [truthy Z.eqb negb].
  destruct (Z.leb_spec USER_ADDR (regs_of (current s) s ARG_IP)); [lia|done].
Qed.

(** [reply] to the caller [x] on the time of the caller. *)
Lemma reply_back s x :
  calm s → thread (ecs s (current s)) = true → rcap (ecs s (current s)) = Some x → truthy (ctr_link s) = true →
  sc_ec (scs s (sc_current s)) ≠ x ∨ sc_disable (scs s (sc_current s)) = false ∧ sc_refs (scs s (sc_current s)) ≠ 1 →
  ∃ s', reply hops None None s = Some (Jump, s') ∧ calm s' ∧ current s' = x ∧
    ctr_link s' = wrap 32 (ctr_link s - 1) ∧ sc_current s' = sc_current s ∧
    ∀ z, ec_utcb (ecs s' z) = ec_utcb (ecs s z) ∧
      cont (ecs s' z) = (if decide (z = current s) then None else cont (ecs s z)) ∧
      partner (ecs s' z) = (if decide (z = x) then None else partner (ecs s z)) ∧
      rcap (ecs s' z) = if decide (z = current s) then None else rcap (ecs s z).
Proof.
  intros HC Htc Hx Hl Hsc. pose proof HC as (HS & Hrun & Hscs). destruct (caller_other D count s x HC Hx) as [Hp Hn].
  unfold reply. cbv zeta. set (s2 := upd_ec (current s) (set_cont None) s). change (current s2) with (current s).
  assert (ecs s2 (current s) = set_cont None (ecs s (current s))) as Ec2 by (unfold s2; by rewrite ecs_upd, decide_True).
  assert (ecs s2 x = ecs s x) as Ex2 by (unfold s2; by rewrite ecs_upd, decide_False).
  rewrite Ec2. cbn [glb rcap set_cont]. rewrite Hx.
  rewrite (eo_glb _ _ _ _ (so_ec _ _ _ HS _)) by congruence. cbn [Z.eqb negb].
  pose proof (refs_range D count count_ok s x HS). pose proof (refs_range D count count_ok s (current s) HS).
  pose proof (refs_current D count count_ok s HS). pose proof (refs_partner D count count_ok s x _ HS Hp).
  destruct (clr_partner_run x s2) as (s3 & -> & Hb & Hl3 & He3); change (current s2) with (current s);
    [done|by rewrite Ex2|by rewrite Ec2|by rewrite Ex2; simpl; lia|by rewrite Ec2; simpl; lia|].
  change (current s2) with (current s) in He3. cbn [mbind option_bind]. rewrite (be_scs _ _ Hb), (be_sc _ _ Hb).
  change (scs s2) with (scs s). change (sc_current s2) with (sc_current s). change (ctr_link s2) with (ctr_link s). rewrite Hl.
  cbn [negb]. unfold last_ref.
  assert (bool_decide (sc_ec (scs s (sc_current s)) = x) && (sc_disable (scs s (sc_current s)) || (sc_refs (scs s (sc_current s)) =? 1)) = false) as ->.
  { destruct Hsc as [Hne|[-> Hne]]; [by rewrite bool_decide_false|]. simpl. apply andb_false_intro2. by apply Z.eqb_neq. }
  assert (∀ z, ecs s3 z = if decide (z = x) then set_partner_of None (set_refs (refs (ecs s x) - 1) (ecs s x))
      else if decide (z = current s) then set_rcap None (set_refs (refs (ecs s z) - 1) (set_cont None (ecs s z))) else ecs s z) as He.
  { intros z. rewrite He3, Ex2, Ec2. unfold s2. rewrite !ecs_upd. by sites; subst. }
  destruct (sound_disconnect D count x None s s3) as (_ & HS3 & Hrun3); try done; [by left|by rewrite (be_current _ _ Hb)|by rewrite (be_pts _ _ Hb)|].
  destruct (switch_run D count count_ok x s3 HS3) as (s4 & -> & Hsw). exists s4. split; [done|].
  split; [eapply switched_calm; [done..|]; intros z; rewrite (be_scs _ _ Hb); apply Hscs|].
  split; [apply Hsw|]. split; [by rewrite (sw_link _ _ _ Hsw), Hl3|]. split; [by rewrite (sw_sc _ _ _ Hsw), (be_sc _ _ Hb)|].
  intros z. destruct (bare_eq _ _ (sw_shape _ _ _ Hsw z)) as (-> & -> & -> & _). rewrite (sw_utcb _ _ _ Hsw), He. by sites; subst.
Qed.

(** [sys_reply] without typed items and without a semaphore, by a context that
    was called. *)
Lemma reply_run s x u v :
  calm s → rcap (ecs s (current s)) = Some x → cont (ecs s x) = Some Ret_user_sysexit →
  ec_utcb (ecs s (current s)) = Some v → ec_utcb (ecs s x) = Some u → tcnt v = 0 →
  Sys_reply_sm (regs_of (current s) s) = 0 →
  sys_reply hops root kern fuel h s = reply hops None None (upd_ec x (set_ec_utcb (Some (save v u))) s).
Proof.
  intros HC Hx Hcx Hv Hu Ht Hsm. pose proof HC as (HS & Hrun & Hscs).
  assert (∀ c, cont (ecs s (current s)) = Some c → fits true c = true) as Hfit.
  { intros c Hc. pose proof (proj2 (eo_fits _ _ _ _ (so_ec _ _ _ HS _) c Hc)) as Hf. unfold thread in Hf. by rewrite Hv in Hf. }
  assert (reply_sm s = (None, s)) as Hrs.
  { unfold reply_sm. cbv zeta. rewrite Hsm. rewrite bool_decide_false by (intros Hc; by specialize (Hfit _ Hc)). done. }
  unfold sys_reply. rewrite Hx, Hrs. cbn [defer mbind option_bind]. rewrite Hv. cbn [mbind option_bind].
  rewrite Ht. cbn [truthy Z.eqb negb].
  rewrite (bool_decide_false (cont (ecs s (current s)) = Some Ret_xcpu_reply)) by (intros Hc; by specialize (Hfit _ Hc)).
  unfold deliver. rewrite Hcx. unfold waits_for_user. rewrite (bool_decide_true (Some _ = Some _)) by done.
  by rewrite Hu.
Qed.

(** C8: A call comes back.  A thread with the message [u] calls a portal of an
    idle thread [y] on its CPU; [y] receives exactly the message and its
    portal's identifier and entry, on the time of the caller.  Whatever message
    [v'] and registers [r'] the callee then replies with, the kernel switches
    back to the caller, which finds the reply, and all links, reference counts
    and the length of the chain are what they were; the callee is idle again. *)
Theorem call_reply_roundtrip s p prm y u v :
  calm s → ec_utcb (ecs s (current s)) = Some u → tcnt u = 0 →
  lookup (pd_current s) (Sys_call_pt (regs_of (current s) s)) (env (wd s)) = KPt p prm → pt_ec (pts s p) = y →
  idle_portal y v s → hit_limit (quotas (wd s) (pd_current s)) 0 = false → cpu (ecs s (current s)) = xcpu (ecs s y) →
  pt_ip (pts s p) < USER_ADDR →
  ((Pd.hazard (wd s) .| Vregs.hazard (regs_of y s)) .& SYSEXIT_HAZARDS)%W = 0 →
  0 ≤ ctr_link s < 2 ^ 32 - 1 →
  sc_ec (scs s (sc_current s)) ≠ current s ∨
    sc_disable (scs s (sc_current s)) = false ∧ sc_refs (scs s (sc_current s)) ≠ 1 →
  ∃ s1 s2, run hops root kern fuel h Sys_call s = Some (Jump, s1) ∧ cont (ecs s1 (current s1)) = Some Recv_user ∧
    run hops root kern fuel h Recv_user s1 = Some (User Ret_user_sysexit, s2) ∧
    current s2 = y ∧ ec_utcb (ecs s2 y) = Some (save u v) ∧ sc_current s2 = sc_current s ∧
    regs_of y s2 ARG_1 = pt_id (pts s p) ∧ regs_of y s2 ARG_IP = pt_ip (pts s p) ∧
    ∀ v' r', tcnt v' = 0 → Sys_reply_sm (regs r') = 0 →
      ∃ s3, run hops root kern fuel h Sys_reply (upd_ec y (λ e, set_ec_utcb (Some v') (set_cpu_regs r' e)) s2) = Some (Jump, s3) ∧
        calm s3 ∧ current s3 = current s ∧ ctr_link s3 = ctr_link s ∧ sc_current s3 = sc_current s ∧
        ec_utcb (ecs s3 (current s)) = Some (save v' u) ∧ ec_utcb (ecs s3 y) = Some v' ∧
        cont (ecs s3 (current s)) = Some Ret_user_sysexit ∧
        ∀ z, partner (ecs s3 z) = partner (ecs s z) ∧ rcap (ecs s3 z) = rcap (ecs s z) ∧
          (z ≠ current s → cont (ecs s3 z) = cont (ecs s z)).
Proof.
  intros HC Hu Ht Hlk Hy Hidle Hq Hcpu Hip Hhz Hl Hsc. cbn [run].
  destruct (call_run s p prm y v u HC Hu Hlk Hy Hidle Hq Hcpu)
    as (s1 & -> & HC1 & Hc1 & Hl1 & Hs1 & Hh1 & Hscs1 & Hu1 & Hr1 & Hcont1 & Hp1 & Hrc1).
  destruct HC as (HS & (Hpc & Hcc & Hqc) & Hscs). destruct Hidle as [Hyc Hyv].
  assert (y ≠ current s) as Hn by congruence.
  destruct (eo_idle _ _ _ _ (so_ec _ _ _ HS y) Hyc) as (Hyr & _).
  assert (rcap (ecs s1 (current s1)) = Some (current s)) as Hx1 by (rewrite Hrc1; by sites).
  assert (recv_user hops root kern fuel s1 = Some (User Ret_user_sysexit, upd_ec y (set_ec_utcb (Some (save u v))) s1)) as Hrecv.
  { unfold recv_user. rewrite Hx1. cbn [mbind option_bind]. rewrite (Hu1 (current s)), Hu, Hc1, (Hu1 y), Hyv.
    cbn [mbind option_bind]. rewrite Ht. cbn [truthy Z.eqb negb]. apply quiet_sysexit.
    - unfold hazards_of. change (current (upd_ec _ _ s1)) with (current s1). rewrite Hc1. change (wd (upd_ec _ _ s1)) with (wd s1).
      rewrite Hh1. unfold regs_of in *. rewrite ecs_upd, decide_True by done. cbn [cpu_regs set_ec_utcb]. by rewrite Hr1.
    - change (current (upd_ec _ _ s1)) with (current s1). rewrite Hc1. unfold regs_of in *. rewrite ecs_upd, decide_True by done.
      cbn [cpu_regs set_ec_utcb]. by rewrite Hr1. }
  exists s1, (upd_ec y (set_ec_utcb (Some (save u v))) s1). split; [done|].
  split; [rewrite Hcont1, Hc1; by sites|]. split; [done|]. split; [done|].
  split; [by rewrite ecs_upd, decide_True|]. split; [done|].
  assert (regs_of y (upd_ec y (set_ec_utcb (Some (save u v))) s1) = regs_of y s1) as ->
    by (unfold regs_of; by rewrite ecs_upd, decide_True).
  rewrite Hr1. split; [done|]. split; [done|]. intros v' r' Ht' Hsm'.
  set (s2 := upd_ec y (λ e, set_ec_utcb (Some v') (set_cpu_regs r' e)) (upd_ec y (set_ec_utcb (Some (save u v))) s1)).
  assert (∀ z, ecs s2 z = if decide (z = y) then set_ec_utcb (Some v') (set_cpu_regs r' (ecs s1 y)) else ecs s1 z) as He2.
  { intros z. unfold s2. rewrite !ecs_upd. by sites; subst. }
  assert (alike s2 s1) as A.
  { split; [|done..]. intros z. rewrite He2. destruct (decide (z = y)) as [->|]; [|done].
    unfold shape_of, thread. simpl. by rewrite Hu1, Hyv. }
  assert (current s2 = y) as Hc2 by done.
  assert (rcap (ecs s2 (current s2)) = Some (current s)) as Hx2 by (rewrite Hc2, He2, decide_True by done; simpl; rewrite Hrc1; by sites).
  assert (ec_utcb (ecs s2 (current s)) = Some u) as Hu2 by (rewrite He2; sites; by rewrite Hu1).
  rewrite (reply_run s2 (current s) u v'); [|by rewrite A|done|rewrite He2; sites; rewrite Hcont1; by sites
    |by rewrite Hc2, He2, decide_True|done|done|by rewrite Hc2; unfold regs_of; rewrite He2, decide_True].
  set (s2' := upd_ec (current s) (set_ec_utcb (Some (save v' u))) s2).
  assert (alike s2' s2) as A' by (apply alike_utcb; unfold thread; by rewrite Hu2).
  assert (∀ z, ecs s2' z = if decide (z = current s) then set_ec_utcb (Some (save v' u)) (ecs s2 (current s)) else ecs s2 z) as He2'
    by (intros z; unfold s2'; by rewrite ecs_upd).
  assert (current s2' = y) as Hc2' by done.
  destruct (reply_back s2' (current s)) as (s3 & -> & HC3 & Hc3 & Hl3 & Hs3 & H3).
  - by rewrite A', A.
  - rewrite Hc2', He2'. sites. unfold thread. by rewrite He2, decide_True.
  - rewrite Hc2', He2'. sites. by rewrite <-Hx2, Hc2.
  - change (ctr_link s2') with (ctr_link s1). rewrite Hl1, wrap_small by (unfold word; lia).
    unfold truthy. by destruct (Z.eqb_spec (ctr_link s + 1) 0); [lia|].
  - change (scs s2') with (scs s1). change (sc_current s2') with (sc_current s1). by rewrite Hscs1, Hs1.
  - exists s3. split; [done|]. split; [done|]. split; [done|]. split.
    { rewrite Hl3. change (ctr_link s2') with (ctr_link s1). rewrite Hl1, (wrap_small 32 (ctr_link s + 1)) by (unfold word; lia).
      rewrite wrap_small by (unfold word; lia). lia. }
    split; [by rewrite Hs3|]. rewrite Hc2' in H3.
    split; [destruct (H3 (current s)) as [-> _]; rewrite He2'; by sites|].
    split; [destruct (H3 y) as [-> _]; rewrite He2'; sites; by rewrite He2, decide_True|].
    split; [destruct (H3 (current s)) as (_ & -> & _); sites; rewrite He2'; sites; rewrite He2; sites; simpl; rewrite Hcont1; by sites|].
    intros z. destruct (H3 z) as (_ & -> & -> & ->). rewrite He2', !He2. split; [|split; [|intros Hz]];
      sites; subst; cbn [partner rcap cont set_ec_utcb set_cpu_regs]; rewrite ?Hp1, ?Hrc1, ?Hcont1; by sites.
Qed.
End trip.

(** ** [IA32_TSC_AUX] *)

Section tsc_aux.
Context {E : Type} `{IpcEnv E}.
Implicit Type s : kernel E.

(** What the register must hold while a context runs: the guest's value, or the
    number of the CPU. *)
Definition wanted_tsc_aux (e : ec) : Z := if vcpu_ec e then regs (cpu_regs e) tsc_aux else cpu_id.

(** The case analysis of [check_hazard_tsc_aux] is a comparison: switching
    raises the hazard exactly when the processor has the register and the next
    context wants another value in it than the current one. *)
Theorem tsc_aux_hazard x s :
  check_hazard_tsc_aux x s =
    if feat_rdtscp && negb (wanted_tsc_aux (ecs s (current s)) =? wanted_tsc_aux (ecs s x))
    then upd_regs_of x (Vregs.set_hazard HZD_TSC_AUX) s else s.
Proof.
  unfold check_hazard_tsc_aux, wanted_tsc_aux, regs_of.
  destruct feat_rdtscp, (vcpu_ec (ecs s (current s))), (vcpu_ec (ecs s x)); simpl; try done.
  by rewrite Z.eqb_refl.
Qed.
End tsc_aux.

(** ** Examples *)

#[local] Existing Instance demo_env.
#[local] Existing Instance demo_ipc.

Lemma call_reply_roundtrip_witness :
  ∃ s1 s2, run 2 0 0 0 demo_host Sys_call demo_kernel = Some (Jump, s1) ∧
    run 2 0 0 0 demo_host Recv_user s1 = Some (User Ret_user_sysexit, s2) ∧
    current s2 = 2%nat ∧ ec_utcb (ecs s2 2) = Some (save (demo_utcb 7) (demo_utcb 0)) ∧
    ∃ s3, run 2 0 0 0 demo_host Sys_reply
      (upd_ec 2 (λ e, set_ec_utcb (Some (demo_utcb 9)) (set_cpu_regs (demo_regs 0) e)) s2) = Some (Jump, s3) ∧
      current s3 = 1%nat ∧ ec_utcb (ecs s3 1) = Some (save (demo_utcb 9) (demo_utcb 7)).
Proof.
  destruct (call_reply_roundtrip [1%nat; 2%nat] (λ _, 1) demo_count_ok 2 0 0 0 demo_host
    demo_kernel 0 31 2 (demo_utcb 7) (demo_utcb 0))
    as (s1 & s2 & H1 & _ & H2 & H3 & H4 & _ & _ & _ & Hrep); try reflexivity.
  - exact demo_calm.
  - split; reflexivity.
  - simpl. lia.
  - right. split; [reflexivity|discriminate].
  - destruct (Hrep (demo_utcb 9) (demo_regs 0) ltac:(reflexivity) ltac:(reflexivity)) as (s3 & H5 & _ & H6 & _ & _ & H7 & _).
    exists s1, s2. exact (conj H1 (conj H2 (conj H3 (conj H4 (ex_intro _ s3 (conj H5 (conj H6 H7))))))).
Defined.

(** The state a handler ends in. *)
Definition state_of (o : outcome (E := unit)) : kernel unit :=
  match o with Some (_, s) => s | None => demo_kernel end.
Lemma ends_in (o : outcome (E := unit)) n : (fst <$> o) = Some n → o = Some (n, state_of o).
Proof. by destruct o as [[]|]; intros [= ->]. Qed.

(** Thread 1 is out of memory; its handler 3 was killed while thread 4 waits for
    it. *)
Definition demo_poor : world unit :=
  World (sps demo_pages) 0 false [] (λ _, Quota 200 0 100 0) (devs demo_pages) tt.
Definition demo_oom : kernel unit :=
  Kernel (λ x,
      if decide (x = 1%nat) then
        Ec (Some Ret_user_sysexit) (demo_regs (1 << 9)%W) None (Some (demo_utcb 7)) 0 None false [] 0 1 0 None (Some 1%nat) false 0 0 2
      else if decide (x = 3%nat) then demo_ec (Some Dead) 0 (Some 4%nat) None (Some (demo_utcb 0)) 0 2
      else if decide (x = 4%nat) then demo_ec (Some Ret_user_sysexit) 0 None (Some 3%nat) (Some (demo_utcb 0)) 1 2
      else demo_ec None 0 None None (Some (demo_utcb 0)) 0 1)
    (λ p, if decide (p = 1%nat) then Pt 3 0 100 9 else Pt 2 0 100 5) (λ _, Sc 1 false 2) 1 0 0 0 demo_poor.

(** A killed handler comes back to life.  When [help] returns because the
    context it should help is dead, [oom_call] goes on as if the context were
    idle: it makes the dead handler of a lack of memory run user code again, with
    the new caller in its [rcap], so that the thread that waited for it is never
    answered: it keeps a partner that no longer knows it. *)
Theorem oom_call_revives_dead :
  ∃ s s', (∀ x y, partner (ecs s x) = Some y ↔ rcap (ecs s y) = Some x) ∧
    cont (ecs s 3) = Some Dead ∧ rcap (ecs s 3) = Some 4%nat ∧
    run 4 0 0 0 demo_host Sys_call s = Some (Jump, s') ∧ current s' = 3%nat ∧
    cont (ecs s' 3) = Some Ret_user_sysexit ∧ rcap (ecs s' 3) = Some 1%nat ∧ partner (ecs s' 4) = Some 3%nat.
Proof.
  exists demo_oom, (state_of (run 4 0 0 0 demo_host Sys_call demo_oom)).
  split_and!; try (apply ends_in); try (vm_compute; reflexivity).
  intros x y. unfold demo_oom. cbn [ecs]. repeat case_decide; subst; simpl; naive_solver.
Qed.





