(* ===== verification/Acpi.v ===== *)
(** Tables of the firmware: [include/acpi_table.hpp] and [src/acpi_table.cpp].

    A table is a range of bytes; multi-byte fields are little-endian and not
    aligned.  Tables that list entries of several types, each with its length,
    are walked by loops of one shape. *)
From S2P Require Import Prelude.
Local Open Scope Z_scope.

Section bytes.
Context (b : Z → Z).

Definition u8 (a : Z) : Z := b a.
Definition u16 (a : Z) : Z := b a + b (a + 1) * 2 ^ 8.
Definition u32 (a : Z) : Z := u16 a + u16 (a + 2) * 2 ^ 16.
Definition u64 (a : Z) : Z := u32 a + u32 (a + 4) * 2 ^ 32.

(** [Acpi_table::length] of the table at [this]. *)
Definition table_length (this : Z) : Z := u32 (this + 4).

Definition HEADER_SIZE : Z := 36.

(** [good_checksum] *)
Fixpoint checksum_loop (fuel : nat) (ptr fin check : Z) : Z :=
  match fuel with
  | O => check
  | S fuel => if ptr <? fin then checksum_loop fuel (ptr + 1) fin (wrap 8 (check + u8 ptr)) else check
  end.

Definition good_checksum (this : Z) : bool :=
  negb (truthy (checksum_loop (Z.to_nat (table_length this)) this (this + table_length this) 0)).

(** The loop over the entries from [ptr] to [fin]: [handler] gets those of
    type [ty].  Every entry takes a byte at least, or the loop does not end. *)
Section entries.
Context {S : Type} (ty : Z) (handler : Z → S → option S).

Fixpoint parse_entries (fuel : nat) (ptr fin : Z) (s : S) : option S :=
  if ptr <? fin then
    match fuel with
    | O => None
    | Datatypes.S fuel =>
      s ← (if u8 ptr =? ty then handler ptr s else Some s);
      parse_entries fuel (ptr + u8 (ptr + 1)) fin s
    end
  else Some s.
End entries.

(** The addresses of the entries from [ptr] to [fin]. *)
Fixpoint entries (fuel : nat) (ptr fin : Z) : option (list Z) :=
  if ptr <? fin then
    match fuel with
    | O => None
    | S fuel => l ← entries fuel (ptr + u8 (ptr + 1)) fin; Some (ptr :: l)
    end
  else Some [].

(** The loop hands the entries of its type to the handler, one by one. *)
Fixpoint fold_option {A S : Type} (f : A → S → option S) (l : list A) (s : S) : option S :=
  match l with
  | [] => Some s
  | x :: l => s ← f x s; fold_option f l s
  end.

Lemma parse_entries_fold {S : Type} ty (handler : Z → S → option S) fin fuel : ∀ ptr l s,
  entries fuel ptr fin = Some l →
  parse_entries ty handler fuel ptr fin s = fold_option handler (filter (λ a, u8 a = ty) l) s.
Proof.
  induction fuel as [|fuel IH]; intros ptr l s; cbn [entries parse_entries].
  - destruct (ptr <? fin); [done|]. by intros [= <-].
  - destruct (ptr <? fin); [|by intros [= <-]].
    destruct (entries fuel (ptr + u8 (ptr + 1)) fin) as [l'|] eqn:He; [|done]. cbn [mbind option_bind]. intros [= <-].
    rewrite filter_cons. destruct (Z.eqb_spec (u8 ptr) ty) as [Ht|Ht].
    + rewrite decide_True by done. cbn [fold_option]. destruct (handler ptr s) as [s'|]; [|done]. cbn [mbind option_bind]. by apply IH.
    + rewrite decide_False by done. cbn [mbind option_bind]. by apply IH.
Qed.

(** The table lists entries at the addresses [l], none of them empty. *)
Inductive listed (fin : Z) : Z → list Z → Prop :=
  | listed_end ptr : fin ≤ ptr → listed fin ptr []
  | listed_entry ptr l : ptr < fin → 1 ≤ u8 (ptr + 1) → listed fin (ptr + u8 (ptr + 1)) l → listed fin ptr (ptr :: l).

(** The loops end, after as many turns as the table has bytes at most. *)
Lemma entries_end fin ptr l : listed fin ptr l → ∀ fuel, fin - ptr ≤ Z.of_nat fuel → entries fuel ptr fin = Some l.
Proof.
  induction 1 as [ptr Hf|ptr l Hlt Hp _ IH]; intros [|fuel] Hfuel; cbn [entries].
  - by rewrite (proj2 (Z.ltb_ge _ _)).
  - by rewrite (proj2 (Z.ltb_ge _ _)).
  - lia.
  - rewrite (proj2 (Z.ltb_lt _ _)) by done. rewrite IH by lia. done.
Qed.

End bytes.

Lemma fold_option_app {A S : Type} (f : A → S → option S) l1 l2 s :
  fold_option f (l1 ++ l2) s = (s ← fold_option f l1 s; fold_option f l2 s).
Proof. revert s. induction l1 as [|x l1 IH]; intros s; [done|]. cbn. destruct (f x s); [|done]. cbn. apply IH. Qed.

(** ** Tables for examples *)

(** The bytes of a field, and memory that holds a table at address 0. *)
Definition le (n : nat) (v : Z) : list Z := (λ i, v / 2 ^ (8 * Z.of_nat i) mod 2 ^ 8) <$> seq 0 n.
Definition bytes_at (l : list Z) (a : Z) : Z := default 0 (l !! Z.to_nat a).

(** Shows that a concrete table lists its entries. *)
Ltac list_entries :=
  repeat (apply listed_entry; [by vm_compute|by vm_compute|];
    match goal with |- listed _ _ ?p _ => let q := eval vm_compute in p in change p with q end);
  apply listed_end; by vm_compute.
