(* ===== verification/Tip.v ===== *)
(** Topology information pages: [include/tip.hpp] and [src/tip.cpp].

    The pages tell user space which CPUs, ranges of memory and devices belong
    to which domain of a NUMA machine: an array of nodes, one for each domain
    the firmware mentions, and the domain of each CPU.  They lie in the zeroed
    data of the kernel and grow as domains are found; [length] counts the bytes
    of the nodes.  [None] is a write outside of the pages or through a null
    pointer. *)
From S2P Require Import Prelude Bits Bitmap Cpuset Quota Queue Buddy.
Local Open Scope Z_scope.

Record Tip_dev := Dev { dev_type : Z; hid : Z; uid : Z }.

Record Tip_node := Node {
  id : Z; num_mem_descr : Z; num_devs : Z;
  memory : list (Z * Z);     (** the first and the last byte, 32 of them *)
  devices : list Tip_dev;    (** 32 of them *)
  cpus : cpuset;
}.

(** [sizeof (Tip_node)], with 16 bytes for a range and 24 for a device. *)
Definition NODE_SIZE : Z := 8 + 32 * 16 + 32 * 24 + 32.

(** The address of a node is its offset in [nodes]. *)
Record Tip := Topo { length : Z; cpu_to_node : Z → Z; nodes : nat → Tip_node }.

Definition node_zero : Tip_node := Node 0 0 0 (replicate 32 (0, 0)) (replicate 32 (Dev 0 0 0)) (cpuset_new 0).
Definition tip_zero : Tip := Topo 0 (λ _, 0) (λ _, node_zero).

Definition set_id (v : Z) (n : Tip_node) : Tip_node :=
  Node v (num_mem_descr n) (num_devs n) (memory n) (devices n) (cpus n).
Definition set_mem (k : Z) (m : list (Z * Z)) (n : Tip_node) : Tip_node :=
  Node (id n) k (num_devs n) m (devices n) (cpus n).
Definition set_devs (k : Z) (d : list Tip_dev) (n : Tip_node) : Tip_node :=
  Node (id n) (num_mem_descr n) k (memory n) d (cpus n).
Definition set_cpus (c : cpuset) (n : Tip_node) : Tip_node :=
  Node (id n) (num_mem_descr n) (num_devs n) (memory n) (devices n) c.

Definition node_cnt (t : Tip) : nat := Z.to_nat (length t / NODE_SIZE).

(** ** Nodes *)

(** [alloc_mem]: the index of a range in the node. *)
Definition alloc_mem (n : Tip_node) : option (Z * Tip_node) :=
  if 32 <? num_mem_descr n then None
  else Some (num_mem_descr n, set_mem (wrap 8 (num_mem_descr n + 1)) (memory n) n).

(** A range is stored at its index; behind the last one are the devices. *)
Definition put_mem (i : Z) (s e : Z) (n : Tip_node) : Tip_node :=
  if i <? 32 then set_mem (num_mem_descr n) (<[Z.to_nat i := (s, e)]> (memory n)) n
  else set_devs (num_devs n) (alter (λ d, Dev (wrap 32 s) e (uid d)) 0%nat (devices n)) n.

(** [for_each_mem] *)
Definition for_each_mem {S : Type} (fn : Z * Z → S → S) (n : Tip_node) (s : S) : S :=
  foldl (λ s m, fn m s) s (take (Z.to_nat (num_mem_descr n)) (memory n)).

(** ** The pages *)

Definition upd_node (i : nat) (f : Tip_node → Tip_node) (t : Tip) : Tip :=
  Topo (length t) (cpu_to_node t) (<[i := f (nodes t i)]> (nodes t)).

(** [add_node] for the node at offset [o]. *)
Definition add_node (o nid : Z) (t : Tip) : option Tip :=
  if o mod NODE_SIZE =? 0 then
    let t := upd_node (Z.to_nat (o / NODE_SIZE)) (set_id nid) t in
    Some (Topo (wrap 16 (length t + NODE_SIZE)) (cpu_to_node t) (nodes t))
  else None.

(** The loop of [on_node], [todo] nodes to go; [n] is the node before. *)
Fixpoint find_node (todo i n : nat) (nid : Z) (t : Tip) : nat :=
  match todo with
  | O => n
  | S todo => if id (nodes t i) =? nid then i else find_node todo (S i) i nid t
  end.

Definition on_node (fn : Tip_node → option Tip_node) (nid : Z) (t : Tip) : option Tip :=
  let n := find_node (node_cnt t) 0 0 nid t in
  if negb (id (nodes t n) =? nid) then Some t
  else x ← fn (nodes t n); Some (upd_node n (λ _, x) t).

(** [for_each_node] *)
Definition for_each_node {S : Type} (fn : Tip_node → S → S) (t : Tip) (s : S) : S :=
  foldl (λ s i, fn (nodes t i) s) s (seq 0 (node_cnt t)).

(** A CPU without a number, 0xffff, is outside of all arrays. *)
Definition add_cpu (cpu nid : Z) (t : Tip) : option Tip :=
  if NUM_CPU <=? cpu then None
  else
    t ← on_node (λ n, Some (set_cpus (Cpuset.set (cpus n) cpu).2 n)) nid t;
    Some (Topo (length t) (<[cpu := nid]> (cpu_to_node t)) (nodes t)).

Definition add_mem (nid base size : Z) (t : Tip) : option Tip :=
  on_node (λ n, '(i, n) ← alloc_mem n; Some (put_mem i base (base + size - 1)%W n)) nid t.

Fixpoint has_loop (todo i : nat) (nid : Z) (t : Tip) : bool :=
  match todo with
  | O => false
  | S todo => if id (nodes t i) =? nid then true else has_loop todo (S i) nid t
  end.

Definition has_node (nid : Z) (t : Tip) : bool :=
  if length t =? 0 then false else has_loop (node_cnt t) 0 nid t.

Definition check_and_add (nid : Z) (t : Tip) : option Tip :=
  if has_node nid t then Some t else add_node (length t) nid t.

(** [lookup] *)
Definition lookup (cpu : Z) (t : Tip) : Tip_node := nodes t (Z.to_nat (cpu_to_node t cpu)).

(** ** What the pages say *)

(** What the firmware reports. *)
Inductive fact := Cpu_in (d c : Z) | Mem_in (d s e : Z).

Definition domain (f : fact) : Z := match f with Cpu_in d _ => d | Mem_in d _ _ => d end.

Definition ranges (d : Z) (fs : list fact) : list (Z * Z) :=
  omap (λ f, match f with Mem_in d' s e => if decide (d' = d) then Some (s, e) else None | _ => None end) fs.

(** The domains a CPU is mentioned in. *)
Definition domains_of (c : Z) (fs : list fact) : list Z :=
  omap (λ f, match f with Cpu_in d c' => if decide (c' = c) then Some d else None | _ => None end) fs.

(** The pages say what [fs] say and nothing else: there is one node for each
    domain, with its CPUs and its ranges in their order; a CPU is in the domain
    mentioned last. *)
Record tells (fs : list fact) (t : Tip) (ds : list Z) : Prop := {
  tl_length : length t = NODE_SIZE * Z.of_nat (List.length ds);
  tl_count : (List.length ds < 50)%nat;
  tl_ids i d : ds !! i = Some d → id (nodes t i) = d;
  tl_nodup : NoDup ds;
  tl_domains f : f ∈ fs → domain f ∈ ds;
  tl_blank i : (List.length ds ≤ i)%nat → nodes t i = node_zero;
  tl_wf i : cpuset_wf (cpus (nodes t i)) ∧ List.length (memory (nodes t i)) = 32%nat;
  tl_cpus i d c : ds !! i = Some d → c ∈ Cpuset.cpus (cpus (nodes t i)) ↔ Cpu_in d c ∈ fs;
  tl_mem i d : ds !! i = Some d → (List.length (ranges d fs) ≤ 32)%nat ∧
    num_mem_descr (nodes t i) = Z.of_nat (List.length (ranges d fs)) ∧
    take (List.length (ranges d fs)) (memory (nodes t i)) = ranges d fs;
  tl_cpu c d : list.last (domains_of c fs) = Some d → cpu_to_node t c = d;
}.

Lemma tells_zero : tells [] tip_zero [].
Proof.
  split; cbn; try done; try lia.
  - constructor.
  - by intros f ?%elem_of_nil.
  - intros i. split; [|done]. by apply cpuset_new_wf.
Qed.

Lemma tells_cnt fs t ds : tells fs t ds → node_cnt t = List.length ds.
Proof. intros H. unfold node_cnt. rewrite (tl_length _ _ _ H), Z.mul_comm, Z.div_mul by done. lia. Qed.

Lemma has_loop_spec nid t todo : ∀ i, has_loop todo i nid t = true ↔ ∃ k, (i ≤ k < i + todo)%nat ∧ id (nodes t k) = nid.
Proof.
  induction todo as [|todo IH]; intros i; cbn [has_loop]; [split; [done|intros (k & ? & _); lia]|].
  destruct (Z.eqb_spec (id (nodes t i)) nid) as [He|He].
  - split; [|done]. intros _. exists i. split; [lia|done].
  - rewrite IH. split; intros (k & Hk & Hi); exists k; (split; [|done]); [lia|]. destruct (decide (k = i)) as [->|]; [done|lia].
Qed.

Lemma has_node_spec fs t ds nid : tells fs t ds → has_node nid t = bool_decide (nid ∈ ds).
Proof.
  intros H. unfold has_node. rewrite (tl_length _ _ _ H). destruct (decide (ds = [])) as [->|Hne]; [done|].
  assert (List.length ds ≠ 0%nat) by (by destruct ds). rewrite (proj2 (Z.eqb_neq _ _)) by (unfold NODE_SIZE; lia).
  apply eq_bool_prop_intro. rewrite bool_decide_spec. rewrite Is_true_true, has_loop_spec, (tells_cnt _ _ _ H), list_elem_of_lookup. split.
  - intros (k & Hk & Hi). destruct (lookup_lt_is_Some_2 ds k) as [x Hx]; [lia|]. exists k. rewrite Hx. f_equal.
    rewrite <-Hi. symmetry. by eapply (tl_ids _ _ _ H).
  - intros [k Hk]. exists k. split; [|by eapply tl_ids]. apply lookup_lt_Some in Hk. lia.
Qed.

Lemma find_node_spec nid t i : id (nodes t i) = nid → ∀ todo j n, (j ≤ i < j + todo)%nat →
  (∀ k, (j ≤ k < i)%nat → id (nodes t k) ≠ nid) → find_node todo j n nid t = i.
Proof.
  intros Hi. induction todo as [|todo IH]; intros j n Hj Hk; [lia|]. cbn [find_node].
  destruct (decide (j = i)) as [->|Hji]; [by rewrite Hi, Z.eqb_refl|].
  rewrite (proj2 (Z.eqb_neq _ _)) by (apply Hk; lia). apply IH; [lia|]. intros k Hk'. apply Hk. lia.
Qed.

Lemma on_node_spec fs t ds i d fn : tells fs t ds → ds !! i = Some d →
  on_node fn d t = x ← fn (nodes t i); Some (upd_node i (λ _, x) t).
Proof.
  intros H Hi. pose proof (lookup_lt_Some _ _ _ Hi) as Hlt. pose proof (tl_ids _ _ _ H _ _ Hi) as Hid.
  unfold on_node. rewrite (find_node_spec d t i Hid).
  - by rewrite Hid, Z.eqb_refl.
  - rewrite (tells_cnt _ _ _ H). lia.
  - intros k Hk Hkd. destruct (lookup_lt_is_Some_2 ds k) as [x Hx]; [lia|].
    rewrite (tl_ids _ _ _ H _ _ Hx) in Hkd. subst x. pose proof (tl_nodup _ _ _ H) as Hn.
    assert (k = i) by (by eapply NoDup_lookup). lia.
Qed.

(** A domain gets a node when it is mentioned first. *)
Definition mention (d : Z) (ds : list Z) : list Z := if decide (d ∈ ds) then ds else ds ++ [d].

Lemma elem_of_mention d ds x : x ∈ mention d ds ↔ x = d ∨ x ∈ ds.
Proof. unfold mention. case_decide; [split; [by right|by intros [->|?]]|].
  rewrite elem_of_app, list_elem_of_singleton. tauto. Qed.

Lemma no_facts fs (ds : list Z) d : (∀ f, f ∈ fs → domain f ∈ ds) → d ∉ ds → (∀ c, Cpu_in d c ∉ fs) ∧ ranges d fs = [].
Proof.
  intros Hf Hd. split; [intros c Hc; apply Hd; by apply (Hf _ Hc)|].
  unfold ranges. induction fs as [|f fs IH]; [done|]. cbn. rewrite IH by (intros; apply Hf; by right).
  destruct f as [|d' s e]; [done|]. rewrite decide_False; [done|]. intros ->. apply Hd. apply (Hf (Mem_in d s e)). by left.
Qed.

Lemma check_and_add_spec fs t ds d : tells fs t ds → (List.length (mention d ds) < 50)%nat →
  ∃ t', check_and_add d t = Some t' ∧ tells fs t' (mention d ds).
Proof.
  intros H Hlen. unfold check_and_add. rewrite (has_node_spec _ _ _ _ H). unfold mention in *.
  case_decide as Hd; [rewrite bool_decide_eq_true_2 by done; by exists t|]. rewrite bool_decide_eq_false_2 by done.
  rewrite length_app in Hlen. cbn in Hlen. unfold add_node. rewrite (tl_length _ _ _ H).
  rewrite Z.mul_comm, Z.mod_mul by done. rewrite Z.eqb_refl, Z.div_mul by done. rewrite Nat2Z.id.
  eexists. split; [reflexivity|]. set (k := List.length ds). pose proof (tl_blank _ _ _ H k ltac:(lia)) as Hz.
  destruct (no_facts fs ds d (tl_domains _ _ _ H) Hd) as [Hnc Hnr].
  assert (∀ i x, (ds ++ [d]) !! i = Some x → (i = k ∧ x = d) ∨ (i ≠ k ∧ ds !! i = Some x)) as Hat.
  { intros i x [Hx|[Hi Hx]]%lookup_app_Some; [right; split; [|done]; apply lookup_lt_Some in Hx; lia|].
    apply list_lookup_singleton_Some in Hx as [Hi' ->]. left. split; [lia|done]. }
  assert (∀ i, nodes (upd_node k (set_id d) t) i = if decide (i = k) then set_id d node_zero else nodes t i) as Hnodes.
  { intros i. cbn [upd_node nodes]. case_decide as Hi; [by rewrite Hi, fn_lookup_insert, Hz|by rewrite fn_lookup_insert_ne]. }
  cbn [upd_node length cpu_to_node]. split; cbn [length nodes cpu_to_node].
  - rewrite length_app. cbn. unfold NODE_SIZE in *. rewrite (tl_length _ _ _ H). unfold NODE_SIZE. rewrite wrap_small; [lia|]. unfold word. lia.
  - rewrite length_app. cbn. lia.
  - intros i x Hx. rewrite Hnodes. destruct (Hat i x Hx) as [[-> ->]|[Hi Hx']]; [by rewrite decide_True|].
    rewrite decide_False by done. by apply (tl_ids _ _ _ H).
  - apply list.NoDup_app. split; [apply H|]. split; [by intros x Hx ->%list_elem_of_singleton|apply NoDup_singleton].
  - intros f Hf. apply elem_of_app. left. by apply (tl_domains _ _ _ H).
  - intros i Hi. rewrite length_app in Hi. cbn in Hi. rewrite Hnodes, decide_False by lia. apply (tl_blank _ _ _ H). lia.
  - intros i. rewrite Hnodes. case_decide; [|apply H]. split; [by apply cpuset_new_wf|done].
  - intros i x c Hx. rewrite Hnodes. destruct (Hat i x Hx) as [[-> ->]|[Hi Hx']].
    + rewrite decide_True by done. split; [|by intros ?%Hnc]. intros Hc. exfalso. revert Hc. cbn [set_id cpus node_zero].
      assert (Cpuset.cpus (cpuset_new 0) = ∅) as -> by by vm_compute. by intros ?%elem_of_empty.
    + rewrite decide_False by done. by apply (tl_cpus _ _ _ H).
  - intros i x Hx. rewrite Hnodes. destruct (Hat i x Hx) as [[-> ->]|[Hi Hx']].
    + rewrite decide_True by done. rewrite Hnr. cbn. split; [lia|done].
    + rewrite decide_False by done. by apply (tl_mem _ _ _ H).
  - apply H.
Qed.

Lemma ranges_app d fs f : ranges d (fs ++ [f]) = ranges d fs ++ ranges d [f].
Proof. apply omap_app. Qed.

Lemma domains_of_app c fs f : domains_of c (fs ++ [f]) = domains_of c fs ++ domains_of c [f].
Proof. apply omap_app. Qed.

(** A CPU is reported. *)
Lemma add_cpu_spec fs t ds d c : tells fs t ds → d ∈ ds → 0 ≤ c < NUM_CPU →
  ∃ t', add_cpu c d t = Some t' ∧ tells (fs ++ [Cpu_in d c]) t' ds.
Proof.
  intros H [i Hi]%list_elem_of_lookup Hc. unfold add_cpu. rewrite (proj2 (Z.leb_gt _ _)) by lia.
  rewrite (on_node_spec _ _ _ _ _ _ H Hi). cbn [mbind option_bind]. eexists. split; [reflexivity|].
  destruct (tl_wf _ _ _ H i) as [Hwf Hmem].
  set (n := set_cpus (Cpuset.set (cpus (nodes t i)) c).2 (nodes t i)).
  assert (∀ j, <[i:=n]> (nodes t) j = if decide (j = i) then n else nodes t j) as Hnodes.
  { intros j. case_decide as Hj; [by rewrite Hj, fn_lookup_insert|by rewrite fn_lookup_insert_ne]. }
  pose proof (lookup_lt_Some _ _ _ Hi) as Hlt.
  cbn [upd_node length nodes cpu_to_node]. split; cbn [length nodes cpu_to_node]; try apply H.
  - intros j x Hx. rewrite Hnodes. case_decide as Hj; [|by apply (tl_ids _ _ _ H)]. subst j. by apply (tl_ids _ _ _ H i).
  - intros f [Hf| ->%list_elem_of_singleton]%elem_of_app; [by apply (tl_domains _ _ _ H)|]. by eapply list_elem_of_lookup_2.
  - intros j Hj. rewrite Hnodes, decide_False by lia. by apply (tl_blank _ _ _ H).
  - intros j. rewrite Hnodes. case_decide; [|apply H]. split; [|done]. by apply set_wf.
  - intros j x c' Hx. rewrite Hnodes, elem_of_app, list_elem_of_singleton. case_decide as Hj.
    + subst j. assert (x = d) as -> by congruence. unfold n. cbn [set_cpus cpus].
      rewrite <-(tl_cpus _ _ _ H i d c' Hi), !elem_of_cpus. split.
      * intros [Hc' Hb]. rewrite set_bit_at in Hb by (done || lia).
        apply orb_true_iff in Hb as [->%bool_decide_eq_true|Hb]; [by right|by left].
      * intros [[Hc' Hb]|[= ->]]; rewrite set_bit_at by (done || lia).
        -- by rewrite Hb, orb_true_r.
        -- by rewrite bool_decide_eq_true_2.
    + rewrite (tl_cpus _ _ _ H j x c' Hx). split; [by left|]. intros [?|[= -> ->]]; [done|].
      destruct Hj. pose proof (tl_nodup _ _ _ H). by eapply NoDup_lookup.
  - intros j x Hx. rewrite ranges_app. cbn [ranges omap list_omap]. rewrite app_nil_r, Hnodes. case_decide as Hj; [|by apply (tl_mem _ _ _ H)].
    subst j. by apply (tl_mem _ _ _ H).
  - intros c' x. rewrite domains_of_app. cbn [domains_of omap list_omap]. destruct (decide (c = c')) as [<-|Hne].
    + rewrite last_snoc. intros [= <-]. by rewrite fn_lookup_insert.
    + rewrite app_nil_r. intros Hl. rewrite fn_lookup_insert_ne by done. by apply (tl_cpu _ _ _ H).
Qed.

(** A range is reported. *)
Lemma add_mem_spec fs t ds d base size : tells fs t ds → d ∈ ds → (List.length (ranges d fs) < 32)%nat →
  ∃ t', add_mem d base size t = Some t' ∧ tells (fs ++ [Mem_in d base (base + size - 1)%W]) t' ds.
Proof.
  intros H [i Hi]%list_elem_of_lookup Hr. unfold add_mem. rewrite (on_node_spec _ _ _ _ _ _ H Hi).
  destruct (tl_mem _ _ _ H i d Hi) as (_ & Hnum & Htake). destruct (tl_wf _ _ _ H i) as [Hwf Hmem].
  set (k := List.length (ranges d fs)) in *. set (r := (base, (base + size - 1)%W)).
  unfold alloc_mem. rewrite Hnum, (proj2 (Z.ltb_ge _ _)) by lia. cbn [mbind option_bind].
  unfold put_mem. rewrite (proj2 (Z.ltb_lt _ _)) by lia. rewrite Nat2Z.id. cbn [set_mem memory num_mem_descr id devices cpus num_devs].
  eexists. split; [reflexivity|]. fold r.
  set (n := Node (id (nodes t i)) (wrap 8 (Z.of_nat k + 1)) (num_devs (nodes t i)) (<[k := r]> (memory (nodes t i)))
    (devices (nodes t i)) (cpus (nodes t i))).
  match goal with |- tells _ (upd_node i (λ _, ?x) t) ds => change x with n end.
  assert (∀ j, <[i:=n]> (nodes t) j = if decide (j = i) then n else nodes t j) as Hnodes.
  { intros j. case_decide as Hj; [by rewrite Hj, fn_lookup_insert|by rewrite fn_lookup_insert_ne]. }
  pose proof (lookup_lt_Some _ _ _ Hi) as Hlt.
  cbn [upd_node length nodes cpu_to_node]. split; cbn [upd_node length nodes cpu_to_node]; try apply H.
  - intros j x Hx. rewrite Hnodes. case_decide as Hj; [|by apply (tl_ids _ _ _ H)]. subst j. by apply (tl_ids _ _ _ H i).
  - intros f [Hf| ->%list_elem_of_singleton]%elem_of_app; [by apply (tl_domains _ _ _ H)|]. by eapply list_elem_of_lookup_2.
  - intros j Hj. rewrite Hnodes, decide_False by lia. by apply (tl_blank _ _ _ H).
  - intros j. rewrite Hnodes. case_decide; [|apply H]. split; [done|]. cbn. by rewrite length_insert.
  - intros j x c' Hx. rewrite Hnodes, elem_of_app, list_elem_of_singleton. case_decide as Hj.
    + subst j. cbn [n cpus]. rewrite (tl_cpus _ _ _ H i x c' Hx). split; [by left|by intros [?|?]].
    + rewrite (tl_cpus _ _ _ H j x c' Hx). split; [by left|by intros [?|?]].
  - intros j x Hx. rewrite ranges_app, Hnodes. cbn [ranges omap list_omap]. destruct (decide (j = i)) as [->|Hj].
    + assert (x = d) as -> by congruence. rewrite decide_True by done. rewrite length_app. cbn [List.length n num_mem_descr memory].
      fold k. split; [lia|]. split; [rewrite wrap_small; [lia|unfold word; lia]|].
      rewrite Nat.add_1_r. rewrite (take_S_r _ _ r) by (rewrite list_lookup_insert_eq; [done|lia]).
      rewrite take_insert_ge by done. by rewrite Htake.
    + rewrite decide_False, app_nil_r; [by apply (tl_mem _ _ _ H)|]. intros <-. apply Hj.
      pose proof (tl_nodup _ _ _ H). by eapply NoDup_lookup.
  - intros c' x. rewrite domains_of_app. cbn [domains_of omap list_omap]. rewrite app_nil_r. apply H.
Qed.

(** ** Giving the pages to user space *)

Definition PAGE_H_SIZE : Z := 0x10000.
Definition PAGE_T_SIZE : Z := 0x20000.

(** The loop of [delegate_to_userspace]: the regions of pages that are
    delegated, each with the order of its size. *)
Fixpoint delegate_loop (fuel : nat) (phys virt size : Z) : option (list (Z * Z * Z)) :=
  if truthy size then
    match fuel with
    | O => None
    | S fuel =>
      let o := Z.min (max_order phys size) (max_order virt size) in
      l ← delegate_loop fuel (phys + (1 << o))%W (virt + (1 << o))%W (size - (1 << o))%W;
      Some ((phys >> PAGE_BITS, virt >> PAGE_BITS, o - PAGE_BITS)%W :: l)
    end
  else Some [].

Definition delegate_to_userspace (FRAME_T USER_ADDR : Z) : option (list (Z * Z * Z)) :=
  let tip_addr := (USER_ADDR - PAGE_H_SIZE - PAGE_SIZE - PAGE_T_SIZE)%W in
  delegate_loop (Z.to_nat (PAGE_T_SIZE / PAGE_SIZE)) (align_dn FRAME_T PAGE_SIZE) (align_dn tip_addr PAGE_SIZE)
    (align_up PAGE_T_SIZE PAGE_SIZE).

(** The pages of a region with the frames behind them. *)
Definition region_pages (r : Z * Z * Z) : list (Z * Z) :=
  let '(p, v, o) := r in (λ i, (p + i, v + i)) <$> seqZ 0 (2 ^ o).

Lemma delegate_step p v s : 0 ≤ p → 0 ≤ v → 1 ≤ s → (p + s) * 2 ^ 12 < 2 ^ 64 → (v + s) * 2 ^ 12 < 2 ^ 64 →
  ∃ o, Z.min (max_order (p * 2 ^ 12) (s * 2 ^ 12)) (max_order (v * 2 ^ 12) (s * 2 ^ 12)) = o + 12 ∧
    0 ≤ o < 52 ∧ 2 ^ o ≤ s ∧ p mod 2 ^ o = 0 ∧ v mod 2 ^ o = 0.
Proof.
  intros Hp Hv Hs Hps Hvs.
  assert (∀ x, 0 ≤ x → (x + s) * 2 ^ 12 < 2 ^ 64 → ∃ o, max_order (x * 2 ^ 12) (s * 2 ^ 12) = o + 12 ∧ 0 ≤ o < 52 ∧
    2 ^ o ≤ s ∧ ∀ j, 0 ≤ j ≤ o → x mod 2 ^ j = 0) as Hone.
  { intros x Hx Hxs. destruct (max_order_spec (x * 2 ^ 12) (s * 2 ^ 12)) as (Ho & Hmod & Hle & Hmax); [unfold word; lia..|].
    pose proof (Hmax 12 ltac:(lia) ltac:(by apply Z.mod_mul) ltac:(lia)) as H12.
    generalize dependent (max_order (x * 2 ^ 12) (s * 2 ^ 12)). intros m Ho Hmod Hle Hmax H12. exists (m - 12). split; [lia|]. split; [lia|].
    assert (2 ^ m = 2 ^ (m - 12) * 2 ^ 12) as Em by (rewrite <-Z.pow_add_r by lia; f_equal; lia).
    rewrite Em in Hmod, Hle. split; [lia|]. intros j Hj. rewrite Zmult_mod_distr_r in Hmod.
    assert (x mod 2 ^ (m - 12) = 0) as Hx0 by (apply Z.mul_eq_0 in Hmod as [|]; [done|discriminate]).
    replace (m - 12) with (j + (m - 12 - j)) in Hx0 by lia. rewrite Z.pow_add_r in Hx0 by lia.
    pose proof (pow2_pos j ltac:(lia)). pose proof (pow2_pos (m - 12 - j) ltac:(lia)).
    apply Z.mod_divide in Hx0 as [k ->]; [|lia]. apply Z.mod_divide; [lia|]. exists (k * 2 ^ (m - 12 - j)). lia. }
  destruct (Hone p Hp Hps) as (o1 & -> & H1 & H2 & H3). destruct (Hone v Hv Hvs) as (o2 & -> & G1 & G2 & G3).
  exists (Z.min o1 o2). split; [lia|]. split; [lia|]. split.
  - destruct (Z.min_spec o1 o2) as [[_ ->]|[_ ->]]; done.
  - split; [apply H3|apply G3]; lia.
Qed.

Lemma pages_app p v n m : 0 ≤ n → 0 ≤ m →
  ((λ i, (p + i, v + i)) <$> seqZ 0 (n + m)) = ((λ i, (p + i, v + i)) <$> seqZ 0 n) ++ ((λ i, (p + n + i, v + n + i)) <$> seqZ 0 m).
Proof.
  intros Hn Hm. rewrite seqZ_app by done. rewrite fmap_app. f_equal.
  replace (0 + n) with (n + 0) by lia. rewrite <-fmap_add_seqZ, <-list_fmap_compose. apply list_fmap_ext. intros i x _. cbn. f_equal; lia.
Qed.

(** The regions are aligned to their size on both sides and together map the
    addresses to the frames, one after the other, each exactly once. *)
Lemma delegate_pages fuel : ∀ p v s, 0 ≤ p → 0 ≤ v → 0 ≤ s ≤ Z.of_nat fuel →
  (p + s) * 2 ^ 12 < 2 ^ 64 → (v + s) * 2 ^ 12 < 2 ^ 64 →
  ∃ l, delegate_loop fuel (p * 2 ^ 12) (v * 2 ^ 12) (s * 2 ^ 12) = Some l ∧
    flat_map region_pages l = (λ i, (p + i, v + i)) <$> seqZ 0 s ∧
    Forall (λ '(p, v, o), 0 ≤ o ∧ p mod 2 ^ o = 0 ∧ v mod 2 ^ o = 0) l.
Proof.
  induction fuel as [|fuel IH]; intros p v s Hp Hv Hs Hps Hvs; cbn [delegate_loop]; unfold truthy.
  { assert (s = 0) as -> by lia. by exists []. }
  destruct (Z.eqb_spec (s * 2 ^ 12) 0) as [|Hs0]; cbn [negb].
  { assert (s = 0) as -> by lia. by exists []. }
  destruct (delegate_step p v s) as (o & -> & Ho & Hos & Hpo & Hvo); [lia..|].
  pose proof (pow2_pos o ltac:(lia)) as Hpos. rewrite wshl_1 by lia. rewrite Z.pow_add_r by lia.
  rewrite !wadd_small, (wsub_small (s * 2 ^ 12)) by lia.
  replace (p * 2 ^ 12 + 2 ^ o * 2 ^ 12) with ((p + 2 ^ o) * 2 ^ 12) by lia.
  replace (v * 2 ^ 12 + 2 ^ o * 2 ^ 12) with ((v + 2 ^ o) * 2 ^ 12) by lia.
  replace (s * 2 ^ 12 - 2 ^ o * 2 ^ 12) with ((s - 2 ^ o) * 2 ^ 12) by lia.
  destruct (IH (p + 2 ^ o) (v + 2 ^ o) (s - 2 ^ o)) as (l & -> & Hl & Hal); [lia..|]. cbn [mbind option_bind].
  eexists. split; [reflexivity|]. unfold PAGE_BITS. rewrite !Z.shiftr_div_pow2, !Z.div_mul, wsub_small by lia.
  replace (o + 12 - 12) with o by lia. split.
  - cbn [flat_map region_pages]. rewrite Hl. replace s with (2 ^ o + (s - 2 ^ o)) at 2 by lia. by rewrite pages_app by lia.
  - constructor; [|done]. split; [lia|]. by split.
Qed.

(** the topology pages are delegated completely: wherever they and the end
    of user space lie, the loop ends, its regions are aligned to their size on
    both sides, and together they map the 32 pages below the hypervisor pages to
    the 32 frames, in order and each exactly once. *)
Theorem tip_delegated f u : 0 ≤ f → (f + 32) * 2 ^ 12 < 2 ^ 64 → 49 ≤ u → u * 2 ^ 12 < 2 ^ 64 →
  ∃ l, delegate_to_userspace (f * 2 ^ 12) (u * 2 ^ 12) = Some l ∧
    flat_map region_pages l = (λ i, (f + i, u - 49 + i)) <$> seqZ 0 32 ∧
    Forall (λ '(p, v, o), 0 ≤ o ∧ p mod 2 ^ o = 0 ∧ v mod 2 ^ o = 0) l.
Proof.
  intros Hf Hf' Hu Hu'. unfold delegate_to_userspace.
  assert (∀ x, 0 ≤ x → x * 2 ^ 12 < 2 ^ 64 → align_dn (x * 2 ^ 12) PAGE_SIZE = x * 2 ^ 12) as Hal.
  { intros x Hx Hx'. unfold PAGE_SIZE, PAGE_BITS. rewrite align_dn_eq by (unfold word; lia). rewrite Z.mod_mul by lia. lia. }
  assert ((u * 2 ^ 12 - PAGE_H_SIZE - PAGE_SIZE - PAGE_T_SIZE)%W = (u - 49) * 2 ^ 12) as ->.
  { unfold PAGE_H_SIZE, PAGE_T_SIZE, PAGE_SIZE, PAGE_BITS. rewrite (wsub_small (u * 2 ^ 12)), (wsub_small (u * 2 ^ 12 - 0x10000)), wsub_small by lia. lia. }
  rewrite !Hal by lia. change (align_up PAGE_T_SIZE PAGE_SIZE) with (32 * 2 ^ 12).
  apply delegate_pages; [done|lia|by split|lia|lia].
Qed.

Lemma tip_delegated_witness :
  ∃ l, delegate_to_userspace 0x523000 0x7fffc0000000 = Some l ∧ ((0x523 + 5, 0x7fffc0000 - 49 + 5) ∈ flat_map region_pages l).
Proof.
  destruct (tip_delegated 0x523 0x7fffc0000) as (l & Hl & Hp & _); [lia..|]. exists l. split; [exact Hl|].
  rewrite Hp. apply list_elem_of_fmap. exists 5. split; [reflexivity|]. apply elem_of_seqZ. lia.
Defined.
