(* ===== verification/Srat.v ===== *)
(** The affinity table of the firmware: [include/acpi_srat.hpp] and
    [src/acpi_srat.cpp], and [Lapic::lookup].

    The table lists CPUs, by the identifiers of their local APICs, and ranges of
    memory with the domains they belong to; it is parsed once for every type of
    entry into the topology pages. *)
From S2P Require Import Prelude Bits Bitmap Cpuset Acpi Tip.
Local Open Scope Z_scope.

Definition LAPIC : Z := 0.
Definition MAS : Z := 1.
Definition X2APIC : Z := 2.

(** [Lapic::lookup]; the list has [Lapic::id] of the CPUs online. *)
Fixpoint lookup_loop (ids : list Z) (c i : Z) : Z :=
  match ids with
  | [] => 0xffff
  | x :: ids => if x =? i then c else lookup_loop ids (c + 1) i
  end.

Definition Lapic_lookup (ids : list Z) (i : Z) : Z := lookup_loop ids 0 i.

Lemma Lapic_lookup_spec ids i :
  (∃ k, ids !! k = Some i ∧ (∀ j, (j < k)%nat → ids !! j ≠ Some i) ∧ Lapic_lookup ids i = Z.of_nat k) ∨
  (i ∉ ids) ∧ Lapic_lookup ids i = 0xffff.
Proof.
  unfold Lapic_lookup. assert (∀ c,
    (∃ k, ids !! k = Some i ∧ (∀ j, (j < k)%nat → ids !! j ≠ Some i) ∧ lookup_loop ids c i = c + Z.of_nat k) ∨
    (i ∉ ids) ∧ lookup_loop ids c i = 0xffff) as Hc; [|exact (Hc 0)].
  induction ids as [|x ids IH]; intros c; cbn [lookup_loop]; [right; split; [by intros ?%elem_of_nil|done]|].
  destruct (Z.eqb_spec x i) as [->|Hx].
  - left. exists 0%nat. split; [done|]. split; [lia|]. lia.
  - destruct (IH (c + 1)) as [(k & Hk & Hj & ->)|[Hn ->]]; [left|right].
    + exists (S k). split; [done|]. split; [|lia]. intros [|j] Hlt; cbn; [by intros [=]|apply Hj; lia].
    + split; [|done]. rewrite not_elem_of_cons. split; [by intros ->|done].
Qed.

Section srat.
Context (b : Z → Z) (ids : list Z).

Definition bit0 (x : Z) : bool := truthy (x .& 1)%W.

(** The fields of the structures, which are packed. *)
Definition Lapic_domain (a : Z) : Z :=
  (u8 b (a + 2) .| (u8 b (a + 9) << 8) .| (u8 b (a + 10) << 16) .| (u8 b (a + 11) << 24))%W.
Definition Lapic_apic_id (a : Z) : Z := u8 b (a + 3).
Definition Lapic_enabled (a : Z) : bool := bit0 (u32 b (a + 4)).

Definition Memory_domain (a : Z) : Z := u32 b (a + 2).
Definition Memory_base (a : Z) : Z := u64 b (a + 8).
Definition Memory_size (a : Z) : Z := u64 b (a + 16).
Definition Memory_enabled (a : Z) : bool := bit0 (u32 b (a + 28)).
Definition Memory_nvm (a : Z) : bool := bit0 (u32 b (a + 28) >> 2)%W.

Definition X2apic_domain (a : Z) : Z := u32 b (a + 4).
Definition X2apic_apic_id (a : Z) : Z := u32 b (a + 8).
Definition X2apic_enabled (a : Z) : bool := bit0 (u32 b (a + 12)).

Definition parse_lapic (a : Z) (t : Tip) : option Tip :=
  if Lapic_enabled a then
    let numa_id := Lapic_domain a in
    let cpu_id := Lapic_lookup ids (Lapic_apic_id a) in
    t ← check_and_add numa_id t;
    add_cpu cpu_id numa_id t
  else Some t.

Definition parse_memory (a : Z) (t : Tip) : option Tip :=
  if negb (Memory_enabled a) then Some t
  else if Memory_nvm a then Some t
  else
    t ← check_and_add (Memory_domain a) t;
    add_mem (Memory_domain a) (Memory_base a) (Memory_size a) t.

Definition parse_x2apic (a : Z) (t : Tip) : option Tip :=
  if X2apic_enabled a then
    let cpu_id := Lapic_lookup ids (X2apic_apic_id a) in
    t ← check_and_add (X2apic_domain a) t;
    add_cpu cpu_id (X2apic_domain a) t
  else Some t.

(** The offset of [srat]. *)
Definition SRAT_OFFSET : Z := HEADER_SIZE + 12.

(** [parse]; the fuel is the number of bytes, which is enough if no entry is
    empty. *)
Definition parse_type (this ty : Z) (handler : Z → Tip → option Tip) (t : Tip) : option Tip :=
  parse_entries b ty handler (Z.to_nat (table_length b this)) (this + SRAT_OFFSET) (this + table_length b this) t.

Definition parse (this : Z) (t : Tip) : option Tip :=
  t ← parse_type this LAPIC parse_lapic t;
  t ← parse_type this MAS parse_memory t;
  parse_type this X2APIC parse_x2apic t.

(** ** What a table says *)

Definition lapic_fact (a : Z) : option fact :=
  if Lapic_enabled a then Some (Cpu_in (Lapic_domain a) (Lapic_lookup ids (Lapic_apic_id a))) else None.

Definition memory_fact (a : Z) : option fact :=
  if Memory_enabled a && negb (Memory_nvm a) then
    Some (Mem_in (Memory_domain a) (Memory_base a) (Memory_base a + Memory_size a - 1)%W)
  else None.

Definition x2apic_fact (a : Z) : option fact :=
  if X2apic_enabled a then Some (Cpu_in (X2apic_domain a) (Lapic_lookup ids (X2apic_apic_id a))) else None.

Definition of_type (ty : Z) (l : list Z) : list Z := filter (λ a, u8 b a = ty) l.

Definition facts (l : list Z) : list fact :=
  omap lapic_fact (of_type LAPIC l) ++ omap memory_fact (of_type MAS l) ++ omap x2apic_fact (of_type X2APIC l).

(** What there is room for: the APICs are known, and there are 49 domains and 32
    ranges in each at most. *)
Record fits (fs : list fact) : Prop := {
  ft_cpus d c : Cpu_in d c ∈ fs → 0 ≤ c < NUM_CPU;
  ft_domains : (List.length (remove_dups (domain <$> fs)) < 50)%nat;
  ft_ranges d : (List.length (ranges d fs) ≤ 32)%nat;
}.

Definition mentions (ds : list Z) (fs : list fact) : Prop := ∀ d, d ∈ ds → ∃ f, f ∈ fs ∧ domain f = d.

(** A handler adds a fact to the pages. *)
Definition learns (h : Z → Tip → option Tip) (g : Z → option fact) : Prop :=
  ∀ a t, match g a with
  | None => h a t = Some t
  | Some f => ∀ fs ds post, tells fs t ds → fits (fs ++ f :: post) → (List.length (mention (domain f) ds) < 50)%nat →
      ∃ t', h a t = Some t' ∧ tells (fs ++ [f]) t' (mention (domain f) ds)
  end.

Lemma learn_cpu d c fs t ds post : tells fs t ds → fits (fs ++ Cpu_in d c :: post) → (List.length (mention d ds) < 50)%nat →
  ∃ t', (t ← check_and_add d t; add_cpu c d t) = Some t' ∧ tells (fs ++ [Cpu_in d c]) t' (mention d ds).
Proof.
  intros Ht Hf Hl. destruct (check_and_add_spec fs t ds d Ht Hl) as (t1 & -> & Ht1). cbn [mbind option_bind].
  apply add_cpu_spec; [done|apply elem_of_mention; by left|].
  apply (ft_cpus _ Hf d). apply elem_of_app. right. by left.
Qed.

Lemma lapic_learns : learns parse_lapic lapic_fact.
Proof.
  intros a t. unfold lapic_fact, parse_lapic. destruct (Lapic_enabled a); [|done].
  intros fs ds post. apply learn_cpu.
Qed.

Lemma x2apic_learns : learns parse_x2apic x2apic_fact.
Proof.
  intros a t. unfold x2apic_fact, parse_x2apic. destruct (X2apic_enabled a); [|done].
  intros fs ds post. apply learn_cpu.
Qed.

Lemma memory_learns : learns parse_memory memory_fact.
Proof.
  intros a t. unfold memory_fact, parse_memory. destruct (Memory_enabled a); [|done].
  destruct (Memory_nvm a); [done|]. cbn [negb andb].
  intros fs ds post Ht Hf Hl. cbn [domain] in *.
  destruct (check_and_add_spec fs t ds _ Ht Hl) as (t1 & -> & Ht1). cbn [mbind option_bind].
  apply add_mem_spec; [done|apply elem_of_mention; by left|].
  pose proof (ft_ranges _ Hf (Memory_domain a)) as Hr. unfold ranges in *.
  rewrite omap_app, length_app in Hr. cbn [omap list_omap] in Hr. rewrite decide_True in Hr by done. cbn in Hr. lia.
Qed.

Lemma mention_count ds fs f post : NoDup ds → mentions ds fs → fits (fs ++ f :: post) → (List.length (mention (domain f) ds) < 50)%nat.
Proof.
  intros Hn Hm Hf. eapply Nat.le_lt_trans; [|exact (ft_domains _ Hf)]. apply submseteq_length, NoDup_submseteq.
  - unfold mention. case_decide; [done|]. apply list.NoDup_app. split; [done|].
    split; [by intros x Hx ->%list_elem_of_singleton|apply NoDup_singleton].
  - intros x Hx. apply elem_of_remove_dups, list_elem_of_fmap. apply elem_of_mention in Hx as [->|Hx].
    + exists f. split; [done|]. apply elem_of_app. right. by left.
    + destruct (Hm x Hx) as (g & Hg & <-). exists g. split; [done|]. apply elem_of_app. by left.
Qed.

Lemma fold_learns h g (Hh : learns h g) l : ∀ fs t ds post,
  tells fs t ds → mentions ds fs → fits (fs ++ omap g l ++ post) →
  ∃ t' ds', fold_option h l t = Some t' ∧ tells (fs ++ omap g l) t' ds' ∧ mentions ds' (fs ++ omap g l).
Proof.
  induction l as [|a l IH]; intros fs t ds post Ht Hm Hf; cbn [fold_option omap list_omap].
  { exists t, ds. rewrite app_nil_r. done. }
  cbn [omap list_omap] in Hf. specialize (Hh a t). destruct (g a) as [f|].
  - cbn [app] in Hf. destruct (Hh fs ds _ Ht Hf) as (t1 & -> & Ht1).
    { eapply mention_count; [apply Ht|done|exact Hf]. }
    cbn [mbind option_bind]. destruct (IH (fs ++ [f]) t1 (mention (domain f) ds) post) as (t' & ds' & ? & Ht' & Hm').
    + done.
    + intros d [->|Hd]%elem_of_mention; [exists f; split; [apply elem_of_app; right; by left|done]|].
      destruct (Hm d Hd) as (x & Hx & ?). exists x. split; [apply elem_of_app; by left|done].
    + rewrite <-app_assoc. exact Hf.
    + exists t', ds'. rewrite <-app_assoc in Ht', Hm'. done.
  - rewrite Hh. cbn [mbind option_bind]. by eapply IH.
Qed.

(** The table at [this] has the entries [l]. *)
Definition lists (this : Z) (l : list Z) : Prop :=
  0 ≤ table_length b this ∧ listed b (this + table_length b this) (this + SRAT_OFFSET) l.

Lemma parse_type_fold this ty h l t : lists this l → parse_type this ty h t = fold_option h (of_type ty l) t.
Proof.
  intros [Hlen Hl]. unfold parse_type. apply (parse_entries_fold _ _ _ _ _ _ l), (entries_end b _ _ _ Hl).
  unfold SRAT_OFFSET, HEADER_SIZE. lia.
Qed.

(** the topology pages tell what the affinity table says.  If no entry of
    the table is empty, its APICs are known and there are at most 49 domains and
    32 ranges in each, parsing ends with a node for exactly the domains that
    enabled entries mention, which has exactly their CPUs and their ranges in
    the order of the table; persistent memory is left out. *)
Theorem srat_told this l : lists this l → fits (facts l) →
  ∃ t ds, parse this tip_zero = Some t ∧ tells (facts l) t ds ∧ ∀ d, d ∈ ds ↔ ∃ f, f ∈ facts l ∧ domain f = d.
Proof.
  intros Hl Hf. unfold parse. rewrite !(parse_type_fold _ _ _ l _ Hl).
  destruct (fold_learns _ _ lapic_learns (of_type LAPIC l) [] tip_zero [] _ tells_zero ltac:(by intros d ?%elem_of_nil) Hf)
    as (t1 & d1 & -> & Ht1 & Hm1). cbn [mbind option_bind app] in *. rewrite (parse_type_fold _ _ _ l _ Hl).
  destruct (fold_learns _ _ memory_learns (of_type MAS l) _ t1 d1 _ Ht1 Hm1 Hf)
    as (t2 & d2 & -> & Ht2 & Hm2). cbn [mbind option_bind]. rewrite (parse_type_fold _ _ _ l _ Hl).
  unfold facts in Hf. destruct (fold_learns _ _ x2apic_learns (of_type X2APIC l) _ t2 d2 [] Ht2 Hm2) as (t3 & d3 & -> & Ht3 & Hm3).
  { by rewrite app_nil_r, <-app_assoc. }
  rewrite <-app_assoc in Ht3, Hm3. exists t3, d3. split; [done|]. split; [exact Ht3|].
  intros d. split; [apply Hm3|]. intros (f & Hff & <-). by apply (tl_domains _ _ _ Ht3).
Qed.

(** an enabled CPU that the kernel does not know, because it is beyond the
    256th or missing in the interrupt table, is not left out: its number 0xffff
    is used as an index, and the write is outside of the pages. *)
Theorem srat_unknown_cpu this l a : lists this l →
  a ∈ of_type LAPIC l → Lapic_enabled a = true → Lapic_apic_id a ∉ ids → ∀ t, parse this t = None.
Proof.
  intros Hl Ha He Hu t. unfold parse. rewrite (parse_type_fold _ _ _ l _ Hl).
  assert (∀ t, parse_lapic a t = None) as Hno.
  { intros u. unfold parse_lapic. rewrite He. destruct (Lapic_lookup_spec ids (Lapic_apic_id a)) as [(k & Hk & _)|[_ ->]].
    - destruct Hu. by eapply list_elem_of_lookup_2.
    - by destruct (check_and_add _ u). }
  assert (∀ l t, a ∈ l → fold_option parse_lapic l t = None) as ->; [|done|done].
  clear l Hl Ha t. intros l. induction l as [|x l IH]; intros t Ha; [by apply elem_of_nil in Ha|].
  cbn [fold_option]. apply elem_of_cons in Ha as [<-|Ha].
  - by rewrite Hno.
  - destruct (parse_lapic x t); [|done]. by apply IH.
Qed.
End srat.

(** [Tip::lookup] takes the number of a domain for the position of its node.
    It finds the node of a CPU exactly if the domain of the CPU was mentioned as
    the one of its number in the table, and a foreign or blank node otherwise. *)
Theorem lookup_by_number fs t ds c d : tells fs t ds → 0 ≤ d →
  list.last (domains_of c fs) = Some d → (∀ d', Cpu_in d' c ∈ fs → d' = d) →
  c ∈ Cpuset.cpus (cpus (Tip.lookup c t)) ↔ ds !! Z.to_nat d = Some d.
Proof.
  intros Ht Hd Hl Hu. unfold Tip.lookup. rewrite (tl_cpu _ _ _ Ht c d Hl).
  assert (Cpu_in d c ∈ fs) as Hin.
  { apply last_Some_elem_of in Hl. apply list_elem_of_omap in Hl as (f & Hf & Hfd).
    destruct f as [d' c'|]; [|done]. case_decide; [|done]. by simplify_eq. }
  split.
  - intros Hc. destruct (ds !! Z.to_nat d) as [d'|] eqn:Hdd.
    + apply (tl_cpus _ _ _ Ht _ _ c Hdd) in Hc. by rewrite (Hu _ Hc).
    + apply lookup_ge_None in Hdd. rewrite (tl_blank _ _ _ Ht _ Hdd) in Hc. exfalso. revert Hc.
      change (cpus node_zero) with (cpuset_new 0). assert (Cpuset.cpus (cpuset_new 0) = ∅) as -> by by vm_compute.
      by intros ?%elem_of_empty.
  - intros Hdd. by apply (tl_cpus _ _ _ Ht _ _ c Hdd).
Qed.

(** ** A table *)

Definition lapic_bytes (d apic : Z) : list Z := [0; 16; d; apic] ++ le 4 1 ++ [0; 0; 0; 0] ++ le 4 0.
Definition memory_bytes (d base size flags : Z) : list Z :=
  [1; 40] ++ le 4 d ++ le 2 0 ++ le 8 base ++ le 8 size ++ le 4 0 ++ le 4 flags ++ le 8 0.
Definition x2apic_bytes (d apic : Z) : list Z := [2; 24] ++ le 2 0 ++ le 4 d ++ le 4 apic ++ le 4 1 ++ le 4 0 ++ le 4 0.

Definition table_bytes (l : list Z) : list Z := le 4 0x54415253 ++ le 4 (48 + Z.of_nat (List.length l)) ++ replicate 40 0 ++ l.

(** Two domains, the second mentioned first. *)
Definition demo_table : list Z :=
  table_bytes (lapic_bytes 1 4 ++ memory_bytes 0 0 0x80000000 1 ++ memory_bytes 1 0x100000000 0x80000000 1 ++
    memory_bytes 1 0x200000000 0x1000 5 ++ lapic_bytes 0 6 ++ x2apic_bytes 1 300 ++ memory_bytes 0 0x300000000 0x1000 1).

Definition demo_mem : Z → Z := bytes_at demo_table.
Definition demo_ids : list Z := [6; 4; 300].

Lemma srat_demo_lists : lists demo_mem 0 [48; 64; 104; 144; 184; 200; 224].
Proof.
  split; [by vm_compute|]. unfold SRAT_OFFSET, HEADER_SIZE. list_entries.
Qed.

Definition demo_entries : list Z := [48; 64; 104; 144; 184; 200; 224].

Definition demo_facts : list fact :=
  [Cpu_in 1 1; Cpu_in 0 0; Mem_in 0 0 0x7fffffff; Mem_in 1 0x100000000 0x17fffffff; Mem_in 0 0x300000000 0x300000fff; Cpu_in 1 2].

Lemma demo_told : facts demo_mem demo_ids demo_entries = demo_facts.
Proof. by vm_compute. Qed.

Lemma demo_fits : fits demo_facts.
Proof.
  split.
  - intros d c Hc. unfold NUM_CPU. assert (Forall (λ f, match f with Cpu_in _ c => 0 ≤ c < 256 | _ => True end) demo_facts) as Hall.
    { repeat constructor; done. }
    rewrite list.Forall_forall in Hall. exact (Hall _ Hc).
  - apply Nat.ltb_lt. by vm_compute.
  - intros d. unfold ranges, demo_facts. cbn [omap list_omap]. repeat case_decide; cbn; lia.
Qed.

Lemma demo_fact : Cpu_in 1 2 ∈ demo_facts.
Proof. apply (list_elem_of_lookup_2 _ 5). reflexivity. Qed.

Lemma demo_told_fits : fits (facts demo_mem demo_ids demo_entries).
Proof. rewrite demo_told. exact demo_fits. Qed.

Lemma srat_told_witness : ∃ t (ds : list Z), parse demo_mem demo_ids 0 tip_zero = Some t ∧ 1 ∈ ds ∧
  ∃ i, id (nodes t i) = 1 ∧ 2 ∈ Cpuset.cpus (cpus (nodes t i)).
Proof.
  destruct (srat_told demo_mem demo_ids 0 demo_entries srat_demo_lists demo_told_fits) as (t & ds & Hp & Ht & Hd).
  rewrite demo_told in Ht, Hd.
  assert (1 ∈ ds) as H1 by exact (proj2 (Hd 1) (ex_intro _ (Cpu_in 1 2) (conj demo_fact eq_refl))).
  exists t, ds. split; [exact Hp|]. split; [exact H1|]. apply list_elem_of_lookup in H1 as [i Hi]. exists i.
  split; [exact (tl_ids _ _ _ Ht _ _ Hi)|]. exact (proj2 (tl_cpus _ _ _ Ht i 1 2 Hi) demo_fact).
Defined.

Lemma srat_unknown_cpu_witness : parse demo_mem [6; 300] 0 tip_zero = None.
Proof.
  apply (srat_unknown_cpu demo_mem [6; 300] 0 demo_entries 48 srat_demo_lists).
  - by vm_compute; left.
  - by vm_compute.
  - vm_compute. intros Hin. repeat (apply elem_of_cons in Hin as [Hin|Hin]; [discriminate|]). by apply elem_of_nil in Hin.
Defined.

Lemma lookup_by_number_witness : ∃ t, tells [Cpu_in 5 3] t [5] ∧ 3 ∉ Cpuset.cpus (cpus (Tip.lookup 3 t)).
Proof.
  destruct (check_and_add_spec [] tip_zero [] 5 tells_zero) as (t1 & _ & H1); [by apply Nat.ltb_lt|].
  change (mention 5 []) with [5] in H1.
  destruct (add_cpu_spec [] t1 [5] 5 3 H1) as (t2 & _ & H2); [by left|by vm_compute|].
  exists t2. split; [exact H2|]. rewrite (lookup_by_number [Cpu_in 5 3] t2 [5] 3 5 H2); [done|lia|done|].
  intros d' Hd. apply list_elem_of_singleton in Hd. by injection Hd.
Defined.

(** The definitions run. *)
Example srat_run :
  match parse demo_mem demo_ids 0 tip_zero with
  | Some t => (length t, (λ i, (id (nodes t i), num_mem_descr (nodes t i), cpus (nodes t i))) <$> seq 0 2, cpu_to_node t <$> [0; 1; 2])
  | None => (0, [], [])
  end = (2640, [(1, 1, [6; 0; 0; 0]); (0, 2, [1; 0; 0; 0])], [0; 1; 1]).
Proof. by vm_compute. Qed.

(** The 33rd range of a domain overwrites its first device. *)
Example range_33_run :
  match foldl (λ t i, t ← t; add_mem 7 (Z.of_nat i * 0x1000) 0x1000 t) (check_and_add 7 tip_zero) (seq 0 33) with
  | Some t => (num_mem_descr (nodes t 0%nat), devices (nodes t 0%nat) !! 0%nat)
  | None => (0, None)
  end = (33, Some (Dev 0x20000 0x20fff 0)).
Proof. by vm_compute. Qed.
