(* ===== verification/Gsi.v ===== *)
(** Interrupts: [include/gsi.hpp], [src/gsi.cpp], [include/ioapic.hpp], and
    [sys_sm_ctrl] and [sys_assign_gsi] of [src/syscall.cpp].

    A device raises an interrupt at a pin of an I/O APIC, which sends its vector
    to a CPU unless the pin is masked.  The kernel turns it into [up] of the
    semaphore of the interrupt, and a driver waits for it with [down].  An
    interrupt that is triggered by its level stays asserted until the driver has
    served the device, so it is masked from its arrival to the next [down].
    The registers of an I/O APIC are reached through an index of eight bits. *)
From S2P Require Import Prelude Bits Bitmap Crd Vregs Sysargs Queue Rcu Sm.
Local Open Scope Z_scope.

Definition NUM_CPU : Z := 256.
Definition NUM_GSI : Z := 192.
Definition NUM_IRQ : Z := 16.
Definition VEC_GSI : Z := 32.

(** ** I/O APICs *)

(** [saved] is the page of [suspend]. *)
Record ioapic := Ioapic { gsi_base : Z; rid : Z; regs : Z → Z; saved : option (Z → Z) }.

Definition IOAPIC_VER : Z := 0x1.
Definition IOAPIC_IRT : Z := 0x10.

Definition read (r : Z) (p : ioapic) : Z := regs p (wrap 8 r).
Definition write (r v : Z) (p : ioapic) : ioapic :=
  Ioapic (gsi_base p) (rid p) (<[wrap 8 r := wrap 32 v]> (regs p)) (saved p).

Definition irt_max (p : ioapic) : Z := (read IOAPIC_VER p >> 16 .& 0xff)%W.

Definition pin (gsi : Z) (p : ioapic) : Z := wrap 32 (gsi - gsi_base p).

Definition set_irt (gsi v : Z) (p : ioapic) : ioapic := write (IOAPIC_IRT + 2 * pin gsi p) v p.

Definition set_cpu (gsi cpu : Z) (ire : bool) (p : ioapic) : ioapic :=
  write (IOAPIC_IRT + 2 * pin gsi p + 1) (if ire then (gsi << 17 .| (1 << 16))%W else (cpu << 24)%W) p.

Definition get_irt (entry : Z) (p : ioapic) : Z :=
  let index := IOAPIC_IRT + 2 * entry in (read index p << 32 .| read (index + 1) p)%W.

Definition set_saved (f : Z → Z) (p : ioapic) : ioapic := Ioapic (gsi_base p) (rid p) (regs p) (Some f).

(** The loops go over [max] entries, from the first one. *)
Fixpoint save_loop (n : nat) (entry : Z) (p : ioapic) (f : Z → Z) : Z → Z :=
  match n with
  | O => f
  | S n => save_loop n (entry + 1) p (<[entry := get_irt entry p]> f)
  end.

Definition suspend (p : ioapic) : bool * ioapic :=
  let f := default (λ _, 0) (saved p) in
  let p := set_saved f p in
  let max := irt_max p in
  if 4096 <? max * 8 then (false, p) else (true, set_saved (save_loop (Z.to_nat max) 0 p f) p).

Fixpoint restore_loop (n : nat) (entry : Z) (f : Z → Z) (p : ioapic) : ioapic :=
  match n with
  | O => p
  | S n =>
    let index := IOAPIC_IRT + 2 * entry in
    let p := write index (f entry >> 32)%W p in
    let p := write (index + 1) (f entry) p in
    restore_loop n (entry + 1) f p
  end.

Definition resume (p : ioapic) : bool * ioapic :=
  let max := irt_max p in
  match saved p with
  | None => (false, p)
  | Some f => if 4096 <? max * 8 then (false, p) else (true, restore_loop (Z.to_nat max) 0 f p)
  end.

(** ** The table of interrupts *)

(** [irt] is the lower half of the entry of the pin: the vector, and the bits
    for polarity and trigger mode. *)
Record gsi := Gsi { g_sm : obj; g_ioapic : option nat; irt : Z }.

Definition vec (x : gsi) : Z := (irt x .& 0xff)%W.
Definition pol (x : gsi) : bool := Z.testbit (irt x) 13.
Definition trg (x : gsi) : bool := Z.testbit (irt x) 15.

Definition with_bit (n : Z) (b : bool) (v : Z) : Z := if b then Z.lor v (2 ^ n) else Z.ldiff v (2 ^ n).

Definition set_vec (v : Z) (x : gsi) : gsi := Gsi (g_sm x) (g_ioapic x) (Z.lor (Z.ldiff (irt x) 0xff) (wrap 8 v)).
Definition set_pol (b : bool) (x : gsi) : gsi := Gsi (g_sm x) (g_ioapic x) (with_bit 13 b (irt x)).
Definition set_trg (b : bool) (x : gsi) : gsi := Gsi (g_sm x) (g_ioapic x) (with_bit 15 b (irt x)).
Definition set_sm (o : obj) (x : gsi) : gsi := Gsi o (g_ioapic x) (irt x).
Definition set_ioapic (o : option nat) (x : gsi) : gsi := Gsi (g_sm x) o (irt x).

(** What happens outside: the keyboard, the local APIC, the IOMMUs. *)
Inductive event := Keyboard | Eoi | Iommu_irt (gsi rid aid vec : Z) (trg : bool).

Record irqs := Irqs {
  gsi_table : Z → gsi;
  irq_table : Z → Z;
  apics : nat → ioapic;
  wd : world;
  log : list event;     (** newest first *)
}.
Implicit Types s : irqs.

Definition upd_gsi (g : Z) (f : gsi → gsi) s : irqs :=
  Irqs (<[g := f (gsi_table s g)]> (gsi_table s)) (irq_table s) (apics s) (wd s) (log s).
Definition upd_apic (p : nat) (f : ioapic → ioapic) s : irqs :=
  Irqs (gsi_table s) (irq_table s) (<[p := f (apics s p)]> (apics s)) (wd s) (log s).
Definition set_irq (i g : Z) s : irqs :=
  Irqs (gsi_table s) (<[i := g]> (irq_table s)) (apics s) (wd s) (log s).
Definition set_wd (w : world) s : irqs := Irqs (gsi_table s) (irq_table s) (apics s) w (log s).
Definition note (e : event) s : irqs := Irqs (gsi_table s) (irq_table s) (apics s) (wd s) (e :: log s).

(** [setup]; the semaphore of interrupt [g] is the object [sm_new g], made in
    the space of the kernel. *)
Fixpoint setup_loop (n : nat) (g : Z) (sm_new : Z → obj) s : irqs :=
  match n with
  | O => s
  | S n =>
    let s := upd_gsi g (set_sm (sm_new g)) s in
    let s := upd_gsi g (set_vec (VEC_GSI + g)) s in
    let s := if g <? NUM_IRQ then upd_gsi g (set_pol false) (upd_gsi g (set_trg false) (set_irq g g s))
             else upd_gsi g (set_pol true) (upd_gsi g (set_trg true) s) in
    setup_loop n (g + 1) sm_new s
  end.

Definition setup (sm_new : Z → obj) s : irqs := setup_loop (Z.to_nat NUM_GSI) 0 sm_new s.

Definition mask (g : Z) s : irqs :=
  match g_ioapic (gsi_table s g) with
  | Some p => upd_apic p (set_irt g ((1 << 16) .| irt (gsi_table s g))%W) s
  | None => s
  end.

Definition unmask (g : Z) s : irqs :=
  match g_ioapic (gsi_table s g) with
  | Some p => upd_apic p (set_irt g (irt (gsi_table s g))) s
  | None => s
  end.

(** The identifiers of the local APICs, whether interrupts are remapped, the
    interrupt of the keyboard, and what bounds the loops of [Sm]. *)
Section gsi.
Context (lapic_id : Z → Z) (ire : bool) (keyb_gsi : Z) (depth fuel : nat).

(** [Gsi::set] *)
Definition set (g cpu r : Z) s : Z * irqs :=
  let aid := lapic_id cpu in
  let x := gsi_table s g in
  let '(msi_addr, msi_data, r, s) :=
    match g_ioapic x with
    | Some p =>
      let s := upd_apic p (set_cpu g aid ire) s in
      let s := upd_apic p (set_irt g (irt x)) s in
      (0, 0, rid (apics s p), s)
    | None => ((0xfee00000 .| wrap 32 (if ire then 3 << 3 else aid << 12))%W, if ire then g else vec x, r, s)
    end in
  ((msi_addr << 32 .| msi_data)%W, note (Iommu_irt g r aid (VEC_GSI + g) (trg x)) s).

Definition vector (v : Z) s : option irqs :=
  let g := wrap 32 (v - VEC_GSI) in
  let s := if g =? keyb_gsi then note Keyboard s else if trg (gsi_table s g) then mask g s else s in
  let s := note Eoi s in
  W ← submit depth fuel (g_sm (gsi_table s g)) (wd s);
  Some (set_wd W s).

(** ** Hypercalls *)

(** The semaphore and the permissions that [Space_obj::lookup] finds, or [None]
    for anything else; the selector of a semaphore in its space; the current
    context; whether the quota lacks so many pages, and whether the context has a
    handler for that. *)
Context (lookup : Z → option (obj * Z)) (node_base : obj → Z) (current : obj) (hit_limit : Z → bool) (pt_oom : bool).

Definition is_signal (m : obj) (W : world) : bool := bool_decide (is_Some (si_sm (sms W m))).

Definition gsi_of (m : obj) : Z := wrap 32 (node_base m - NUM_CPU).

Definition sys_sm_ctrl (r : mem) s : option (outcome * irqs) :=
  match check (hit_limit 1) pt_oom true with Some o => Some (o, s) | None =>
  match lookup (Sys_sm_ctrl_sm r) with
  | None => Some (Finish BAD_CAP, s)
  | Some (m, prm) =>
    if negb (Z.testbit prm (Sys_sm_ctrl_op r)) then Some (Finish BAD_CAP, s)
    else if Sys_sm_ctrl_op r =? 0 then
      W ← submit depth fuel m (wd s); Some (Finish SUCCESS, set_wd W s)
    else
      let kern := kern_space (sms (wd s) m) in
      let s := if kern then unmask (gsi_of m) s else s in
      if kern && is_signal m (wd s) then Some (Finish SUCCESS, s)
      else if is_signal m (wd s) then Some (Finish BAD_CAP, s)
      else
        '(go, W) ← dn m (truthy (Sys_sm_ctrl_zc r)) (Sys_sm_ctrl_time r) current true (wd s);
        Some (if go : bool then Finish SUCCESS else Blocked, set_wd W s)
  end end.

(** CPUs that are online; the frame behind an address of the caller; the
    identifiers of devices by their registers, and ~0 for none. *)
Context (cpu_online : Z → bool) (space_lookup : Z → option Z) (Pci_phys_to_rid Hpet_phys_to_rid : Z → Z).

Definition device_rid (dev : Z) : option Z :=
  phys ← space_lookup dev;
  let r := Pci_phys_to_rid phys in
  let r := if r =? 2 ^ 32 - 1 then Hpet_phys_to_rid phys else r in
  if r =? 2 ^ 32 - 1 then None else Some r.

(** The part of [sys_assign_gsi] behind the chaining of signals. *)
Definition assign (r : mem) (m : obj) s : option (outcome * mem * irqs) :=
  let g := gsi_of m in
  let dev := Sys_assign_gsi_dev r in
  let wired := bool_decide (is_Some (g_ioapic (gsi_table s g))) in
  if wired && truthy dev then Some (Finish BAD_DEV, r, s)
  else
    match (if negb wired && truthy dev then device_rid dev else Some 0) with
    | None => Some (Finish BAD_DEV, r, s)
    | Some rid =>
      let s := if Sys_assign_gsi_cfg r
               then upd_gsi g (set_pol (Sys_assign_gsi_pol r)) (upd_gsi g (set_trg (Sys_assign_gsi_trg r)) s) else s in
      let '(msi, s) := set g (Sys_assign_gsi_cpu r) rid s in
      Some (Finish SUCCESS, Sys_assign_gsi_set_msi msi r, s)
    end.

Definition sys_assign_gsi (r : mem) s : option (outcome * mem * irqs) :=
  match check (hit_limit 2) pt_oom true with Some o => Some (o, r, s) | None =>
  if negb (cpu_online (Sys_assign_gsi_cpu r)) then Some (Finish BAD_CPU, r, s)
  else
    match lookup (Sys_assign_gsi_sm r) with
    | None => Some (Finish BAD_CAP, r, s)
    | Some (m, _) =>
      if negb (kern_space (sms (wd s) m)) then Some (Finish BAD_CAP, r, s)
      else if Sys_assign_gsi_si r =? ones64 then assign r m s
      else
        match lookup (Sys_assign_gsi_si r) with
        | None => Some (Finish BAD_CAP, r, s)
        | Some (si, _) =>
          if bool_decide (si = m) then
            W ← chain depth fuel m None (wd s); Some (Finish SUCCESS, r, set_wd W s)
          else if kern_space (sms (wd s) si) then Some (Finish BAD_CAP, r, s)
          else
            W ← chain depth fuel m (Some si) (wd s); assign r m (set_wd W s)
        end
    end end.
End gsi.

(** ** Registers *)

Lemma with_bit_spec n b v m : 0 ≤ n → 0 ≤ m → Z.testbit (with_bit n b v) m = if decide (m = n) then b else Z.testbit v m.
Proof.
  intros Hn Hm. unfold with_bit. destruct b.
  - rewrite Z.lor_spec, Z.pow2_bits_eqb by done. case_decide as H; [rewrite H, Z.eqb_refl; apply orb_true_r|].
    rewrite (proj2 (Z.eqb_neq _ _)) by congruence. apply orb_false_r.
  - rewrite Z.ldiff_spec, Z.pow2_bits_eqb by done. case_decide as H; [rewrite H, Z.eqb_refl; apply andb_false_r|].
    rewrite (proj2 (Z.eqb_neq _ _)) by congruence. apply andb_true_r.
Qed.

(** The index of the lower half of the entry of a pin; the index register has
    room for 120 pins. *)
Definition entry (e : Z) : Z := IOAPIC_IRT + 2 * e.

Definition pin_ok (g : Z) (p : ioapic) : Prop := 0 ≤ g - gsi_base p < 120.

Lemma pin_small g p : pin_ok g p → pin g p = g - gsi_base p.
Proof. intros H. apply wrap_small. unfold word. unfold pin_ok in H. lia. Qed.

Lemma index_small e : 0 ≤ e < 120 → wrap 8 (IOAPIC_IRT + 2 * e) = entry e ∧ wrap 8 (IOAPIC_IRT + 2 * e + 1) = entry e + 1.
Proof. intros He. unfold entry, IOAPIC_IRT. split; apply wrap_small; unfold word; lia. Qed.

Lemma write_at r v p i : regs (write r v p) i = if decide (i = wrap 8 r) then wrap 32 v else regs p i.
Proof. cbn. case_decide as H; [by rewrite H, fn_lookup_insert|by rewrite fn_lookup_insert_ne]. Qed.

Lemma set_irt_at g v p i : pin_ok g p →
  regs (set_irt g v p) i = if decide (i = entry (g - gsi_base p)) then wrap 32 v else regs p i.
Proof. intros H. unfold set_irt. rewrite write_at, pin_small by done. by rewrite (proj1 (index_small _ H)). Qed.

Lemma set_cpu_at g c ire p i : pin_ok g p → i ≠ entry (g - gsi_base p) + 1 → regs (set_cpu g c ire p) i = regs p i.
Proof. intros H Hi. unfold set_cpu. rewrite write_at, pin_small, (proj2 (index_small _ H)) by done. by rewrite decide_False. Qed.

(** ** Masked pins *)

Record wf s : Prop := {
  wf_pin g p : g_ioapic (gsi_table s g) = Some p → pin_ok g (apics s p);
  wf_irt g : word 16 (irt (gsi_table s g));
}.

Definition masked (g : Z) s : Prop :=
  ∀ p, g_ioapic (gsi_table s g) = Some p → Z.testbit (regs (apics s p) (entry (g - gsi_base (apics s p)))) 16 = true.

(** What never changes here: which pin an interrupt has. *)
Record same_wires s s' : Prop := {
  sw_ioapic g : g_ioapic (gsi_table s' g) = g_ioapic (gsi_table s g);
  sw_base p : gsi_base (apics s' p) = gsi_base (apics s p);
}.

Lemma same_wires_refl s : same_wires s s.
Proof. by split. Qed.

Lemma same_wires_trans s1 s2 s3 : same_wires s1 s2 → same_wires s2 s3 → same_wires s1 s3.
Proof. intros [A1 B1] [A2 B2]. split; intros x; [by rewrite A2|by rewrite B2]. Qed.

Lemma upd_apic_at p f s q : apics (upd_apic p f s) q = if decide (q = p) then f (apics s p) else apics s q.
Proof. cbn. case_decide as H; [by rewrite H, fn_lookup_insert|by rewrite fn_lookup_insert_ne]. Qed.

Lemma upd_gsi_at g f s h : gsi_table (upd_gsi g f s) h = if decide (h = g) then f (gsi_table s g) else gsi_table s h.
Proof. cbn. case_decide as H; [by rewrite H, fn_lookup_insert|by rewrite fn_lookup_insert_ne]. Qed.

Lemma upd_apic_wires p f s : (∀ x, gsi_base (f x) = gsi_base x) → same_wires s (upd_apic p f s).
Proof. intros Hf. split; [done|]. intros q. rewrite upd_apic_at. case_decide as H; [by rewrite H|done]. Qed.

Lemma upd_gsi_wires g f s : (∀ x, g_ioapic (f x) = g_ioapic x) → same_wires s (upd_gsi g f s).
Proof. intros Hf. split; [|done]. intros h. rewrite upd_gsi_at. case_decide as H; [by rewrite H|done]. Qed.

(** The state stays well-formed, and what is known of the pin of [g] is kept. *)
Record keeps (g : Z) s s' : Prop := {
  ke_wires : same_wires s s';
  ke_wf : wf s → wf s';
  ke_masked : wf s → masked g s → masked g s';
}.

Lemma keeps_refl g s : keeps g s s.
Proof. by split. Qed.

Lemma keeps_trans g s1 s2 s3 : keeps g s1 s2 → keeps g s2 s3 → keeps g s1 s3.
Proof. intros [A1 B1 C1] [A2 B2 C2]. split; [by eapply same_wires_trans|auto|auto]. Qed.

(** A write to the entry of [h]. *)
Lemma irt_keeps g h p v s : g_ioapic (gsi_table s h) = Some p → (h = g → Z.testbit (wrap 32 v) 16 = true) →
  keeps g s (upd_apic p (set_irt h v) s).
Proof.
  intros Hh Hv. pose proof (upd_apic_wires p (set_irt h v) s ltac:(done)) as Hw. split; [done| |].
  - intros [Hp Hi]. split; [|done]. intros g' p' Hg. unfold pin_ok. rewrite (sw_base _ _ Hw). by apply Hp.
  - intros [Hp Hi] Hm q Hq. rewrite (sw_base _ _ Hw), upd_apic_at. cbn [upd_apic gsi_table] in Hq.
    case_decide as Hqp; [|by apply Hm]. subst q. rewrite set_irt_at by by apply Hp.
    pose proof (Hp g p Hq) as Hpg. pose proof (Hp h p Hh) as Hph. case_decide as He; [|by apply Hm].
    apply Hv. unfold pin_ok, entry in *. lia.
Qed.

Lemma cpu_keeps g h p c b s : g_ioapic (gsi_table s h) = Some p → keeps g s (upd_apic p (set_cpu h c b) s).
Proof.
  intros Hh. pose proof (upd_apic_wires p (set_cpu h c b) s ltac:(done)) as Hw. split; [done| |].
  - intros [Hp Hi]. split; [|done]. intros g' p' Hg. unfold pin_ok. rewrite (sw_base _ _ Hw). by apply Hp.
  - intros [Hp Hi] Hm q Hq. rewrite (sw_base _ _ Hw), upd_apic_at. cbn [upd_apic gsi_table] in Hq.
    case_decide as Hqp; [|by apply Hm]. subst q. rewrite set_cpu_at; [by apply Hm|by apply Hp|].
    pose proof (Hp g p Hq) as Hpg. pose proof (Hp h p Hh) as Hph. unfold pin_ok, entry in *. lia.
Qed.

Lemma bit_word n b v : 0 ≤ n < 16 → word 16 v → word 16 (with_bit n b v).
Proof.
  intros Hn Hv. apply bits_word; [done| |].
  - unfold with_bit. destruct b; [apply Z.lor_nonneg; split; [apply Hv|lia]|apply Z.ldiff_nonneg; left; apply Hv].
  - intros i Hi. rewrite with_bit_spec by lia. rewrite decide_False by lia. by apply (word_bits 16).
Qed.

(** The table changes, but not the registers. *)
Lemma table_keeps g h f s : (∀ x, g_ioapic (f x) = g_ioapic x) → (∀ x, word 16 (irt x) → word 16 (irt (f x))) →
  keeps g s (upd_gsi h f s).
Proof.
  intros Hf Hw. pose proof (upd_gsi_wires h f s Hf) as Hs. split; [done| |].
  - intros [Hp Hi]. split.
    + intros g' p' Hg. rewrite (sw_ioapic _ _ Hs) in Hg. by apply Hp.
    + intros g'. rewrite upd_gsi_at. case_decide; auto.
  - intros _ Hm p Hp. rewrite (sw_ioapic _ _ Hs) in Hp. by apply Hm.
Qed.

Lemma rest_keeps g s s' : gsi_table s' = gsi_table s → apics s' = apics s → keeps g s s'.
Proof.
  intros H1 H2. split; [split; intros x; by rewrite ?H1, ?H2| |].
  - intros [Hp Hi]. split; rewrite H1, ?H2; auto.
  - intros _ Hm p. rewrite H1, H2. apply Hm.
Qed.

Lemma irt_high s g : wf s → Z.testbit (wrap 32 (irt (gsi_table s g))) 16 = false.
Proof. intros H. rewrite wrap_bits by lia. change (16 <? 32) with true. rewrite andb_true_l. apply (word_bits 16); [apply H|lia]. Qed.

Lemma mask_spec g s : wf s → masked g (mask g s) ∧ ∀ h, keeps h s (mask g s).
Proof.
  intros Hwf. unfold mask. destruct (g_ioapic (gsi_table s g)) as [p|] eqn:Hp.
  - assert (Z.testbit (wrap 32 ((1 << 16) .| irt (gsi_table s g))%W) 16 = true) as Hb.
    { rewrite wrap_bits, Z.lor_spec by lia. done. }
    split; [|intros h; by apply irt_keeps]. intros q Hq. cbn [upd_apic gsi_table] in Hq. assert (q = p) as -> by congruence.
    rewrite upd_apic_at, decide_True by done. cbn [set_irt write gsi_base]. change (Ioapic _ _ _ _) with (set_irt g ((1 << 16) .| irt (gsi_table s g))%W (apics s p)).
    rewrite set_irt_at by (by apply (wf_pin _ Hwf)). rewrite decide_True by done. exact Hb.
  - split; [|intros h; apply keeps_refl]. intros q Hq. congruence.
Qed.

Lemma unmask_spec g s : wf s →
  (∀ p, g_ioapic (gsi_table s g) = Some p →
    Z.testbit (regs (apics (unmask g s) p) (entry (g - gsi_base (apics (unmask g s) p)))) 16 = false) ∧
  ∀ h, h ≠ g → keeps h s (unmask g s).
Proof.
  intros Hwf. unfold unmask. destruct (g_ioapic (gsi_table s g)) as [p|] eqn:Hp.
  - split; [|intros h Hh; apply irt_keeps; [done|by intros ->]]. intros q [= <-].
    rewrite upd_apic_at, decide_True by done. cbn [set_irt write gsi_base]. change (Ioapic _ _ _ _) with (set_irt g (irt (gsi_table s g)) (apics s p)).
    rewrite set_irt_at by (by apply (wf_pin _ Hwf)). rewrite decide_True by done. by apply irt_high.
  - split; [done|intros h _; apply keeps_refl].
Qed.

(** ** The course of an interrupt *)
Section course.
Context (lapic_id : Z → Z) (ire : bool) (keyb_gsi : Z) (depth fuel : nat).
Context (lookup : Z → option (obj * Z)) (node_base : obj → Z) (current : obj) (hit_limit : Z → bool) (pt_oom : bool).
Context (cpu_online : Z → bool) (space_lookup : Z → option Z) (Pci_phys_to_rid Hpet_phys_to_rid : Z → Z).

(** An interrupt arrives, or a thread calls the kernel. *)
Inductive input := Arrive (v : Z) | Ctrl (r : mem) | Assign (r : mem).

Definition step (i : input) s : option irqs :=
  match i with
  | Arrive v => vector keyb_gsi depth fuel v s
  | Ctrl r => snd <$> sys_sm_ctrl depth fuel lookup node_base current hit_limit pt_oom r s
  | Assign r => snd <$> sys_assign_gsi lapic_id ire depth fuel lookup node_base hit_limit pt_oom cpu_online space_lookup
                  Pci_phys_to_rid Hpet_phys_to_rid r s
  end.

Fixpoint run (l : list input) s : option irqs :=
  match l with [] => Some s | i :: l => s ← step i s; run l s end.

(** A driver waits for the interrupt [g], with the right to do so, or routes it. *)
Definition serves (g : Z) (i : input) : Prop :=
  match i with
  | Arrive _ => False
  | Ctrl r => Sys_sm_ctrl_op r ≠ 0 ∧ ∃ m prm, lookup (Sys_sm_ctrl_sm r) = Some (m, prm) ∧
      Z.testbit prm (Sys_sm_ctrl_op r) = true ∧ gsi_of node_base m = g
  | Assign r => ∃ m prm, lookup (Sys_assign_gsi_sm r) = Some (m, prm) ∧ gsi_of node_base m = g
  end.

Lemma vector_keeps v g s s' : step (Arrive v) s = Some s' → wf s → keeps g s s'.
Proof.
  cbn [step]. unfold vector. intros Hv Hwf. apply bind_Some in Hv as (W & _ & [= <-]).
  set (s2 := if _ =? keyb_gsi then _ else _). apply (keeps_trans g s s2); [|by apply rest_keeps].
  unfold s2. destruct (_ =? keyb_gsi); [by apply rest_keeps|]. destruct (trg _); [|apply keeps_refl]. by apply mask_spec.
Qed.

Lemma set_keeps g h c r s : wf s → h ≠ g → keeps g s (set lapic_id ire h c r s).2.
Proof.
  intros Hwf Hh. unfold set. destruct (g_ioapic (gsi_table s h)) as [p|] eqn:Hp; cbn [snd]; [|by apply rest_keeps].
  eapply keeps_trans; [by apply (cpu_keeps g h p (lapic_id c) ire)|].
  set (s1 := upd_apic p (set_cpu _ _ _) s). apply (keeps_trans g s1 (upd_apic p (set_irt h (irt (gsi_table s h))) s1)); [|by apply rest_keeps].
  apply irt_keeps; [done|]. by intros.
Qed.

Lemma ctrl_keeps r g s s' : step (Ctrl r) s = Some s' → wf s → ¬ serves g (Ctrl r) → keeps g s s'.
Proof.
  cbn [step serves]. unfold sys_sm_ctrl. intros Hs Hwf Hn. apply fmap_Some in Hs as ([o s1] & Hs & ->). cbn [snd].
  destruct (check _ _ _); [injection Hs as _ <-; apply keeps_refl|].
  destruct (lookup _) as [[m prm]|] eqn:Hl; [|injection Hs as _ <-; apply keeps_refl].
  destruct (Z.testbit prm _) eqn:Hb; cbn [negb] in Hs; [|injection Hs as _ <-; apply keeps_refl].
  destruct (Z.eqb_spec (Sys_sm_ctrl_op r) 0) as [|Hop].
  { apply bind_Some in Hs as (W & _ & [= _ <-]). by apply rest_keeps. }
  set (s2 := if kern_space _ then _ else _) in *.
  assert (keeps g s s2) as H2.
  { unfold s2. destruct (kern_space _); [|apply keeps_refl]. apply unmask_spec; [done|]. intros Hg. apply Hn. split; [done|]. by exists m, prm. }
  eapply keeps_trans; [exact H2|].
  destruct (kern_space _ && _); [injection Hs as _ <-; apply keeps_refl|].
  destruct (is_signal m _); [injection Hs as _ <-; apply keeps_refl|].
  apply bind_Some in Hs as ([go W] & _ & [= _ <-]). by apply rest_keeps.
Qed.

Lemma assign_keeps r m g s o r' s' : wf s → gsi_of node_base m ≠ g →
  assign lapic_id ire node_base space_lookup Pci_phys_to_rid Hpet_phys_to_rid r m s = Some (o, r', s') → keeps g s s'.
Proof.
  intros Hwf Hg. unfold assign. destruct (_ && truthy _); [intros [= _ _ <-]; apply keeps_refl|].
  destruct (if negb _ && _ then _ else _) as [x|]; [|intros [= _ _ <-]; apply keeps_refl].
  set (s2 := if Sys_assign_gsi_cfg r then _ else _). assert (keeps g s s2) as H2.
  { unfold s2. destruct (Sys_assign_gsi_cfg r); [|apply keeps_refl].
    eapply keeps_trans; apply table_keeps; try done; intros y Hy; by apply bit_word. }
  pose proof (set_keeps g (gsi_of node_base m) (Sys_assign_gsi_cpu r) x s2 (ke_wf _ _ _ H2 Hwf) Hg) as H3.
  destruct (set _ _ _ _ _ s2) as [msi s3]. intros [= _ _ <-]. by eapply keeps_trans.
Qed.

Lemma route_keeps r g s s' : step (Assign r) s = Some s' → wf s → ¬ serves g (Assign r) → keeps g s s'.
Proof.
  cbn [step serves]. unfold sys_assign_gsi. intros Hs Hwf Hn. apply fmap_Some in Hs as ([[o r1] s1] & Hs & ->). cbn [snd].
  destruct (check _ _ _); [injection Hs as _ _ <-; apply keeps_refl|].
  destruct (cpu_online _); cbn [negb] in Hs; [|injection Hs as _ _ <-; apply keeps_refl].
  destruct (lookup (Sys_assign_gsi_sm r)) as [[m prm]|] eqn:Hl; [|injection Hs as _ _ <-; apply keeps_refl].
  assert (gsi_of node_base m ≠ g) as Hg by (intros Hg; apply Hn; by exists m, prm).
  destruct (kern_space _); cbn [negb] in Hs; [|injection Hs as _ _ <-; apply keeps_refl].
  destruct (_ =? ones64); [by eapply assign_keeps|].
  destruct (lookup (Sys_assign_gsi_si r)) as [[si prm']|]; [|injection Hs as _ _ <-; apply keeps_refl].
  case_bool_decide; [apply bind_Some in Hs as (W & _ & [= _ _ <-]); by apply rest_keeps|].
  destruct (kern_space (sms (wd s) si)); [injection Hs as _ _ <-; apply keeps_refl|].
  apply bind_Some in Hs as (W & _ & Hs). eapply keeps_trans; [by apply (rest_keeps _ _ (set_wd W s))|].
  eapply assign_keeps; [|exact Hg|exact Hs]. by apply (ke_wf g s (set_wd W s)); [apply rest_keeps|].
Qed.

Lemma run_keeps g l : ∀ s s', run l s = Some s' → wf s → Forall (λ i, ¬ serves g i) l → keeps g s s'.
Proof.
  induction l as [|i l IH]; intros s s'; cbn [run]; [intros [= <-] _ _; apply keeps_refl|].
  intros (s1 & H1 & H2)%bind_Some Hwf [Hi Hl]%list.Forall_cons.
  assert (keeps g s s1) as Hk.
  { destruct i as [v|r|r]; [by eapply vector_keeps|by eapply ctrl_keeps|by eapply route_keeps]. }
  eapply keeps_trans; [exact Hk|]. apply IH; [done|by apply (ke_wf _ _ _ Hk)|done].
Qed.

(** C23: an interrupt that is triggered by its level, other than the keyboard's,
    is masked at its pin from its arrival on, whatever other interrupts arrive and whatever threads do,
    until a driver with the right to do so waits for it again or routes it; and
    that wait unmasks the pin. *)
Theorem level_masked_until_served g l s s' : wf s → 0 ≤ g < NUM_GSI → trg (gsi_table s g) = true → g ≠ keyb_gsi →
  Forall (λ i, ¬ serves g i) l → run (Arrive (VEC_GSI + g) :: l) s = Some s' →
  masked g s' ∧ ∀ r m prm, lookup (Sys_sm_ctrl_sm r) = Some (m, prm) → Sys_sm_ctrl_op r ≠ 0 →
    Z.testbit prm (Sys_sm_ctrl_op r) = true → kern_space (sms (wd s') m) = true → gsi_of node_base m = g →
    hit_limit 1 = false → ∀ s2, step (Ctrl r) s' = Some s2 →
    ∀ p, g_ioapic (gsi_table s2 g) = Some p →
      Z.testbit (regs (apics s2 p) (entry (g - gsi_base (apics s2 p)))) 16 = false.
Proof.
  intros Hwf Hg Ht Hk Hl Hr. cbn [run] in Hr. apply bind_Some in Hr as (s1 & H1 & Hr).
  pose proof (vector_keeps _ g _ _ H1 Hwf) as K1. assert (wf s1) as Hwf1 by by apply (ke_wf _ _ _ K1).
  pose proof (run_keeps g l _ _ Hr Hwf1 Hl) as K2. assert (wf s') as Hwf' by by apply (ke_wf _ _ _ K2). split.
  - apply (ke_masked _ _ _ K2 Hwf1). cbn [step] in H1. unfold vector in H1.
    assert (wrap 32 (VEC_GSI + g - VEC_GSI) = g) as Eg.
    { replace (VEC_GSI + g - VEC_GSI) with g by lia. apply wrap_small. unfold word, NUM_GSI in *. lia. }
    rewrite Eg in H1. rewrite (proj2 (Z.eqb_neq _ _) Hk), Ht in H1. apply bind_Some in H1 as (W & _ & [= <-]).
    exact (proj1 (mask_spec g s Hwf)).
  - intros r m prm Hlk Hop Hb Hkern Hm Hq s2 Hs. cbn [step] in Hs. unfold sys_sm_ctrl in Hs.
    apply fmap_Some in Hs as ([o s3] & Hs & ->). cbn [snd]. unfold check in Hs. rewrite Hq, Hlk, Hb, Hkern, Hm in Hs. cbn [negb andb] in Hs.
    rewrite (proj2 (Z.eqb_neq _ _) Hop) in Hs. pose proof (proj1 (unmask_spec g s' Hwf')) as Hun.
    assert (∀ s4, gsi_table s4 = gsi_table (unmask g s') → apics s4 = apics (unmask g s') →
      ∀ p, g_ioapic (gsi_table s4 g) = Some p → Z.testbit (regs (apics s4 p) (entry (g - gsi_base (apics s4 p)))) 16 = false) as Hgo.
    { intros s4 E1 E2 p. rewrite E1, E2. intros Hp. apply Hun. revert Hp. unfold unmask. destruct (g_ioapic (gsi_table s' g)) eqn:E; cbn [upd_apic gsi_table]; congruence. }
    destruct (is_signal m _); [injection Hs as _ <-; by apply Hgo|].
    apply bind_Some in Hs as ([go W] & _ & [= _ <-]). by apply Hgo.
Qed.
End course.

(** ** Sleep *)

Lemma save_irts p n : ∀ e f x,
  save_loop n e p f x = if decide (e ≤ x < e + Z.of_nat n) then get_irt x p else f x.
Proof.
  induction n as [|n IH]; intros e f x; cbn [save_loop]; [by rewrite decide_False by lia|].
  rewrite IH. case_decide; [by rewrite decide_True by lia|]. destruct (decide (x = e)) as [->|Hx].
  - by rewrite fn_lookup_insert, decide_True by lia.
  - by rewrite fn_lookup_insert_ne, decide_False by lia.
Qed.

Lemma restore_irts n : ∀ e f p, 0 ≤ e → e + Z.of_nat n ≤ 120 →
  let p' := restore_loop n e f p in
  (∀ x, e ≤ x < e + Z.of_nat n → regs p' (entry x) = wrap 32 (f x >> 32)%W ∧ regs p' (entry x + 1) = wrap 32 (f x)) ∧
  (∀ i, i < entry e ∨ entry (e + Z.of_nat n) ≤ i → regs p' i = regs p i).
Proof.
  induction n as [|n IH]; intros e f p He Hn; cbn [restore_loop]; [split; [lia|done]|].
  set (p1 := write _ (f e) _). destruct (IH (e + 1) f p1) as [H1 H2]; [lia|lia|].
  destruct (index_small e ltac:(lia)) as [E1 E2].
  assert (∀ i, regs p1 i = if decide (i = entry e + 1) then wrap 32 (f e) else if decide (i = entry e) then wrap 32 (f e >> 32)%W else regs p i) as Hp1.
  { intros i. unfold p1. rewrite !write_at, E1, E2. done. }
  unfold entry in *. split.
  - intros x Hx. destruct (decide (x = e)) as [->|Hxe]; [|apply H1; lia].
    rewrite !H2 by lia. rewrite !Hp1. rewrite decide_False, !decide_True by lia. done.
  - intros i Hi. rewrite H2 by lia. rewrite Hp1. rewrite !decide_False by lia. done.
Qed.

Lemma irt_halves p x : (∀ i, word 32 (regs p i)) → 0 ≤ x < 120 →
  wrap 32 (get_irt x p >> 32)%W = regs p (entry x) ∧ wrap 32 (get_irt x p) = regs p (entry x + 1).
Proof.
  intros Hw Hx. unfold get_irt, read. destruct (index_small x Hx) as [-> ->].
  pose proof (Hw (entry x)) as Ha. pose proof (Hw (entry x + 1)) as Hb. set (a := regs p (entry x)) in *. set (c := regs p (entry x + 1)) in *.
  unfold word in *. rewrite wshl_small by lia. rewrite <-(Z.shiftl_mul_pow2 a 32) by lia.
  rewrite (field_split c a 32) by (unfold word; lia). unfold wrap. rewrite Z.shiftr_div_pow2 by lia. split.
  - rewrite Z.div_add_l by lia. rewrite Z.div_small by lia. rewrite Z.add_0_r. by apply Z.mod_small.
  - rewrite Z.add_comm, Z.mod_add by lia. by apply Z.mod_small.
Qed.

(** sleep restores the I/O APICs but for their last pin.  [irt_max] is the
    number of the last pin; after [suspend], and [resume] of whatever the sleep
    has left, every pin before it has its entry again, and the last one has what
    the sleep has left. *)
Theorem ioapic_sleep p q : (∀ i, word 32 (regs p i)) → irt_max p < 120 → irt_max q = irt_max p →
  saved q = saved (suspend p).2 →
  ∃ q', resume q = (true, q') ∧
    (∀ x, 0 ≤ x < irt_max p → regs q' (entry x) = regs p (entry x) ∧ regs q' (entry x + 1) = regs p (entry x + 1)) ∧
    regs q' (entry (irt_max p)) = regs q (entry (irt_max p)) ∧ regs q' (entry (irt_max p) + 1) = regs q (entry (irt_max p) + 1).
Proof.
  intros Hw Hmax Hq Hs. assert (0 ≤ irt_max p) as H0.
  { unfold irt_max. apply Z.land_nonneg. by right. }
  unfold suspend in Hs. change (irt_max (set_saved _ p)) with (irt_max p) in Hs.
  rewrite (proj2 (Z.ltb_ge _ _)) in Hs by lia. cbn [snd set_saved saved] in Hs.
  unfold resume. rewrite Hs, Hq, (proj2 (Z.ltb_ge _ _)) by lia. eexists. split; [reflexivity|].
  set (f := save_loop _ _ _ _). destruct (restore_irts (Z.to_nat (irt_max p)) 0 f q) as [H1 H2]; [lia|lia|].
  split; [|split; apply H2; unfold entry; lia].
  intros x Hx. destruct (H1 x) as [-> ->]; [lia|]. unfold f. rewrite save_irts, decide_True by lia.
  change (get_irt x _) with (get_irt x p). apply irt_halves; [done|lia].
Qed.

(** ** The table at boot *)

Lemma vec_word x v : word 16 (irt x) → word 16 (irt (set_vec v x)).
Proof.
  intros Hx. cbn. apply lor_word; [done| |].
  - apply bits_word; [done|apply Z.ldiff_nonneg; left; apply Hx|]. intros i Hi. by rewrite Z.ldiff_spec, (word_bits 16) by done.
  - pose proof (wrap_word 8 v ltac:(done)) as Hw. unfold word in *. lia.
Qed.

Lemma bits_keeps h g a b s : keeps h s (upd_gsi g (set_pol a) (upd_gsi g (set_trg b) s)).
Proof.
  apply (keeps_trans h s (upd_gsi g (set_trg b) s)); apply table_keeps; try reflexivity; intros x Hx; by apply bit_word.
Qed.

Lemma setup_keeps n f h : ∀ g s, keeps h s (setup_loop n g f s).
Proof.
  induction n as [|n IH]; intros g s; cbn [setup_loop]; [apply keeps_refl|]. cbn zeta.
  set (s1 := upd_gsi g (set_sm (f g)) s). set (s2 := upd_gsi g (set_vec (VEC_GSI + g)) s1).
  apply (keeps_trans h s s1); [apply table_keeps; [reflexivity|by intros x Hx]|].
  apply (keeps_trans h s1 s2); [apply table_keeps; [reflexivity|intros x; apply vec_word]|].
  clearbody s2. eapply keeps_trans; [|apply IH]. destruct (g <? NUM_IRQ); [|apply bits_keeps].
  apply (keeps_trans h s2 (set_irq g g s2)); [apply rest_keeps; reflexivity|apply bits_keeps].
Qed.

(** ** The theorems applied *)

(** An I/O APIC with 24 pins behind the first 16 interrupts. *)
Definition demo_apic : ioapic := Ioapic 16 0 (λ i, if i =? 1 then 0x170020 else 0) None.
Definition demo_wires : irqs :=
  Irqs (λ g, Gsi 0%nat (if (16 <=? g) && (g <? 40) then Some 0%nat else None) 0) (λ _, 0) (λ _, demo_apic)
    (World (λ _, Sm 0 (Queue None) (Queue None) None 0 true 1) no_links no_links (λ _, 1) []) [].
Definition demo_gsis : irqs := setup Z.to_nat demo_wires.

Lemma demo_wf : wf demo_gsis.
Proof.
  refine (ke_wf 0 demo_wires demo_gsis (setup_keeps (Z.to_nat NUM_GSI) Z.to_nat 0 0 demo_wires) _).
  split; [|intros g; cbn [demo_wires gsi_table irt]; unfold word; lia].
  intros g p. cbn [demo_wires gsi_table g_ioapic]. destruct (Z.leb_spec 16 g), (Z.ltb_spec g 40); cbn [andb]; try done.
  intros _. unfold pin_ok. cbn [demo_wires apics demo_apic gsi_base]. lia.
Qed.

Definition demo_lookup (sel : Z) : option (obj * Z) := if sel <? 192 then Some (Z.to_nat sel, 3) else None.
Definition demo_base (m : obj) : Z := NUM_CPU + Z.of_nat m.
Definition demo_down (sel : Z) : mem := args 12 1 sel 0 0 0 0 (λ _, 0).
#[local] Abbreviation demo_run :=
  (run (λ _, 0) false 1 4 4 demo_lookup demo_base 500%nat (λ _, false) false (λ _, true) (λ _, None) (λ _, 0) (λ _, 0)).

Definition demo_inputs : list input := [Arrive 53; Ctrl (demo_down 21)].

Lemma demo_unserved : Forall (λ i, ¬ serves demo_lookup demo_base 20 i) demo_inputs.
Proof.
  constructor; [intros []|]. constructor; [|constructor]. intros [_ (m & prm & Hm & _ & Hg)].
  vm_compute in Hm. injection Hm as <- _. vm_compute in Hg. discriminate.
Qed.

Lemma demo_triggered : 0 ≤ 20 < NUM_GSI ∧ trg (gsi_table demo_gsis 20) = true ∧ 20 ≠ 1.
Proof. split; [unfold NUM_GSI; lia|]. split; [by vm_compute|lia]. Qed.

Lemma demo_runs : is_Some (demo_run (Arrive (VEC_GSI + 20) :: demo_inputs) demo_gsis).
Proof.
  assert (match demo_run (Arrive (VEC_GSI + 20) :: demo_inputs) demo_gsis with Some _ => true | None => false end = true) as Hs by (vm_compute; reflexivity).
  destruct (demo_run _ _); [by eexists|discriminate].
Qed.

Lemma level_masked_until_served_witness :
  ∃ s', demo_run (Arrive (VEC_GSI + 20) :: demo_inputs) demo_gsis = Some s' ∧ masked 20 s'.
Proof.
  destruct demo_runs as [s' Hr]. exists s'. split; [exact Hr|].
  exact (proj1 (level_masked_until_served (λ _, 0) false 1 4 4 demo_lookup demo_base 500%nat (λ _, false) false (λ _, true) (λ _, None) (λ _, 0) (λ _, 0)
    20 demo_inputs demo_gsis s' demo_wf (proj1 demo_triggered) (proj1 (proj2 demo_triggered)) (proj2 (proj2 demo_triggered)) demo_unserved Hr)).
Defined.

Lemma ioapic_sleep_witness :
  ∃ q', resume (set_saved (default (λ _, 0) (saved (suspend demo_apic).2)) (Ioapic 16 0 (λ i, if i =? 1 then 0x170020 else 7) None)) = (true, q') ∧
    regs q' (entry 22) = 0 ∧ regs q' (entry 23) = 7.
Proof.
  destruct (ioapic_sleep demo_apic (set_saved (default (λ _, 0) (saved (suspend demo_apic).2)) (Ioapic 16 0 (λ i, if i =? 1 then 0x170020 else 7) None)))
    as (q' & Hq & Hx & Hl & _).
  - intros i. cbn. by destruct (i =? 1).
  - by vm_compute.
  - by vm_compute.
  - reflexivity.
  - exists q'. split; [exact Hq|]. split; [|exact Hl]. exact (proj1 (Hx 22 ltac:(split; by vm_compute))).
Defined.

(** Edge-triggered interrupts are not masked; waiting unmasks. *)
Example arrive_run :
  match demo_run [Arrive 52] demo_gsis with
  | Some s =>
    match demo_run [Ctrl (demo_down 20)] s with
    | Some s' => ((λ s, regs (apics s 0%nat) (entry 4)) <$> [s; s'], counter (sms (wd s) 20%nat), counter (sms (wd s') 20%nat))
    | None => ([], 0, 0)
    end
  | None => ([], 0, 0)
  end = ([0x1a034; 0xa034], 1, 0).
Proof. by vm_compute. Qed.
