(* ===== verification/Madt.v ===== *)
(** The interrupt table of the firmware: [include/acpi_madt.hpp] and
    [src/acpi_madt.cpp].

    It lists the CPUs, which are numbered in the order of the table as long as
    there is room, the I/O APICs, and the interrupts that are wired otherwise
    than one to one.  It is parsed after [Gsi::setup]. *)
From S2P Require Import Prelude Bits Bitmap Queue Rcu Sm Acpi Gsi.
Local Open Scope Z_scope.

Definition LAPIC : Z := 0.
Definition IOAPIC : Z := 1.
Definition INTR : Z := 2.
Definition X2APIC : Z := 9.

Definition POL_CONFORMING : Z := 0.
Definition POL_LOW : Z := 3.
Definition TRG_CONFORMING : Z := 0.
Definition TRG_LEVEL : Z := 3.

(** [Lapic::id], [Cpu::apic_x2] and [Cpu::acpi_id] of the CPUs online, and the
    interrupts with the number of I/O APICs. *)
Record boot := Boot {
  id : list Z; apic_x2 : list bool; acpi_id : list Z;
  ioapics : nat; irqs_of : irqs; pic_present : bool; sci_overridden : bool;
}.
Implicit Types s : boot.

Definition online s : Z := Z.of_nat (length (id s)).

Definition add_cpu (i : Z) (x2 : bool) (a : Z) s : boot :=
  Boot (id s ++ [i]) (apic_x2 s ++ [x2]) (acpi_id s ++ [a]) (ioapics s) (irqs_of s) (pic_present s) (sci_overridden s).
Definition set_irqs (q : irqs) s : boot :=
  Boot (id s) (apic_x2 s) (acpi_id s) (ioapics s) q (pic_present s) (sci_overridden s).
Definition set_ioapics (n : nat) s : boot :=
  Boot (id s) (apic_x2 s) (acpi_id s) n (irqs_of s) (pic_present s) (sci_overridden s).
Definition set_pic (b : bool) s : boot :=
  Boot (id s) (apic_x2 s) (acpi_id s) (ioapics s) (irqs_of s) b (sci_overridden s).
Definition set_sci (b : bool) s : boot :=
  Boot (id s) (apic_x2 s) (acpi_id s) (ioapics s) (irqs_of s) (pic_present s) b.

(** The bytes of memory, the registers of the I/O APIC at a physical address, and
    the interrupt of ACPI itself. *)
Section madt.
Context (b : Z → Z) (device : Z → Z → Z) (sci : Z).

(** The fields, which are packed. *)
Definition Lapic_acpi_id (a : Z) : Z := u8 b (a + 2).
Definition Lapic_apic_id (a : Z) : Z := u8 b (a + 3).
Definition Lapic_flags (a : Z) : Z := u32 b (a + 4).
Definition X2apic_id (a : Z) : Z := u32 b (a + 4).
Definition X2apic_flags (a : Z) : Z := u32 b (a + 8).
Definition X2apic_uid (a : Z) : Z := u32 b (a + 12).
Definition Ioapic_phys (a : Z) : Z := u32 b (a + 4).
Definition Ioapic_gsi (a : Z) : Z := u32 b (a + 8).
Definition Intr_bus (a : Z) : Z := u8 b (a + 2).
Definition Intr_irq (a : Z) : Z := u8 b (a + 3).
Definition Intr_gsi (a : Z) : Z := u32 b (a + 4).
Definition Intr_pol (a : Z) : Z := (u16 b (a + 8) .& 3)%W.
Definition Intr_trg (a : Z) : Z := (u16 b (a + 8) >> 2 .& 3)%W.

Definition parse_lapic (a : Z) s : boot :=
  if truthy (Lapic_flags a .& 1)%W && (online s <? NUM_CPU) then add_cpu (Lapic_apic_id a) false (Lapic_acpi_id a) s else s.

Definition parse_x2apic (a : Z) s : boot :=
  if truthy (X2apic_flags a .& 1)%W && (online s <? NUM_CPU) then add_cpu (X2apic_id a) true (X2apic_uid a) s else s.

(** The loop of [parse_ioapic], [n] pins to go. *)
Fixpoint wire_loop (n : nat) (g : Z) (p : nat) (q : irqs) : irqs :=
  match n with
  | O => q
  | S n => if g <? NUM_GSI then wire_loop n (g + 1) p (upd_gsi g (set_ioapic (Some p)) q) else q
  end.

Definition parse_ioapic (a : Z) s : boot :=
  let p := ioapics s in
  let x := Ioapic (Ioapic_gsi a) 0 (device (Ioapic_phys a)) None in
  let q := upd_apic p (λ _, x) (irqs_of s) in
  set_ioapics (S p) (set_irqs (wire_loop (S (Z.to_nat (irt_max x))) (Ioapic_gsi a) p q) s).

Definition parse_intr (a : Z) s : boot :=
  let irq := Intr_irq a in
  let g := Intr_gsi a in
  if (NUM_GSI <=? g) || (NUM_IRQ <=? irq) || truthy (Intr_bus a) then s
  else
    let q := set_irq irq g (irqs_of s) in
    let pol := (Intr_pol a =? POL_LOW) || ((Intr_pol a =? POL_CONFORMING) && (irq =? sci)) in
    let trg := (Intr_trg a =? TRG_LEVEL) || ((Intr_trg a =? TRG_CONFORMING) && (irq =? sci)) in
    let q := upd_gsi g (set_trg trg) (upd_gsi g (set_pol pol) q) in
    let s := set_irqs q s in
    if irq =? sci then set_sci true s else s.

Definition MADT_OFFSET : Z := HEADER_SIZE + 8.

Definition parse_entry (this ty : Z) (handler : Z → boot → boot) s : option boot :=
  parse_entries b ty (λ a s, Some (handler a s)) (Z.to_nat (table_length b this)) (this + MADT_OFFSET) (this + table_length b this) s.

Definition parse (this : Z) s : option boot :=
  s ← parse_entry this LAPIC parse_lapic s;
  s ← parse_entry this X2APIC parse_x2apic s;
  s ← parse_entry this IOAPIC parse_ioapic s;
  s ← parse_entry this INTR parse_intr s;
  Some (set_pic (truthy (u32 b (this + 40) .& 1)%W) s).

(** ** What a table says *)

Definition lists (this : Z) (l : list Z) : Prop :=
  0 ≤ table_length b this ∧ listed b (this + table_length b this) (this + MADT_OFFSET) l.

Definition of_type (ty : Z) (l : list Z) : list Z := filter (λ a, u8 b a = ty) l.

Lemma fold_option_total {A S : Type} (f : A → S → S) l (x : S) : fold_option (λ a y, Some (f a y)) l x = Some (foldl (λ y a, f a y) x l).
Proof. revert x. induction l as [|a l IH]; intros x; [done|]. cbn. apply IH. Qed.

Lemma parse_entry_fold this ty h l s : lists this l → parse_entry this ty h s = Some (foldl (λ s a, h a s) s (of_type ty l)).
Proof.
  intros [Hlen Hl]. unfold parse_entry. rewrite (parse_entries_fold _ _ _ _ _ _ l); [apply fold_option_total|].
  apply (entries_end b _ _ _ Hl). unfold MADT_OFFSET, HEADER_SIZE. lia.
Qed.

(** The identifiers of enabled CPUs in the order of their numbers. *)
Definition cpu_ids (l : list Z) : list Z :=
  omap (λ a, if truthy (Lapic_flags a .& 1)%W then Some (Lapic_apic_id a) else None) (of_type LAPIC l) ++
  omap (λ a, if truthy (X2apic_flags a .& 1)%W then Some (X2apic_id a) else None) (of_type X2APIC l).

Lemma count_cpus (h : Z → boot → boot) (g : Z → option Z) l :
  (∀ a s, id (h a s) = match g a with Some i => if online s <? NUM_CPU then id s ++ [i] else id s | None => id s end) →
  ∀ s, (length (id s) ≤ 256)%nat → id (foldl (λ s a, h a s) s l) = take 256 (id s ++ omap g l).
Proof.
  intros Hh. induction l as [|a l IH]; intros s Hs; cbn [foldl omap list_omap].
  - rewrite app_nil_r. symmetry. by apply take_ge.
  - specialize (Hh a s). rewrite IH; [|rewrite Hh; destruct (g a); [|done]; unfold online, NUM_CPU; destruct (Z.ltb_spec (Z.of_nat (length (id s))) 256); [rewrite length_app; cbn; lia|done]].
    rewrite Hh. destruct (g a) as [i|]; [|done]. unfold online, NUM_CPU. destruct (Z.ltb_spec (Z.of_nat (length (id s))) 256).
    + by rewrite <-app_assoc.
    + rewrite !take_app_le by lia. done.
Qed.

(** ** Wires *)

(** The index register of every I/O APIC reaches its pins. *)
Definition narrow (l : list Z) : Prop :=
  ∀ a, a ∈ of_type IOAPIC l → irt_max (Ioapic 0 0 (device (Ioapic_phys a)) None) < 120.

Lemma wire_wf p n : ∀ g q, wf q → 0 ≤ g - gsi_base (apics q p) → g - gsi_base (apics q p) + Z.of_nat n ≤ 120 → wf (wire_loop n g p q).
Proof.
  induction n as [|n IH]; intros g q Hq H0 Hn; cbn [wire_loop]; [done|].
  destruct (g <? NUM_GSI); [|done]. apply IH; cbn [upd_gsi apics]; [|lia..]. destruct Hq as [Hp Hi]. split.
  - intros h x. rewrite upd_gsi_at. case_decide as Hh; [|apply Hp]. cbn [set_ioapic g_ioapic]. intros [= <-]. subst h. unfold pin_ok. cbn [upd_gsi apics]. lia.
  - intros h. rewrite upd_gsi_at. case_decide; [|apply Hi]. cbn [set_ioapic irt]. by apply Hi.
Qed.

(** I/O APICs to come are not referred to. *)
Definition boot_ok s : Prop := wf (irqs_of s) ∧ ∀ g p, g_ioapic (gsi_table (irqs_of s) g) = Some p → (p < ioapics s)%nat.

Lemma wire_refs p n : ∀ g q h x, g_ioapic (gsi_table (wire_loop n g p q) h) = Some x → x = p ∨ g_ioapic (gsi_table q h) = Some x.
Proof.
  induction n as [|n IH]; intros g q h x; cbn [wire_loop]; [by right|]. destruct (g <? NUM_GSI); [|by right].
  intros [->|Hx]%IH; [by left|]. rewrite upd_gsi_at in Hx. case_decide; [|by right]. cbn in Hx. left. congruence.
Qed.

Lemma ioapic_ok a s : irt_max (Ioapic 0 0 (device (Ioapic_phys a)) None) < 120 → boot_ok s → boot_ok (parse_ioapic a s).
Proof.
  intros Hmax [Hwf Href]. unfold parse_ioapic. set (x := Ioapic (Ioapic_gsi a) 0 _ None).
  change (irt_max (Ioapic 0 0 _ None)) with (irt_max x) in Hmax.
  assert (0 ≤ irt_max x) by (unfold irt_max; apply Z.land_nonneg; by right).
  assert (wf (upd_apic (ioapics s) (λ _, x) (irqs_of s))) as Hwf'.
  { split; [|apply Hwf]. intros g p Hg. cbn [upd_apic gsi_table] in Hg. rewrite upd_apic_at, decide_False; [by apply Hwf|].
    intros ->. pose proof (Href _ _ Hg). lia. }
  split; cbn [set_ioapics set_irqs irqs_of ioapics].
  - apply wire_wf; [done|..]; rewrite upd_apic_at, decide_True by done; cbn [x gsi_base]; lia.
  - intros g p [->|Hp]%wire_refs; [lia|]. pose proof (Href _ _ Hp). lia.
Qed.

Lemma intr_ok a s : boot_ok s → boot_ok (parse_intr a s).
Proof.
  intros [Hwf Href]. unfold parse_intr. destruct (_ || _ || _); [done|].
  set (q := upd_gsi _ _ _). assert (keeps 0 (irqs_of s) q) as Hk.
  { eapply keeps_trans; [by apply (rest_keeps 0 _ (set_irq (Intr_irq a) (Intr_gsi a) (irqs_of s)))|].
    eapply keeps_trans; apply table_keeps; try reflexivity; intros y Hy; by apply bit_word. }
  assert (boot_ok (set_irqs q s)) as Hok.
  { split; [by apply (ke_wf _ _ _ Hk)|]. intros g p Hp. cbn [set_irqs irqs_of] in Hp. rewrite (sw_ioapic _ _ (ke_wires _ _ _ Hk)) in Hp. by apply Href in Hp. }
  by destruct (_ =? sci).
Qed.

Lemma fold_ok (h : Z → boot → boot) l s : (∀ a s, a ∈ l → boot_ok s → boot_ok (h a s)) → boot_ok s → boot_ok (foldl (λ s a, h a s) s l).
Proof.
  revert s. induction l as [|a l IH]; intros s Hh Hs; cbn [foldl]; [done|]. apply IH; [intros x y Hx; apply Hh; by right|].
  apply Hh; [by left|done].
Qed.

Lemma fold_same {A} (f : boot → A) (h : Z → boot → boot) l s : (∀ a s, f (h a s) = f s) → f (foldl (λ s a, h a s) s l) = f s.
Proof. intros Hh. revert s. induction l as [|a l IH]; intros s; cbn [foldl]; [done|]. by rewrite IH. Qed.

(** parsing the interrupt table ends if none of its entries is empty.  The
    CPUs online are the enabled ones of the table, local APICs before extended
    ones, as many as there is room for; and if no I/O APIC has more than 120
    pins, the wires are such that masking an interrupt touches no other. *)
Theorem madt_enumerates this l s : lists this l → id s = [] → boot_ok s →
  ∃ s', parse this s = Some s' ∧ id s' = take 256 (cpu_ids l) ∧ (narrow l → wf (irqs_of s')).
Proof.
  intros Hl Hid Hok. unfold parse. rewrite (parse_entry_fold _ _ _ l _ Hl). cbn [mbind option_bind].
  set (s1 := foldl _ s _). rewrite (parse_entry_fold _ _ _ l _ Hl). cbn [mbind option_bind].
  set (s2 := foldl _ s1 _). rewrite (parse_entry_fold _ _ _ l _ Hl). cbn [mbind option_bind].
  set (s3 := foldl _ s2 _). rewrite (parse_entry_fold _ _ _ l _ Hl). cbn [mbind option_bind].
  set (s4 := foldl _ s3 _). eexists. split; [reflexivity|]. split.
  - change (id (set_pic _ s4)) with (id s4). unfold s4. rewrite fold_same.
    2: { intros a x. unfold parse_intr. destruct (_ || _ || _); [done|]. by destruct (_ =? sci). }
    unfold s3. rewrite fold_same by done. unfold s2. rewrite (count_cpus _ (λ a, if truthy (X2apic_flags a .& 1)%W then Some (X2apic_id a) else None)).
    + unfold s1. rewrite (count_cpus _ (λ a, if truthy (Lapic_flags a .& 1)%W then Some (Lapic_apic_id a) else None)).
      * rewrite Hid. cbn [app]. unfold cpu_ids. set (l1 := omap _ _). set (l2 := omap _ _).
        destruct (decide (length l1 ≤ 256)%nat); [by rewrite (take_ge l1)|].
        rewrite !take_app_le; [|lia|rewrite length_take; lia]. by rewrite take_take.
      * intros a x. unfold parse_lapic. destruct (truthy _); [|done]. cbn [andb]. by destruct (online x <? NUM_CPU).
      * rewrite Hid. cbn. lia.
    + intros a x. unfold parse_x2apic. destruct (truthy _); [|done]. cbn [andb]. by destruct (online x <? NUM_CPU).
    + unfold s1. rewrite (count_cpus _ (λ a, if truthy (Lapic_flags a .& 1)%W then Some (Lapic_apic_id a) else None)).
      * rewrite length_take. lia.
      * intros a x. unfold parse_lapic. destruct (truthy _); [|done]. cbn [andb]. by destruct (online x <? NUM_CPU).
      * rewrite Hid. cbn. lia.
  - intros Hn. change (wf (irqs_of s4)). assert (boot_ok s4) as [Hwf _]; [|done].
    apply fold_ok; [intros a x _; apply intr_ok|]. apply fold_ok; [intros a x Ha; apply ioapic_ok; by apply Hn|].
    apply fold_ok. { intros a x _ Hx. unfold parse_x2apic. by destruct (_ && _). }
    apply fold_ok; [|done]. intros a x _ Hx. unfold parse_lapic. by destruct (_ && _).
Qed.
End madt.

(** ** A table *)

Definition lapic_bytes (acpi apic fl : Z) : list Z := [0; 8; acpi; apic] ++ le 4 fl.
Definition x2apic_bytes (i fl uid : Z) : list Z := [9; 16; 0; 0] ++ le 4 i ++ le 4 fl ++ le 4 uid.
Definition ioapic_bytes (i phys g : Z) : list Z := [1; 12; i; 0] ++ le 4 phys ++ le 4 g.
Definition intr_bytes (irq g fl : Z) : list Z := [2; 10; 0; irq] ++ le 4 g ++ le 2 fl.

Definition demo_table : list Z :=
  let l := x2apic_bytes 300 1 9 ++ lapic_bytes 1 6 1 ++ ioapic_bytes 0 0xfec00000 0 ++ lapic_bytes 2 4 0 ++
    intr_bytes 9 20 15 ++ lapic_bytes 3 8 1 in
  le 4 0x43495041 ++ le 4 (44 + Z.of_nat (length l)) ++ replicate 32 0 ++ le 4 1 ++ l.

Definition demo_mem : Z → Z := bytes_at demo_table.
Definition demo_entries : list Z := [44; 60; 68; 80; 88; 98].
Definition demo_device (phys i : Z) : Z := if i =? 1 then 0x170020 else 0.

Definition demo_boot : boot :=
  Boot [] [] [] 0 (setup Z.to_nat (Irqs (λ g, Gsi 0%nat None 0) (λ _, 0) (λ _, Ioapic 0 0 (λ _, 0) None)
    (World (λ _, Sm 0 (Queue None) (Queue None) None 0 true 1) no_links no_links (λ _, 1) []) [])) false false.

Lemma madt_demo_lists : lists demo_mem 0 demo_entries.
Proof. split; [by vm_compute|]. unfold MADT_OFFSET, HEADER_SIZE, demo_entries. list_entries. Qed.

Lemma demo_boot_ok : boot_ok demo_boot.
Proof.
  unfold demo_boot, setup. set (q := Irqs _ _ _ _ _).
  pose proof (setup_keeps (Z.to_nat NUM_GSI) Z.to_nat 0 0 q) as Hk. split; cbn [irqs_of ioapics].
  - apply (ke_wf _ _ _ Hk). split; [done|]. intros g. cbn [q gsi_table irt]. unfold word. lia.
  - intros g p Hp. rewrite (sw_ioapic _ _ (ke_wires _ _ _ Hk)) in Hp. discriminate Hp.
Qed.

Lemma demo_narrow : narrow demo_mem demo_device demo_entries.
Proof. intros a _. by vm_compute. Qed.

Lemma demo_cpus : cpu_ids demo_mem demo_entries = [6; 8; 300].
Proof. by vm_compute. Qed.

Lemma madt_enumerates_witness :
  ∃ s', parse demo_mem demo_device 9 0 demo_boot = Some s' ∧ id s' = [6; 8; 300] ∧ wf (irqs_of s').
Proof.
  destruct (madt_enumerates demo_mem demo_device 9 0 demo_entries demo_boot madt_demo_lists eq_refl demo_boot_ok) as (s' & Hp & Hid & Hwf).
  exists s'. split; [exact Hp|]. split; [rewrite Hid, demo_cpus; reflexivity|exact (Hwf demo_narrow)].
Defined.

(** The definitions run: interrupt 9 of the firmware is the pin 20, low and by
    level. *)
Example madt_run :
  match parse demo_mem demo_device 9 0 demo_boot with
  | Some s => (id s, irq_table (irqs_of s) 9, (λ x, (g_ioapic x, pol x, trg x)) (gsi_table (irqs_of s) 20), g_ioapic (gsi_table (irqs_of s) 24), sci_overridden s)
  | None => ([], 0, (None, false, false), None, false)
  end = ([6; 8; 300], 20, (Some 0%nat, true, true), None, true).
Proof. by vm_compute. Qed.
