(* ===== verification/Kobject.v ===== *)
(** Kernel objects: [include/kobject.hpp], the constructors and destructors of
    [Pd], [Ec], [Sc], [Pt] and [Sm], [Space_obj::insert_root], and the message
    areas of contexts in memory spaces ([insert_utcb] and [remove_utcb] of
    [src/space_mem.cpp]).

    An object is a node of the mapping database, a reference counter and the
    data of its kind; the domain [pd] is the object [pd].  It lies in a slab of
    a cache and has to be given back to this cache.  What an object is made of
    beside that, page tables, register state and control structures, is the
    interface [ObjEnv], and so is the table of capabilities. *)
From S2P Require Import Prelude Bits Quota Rcu Crd Queue Sc Avl AvlRemove Mdb Space Derivation Pd.
Local Open Scope Z_scope.

(** [Kobject::Type]; [INVALID] is a null pointer. *)
Definition T_PD : Z := 0.
Definition T_EC : Z := 1.
Definition T_SC : Z := 2.
Definition T_PT : Z := 3.
Definition T_SM : Z := 4.

(** The caches of a domain, and that of all domains. *)
Inductive ckind := PD_CACHE | EC_CACHE | SC_CACHE | PT_CACHE | SM_CACHE | WORKER_CACHE.
#[export] Instance ckind_eq : EqDecision ckind.
Proof. solve_decision. Defined.

Class ObjEnv (E : Type) := {
  (** [cache.alloc (quota)] and [cache.free (ptr, quota)]: the pages of the
      cache that the quota pays for. *)
  slab_alloc : obj → ckind → quota → E → quota * E;
  slab_free : obj → ckind → quota → E → quota * E;
  (** The word that [Space_obj::lookup] finds, and [Space_obj::update (quota,
      idx, cap)]. *)
  cap_at : obj → Z → E → Z;
  cap_put : obj → Z → Z → quota → E → quota * E;
  (** The page tables, the message area and its frame, the registers and the
      control structures of a context, set up and taken down. *)
  ec_setup : obj → obj → Z → Z → Z → quota → E → Z * quota * E;
  ec_unmap : obj → Z → quota → E → quota * E;
  ec_cleanup : obj → obj → quota → E → quota * E;
  (** The page tables and caches of a domain. *)
  pd_clear : obj → quota → E → quota * E;
}.

Record ec := Ec {
  e_pd : option obj;
  glb : bool;
  e_cpu : Z;
  evt : Z;
  user_utcb : Z;
  pt_oom : option obj;
  worker : option obj;      (** the semaphore of its worker *)
  e_time : Z;
  e_time_m : Z;
}.

Inductive body :=
  | PD (cell : bool)
  | EC (e : ec)
  | SC (e : option obj) (c : sc)
  | PT (e : option obj) (mtd ip id : Z)
  | SM (counter : Z) (si : option obj) (value : Z).

Record kobject := Kobject { k_body : body; k_ref : refcount; k_home : obj * ckind }.

Definition set_body (b : body) (o : kobject) : kobject := Kobject b (k_ref o) (k_home o).
Definition set_ref (r : refcount) (o : kobject) : kobject := Kobject (k_body o) r (k_home o).

(** What other components do next: a scheduling context is queued at its CPU, the
    worker of a context learns of its scheduling context, a worker joins or
    leaves the queue of its cell (with the core of a queue that gets empty), a
    cell is destroyed. *)
Inductive event :=
  | Enqueued (s : obj) | Worker_scheduled (e s : obj)
  | Worker_joins (pd e : obj) | Worker_leaves (pd e : obj) | Cell_destroyed (pd : obj).

Record kernel (E : Type) := Kernel {
  wd : world E;
  kobjs : obj → option kobject;    (** [None]: no object, or no more *)
  log : list event;                (** newest first *)
}.
Arguments Kernel {E}.
Arguments wd {E}.
Arguments kobjs {E}.
Arguments log {E}.

Section kobject.
Context {E : Type} `{PdEnv E} `{ObjEnv E}.
(** The addresses of objects; [Pd::kern] and [Pd::root]. *)
Context (address : obj → Z) (kern root : obj).
Implicit Types (s : kernel E).

Definition set_wd (w : world E) s : kernel E := Kernel w (kobjs s) (log s).
Definition set_kobj (x : obj) (o : option kobject) s : kernel E := Kernel (wd s) (<[x := o]> (kobjs s)) (log s).
Definition note (v : event) s : kernel E := Kernel (wd s) (kobjs s) (v :: log s).

(** An operation on the environment that [payer] pays for. *)
Definition charge (payer : obj) (f : quota → E → quota * E) s : kernel E :=
  let w := wd s in
  let '(q, e) := f (quotas w payer) (env w) in set_wd (set_env e (set_quota payer q w)) s.

(** ** References *)

(** [x->add_ref ()]. *)
Definition ref (x : obj) s : option (bool * kernel E) :=
  o ← kobjs s x;
  let '(ok, r) := add_ref (k_ref o) in
  Some (ok, set_kobj x (Some (set_ref r o)) s).

(** [Refptr (x)] *)
Definition refptr (x : obj) s : option (option obj * kernel E) :=
  '(ok, s) ← ref x s; Some (if ok : bool then Some x else None, s).

(** [x->del_ref ()]. *)
Definition unref (x : obj) s : option (bool * kernel E) :=
  o ← kobjs s x;
  let '(last, r) := del_ref (k_ref o) in
  Some (last, set_kobj x (Some (set_ref r o)) s).

(** [~Refptr ()] *)
Definition drop_ref (p : option obj) s : option (kernel E) :=
  match p with
  | None => Some s
  | Some x =>
    o ← kobjs s x;
    let '(last, r) := del_rcu (k_ref o) in
    let s := set_kobj x (Some (set_ref r o)) s in
    Some (if last : bool then set_wd (rcu_call x (wd s)) s else s)
  end.

(** ** Memory *)

(** [new (...)] with the constructor of [Kobject]: an object in the space of
    [own], from the cache of [home], paid by [payer]. *)
Definition new_kobj (own home payer : obj) (k : ckind) (sel a : Z) (b : body) s : obj * kernel E :=
  let s := charge payer (slab_alloc home k) s in
  let '(x, sp) := new_mdb (Some (subspace own OBJ)) (address (brk (sps (wd s)))) sel 0 a 0 0 0 (sps (wd s)) in
  (x, set_kobj x (Some (Kobject b refcount_new (home, k))) (set_wd (set_sps sp (wd s)) s)).

(** [cache.free (x, payer->quota)] for the cache of [home], with its assertion
    that the slab is one of the cache. *)
Definition release (x home payer : obj) (k : ckind) s : option (kernel E) :=
  o ← kobjs s x;
  if decide (k_home o = (home, k)) then Some (set_kobj x None (charge payer (slab_free home k) s)) else None.

(** The domain of the space of an object. *)
Definition owner (x : obj) s : option obj := pd_of <$> space (node_of (wd s) x).

(** ** Spaces *)

(** [Space_obj::insert_root (payer->quota, x)] *)
Definition insert_root (payer x : obj) s : option (bool * kernel E) :=
  '(ok, sp) ← tree_insert x (sps (wd s));
  let s := set_wd (set_sps sp (wd s)) s in
  if negb ok then Some (false, s)
  else
    let n := node_of (wd s) x in
    sp ← space n;
    if decide (sp = subspace kern OBJ) then Some (true, s)
    else Some (true, charge payer (cap_put (pd_of sp) (node_base n) (capability (address x) (node_attr n))) s).

(** [Space_mem::insert_utcb (quota, mdb_cache, b, phys)] of the domain [pd]. *)
Definition insert_utcb (pd : obj) (b phys : Z) s : option (bool * kernel E) :=
  if (phys =? 0) || (b =? 0) then Some (true, s)
  else
    let s := charge pd (node_alloc pd) s in
    let '(x, sp) := new_mdb (Some (subspace pd MEM)) phys (b >> 12)%W 0 0x3 0 0 0 (sps (wd s)) in
    '(ok, sp) ← tree_insert x sp;
    let s := set_wd (set_sps sp (wd s)) s in
    Some (if ok : bool then (true, s) else (false, charge pd (node_destroy pd) s)).

(** [Space_mem::remove_utcb (b)] *)
Definition remove_utcb (pd : obj) (b : Z) s : option (bool * kernel E) :=
  if b =? 0 then Some (false, s)
  else
    r ← tree_lookup (subspace pd MEM) (b >> 12)%W false (sps (wd s));
    match r with
    | None => Some (false, s)
    | Some x =>
      let w := demote x 0x3 (wd s) in
      let '(rm, m) := remove_node true x (mem (sps w)) in
      let w := set_nodes m w in
      if negb rm then Some (false, set_wd w s)
      else
        '(ok, sp) ← tree_remove x (sps w);
        let w := set_sps sp w in
        Some (ok, set_wd (if ok : bool then rcu_call x w else w) s)
    end.

(** ** Semaphores, portals and scheduling contexts *)

(** [new (home) Sm (own, sel, cnt, si, v)] with the constructor of [Si]. *)
Definition sm_new (own home : obj) (sel cnt : Z) (si : option obj) (v : Z) s : option (obj * kernel E) :=
  match si with
  | None => Some (new_kobj own home home SM_CACHE sel 0x3 (SM cnt None v) s)
  | Some y =>
    '(ok, s) ← ref y s;
    if ok : bool then Some (new_kobj own home home SM_CACHE sel 0x3 (SM cnt (Some y) v) s) else None
  end.

(** [Sm::destroy (x, pd)] of a semaphore that nobody waits for and that is not
    queued as a signal. *)
Fixpoint sm_destroy (fuel : nat) (x pd : obj) s : option (kernel E) :=
  match fuel with
  | O => None
  | S fuel =>
    o ← kobjs s x;
    match k_body o with
    | SM _ si _ =>
      s ← match si with
          | None => Some s
          | Some y =>
            '(last, s) ← unref y s;
            if last : bool then p ← owner y s; sm_destroy fuel y p s else Some s
          end;
      release x pd pd SM_CACHE s
    | _ => None
    end
  end.

(** The domain of a context: [ec->pd]. *)
Definition ec_of (p : option obj) s : option (obj * ec) :=
  x ← p; o ← kobjs s x; match k_body o with EC e => Some (x, e) | _ => None end.
Definition pd_of_ec (p : option obj) s : option obj := '(_, e) ← ec_of p s; e_pd e.

(** [new (ec->pd) Pt (own, sel, ec, mtd, ip)] and [Pt::destroy (x)]. *)
Definition pt_new (own e : obj) (sel mtd ip : Z) s : option (obj * kernel E) :=
  pd ← pd_of_ec (Some e) s;
  '(p, s) ← refptr e s;
  Some (new_kobj own pd pd PT_CACHE sel 0x13 (PT p mtd ip 0) s).

Definition pt_destroy (x : obj) s : option (kernel E) :=
  o ← kobjs s x;
  match k_body o with
  | PT p _ _ _ => pd ← pd_of_ec p s; s ← drop_ref p s; release x pd pd PT_CACHE s
  | _ => None
  end.

(** [new (ec->pd) Sc (own, sel, ec, cpu, prio, quantum)] and [delete x]. *)
Definition sc_create (freq_tsc : Z) (own e : obj) (sel prio quantum : Z) s : option (obj * kernel E) :=
  '(_, d) ← ec_of (Some e) s;
  pd ← e_pd d;
  '(p, s) ← refptr e s;
  Some (new_kobj own pd pd SC_CACHE sel 0x1 (SC p (sc_new freq_tsc e (e_cpu d) prio quantum)) s).

Definition sc_delete (x : obj) s : option (kernel E) :=
  o ← kobjs s x;
  match k_body o with
  | SC p _ => s ← drop_ref p s; pd ← pd_of_ec p s; release x pd pd SC_CACHE s
  | _ => None
  end.

(** ** Execution contexts *)

(** [new (pd) Ec (own, sel, pd, f, cpu, evt, u, esp, oom)] *)
Definition ec_new (own pd : obj) (sel : Z) (f : bool) (cpu evt u esp : Z) (oom : option obj) s : option (obj * kernel E) :=
  '(p, s) ← refptr pd s;
  d ← p;
  '(oom, s) ← match oom with None => Some (None, s) | Some y => refptr y s end;
  let '(x, s) := new_kobj own pd pd EC_CACHE sel 0xd (EC (Ec p f (wrap 16 cpu) evt u oom None 0 0)) s in
  let '(phys, q, e) := ec_setup x pd cpu u esp (quotas (wd s) pd) (env (wd s)) in
  let s := set_wd (set_env e (set_quota pd q (wd s))) s in
  '(_, s) ← (if negb (u =? 0) && bool_decide (pd = root) then insert_utcb pd u (phys >> 12)%W s else Some (true, s));
  Some (x, s).

(** [cont] is set for threads that start by themselves and for virtual CPUs. *)
Definition has_cont (e : ec) : bool := glb e || (user_utcb e =? 0).

Definition cell_of (pd : obj) s : option bool :=
  o ← kobjs s pd; match k_body o with PD c => Some c | _ => None end.

(** [Ec::destroy (x, x->pd)] of a context that never ran. *)
Definition ec_destroy (x : obj) s : option (kernel E) :=
  '(_, e) ← ec_of (Some x) s;
  pd ← e_pd e;
  s ← (if user_utcb e =? 0 then Some s
       else '(_, s) ← remove_utcb pd (user_utcb e) s; Some (charge pd (ec_unmap pd (user_utcb e)) s));
  s ← match pt_oom e with
      | None => Some s
      | Some y => '(last, s) ← unref y s; if last : bool then pt_destroy y s else Some s
      end;
  cell ← cell_of pd s;
  s ← (if negb cell then Some s
       else
         let s := note (Worker_leaves pd x) s in
         match worker e with
         | None => Some s
         | Some m => s ← release m pd pd SM_CACHE s; Some (charge pd (slab_free pd WORKER_CACHE) s)
         end);
  let s := charge pd (ec_cleanup x pd) s in
  s ← drop_ref (Some pd) s;
  release x pd pd EC_CACHE s.

(** ** Domains *)

(** [new (own->quota) Pd (own, sel, a)] *)
Definition pd_new (own : obj) (sel a : Z) s : obj * kernel E :=
  let '(x, s) := new_kobj own kern own PD_CACHE sel a (PD false) s in
  (x, set_wd (set_devs x (Devices (replicate 7 0) 0 1) (set_quota x quota_new (wd s))) s).

(** [delete x]: the destructor, then the quota and the memory. *)
Definition pd_delete (fuel : nat) (x : obj) s : option (kernel E) :=
  w ← pre_free x fuel (wd s);
  let s := charge x (pd_clear x) (set_wd w s) in
  p ← owner x s;
  let '(q, to) := free_up (quotas (wd s) x) (quotas (wd s) p) in
  let s := set_wd (set_quota p to (set_quota x q (wd s))) s in
  release x kern p PD_CACHE s.
End kobject.
