(* ===== verification/Hypercall.v ===== *)
(** Hypercalls that create and control kernel objects: [sys_create_pd],
    [sys_create_ec], [sys_create_sc], [sys_create_pt], [sys_create_sm],
    [sys_sc_ctrl], [sys_pt_ctrl] and [sys_pd_ctrl] of [src/syscall.cpp].

    A handler reads its arguments with the accessors of [Sysargs] from the
    registers of the caller, finds objects through the capabilities of the
    caller's domain, and ends with a status.  [None] is a failed assertion or a
    use of an object that is no more. *)
From S2P Require Import Prelude Bits Bitmap Cpuset Quota Buddy Tip Rcu Vregs Sysargs Crd Queue Sc Avl AvlRemove Mdb Space Derivation HptOps Pd Kobject.
Local Open Scope Z_scope.

Section hypercall.
Context {E : Type} `{PdEnv E} `{ObjEnv E}.
(** The addresses of objects and the object at an address; [Pd::kern], [Pd::root]
    and [Pd::current]; whether the caller has a handler for lack of memory. *)
Context (address : obj → Z) (object_at : Z → option obj) (kern root cur : obj) (has_oom : bool).
(** CPUs that are online, support for virtual CPUs, the frequency of the time
    stamp counter, the frame of the topology pages, and a bound for the loops of
    delegation and revocation. *)
Context (cpu_online : Z → bool) (vcpus : bool) (freq_tsc FRAME_T : Z) (fuel : nat).
(** The times that CPUs spent for others and in contexts that are no more. *)
Context (cross_time killed_time ec_killed_time : Z → Z).
Implicit Types (s : kernel E) (r : Vregs.mem).

#[local] Abbreviation insert_root := (Kobject.insert_root address kern).
#[local] Abbreviation new_kobj := (Kobject.new_kobj address).

(** [Space_obj::lookup (sel)]: the capability, and the object it names, with
    [None] for a null pointer. *)
Definition lookup_cap (sel : Z) s : Z := cap_at cur sel (env (wd s)).

Definition object_of (c : Z) s : option (option (obj * kobject)) :=
  if Crd.obj c =? 0 then Some None
  else x ← object_at (Crd.obj c); o ← kobjs s x; Some (Some (x, o)).

(** An object of the type that the handler asks for. *)
Definition is_pd (k : option (obj * kobject)) : option obj :=
  '(x, o) ← k; match k_body o with PD _ => Some x | _ => None end.
Definition is_ec (k : option (obj * kobject)) : option (obj * ec) :=
  '(x, o) ← k; match k_body o with EC e => Some (x, e) | _ => None end.
Definition is_sc (k : option (obj * kobject)) : option (obj * option obj * sc) :=
  '(x, o) ← k; match k_body o with SC e c => Some (x, e, c) | _ => None end.
Definition is_pt (k : option (obj * kobject)) : option (obj * option obj * Z * Z * Z) :=
  '(x, o) ← k; match k_body o with PT e m i d => Some (x, e, m, i, d) | _ => None end.
Definition is_sm (k : option (obj * kobject)) : option (obj * option obj) :=
  '(x, o) ← k; match k_body o with SM _ si _ => Some (x, si) | _ => None end.

(** [cap.prm() & 1UL << t] *)
Definition may (c t : Z) : bool := truthy (Crd.prm c .& (1 << t))%W.

Definition over_limit (pd : obj) (n : Z) s : bool := hit_limit (quotas (wd s) pd) n.

(** [Ec::check<C> (n, call)] before the rest of a handler. *)
Definition checked (n : Z) (call : bool) s (k : option (outcome * kernel E)) : option (outcome * kernel E) :=
  match check (over_limit cur n s) has_oom call with Some o => Some (o, s) | None => k end.

(** ** Semaphores *)

Definition sys_create_sm r s : option (outcome * kernel E) := checked 0 false s (
  let cap := lookup_cap (Sys_create_sm_pd r) s in
  k ← object_of cap s;
  match is_pd k with
  | None => Some (Finish BAD_CAP, s)
  | Some pd =>
    if negb (may cap T_SM) then Some (Finish BAD_CAP, s)
    else if over_limit pd 1 s then Some (Finish QUO_OOM, s)
    else
      c ← (if Sys_create_sm_sm r =? 0 then Some (Some (Sys_create_sm_cnt r, None, 0))
           else
             k ← object_of (lookup_cap (Sys_create_sm_sm r) s) s;
             Some (match is_sm k with
                   | Some (si, None) => Some (0, Some si, Sys_create_sm_cnt r)
                   | _ => None
                   end));
      match c with
      | None => Some (Finish BAD_CAP, s)
      | Some (cnt, si, v) =>
        '(x, s) ← sm_new address cur cur (Sys_create_sm_sel r) cnt si v s;
        '(ok, s) ← insert_root pd x s;
        if negb ok then s ← sm_destroy 2 x pd s; Some (Finish BAD_CAP, s)
        else Some (Finish SUCCESS, s)
      end
  end).

(** ** Portals *)

Definition sys_create_pt r s : option (outcome * kernel E) := checked 0 false s (
  if USER_ADDR <=? Sys_create_pt_eip r then Some (Finish BAD_PAR, s)
  else
    let cap := lookup_cap (Sys_create_pt_pd r) s in
    k ← object_of cap s;
    match is_pd k with
    | None => Some (Finish BAD_CAP, s)
    | Some pd =>
      if negb (may cap T_PT) then Some (Finish BAD_CAP, s)
      else if over_limit pd 2 s then Some (Finish QUO_OOM, s)
      else
        let cap_ec := lookup_cap (Sys_create_pt_ec r) s in
        k ← object_of cap_ec s;
        match is_ec k with
        | None => Some (Finish BAD_CAP, s)
        | Some (x, e) =>
          if negb (may cap_ec T_PT) then Some (Finish BAD_CAP, s)
          else if glb e then Some (Finish BAD_CAP, s)
          else
            '(pt, s) ← pt_new address cur x (Sys_create_pt_sel r) (Sys_create_pt_mtd r) (Sys_create_pt_eip r) s;
            '(ok, s) ← insert_root pd pt s;
            if negb ok then s ← pt_destroy pt s; Some (Finish BAD_CAP, s)
            else Some (Finish SUCCESS, s)
        end
    end).

(** ** Scheduling contexts *)

Definition sys_create_sc r s : option (outcome * kernel E) := checked 0 false s (
  let cap := lookup_cap (Sys_create_sc_pd r) s in
  k ← object_of cap s;
  match is_pd k with
  | None => Some (Finish BAD_CAP, s)
  | Some pd =>
    if negb (may cap T_SC) then Some (Finish BAD_CAP, s)
    else if over_limit pd 2 s then Some (Finish QUO_OOM, s)
    else
      let cap_sc := lookup_cap (Sys_create_sc_ec r) s in
      k ← object_of cap_sc s;
      match is_ec k with
      | None => Some (Finish BAD_CAP, s)
      | Some (x, e) =>
        let p := Crd.prio (Sys_create_sc_qpd r) in
        let q := Crd.quantum (Sys_create_sc_qpd r) in
        if negb (may cap_sc T_SC) then Some (Finish BAD_CAP, s)
        else if negb (glb e) then Some (Finish BAD_CAP, s)
        else if (p =? 0) || (q =? 0) || (priorities <=? p) then Some (Finish BAD_PAR, s)
        else
          '(sc, s) ← sc_create address freq_tsc cur x (Sys_create_sc_sel r) p q s;
          '(ok, s) ← insert_root pd sc s;
          if negb ok then s ← sc_delete sc s; Some (Finish BAD_CAP, s)
          else
            d ← ec_of (Some x) s;
            let s := match worker d.2 with None => s | Some _ => note (Worker_scheduled x sc) s end in
            Some (Finish SUCCESS, note (Enqueued sc) s)
      end
  end).

(** ** Execution contexts *)

Definition set_worker (m : option obj) (e : ec) : ec :=
  Ec (e_pd e) (glb e) (e_cpu e) (evt e) (user_utcb e) (pt_oom e) m (e_time e) (e_time_m e).

(** A context of a cell that runs by itself gets a worker with a semaphore. *)
Definition add_worker (pd x : obj) s : option (kernel E) :=
  cell ← cell_of pd s;
  '(_, e) ← ec_of (Some x) s;
  if cell && has_cont e then
    let s := charge pd (slab_alloc pd WORKER_CACHE) s in
    '(m, s) ← sm_new address pd pd 0 0 None 0 s;
    o ← kobjs s x;
    Some (note (Worker_joins pd x) (set_kobj x (Some (set_body (EC (set_worker (Some m) e)) o)) s))
  else Some s.

Definition sys_create_ec r s : option (outcome * kernel E) := checked 0 false s (
  if negb (cpu_online (Sys_create_ec_cpu r)) then Some (Finish BAD_CPU, s)
  else if (Sys_create_ec_utcb r =? 0) && negb vcpus then Some (Finish BAD_FTR, s)
  else
    let cap := lookup_cap (Sys_create_ec_pd r) s in
    k ← object_of cap s;
    match is_pd k with
    | None => Some (Finish BAD_CAP, s)
    | Some pd =>
      let u := Sys_create_ec_utcb r in
      if negb (may cap T_EC) then Some (Finish BAD_CAP, s)
      else if over_limit pd 7 s then Some (Finish QUO_OOM, s)
      else if (USER_ADDR <=? u) || truthy (u .& (PAGE_SIZE - 1))%W then Some (Finish BAD_PAR, s)
      else
        '(ok, s) ← insert_utcb pd u 0 s;
        if negb ok then Some (Finish BAD_PAR, s)
        else
          k ← object_of (lookup_cap (Sys_create_ec_sel r + 1)%W s) s;
          let pt := '(y, _, _, _, _) ← is_pt k; Some y in
          '(x, s) ← ec_new address root cur pd (Sys_create_ec_sel r) (truthy (Vregs.flags r .& 1)%W)
                      (Sys_create_ec_cpu r) (Sys_create_ec_evt r) u (Sys_create_ec_esp r) pt s;
          '(ok, s) ← insert_root pd x s;
          if negb ok then s ← ec_destroy x s; Some (Finish BAD_CAP, s)
          else s ← add_worker pd x s; Some (Finish SUCCESS, s)
    end).

(** ** Protection domains *)

(** [Tip::delegate_to_userspace (pd)] *)
Fixpoint delegate_all (pd : obj) (l : list (Z * Z * Z)) (w : world E) : option (world E) :=
  match l with
  | [] => Some w
  | (p, v, o) :: l => '(_, w) ← delegate MEM pd kern p v o 1 0 fuel w; delegate_all pd l w
  end.

(** The end of the handler when memory ran out. *)
Definition no_memory_left (x : obj) s : option (outcome * kernel E) :=
  let s := set_wd (set_hazard (hazard (wd s) .& wnot HZD_OOM)%W (wd s)) s in
  s ← pd_delete kern fuel x s; Some (Finish QUO_OOM, s).

Definition sys_create_pd r s : option (outcome * kernel E) := checked 0 false s (
  let cap := lookup_cap (Sys_create_pd_pd r) s in
  k ← object_of cap s;
  match is_pd k with
  | None => Some (Finish BAD_CAP, s)
  | Some pd_src =>
    if negb (may cap T_PD) then Some (Finish BAD_CAP, s)
    else if Sys_create_pd_limit_upper r <? Sys_create_pd_limit_lower r then Some (Finish BAD_PAR, s)
    else if over_limit pd_src 1 s then Some (Finish QUO_OOM, s)
    else
      let '(x, s) := pd_new address kern cur (Sys_create_pd_sel r) (Crd.prm cap) s in
      let '(ok, q, from) := set_limit (quotas (wd s) x) (Sys_create_pd_limit_lower r) (Sys_create_pd_limit_upper r)
                              (quotas (wd s) pd_src) in
      let s := set_wd (set_quota pd_src from (set_quota x q (wd s))) s in
      if negb ok then s ← pd_delete kern fuel x s; Some (Finish BAD_PAR, s)
      else
        '(ok, s) ← insert_root x x s;
        if negb ok then s ← pd_delete kern fuel x s; Some (Finish BAD_CAP, s)
        else if pending HZD_OOM (wd s) then no_memory_left x s
        else
          '(_, w) ← del_crd x cur fuel (crd_all (type_val OBJ)) (Sys_create_pd_crd r) 0 0 (wd s);
          l ← delegate_to_userspace FRAME_T USER_ADDR;
          w ← delegate_all x l w;
          let s := set_wd w s in
          if pending HZD_OOM (wd s) then no_memory_left x s
          else Some (Finish SUCCESS, s)
  end).

(** ** Control *)

Definition sys_pt_ctrl r s : option (outcome * kernel E) := checked 1 true s (
  let cap := lookup_cap (Sys_pt_ctrl_pt r) s in
  k ← object_of cap s;
  match is_pt k with
  | Some (x, e, m, i, _) =>
    if truthy (Crd.prm cap .& 1)%W then
      o ← kobjs s x;
      Some (Finish SUCCESS, set_kobj x (Some (set_body (PT e m i (Sys_pt_ctrl_id r)) o)) s)
    else Some (Finish BAD_CAP, s)
  | None => Some (Finish BAD_CAP, s)
  end).

(** The registers of the caller change as well. *)
Definition sys_pd_ctrl r s : option (outcome * Vregs.mem * kernel E) :=
  match check (over_limit cur 1 s) has_oom true with Some o => Some (o, r, s) | None =>
  k ← object_of (lookup_cap (Sys_pd_ctrl_src r) s) s;
  match is_pd k with
  | None => Some (Finish BAD_CAP, r, s)
  | Some src =>
    let q := quotas (wd s) src in
    if truthy (Sys_pd_ctrl_dbg r) then Some (Finish SUCCESS, Sys_pd_ctrl_dump (limit q) (usage q) r, s)
    else if truthy (Sys_pd_ctrl_del r) then
      cell ← cell_of src s;
      if negb cell then Some (Finish BAD_PAR, r, s)
      else
        o ← kobjs s src;
        Some (Finish SUCCESS, r, note (Cell_destroyed src) (set_kobj src (Some (set_body (PD false) o)) s))
    else
      k ← object_of (lookup_cap (Sys_pd_ctrl_dst r) s) s;
      match is_pd k with
      | None => Some (Finish BAD_CAP, r, s)
      | Some dst =>
        (* both quotas may be one *)
        match transfer_out q (Sys_pd_ctrl_tra r) true with
        | None => Some (Finish BAD_PAR, r, s)
        | Some (q, o) =>
          let w := set_quota src q (wd s) in
          Some (Finish SUCCESS, r, set_wd (set_quota dst (transfer_in (quotas w dst) (Sys_pd_ctrl_tra r) o) w) s)
        end
      end
  end end.

Definition sys_sc_ctrl r s : option (outcome * Vregs.mem * kernel E) :=
  match check (over_limit cur 1 s) has_oom true with Some o => Some (o, r, s) | None =>
  let cap := lookup_cap (Sys_sc_ctrl_sc r) s in
  k ← object_of cap s;
  match is_sc k with
  | None => Some (Finish BAD_CAP, r, s)
  | Some (x, e, c) =>
    if negb (may cap 0) then Some (Finish BAD_CAP, r, s)
    else
      let op := Sys_sc_ctrl_op r in
      o ← kobjs s x;
      match (if negb (op =? 0) && bool_decide (space (node_of (wd s) x) = Some (subspace kern OBJ)) then
               if op =? 1 then Some (cross_time (sc_cpu c), 0, s)
               else if op =? 2 then Some (killed_time (sc_cpu c), 0, s)
               else if op =? 3 then Some (killed_time (sc_cpu c), ec_killed_time (sc_cpu c), s)
               else None
             else Some (time c, 0, set_kobj x (Some (set_body (SC e (measured c)) o)) s)) with
      | None => Some (Finish BAD_PAR, r, s)
      | Some (sc_time, ec_time, s) =>
      if op =? 3 then
        '(ec_time, s) ←
          (if ec_time =? 0 then
             k ← object_of (lookup_cap (Sys_sc_ctrl_ec r) s) s;
             match is_ec k with
             | None => Some (ec_time, s)
             | Some (y, d) =>
               o ← kobjs s y;
               Some (e_time d, set_kobj y (Some (set_body (EC (Ec (e_pd d) (glb d) (e_cpu d) (evt d) (user_utcb d)
                                                                 (pt_oom d) (worker d) (e_time d) (e_time d))) o)) s)
             end
           else Some (ec_time, s));
        Some (Finish SUCCESS,
              Sys_sc_ctrl_set_time2 (div64 (sc_time * 1000)%W freq_tsc).1 (div64 (ec_time * 1000)%W freq_tsc).1 r, s)
      else Some (Finish SUCCESS, Sys_sc_ctrl_set_time (div64 (sc_time * 1000)%W freq_tsc).1 r, s)
      end
  end end.
End hypercall.
