(* ===== verification/HypercallSound.v ===== *)
(** The kernel objects stay sound: what the hypercalls of [Hypercall] keep and
    what they add.

    In a sound kernel every capability names an object that exists, every object
    lies in a slab of the cache that its destructor gives it back to, contexts
    belong to domains, and portals and scheduling contexts to contexts. *)
From S2P Require Import Prelude Bits Bitmap Cpuset Quota Buddy Tip Rcu Vregs Sysargs Crd Queue Sc Avl AvlRemove Mdb Space Derivation HptOps Pd Kobject Hypercall.
Local Open Scope Z_scope.

(** ** A root enters a space *)

Lemma rings_root m R x : rings_inv m R → x ∉ mjoin R → mdb_prev (m x) = x → mdb_next (m x) = x →
  prnt (m x) = None → rings_inv m (R ++ [[x]]).
Proof.
  intros [Hring Hnd Hroot] Hx Hp Hn Hpr. split.
  - intros r [Hr|Hr]%elem_of_app; [by apply Hring|]. apply list_elem_of_singleton in Hr as ->. split.
    + split; [apply NoDup_singleton|]. simpl. by rewrite Hn, Hp.
    + intros l1 y l2 E Hl. destruct l1 as [|z [|]]; done.
  - rewrite join_app. simpl. apply list.NoDup_app. split_and!; [done| |apply NoDup_singleton].
    by intros y Hy ->%list_elem_of_singleton.
  - intros y l [Hl|Hl]%elem_of_app; [by apply (Hroot y l)|]. apply list_elem_of_singleton in Hl as [= -> ->]. done.
Qed.

Lemma system_root sp L R s l x t :
  system sp L R → spaces_inv (set_tree t sp) (<[s := l]> L) → l ≡ₚ x :: L s →
  space (mem sp x) = Some s → node_ok (mem sp x) → (x ∉ mjoin R) →
  mdb_prev (mem sp x) = x → mdb_next (mem sp x) = x → prnt (mem sp x) = None →
  system (set_tree t sp) (<[s := l]> L) (R ++ [[x]]).
Proof.
  intros [_ HR Hin Hhome Hok] HV Hl Hs Hx HnR Hp Hn Hpr.
  assert (∀ s' y, y ∈ <[s := l]> L s' → y = x ∧ s' = s ∨ y ∈ L s') as HL.
  { intros s' y. destruct (decide (s' = s)) as [->|]; [|rewrite fn_lookup_insert_ne by done; by right].
    rewrite fn_lookup_insert, Hl. intros [->|]%elem_of_cons; [by left|by right]. }
  split; simpl; [done|by apply rings_root| | |].
  - intros y. rewrite join_app, elem_of_app, Hin. simpl. rewrite list_elem_of_singleton. split.
    + intros [(s' & Hy)| ->].
      * exists s'. destruct (decide (s' = s)) as [->|]; [rewrite fn_lookup_insert, Hl; by right|by rewrite fn_lookup_insert_ne].
      * exists s. rewrite fn_lookup_insert, Hl. left.
    + intros (s' & [[-> ->]|Hy]%HL); eauto.
  - intros s' y [[-> ->]|Hy]%HL; [by left|]. destruct (Hhome s' y Hy) as [?|(? & k & Hk)]; [by left|right].
    split; [done|]. exists k. apply elem_of_app. by left.
  - intros s' y [[-> ->]|Hy]%HL; [done|by apply (Hok s')].
Qed.

(** ** What the environment promises

    [SpaceObjSound.obj_update] shows the first law of the tables of capabilities
    in page tables; no other operation touches them. *)
Class ObjEnvOk (E : Type) `{PdEnv E} `{ObjEnv E} := {
  cap_at_put p i c q e p' i' :
    cap_at p' i' (cap_put p i c q e).2 = if decide (p' = p ∧ i' = i) then c else cap_at p' i' e;
  cap_at_alloc h k q e p i : cap_at p i (slab_alloc h k q e).2 = cap_at p i e;
  cap_at_free h k q e p i : cap_at p i (slab_free h k q e).2 = cap_at p i e;
  cap_at_setup x pd c u sp q e p i : cap_at p i (ec_setup x pd c u sp q e).2 = cap_at p i e;
  cap_at_unmap pd u q e p i : cap_at p i (ec_unmap pd u q e).2 = cap_at p i e;
  cap_at_cleanup x pd q e p i : cap_at p i (ec_cleanup x pd q e).2 = cap_at p i e;
  cap_at_clear x q e p i : cap_at p i (pd_clear x q e).2 = cap_at p i e;
  cap_at_node_alloc pd q e p i : cap_at p i (node_alloc pd q e).2 = cap_at p i e;
  cap_at_node_destroy pd q e p i : cap_at p i (node_destroy pd q e).2 = cap_at p i e;
  setup_frame x pd c u sp q e : word 64 (ec_setup x pd c u sp q e).1.1;
  cap_at_flush r pd e p i : cap_at p i (iommu_flush r pd e) = cap_at p i e;
}.

Section sound.
Context {E : Type} `{PdEnv E} `{ObjEnv E} `{!ObjEnvOk E}.
Context (address : obj → Z) (object_at : Z → option obj) (kern root cur : obj).
Implicit Types (s : kernel E) (w : world E).

(** Objects lie at distinct addresses, aligned to 32 bytes. *)
Hypothesis addresses : ∀ x, Z.of_nat x < 2 ^ 58 →
  object_at (address x) = Some x ∧ word 64 (address x) ∧ address x mod 32 = 0 ∧ address x ≠ 0.
Hypothesis user : cur ≠ kern.

Definition caps s (p : obj) (i : Z) : Z := cap_at p i (env (wd s)).

(** *** Sound kernels *)

(** What an object is, what it refers to, and the cache it comes from. *)
Definition sort (b : body) : Z * option obj :=
  match b with
  | PD _ => (T_PD, None) | EC e => (T_EC, e_pd e) | SC e _ => (T_SC, e) | PT e _ _ _ => (T_PT, e) | SM _ si _ => (T_SM, si)
  end.
Definition shape s x : option ((Z * option obj) * (obj * ckind)) := (λ o, (sort (k_body o), k_home o)) <$> kobjs s x.
Definition is_kind s x (t : Z) : Prop := ∃ p h, shape s x = Some ((t, p), h).
Definition context_in s (p : option obj) (pd : obj) : Prop := ∃ e h, p = Some e ∧ shape s e = Some ((T_EC, Some pd), h).

Definition sound_obj s (x : obj) (o : kobject) : Prop :=
  match k_body o with
  | PD _ => k_home o = (kern, PD_CACHE)
  | EC e => ∃ pd, e_pd e = Some pd ∧ is_kind s pd T_PD ∧ k_home o = (pd, EC_CACHE) ∧
      (∀ y, pt_oom e = Some y → is_kind s y T_PT) ∧
      (∀ m, worker e = Some m → ∃ p, shape s m = Some ((T_SM, p), (pd, SM_CACHE)))
  | SC p _ => ∃ pd, context_in s p pd ∧ k_home o = (pd, SC_CACHE)
  | PT p _ _ _ => ∃ pd, context_in s p pd ∧ k_home o = (pd, PT_CACHE)
  | SM _ si _ => (∃ p, space (node_of (wd s) x) = Some (subspace p OBJ) ∧ k_home o = (p, SM_CACHE)) ∧
      ∀ y, si = Some y → is_kind s y T_SM
  end.

(** The spaces and derivations are sound, and nodes in the memory of a domain of
    users know where they are. *)
Definition homes (sp : spaces) (L : nat → list obj) : Prop :=
  ∀ p x, p ≠ kern → x ∈ L (subspace p MEM) → space (mem sp x) = Some (subspace p MEM).
Definition placed (sp : spaces) : Prop := ∃ L R, system sp L R ∧ homes sp L.

(** [n] more hypercalls find names for what they create. *)
Record sound (n : nat) s : Prop := {
  so_sys : placed (sps (wd s));
  so_brk : Z.of_nat (brk (sps (wd s))) + 3 * Z.of_nat n < 2 ^ 58;
  so_caps p i : Crd.obj (caps s p i) ≠ 0 → ∃ x, object_at (Crd.obj (caps s p i)) = Some x ∧ x ≠ kern ∧ is_Some (kobjs s x);
  so_obj x o : kobjs s x = Some o → sound_obj s x o;
  so_ref x o : kobjs s x = Some o → 0 < k_ref o ∧ k_ref o + Z.of_nat n < 2 ^ 32 - 1;
  so_live x : is_Some (kobjs s x) → (x < brk (sps (wd s)))%nat;
  so_cur : is_kind s cur T_PD;
  so_kern : (kern < brk (sps (wd s)))%nat;
}.

(** *** Steps that keep a kernel sound *)

(** The data that [sound_obj] speaks of. *)
Definition alike (o o' : kobject) : Prop :=
  sort (k_body o') = sort (k_body o) ∧ k_home o' = k_home o ∧
  match k_body o, k_body o' with EC e, EC e' => pt_oom e' = pt_oom e ∧ worker e' = worker e | _, _ => True end.

Lemma alike_refl o : alike o o.
Proof. unfold alike. by destruct (k_body o). Qed.

Lemma shape_mono s s' x o o' : (∀ y v, shape s y = Some v → shape s' y = Some v) →
  space (node_of (wd s') x) = space (node_of (wd s) x) → alike o o' → sound_obj s x o → sound_obj s' x o'.
Proof.
  intros Hm Hn (Hs & Hh & Ho). unfold sound_obj, is_kind, context_in. rewrite Hn, Hh.
  destruct (k_body o) as [?|e|? ?|? ? ? ?|? ? ?], (k_body o') as [?|e'|? ?|? ? ? ?|? ? ?]; try discriminate Hs;
    try (injection Hs as Hs; rewrite Hs); [done| | | |].
  - destruct Ho as [-> ->]. intros (pd & He & (p & h & Hp) & Hk & Hy & Hw). exists pd. split_and!; [done|by eauto|done| |].
    + intros y (p' & h' & ?)%Hy. eauto.
    + intros m (p' & ?)%Hw. eauto.
  - intros (pd & (z & h & -> & Hc) & Hk). exists pd. split; [|done]. exists z, h. eauto.
  - intros (pd & (z & h & -> & Hc) & Hk). exists pd. split; [|done]. exists z, h. eauto.
  - intros [Hp Hy]. split; [done|]. intros y (p' & h' & ?)%Hy. eauto.
Qed.

(** Objects are added, with capabilities for them, and gain at most one
    reference. *)
Record grown s s' : Prop := {
  gr_old y o : kobjs s y = Some o → ∃ o', kobjs s' y = Some o' ∧ alike o o' ∧ k_ref o ≤ k_ref o' ≤ k_ref o + 1;
  gr_new y o : kobjs s y = None → kobjs s' y = Some o → sound_obj s' y o ∧ k_ref o = 1 ∧ (y < brk (sps (wd s')))%nat;
  gr_caps p i : caps s' p i = caps s p i ∨ ∃ x a, caps s' p i = capability (address x) a ∧ word 64 a ∧
    is_Some (kobjs s' x) ∧ (brk (sps (wd s)) ≤ x)%nat;
  gr_nodes x : (x < brk (sps (wd s)))%nat → space (node_of (wd s') x) = space (node_of (wd s) x);
  gr_brk : (brk (sps (wd s)) ≤ brk (sps (wd s')) ≤ brk (sps (wd s)) + 3)%nat;
  gr_sys : placed (sps (wd s'));
}.

Lemma sound_grown n s s' : sound (S n) s → grown s s' → sound n s'.
Proof.
  intros [S1 S2 S3 S4 S5 S6 S7 S8] [Ho Hw Hc Hn Hb Hs].
  assert (∀ y v, shape s y = Some v → shape s' y = Some v) as Hsh.
  { intros y v. unfold shape. destruct (kobjs s y) as [o|] eqn:Ey; [|done]. destruct (Ho y o Ey) as (o' & -> & (Ha & Hh & _) & _).
    simpl. by rewrite Ha, Hh. }
  assert (∀ x, is_Some (kobjs s' x) → (x < brk (sps (wd s')))%nat) as Hlive.
  { intros x [o Hx]. destruct (kobjs s x) as [o0|] eqn:E0; [|by apply (Hw x o)].
    assert (x < brk (sps (wd s)))%nat by (apply S6; by eexists). lia. }
  assert (∀ x, is_Some (kobjs s x) → is_Some (kobjs s' x)) as Hkeep.
  { intros x [o Hx]. destruct (Ho x o Hx) as (o' & -> & _). by eexists. }
  split; [done|lia| | | |done| |lia].
  - intros p i. destruct (Hc p i) as [->|(x & a & -> & Ha & Hx & Hge)].
    + intros (x & ? & ? & Hx)%S3. exists x. auto.
    + pose proof (Hlive x Hx). destruct (addresses x) as (Hat & Hwd & Hal & _); [lia|].
      destruct (capability_roundtrip (address x) a Hwd Hal Ha) as [-> _]. destruct (truthy a); [|done]. intros _. exists x. split_and!; [done|lia|done].
  - intros x o Hx. destruct (kobjs s x) as [o0|] eqn:E0; [|by apply Hw].
    destruct (Ho x o0 E0) as (o' & E' & Hal & _). rewrite E' in Hx. injection Hx as ->.
    apply (shape_mono s s' x o0); [done| |done|by apply S4]. apply Hn, S6. by eexists.
  - intros x o Hx. destruct (kobjs s x) as [o0|] eqn:E0.
    + destruct (Ho x o0 E0) as (o' & E' & _ & Hr). rewrite E' in Hx. injection Hx as ->. pose proof (S5 x o0 E0). lia.
    + destruct (Hw x o E0 Hx) as (_ & -> & _). pose proof (S5 cur). destruct S7 as (p & h & S7).
      unfold shape in S7. destruct (kobjs s cur) as [oc|]; [|done]. specialize (H1 oc eq_refl). lia.
  - destruct S7 as (p & h & S7). exists p, h. by apply Hsh.
Qed.

(** The same capabilities; nodes that were there are in their spaces. *)
Record quiet s s' : Prop := {
  qu_caps p i : caps s' p i = caps s p i;
  qu_nodes x : (x < brk (sps (wd s)))%nat → space (node_of (wd s') x) = space (node_of (wd s) x);
  qu_brk : (brk (sps (wd s)) ≤ brk (sps (wd s')) ≤ brk (sps (wd s)) + 3)%nat;
  qu_sys : placed (sps (wd s'));
}.

(** And the same objects. *)
Definition same s s' : Prop := (∀ x, kobjs s' x = kobjs s x) ∧ quiet s s'.

Lemma same_grown s s' : same s s' → grown s s'.
Proof.
  intros [Hk [Hc Hn Hb Hs]]. split; [| |by left|done|done|done].
  - intros y o Hy. exists o. rewrite Hk. split_and!; [done|apply alike_refl|lia..].
  - intros y o Hy. by rewrite Hk, Hy.
Qed.

Lemma quiet_step s s1 s2 : quiet s s1 → (∀ p i, caps s2 p i = caps s1 p i) →
  (∀ y, space (node_of (wd s2) y) = space (node_of (wd s1) y)) → brk (sps (wd s2)) = brk (sps (wd s1)) →
  placed (sps (wd s2)) → quiet s s2.
Proof.
  intros [Hc Hn Hb Hs] Hc2 Hn2 Hb2 Hs2. split; [intros p i; by rewrite Hc2| |by rewrite Hb2|done].
  intros x Hx. rewrite Hn2. by apply Hn.
Qed.

(** *** New objects *)

Lemma charge_run payer f s : (∀ q e p i, cap_at p i (f q e).2 = cap_at p i e) →
  kobjs (charge payer f s) = kobjs s ∧ sps (wd (charge payer f s)) = sps (wd s) ∧
  ∀ p i, caps (charge payer f s) p i = caps s p i.
Proof.
  intros Hf. unfold charge, caps. pose proof (Hf (quotas (wd s) payer) (env (wd s))) as Hf'.
  destruct (f _ _) as [q e]. done.
Qed.

(** A new object [x] that is in no space yet. *)
Record fresh_root (own x : obj) (sel a : Z) (b : body) (h : obj * ckind) s s1 (L : nat → list obj) (R : list (list obj)) : Prop := {
  fr_name : x = brk (sps (wd s));
  fr_kobjs y : kobjs s1 y = if decide (y = x) then Some (Kobject b refcount_new h) else kobjs s y;
  fr_caps p i : caps s1 p i = caps s p i;
  fr_sys : system (sps (wd s1)) L R;
  fr_homes : homes (sps (wd s1)) L;
  fr_brk : (brk (sps (wd s)) < brk (sps (wd s1)) ≤ brk (sps (wd s)) + 2)%nat;
  fr_node : node_of (wd s1) x = mdb_new x (Some (subspace own OBJ)) (address x) sel 0 a 0 0 0;
  fr_nodes y : (y < brk (sps (wd s)))%nat → space (node_of (wd s1) y) = space (node_of (wd s) y);
  fr_tree : fresh_node (tree (sps (wd s1))) x;
  fr_out : (∀ k, x ∉ L k) ∧ (x ∉ mjoin R);
}.

Lemma new_kobj_run own home payer k sel a b s L R : system (sps (wd s)) L R → homes (sps (wd s)) L → Z.of_nat (brk (sps (wd s))) + 1 < 2 ^ 64 →
  ∃ s1, new_kobj address own home payer k sel a b s = (brk (sps (wd s)), s1) ∧
    brk (sps (wd s1)) = S (brk (sps (wd s))) ∧ fresh_root own (brk (sps (wd s))) sel a b (home, k) s s1 L R.
Proof.
  intros HY HH Hb. unfold new_kobj. destruct (charge_run payer (slab_alloc home k) s) as (Hk & Hs & Hc); [intros; apply cap_at_alloc|].
  set (s0 := charge payer (slab_alloc home k) s) in *. rewrite Hs.
  destruct (new_mdb (Some (subspace own OBJ)) (address (brk (sps (wd s)))) sel 0 a 0 0 0 (sps (wd s))) as [x sp] eqn:En.
  destruct (system_new _ _ _ _ _ _ _ _ _ _ _ _ _ HY En Hb) as (HY' & Hf & -> & Hb' & Hx & Hy & HL & HR).
  eexists. split; [reflexivity|]. split; [done|]. split; try done; cbn [kobjs set_kobj set_wd wd sps set_sps].
  - intros y. rewrite Hk. destruct (decide (y = _)) as [->|]; [by rewrite fn_lookup_insert|by rewrite fn_lookup_insert_ne].
  - intros p y Hp Hin. rewrite Hy by (intros ->; by apply (HL (subspace p MEM))). by apply HH.
  - lia.
  - intros y Hlt. unfold node_of. simpl. rewrite Hy; [done|lia].
Qed.

Lemma insert_root_run own payer x sel a b h s s1 L R : fresh_root own x sel a b h s s1 L R → own ≠ kern →
  0 ≤ sel → sel + 1 < 2 ^ 64 → Z.of_nat x < 2 ^ 58 →
  ∃ ok s2, insert_root address kern payer x s1 = Some (ok, s2) ∧ kobjs s2 = kobjs s1 ∧
    brk (sps (wd s2)) = brk (sps (wd s1)) ∧ (∀ y, node_of (wd s2) y = node_of (wd s1) y) ∧
    (∃ L' R', system (sps (wd s2)) L' R' ∧ homes (sps (wd s2)) L' ∧ ∀ k, k ≠ subspace own OBJ → L' k = L k) ∧
    ∀ p i, caps s2 p i = if decide (ok = true ∧ p = own ∧ i = sel) then capability (address x) a else caps s1 p i.
Proof.
  intros HF Hown Hsel Hsel' Hx. pose proof HF as [-> _ _ HY HH _ Hn _ Hf [HL HR]]. unfold insert_root.
  destruct (addresses (brk (sps (wd s))) Hx) as (_ & Ha & _). set (x := brk (sps (wd s))) in *. unfold node_of in Hn.
  assert (node_ok (mem (sps (wd s1)) x)) as Hok.
  { rewrite Hn. unfold node_ok, word in *. simpl. rewrite Z.mod_1_r. lia. }
  destruct (spaces_insert (sps (wd s1)) L (subspace own OBJ) x) as [Hi|(t & l & Hi & HV & Hl)];
    [apply HY|by rewrite Hn| |done|done| | |].
  - unfold region_wf. rewrite Hn. split; simpl; [lia|by rewrite Z.mod_1_r].
  - pose proof (fr_brk _ _ _ _ _ _ _ _ _ _ HF). unfold x. lia.
  - rewrite Hi. cbn [mbind option_bind negb]. eexists false, _. split; [reflexivity|].
    cbn [kobjs wd set_wd sps set_sps]. split_and!; [done..|by exists L, R|]. intros p i. rewrite decide_False by (by intros []). done.
  - rewrite Hi. cbn [mbind option_bind negb]. unfold node_of. cbn [wd set_wd sps set_sps mem set_tree]. rewrite Hn.
    cbn [space mdb_new mbind option_bind node_base node_attr].
    rewrite decide_False by (unfold subspace; lia).
    assert (pd_of (subspace own OBJ) = own) as ->.
    { unfold pd_of, subspace. rewrite Nat.mul_comm, Nat.div_add_l by done. simpl. lia. }
    set (s2 := set_wd (set_sps (set_tree t (sps (wd s1))) (wd s1)) s1).
    assert (system (set_tree t (sps (wd s1))) (<[subspace own OBJ := l]> L) (R ++ [[x]])) as HY2.
    { apply (system_root (sps (wd s1)) L R (subspace own OBJ) l x t); try done; rewrite Hn; done. }
    pose proof (cap_at_put own sel (capability (address x) a) (quotas (wd s2) payer) (env (wd s2))) as Hput.
    eexists true, _. split; [reflexivity|]. unfold charge. fold s2. destruct (cap_put _ _ _ _ _) as [q e]. simpl in Hput.
    cbn [kobjs wd set_wd]. split_and!; [done|done|done| |].
    + exists (<[subspace own OBJ := l]> L), (R ++ [[x]]). split; [exact HY2|]. split.
      * intros p y Hp. rewrite fn_lookup_insert_ne by (unfold subspace; lia). by apply HH.
      * intros k Hk. by rewrite fn_lookup_insert_ne.
    + intros p i. unfold caps. cbn [wd set_wd set_env env]. rewrite Hput.
      destruct (decide (p = own ∧ i = sel)), (decide (true = true ∧ p = own ∧ i = sel)); tauto || done.
Qed.

(** *** Finding objects and counting references *)

Lemma object_of_run n s sel : sound n s →
  ∃ k, object_of object_at (lookup_cap cur sel s) s = Some k ∧ ∀ x o, k = Some (x, o) → kobjs s x = Some o ∧ x ≠ kern.
Proof.
  intros HS. unfold object_of. change (lookup_cap cur sel s) with (caps s cur sel).
  destruct (Z.eqb_spec (Crd.obj (caps s cur sel)) 0) as [|Hne]; [by exists None|].
  destruct (so_caps _ _ HS cur sel Hne) as (x & -> & Hkern & [o Ho]). cbn [mbind option_bind]. rewrite Ho. cbn [mbind option_bind].
  exists (Some (x, o)). split; [done|]. by intros ? ? [= <- <-].
Qed.

Lemma kobjs_set x v s y : kobjs (set_kobj x v s) y = if decide (y = x) then v else kobjs s y.
Proof. cbn [kobjs set_kobj]. destruct (decide (y = x)) as [->|]; [by rewrite fn_lookup_insert|by rewrite fn_lookup_insert_ne]. Qed.

Lemma is_kind_some s y o : kobjs s y = Some o → is_kind s y (sort (k_body o)).1.
Proof.
  intros Hy. unfold is_kind, shape. rewrite Hy. simpl. destruct (sort (k_body o)) as [t p]. by exists p, (k_home o).
Qed.

Lemma live_old n s x o : sound n s → kobjs s x = Some o → x ≠ brk (sps (wd s)).
Proof. intros HS Hx. assert (x < brk (sps (wd s)))%nat; [apply (so_live _ _ HS); by eexists|lia]. Qed.

Lemma none_new n s x : sound n s → x = brk (sps (wd s)) → kobjs s x = None.
Proof. intros HS Hx. destruct (kobjs s x) eqn:E0; [|done]. by destruct (live_old _ _ _ _ HS E0). Qed.

Definition plus_one (ps : list obj) (y : obj) (o : kobject) : kobject :=
  if decide (y ∈ ps) then set_ref (k_ref o + 1) o else o.

Lemma alike_plus ps y o : alike o (plus_one ps y o) ∧ k_ref o ≤ k_ref (plus_one ps y o) ≤ k_ref o + 1.
Proof. unfold plus_one, alike. case_decide; simpl; (split; [by destruct (k_body o)|lia]). Qed.

Lemma plus_one_nil y o : plus_one [] y o = o.
Proof. unfold plus_one. by rewrite decide_False by (by intros ?%elem_of_nil). Qed.

Lemma plus_one_in ps y o : y ∈ ps → plus_one ps y o = set_ref (k_ref o + 1) o.
Proof. intros Hy. unfold plus_one. by rewrite decide_True. Qed.

Lemma plus_one_out ps y o : y ∉ ps → plus_one ps y o = o.
Proof. intros Hy. unfold plus_one. by rewrite decide_False. Qed.

Lemma plus_one_cons ps y z o : z ≠ y → plus_one (y :: ps) z o = plus_one ps z o.
Proof.
  intros Hne. unfold plus_one. destruct (decide (z ∈ ps)), (decide (z ∈ y :: ps)) as [Hz|Hz]; rewrite ?elem_of_cons in Hz; tauto.
Qed.

(** The objects of [s] in [s'], where those in [ps] have one more reference and
    [x] is [v]. *)
Definition with_refs (ps : list obj) (x : obj) (v : option kobject) s s' : Prop :=
  ∀ y, kobjs s' y = if decide (y = x) then v else plus_one ps y <$> kobjs s y.

Lemma with_refs_at ps x v s s' : with_refs ps x v s s' → kobjs s' x = v.
Proof. intros Hw. by rewrite Hw, decide_True. Qed.

Lemma with_refs_old ps x v s s' y o : with_refs ps x v s s' → y ≠ x → kobjs s y = Some o → kobjs s' y = Some (plus_one ps y o).
Proof. intros Hw Hne Hy. by rewrite Hw, decide_False, Hy by done. Qed.

Lemma with_refs_shape ps x v s s' y u : with_refs ps x v s s' → y ≠ x → shape s y = Some u → shape s' y = Some u.
Proof.
  intros Hw Hne. unfold shape. destruct (kobjs s y) as [o|] eqn:Hy; [|done]. rewrite (with_refs_old _ _ _ _ _ _ _ Hw Hne Hy).
  intros [= <-]. unfold plus_one. by case_decide.
Qed.

(** Objects gain references. *)
Record bumped (ps : list obj) s s0 : Prop := {
  bu_wd : wd s0 = wd s;
  bu_kobjs y : kobjs s0 y = plus_one ps y <$> kobjs s y;
}.

Lemma bumped_nil s : bumped [] s s.
Proof. split; [done|]. intros y. destruct (kobjs s y); [|done]. simpl. by rewrite plus_one_nil. Qed.

Lemma ref_run n ps s s0 y o : sound (S n) s → bumped ps s s0 → (y ∉ ps) → kobjs s y = Some o →
  ∃ s1, ref y s0 = Some (true, s1) ∧ refptr y s0 = Some (Some y, s1) ∧ bumped (y :: ps) s s1.
Proof.
  intros HS HB Hps Hy. assert (kobjs s0 y = Some o) as Hy0 by (rewrite (bu_kobjs _ _ _ HB), Hy; simpl; by rewrite plus_one_out).
  pose proof (so_ref _ _ HS y o Hy) as Hr. unfold refptr, ref. rewrite Hy0. cbn [mbind option_bind].
  destruct (refcount_spec (k_ref o)) as (-> & _); [lia|]. rewrite decide_False by lia. cbn [mbind option_bind].
  eexists. split; [reflexivity|]. split; [reflexivity|]. split; [apply (bu_wd _ _ _ HB)|]. intros z. rewrite kobjs_set.
  destruct (decide (z = y)) as [->|Hne]; [rewrite Hy; simpl; by rewrite plus_one_in by left|].
  rewrite (bu_kobjs _ _ _ HB). destruct (kobjs s z); [|done]. simpl. by rewrite plus_one_cons.
Qed.

(** A reference is dropped again. *)
Lemma unref_run n ps x v s s2 y o : sound (S n) s → with_refs (y :: ps) x v s s2 → (y ∉ ps) → y ≠ x → kobjs s y = Some o →
  ∃ s3, drop_ref (Some y) s2 = Some s3 ∧ unref y s2 = Some (false, s3) ∧ wd s3 = wd s2 ∧ with_refs ps x v s s3.
Proof.
  intros HS HW Hps Hyx Hy. pose proof (so_ref _ _ HS y o Hy) as Hr. unfold drop_ref, unref.
  rewrite (with_refs_old _ _ _ _ _ _ _ HW Hyx Hy), plus_one_in by left. cbn [mbind option_bind k_ref set_ref].
  destruct (refcount_spec (k_ref o + 1)) as (_ & Hd & Hc); [lia|]. rewrite Hd, Hc by lia.
  rewrite bool_decide_false, decide_False by lia. replace (k_ref o + 1 - 1) with (k_ref o) by lia.
  eexists. split; [reflexivity|]. split; [reflexivity|]. split; [done|]. intros z. rewrite kobjs_set.
  destruct (decide (z = y)) as [->|Hzy].
  - rewrite decide_False, Hy by done. simpl. rewrite plus_one_out by done. by destruct o.
  - rewrite HW. destruct (decide (z = x)); [done|]. destruct (kobjs s z); [|done]. simpl. by rewrite plus_one_cons.
Qed.

(** *** A new root in the space of the caller *)

(** [s2] after [insert_root], with its result. *)
Record inserted_root (ok : bool) (x : obj) (sel a : Z) s1 s2 : Prop := {
  ir_kobjs : kobjs s2 = kobjs s1;
  ir_brk : brk (sps (wd s2)) = brk (sps (wd s1));
  ir_nodes y : node_of (wd s2) y = node_of (wd s1) y;
  ir_sys : placed (sps (wd s2));
  ir_caps p i : caps s2 p i = if decide (ok = true ∧ p = cur ∧ i = sel) then capability (address x) a else caps s1 p i;
}.

(** What creating a root [x] needs to know, from the state [s] before the
    hypercall to [s2] behind the insertion. *)
Record rooted (ok : bool) (ps : list obj) (x : obj) (sel a : Z) (b : body) (h : obj * ckind) s s2 : Prop := {
  ro_name : x = brk (sps (wd s));
  ro_refs : with_refs ps x (Some (Kobject b refcount_new h)) s s2;
  ro_node : space (node_of (wd s2) x) = Some (subspace cur OBJ);
  ro_nodes y : (y < brk (sps (wd s)))%nat → space (node_of (wd s2) y) = space (node_of (wd s) y);
  ro_brk : (brk (sps (wd s)) < brk (sps (wd s2)) ≤ brk (sps (wd s)) + 2)%nat;
  ro_sys : placed (sps (wd s2));
  ro_caps p i : caps s2 p i = if decide (ok = true ∧ p = cur ∧ i = sel) then capability (address x) a else caps s p i;
}.

Lemma rooted_of n ps s s0 s1 s2 x ok sel a b h L R : sound (S n) s → bumped ps s s0 → fresh_root cur x sel a b h s0 s1 L R →
  inserted_root ok x sel a s1 s2 → rooted ok ps x sel a b h s s2.
Proof.
  intros HS [Hw Hk] [F1 F2 F3 _ _ F5 F6 F7 _ _] [I1 I2 I3 I4 I5]. unfold caps in F3. rewrite ?Hw in *. split; [done| | | |by rewrite I2|done|].
  - intros y. rewrite I1, F2. destruct (decide (y = x)); [done|]. apply Hk.
  - by rewrite I3, F6.
  - intros y Hy. rewrite I3. by apply F7.
  - intros p i. rewrite I5. destruct (decide (_ ∧ _)); [done|]. apply F3.
Qed.

Lemma root_run n payer home hp k sel a b ps s s0 : sound (S n) s → bumped ps s s0 → 0 ≤ sel → sel + 1 < 2 ^ 64 →
  ∃ s1 ok s2, new_kobj address cur home hp k sel a b s0 = (brk (sps (wd s)), s1) ∧
    insert_root address kern payer (brk (sps (wd s))) s1 = Some (ok, s2) ∧
    rooted ok ps (brk (sps (wd s))) sel a b (home, k) s s2.
Proof.
  intros HS HB Hsel Hsel'. destruct (so_sys _ _ HS) as (L & R & HY & HH). pose proof (so_brk _ _ HS).
  pose proof (bu_wd _ _ _ HB) as Hw.
  destruct (new_kobj_run cur home hp k sel a b s0 L R) as (s1 & E1 & _ & HF); [by rewrite Hw|by rewrite Hw|rewrite Hw; lia|].
  rewrite Hw in E1, HF.
  destruct (insert_root_run cur payer _ _ _ _ _ _ _ _ _ HF user Hsel Hsel') as (ok & s2 & E2 & K1 & K2 & K3 & (L' & R' & K4 & K4' & _) & K5); [lia|].
  exists s1, ok, s2. split; [done|]. split; [done|]. eapply rooted_of; try done. split; try done. by exists L', R'.
Qed.

Lemma rooted_live ok n ps x sel a b h s s2 y o : sound n s → rooted ok ps x sel a b h s s2 → kobjs s y = Some o → y ≠ x.
Proof. intros HS HR Hy. rewrite (ro_name _ _ _ _ _ _ _ _ _ HR). by eapply live_old. Qed.

(** *** What a creating hypercall does

    It ends with success, and then there is one more capability, at the selector
    it names, for a new object of its kind; or it ends with another status, and
    no object and no capability is gained, lost or changed. *)
Definition makes (t a sel : Z) s (out : outcome) s' : Prop :=
  (out = Finish SUCCESS ∧ grown s s' ∧ ∃ x o, kobjs s x = None ∧ kobjs s' x = Some o ∧ (sort (k_body o)).1 = t ∧
     ∀ p i, caps s' p i = if decide (p = cur ∧ i = sel) then capability (address x) a else caps s p i)
  ∨ (out ≠ Finish SUCCESS ∧ same s s').

Lemma makes_nothing n t a sel s st : sound n s → st ≠ SUCCESS → makes t a sel s (Finish st) s.
Proof. intros HS Hst. right. split; [congruence|]. split; [done|]. split; try done; [lia|apply (so_sys _ _ HS)]. Qed.

Lemma rooted_grown n ps x sel a b h s s2 : sound (S n) s → rooted true ps x sel a b h s s2 → word 64 a →
  sound_obj s2 x (Kobject b refcount_new h) → grown s s2.
Proof.
  intros HS [R1 R2 R3 R4 R5 R6 R7] Ha Hx. pose proof (none_new _ _ _ HS R1) as Hn. split; [| | | |lia|done].
  - intros y o Hy. exists (plus_one ps y o). split; [|apply alike_plus]. eapply with_refs_old; [done| |done]. by intros ->; rewrite Hn in Hy.
  - intros y o Hy. rewrite R2, Hy. destruct (decide (y = x)) as [->|]; [|done]. intros [= <-]. split_and!; [done|done|]. lia.
  - intros q i. rewrite R7. destruct (decide (_ ∧ _)); [right|by left]. exists x, a. split_and!; [done|done| |by rewrite R1].
    rewrite (with_refs_at _ _ _ _ _ R2). by eexists.
  - intros y Hy. by apply R4.
Qed.

Lemma rooted_makes n ps t x sel a b h s s2 : sound (S n) s → rooted true ps x sel a b h s s2 → word 64 a →
  sound_obj s2 x (Kobject b refcount_new h) → (sort b).1 = t → makes t a sel s (Finish SUCCESS) s2.
Proof.
  intros HS HR Ha Hx Ht. left. split; [done|]. split; [by eapply rooted_grown|]. exists x, (Kobject b refcount_new h).
  destruct HR as [R1 R2 R3 R4 R5 R6 R7]. split_and!; [by eapply none_new|by eapply with_refs_at|done|].
  intros q i. rewrite R7. destruct (decide (q = cur ∧ i = sel)), (decide (true = true ∧ q = cur ∧ i = sel)); tauto || done.
Qed.

Lemma rooted_quiet ps x sel a b h s s2 : rooted false ps x sel a b h s s2 → quiet s s2.
Proof.
  intros [R1 R2 R3 R4 R5 R6 R7]. split; [|done|lia|done]. intros q i. by rewrite R7, decide_False by (by intros []).
Qed.

Lemma released_run x home payer k s o : kobjs s x = Some o → k_home o = (home, k) →
  ∃ s', release x home payer k s = Some s' ∧ (∀ y, kobjs s' y = if decide (y = x) then None else kobjs s y) ∧
    sps (wd s') = sps (wd s) ∧ ∀ p i, caps s' p i = caps s p i.
Proof.
  intros Hx Hh. unfold release. rewrite Hx. cbn [mbind option_bind]. rewrite decide_True by done. eexists. split; [reflexivity|].
  destruct (charge_run payer (slab_free home k) s) as (Hk & Hs & Hc); [intros; apply cap_at_free|].
  split; [|done]. intros y. by rewrite kobjs_set, Hk.
Qed.

(** The memory is given back; nothing is left of the hypercall. *)
Lemma undo_release n x b home k s s3 : sound (S n) s → x = brk (sps (wd s)) → quiet s s3 →
  with_refs [] x (Some (Kobject b refcount_new (home, k))) s s3 → ∃ s4, release x home home k s3 = Some s4 ∧ same s s4.
Proof.
  intros HS Hx HQ HW.
  destruct (released_run x home home k s3 (Kobject b refcount_new (home, k))) as (s4 & E4 & Hk4 & Hs4 & Hc4);
    [by eapply with_refs_at|done|].
  exists s4. split; [done|]. split.
  - intros y. rewrite Hk4. destruct (decide (y = x)) as [->|]; [by rewrite (none_new _ _ _ HS Hx)|].
    rewrite HW, decide_False by done. pose proof (bu_kobjs _ _ _ (bumped_nil s) y) as <-. done.
  - apply (quiet_step s s3); [done|done|unfold node_of; by rewrite Hs4|by rewrite Hs4|]. rewrite Hs4. apply (qu_sys _ _ HQ).
Qed.

(** *** Message areas *)

Lemma tree_insert_fresh sp L p x y ok sp' : spaces_inv sp L → space (mem sp x) = Some p → region_wf (mem sp) x →
  fresh_node (tree sp) x → (∀ k, x ∉ L k) → (x < brk sp)%nat → tree_insert x sp = Some (ok, sp') →
  (y ∉ L p) → y ≠ x → fresh_node (tree sp) y → fresh_node (tree sp') y.
Proof.
  intros HV Hp Hwf Hf Hx Hlt Hi Hy Hne [Hc Hb].
  pose proof (insert_at_run sp p (L p) x (sv_space _ _ HV p) (spaces_few _ _ _ HV) Hwf Hf (Hx p) Hlt) as Hrun.
  unfold tree_insert in Hi. rewrite Hp in Hi. cbn [mbind option_bind] in Hi. destruct (existsb _ _).
  - rewrite Hrun in Hi. by injection Hi as <- <-.
  - destruct Hrun as (t & l1 & l2 & E0 & _ & _ & [Hcell Hbal]). rewrite E0 in Hi. injection Hi as <- <-. simpl. split.
    + intros d. rewrite Hcell; [apply Hc|done|]. intros n d' Hn [= -> ->]. apply elem_of_cons in Hn as [->|]; tauto.
    + rewrite Hbal; [done|]. by intros [->|]%elem_of_cons.
Qed.

(** The message area of a root context gets a node while the context is in no
    space yet. *)
Lemma insert_utcb_fresh own x sel a b h s s1 L R pd u phys : fresh_root own x sel a b h s s1 L R →
  brk (sps (wd s1)) = S (brk (sps (wd s))) → Z.of_nat (brk (sps (wd s))) + 2 < 2 ^ 64 → word 64 u → word 64 phys →
  phys < 2 ^ 64 - 1 →
  ∃ ok s2 L' R', insert_utcb pd u phys s1 = Some (ok, s2) ∧ fresh_root own x sel a b h s s2 L' R'.
Proof.
  intros HF Hb Hb2 Hu Hphys Hphys'. unfold insert_utcb. destruct (_ || _); [by eexists _, _, _, _|].
  destruct (charge_run pd (node_alloc pd) s1) as (Hk & Hs & Hc); [intros; apply cap_at_node_alloc|].
  set (s1' := charge pd (node_alloc pd) s1) in *. destruct HF as [-> F2 F3 F4 FH F5 F6 F7 F8 [F9 F10]]. set (x := brk (sps (wd s))) in *.
  destruct (new_mdb _ _ _ _ _ _ _ _ _) as [z sp] eqn:En. rewrite Hs in En.
  destruct (system_new _ _ _ _ _ _ _ _ _ _ _ _ _ F4 En) as (HY' & Hf & -> & Hb' & Hz & Hy & HL & HR); [lia|].
  set (z := brk (sps (wd s1))) in *. assert (x ≠ z) as Hxz by lia.
  assert (fresh_node (tree sp) x) as Hfx.
  { unfold new_mdb in En. injection En as En. subst sp. simpl. destruct F8 as [Hc8 Hb8]. split; [intros d|]; look; by rewrite ?Hc8, ?Hb8. }
  assert (0 ≤ u / 2 ^ 12 < 2 ^ 52) as Hu' by (unfold word in Hu; split; [apply Z.div_pos|apply Z.div_lt_upper_bound]; lia).
  assert (region_wf (mem sp) z) as Hwf.
  { unfold region_wf. rewrite Hz. simpl. rewrite Z.mod_1_r. lia. }
  assert (space (mem sp z) = Some (subspace pd MEM)) as Hsz by by rewrite Hz.
  destruct (spaces_insert sp L (subspace pd MEM) z) as [Hi|(t & l & Hi & HV & Hl)]; try done; [apply HY'|lia| |].
  - rewrite Hi. cbn [mbind option_bind]. destruct (charge_run pd (node_destroy pd) (set_wd (set_sps sp (wd s1')) s1')) as (Hk' & Hs' & Hc');
      [intros; apply cap_at_node_destroy|].
    eexists false, _, L, R. split; [reflexivity|]. split; rewrite ?Hs'; cbn [wd set_wd sps set_sps]; try done.
    + intros y. by rewrite Hk', <-F2, <-Hk.
    + intros p i. by rewrite Hc', <-F3, <-Hc.
    + intros p y Hp Hin. rewrite Hy by (intros ->; by apply (HL (subspace p MEM))). by apply FH.
    + lia.
    + unfold node_of. rewrite Hs'. simpl. by rewrite Hy.
    + intros y Hlt. unfold node_of. rewrite Hs'. simpl. rewrite Hy by lia. by apply F7.
  - rewrite Hi. cbn [mbind option_bind].
    eexists true, _, (<[subspace pd MEM := l]> L), (R ++ [[z]]). split; [reflexivity|]. split; cbn [kobjs wd set_wd sps set_sps]; try done.
    + intros y. by rewrite <-F2, <-Hk.
    + intros p i. by rewrite <-F3, <-Hc.
    + apply (system_root sp L R (subspace pd MEM) l z t); try done; try by rewrite Hz.
      rewrite Hz. unfold node_ok, word in *. simpl. rewrite Z.mod_1_r, Z.shiftr_div_pow2 by done. lia.
    + intros p y Hp Hin. cbn [mem set_tree]. destruct (decide (subspace p MEM = subspace pd MEM)) as [Hpp|Hpp].
      * rewrite Hpp, fn_lookup_insert, Hl in Hin. apply elem_of_cons in Hin as [->|Hin]; [by rewrite Hpp|].
        rewrite Hy by (intros ->; by apply (HL (subspace pd MEM))). apply FH; [done|by rewrite Hpp].
      * rewrite fn_lookup_insert_ne in Hin by done. rewrite Hy by (intros ->; by apply (HL (subspace p MEM))). by apply FH.
    + simpl. lia.
    + unfold node_of. simpl. by rewrite Hy.
    + intros y Hlt. unfold node_of. simpl. rewrite Hy by lia. by apply F7.
    + apply (tree_insert_fresh sp L (subspace pd MEM) z x true (set_tree t sp)); try done; [apply HY'|lia].
    + split.
      * intros k. destruct (decide (k = subspace pd MEM)) as [->|]; [rewrite fn_lookup_insert, Hl|by rewrite fn_lookup_insert_ne].
        intros [->|Hin]%elem_of_cons; [done|by apply (F9 (subspace pd MEM))].
      * rewrite join_app, elem_of_app. simpl. rewrite list_elem_of_singleton. tauto.
Qed.

(** The removal of a message area is that of a node without rights. *)
Lemma remove_utcb_found pd u x s w : u ≠ 0 → tree_lookup (subspace pd MEM) (u >> 12)%W false (sps (wd s)) = Some (Some x) →
  drop_node true x (demote x 0x3 (wd s)) = Some w → ∃ ok, remove_utcb pd u s = Some (ok, set_wd w s).
Proof.
  intros Hu Hl. unfold remove_utcb, drop_node. rewrite (proj2 (Z.eqb_neq _ _) Hu), Hl. cbn [mbind option_bind].
  destruct (remove_node _ _ _) as [[] m]; cbn [negb].
  - destruct (tree_remove _ _) as [[ok sp]|]; [|done]. cbn [mbind option_bind]. intros [= <-]. eexists. by destruct ok.
  - intros [= <-]. by eexists.
Qed.

Lemma remove_utcb_run pd u s : placed (sps (wd s)) → pd ≠ kern →
  ∃ ok s', remove_utcb pd u s = Some (ok, s') ∧ kobjs s' = kobjs s ∧ (∀ p i, caps s' p i = caps s p i) ∧
    (∀ y, space (node_of (wd s') y) = space (node_of (wd s) y)) ∧ brk (sps (wd s')) = brk (sps (wd s)) ∧ placed (sps (wd s')).
Proof.
  intros (L & R & HY & HH) Hpd. destruct (decide (u = 0)) as [->|Hu]; [by eexists _, _; split_and!; [reflexivity|..|exists L, R]|].
  destruct (tree_lookup_spec (sps (wd s)) (subspace pd MEM) (L (subspace pd MEM)) (u >> 12)%W false) as (r & Hl & Hr);
    [apply HY|eapply spaces_few; apply HY|].
  destruct r as [x|]; cycle 1.
  { unfold remove_utcb. rewrite (proj2 (Z.eqb_neq _ _) Hu), Hl. by eexists _, _; split_and!; [reflexivity|..|exists L, R]. }
  destruct Hr as [Hx _]. set (w := demote x 0x3 (wd s)).
  assert (attr_only (mem (sps (wd s))) (mem (sps w))) as Hat by apply attr_only_upd.
  assert (system (sps w) L R) as HYw by by apply (system_attr (sps (wd s)) L R).
  assert (∀ y, space (node_of w y) = space (node_of (wd s) y)) as Hsp by (intros y; unfold node_of; by destruct (Hat y) as [a ->]).
  pose proof (proj2 (sy_in _ _ _ HYw x) (ex_intro _ (subspace pd MEM) Hx)) as Hxr. destruct (rings_split _ _ Hxr) as (R1 & l1 & l2 & R2 & ->).
  destruct (drop_node_run w L R1 l1 x l2 R2 (subspace pd MEM)) as (w' & L' & Hd & HY' & Hkept & _ & _ & HL' & (_ & _ & Hbrk));
    [done|done|rewrite Hsp; by apply HH|].
  destruct (remove_utcb_found pd u x s w' Hu Hl Hd) as (ok & Hrun). exists ok, (set_wd w' s).
  assert (env w' = env (wd s)) as He.
  { revert Hd. unfold drop_node. destruct (remove_node _ _ _) as [[] m]; [|by intros [= <-]].
    destruct (tree_remove _ _) as [[ok' sp]|]; [|done]. cbn [mbind option_bind]. intros [= <-]. by destruct ok'. }
  assert (∀ y, space (node_of w' y) = space (node_of (wd s) y)) as Hsp' by (intros y; rewrite <-Hsp; by apply Hkept).
  split_and!; [done|done| |done|cbn [wd set_wd]; by rewrite Hbrk|].
  - intros p i. unfold caps. simpl. by rewrite He.
  - eexists L', _. split; [exact HY'|]. intros p y Hp [Hin _]%HL'. change (mem (sps (wd (set_wd w' s))) y) with (node_of w' y).
    rewrite Hsp'. by apply HH.
Qed.

(** ** The hypercalls *)

Context (has_oom : bool) (cpu_online : Z → bool) (vcpus : bool) (freq_tsc : Z).
#[local] Abbreviation find := (object_of object_at).

Lemma selector v : word 64 v → 0 ≤ (v >> 9)%W ∧ (v >> 9)%W + 1 < 2 ^ 64.
Proof.
  unfold word. intros Hv. rewrite Z.shiftr_div_pow2 by done.
  assert (0 ≤ v / 2 ^ 9 < 2 ^ 55) by (split; [apply Z.div_pos|apply Z.div_lt_upper_bound]; lia). lia.
Qed.

Lemma checked_makes n t a sel s k : sound n s → (∃ out s', k = Some (out, s') ∧ makes t a sel s out s') →
  ∃ out s', checked cur has_oom 0 false s k = Some (out, s') ∧ makes t a sel s out s'.
Proof.
  intros HS Hk. unfold checked, check. destruct (over_limit cur 0 s); [|done]. rewrite andb_false_r.
  eexists _, s. split; [reflexivity|]. by eapply makes_nothing.
Qed.

#[local] Ltac nothing HS := eexists _, _; split; [reflexivity|]; by eapply (makes_nothing _ _ _ _ _ _ HS).

(** *** Semaphores *)

(** A request that names the domain of the caller. *)
Definition own_domain (r : Vregs.mem) s : Prop :=
  ∀ k pd, find (lookup_cap cur (Sys_create_sm_pd r) s) s = Some k → is_pd k = Some pd → pd = cur.

Lemma sm_destroy_step fuel x pd s :
  sm_destroy (S fuel) x pd s = (o ← kobjs s x;
    match k_body o with
    | SM _ si _ =>
      s ← match si with
          | None => Some s
          | Some y => '(last, s) ← unref y s; if last : bool then p ← owner y s; sm_destroy fuel y p s else Some s
          end;
      release x pd pd SM_CACHE s
    | _ => None
    end).
Proof. done. Qed.

(** A semaphore and the one it signals. *)
Lemma sm_new_run n own home sel cnt si v s : sound (S n) s → (∀ y, si = Some y → is_Some (kobjs s y)) →
  ∃ s0, sm_new address own home sel cnt si v s = Some (new_kobj address own home home SM_CACHE sel 0x3 (SM cnt si v) s0) ∧
    bumped (option_list si) s s0.
Proof.
  intros HS Hsi. destruct si as [y|]; [|by exists s; split; [|apply bumped_nil]]. destruct (Hsi y eq_refl) as [o Ho].
  destruct (ref_run n [] s s y o HS (bumped_nil s)) as (s0 & E0 & _ & HB); [by apply not_elem_of_nil|done|].
  exists s0. unfold sm_new. by rewrite E0.
Qed.

Lemma sm_undo n x sel a cnt si v home s s2 : sound (S n) s → (∀ y, si = Some y → is_Some (kobjs s y)) →
  rooted false (option_list si) x sel a (SM cnt si v) (home, SM_CACHE) s s2 →
  ∃ s4, sm_destroy 2 x home s2 = Some s4 ∧ same s s4.
Proof.
  intros HS Hsi HR. pose proof HR as [Hx HW _ _ _ _ _].
  rewrite sm_destroy_step, (with_refs_at _ _ _ _ _ HW). cbn [mbind option_bind k_body].
  assert (∃ s3, match si with None => Some s2
              | Some y => '(last, s) ← unref y s2; if last : bool then p ← owner y s; sm_destroy 1 y p s else Some s end = Some s3 ∧
            wd s3 = wd s2 ∧ with_refs [] x (Some (Kobject (SM cnt si v) refcount_new (home, SM_CACHE))) s s3) as (s3 & -> & Hw & HW3).
  { destruct si as [y|]; [|by exists s2]. destruct (Hsi y eq_refl) as [o Ho].
    destruct (unref_run n [] x _ s s2 y o HS HW) as (s3 & _ & -> & Hw & HW3); [by apply not_elem_of_nil|by eapply rooted_live|done|].
    by exists s3. }
  cbn [mbind option_bind]. eapply undo_release; try done. apply (quiet_step s s2); unfold caps; rewrite ?Hw; try done.
  - by eapply rooted_quiet.
  - apply (ro_sys _ _ _ _ _ _ _ _ _ HR).
Qed.

Lemma create_sm_makes n (r : Vregs.mem) s : sound (S n) s → word 64 (r ARG_1) → own_domain r s →
  ∃ out s', sys_create_sm address object_at kern cur has_oom r s = Some (out, s') ∧ makes T_SM 0x3 (Sys_create_sm_sel r) s out s'.
Proof.
  intros HS Hr Hown. destruct (selector _ Hr) as [Hs0 Hs1]. unfold sys_create_sm. apply (checked_makes (S n)); [done|].
  destruct (object_of_run _ _ (Sys_create_sm_pd r) HS) as (k & Ek & Hk). rewrite Ek. cbn [mbind option_bind].
  destruct (is_pd k) as [pd|] eqn:Epd; [|nothing HS]. rewrite (Hown k pd Ek Epd) in *.
  destruct (negb _); [nothing HS|]. destruct (over_limit cur 1 s); [nothing HS|].
  assert (∃ c, (if Sys_create_sm_sm r =? 0 then Some (Some (Sys_create_sm_cnt r, None, 0))
           else k ← find (lookup_cap cur (Sys_create_sm_sm r) s) s;
             Some (match is_sm k with Some (si, None) => Some (0, Some si, Sys_create_sm_cnt r) | _ => None end)) = Some c ∧
           ∀ cnt si v, c = Some (cnt, Some si, v) → ∃ o, kobjs s si = Some o ∧ (sort (k_body o)).1 = T_SM) as (c & -> & Hc).
  { destruct (_ =? 0); [by eexists|]. destruct (object_of_run _ _ (Sys_create_sm_sm r) HS) as (k' & -> & Hk'). cbn [mbind option_bind].
    eexists. split; [reflexivity|]. intros cnt si v. destruct k' as [[y o]|]; [|done]. cbn [is_sm mbind option_bind].
    destruct (k_body o) as [| | | |? [|] ?] eqn:Eb; try done. intros [= _ <- _]. exists o. split; [by apply (Hk' y o)|by rewrite Eb]. }
  cbn [mbind option_bind]. destruct c as [[[cnt si] v]|]; [|nothing HS].
  assert (∀ y, si = Some y → is_Some (kobjs s y)) as Hsi by (intros y ->; destruct (Hc _ _ _ eq_refl) as (o & Ho & _); by eexists).
  destruct (sm_new_run n cur cur (Sys_create_sm_sel r) cnt si v s HS Hsi) as (s0 & -> & HB).
  destruct (root_run n cur cur cur SM_CACHE (Sys_create_sm_sel r) 0x3 (SM cnt si v) _ s s0 HS HB Hs0 Hs1)
    as (s1 & ok & s2 & E1 & E2 & HR).
  cbn [mbind option_bind]. rewrite E1, E2. cbn [mbind option_bind]. destruct ok; cbn [negb].
  - eexists _, _. split; [reflexivity|]. eapply rooted_makes; try done. split; cbn [k_body k_home].
    + exists cur. split; [apply (ro_node _ _ _ _ _ _ _ _ _ HR)|done].
    + intros y ->. destruct (Hc _ _ _ eq_refl) as (o & Ho & Ht). destruct (is_kind_some s y o Ho) as (p & h & Hp).
      rewrite Ht in Hp. exists p, h. eapply with_refs_shape; [apply (ro_refs _ _ _ _ _ _ _ _ _ HR)|by eapply rooted_live|done].
  - destruct (sm_undo n _ _ _ _ _ _ _ _ _ HS Hsi HR) as (s4 & -> & H4). cbn [mbind option_bind].
    eexists _, _. split; [reflexivity|]. by right.
Qed.

(** *** Portals and scheduling contexts *)

(** A context that a capability names belongs to a domain. *)
Lemma context_run n s x o e : sound n s → kobjs s x = Some o → k_body o = EC e →
  ∃ pd, e_pd e = Some pd ∧ pd_of_ec (Some x) s = Some pd ∧ ec_of (Some x) s = Some (x, e) ∧
    shape s x = Some ((T_EC, Some pd), k_home o).
Proof.
  intros HS Hx Hb. pose proof (so_obj _ _ HS x o Hx) as Hso. unfold sound_obj in Hso. rewrite Hb in Hso.
  destruct Hso as (pd & He & _). exists pd. unfold pd_of_ec, ec_of, shape. cbn [mbind option_bind]. rewrite Hx.
  cbn [mbind option_bind]. rewrite Hb. simpl. by rewrite He, Hb; simpl; rewrite He.
Qed.

Lemma pd_of_with_refs ps x v s s' y o pd : with_refs ps x v s s' → y ≠ x → kobjs s y = Some o →
  pd_of_ec (Some y) s = Some pd → pd_of_ec (Some y) s' = Some pd.
Proof.
  intros HW Hne Hy. unfold pd_of_ec, ec_of. cbn [mbind option_bind].
  rewrite Hy, (with_refs_old _ _ _ _ _ _ _ HW Hne Hy). unfold plus_one. by destruct (decide _).
Qed.

(** The object [x] that refers to the context [y] goes again. *)
Lemma context_undo n x y o sel a b home k s s2 : sound (S n) s → kobjs s y = Some o →
  rooted false [y] x sel a b (home, k) s s2 →
  ∃ s3 s4, drop_ref (Some y) s2 = Some s3 ∧ with_refs [] x (Some (Kobject b refcount_new (home, k))) s s3 ∧
    release x home home k s3 = Some s4 ∧ same s s4.
Proof.
  intros HS Hy HR. pose proof HR as [Hx HW _ _ _ _ _].
  destruct (unref_run n [] x _ s s2 y o HS HW) as (s3 & E3 & _ & Hw & HW3); [by apply not_elem_of_nil|by eapply rooted_live|done|].
  destruct (undo_release n x b home k s s3 HS Hx) as (s4 & E4 & H4); [|done|by exists s3, s4].
  apply (quiet_step s s2); unfold caps; rewrite ?Hw; try done; [by eapply rooted_quiet|apply (ro_sys _ _ _ _ _ _ _ _ _ HR)].
Qed.

Lemma context_in_rooted ok n ps x sel a b h s s2 y o pd : sound (S n) s → rooted ok ps x sel a b h s s2 → kobjs s y = Some o →
  shape s y = Some ((T_EC, Some pd), k_home o) → context_in s2 (Some y) pd.
Proof.
  intros HS HR Hy Hsh. exists y, (k_home o). split; [done|].
  eapply with_refs_shape; [apply (ro_refs _ _ _ _ _ _ _ _ _ HR)|by eapply rooted_live|done].
Qed.

Lemma create_pt_makes n (r : Vregs.mem) s : sound (S n) s → word 64 (r ARG_1) →
  ∃ out s', sys_create_pt address object_at kern cur has_oom r s = Some (out, s') ∧ makes T_PT 0x13 (Sys_create_pt_sel r) s out s'.
Proof.
  intros HS Hr. destruct (selector _ Hr) as [Hs0 Hs1]. unfold sys_create_pt. apply (checked_makes (S n)); [done|].
  destruct (USER_ADDR <=? _); [nothing HS|].
  destruct (object_of_run _ _ (Sys_create_pt_pd r) HS) as (k & -> & Hk). cbn [mbind option_bind].
  destruct (is_pd k) as [pd|]; [|nothing HS]. destruct (negb _); [nothing HS|]. destruct (over_limit pd 2 s); [nothing HS|].
  destruct (object_of_run _ _ (Sys_create_pt_ec r) HS) as (k' & -> & Hk'). cbn [mbind option_bind].
  destruct k' as [[x o]|]; [|nothing HS]. cbn [is_ec mbind option_bind]. destruct (Hk' x o eq_refl) as [Hx _]. clear Hk'. rename Hx into Hk'.
  destruct (k_body o) as [|e| | |] eqn:Eb; try nothing HS. destruct (negb (may _ _)); [nothing HS|].
  destruct (glb e); [nothing HS|].
  destruct (context_run _ _ _ _ _ HS Hk' Eb) as (d & Hd & Hpd & _ & Hsh). unfold pt_new. rewrite Hpd. cbn [mbind option_bind].
  destruct (ref_run n [] s s x o HS (bumped_nil s)) as (s0 & _ & -> & HB); [by apply not_elem_of_nil|done|]. cbn [mbind option_bind].
  destruct (root_run n pd d d PT_CACHE (Sys_create_pt_sel r) 0x13 (PT (Some x) (Sys_create_pt_mtd r) (Sys_create_pt_eip r) 0)
    _ s s0 HS HB Hs0 Hs1) as (s1 & ok & s2 & -> & -> & HR). cbn [mbind option_bind]. destruct ok; cbn [negb].
  - eexists _, _. split; [reflexivity|]. eapply rooted_makes; try done. exists d. split; [by eapply context_in_rooted|done].
  - destruct (context_undo n _ _ _ _ _ _ _ _ _ _ HS Hk' HR) as (s3 & s4 & E3 & _ & E4 & H4). unfold pt_destroy.
    rewrite (with_refs_at _ _ _ _ _ (ro_refs _ _ _ _ _ _ _ _ _ HR)). cbn [mbind option_bind k_body].
    rewrite (pd_of_with_refs _ _ _ _ _ x o d (ro_refs _ _ _ _ _ _ _ _ _ HR)) by (done || by eapply rooted_live).
    cbn [mbind option_bind]. rewrite E3. cbn [mbind option_bind]. rewrite E4. cbn [mbind option_bind].
    eexists _, _. split; [reflexivity|]. by right.
Qed.

Lemma create_sc_makes n (r : Vregs.mem) s : sound (S n) s → word 64 (r ARG_1) →
  ∃ out s', sys_create_sc address object_at kern cur has_oom freq_tsc r s = Some (out, s') ∧
    makes T_SC 0x1 (Sys_create_sc_sel r) s out s'.
Proof.
  intros HS Hr. destruct (selector _ Hr) as [Hs0 Hs1]. unfold sys_create_sc. apply (checked_makes (S n)); [done|].
  destruct (object_of_run _ _ (Sys_create_sc_pd r) HS) as (k & -> & Hk). cbn [mbind option_bind].
  destruct (is_pd k) as [pd|]; [|nothing HS]. destruct (negb _); [nothing HS|]. destruct (over_limit pd 2 s); [nothing HS|].
  destruct (object_of_run _ _ (Sys_create_sc_ec r) HS) as (k' & -> & Hk'). cbn [mbind option_bind].
  destruct k' as [[x o]|]; [|nothing HS]. cbn [is_ec mbind option_bind]. destruct (Hk' x o eq_refl) as [Hx _]. clear Hk'. rename Hx into Hk'.
  destruct (k_body o) as [|e| | |] eqn:Eb; try nothing HS. destruct (negb (may _ _)); [nothing HS|].
  destruct (negb (glb e)); [nothing HS|]. destruct (_ || _); [nothing HS|].
  destruct (context_run _ _ _ _ _ HS Hk' Eb) as (d & Hd & Hpd & Hec & Hsh). unfold sc_create. rewrite Hec. cbn [mbind option_bind].
  rewrite Hd. cbn [mbind option_bind].
  destruct (ref_run n [] s s x o HS (bumped_nil s)) as (s0 & _ & -> & HB); [by apply not_elem_of_nil|done|]. cbn [mbind option_bind].
  destruct (root_run n pd d d SC_CACHE (Sys_create_sc_sel r) 0x1
    (SC (Some x) (sc_new freq_tsc x (e_cpu e) (Crd.prio (Sys_create_sc_qpd r)) (Crd.quantum (Sys_create_sc_qpd r))))
    _ s s0 HS HB Hs0 Hs1) as (s1 & ok & s2 & -> & -> & HR). cbn [mbind option_bind]. destruct ok; cbn [negb].
  - assert (∃ d', ec_of (Some x) s2 = Some (x, d')) as (d' & ->).
    { unfold ec_of. cbn [mbind option_bind].
      rewrite (with_refs_old _ _ _ _ _ _ _ (ro_refs _ _ _ _ _ _ _ _ _ HR) (rooted_live _ _ _ _ _ _ _ _ _ _ _ _ HS HR Hk') Hk').
      cbn [mbind option_bind]. rewrite plus_one_in by left. cbn [k_body set_ref]. rewrite Eb. by eexists. }
    cbn [mbind option_bind snd]. eexists _, _. split; [reflexivity|]. set (s2' := note (Enqueued _) _).
    assert (wd s2' = wd s2 ∧ kobjs s2' = kobjs s2) as [Hw2 Hk2] by (unfold s2'; by destruct (worker d')).
    assert (rooted true [x] (brk (sps (wd s))) (Sys_create_sc_sel r) 0x1 
      (SC (Some x) (sc_new freq_tsc x (e_cpu e) (Crd.prio (Sys_create_sc_qpd r)) (Crd.quantum (Sys_create_sc_qpd r)))) (d, SC_CACHE) s s2')
      as HR'.
    { destruct HR. split; unfold with_refs, caps in *; rewrite ?Hw2, ?Hk2; done. }
    eapply rooted_makes; try done. exists d. split; [by eapply context_in_rooted|done].
  - destruct (context_undo n _ _ _ _ _ _ _ _ _ _ HS Hk' HR) as (s3 & s4 & E3 & HW3 & E4 & H4). unfold sc_delete.
    rewrite (with_refs_at _ _ _ _ _ (ro_refs _ _ _ _ _ _ _ _ _ HR)). cbn [mbind option_bind k_body].
    rewrite E3. cbn [mbind option_bind].
    rewrite (pd_of_with_refs _ _ _ _ _ x o d HW3) by (done || by eapply rooted_live).
    cbn [mbind option_bind]. rewrite E4. cbn [mbind option_bind]. eexists _, _. split; [reflexivity|]. by right.
Qed.

(** *** Execution contexts *)

Lemma fresh_env own x sel a b h s s1 s2 L R : fresh_root own x sel a b h s s1 L R → kobjs s2 = kobjs s1 →
  sps (wd s2) = sps (wd s1) → (∀ p i, caps s2 p i = caps s1 p i) → fresh_root own x sel a b h s s2 L R.
Proof.
  intros [F1 F2 F3 F4 F5 F6 F7 F8 F9 F10] Hk Hs Hc. unfold node_of in *.
  split; unfold node_of; rewrite ?Hs; try done; [by rewrite Hk|intros p i; by rewrite Hc].
Qed.

Lemma with_refs_eq ps x v s s2 s3 : with_refs ps x v s s2 → kobjs s3 = kobjs s2 → with_refs ps x v s s3.
Proof. intros HW Hk y. by rewrite Hk. Qed.

Definition new_context (pd : obj) (f : bool) (cpu ev u : Z) (oom : option obj) : ec :=
  Ec (Some pd) f (wrap 16 cpu) ev u oom None 0 0.

(** The constructor runs, and the context is ready for its space. *)
Lemma ec_new_run n pd sel f cpu ev u esp oom o s : sound (S n) s → word 64 u → kobjs s pd = Some o →
  (∀ y, oom = Some y → y ≠ pd ∧ is_Some (kobjs s y)) →
  ∃ s0 s1 L R, ec_new address root cur pd sel f cpu ev u esp oom s = Some (brk (sps (wd s)), s1) ∧
    bumped (option_list oom ++ [pd]) s s0 ∧
    fresh_root cur (brk (sps (wd s))) sel 0xd (EC (new_context pd f cpu ev u oom)) (pd, EC_CACHE) s0 s1 L R.
Proof.
  intros HS Hu Hpd Hoom. unfold ec_new.
  destruct (ref_run n [] s s pd o HS (bumped_nil s)) as (s1 & _ & -> & HB1); [by apply not_elem_of_nil|done|]. cbn [mbind option_bind].
  assert (∃ s0, (match oom with None => Some (None, s1) | Some y => refptr y s1 end) = Some (oom, s0) ∧
            bumped (option_list oom ++ [pd]) s s0) as (s0 & -> & HB).
  { destruct oom as [y|]; [|by exists s1]. destruct (Hoom y eq_refl) as [Hne [oy Hy]].
    destruct (ref_run n [pd] s s1 y oy HS HB1) as (s0 & _ & E0 & HB); [by rewrite list_elem_of_singleton|done|]. by exists s0. }
  cbn [mbind option_bind]. pose proof (bu_wd _ _ _ HB) as Hw. pose proof (so_brk _ _ HS).
  destruct (so_sys _ _ HS) as (L & R & HY & HH).
  destruct (new_kobj_run cur pd pd EC_CACHE sel 0xd (EC (new_context pd f cpu ev u oom)) s0 L R) as (s2 & E2 & Hb2 & HF);
    [by rewrite Hw|by rewrite Hw|rewrite Hw; lia|].
  unfold new_context in *. rewrite Hw in E2, Hb2, HF. rewrite E2. cbn [mbind option_bind].
  pose proof (setup_frame (brk (sps (wd s))) pd cpu u esp (quotas (wd s2) pd) (env (wd s2))) as Hfr.
  pose proof (cap_at_setup (brk (sps (wd s))) pd cpu u esp (quotas (wd s2) pd) (env (wd s2))) as Hse.
  destruct (ec_setup _ _ _ _ _ _ _) as [[phys q] e]. simpl in Hfr, Hse.
  set (s3 := set_wd (set_env e (set_quota pd q (wd s2))) s2).
  assert (fresh_root cur (brk (sps (wd s))) sel 0xd (EC (Ec (Some pd) f (wrap 16 cpu) ev u oom None 0 0)) (pd, EC_CACHE) s0 s3 L R) as HF3.
  { apply (fresh_env _ _ _ _ _ _ _ s2); [done|done|done|]. intros p i. unfold caps. simpl. apply Hse. }
  destruct (_ && _); [|by exists s0, s3, L, R].
  destruct (insert_utcb_fresh _ _ _ _ _ _ _ _ _ _ pd u (phys >> 12)%W HF3) as (ok & s4 & L' & R' & -> & HF4).
  - by rewrite Hw.
  - rewrite Hw. lia.
  - done.
  - rewrite Z.shiftr_div_pow2 by done. unfold word in *. split; [apply Z.div_pos|apply Z.div_lt_upper_bound]; lia.
  - rewrite Z.shiftr_div_pow2 by done. unfold word in *. assert (phys / 2 ^ 12 < 2 ^ 52) by (apply Z.div_lt_upper_bound; lia). lia.
  - by exists s0, s4, L', R'.
Qed.

(** The context goes again. *)
Lemma ec_undo n x pd sel a f cpu ev u oom c o s s2 : sound (S n) s → kobjs s pd = Some o → k_body o = PD c → pd ≠ kern →
  (∀ y, oom = Some y → y ≠ pd ∧ is_Some (kobjs s y)) →
  rooted false (option_list oom ++ [pd]) x sel a (EC (new_context pd f cpu ev u oom)) (pd, EC_CACHE) s s2 →
  ∃ s4, ec_destroy x s2 = Some s4 ∧ same s s4.
Proof.
  intros HS Hpd Hc Hk Hoom HR. pose proof HR as [Hx HW _ _ _ _ _]. unfold ec_destroy, ec_of. cbn [mbind option_bind].
  rewrite (with_refs_at _ _ _ _ _ HW). cbn [mbind option_bind k_body e_pd new_context user_utcb pt_oom worker].
  pose proof (rooted_live _ _ _ _ _ _ _ _ _ _ _ _ HS HR Hpd) as Hpx.
  (* the message area *)
  assert (∃ s3, (if u =? 0 then Some s2 else '(_, s) ← remove_utcb pd u s2; Some (charge pd (ec_unmap pd u) s)) = Some s3 ∧
            kobjs s3 = kobjs s2 ∧ quiet s s3) as (s3 & -> & Hk3 & HQ3).
  { pose proof (rooted_quiet _ _ _ _ _ _ _ _ HR) as HQ. destruct (u =? 0); [by exists s2|].
    destruct (remove_utcb_run pd u s2 (ro_sys _ _ _ _ _ _ _ _ _ HR) Hk) as (ok & s3 & -> & Hk3 & Hc3 & Hn3 & Hb3 & Hs3). cbn [mbind option_bind].
    destruct (charge_run pd (ec_unmap pd u) s3) as (Hk' & Hs' & Hc'); [intros; apply cap_at_unmap|].
    eexists. split; [reflexivity|]. split; [by rewrite Hk', Hk3|]. apply (quiet_step s s2); [done| | |by rewrite Hs', Hb3|by rewrite Hs'].
    - intros p i. by rewrite Hc', Hc3.
    - intros y. unfold node_of. rewrite Hs'. apply Hn3. }
  apply (with_refs_eq _ _ _ _ _ s3) in HW; [|done]. cbn [mbind option_bind].
  (* the portal for lack of memory *)
  assert (∃ s4, (match oom with None => Some s3
              | Some y => '(last, s) ← unref y s3; if last : bool then pt_destroy y s else Some s end) = Some s4 ∧
            wd s4 = wd s3 ∧ with_refs [pd] x (Some (Kobject (EC (new_context pd f cpu ev u oom)) refcount_new (pd, EC_CACHE))) s s4)
    as (s4 & -> & Hw4 & HW4).
  { destruct oom as [y|]; [|by exists s3]. destruct (Hoom y eq_refl) as [Hne [oy Hy]].
    destruct (unref_run n [pd] x _ s s3 y oy HS HW) as (s4 & _ & -> & Hw4 & HW4);
      [by rewrite list_elem_of_singleton|by eapply rooted_live|done|]. by exists s4. }
  cbn [mbind option_bind]. unfold cell_of. rewrite (with_refs_old _ _ _ _ _ _ _ HW4 Hpx Hpd), plus_one_in by left.
  cbn [mbind option_bind k_body set_ref]. rewrite Hc. cbn [mbind option_bind].
  assert (∀ s5, kobjs s5 = kobjs s4 → wd s5 = wd s4 →
    ∃ s6, (s ← drop_ref (Some pd) (charge pd (ec_cleanup x pd) s5); release x pd pd EC_CACHE s) = Some s6 ∧ same s s6) as Hend.
  { intros s5 Hk5 Hw5. destruct (charge_run pd (ec_cleanup x pd) s5) as (Hk' & Hs' & Hc'); [intros; apply cap_at_cleanup|].
    set (s5' := charge pd (ec_cleanup x pd) s5) in *.
    destruct (unref_run n [] x (Some (Kobject (EC (new_context pd f cpu ev u oom)) refcount_new (pd, EC_CACHE))) s s5' pd o HS)
      as (s6 & -> & _ & Hw6 & HW6);
      [apply (with_refs_eq _ _ _ _ s4); [done|by rewrite Hk']|by apply not_elem_of_nil|done|done|]. cbn [mbind option_bind].
    apply (undo_release n x (EC (new_context pd f cpu ev u oom)) pd EC_CACHE s s6 HS Hx); [|done].
    assert (sps (wd s6) = sps (wd s3)) as Hs6 by by rewrite Hw6, Hs', Hw5, Hw4.
    apply (quiet_step s s3); [done| |unfold node_of; by rewrite Hs6|by rewrite Hs6|rewrite Hs6; apply HQ3].
    intros p i. unfold caps. rewrite Hw6. change (cap_at p i (env (wd s5'))) with (caps s5' p i). rewrite Hc'. unfold caps. by rewrite Hw5, Hw4. }
  destruct c; cbn [negb].
  - cbn [mbind option_bind]. by apply Hend.
  - cbn [mbind option_bind]. by apply Hend.
Qed.

(** A worker is added to the new context. *)
Lemma add_worker_run n x pd sel a f cpu ev u oom c o s s2 : sound (S n) s → kobjs s pd = Some o → k_body o = PD c → pd ≠ kern →
  (∀ y, oom = Some y → y ≠ pd ∧ is_kind s y T_PT) →
  rooted true (option_list oom ++ [pd]) x sel a (EC (new_context pd f cpu ev u oom)) (pd, EC_CACHE) s s2 → word 64 a →
  ∃ s3, add_worker address pd x s2 = Some s3 ∧ makes T_EC a sel s (Finish SUCCESS) s3.
Proof.
  intros HS Hpd Hc Hk Hoom HR Ha. pose proof HR as [Hx HW Hn2 Hn Hb Hsys Hcaps].
  pose proof (rooted_live _ _ _ _ _ _ _ _ _ _ _ _ HS HR Hpd) as Hpx. pose proof (none_new _ _ _ HS Hx) as Hnone.
  assert (is_kind s pd T_PD) as Hkd by (pose proof (is_kind_some s pd o Hpd) as Hkd; by rewrite Hc in Hkd).
  unfold add_worker, cell_of, ec_of. rewrite (with_refs_old _ _ _ _ _ _ _ HW Hpx Hpd). cbn [mbind option_bind].
  rewrite plus_one_in by (apply elem_of_app; right; left). cbn [k_body set_ref]. rewrite Hc. cbn [mbind option_bind].
  rewrite (with_refs_at _ _ _ _ _ HW). cbn [mbind option_bind k_body].
  destruct (c && _).
  - destruct (charge_run pd (slab_alloc pd WORKER_CACHE) s2) as (Hk' & Hs' & Hc'); [intros; apply cap_at_alloc|].
    set (s2' := charge pd (slab_alloc pd WORKER_CACHE) s2) in *. unfold sm_new. pose proof (so_brk _ _ HS).
    destruct Hsys as (L & R & HY & HH).
    destruct (new_kobj_run pd pd pd SM_CACHE 0 0x3 (SM 0 None 0) s2' L R) as (s3 & -> & Hb3 & HF);
      [by rewrite Hs'|by rewrite Hs'|rewrite Hs'; lia|]. rewrite Hs' in *. set (m := brk (sps (wd s2))) in *.
    destruct HF as [_ F2 F3 F4 F5 F6 F7 F8 _ _]. assert (x ≠ m) as Hxm by lia.
    cbn [mbind option_bind]. rewrite F2, decide_False, Hk', (with_refs_at _ _ _ _ _ HW) by done. cbn [mbind option_bind].
    eexists. split; [reflexivity|]. set (s4 := note _ _).
    assert (∀ y, kobjs s4 y = if decide (y = x) then Some (Kobject (EC (set_worker (Some m) (new_context pd f cpu ev u oom))) refcount_new (pd, EC_CACHE))
              else if decide (y = m) then Some (Kobject (SM 0 None 0) refcount_new (pd, SM_CACHE)) else kobjs s2 y) as Hk4.
    { intros y. unfold s4. cbn [kobjs note]. rewrite kobjs_set. destruct (decide (y = x)); [done|]. by rewrite F2, Hk'. }
    assert (∀ y v, shape s y = Some v → shape s4 y = Some v) as Hshape.
    { intros y v Hv. assert (y < brk (sps (wd s)))%nat as Hlt.
      { apply (so_live _ _ HS). unfold shape in Hv. destruct (kobjs s y); [by eexists|done]. }
      pose proof (with_refs_shape _ _ _ _ _ y v HW ltac:(lia) Hv) as Hv2. unfold shape. rewrite Hk4.
      rewrite decide_False, decide_False by lia. exact Hv2. }
    assert (shape s4 m = Some ((T_SM, None), (pd, SM_CACHE))) as Hshm by (unfold shape; by rewrite Hk4, decide_False, decide_True by done).
    assert (∀ p i, caps s4 p i = caps s2 p i) as Hc4 by (intros p i; rewrite <-Hc', <-F3; done).
    left. split; [done|]. split; [split|exists x].
    + intros y oy Hy. assert (y < brk (sps (wd s)))%nat as Hlt by (apply (so_live _ _ HS); by eexists).
      exists (plus_one (option_list oom ++ [pd]) y oy). split; [|apply alike_plus].
      rewrite Hk4, decide_False, decide_False by lia. eapply with_refs_old; [done|lia|done].
    + intros y oy Hy. rewrite Hk4. destruct (decide (y = x)) as [->|]; [|destruct (decide (y = m)) as [->|]].
      * intros [= <-]. split_and!; [|done|unfold s4; cbn [wd note set_kobj]; lia]. exists pd. split_and!; [done|..].
        -- destruct Hkd as (p & h & Hkd). exists p, h. by apply Hshape.
        -- done.
        -- intros z Hz. destruct (Hoom z Hz) as [_ (p & h & Hp)]. exists p, h. by apply Hshape.
        -- intros z [= <-]. by exists None.
      * intros [= <-]. split_and!; [|done|unfold s4; cbn [wd note set_kobj]; lia]. split; [|done]. exists pd. split; [|done].
        unfold s4. cbn [wd note set_kobj]. by rewrite F7.
      * rewrite HW, Hy, decide_False by done. done.
    + intros p i. rewrite Hc4, Hcaps. destruct (decide (_ ∧ _)); [right|by left]. exists x, a.
      split_and!; [done|done| |lia]. rewrite Hk4, decide_True by done. by eexists.
    + intros y Hy. unfold s4. cbn [wd note set_kobj]. rewrite F8 by (rewrite Hs'; lia). unfold node_of at 1. rewrite Hs'. by apply Hn.
    + unfold s4. cbn [wd note set_kobj]. lia.
    + exists L, R. done.
    + eexists. split_and!; [done|by rewrite Hk4, decide_True|done|]. intros p i. rewrite Hc4, Hcaps.
      destruct (decide (p = cur ∧ i = sel)), (decide (true = true ∧ p = cur ∧ i = sel)); tauto || done.
  - eexists. split; [reflexivity|]. eapply rooted_makes; try done. exists pd. cbn [new_context e_pd pt_oom worker k_home].
    assert (∀ y v, y ≠ x → shape s y = Some v → shape s2 y = Some v) as Hshape by (intros; by eapply with_refs_shape).
    split_and!; [done| |done| |done].
    + destruct Hkd as (p & h & Hkd). exists p, h. by apply Hshape.
    + intros z Hz. destruct (Hoom z Hz) as [_ (p & h & Hp)]. exists p, h. apply Hshape; [|done]. intros ->.
      unfold shape in Hp. by rewrite Hnone in Hp.
Qed.

Lemma create_ec_makes n (r : Vregs.mem) s : sound (S n) s → (∀ i, word 64 (r i)) →
  ∃ out s', sys_create_ec address object_at kern root cur has_oom cpu_online vcpus r s = Some (out, s') ∧
    makes T_EC 0xd (Sys_create_ec_sel r) s out s'.
Proof.
  intros HS Hr. destruct (selector _ (Hr ARG_1)) as [Hs0 Hs1]. unfold sys_create_ec. apply (checked_makes (S n)); [done|].
  destruct (negb (cpu_online _)); [nothing HS|]. destruct (_ && _); [nothing HS|].
  destruct (object_of_run _ _ (Sys_create_ec_pd r) HS) as (k & -> & Hk). cbn [mbind option_bind].
  destruct k as [[pd o]|]; [|nothing HS]. cbn [is_pd mbind option_bind]. destruct (Hk pd o eq_refl) as [Hpd Hkern].
  destruct (k_body o) as [c| | | |] eqn:Eb; try nothing HS. destruct (negb (may _ _)); [nothing HS|].
  destruct (over_limit pd 7 s); [nothing HS|]. destruct (_ || _); [nothing HS|].
  unfold insert_utcb at 1. rewrite orb_true_l || rewrite Z.eqb_refl. cbn [orb mbind option_bind negb].
  destruct (object_of_run _ _ (Sys_create_ec_sel r + 1)%W HS) as (k' & -> & Hk'). cbn [mbind option_bind].
  set (oom := '(y, _, _, _, _) ← is_pt k'; Some y).
  assert (∀ y, oom = Some y → y ≠ pd ∧ ∃ oy, kobjs s y = Some oy ∧ (sort (k_body oy)).1 = T_PT) as Hoom.
  { intros y. unfold oom. destruct k' as [[z oz]|]; [|done]. cbn [is_pt mbind option_bind]. destruct (Hk' z oz eq_refl) as [Hz _].
    destruct (k_body oz) eqn:Ez; try done. intros [= <-]. split; [intros ->; rewrite Hz in Hpd; injection Hpd as ->; by rewrite Eb in Ez|].
    exists oz. by rewrite Ez. }
  assert (word 64 (Sys_create_ec_utcb r)) as Hu by (apply land_word_l; [done|apply Hr]).
  assert (∀ y, oom = Some y → y ≠ pd ∧ is_Some (kobjs s y)) as Hoom1 by (intros y Hy; destruct (Hoom y Hy) as (? & oy & ? & _); split; [done|by eexists]).
  assert (∀ y, oom = Some y → y ≠ pd ∧ is_kind s y T_PT) as Hoom2.
  { intros y Hy. destruct (Hoom y Hy) as (? & oy & Ho & Ht). split; [done|]. rewrite <-Ht. by apply is_kind_some. }
  destruct (ec_new_run n pd (Sys_create_ec_sel r) (truthy (Vregs.flags r .& 1)%W) (Sys_create_ec_cpu r) (Sys_create_ec_evt r)
    (Sys_create_ec_utcb r) (Sys_create_ec_esp r) oom o s HS Hu Hpd Hoom1) as (s0 & s1 & L & R & -> & HB & HF).
  cbn [mbind option_bind]. pose proof (so_brk _ _ HS).
  destruct (insert_root_run cur pd _ _ _ _ _ _ _ _ _ HF user Hs0 Hs1) as (ok & s2 & -> & K1 & K2 & K3 & (L' & R' & K4 & K4' & _) & K5); [lia|].
  assert (inserted_root ok (brk (sps (wd s))) (Sys_create_ec_sel r) 0xd s1 s2) as HI by (split; try done; by exists L', R').
  pose proof (rooted_of n _ _ _ _ _ _ _ _ _ _ _ _ _ HS HB HF HI) as HR. cbn [mbind option_bind]. destruct ok; cbn [negb].
  - destruct (add_worker_run n _ _ _ _ _ _ _ _ _ _ _ _ _ HS Hpd Eb Hkern Hoom2 HR) as (s3 & -> & HM); [done|]. cbn [mbind option_bind].
    by eexists _, _.
  - destruct (ec_undo n _ _ _ _ _ _ _ _ _ _ _ _ _ HS Hpd Eb Hkern Hoom1 HR) as (s4 & -> & H4). cbn [mbind option_bind].
    eexists _, _. split; [reflexivity|]. by right.
Qed.

(** *** Control *)

(** The data of objects changes where [sound] does not look. *)
Record redrawn s s' : Prop := {
  rd_kobjs y : match kobjs s y, kobjs s' y with
               | Some o, Some o' => alike o o' ∧ k_ref o' = k_ref o
               | None, None => True
               | _, _ => False
               end;
  rd_env : env (wd s') = env (wd s);
  rd_sps : sps (wd s') = sps (wd s);
}.

Lemma redrawn_refl s : redrawn s s.
Proof. split; [|done|done]. intros y. destruct (kobjs s y); [|done]. split; [apply alike_refl|done]. Qed.

Lemma redrawn_trans s1 s2 s3 : redrawn s1 s2 → redrawn s2 s3 → redrawn s1 s3.
Proof.
  intros [K1 E1 P1] [K2 E2 P2]. split; [|congruence|congruence]. intros y. specialize (K1 y). specialize (K2 y).
  destruct (kobjs s1 y) as [o1|], (kobjs s2 y) as [o2|], (kobjs s3 y) as [o3|]; try done.
  destruct K1 as [(A1 & A2 & A3) R1], K2 as [(B1 & B2 & B3) R2]. split; [|congruence]. split; [congruence|]. split; [congruence|].
  destruct (k_body o1), (k_body o2), (k_body o3); try done; try discriminate. intuition congruence.
Qed.

Lemma redrawn_body s x o b : kobjs s x = Some o → alike o (set_body b o) → redrawn s (set_kobj x (Some (set_body b o)) s).
Proof.
  intros Hx Ha. split; [|done|done]. intros y. rewrite kobjs_set. destruct (decide (y = x)) as [->|]; [by rewrite Hx|].
  destruct (kobjs s y); [|done]. split; [apply alike_refl|done].
Qed.

Lemma redrawn_wd s s' : kobjs s' = kobjs s → env (wd s') = env (wd s) → sps (wd s') = sps (wd s) → redrawn s s'.
Proof. intros Hk He Hs. split; [|done|done]. intros y. rewrite Hk. destruct (kobjs s y); [|done]. split; [apply alike_refl|done]. Qed.

Lemma sound_redrawn n s s' : sound n s → redrawn s s' → sound n s'.
Proof.
  intros [S1 S2 S3 S4 S5 S6 S7 S8] [Hk He Hs].
  assert (∀ y, shape s' y = shape s y) as Hsh.
  { intros y. unfold shape. specialize (Hk y). destruct (kobjs s y), (kobjs s' y); try done. destruct Hk as [(A1 & A2 & _) _]. simpl. by rewrite A1, A2. }
  assert (∀ y, is_Some (kobjs s' y) ↔ is_Some (kobjs s y)) as Hlive.
  { intros y. specialize (Hk y). destruct (kobjs s y), (kobjs s' y); done. }
  split; rewrite ?Hs; try done.
  - intros p i. unfold caps. rewrite He. setoid_rewrite Hlive. apply S3.
  - intros x o' Hx. specialize (Hk x). rewrite Hx in Hk. destruct (kobjs s x) as [o|] eqn:E0; [|done]. destruct Hk as [Ha _].
    apply (shape_mono s s' x o o'); [intros y v; by rewrite Hsh|unfold node_of; by rewrite Hs|done|by apply S4].
  - intros x o' Hx. specialize (Hk x). rewrite Hx in Hk. destruct (kobjs s x) as [o|] eqn:E0; [|done]. destruct Hk as [_ ->]. by apply (S5 x).
  - intros x. rewrite Hlive. apply S6.
  - unfold is_kind. by setoid_rewrite Hsh.
Qed.

Context (cross_time killed_time ec_killed_time : Z → Z).

#[local] Ltac unchanged := eexists _, _, _; split; [reflexivity|apply redrawn_refl].

Lemma pt_ctrl_redraws n r s : sound n s →
  ∃ out s', sys_pt_ctrl object_at cur has_oom r s = Some (out, s') ∧ redrawn s s'.
Proof.
  intros HS. unfold sys_pt_ctrl, checked, check. destruct (over_limit cur 1 s); [by eexists _, _; split; [reflexivity|apply redrawn_refl]|].
  destruct (object_of_run _ _ (Sys_pt_ctrl_pt r) HS) as (k & -> & Hk). cbn [mbind option_bind].
  destruct k as [[x o]|]; [|by eexists _, _; split; [reflexivity|apply redrawn_refl]]. destruct (Hk x o eq_refl) as [Hx _].
  cbn [is_pt mbind option_bind]. destruct (k_body o) eqn:Eb; try (by eexists _, _; split; [reflexivity|apply redrawn_refl]).
  destruct (truthy _); [|by eexists _, _; split; [reflexivity|apply redrawn_refl]]. rewrite Hx. cbn [mbind option_bind].
  eexists _, _. split; [reflexivity|]. apply redrawn_body; [done|]. unfold alike. by rewrite Eb.
Qed.

Lemma pd_ctrl_redraws n r s : sound n s →
  ∃ out r' s', sys_pd_ctrl object_at cur has_oom r s = Some (out, r', s') ∧ redrawn s s'.
Proof.
  intros HS. unfold sys_pd_ctrl, check. destruct (over_limit cur 1 s); [unchanged|].
  destruct (object_of_run _ _ (Sys_pd_ctrl_src r) HS) as (k & -> & Hk). cbn [mbind option_bind].
  destruct k as [[x o]|]; [|unchanged]. destruct (Hk x o eq_refl) as [Hx _]. cbn [is_pd mbind option_bind].
  destruct (k_body o) eqn:Eb; try unchanged. destruct (truthy (Sys_pd_ctrl_dbg r)); [unchanged|].
  destruct (truthy (Sys_pd_ctrl_del r)).
  - unfold cell_of. rewrite Hx. cbn [mbind option_bind]. rewrite Eb. cbn [mbind option_bind]. destruct (negb cell); [unchanged|].
    eexists _, _, _. split; [reflexivity|]. eapply redrawn_trans; [apply (redrawn_body s x o (PD false)); [done|]|by apply redrawn_wd].
    unfold alike. by rewrite Eb.
  - destruct (object_of_run _ _ (Sys_pd_ctrl_dst r) HS) as (k' & -> & _). cbn [mbind option_bind].
    destruct (is_pd k'); [|unchanged]. destruct (transfer_out _ _ _) as [[q o']|]; [|unchanged].
    eexists _, _, _. split; [reflexivity|]. by apply redrawn_wd.
Qed.

Lemma sc_ctrl_redraws n r s : sound n s →
  ∃ out r' s', sys_sc_ctrl object_at kern cur has_oom freq_tsc cross_time killed_time ec_killed_time r s = Some (out, r', s') ∧ redrawn s s'.
Proof.
  intros HS. unfold sys_sc_ctrl, check. destruct (over_limit cur 1 s); [unchanged|].
  destruct (object_of_run _ _ (Sys_sc_ctrl_sc r) HS) as (k & -> & Hk). cbn [mbind option_bind].
  destruct k as [[x o]|]; [|unchanged]. destruct (Hk x o eq_refl) as [Hx _]. cbn [is_sc mbind option_bind].
  destruct (k_body o) as [| |e c| |] eqn:Eb; try unchanged. destruct (negb (may _ _)); [unchanged|]. rewrite Hx. cbn [mbind option_bind].
  set (t := if negb _ && _ then _ else _).
  assert (∀ v, t = Some v → redrawn s v.2) as Ht.
  { intros v. unfold t. destruct (_ && _); [destruct (_ =? 1); [|destruct (_ =? 2); [|destruct (_ =? 3); [|done]]]; intros [= <-]; apply redrawn_refl|].
    intros [= <-]. apply redrawn_body; [done|]. unfold alike. by rewrite Eb. }
  destruct t as [[[sc_time ec_time] s1]|]; [|unchanged]. specialize (Ht _ eq_refl).
simpl in Ht. destruct (_ =? 3); [|by eexists _, _, _].
  destruct (ec_time =? 0); [|cbn [mbind option_bind]; by eexists _, _, _].
  destruct (object_of_run n s1 (Sys_sc_ctrl_ec r)) as (k' & -> & Hk'); [by eapply sound_redrawn|]. cbn [mbind option_bind].
  destruct k' as [[y oy]|]; [|by eexists _, _, _]. destruct (Hk' y oy eq_refl) as [Hy _]. cbn [is_ec mbind option_bind].
  destruct (k_body oy) eqn:Ey; try (by eexists _, _, _). rewrite Hy. cbn [mbind option_bind]. eexists _, _, _. split; [reflexivity|].
  eapply redrawn_trans; [done|]. apply redrawn_body; [done|]. unfold alike. by rewrite Ey.
Qed.
End sound.
