(* ===== verification/HypercallSpec.v ===== *)
(** What the hypercalls of [Hypercall] promise: a creating hypercall makes one
    object and one capability or nothing, sequences of hypercalls run and leave
    every capability with an object, and where a handler fails. *)
From S2P Require Import Prelude Bits Bitmap Cpuset Quota Buddy Tip Rcu Vregs Sysargs Crd Queue Sc Avl AvlRemove Mdb Space Derivation HptOps Pd Kobject Hypercall HypercallSound.
Local Open Scope Z_scope.


Section spec.
Context {E : Type} `{PdEnv E} `{ObjEnv E} `{!ObjEnvOk E}.
Context (address : obj → Z) (object_at : Z → option obj) (kern root cur : obj).
Context (has_oom : bool) (cpu_online : Z → bool) (vcpus : bool) (freq_tsc : Z).
Context (cross_time killed_time ec_killed_time : Z → Z).
Implicit Types (s : kernel E).

Hypothesis addresses : ∀ x, Z.of_nat x < 2 ^ 58 →
  object_at (address x) = Some x ∧ word 64 (address x) ∧ address x mod 32 = 0 ∧ address x ≠ 0.
Hypothesis user : cur ≠ kern.

#[local] Abbreviation sound := (HypercallSound.sound object_at kern cur).
#[local] Abbreviation makes := (HypercallSound.makes address kern cur).











(** *** Semaphores asked for with another domain *)

(** A root does not enter the space of the caller where there is one. *)
Lemma root_taken n ps payer home hp k sel a b s s0 y s1 ok s2 : sound (S n) s → bumped ps s s0 → 0 ≤ sel → sel + 1 < 2 ^ 64 →
  tree_lookup (subspace cur OBJ) sel false (sps (wd s)) = Some (Some y) →
  new_kobj address cur home hp k sel a b s0 = (brk (sps (wd s)), s1) →
  insert_root address kern payer (brk (sps (wd s))) s1 = Some (ok, s2) → ok = false.
Proof.
  intros HS HB Hsel Hsel' Hl. destruct (so_sys _ _ _ _ _ HS) as (L & R & HY & _). pose proof (so_brk _ _ _ _ _ HS).
  unfold new_kobj. destruct (charge_run hp (slab_alloc home k) s0) as (_ & -> & _); [intros; apply cap_at_alloc|].
  rewrite (bu_wd _ _ _ HB). destruct (new_mdb _ _ _ _ _ _ _ _ _) as [x sp] eqn:En.
  destruct (system_new _ _ _ _ _ _ _ _ _ _ _ _ _ HY En) as (HY' & Hf & -> & Hb' & Hx & Hy & HL & _); [lia|].
  intros [= <-]. unfold insert_root. cbn [wd set_kobj set_wd sps set_sps].
  set (x := brk (sps (wd s))) in *. pose proof (sy_spaces _ _ _ HY) as HV. pose proof (sy_spaces _ _ _ HY') as HV'.
  destruct (tree_lookup_spec (sps (wd s)) (subspace cur OBJ) (L (subspace cur OBJ)) sel false) as (r & Hr & Hreg);
    [apply HV|by eapply spaces_few|]. rewrite Hl in Hr. injection Hr as <-. destruct Hreg as [Hin [Hreg|(? & _)]]; [|done].
  destruct (tree_insert_spec sp (subspace cur OBJ) (L (subspace cur OBJ)) x) as [_ Hno];
    [apply HV'|by eapply spaces_few|by rewrite Hx|unfold region_wf; rewrite Hx; simpl; rewrite Z.mod_1_r; lia|done|done|lia|].
  rewrite Hno; [by intros [= <- _]|]. intros Hd. apply (Hd y sel Hin).
  - unfold region. rewrite Hx. simpl. lia.
  - unfold region in *. rewrite Hy; [done|]. intros ->. by apply (HL (subspace cur OBJ)).
Qed.

(** A semaphore asked for with the capability of another domain, at a selector
    that is taken, is destroyed for that domain, although it lies in a slab of the
    caller: the hypercall does not end, it fails the assertion that the slab is of
    the cache.  A domain with a capability that allows semaphores in another domain
    can do this. *)
Theorem create_sm_foreign n (r : Vregs.mem) s (pd y : obj) :
  sound (S n) s → word 64 (r ARG_1) → over_limit cur 0 s = false →
  let c := lookup_cap cur (Sys_create_sm_pd r) s in
  (∃ k, object_of object_at c s = Some k ∧ is_pd k = Some pd) → may c T_SM = true → over_limit pd 1 s = false →
  Sys_create_sm_sm r = 0 → pd ≠ cur → tree_lookup (subspace cur OBJ) (Sys_create_sm_sel r) false (sps (wd s)) = Some (Some y) →
  sys_create_sm address object_at kern cur has_oom r s = None.
Proof.
  intros HS Hr H0' c (k & Hk & Hpd) Hmay Hlim Hsm Hne Hl. assert (0 ≤ Sys_create_sm_sel r ∧ Sys_create_sm_sel r + 1 < 2 ^ 64) as [Hs0 Hs1] by by eapply selector.
  unfold sys_create_sm, checked, check. rewrite H0'. fold c. rewrite Hk. cbn [mbind option_bind]. rewrite Hpd, Hmay, Hlim, Hsm, Z.eqb_refl.
  cbn [negb mbind option_bind]. unfold sm_new.
  edestruct (root_run address object_at kern cur) with (payer := pd) (home := cur) (hp := cur) (k := SM_CACHE) (sel := Sys_create_sm_sel r) (a := 0x3)
    (b := SM (Sys_create_sm_cnt r) None 0) (s0 := s) as (s1 & ok & s2 & E1 & E2 & HR); [done..|apply bumped_nil|done|done|].
  rewrite E1. cbn [mbind option_bind]. rewrite E2. cbn [mbind option_bind].
  rewrite (root_taken _ _ _ _ _ _ _ _ _ _ _ _ _ _ _ HS (bumped_nil s) Hs0 Hs1 Hl E1 E2) in *. cbn [negb].
  rewrite sm_destroy_step, (with_refs_at _ _ _ _ _ (ro_refs _ _ _ _ _ _ _ _ _ _ _ _ HR)). cbn [mbind option_bind k_body].
  unfold release. rewrite (with_refs_at _ _ _ _ _ (ro_refs _ _ _ _ _ _ _ _ _ _ _ _ HR)). cbn [mbind option_bind k_home].
  rewrite decide_False by congruence. done.
Qed.

(** *** Domains without memory *)

(** A quota with nothing to give. *)
Definition bare (q : quota) : Prop := ∃ u k, word 64 u ∧ q = Quota u 0 0 k.

Lemma bare_hit q : bare q → hit_limit q 1 = true.
Proof. by intros (u & k & _ & ->). Qed.

Lemma bare_guard q : bare q → guard_destroy quota_new q = q.
Proof.
  intros (u & k & Hu & ->). unfold guard_destroy, free_up, free_up_give, quota_new. simpl.
  unfold wadd. rewrite Z.add_0_r, wrap_small by done. done.
Qed.

Lemma set_limit_bare h l from ok q from' : set_limit quota_new l h from = (ok, q, from') → h = 0 → ok = true → bare q.
Proof.
  unfold set_limit, transfer_to. intros E0 -> ->. destruct (transfer_out _ _ _) as [[q' o]|]; [|done]. injection E0 as <- _.
  exists 0, l. by split.
Qed.

(** The spaces, the devices of [x] and its quota stay, and so do capabilities. *)
Record idle (x : obj) (w w' : world E) : Prop := {
  id_sps : sps w' = sps w;
  id_devs : devs w' = devs w;
  id_quota : quotas w' x = quotas w x;
  id_caps p i : cap_at p i (env w') = cap_at p i (env w);
}.

Lemma idle_refl x w : idle x w w.
Proof. by split. Qed.

Lemma idle_trans x w1 w2 w3 : idle x w1 w2 → idle x w2 w3 → idle x w1 w3.
Proof. intros [A1 A2 A3 A4] [B1 B2 B3 B4]. split; [congruence..|]. intros p i. by rewrite B4. Qed.

(** A domain without memory gets nothing delegated. *)
Lemma delegate_idle fuel t x snd b v o a sub w ok w' : bare (quotas w x) →
  delegate t x snd b v o a sub fuel w = Some (ok, w') → idle x w w'.
Proof.
  intros Hq. unfold delegate. destruct (delegate_loop _ _ _ _ _ _ _ _ _ _ _ _ _) as [[[[s ret] qg] w1]|] eqn:El; [|done].
  assert (qg = quota_new ∧ idle x w w1) as [-> H1].
  { destruct fuel as [|fuel]; [done|]. cbn [Pd.delegate_loop] in El. destruct (tree_lookup _ _ _ _) as [[m|]|]; [| |done].
    - cbn [mbind option_bind] in El. destruct (clamp _ _ _ _) as [[o' b']|]; [|done]. cbn [mbind option_bind] in El. destruct (o' =? ones64).
      + injection El as <- <- <- <-. split; [done|apply idle_refl].
      + unfold delegate_one in El. rewrite (bare_hit _ Hq) in El. cbn [mbind option_bind] in El. injection El as <- <- <- <-. by repeat split.
    - cbn [mbind option_bind] in El. injection El as <- <- <- <-. split; [done|apply idle_refl]. }
  assert (bare (quotas w1 x)) as Hq1 by by rewrite (id_quota _ _ _ H1).
  assert (∀ w2, idle x w w2 → bare (quotas w2 x) → idle x w (end_guard x quota_new w2)) as Hend.
  { intros w2 [A1 A2 A3 A4] Hq2. unfold end_guard. rewrite bare_guard by done. split; try done. simpl. by rewrite fn_lookup_insert. }
  destruct ret; [intros [= _ <-]; by apply Hend|]. change (guard_check quota_new (quotas w1 x) 0) with (true, quota_new, quotas w1 x).
  intros [= _ <-]. apply Hend; [|by simpl; rewrite fn_lookup_insert]. destruct H1 as [A1 A2 A3 A4]. split; try done.
  simpl. by rewrite fn_lookup_insert.
Qed.

Lemma delegate_all_idle fuel x l : ∀ w w', bare (quotas w x) → delegate_all kern fuel x l w = Some w' → idle x w w'.
Proof.
  induction l as [|[[p v] o] l IH]; intros w w' Hq; simpl; [intros [= ->]; apply idle_refl|].
  destruct (delegate _ _ _ _ _ _ _ _ _ _) as [[ok w1]|] eqn:E1; [|done]. cbn [mbind option_bind]. intros Hl.
  pose proof (delegate_idle _ _ _ _ _ _ _ _ _ _ _ _ Hq E1) as H1. apply (idle_trans _ _ w1); [done|]. apply IH; [|done].
  by rewrite (id_quota _ _ _ H1).
Qed.

(** Revocation of an empty space. *)
Lemma revoke_idle fuel t x b o a w w' : (∀ b, tree_lookup (subspace x t) b true (sps w) = Some None) →
  revoke t x fuel b o a true false w = Some w' → idle x w w'.
Proof.
  intros Hl. unfold revoke. destruct fuel; [done|]. cbn [revoke_loop]. rewrite Hl. cbn [mbind option_bind]. intros [= <-].
  destruct (_ && _); [|apply idle_refl]. split; try done. intros p i. unfold flush_iommu, flush_pgt. cbn [env set_hazard set_env].
  generalize (env w) (seq 0 7). intros e l. revert e. induction l as [|j l IH]; intros e; [done|]. cbn [foldl]. rewrite IH.
  destruct (truthy _); [apply cap_at_flush|done].
Qed.

Lemma pre_free_idle fuel x w w' : (∀ t b, tree_lookup (subspace x t) b true (sps w) = Some None) → rids_u (devs w x) = 0 →
  pre_free x fuel w = Some w' → idle x w w'.
Proof.
  intros Hl Hd. unfold pre_free.
  destruct (revoke MEM _ _ _ _ _ _ _ w) as [w1|] eqn:E1; [|done]. cbn [mbind option_bind]. apply revoke_idle in E1; [|done].
  destruct (revoke PIO _ _ _ _ _ _ _ w1) as [w2|] eqn:E2; [|done]. cbn [mbind option_bind]. apply revoke_idle in E2; [|by rewrite (id_sps _ _ _ E1)].
  pose proof (idle_trans _ _ _ _ E1 E2) as H2.
  destruct (revoke OBJ _ _ _ _ _ _ _ w2) as [w3|] eqn:E3; [|done]. cbn [mbind option_bind]. apply revoke_idle in E3; [|by rewrite (id_sps _ _ _ H2)].
  pose proof (idle_trans _ _ _ _ H2 E3) as H3. intros [= <-].
  unfold release_rid. assert (∀ l, foldl (λ w i, release_one x i w) w3 l = w3) as ->; [|done].
  induction l as [|i l IH]; [done|]. cbn [foldl]. unfold release_one at 2, rid_used.
  rewrite (id_devs _ _ _ H3), Hd. by rewrite Z.land_0_l.
Qed.

Lemma pd_delete_idle fuel x s s' : (∀ t b, tree_lookup (subspace x t) b true (sps (wd s)) = Some None) → rids_u (devs (wd s) x) = 0 →
  pd_delete kern fuel x s = Some s' → kobjs s' x = None ∧ ∀ p i, caps s' p i = caps s p i.
Proof.
  intros Hl Hd. unfold pd_delete. destruct (pre_free x fuel (wd s)) as [w|] eqn:Ew; [|done]. cbn [mbind option_bind].
  apply pre_free_idle in Ew; [|done|done]. destruct (charge_run x (pd_clear x) (set_wd w s)) as (_ & _ & Hc); [intros; apply cap_at_clear|].
  set (s1 := charge x (pd_clear x) (set_wd w s)) in *. destruct (owner x s1) as [p|]; [|done]. cbn [mbind option_bind].
  destruct (free_up _ _) as [q to]. set (s2 := set_wd _ s1). unfold release.
  destruct (kobjs s2 x) as [o|]; [|done]. cbn [mbind option_bind]. destruct (decide _); [|done]. intros [= <-].
  destruct (charge_run p (slab_free kern PD_CACHE) s2) as (_ & _ & Hc2); [intros; apply cap_at_free|]. split.
  - by rewrite kobjs_set, decide_True.
  - intros p' i. change (caps (set_kobj x None (charge p (slab_free kern PD_CACHE) s2)) p' i) with (caps (charge p (slab_free kern PD_CACHE) s2) p' i).
    rewrite Hc2. change (caps s2 p' i) with (caps s1 p' i). rewrite Hc. apply (id_caps _ _ _ Ew).
Qed.

Lemma insert_root_wd payer x s ok s' : insert_root address kern payer x s = Some (ok, s') →
  hazard (wd s') = hazard (wd s) ∧ devs (wd s') = devs (wd s) ∧
  (quotas (wd s') payer = quotas (wd s) payer ∨ ∃ p i c e, quotas (wd s') payer = (cap_put p i c (quotas (wd s) payer) e).1).
Proof.
  unfold insert_root. destruct (tree_insert _ _) as [[k sp]|]; [|done]. cbn [mbind option_bind]. destruct k; cbn [negb]; [|intros [= <- <-]; auto].
  destruct (space _) as [q|]; [|done]. cbn [mbind option_bind]. destruct (decide _); [intros [= <- <-]; by auto|]. unfold charge.
  cbn [wd set_wd quotas set_sps env]. destruct (cap_put _ _ _ (quotas (wd s) payer) (env (wd s))) as [q' e'] eqn:Ep. intros [= <- <-].
  split; [done|]. split; [done|]. right. cbn [wd set_wd quotas set_env set_quota]. rewrite fn_lookup_insert.
  eexists _, _, _, (env (wd s)). by rewrite Ep.
Qed.

Lemma new_kobj_wd own home payer k sel a b s x s' : new_kobj address own home payer k sel a b s = (x, s') → hazard (wd s') = hazard (wd s).
Proof.
  unfold new_kobj, charge. destruct (slab_alloc _ _ _ _) as [q e]. destruct (new_mdb _ _ _ _ _ _ _ _ _) as [z sp].
  by intros [= <- <-].
Qed.

Lemma bare_put q x s3 s4 : bare q → quotas (wd s3) x = q →
  (∀ p i c q e, word 64 (used q) → ∃ u, word 64 u ∧ (cap_put p i c q e).1 = Quota u (over q) (upli q) (notr q)) →
  quotas (wd s4) x = quotas (wd s3) x ∨ (∃ p i c e, quotas (wd s4) x = (cap_put p i c (quotas (wd s3) x) e).1) → bare (quotas (wd s4) x).
Proof.
  intros Hq Hq3 Hput [Hq4|(p & i & c & e & Hq4)]; rewrite Hq4, Hq3; [done|]. destruct Hq as (u & k & Hu & ->).
  destruct (Hput p i c (Quota u 0 0 k) e Hu) as (u' & Hu' & ->). by exists u', k.
Qed.

Lemma other_subspace p t q t' : p ≠ q → subspace p t ≠ subspace q t'.
Proof. intros Hpq Heq. apply Hpq. destruct t, t'; unfold subspace in Heq; simpl in Heq; lia. Qed.

Lemma cur_old n s : sound n s → cur ≠ brk (sps (wd s)).
Proof.
  intros HS Heq. destruct (so_cur _ _ _ _ _ HS) as (p & h & Hs). unfold shape in Hs. destruct (kobjs s cur) eqn:Ec; [|done].
  by eapply live_old in Ec.
Qed.

Lemma prm_word c : word 64 (Crd.prm c).
Proof. unfold Crd.prm, word. change perm with (2 ^ 5 - 1). rewrite land_low by done. pose proof (Z.mod_pos_bound c (2 ^ 5)). lia. Qed.

Lemma may_truthy c t : may c t = true → truthy (Crd.prm c) = true.
Proof.
  unfold may. rewrite !truthy_true. intros Hc Hz. apply Hc. by rewrite Hz.
Qed.

(** The end of the handler without capabilities to delegate, behind the insertion
    of the domain. *)
Lemma create_pd_tail fuel x crd (regions : option (list (Z * Z * Z))) s s' : bare (quotas (wd s) x) → type crd = 0 → rids_u (devs (wd s) x) = 0 →
  (∀ t b, tree_lookup (subspace x t) b true (sps (wd s)) = Some None) →
  ('(_, w) ← del_crd x cur fuel (crd_all (type_val OBJ)) crd 0 0 (wd s);
   l ← regions;
   w ← delegate_all kern fuel x l w;
   let s := set_wd w s in if pending HZD_OOM (wd s) then no_memory_left kern fuel x s else Some (Finish SUCCESS, s)) = Some (Finish QUO_OOM, s') →
  kobjs s' x = None ∧ ∀ p i, caps s' p i = caps s p i.
Proof.
  intros Hbare Hcrd Hd Hl. assert (del_crd x cur fuel (crd_all (type_val OBJ)) crd 0 0 (wd s) = Some (crd_of 0, wd s)) as ->.
  { unfold del_crd. by rewrite Hcrd. }
  cbn [mbind option_bind]. destruct regions as [l|]; [|done]. cbn [mbind option_bind].
  destruct (delegate_all kern fuel x l (wd s)) as [w|] eqn:Ew; [|done]. cbn [mbind option_bind].
  apply delegate_all_idle in Ew; [|done]. cbn [wd set_wd]. destruct (pending HZD_OOM w); [|done].
  unfold no_memory_left. cbn [wd set_wd]. destruct (pd_delete kern fuel x _) as [s6|] eqn:E6; [|done].
  cbn [mbind option_bind]. intros [= <-]. apply pd_delete_idle in E6 as [Hgone Hc]; [split; [done|]| |].
  - intros p i. rewrite Hc. unfold caps. cbn [wd set_wd env set_hazard]. apply (id_caps _ _ _ Ew).
  - intros t b. cbn [wd set_wd sps set_hazard]. rewrite (id_sps _ _ _ Ew). apply Hl.
  - cbn [wd set_wd devs set_hazard]. by rewrite (id_devs _ _ _ Ew).
Qed.

(** The spaces of a new domain are empty. *)
Lemma lookup_empty sp L R k b : system sp L R → L k = [] → tree_lookup k b true sp = Some None.
Proof.
  intros HY Hk. destruct (lookup_next sp L R k b HY) as (r & -> & Hr). destruct r as [y|]; [|done].
  destruct Hr as [Hr _]. rewrite Hk in Hr. by apply elem_of_nil in Hr.
Qed.

Lemma empty_lookup sp L R k : system sp L R → (∀ b, tree_lookup k b true sp = Some None) → L k = [].
Proof.
  intros HY Hl. destruct (L k) as [|y l] eqn:El; [done|]. destruct (lookup_next sp L R k 0 HY) as (r & Hr & Hn).
  rewrite Hl in Hr. injection Hr as <-. assert (y ∈ L k) as Hy by (rewrite El; left). specialize (Hn y Hy).
  destruct (sy_ok _ _ _ HY k y Hy) as (? & ? & _). unfold top in Hn. pose proof (pow2_pos (node_order (mem sp y))). lia.
Qed.

(** A new domain without a limit, made with capabilities for nobody, has no
    memory for the topology pages; the hypercall notices, deletes the domain and
    ends with [QUO_OOM] -- and the caller keeps a capability for the domain that is
    gone.  Deleting an object directly, behind its insertion, does not take the
    capability out of the space.  The law on [cap_put] says that storing a
    capability may charge a quota and nothing else; names of domains to come have
    no spaces. *)
Theorem create_pd_dangles (FRAME_T : Z) (fuel : nat) n (r : Vregs.mem) s s' :
  (∀ p i c q e, word 64 (used q) → ∃ u, word 64 u ∧ (cap_put p i c q e).1 = Quota u (over q) (upli q) (notr q)) →
  (∀ t b, tree_lookup (subspace (brk (sps (wd s))) t) b true (sps (wd s)) = Some None) →
  sound (S n) s → word 64 (r ARG_1) → over_limit cur 0 s = false → pending HZD_OOM (wd s) = false →
  (∀ k pd, object_of object_at (lookup_cap cur (Sys_create_pd_pd r) s) s = Some k → is_pd k = Some pd → over_limit pd 1 s = false) →
  Sys_create_pd_limit_upper r = 0 → type (Sys_create_pd_crd r) = 0 →
  sys_create_pd address object_at kern cur has_oom FRAME_T fuel r s = Some (Finish QUO_OOM, s') →
  ∃ x a, kobjs s' x = None ∧ caps s' cur (Sys_create_pd_sel r) = capability (address x) a ∧ truthy a = true ∧
    Crd.obj (caps s' cur (Sys_create_pd_sel r)) ≠ 0.
Proof.
  intros Hput Hnew HS Hr H0' Hoom Hlim Hup Hcrd. destruct (so_sys _ _ _ _ _ HS) as (L & R & HY & HH). pose proof (so_brk _ _ _ _ _ HS).
  assert (0 ≤ Sys_create_pd_sel r ∧ Sys_create_pd_sel r + 1 < 2 ^ 64) as [Hs0 Hs1] by by eapply selector.
  unfold sys_create_pd, checked, check. rewrite H0'. destruct (object_of_run object_at kern cur _ _ (Sys_create_pd_pd r) HS) as (k & Ek & Hk).
  rewrite Ek. cbn [mbind option_bind]. destruct (is_pd k) as [pd|] eqn:Epd; [|done]. specialize (Hlim k pd Ek Epd).
  destruct (may _ T_PD) eqn:Hmay; [|done]. cbn [negb]. destruct (_ <? _); [done|]. rewrite Hlim.
  set (sel := Sys_create_pd_sel r) in *. set (c := lookup_cap cur (Sys_create_pd_pd r) s) in *. set (x := brk (sps (wd s))) in *.
  assert (pd ≠ x) as Hpdx.
  { destruct k as [[y o]|]; [|done]. destruct (Hk y o eq_refl) as [Hy _]. simpl in Epd. destruct (k_body o); try done.
    injection Epd as <-. by eapply live_old. }
  destruct (new_kobj_run address kern cur user cur kern cur PD_CACHE sel (Crd.prm c) (PD false) s L R HY HH) as (s1 & E1 & _ & HF1); [fold x; lia|].
  fold x in E1, HF1. pose proof (new_kobj_wd _ _ _ _ _ _ _ _ _ _ E1) as Hz1.
  unfold pd_new. rewrite E1. cbn [mbind option_bind]. set (s2 := set_wd _ s1).
  destruct (set_limit (quotas (wd s2) x) _ _ _) as [[ok q] from] eqn:El.
  replace (quotas (wd s2) x) with quota_new in El by (unfold s2; cbn [wd set_wd quotas Pd.set_devs set_quota]; by rewrite fn_lookup_insert).
  destruct ok; cbn [negb]; [|by destruct (pd_delete _ _ _ _)].
  pose proof (set_limit_bare _ _ _ _ _ _ El Hup eq_refl) as Hq. set (s3 := set_wd (set_quota pd from _) s2).
  assert (fresh_root address kern cur x sel (Crd.prm c) (PD false) (kern, PD_CACHE) s s3 L R) as HF3 by by eapply fresh_env.
  assert (quotas (wd s3) x = q) as Hq3.
  { unfold s3. cbn [wd set_wd quotas set_quota]. by rewrite fn_lookup_insert_ne, fn_lookup_insert. }
  assert (devs (wd s3) x = Devices (replicate 7 0) 0 1) as Hd3.
  { unfold s3, s2. cbn [wd set_wd devs set_quota Pd.set_devs]. by rewrite fn_lookup_insert. }
  destruct (insert_root_run address object_at kern cur addresses user cur x _ _ _ _ _ _ _ _ _ HF3 user Hs0 Hs1) as (ok & s4 & E4 & K1 & K2 & K3 & (L' & R' & K4 & _ & K4') & K5);
    [fold x; lia|].
  rewrite E4. cbn [mbind option_bind]. destruct ok; cbn [negb]; [|by destruct (pd_delete _ _ _ _)].
  destruct (insert_root_wd _ _ _ _ _ E4) as (Hz4 & Hd4 & Hq4).
  assert (bare (quotas (wd s4) x)) as Hbare by by eapply bare_put.
  replace (pending HZD_OOM (wd s4)) with false by (unfold pending in *; by rewrite Hz4, <-Hoom, <-Hz1).
  intros Htail. apply create_pd_tail in Htail as [Hgone Hc6]; [|done|done|by rewrite Hd4, Hd3|].
  - exists x, (Crd.prm c). split; [done|]. rewrite Hc6.
    assert (caps s4 cur sel = capability (address x) (Crd.prm c)) as -> by by rewrite K5, decide_True.
    destruct (addresses x) as (_ & Hw & Hal & Hne); [fold x; lia|].
    assert (truthy (Crd.prm c) = true) as Ht by by eapply may_truthy.
    split; [done|]. split; [done|]. destruct (capability_roundtrip (address x) (Crd.prm c) Hw Hal) as [-> _]; [|by rewrite Ht].
    apply prm_word.
  - intros t b. apply (lookup_empty _ L' R'); [done|]. rewrite K4' by (apply other_subspace; intros Hxc; by apply (cur_old _ _ HS)).
    apply (empty_lookup _ _ _ _ HY). apply Hnew.
Qed.

(** *** Message areas that are parts of other regions *)

Lemma drop_node_wd leaf x (w w' : world E) : drop_node leaf x w = Some w' → env w' = env w.
Proof.
  unfold drop_node. destruct (remove_node _ _ _) as [[] m]; [|by intros [= <-]].
  destruct (tree_remove _ _) as [[ok sp]|]; [|done]. cbn [mbind option_bind]. intros [= <-]. by destruct ok.
Qed.

(** Only the root domain has a node for the message area of a context; the
    constructor of a context in another domain records nothing.  The end of a
    context removes the node that covers the address all the same: here the node
    of memory that was delegated to the domain, readable and writable and passed
    to nobody.  The node leaves its space and the ring of its derivation, so that
    neither looking it up nor revoking the memory in the domain it came from
    finds it again, and no page table is touched: all pages of the region but
    that of the message area, which the destructor unmaps next, stay mapped. *)
Theorem remove_utcb_strands pd u x s :
  placed kern (sps (wd s)) → pd ≠ kern → u ≠ 0 → let n := node_of (wd s) x in
  tree_lookup (subspace pd MEM) (u >> 12)%W false (sps (wd s)) = Some (Some x) →
  Z.land (node_attr n) (wnot 0x3) = 0 → dpth (node_of (wd s) (mdb_next n)) ≤ dpth n →
  insert_utcb pd u 0 s = Some (true, s) ∧
  ∃ ok s', remove_utcb pd u s = Some (ok, s') ∧ env (wd s') = env (wd s) ∧ kobjs s' = kobjs s ∧
    (∀ b, node_base n ≤ b < node_base n + 2 ^ node_order n → tree_lookup (subspace pd MEM) b false (sps (wd s')) = Some None) ∧
    ∃ L R, system (sps (wd s')) L R ∧ (x ∉ mjoin R).
Proof.
  intros (L & R & HY & HH) Hpd Hu n Hl Ha Hd. split; [done|].
  destruct (tree_lookup_spec (sps (wd s)) (subspace pd MEM) (L (subspace pd MEM)) (u >> 12)%W false) as (r & Hl' & Hr);
    [apply HY|eapply spaces_few; apply HY|]. rewrite Hl in Hl'. injection Hl' as <-. destruct Hr as [Hx _].
  set (w := demote x 0x3 (wd s)). assert (attr_only (mem (sps (wd s))) (mem (sps w))) as Hat by apply attr_only_upd.
  assert (system (sps w) L R) as HYw by by apply (system_attr (sps (wd s)) L R).
  pose proof (proj2 (sy_in _ _ _ HYw x) (ex_intro _ (subspace pd MEM) Hx)) as Hxr. destruct (rings_split _ _ Hxr) as (R1 & l1 & l2 & R2 & ->).
  assert (∀ y, space (node_of w y) = space (node_of (wd s) y) ∧ dpth (node_of w y) = dpth (node_of (wd s) y) ∧
    mdb_next (node_of w y) = mdb_next (node_of (wd s) y) ∧ ∀ b, region (mem (sps w)) y b ↔ region (mem (sps (wd s))) y b) as Hsame.
  { intros y. unfold node_of, region. by destruct (Hat y) as [a ->]. }
  destruct (drop_node_run w L R1 l1 x l2 R2 (subspace pd MEM)) as (w' & L' & Hdrop & HY' & Hkept & _ & _ & HL' & _);
    [done|done|destruct (Hsame x) as [-> _]; by apply HH|].
  assert (truthy (node_attr (node_of w x)) || has_children (mem (sps w)) x l2 = false) as Hgo.
  { apply orb_false_iff. split.
    - apply truthy_false. unfold w, demote, node_of, set_nodes, demote_node. cbn [sps set_sps set_mem mem]. by rewrite upd_at.
    - destruct l2 as [|y l2]; [done|]. destruct (rv_ring _ _ (sy_rings _ _ _ HYw) (l1 ++ x :: y :: l2)) as [Hring _];
        [apply elem_of_app; right; left|]. destruct (ring_around _ l1 x (y :: l2) Hring) as (Hn & _); [by destruct l1|].
      cbn [has_children]. cbn [List.hd app] in Hn. apply Z.ltb_ge. destruct (Hsame x) as (_ & Hdx & Hnx & _), (Hsame y) as (_ & Hdy & _).
      unfold node_of in *. rewrite Hdx, Hdy, <-Hn, Hnx. exact Hd. }
  rewrite Hgo in *. destruct (remove_utcb_found pd u x s w' Hu Hl Hdrop) as (ok & Hrun). exists ok, (set_wd w' s).
  split; [done|]. split; [cbn [wd set_wd]; by rewrite (drop_node_wd _ _ _ _ Hdrop)|]. split; [done|].
  assert (∀ k, x ∉ L' k) as Hout.
  { intros k [_ [|]]%HL'; done. }
  split; [|exists L', (R1 ++ (l1 ++ l2) :: R2); split; [done|]; intros Hin; apply (sy_in _ _ _ HY') in Hin as [k Hk]; by apply (Hout k)].
  intros b Hb. cbn [wd set_wd].
  destruct (tree_lookup_spec (sps w') (subspace pd MEM) (L' (subspace pd MEM)) b false) as (r & -> & Hr);
    [apply HY'|eapply spaces_few; apply HY'|]. destruct r as [y|]; [|done]. exfalso. destruct Hr as [Hy [Hreg|(? & _)]]; [|done].
  destruct (proj1 (HL' _ y) Hy) as [Hy0 _]. apply (Hout (subspace pd MEM)).
  replace x with y; [done|]. apply (region_unique (sps w) (subspace pd MEM) (L (subspace pd MEM)) y x b); [apply HYw|done|done| |].
  - unfold region, node_of in *. destruct (Hkept y) as (_ & _ & _ & _ & <- & <- & _). exact Hreg.
  - destruct (Hsame x) as (_ & _ & _ & ->). exact Hb.
Qed.
End spec.

(** ** Examples

    Capabilities in a table, memory without a price; domain 3 is [Pd::kern], 1 is
    the caller and 2 another domain.  The caller has capabilities for itself and
    for the other domain. *)
Definition table : Type := obj → Z → Z.
Definition place (x : obj) : Z := 32 * (Z.of_nat x + 1).
Definition placed_at (a : Z) : option obj := Some (Z.to_nat (a / 32 - 1)).

#[export] Instance table_pd : PdEnv table := {|
  node_alloc _ q e := (q, e);
  node_destroy _ q e := (q, e);
  update t n r qg q e := (false, false, qg, q, e);
  htlb_merge _ e := e;
  shootdown _ e := e;
  iommu_flush _ _ e := e;
  iommu_release _ _ e := e;
|}.

#[export] Instance table_obj : ObjEnv table := {|
  slab_alloc _ _ q e := (q, e);
  slab_free _ _ q e := (q, e);
  cap_at p i e := e p i;
  cap_put p i c q e := (q, λ p' i', if decide (p' = p ∧ i' = i) then c else e p' i');
  ec_setup _ _ _ _ _ q e := (0, q, e);
  ec_unmap _ _ q e := (q, e);
  ec_cleanup _ _ q e := (q, e);
  pd_clear _ q e := (q, e);
|}.

#[export] Instance table_ok : ObjEnvOk table.
Proof. by split. Qed.

Lemma places x : Z.of_nat x < 2 ^ 58 →
  placed_at (place x) = Some x ∧ word 64 (place x) ∧ place x mod 32 = 0 ∧ place x ≠ 0.
Proof.
  intros Hx. unfold placed_at, place, word. rewrite (Z.mul_comm 32), Z.div_mul, Z.mod_mul by done.
  split_and!; [f_equal; lia|lia|lia|done|lia].
Qed.

(** The spaces [solo s b o a] with room for four objects. *)
Definition demo_spaces (s : nat) (b o a : Z) : spaces := Spaces (mem (solo s b o a)) (tree (solo s b o a)) 4.
Definition demo_objects : obj → option kobject :=
  λ x, if decide (x = 1 ∨ x = 2)%nat then Some (Kobject (PD false) 1 (3%nat, PD_CACHE)) else None.
Definition demo_table : table :=
  λ p i, if decide (p = 1%nat ∧ i = 1) then capability (place 1) 0x1f
         else if decide (p = 1%nat ∧ i = 2) then capability (place 2) 0x1f else 0.
Definition demo_kernel (s : nat) (b o a : Z) : kernel table :=
  Kernel (World (demo_spaces s b o a) 0 false [] (λ _, Quota 0 0 100 0) (λ _, Devices (replicate 7 0) 0 1) demo_table)
    demo_objects [].

Lemma demo_system s b o a : aligned b o → 0 ≤ b → b + 2 ^ o < 2 ^ 64 → system (demo_spaces s b o a) (solo_nodes s) [[0%nat]].
Proof.
  intros Hal Hb Hlt. destruct (solo_system s b o a Hal Hb Hlt) as [[S1 S2 S3] S4 S5 S6 S7]. split; [split|done..]; [|done|done].
  intros s'. destruct (S1 s') as [T1 T2 T3 T4]. split; [done..|]. intros x Hx. specialize (T4 x Hx). simpl in *. lia.
Qed.

Lemma demo_placed s b o a : aligned b o → 0 ≤ b → b + 2 ^ o < 2 ^ 64 → placed 3 (demo_spaces s b o a).
Proof.
  intros Hal Hb Hlt. exists (solo_nodes s), [[0%nat]]. split; [by apply demo_system|]. intros p x _. unfold solo_nodes.
  destruct (decide _) as [<-|]; [done|by intros ?%elem_of_nil].
Qed.

Lemma objects_sound s b o a : aligned b o → 0 ≤ b → b + 2 ^ o < 2 ^ 64 → HypercallSound.sound placed_at 3 1 9 (demo_kernel s b o a).
Proof.
  intros Hal Hb Hlt. split.
  - by apply demo_placed.
  - done.
  - intros p i. unfold caps. cbn [demo_kernel wd env]. simpl cap_at. unfold demo_table.
    destruct (decide _); [|destruct (decide _)]; intros Hc; [by exists 1%nat|by exists 2%nat|done].
  - intros x o'. cbn [demo_kernel kobjs]. unfold demo_objects. destruct (decide _); [|done]. by intros [= <-].
  - intros x o'. cbn [demo_kernel kobjs]. unfold demo_objects. destruct (decide _); [|done]. by intros [= <-].
  - intros x [o' Hx]. revert Hx. cbn [demo_kernel kobjs wd sps demo_spaces brk]. unfold demo_objects. destruct (decide _); [lia|done].
  - by exists None, (3%nat, PD_CACHE).
  - simpl. lia.
Qed.

(** Registers with five arguments. *)
Definition args (a b c d e : Z) : Vregs.mem := wr ARG_5 e (wr ARG_4 d (wr ARG_3 c (wr ARG_2 b (wr ARG_1 a (λ _, 0))))).

Lemma args_word a b c d e i : word 64 a → word 64 b → word 64 c → word 64 d → word 64 e → word 64 (args a b c d e i).
Proof.
  intros ? ? ? ? ?. unfold args, wr. repeat (destruct (_ =? _); [done|]). done.
Qed.

#[local] Abbreviation run_call := (call place placed_at 3 1 1 false (λ _, true) false 1000 (λ _, 0) (λ _, 0) (λ _, 0)).

(** Selector 9 of the caller is taken; the next request is for selector 10. *)
#[local] Abbreviation demo := (demo_kernel (subspace 1 OBJ) 9 0 3).
#[local] Abbreviation ask b := (args (10 * 2 ^ 9) b 5 0 0).

Lemma taken_ready : HypercallSound.sound placed_at 3 1 9 demo.
Proof. by apply objects_sound. Qed.





Lemma create_sm_foreign_witness :
  sys_create_sm place placed_at 3 1 false (args (9 * 2 ^ 9) 2 5 0 0) demo = None.
Proof.
  apply (create_sm_foreign place placed_at 3 1 false places ltac:(done) 8 _ _ 2 0); try done.
  - exact taken_ready.
  - eexists. split; [by vm_compute|done].
Defined.

(** The topology pages lie in a region of memory of [Pd::kern]. *)
#[local] Abbreviation demo_pages := (demo_kernel (subspace 3 MEM) 0x500 6 7).
#[local] Abbreviation no_memory := (args (10 * 2 ^ 9) 1 0 0 0).

Lemma pages_sound : HypercallSound.sound placed_at 3 1 9 demo_pages.
Proof. by apply objects_sound. Qed.

Lemma no_memory_word : word 64 (no_memory ARG_1).
Proof. by apply args_word. Qed.

Lemma pages_limit k pd : object_of placed_at (lookup_cap 1 (Sys_create_pd_pd no_memory) demo_pages) demo_pages = Some k →
  is_pd k = Some pd → over_limit pd 1 demo_pages = false.
Proof. intros Hk Hpd. vm_compute in Hk. injection Hk as <-. vm_compute in Hpd. by injection Hpd as <-. Qed.

Lemma create_pd_dangles_witness :
  ∃ s' x a, sys_create_pd place placed_at 3 1 false 0x520000 10 no_memory demo_pages = Some (Finish QUO_OOM, s') ∧
    kobjs s' x = None ∧ caps s' 1 10 = capability (place x) a ∧ truthy a = true ∧ Crd.obj (caps s' 1 10) ≠ 0.
Proof.
  destruct (sys_create_pd place placed_at 3 1 false 0x520000 10 no_memory demo_pages) as [[out s']|] eqn:Hrun.
  - assert (fst <$> sys_create_pd place placed_at 3 1 false 0x520000 10 no_memory demo_pages = Some (Finish QUO_OOM)) as Hout by by vm_compute.
    rewrite Hrun in Hout. injection Hout as ->.
    destruct (create_pd_dangles place placed_at 3 1 false places ltac:(done) 0x520000 10 8 no_memory demo_pages s') as (x & a & Hx).
    + intros p i c q e Hq. exists (used q). split; [exact Hq|]. destruct q; reflexivity.
    + intros [] b; reflexivity.
    + exact pages_sound.
    + exact no_memory_word.
    + vm_compute; reflexivity.
    + vm_compute; reflexivity.
    + exact pages_limit.
    + vm_compute; reflexivity.
    + vm_compute; reflexivity.
    + exact Hrun.
    + exists s', x, a. split; [reflexivity|exact Hx].
  - exfalso. assert (fst <$> sys_create_pd place placed_at 3 1 false 0x520000 10 no_memory demo_pages = Some (Finish QUO_OOM)) as Hout by by vm_compute.
    rewrite Hrun in Hout. discriminate Hout.
Defined.

(** Four writable pages of the caller, 0x10 to 0x13; a context has its message
    area in the third. *)
#[local] Abbreviation demo_area := (demo_kernel (subspace 1 MEM) 0x10 2 3).

Lemma remove_utcb_strands_witness :
  ∃ ok s', remove_utcb 1 0x12000 demo_area = Some (ok, s') ∧ env (wd s') = env (wd demo_area) ∧
    tree_lookup (subspace 1 MEM) 0x10 false (sps (wd demo_area)) = Some (Some 0%nat) ∧
    tree_lookup (subspace 1 MEM) 0x10 false (sps (wd s')) = Some None.
Proof.
  destruct (remove_utcb_strands 3 1 0x12000 0 demo_area) as (_ & ok & s' & Hrun & He & _ & Hl & _); try done.
  - by apply demo_placed.
  - exists ok, s'. split; [exact Hrun|]. split; [exact He|]. split; [done|]. by apply Hl.
Defined.
